(* ===== verification/_CoqProject ===== *)
-Q . S2P
Prelude.v
BTree.v
Meta.v
CellTree.v
Encoding.v
Keys.v
Strconv.v
Sortable.v
Goetty.v
Resp.v
Codec.v
Routing.v
Heap.v
Files.v
IdAlloc.v
IdSource.v
Uuid.v
Election.v
PDClient.v
StoreCache.v
CellCache.v
Operators.v
Float64.v
Scheduling.v
MetaStore.v
Cluster.v
ClusterProps.v
OffsetQueue.v
Queue.v
Watcher.v
KVTree.v
RaftTypes.v
RaftLog.v
RaftApply.v
ApplyProps.v
RedisTable.v
Propose.v
ProposeProps.v
Reply.v
RedisExec.v
RedisProps.v
Proxy.v
ProxyProps.v
Store.v
StoreProps.v
StoreLifecycle.v
Bootstrap.v
PeerLoop.v
EventLoop.v
Snapshot.v
SnapshotProps.v
Transport.v
GenSnap.v
Runner.v
Index.v
IndexProps.v
PDIndex.v
PDApi.v
Query.v
QueryProps.v
RedisServer.v
ServerProps.v
