(* ===== verification/Prelude.v ===== *)
(** * Elasticell: a verification development

    Elasticell (src/pkg) is a distributed redis: a placement driver (PD) keeps
    the map of the cluster and moves replicas around, stores keep cells (ranges
    of keys) replicated with raft and execute redis commands on them, proxies
    route commands to stores.  This library models the parts that decide
    something and proves what they promise to each other.

    ** The parts and the files

    - Shared vocabulary: Prelude (outcomes of Go functions, uint64, byte strings
      and bytes.Compare, ranging over Go maps), BTree (the ordered tree of
      google/btree as an interface, with sorted lists as an instance), Meta
      (metapb: cells, peers, stores, epochs), Encoding (pkg/util/bytes.go).
    - pkg/util: CellTree (cell_tree.go, the index from keys to cells), KVTree
      (kv_tree.go and the engine interface of pkg/storage), OffsetQueue
      (queue_offset.go), Queue (queue.go), Heap (priority_queue.go,
      ordered_array.go and container/heap under them), Strconv and Sortable (the
      numbers of bytes.go), Routing (keys.go and the session and request tables of
      pkg/server and pkg/proxy), Uuid (pkg/util/uuid), Runner (task.go: named
      queues, workers, cancelling and stopping).
    - The wire: Goetty (the buffer and read loop of the vendored network library,
      and what a codec owes to them), Resp (its redis protocol), Codec (pkg/redis,
      pkg/codec, codec.go of pkg/raftstore), Reply (the replies of pkg/redis).
    - PD (pkg/pdserver): IdAlloc and IdSource (alloc.go, store_id.go against
      etcd), StoreCache and CellCache (cache_store.go, cache_cell.go), Operators
      (operator*.go, coordinator.go), Float64 (the float64 arithmetic of the
      scores), Scheduling (filter.go, selector.go, balancer*.go, replication.go),
      MetaStore (store.go, store_cluster.go), Cluster (cluster.go, cache.go,
      coordinator.go, the handlers of rpc_handler.go and api_handler.go) with its
      theorems in ClusterProps, Watcher (watcher.go of PD and pkg/pd/watcher.go,
      the client side), Election (server_leader.go, store_leader.go, rpc_proxy.go:
      the leader loops of several servers against one etcd), PDClient
      (pkg/pd/client.go and the forwarding of rpc_handler.go), PDIndex
      (store_index.go of PD: the definitions of indexes), PDApi (pkg/pdapi and the
      rest of api_handler.go: the HTTP API and its redirection to the leader).
    - Starting: Bootstrap (pkg/node: nodes that found a cluster or join it, as
      programs that call PD and their engines and may stop at any call; the cluster
      id and the init parameters of store_cluster.go and server.go).
    - Stores (pkg/raftstore): Keys (keys.go), RaftTypes (the messages, errors.go,
      util.go), RaftLog (peer_storage.go, raft_handle_do.go: raft.Storage,
      persisting a Ready, compaction), RaftApply (raft_apply.go,
      raft_apply_cmd.go, cmd.go: applying committed entries) with its theorems in
      ApplyProps; RedisTable (the command tables of redis.go and of the redis
      server), Propose (propose_batch.go, the proposing half of peer_raft.go,
      cmd.go, the read index queue) with its theorems in ProposeProps; Store
      (store.go, store_check.go, peer.go, peer_job.go, the store half of
      raft_handle_do.go, the jobs of pkg/util/task.go) with its theorems in
      StoreProps (routing) and StoreLifecycle (destroying, restarting, cleaning
      up); PeerLoop (the rest of peer.go and peer_raft.go: messages to other peers,
      reports, split checks, the end of the loop, document ids), EventLoop (the
      event loop of a replicate: its ring of events, its queues and ticks); Files (the file
      system with its failures, pkg/util/compress.go), Snapshot (snap.go and the
      snapshots of the memory engine) with its theorems in SnapshotProps, Transport
      (transport.go), GenSnap (generating snapshots, in raft_handle_do.go and
      peer_job.go); Index (store_index.go: the secondary index, its definitions,
      documents and queue of requests) with its theorems in IndexProps, Query
      (store_query.go) with its theorems in QueryProps; RedisExec (the
      handlers of redis_*.go over the engines of pkg/storage) with its theorems in
      RedisProps; RedisServer (pkg/server: sessions, the handlers that check
      commands, requests of proxies) with its theorems in ServerProps.
    - Proxies (pkg/proxy): Proxy (sessions, aggregations, workers, retries,
      backends, the view of the cluster) with its theorems in ProxyProps.

    A command of a client enters a proxy (Proxy), which routes it by its own cell
    tree and forwards it to a store; there the redis server (RedisServer) decodes
    it (Codec) and hands it to [OnProxyReq] (Store), which routes it by the cell
    tree (CellTree) to a replicate; there it is batched and proposed (Propose);
    raft hands back a Ready, which is persisted (RaftLog) and whose committed
    entries the apply delegate executes (RaftApply); the results change the
    replicates and ranges of the store again (Store).  PD (Cluster) hears of cells
    by heartbeats, answers with operators and grants split ids.

    A component is a Section or a file: its state is a Record with the fields of
    the Go struct, its operations are functions of the same names.  A Go function
    that may return an error or panic returns an [outcome]; PD handlers are a
    state and error monad over the whole server state; concurrency is a sequence
    of atomic steps, one per critical section.  Code outside the repository is a
    parameter or a class: etcd transactions and their failures (IdAlloc), the
    ordered tree (BTree), the engine (KVTree), the order of Go map iteration
    (Prelude), the raft library and the data engines (Store, RedisExec), the
    text of floats and of strconv errors (Strconv), generated marshalling (Codec),
    archives (Files), the indexer and its selections (Snapshot, Index, Query),
    regular expressions (Index), the parser of queries (Query).
    RaftApply and Propose take the redis handlers as arguments; RedisExec provides
    them.

    ** What the theorems show

    - Routing: Search of the cell tree is the lookup of a partition of the key
      space (C1; [Update_replaces_overlaps] is the step); a store hands a request to the replicate whose cell
      contains its key, after any sequence of messages, splits, membership
      changes, snapshots, jobs and restarts (C2), and a query to the query loop
      ([split_windows] says what a request meets while a split is half applied); the keys of the
      store's engines never collide ([store_keys_never_collide]).
    - The request path: every request ends up in one command with one fate
      (C7); replicas agree (C4), applied entries are durable (C5), a
      split divides a cell (C9); what raft asks to persist is durable (C6)
      and raft.Storage reads exactly the log (C25); the memory engine
      refines a finite map (C34); compaction forgets a prefix ([compaction_drops_prefix]), what
      the leader proposes to compact (C37), which membership changes are let
      through (C36).  The event loop serves what is put into its queues: items
      are served in their order or dropped when the loop ends, and no wake-up is lost
      (C8).
    - The life of a replicate: tombstones refuse old messages (C28), starting
      keeps the data of the cells ([start_keeps_cell_data]); the ids its indexed documents get
      are unique in the cluster ([doc_ids_unique]).
    - Snapshots: a snapshot that is created, sent in pieces, received and applied
      moves a cell (C10), and a generated one, read step by step while the replicate goes on, has
      an index that was applied, its term, a cell and members of later moments, and is older than neither the kept log nor the members (C11; [snapshot_attempts] bounds the attempts); the transport sends a pending snapshot
      completely ([snapshot_reaches_peer]) and loses none to a failure while its lock is free (C19).
    - The secondary index: documents and keys correspond one to one, a command keeps
      the index in step with its key (C20), a split moves the documents of the
      right cell (C22), a round of the queue ends ([serve_index_ends]).  Queries: a query to a store that
      knows the ranges is answered once, after a bounded number of responses, with the documents it asks
      for (C21), within its limit ([answer_within_limit]); a store responds for
      every cell it is asked for ([store_answers_every_cell]), a query keeps its meaning on its way ([select_survives]),
      the ranges of PD give every cell one store to ask ([refresh_gives_every_cell]).
    - The front end: messages survive any fragmentation of the connection (C23);
      a proxy keeps every request in one place until it is answered, apart from the extra error answers of failed
      writes (C3), and
      answers MGET in the order of its keys ([mget_in_key_order]); a server accounts for every
      request of a proxy ([proxied_requests_accounted]) and hands responses to the session they are for
      (C24); every handler answers once (C26); locks exclude (C27); the
      integers of indexed floats order as the floats (C38).
    - PD: allocated ids are unique over any interleaving of PD servers and faults
      (C13); there is at most one leader (C12), an election ends (C17), calls
      reach the leader although requests and replies are lost (C18); epochs never go back while one server leads
      after the other, nor in the cache of any of several that overlap (C15), store states never do
      ([store_states_never_go_back]); the effect of a heartbeat (C31); a restarted PD
      has what was saved ([start_rebuilds_caches], C35); unique
      addresses ([store_addresses_unique]), fresh split ids ([askSplit_ids_fresh]), bounded schedules ([schedules_bounded]); the
      cell cache is consistent (C29); the limiter counts the operators
      ([limiter_counts_operators]) and a transferred peer is added before the old one is removed (C30);
      selectors and the replica checker pick what they promise ([selectors_pick_extremal_store], [Check_sound]).
    - Starting: however many nodes start at once and wherever they stop, PD takes the
      cells of one of them, which hold every key or every hash below the largest, and
      no later start changes them (C14); how a start ends ([node_start_cases]); PD
      servers agree on one cluster id ([servers_agree_on_cluster]); stores learn the definitions of indexes
      that PD has ([stores_learn_index_definitions]); the API of PD shows what the leader keeps
      ([api_shows_cluster]) and a request to it is executed by leaders, after one redirection at most
      ([redirected_once]); UUIDs survive their text and time based ones are
      unique ([uuid_text_roundtrip], [v1_uuids_unique]).
    - Queues and watchers: the jobs of a named queue are handled in order, each once,
      and dropped only by stopping (C33); [offset_queue_refines_history] and C32, what an ordered
      array keeps ([ordered_array_keeps_smallest]), exactly-once delivery to a watcher from a registration to
      the next interruption (C16).
    - Defects, stated as theorems: a membership change without effect wedges a cell
      (C40), rebuilding an index empties it ([rebuild_empties_index]), a late response to a query stops the
      store ([late_response_stops_store]), a node that loses the race to bootstrap keeps its cells (C39).  Further theorems: commands without a handler stop a store, PD
      may be left without a leader, a deposed leader overwrites newer epochs ([deposed_leader_overwrites_epochs]), a session
      that waits for a response is never closed ([waiting_session_leaks]), a failed lookup blocks the transport, a hash
      that cannot be indexed blocks the queue of the index, the documents of a query
      are in the wrong order when their values are far apart ([document_order]), a deposed leader with watchers blocks itself, an outage of PD breaks a
      client, two servers forward a call to each other, a failed write or a retried
      creation makes an incomplete snapshot, an MGET whose id contains the separator
      hangs, replies of a connection are in the order of the stores, a store ignores
      redis clients, a batched SET undoes an INCR, two requests to destroy a
      replicate stop a store, a restart forgets tombstones, a broken pull stops a
      watcher, a race undoes the deletion of a store, ZRANGEBYSCORE stops a proxy,
      the memory engine's inclusive scan breaks Entries, a new replicate may
      displace the range of another.

    ** Bounds and fuel

    Integers are Z with the wrap-around of uint64 and uint32 written out ([u64],
    [u32]); theorems that need it assume that indexes and epochs are below 2^64.
    Fuel is used by the page loop of MetaStore, bounded by the number of records
    ([load_meta_complete] shows that it is enough), the batch loop of
    [doApplyReads], bounded by the size of the batch, the read loop of Goetty,
    bounded by the bytes of the buffer ([drain_spec]), the digits of a number
    (Strconv), the nesting of replies in Resp, which the source does not bound, and
    the sift loops of Heap, bounded by the number of items ([PQ_Put_ok]), the cutting
    and loading of snapshot files, bounded by their bytes ([cut_concat],
    [load_entries_ok]), the round of the index queue, bounded by its requests
    ([serve_index_ends]), the hops of a request in PDApi, of which
    two are enough ([redirected_once]), and in PDClient the attempts of a call and how often it is
    forwarded, which its deadline bounds.
    Everything else is structural recursion on lists.

    ** Not modelled

    Generated marshalling (the classes [Proto] and [LeaderProto]), logging, metrics,
    object pools, timers other than as events, sockets, gRPC plumbing, net/http and JSON,
    embedding etcd, the C++ engine behind pkg/storage/nemo_*.go, the goroutine that
    deletes old snapshot files, the texts of query statements, reading configuration and command lines, and the raft library, which the store only meets through its Status, entries, Ready
    and ConfChange. *)

From Stdlib Require Import Orders OrdersTac Sorted.
From Corelib Require Export Init.Byte.
From Stdlib Require Import Strings.Byte.
From stdpp Require Export base gmap list sets sorting strings.

#[global] Open Scope Z_scope.

(** ** Outcomes of Go functions

    A Go function either returns normally, returns a non-nil [error], or
    panics (a nil dereference, an explicit [panic] or [log.Fatalf]). *)
Inductive outcome (E A : Type) : Type :=
  | Ok (a : A)
  | Err (e : E)
  | Panic.
Arguments Ok {E A} a.
Arguments Err {E A} e.
Arguments Panic {E A}.

Definition outcome_bind {E A B} (m : outcome E A) (f : A → outcome E B) : outcome E B :=
  match m with
  | Ok a => f a
  | Err e => Err e
  | Panic => Panic
  end.

Declare Scope outcome_scope.
Delimit Scope outcome_scope with outcome.
Notation "'let!' x ':=' m 'in' k" := (outcome_bind m (λ x, k))
  (at level 10, x pattern, m at level 100, k at level 200)
  : outcome_scope.
#[global] Open Scope outcome_scope.

(** ** Machine integers: Go's [uint64], [uint32] arithmetic wraps around. *)
Definition two64 : Z := 18446744073709551616.
Definition two32 : Z := 4294967296.
Definition u64 (z : Z) : Z := z `mod` two64.
Definition u32 (z : Z) : Z := z `mod` two32.
Definition is_u64 (z : Z) : Prop := 0 ≤ z < two64.

Create HintDb go.

Lemma u64_small z : is_u64 z → u64 z = z.
Proof. intros H; apply Z.mod_small, H. Qed.

Lemma u64_bounds z : is_u64 (u64 z).
Proof. apply Z.mod_pos_bound; done. Qed.
#[export] Hint Resolve u64_bounds : go.

(** ** Byte strings and [bytes.Compare] *)
Abbreviation bytes := (list byte).

#[export] Instance byte_eq_decision : EqDecision byte := Byte.byte_eq_dec.
#[export] Instance byte_countable : Countable byte.
Proof. refine (inj_countable Byte.to_N Byte.of_N Byte.of_to_N). Defined.

Fixpoint bytes_compare (a b : bytes) : comparison :=
  match a, b with
  | [], [] => Eq
  | [], _ :: _ => Lt
  | _ :: _, [] => Gt
  | x :: a', y :: b' =>
      match N.compare (Byte.to_N x) (Byte.to_N y) with
      | Eq => bytes_compare a' b'
      | c => c
      end
  end.

Definition blt (a b : bytes) : Prop := bytes_compare a b = Lt.
Definition ble (a b : bytes) : Prop := bytes_compare a b ≠ Gt.
Definition bltb (a b : bytes) : bool := match bytes_compare a b with Lt => true | _ => false end.
Definition bleb (a b : bytes) : bool := match bytes_compare a b with Gt => false | _ => true end.

Lemma byte_to_N_inj x y : Byte.to_N x = Byte.to_N y → x = y.
Proof.
  intros H. apply (f_equal Byte.of_N) in H.
  rewrite !Byte.of_to_N in H. congruence.
Qed.

Lemma byte_to_N_bound x : (Byte.to_N x < 256)%N.
Proof. pose proof (Byte.to_N_bounded x). lia. Qed.

Lemma bytes_compare_refl a : bytes_compare a a = Eq.
Proof. induction a as [|x a IH]; simpl; [done|]. by rewrite N.compare_refl. Qed.

Lemma bytes_compare_eq a b : bytes_compare a b = Eq → a = b.
Proof.
  revert b; induction a as [|x a IH]; intros [|y b]; simpl; try done.
  destruct (N.compare_spec (Byte.to_N x) (Byte.to_N y)); try done.
  intros ?%IH. f_equal; [by apply byte_to_N_inj | done].
Qed.

Lemma bytes_compare_antisym a b : bytes_compare b a = CompOpp (bytes_compare a b).
Proof.
  revert b; induction a as [|x a IH]; intros [|y b]; simpl; try done.
  rewrite (N.compare_antisym (Byte.to_N x)).
  destruct (N.compare (Byte.to_N x) (Byte.to_N y)); simpl; auto.
Qed.

Lemma blt_trans a b c : blt a b → blt b c → blt a c.
Proof.
  unfold blt. revert b c; induction a as [|x a IH]; intros [|y b] [|z c]; simpl; try done.
  destruct (N.compare_spec (Byte.to_N x) (Byte.to_N y)) as [E1|E1|E1];
    destruct (N.compare_spec (Byte.to_N y) (Byte.to_N z)) as [E2|E2|E2]; try done;
    intros H1 H2.
  - rewrite E1, E2, N.compare_refl. by apply (IH b).
  - rewrite E1. by apply N.compare_lt_iff in E2 as ->.
  - rewrite <-E2. by apply N.compare_lt_iff in E1 as ->.
  - assert (Byte.to_N x < Byte.to_N z)%N as E3 by lia. by apply N.compare_lt_iff in E3 as ->.
Qed.

Lemma blt_irrefl a : ¬ blt a a.
Proof. unfold blt. by rewrite bytes_compare_refl. Qed.

Lemma ble_lteq a b : ble a b ↔ blt a b ∨ a = b.
Proof.
  unfold ble, blt. split.
  - destruct (bytes_compare a b) eqn:E; [|tauto|done].
    right. by apply bytes_compare_eq.
  - intros [->| ->]; [done|]. by rewrite bytes_compare_refl.
Qed.

Lemma blt_total a b : blt a b ∨ a = b ∨ blt b a.
Proof.
  unfold blt. rewrite (bytes_compare_antisym a b).
  destruct (bytes_compare a b) eqn:E; simpl; [|tauto|tauto].
  right; left. by apply bytes_compare_eq.
Qed.

Lemma blt_ne a b : a ≠ b → blt a b ∨ blt b a.
Proof. destruct (blt_total a b) as [|[|]]; tauto. Qed.

Lemma bltb_spec a b : reflect (blt a b) (bltb a b).
Proof. unfold blt, bltb. by destruct (bytes_compare a b); constructor. Qed.

Lemma bleb_spec a b : reflect (ble a b) (bleb a b).
Proof. unfold ble, bleb. destruct (bytes_compare a b); constructor; congruence. Qed.

Lemma bltb_lt a b : bltb a b = true ↔ blt a b.
Proof. by destruct (bltb_spec a b). Qed.
Lemma bleb_le a b : bleb a b = true ↔ ble a b.
Proof. by destruct (bleb_spec a b). Qed.

(** The total order on byte strings as the standard library's [order] tactic
    expects it; [border] closes any goal that follows from the order laws. *)
Module BytesOrder <: TotalOrder.
Definition t := bytes.
Definition eq := @Logic.eq bytes.
Definition lt := blt.
Definition le := ble.
#[global] Instance eq_equiv : Equivalence eq := _.
#[global] Instance lt_strorder : StrictOrder lt.
Proof. split; [exact blt_irrefl | exact blt_trans]. Qed.
#[global] Instance lt_compat : Proper (eq ==> eq ==> iff) lt.
Proof. by intros ?? -> ?? ->. Qed.
Lemma le_lteq x y : le x y ↔ lt x y ∨ eq x y.
Proof. apply ble_lteq. Qed.
Lemma lt_total x y : lt x y ∨ eq x y ∨ lt y x.
Proof. apply blt_total. Qed.
End BytesOrder.

Module BytesTac := MakeOrderTac BytesOrder BytesOrder.

Ltac border :=
  change blt with BytesOrder.lt in *; change ble with BytesOrder.le in *;
  change (@Logic.eq bytes) with BytesOrder.eq in *;
  BytesTac.order.

#[export] Instance blt_dec a b : Decision (blt a b).
Proof. refine (cast_if (decide (bltb a b = true))); by rewrite <-bltb_lt. Defined.
#[export] Instance ble_dec a b : Decision (ble a b).
Proof. refine (cast_if (decide (bleb a b = true))); by rewrite <-bleb_le. Defined.

Lemma nil_ble a : ble [] a.
Proof. by destruct a. Qed.
#[export] Hint Resolve nil_ble blt_irrefl : go.

(** ** Lists *)
Lemma list_filter_none {A} (P : A → Prop) `{!∀ x, Decision (P x)} l :
  Forall (λ x, ¬ P x) l → filter P l = [].
Proof. induction 1; [done|]. by rewrite filter_cons_False. Qed.

Lemma list_filter_all {A} (P : A → Prop) `{!∀ x, Decision (P x)} l :
  Forall P l → filter P l = l.
Proof. induction 1 as [|x l Hx Hl IH]; [done|]. rewrite filter_cons_True by done. by rewrite IH. Qed.

Lemma StronglySorted_snoc {A} (R : A → A → Prop) l x :
  StronglySorted R l → Forall (λ y, R y x) l → StronglySorted R (l ++ [x]).
Proof.
  induction 1 as [|y l Hs IH HF]; intros Hx; simpl; [repeat constructor|].
  inversion_clear Hx. constructor; [auto|]. apply Forall_app; auto.
Qed.

Lemma StronglySorted_reverse {A} (R : A → A → Prop) l :
  StronglySorted R l → StronglySorted (flip R) (reverse l).
Proof.
  induction 1 as [|x l Hs IH HF]; [constructor|].
  rewrite reverse_cons. apply StronglySorted_snoc; [done|]. by apply Forall_reverse.
Qed.

Lemma StronglySorted_impl {A} (R Q : A → A → Prop) l :
  (∀ x y, R x y → Q x y) → StronglySorted R l → StronglySorted Q l.
Proof. induction 2; constructor; [done|]. eapply Forall_impl; eauto. Qed.

Lemma StronglySorted_fmap {A B} (f : A → B) (R : B → B → Prop) l :
  StronglySorted (λ x y, R (f x) (f y)) l → StronglySorted R (f <$> l).
Proof. induction 1; simpl; constructor; [done|]. by apply Forall_fmap. Qed.

Lemma lookup_snoc_last {A} (l : list A) x : (l ++ [x]) !! (length (l ++ [x]) - 1)%nat = Some x.
Proof. rewrite length_app; simpl. replace (length l + 1 - 1)%nat with (length l) by lia. apply list_lookup_middle; done. Qed.

(** ** Ranging over a Go map

    [for k, v := range m] visits every entry once, in an order the language
    leaves open.  Code that ranges over a map is stated against this class, so
    its theorems hold for every order. *)
Class MapOrder := {
  map_range {V : Type} : gmap Z V → list (Z * V);
  map_range_perm {V : Type} (m : gmap Z V) : map_range m ≡ₚ map_to_list m;
}.
#[export] Instance default_map_order : MapOrder := {|
  map_range V := map_to_list;
  map_range_perm V m := reflexivity _;
|}.

Definition range_values `{MapOrder} {V} (m : gmap Z V) : list V := (map_range m).*2.
Definition range_keys `{MapOrder} {V} (m : gmap Z V) : list Z := (map_range m).*1.

Lemma elem_of_map_range `{MapOrder} {V} (m : gmap Z V) k v : (k, v) ∈ map_range m ↔ m !! k = Some v.
Proof. by rewrite map_range_perm, elem_of_map_to_list. Qed.

Lemma elem_of_range_values `{MapOrder} {V} (m : gmap Z V) v :
  v ∈ range_values m ↔ ∃ k, m !! k = Some v.
Proof.
  unfold range_values. rewrite list_elem_of_fmap. setoid_rewrite <-elem_of_map_range. split.
  - intros ([k v'] & -> & Hin). eauto.
  - intros [k Hin]. by exists (k, v).
Qed.

Lemma elem_of_range_keys `{MapOrder} {V} (m : gmap Z V) k : k ∈ range_keys m ↔ is_Some (m !! k).
Proof.
  unfold range_keys, is_Some. rewrite list_elem_of_fmap. setoid_rewrite <-elem_of_map_range. split.
  - intros ([k' v'] & -> & Hin). eauto.
  - intros [v Hin]. by exists (k, v).
Qed.

Lemma map_range_empty `{MapOrder} {V} : map_range (∅ : gmap Z V) = [].
Proof. apply Permutation_nil_r. by rewrite map_range_perm, map_to_list_empty. Qed.

(** A loop over the elements that stops at the first one satisfying [f]. *)
Fixpoint find_map {A B} (f : A → option B) (l : list A) : option B :=
  match l with
  | [] => None
  | x :: l' => match f x with Some y => Some y | None => find_map f l' end
  end.

Lemma find_map_Some {A B} (f : A → option B) l y :
  find_map f l = Some y → ∃ x, x ∈ l ∧ f x = Some y.
Proof.
  induction l as [|x l IH]; simpl; [done|]. destruct (f x) eqn:E.
  - intros [= ->]. exists x. by split; [left|].
  - intros (x' & ? & ?)%IH. exists x'. by split; [right|].
Qed.

Lemma find_map_None {A B} (f : A → option B) l :
  find_map f l = None ↔ Forall (λ x, f x = None) l.
Proof.
  induction l as [|x l IH]; simpl; [by rewrite Forall_nil|]. rewrite Forall_cons.
  destruct (f x); naive_solver.
Qed.
