(* ===== verification/BTree.v ===== *)
(** * The ordered tree the caches are built on

    [util.CellTree] and [util.KVTree] keep their items in a
    [github.com/google/btree] tree.  The class [OrderedTree] states what that
    package documents of the operations the repository calls: the items are
    kept in the order of the items' own [Less], at most one item per
    equivalence class.  The components above are proved against the class;
    the instance at the end of the file, a sorted list, discharges it and makes
    the models executable. *)

From Stdlib Require Import Sorted.
From S2P Require Import Prelude.

(** A Go [Less] method: a strict weak order. *)
Class LessOrder {A : Type} (less : A → A → bool) : Prop := {
  less_irrefl x : less x x = false;
  less_trans x y z : less x y = true → less y z = true → less x z = true;
  less_cotrans x y z : less x z = true → less x y = true ∨ less y z = true;
}.

(** The operations of the tree used by the repository, and their laws. *)
Class OrderedTree (A : Type) (less : A → A → bool) (T : Type) := {
  ot_empty : T;
  ot_items : T → list A;
  ot_replaceOrInsert : A → T → T;
  ot_delete : A → T → option A * T;
  ot_wf : T → Prop;
  ot_empty_wf : ot_wf ot_empty;
  ot_empty_items : ot_items ot_empty = [];
  ot_sorted t : ot_wf t → StronglySorted (λ x y, less x y = true) (ot_items t);
  ot_insert_wf x t : ot_wf t → ot_wf (ot_replaceOrInsert x t);
  ot_insert_items x t y : ot_wf t →
    y ∈ ot_items (ot_replaceOrInsert x t) ↔
    y = x ∨ y ∈ ot_items t ∧ (less x y = true ∨ less y x = true);
  ot_delete_wf x t : ot_wf t → ot_wf (ot_delete x t).2;
  ot_delete_items x t y : ot_wf t →
    y ∈ ot_items (ot_delete x t).2 ↔
    y ∈ ot_items t ∧ (less x y = true ∨ less y x = true);
  ot_delete_found x t y : ot_wf t →
    (ot_delete x t).1 = Some y ↔
    y ∈ ot_items t ∧ less x y = false ∧ less y x = false;
}.

Section iterators.
Context {A : Type} {less : A → A → bool} {T : Type} `{OT : !OrderedTree A less T}.

(** A Go iterator callback over accumulated state: it returns the new state and
    whether to go on. *)
Fixpoint iterate {S : Type} (fn : S → A → S * bool) (s : S) (l : list A) : S :=
  match l with
  | [] => s
  | x :: l' => let '(s', continue) := fn s x in
               if continue : bool then iterate fn s' l' else s'
  end.

(** [Len], and the ranges the iterators visit, in visiting order. *)
Definition ot_len (t : T) : nat := length (ot_items t).
Definition ascendGreaterOrEqual (pivot : A) (t : T) : list A :=
  filter (λ y, less y pivot = false) (ot_items t).
Definition descendLessOrEqual (pivot : A) (t : T) : list A :=
  reverse (filter (λ y, less pivot y = false) (ot_items t)).
Definition descend (t : T) : list A := reverse (ot_items t).
Definition descendRange (lessOrEqual greaterThan : A) (t : T) : list A :=
  reverse (filter (λ y, less lessOrEqual y = false ∧ less greaterThan y = true) (ot_items t)).
Definition deleteAll (xs : list A) (t : T) : T := foldl (λ t x, (ot_delete x t).2) t xs.

Lemma less_asym `{!LessOrder less} x y : less x y = true → less y x = false.
Proof.
  intros H. destruct (less y x) eqn:E; [|done].
  rewrite <-(less_irrefl x). symmetry. by apply (less_trans x y x).
Qed.

Lemma deleteAll_wf xs t : ot_wf t → ot_wf (deleteAll xs t).
Proof. revert t; induction xs as [|x xs IH]; intros t Hwf; simpl; [done|]. by apply IH, ot_delete_wf. Qed.

Lemma deleteAll_items xs t y : ot_wf t →
  y ∈ ot_items (deleteAll xs t) ↔
  y ∈ ot_items t ∧ Forall (λ x, less x y = true ∨ less y x = true) xs.
Proof.
  revert t; induction xs as [|x xs IH]; intros t Hwf; simpl; [rewrite Forall_nil; tauto|].
  rewrite Forall_cons, IH, ot_delete_items by auto using ot_delete_wf. tauto.
Qed.

(** Distinct items of a well-formed tree are comparable. *)
Lemma StronglySorted_trichotomy (R : A → A → Prop) l x y :
  StronglySorted R l → x ∈ l → y ∈ l → x = y ∨ R x y ∨ R y x.
Proof.
  induction 1 as [|z l Hs IH HF]; rewrite ?elem_of_nil; [done|].
  rewrite Forall_forall in HF. intros [->|Hx]%elem_of_cons [->|Hy]%elem_of_cons; auto.
Qed.

Lemma ot_trichotomy t x y : ot_wf t → x ∈ ot_items t → y ∈ ot_items t →
  x = y ∨ less x y = true ∨ less y x = true.
Proof. intros Hwf. apply (StronglySorted_trichotomy (λ x y, less x y = true)), ot_sorted, Hwf. Qed.

Lemma StronglySorted_filter (R : A → A → Prop) (P : A → Prop) `{!∀ x, Decision (P x)} l :
  StronglySorted R l → StronglySorted R (filter P l).
Proof.
  induction 1 as [|x l Hs IH HF]; [constructor|].
  rewrite filter_cons; destruct (decide (P x)); [|done].
  constructor; [done|]. apply Forall_forall. intros y [_ Hy]%list_elem_of_filter.
  rewrite Forall_forall in HF; auto.
Qed.

(** Sorted lists with the same elements are equal: the laws fix [ot_items]. *)
Lemma StronglySorted_less_ext `{!LessOrder less} (l1 l2 : list A) :
  StronglySorted (λ x y, less x y = true) l1 →
  StronglySorted (λ x y, less x y = true) l2 →
  (∀ y, y ∈ l1 ↔ y ∈ l2) → l1 = l2.
Proof.
  intros H1; revert l2; induction H1 as [|x l1 Hs1 IH HF1]; intros l2 H2 Heq.
  - destruct l2 as [|y l2]; [done|].
    assert (y ∈ []) as []%not_elem_of_nil. apply Heq. left.
  - destruct H2 as [|y l2 Hs2 HF2].
    { assert (x ∈ []) as []%not_elem_of_nil. apply Heq. left. }
    rewrite Forall_forall in HF1, HF2.
    assert (x = y) as ->.
    { assert (x ∈ y :: l2) as [|Hx]%elem_of_cons by (apply Heq; left); [done|].
      assert (y ∈ x :: l1) as [|Hy]%elem_of_cons by (apply Heq; left); [done|].
      pose proof (less_asym _ _ (HF2 _ Hx)) as E. by rewrite (HF1 _ Hy) in E. }
    f_equal. apply IH; [done|]. intros z. specialize (Heq z). rewrite !elem_of_cons in Heq.
    assert (y ∉ l1) by (intros Hin; specialize (HF1 _ Hin); by rewrite less_irrefl in HF1).
    assert (y ∉ l2) by (intros Hin; specialize (HF2 _ Hin); by rewrite less_irrefl in HF2).
    naive_solver.
Qed.
End iterators.

(** The first element of the ascending range is its [less]-minimum. *)
Lemma StronglySorted_head {A} (R : A → A → Prop) x l :
  StronglySorted R (x :: l) → ∀ y, y ∈ l → R x y.
Proof. intros [_ HF]%StronglySorted_inv y Hy. rewrite Forall_forall in HF; auto. Qed.

(** An iterator that keeps the first item passing a test finds the [R]-least one. *)
Lemma iterate_find {A} (R : A → A → Prop) (test : A → bool) l :
  StronglySorted R l →
  match iterate (λ v x, if test x then (Some x, false) else (v, true)) None l with
  | Some x => x ∈ l ∧ test x = true ∧ ∀ y, y ∈ l → test y = true → y = x ∨ R x y
  | None => ∀ y, y ∈ l → test y = false
  end.
Proof.
  induction 1 as [|z l Hs IH HF]; simpl; [intros y []%not_elem_of_nil|].
  rewrite Forall_forall in HF. destruct (test z) eqn:Ez.
  - split; [left|]. split; [done|]. intros y [->|Hy]%elem_of_cons _; auto.
  - destruct (iterate _ _ _) as [x|].
    + destruct IH as (Hx & Ht & Hmin). split; [by right|]. split; [done|].
      intros y [->|Hy]%elem_of_cons Hty; [congruence|auto].
    + intros y [->|Hy]%elem_of_cons; auto.
Qed.

(** ** The sorted-list instance *)
Section list_tree.
Context {A : Type} (less : A → A → bool) `{!LessOrder less}.

Fixpoint list_insert_sorted (x : A) (l : list A) : list A :=
  match l with
  | [] => [x]
  | y :: l' =>
      if less x y then x :: l
      else if less y x then y :: list_insert_sorted x l'
      else x :: l'
  end.

Fixpoint list_delete_sorted (x : A) (l : list A) : option A * list A :=
  match l with
  | [] => (None, [])
  | y :: l' =>
      if less x y then (None, l)
      else if less y x then let '(r, l'') := list_delete_sorted x l' in (r, y :: l'')
      else (Some y, l')
  end.

Let sorted := StronglySorted (λ x y, less x y = true).

Lemma less_equiv_r x y z : less x y = false → less y x = false → less y z = true → less x z = true.
Proof. intros H1 H2 H3. destruct (less_cotrans _ x _ H3); congruence. Qed.

Lemma less_equiv_l x y z : less x y = false → less y x = false → less z y = true → less z x = true.
Proof. intros H1 H2 H3. destruct (less_cotrans _ x _ H3); congruence. Qed.

Lemma list_insert_sorted_elem x l y : sorted l →
  y ∈ list_insert_sorted x l ↔ y = x ∨ y ∈ l ∧ (less x y = true ∨ less y x = true).
Proof.
  induction 1 as [|z l Hs IH HF]; simpl; [set_solver|].
  rewrite Forall_forall in HF.
  destruct (less x z) eqn:E1; [|destruct (less z x) eqn:E2].
  - rewrite !elem_of_cons. split; [|tauto].
    intros [->|[->|Hy]]; [tauto|auto|]. right. split; [tauto|].
    left. by apply (less_trans x z y), HF.
  - rewrite !elem_of_cons, IH. naive_solver.
  - rewrite !elem_of_cons. split; [|naive_solver congruence].
    intros [->|Hy]; [tauto|]. right. split; [tauto|]. left.
    by apply (less_equiv_r x z y); [..|apply HF].
Qed.

Lemma list_insert_sorted_sorted x l : sorted l → sorted (list_insert_sorted x l).
Proof.
  induction 1 as [|z l Hs IH HF]; simpl; [repeat constructor|].
  destruct (less x z) eqn:E1; [|destruct (less z x) eqn:E2].
  - constructor; [by constructor|]. constructor; [done|].
    eapply Forall_impl; [exact HF|]. simpl. intros y. by apply less_trans.
  - constructor; [done|]. apply Forall_forall. intros y Hy%list_insert_sorted_elem; [|done].
    rewrite Forall_forall in HF. naive_solver.
  - constructor; [done|]. eapply Forall_impl; [exact HF|]. simpl. intros y.
    by apply less_equiv_r.
Qed.

Lemma list_delete_sorted_elem x l y : sorted l →
  y ∈ (list_delete_sorted x l).2 ↔ y ∈ l ∧ (less x y = true ∨ less y x = true).
Proof.
  induction 1 as [|z l Hs IH HF]; simpl; [set_solver|].
  rewrite Forall_forall in HF.
  destruct (less x z) eqn:E1; [|destruct (less z x) eqn:E2].
  - simpl. rewrite elem_of_cons. split; [|tauto]. intros [->|Hy]; [tauto|].
    split; [tauto|]. left. by apply (less_trans x z y), HF.
  - destruct (list_delete_sorted x l); simpl in *. rewrite !elem_of_cons, IH. naive_solver.
  - simpl. rewrite elem_of_cons. split; [|naive_solver congruence].
    intros Hy. split; [tauto|]. left. by apply (less_equiv_r x z y); [..|apply HF].
Qed.

Lemma list_delete_sorted_sorted x l : sorted l → sorted (list_delete_sorted x l).2.
Proof.
  intros Hl. pose proof (λ y, list_delete_sorted_elem x l y Hl) as Helem.
  induction Hl as [|z l Hs IH HF]; simpl in *; [constructor|].
  destruct (less x z) eqn:E1; [by constructor|]. destruct (less z x) eqn:E2; [|done].
  destruct (list_delete_sorted x l) as [r l'] eqn:E; simpl in *.
  pose proof (λ y, list_delete_sorted_elem x l y Hs) as Hl'. rewrite E in Hl'.
  constructor; [by apply IH|]. apply Forall_forall. intros y Hy%Hl'.
  rewrite Forall_forall in HF. naive_solver.
Qed.

Lemma list_delete_sorted_found x l y : sorted l →
  (list_delete_sorted x l).1 = Some y ↔ y ∈ l ∧ less x y = false ∧ less y x = false.
Proof.
  induction 1 as [|z l Hs IH HF]; simpl; [set_solver|].
  rewrite Forall_forall in HF.
  destruct (less x z) eqn:E1; [|destruct (less z x) eqn:E2].
  - simpl. split; [done|]. rewrite elem_of_cons. intros [[->|Hy] [? ?]]; [congruence|].
    by rewrite (less_trans x z y E1 (HF _ Hy)) in *.
  - destruct (list_delete_sorted x l); simpl in *. rewrite IH, elem_of_cons. naive_solver congruence.
  - simpl. rewrite elem_of_cons. split; [intros [= ->]; tauto|].
    intros [[->|Hy] [? ?]]; [done|]. by rewrite (less_equiv_r x z y E1 E2 (HF _ Hy)) in *.
Qed.

#[export] Program Instance list_ordered_tree : OrderedTree A less (list A) := {|
  ot_empty := [];
  ot_items l := l;
  ot_replaceOrInsert := list_insert_sorted;
  ot_delete := list_delete_sorted;
  ot_wf := sorted;
|}.
Next Obligation. constructor. Qed.
Next Obligation. done. Qed.
Next Obligation. done. Qed.
Next Obligation. apply list_insert_sorted_sorted. Qed.
Next Obligation. apply list_insert_sorted_elem. Qed.
Next Obligation. apply list_delete_sorted_sorted. Qed.
Next Obligation. apply list_delete_sorted_elem. Qed.
Next Obligation. apply list_delete_sorted_found. Qed.
End list_tree.
