(* ===== verification/Meta.v ===== *)
(** * Metadata of the system

    The protobuf structures of [pkg/pb/metapb] and [pkg/pb/pdpb] that PD, the
    stores and the proxies exchange, the watch-event flags of [pkg/pd], and key
    ranges: a cell owns the keys of [[Start, End)], an empty [End] standing for
    plus infinity. *)

From S2P Require Import Prelude.

(** ** metapb *)
Record Label := mkLabel { Label_Key : string; Label_Value : string }.

Record Peer := mkPeer { Peer_ID : Z; Peer_StoreID : Z }.

Record CellEpoch := mkCellEpoch { ConfVer : Z; CellVer : Z }.

Record Cell := mkCell {
  Cell_ID : Z;
  Start : bytes;
  End : bytes;
  Epoch : CellEpoch;
  Peers : list Peer;
}.

Inductive StoreState := UP | Down | Tombstone.

Record Store := mkStore {
  Store_ID : Z;
  Address : string;
  Lables : list Label;
  State : StoreState;
  ClientAddress : string;
}.

Record Cluster := mkCluster { Cluster_ID : Z; MaxReplicas : Z }.

#[export] Instance Label_eq_dec : EqDecision Label.
Proof. solve_decision. Defined.
#[export] Instance Peer_eq_dec : EqDecision Peer.
Proof. solve_decision. Defined.
#[export] Instance CellEpoch_eq_dec : EqDecision CellEpoch.
Proof. solve_decision. Defined.
#[export] Instance Cell_eq_dec : EqDecision Cell.
Proof. solve_decision. Defined.
#[export] Instance StoreState_eq_dec : EqDecision StoreState.
Proof. solve_decision. Defined.
#[export] Instance Store_eq_dec : EqDecision Store.
Proof. solve_decision. Defined.

(** [metapb.Cell{}], Go's zero value. *)
Definition emptyCell : Cell := mkCell 0 [] [] (mkCellEpoch 0 0) [].
Definition ZeroID : Z := 0.

(** ** pdpb *)
Inductive ConfChangeType := AddNode | RemoveNode.
#[export] Instance ConfChangeType_eq_dec : EqDecision ConfChangeType.
Proof. solve_decision. Defined.

Record ChangePeer := mkChangePeer { ChangePeer_Type : ConfChangeType; ChangePeer_Peer : Peer }.
#[export] Instance ChangePeer_eq_dec : EqDecision ChangePeer.
Proof. solve_decision. Defined.

(** A cell and the store of its leader, if it is known. *)
Record Range := mkRange { Range_Cell : Cell; LeaderStore : option Store }.

Record PeerStats := mkPeerStats { PeerStats_Peer : Peer; DownSeconds : Z }.

Record StoreStats := mkStoreStats {
  Stats_StoreID : Z;
  Capacity : Z;
  Available : Z;
  CellCount : Z;
  SendingSnapCount : Z;
  ReceivingSnapCount : Z;
  StartTime : Z;
  ApplyingSnapCount : Z;
  IsBusy : bool;
  UsedSize : Z;
  BytesWritten : Z;
  LogLevel : Z;
}.
Definition emptyStoreStats : StoreStats := mkStoreStats 0 0 0 0 0 0 0 0 false 0 0 0.

(** ** Watch events of pkg/pd *)
Definition EventInit : Z := 2.
Definition EventCellCreated : Z := 4.
Definition EventCellLeaderChanged : Z := 8.
Definition EventCellRangeChaned : Z := 16.
Definition EventCellPeersChaned : Z := 32.
Definition EventStoreUp : Z := 64.
Definition EventStoreDown : Z := 128.
Definition EventStoreTombstone : Z := 256.
Definition EventFlagCell : Z :=
  Z.lor (Z.lor (Z.lor EventCellCreated EventCellLeaderChanged) EventCellRangeChaned) EventCellPeersChaned.
Definition EventFlagStore : Z := Z.lor (Z.lor EventStoreUp EventStoreDown) EventStoreTombstone.
Definition EventFlagAll : Z := 4294967295.
Definition MatchEvent (event flag : Z) : bool :=
  bool_decide (event = 0) || negb (bool_decide (Z.land event flag = 0)).

(** ** Key ranges *)
Definition in_cell (key : bytes) (c : Cell) : Prop :=
  ble (Start c) key ∧ (End c = [] ∨ blt key (End c)).
Definition overlap (a b : Cell) : Prop :=
  (End b = [] ∨ blt (Start a) (End b)) ∧ (End a = [] ∨ blt (Start b) (End a)).
(** A cell whose range is not empty. *)
Definition valid_cell (c : Cell) : Prop := End c = [] ∨ blt (Start c) (End c).

#[export] Instance in_cell_dec k c : Decision (in_cell k c).
Proof. unfold in_cell; apply _. Defined.
#[export] Instance overlap_dec a b : Decision (overlap a b).
Proof. unfold overlap; apply _. Defined.
#[export] Instance valid_cell_dec c : Decision (valid_cell c).
Proof. unfold valid_cell; apply _. Defined.

Lemma overlap_sym a b : overlap a b ↔ overlap b a.
Proof. unfold overlap. tauto. Qed.

Lemma overlap_refl a : valid_cell a → overlap a a.
Proof. unfold overlap, valid_cell. tauto. Qed.

Lemma overlap_same_start a b : valid_cell a → valid_cell b → Start a = Start b → overlap a b.
Proof. unfold overlap, valid_cell. intros Ha Hb E. rewrite E in *. tauto. Qed.

(** Two non-empty ranges overlap exactly when some key lies in both. *)
Lemma overlap_shared_key a b : valid_cell a → valid_cell b →
  overlap a b ↔ ∃ k, in_cell k a ∧ in_cell k b.
Proof.
  unfold overlap, valid_cell, in_cell. intros Ha Hb. split.
  - intros [H1 H2]. destruct (decide (ble (Start a) (Start b))) as [Hle|Hgt].
    + exists (Start b). split; split; [border|tauto|border|tauto].
    + exists (Start a). split; split; [border|tauto|border|tauto].
  - intros (k & [H1 H2] & [H3 H4]).
    split; [destruct H4; [tauto|right; border] | destruct H2; [tauto|right; border]].
Qed.

Lemma in_cell_start c : valid_cell c → in_cell (Start c) c.
Proof. unfold valid_cell, in_cell. intros H. split; [border|tauto]. Qed.
#[export] Hint Resolve overlap_refl in_cell_start : go.
