(* ===== verification/CellTree.v ===== *)
(** * [util.CellTree] (pkg/util/cell_tree.go)

    The index of cells by key range that PD's cell cache, the stores and the
    proxies use to route a key.  The tree holds [CellItem]s ordered by
    *descending* start key.  The operations are stated over any [OrderedTree];
    the theorems show that, as long as non-empty ranges are stored, the tree is
    a partial map from keys to cells: no two stored cells overlap, [Search]
    evaluates the map, [Update] overwrites the range of the new cell and drops
    exactly the cells it overlaps. *)

From Stdlib Require Import Sorted.
From S2P Require Import Prelude BTree Meta.

(** A [CellItem] wraps one cell. *)
Record CellItem := mkCellItem { cell : Cell }.

#[export] Instance CellItem_eq_dec : EqDecision CellItem.
Proof. solve_decision. Defined.

(** Sort by start key, reversely. *)
Definition Less (r other : CellItem) : bool :=
  match bytes_compare (Start (cell r)) (Start (cell other)) with Gt => true | _ => false end.

(** [CellItem.Contains]: an empty [End] is positive infinity. *)
Definition Contains (r : CellItem) (key : bytes) : bool :=
  bleb (Start (cell r)) key && (bool_decide (End (cell r) = []) || bltb key (End (cell r))).

Lemma Less_blt a b : Less a b = true ↔ blt (Start (cell b)) (Start (cell a)).
Proof.
  unfold Less, blt. rewrite (bytes_compare_antisym (Start (cell b))).
  by destruct (bytes_compare (Start (cell b)) (Start (cell a))).
Qed.

Lemma Less_false a b : Less a b = false ↔ ble (Start (cell a)) (Start (cell b)).
Proof.
  unfold Less, ble. by destruct (bytes_compare (Start (cell a)) (Start (cell b))).
Qed.

#[export] Instance Less_order : LessOrder Less.
Proof.
  split.
  - intros x. apply Less_false. border.
  - intros x y z. rewrite !Less_blt. intros. border.
  - intros x y z. rewrite !Less_blt. intros.
    destruct (decide (blt (Start (cell y)) (Start (cell x)))); [tauto|right; border].
Qed.

Lemma Contains_in_cell i k : Contains i k = true ↔ in_cell k (cell i).
Proof.
  unfold Contains, in_cell. rewrite andb_true_iff, orb_true_iff, bool_decide_eq_true, bltb_lt, bleb_le.
  done.
Qed.

Section cell_tree.
Context {T : Type} `{OT : !OrderedTree CellItem Less T}.

(** ** Operations *)

Definition NewCellTree : T := ot_empty.
Definition tree_length (t : T) : nat := ot_len t.

Definition find (t : T) (c : Cell) : option CellItem :=
  let item := mkCellItem c in
  let result := iterate (λ _ i, (Some i, false)) None (ascendGreaterOrEqual item t) in
  match result with
  | None => None
  | Some r => if Contains r (Start c) then Some r else None
  end.

(** The items [Update] is about to replace: walk up from the item that contains
    the new start key, until one starts at or after the new end key. *)
Definition overlaps (t : T) (c : Cell) : list CellItem :=
  let item := mkCellItem c in
  let result := default item (find t c) in
  iterate
    (λ acc over,
       if negb (bool_decide (End c = [])) && bleb (End c) (Start (cell over))
       then (acc, false) else (acc ++ [over], true))
    [] (descendLessOrEqual result t).

Definition Update (t : T) (c : Cell) : T :=
  ot_replaceOrInsert (mkCellItem c) (deleteAll (overlaps t c) t).

Definition Remove (t : T) (c : Cell) : bool * T :=
  match find t c with
  | None => (false, t)
  | Some r =>
      if bool_decide (Cell_ID (cell r) = Cell_ID c)
      then (true, (ot_delete r t).2) else (false, t)
  end.

Definition Ascend {S} (t : T) (fn : S → Cell → S * bool) (s : S) : S :=
  iterate (λ s i, fn s (cell i)) s (descend t).

Definition NextCell (t : T) (start : bytes) : option Cell :=
  let p := mkCellItem (mkCell 0 start [] (mkCellEpoch 0 0) []) in
  cell <$> iterate
    (λ value i, if bltb start (Start (cell i)) then (Some i, false) else (value, true))
    None (descendLessOrEqual p t).

Definition AscendRange {S} (t : T) (start end_ : bytes) (fn : S → Cell → S * bool) (s : S) : S :=
  let startItem := mkCellItem (mkCell 0 start [] (mkCellEpoch 0 0) []) in
  let endItem := mkCellItem (mkCell 0 end_ [] (mkCellEpoch 0 0) []) in
  iterate (λ s i, fn s (cell i)) s (descendRange startItem endItem t).

Definition Search (t : T) (key : bytes) : Cell :=
  match find t (mkCell 0 key [] (mkCellEpoch 0 0) []) with
  | None => emptyCell
  | Some result => cell result
  end.

(** ** The abstract view: a set of pairwise disjoint cells *)

Definition holds (t : T) (c : Cell) : Prop := mkCellItem c ∈ ot_items t.

Definition disjoint_tree (t : T) : Prop :=
  ot_wf t ∧ (∀ a, holds t a → valid_cell a) ∧
  (∀ a b, holds t a → holds t b → overlap a b → a = b).

Lemma holds_item t i : i ∈ ot_items t ↔ holds t (cell i).
Proof. unfold holds. by destruct i. Qed.

(** The item [find] visits first is the stored cell with the greatest start key
    that is at or before the key. *)
Lemma find_first t c :
  ot_wf t →
  match iterate (λ _ i, (Some i, false)) None (ascendGreaterOrEqual (mkCellItem c) t) with
  | None => ∀ a, holds t a → blt (Start c) (Start a)
  | Some r => holds t (cell r) ∧ ble (Start (cell r)) (Start c) ∧
      ∀ a, holds t a → ble (Start a) (Start c) → ble (Start a) (Start (cell r))
  end.
Proof.
  intros Hwf. unfold ascendGreaterOrEqual.
  pose proof (StronglySorted_filter _ (λ y, Less y (mkCellItem c) = false) _ (ot_sorted t Hwf)) as Hs.
  destruct (filter _ (ot_items t)) as [|r l] eqn:E; simpl.
  - intros a Ha. destruct (decide (blt (Start c) (Start a))) as [|Hn]; [done|].
    assert (mkCellItem a ∈ filter (λ y, Less y (mkCellItem c) = false) (ot_items t)) as Hin.
    { apply list_elem_of_filter. split; [apply Less_false; simpl; border|done]. }
    rewrite E in Hin. by apply not_elem_of_nil in Hin.
  - assert (r ∈ filter (λ y, Less y (mkCellItem c) = false) (ot_items t)) as Hin
      by (rewrite E; left).
    apply list_elem_of_filter in Hin as [Hle%Less_false Hr].
    split; [by rewrite <-holds_item|]. split; [done|].
    intros a Ha Hac.
    assert (mkCellItem a ∈ r :: l) as Hin.
    { rewrite <-E. apply list_elem_of_filter. split; [by apply Less_false|done]. }
    apply elem_of_cons in Hin as [<-|Hin]; simpl; [border|].
    apply (StronglySorted_head _ _ _ Hs), Less_blt in Hin. simpl in Hin. border.
Qed.

Lemma find_Some t c r : disjoint_tree t →
  find t c = Some r ↔ holds t (cell r) ∧ in_cell (Start c) (cell r).
Proof.
  intros (Hwf & Hval & Hdis). unfold find. pose proof (find_first t c Hwf) as Hf.
  destruct (iterate _ _ _) as [r'|].
  - destruct Hf as (Hh & Hle & Hmax).
    assert (∀ r0, holds t (cell r0) → in_cell (Start c) (cell r0) → r0 = r') as Huniq.
    { intros r0 Hr0 [Hs He]. pose proof (Hmax _ Hr0 Hs) as Hm.
      destruct r0 as [c0], r' as [c1]; f_equal. apply Hdis; [done..|].
      split; simpl in *.
      - destruct (Hval _ Hh); [tauto|]. right. border.
      - destruct He; [tauto|]. right. border. }
    destruct (Contains r' (Start c)) eqn:E.
    + apply Contains_in_cell in E. split; [intros [= <-]; done|].
      intros [H1 H2]. f_equal. symmetry. by apply Huniq.
    + split; [done|]. intros [H1 H2]. rewrite (Huniq r H1 H2) in H2.
      apply Contains_in_cell in H2. congruence.
  - split; [done|]. intros [H1 [H2 _]]. specialize (Hf _ H1). border.
Qed.

Lemma find_None t c : disjoint_tree t →
  find t c = None ↔ ∀ a, holds t a → ¬ in_cell (Start c) a.
Proof.
  intros Hd. rewrite eq_None_not_Some. unfold is_Some. split.
  - intros Hn a Ha Hin. apply Hn. exists (mkCellItem a). by apply find_Some.
  - intros Hn [r [H1 H2]%find_Some]; [|done]. by apply (Hn _ H1).
Qed.

(** The walk of [Update] collects the whole range when, once an item stops the
    walk, all later ones would. *)
Lemma iterate_collect {A} (R : A → A → Prop) (stop : A → bool) acc l :
  StronglySorted R l → (∀ x y, R x y → stop x = true → stop y = true) →
  iterate (λ acc x, if stop x then (acc, false) else (acc ++ [x], true)) acc l =
  acc ++ filter (λ x, stop x = false) l.
Proof.
  intros Hs Hmono. revert acc; induction Hs as [|x l Hs IH HF]; intros acc; simpl.
  { by rewrite app_nil_r. }
  rewrite filter_cons. destruct (stop x) eqn:E; simpl.
  - rewrite (list_filter_none (λ y, stop y = false) l); [by rewrite app_nil_r|].
    eapply Forall_impl; [exact HF|]. intros y Hxy. rewrite (Hmono x y); done.
  - rewrite IH. by rewrite <-app_assoc.
Qed.

Lemma disjoint_order t a b : disjoint_tree t → holds t a → holds t b →
  blt (Start a) (Start b) → End a ≠ [] ∧ ble (End a) (Start b).
Proof.
  intros (Hwf & Hval & Hdis) Ha Hb Hlt.
  assert (¬ overlap a b) as Hno by (intros ->%Hdis; [by apply blt_irrefl in Hlt|done..]).
  destruct (decide (End a = [])) as [E|Hne]; [|split; [done|]].
  - exfalso. apply Hno. split; [|tauto]. destruct (Hval _ Hb); [tauto|right; border].
  - destruct (decide (ble (End a) (Start b))) as [|Hn]; [done|]. exfalso.
    apply Hno. split; [|right; border]. destruct (Hval _ Hb); [tauto|right; border].
Qed.

Lemma overlaps_elem t c i : disjoint_tree t → valid_cell c →
  i ∈ overlaps t c ↔ holds t (cell i) ∧ overlap (cell i) c.
Proof.
  intros Hd Hc. pose proof Hd as (Hwf & Hval & _). unfold overlaps.
  rewrite (iterate_collect (flip (λ x y, Less x y = true)) (λ over,
    negb (bool_decide (End c = [])) && bleb (End c) (Start (cell over)))).
  2:{ unfold descendLessOrEqual. apply StronglySorted_reverse, StronglySorted_filter, ot_sorted, Hwf. }
  2:{ intros x y Hxy%Less_blt. rewrite !andb_true_iff, !bleb_le. intros [? ?]. split; [done|border]. }
  rewrite app_nil_l. unfold descendLessOrEqual.
  rewrite list_elem_of_filter, elem_of_reverse, list_elem_of_filter, holds_item, Less_false.
  assert ((negb (bool_decide (End c = [])) && bleb (End c) (Start (cell i))) = false ↔
    End c = [] ∨ blt (Start (cell i)) (End c)) as ->.
  { case_bool_decide as E; simpl; [tauto|]. destruct (bleb_spec (End c) (Start (cell i))).
    - split; [done|]. intros [?|?]; [done|border].
    - split; [|done]. intros _; right; border. }
  destruct i as [y]; simpl. unfold overlap.
  destruct (find t c) as [[r]|] eqn:Ef; simpl.
  - apply (find_Some _ _ _ Hd) in Ef as [Hr [Hr1 Hr2]]; simpl in *.
    split; intros (HA & HB).
    + destruct HB as [HB Hy]. split; [done|]. split; [done|].
      destruct (decide (blt (Start r) (Start y))) as [Hlt|Hn].
      * destruct (disjoint_order t r y Hd Hr Hy Hlt). destruct Hr2; [done|].
        destruct (Hval _ Hy); [tauto|right; border].
      * assert (r = y) as ->; [|tauto]. apply Hd; [done..|].
        split; [destruct (Hval _ Hy)|destruct (Hval _ Hr)]; (tauto || (right; border)).
    + destruct HB as [HB1 HB2]. split; [done|]. split; [|done].
      destruct (decide (ble (Start r) (Start y))) as [|Hn]; [done|].
      destruct (disjoint_order t y r Hd HA Hr) as [? ?]; [border|].
      destruct HB2; [done|]. border.
  - pose proof (proj1 (find_None _ _ Hd) Ef) as Hno. split; intros (HA & HB).
    + destruct HB as [HB Hy]. split; [done|]. split; [done|].
      destruct (Hval _ Hy); [tauto|right; border].
    + destruct HB as [HB1 HB2]. split; [done|]. split; [|done].
      destruct (decide (ble (Start c) (Start y))) as [|Hn]; [done|].
      destruct (Hno _ HA). split; [border|done].
Qed.

(** [Update] keeps exactly the cells that do not overlap the new one. *)
Lemma Update_holds t c a : disjoint_tree t → valid_cell c →
  holds (Update t c) a ↔ a = c ∨ (holds t a ∧ ¬ overlap a c).
Proof.
  intros Hd Hc. pose proof Hd as (Hwf & Hval & Hdis). unfold holds, Update.
  rewrite ot_insert_items, deleteAll_items by auto using deleteAll_wf.
  rewrite Forall_forall. change (mkCellItem a ∈ ot_items t) with (holds t a).
  split.
  - intros [[= ->]|[[Ha Hall] _]]; [by left|]. right. split; [done|]. intros Hov.
    destruct (Hall (mkCellItem a)) as [H|H]; [by apply overlaps_elem|..];
      by rewrite less_irrefl in H.
  - intros [->|[Ha Hno]]; [by left|].
    assert (Start a ≠ Start c) as Hne.
    { intros E. apply Hno, overlap_same_start; auto. }
    right. rewrite !Less_blt; simpl. split; [|by apply blt_ne]. split; [done|].
    intros i [Hi Hov]%overlaps_elem; [|done..].
    rewrite !Less_blt; simpl. destruct (blt_total (Start (cell i)) (Start a)) as [|[E|]]; [tauto| |tauto].
    exfalso. apply Hno. rewrite (Hdis a (cell i)); [done..|]. by apply overlap_same_start; auto.
Qed.

Lemma Update_disjoint t c : disjoint_tree t → valid_cell c → disjoint_tree (Update t c).
Proof.
  intros Hd Hc. pose proof Hd as (Hwf & Hval & Hdis). split; [|split].
  - apply ot_insert_wf, deleteAll_wf, Hwf.
  - intros a [->|[? _]]%Update_holds; auto.
  - intros a b [->|[Ha Hna]]%Update_holds [->|[Hb Hnb]]%Update_holds Hov; auto; exfalso.
    + by apply Hnb, overlap_sym.
    + by apply Hna.
Qed.

Lemma NewCellTree_disjoint : disjoint_tree NewCellTree.
Proof.
  assert (∀ a, ¬ holds NewCellTree a) as Hno.
  { intros a. unfold holds, NewCellTree. rewrite ot_empty_items. apply not_elem_of_nil. }
  split; [apply ot_empty_wf|]. split; [intros a []%Hno|intros a b []%Hno].
Qed.

(** [Remove] deletes the cell with the argument's ID that contains its start key. *)
Lemma Remove_spec t c : disjoint_tree t →
  let '(removed, t') := Remove t c in
  (removed = true ↔ ∃ r, holds t r ∧ in_cell (Start c) r ∧ Cell_ID r = Cell_ID c) ∧
  ∀ a, holds t' a ↔ holds t a ∧ ¬ (in_cell (Start c) a ∧ Cell_ID a = Cell_ID c).
Proof.
  intros Hd. pose proof Hd as (Hwf & Hval & Hdis). unfold Remove.
  destruct (find t c) as [[r]|] eqn:Ef; simpl.
  - apply (find_Some _ _ _ Hd) in Ef as [Hr Hin]; simpl in *.
    assert (∀ a, holds t a → in_cell (Start c) a → a = r) as Huniq.
    { intros a Ha Hain. apply Hdis; [done..|]. apply overlap_shared_key; eauto. }
    case_bool_decide as E.
    + split; [split; [eauto|done]|]. intros a. unfold holds at 1.
      rewrite ot_delete_items by done. change (mkCellItem a ∈ ot_items t) with (holds t a).
      rewrite !Less_blt; simpl. split; intros [Ha Hn]; (split; [done|]).
      * intros [Ha1 _]. rewrite (Huniq a Ha Ha1) in Hn. destruct Hn; by eapply blt_irrefl.
      * destruct (blt_total (Start a) (Start r)) as [|[Es|]]; [tauto| |tauto].
        exfalso. apply Hn. assert (a = r) as ->; [|done]. apply Hdis, overlap_same_start; auto.
    + split; [split; [done|]|].
      * intros (r' & Hr' & Hin' & Hid). by rewrite (Huniq _ Hr' Hin') in Hid.
      * intros a. split; [|tauto]. intros Ha; split; [done|]. intros [Ha1 Ha2].
        by rewrite (Huniq _ Ha Ha1) in Ha2.
  - pose proof (proj1 (find_None _ _ Hd) Ef) as Hno.
    split; [split; [done|]|]. { intros (r & Hr & Hin & _). by destruct (Hno _ Hr). }
    intros a. split; [|tauto]. intros Ha; split; [done|]. intros [Ha1 _]. by destruct (Hno _ Ha).
Qed.

Lemma Remove_disjoint t c : disjoint_tree t → disjoint_tree (Remove t c).2.
Proof.
  intros Hd. pose proof (Remove_spec t c Hd) as Hs. pose proof Hd as (Hwf & Hval & Hdis).
  assert (ot_wf (Remove t c).2) as Hwf'.
  { unfold Remove. destruct (find t c); [case_bool_decide|]; simpl; auto using ot_delete_wf. }
  destruct (Remove t c) as [b t'], Hs as [_ Hs]. simpl in *.
  split; [done|]. split; [intros a [? _]%Hs; auto|].
  intros a a' [? _]%Hs [? _]%Hs; auto.
Qed.

(** [Search] evaluates the partial map from keys to cells the tree stands for. *)
Lemma Search_spec t k : disjoint_tree t →
  (∀ c, holds t c → in_cell k c → Search t k = c) ∧
  ((∀ c, holds t c → ¬ in_cell k c) → Search t k = emptyCell) ∧
  (Search t k ≠ emptyCell → holds t (Search t k) ∧ in_cell k (Search t k)).
Proof.
  intros Hd. unfold Search.
  destruct (find t _) as [r|] eqn:Ef.
  - pose proof (proj1 (find_Some _ _ _ Hd) Ef) as [Hr Hin]; simpl in *. split; [|split].
    + intros c Hc Hcin. symmetry. apply Hd; [done..|].
      apply overlap_shared_key; [by apply Hd..|]. eauto.
    + intros Hno. by destruct (Hno _ Hr).
    + done.
  - pose proof (proj1 (find_None _ _ Hd) Ef) as Hno; simpl in *. split; [|split]; [|done|done].
    intros c Hc Hin. by destruct (Hno _ Hc).
Qed.

(** ** Refinement: a history of operations against a partial map of keys *)

Inductive tree_op := OpUpdate (c : Cell) | OpRemove (c : Cell).

Definition tree_step (t : T) (op : tree_op) : T :=
  match op with
  | OpUpdate c => Update t c
  | OpRemove c => (Remove t c).2
  end.
Definition tree_run (ops : list tree_op) : T := foldl tree_step NewCellTree ops.

(** The specification: each key is owned by at most one cell.  An update takes
    over its range and unmaps every cell it overlaps; a remove unmaps the cell
    at the start key if it has the given ID. *)
Definition key_map := bytes → option Cell.
Definition spec_step (m : key_map) (op : tree_op) : key_map := λ k,
  match op with
  | OpUpdate c =>
      if decide (in_cell k c) then Some c
      else a ← m k; if decide (overlap a c) then None else Some a
  | OpRemove c =>
      a ← m k; if decide (m (Start c) = Some a ∧ Cell_ID a = Cell_ID c) then None else Some a
  end.
Definition spec_run (ops : list tree_op) : key_map := foldl spec_step (λ _, None) ops.

Definition op_valid (op : tree_op) : Prop :=
  match op with OpUpdate c => valid_cell c | OpRemove _ => True end.

#[export] Instance op_valid_dec op : Decision (op_valid op).
Proof. destruct op; simpl; apply _. Defined.

Definition tree_refines (t : T) (m : key_map) : Prop :=
  disjoint_tree t ∧ ∀ k c, m k = Some c ↔ holds t c ∧ in_cell k c.

Lemma tree_step_refines t m op :
  op_valid op → tree_refines t m → tree_refines (tree_step t op) (spec_step m op).
Proof.
  intros Hop [Hd Hm]. destruct op as [c|c]; simpl in *.
  - split; [by apply Update_disjoint|]. intros k a. rewrite Update_holds by done.
    cbn [spec_step]. case_decide as Hkc.
    + split; [intros [= ->]; tauto|]. intros [[->|[Ha Hno]] Hka]; [done|].
      exfalso. apply Hno, overlap_shared_key; [by apply Hd|done|eauto].
    + rewrite bind_Some. setoid_rewrite Hm. split.
      * intros (a' & [Ha' Hk] & Hif). case_decide; [done|]. injection Hif as <-. eauto.
      * intros [[->|[Ha Hno]] Hka]; [done|]. exists a. by rewrite decide_False.
  - pose proof (Remove_spec t c Hd) as Hr. pose proof (Remove_disjoint t c Hd) as Hd'.
    destruct (Remove t c) as [b t'], Hr as [_ Hr]; simpl in *. split; [done|].
    intros k a. cbn [spec_step]. rewrite Hr, bind_Some. split.
    + intros (a' & [Ha' Hk]%Hm & Hif). case_decide as E; [done|]. injection Hif as <-.
      rewrite Hm in E. naive_solver.
    + intros [[Ha Hno] Hka]. exists a. split; [by apply Hm|].
      rewrite decide_False; [done|]. rewrite Hm. naive_solver.
Qed.

Lemma tree_run_refines ops :
  Forall op_valid ops → tree_refines (tree_run ops) (spec_run ops).
Proof.
  unfold tree_run, spec_run.
  assert (tree_refines NewCellTree (λ _, None)) as H0.
  { split; [apply NewCellTree_disjoint|]. intros k c. split; [done|].
    intros [H _]. unfold holds, NewCellTree in H. rewrite ot_empty_items in H.
    by apply not_elem_of_nil in H. }
  revert H0. generalize NewCellTree as t. generalize (λ _ : bytes, @None Cell) as m.
  induction ops as [|op ops IH]; intros m t H0 Hops; simpl; [done|].
  inversion_clear Hops. apply IH; [|done]. by apply tree_step_refines.
Qed.
End cell_tree.

Section cell_tree_scans.
Context {T : Type} `{OT : !OrderedTree CellItem Less T}.
Implicit Types t : T.

Lemma descendLessOrEqual_sorted p t : ot_wf t →
  StronglySorted (λ x y, blt (Start (cell x)) (Start (cell y))) (descendLessOrEqual p t).
Proof.
  intros Hwf. unfold descendLessOrEqual.
  eapply (StronglySorted_impl (flip (λ x y, Less x y = true))); [by intros x y ?%Less_blt|].
  by apply StronglySorted_reverse, StronglySorted_filter, ot_sorted.
Qed.

Lemma descendLessOrEqual_elem p t i :
  i ∈ descendLessOrEqual p t ↔ holds t (cell i) ∧ ble (Start (cell p)) (Start (cell i)).
Proof.
  unfold descendLessOrEqual.
  rewrite elem_of_reverse, list_elem_of_filter, holds_item, Less_false. tauto.
Qed.

Lemma NextCell_least t start : ot_wf t →
  match NextCell t start with
  | Some c => holds t c ∧ blt start (Start c) ∧
              ∀ a, holds t a → blt start (Start a) → a = c ∨ blt (Start c) (Start a)
  | None => ∀ a, holds t a → ble (Start a) start
  end.
Proof.
  intros Hwf. unfold NextCell.
  pose proof (iterate_find _ (λ i, bltb start (Start (cell i))) _
    (descendLessOrEqual_sorted (mkCellItem (mkCell 0 start [] (mkCellEpoch 0 0) [])) t Hwf)) as Hf.
  destruct (iterate _ _ _) as [x|]; simpl; setoid_rewrite descendLessOrEqual_elem in Hf; simpl in Hf.
  - destruct Hf as ((Hx & _) & Ht & Hmin). apply bltb_lt in Ht. split; [done|]. split; [done|].
    intros a Ha Hlt. destruct (Hmin (mkCellItem a)) as [<-|H]; simpl; [|by apply bltb_lt|auto..].
    split; [done|border].
  - intros a Ha. destruct (decide (ble (Start a) start)) as [|Hn]; [done|].
    assert (bltb start (Start a) = false) as E.
    { apply (Hf (mkCellItem a)). split; [done|]. simpl. border. }
    destruct (bltb_spec start (Start a)); [done|]. border.
Qed.

(** The cells [AscendRange] hands to the callback, in order. *)
Definition range_cells t (start end_ : bytes) : list Cell :=
  AscendRange t start end_ (λ acc c, (acc ++ [c], true)) [].

Lemma iterate_all {A B} (f : A → B) acc l :
  iterate (λ acc i, (acc ++ [f i], true)) acc l = acc ++ (f <$> l).
Proof.
  revert acc; induction l as [|x l IH]; intros acc; simpl; [by rewrite app_nil_r|].
  rewrite IH. by rewrite <-app_assoc.
Qed.

Lemma range_cells_spec t start end_ : ot_wf t →
  StronglySorted (λ a b, blt (Start a) (Start b)) (range_cells t start end_) ∧
  ∀ a, a ∈ range_cells t start end_ ↔ holds t a ∧ ble start (Start a) ∧ blt (Start a) end_.
Proof.
  intros Hwf. unfold range_cells, AscendRange. rewrite iterate_all, app_nil_l.
  unfold descendRange. split.
  - apply StronglySorted_fmap. eapply (StronglySorted_impl (flip (λ x y, Less x y = true)));
      [by intros x y ?%Less_blt|].
    by apply StronglySorted_reverse, StronglySorted_filter, ot_sorted.
  - intros a. rewrite list_elem_of_fmap.
    setoid_rewrite elem_of_reverse. setoid_rewrite list_elem_of_filter.
    setoid_rewrite Less_false. setoid_rewrite Less_blt. simpl. split.
    + intros (i & -> & [? ?] & ?). rewrite <-holds_item. tauto.
    + intros (Ha & ? & ?). exists (mkCellItem a). tauto.
Qed.
End cell_tree_scans.

Section cell_tree_properties.
Context {T : Type} `{OT : !OrderedTree CellItem Less T}.

(** C1. after any sequence of updates of non-empty ranges and removes, [Search]
    returns for every key the cell a partial map from keys to cells assigns to
    it, where an update overwrites its whole range and unmaps the cells it
    overlaps, and [metapb.Cell{}] where the map is undefined. *)
Theorem Search_refines_key_map (ops : list tree_op) (k : bytes) :
  Forall op_valid ops →
  Search (tree_run (T := T) ops) k = default emptyCell (spec_run ops k).
Proof.
  intros Hops. destruct (tree_run_refines (T := T) ops Hops) as [Hd Hm].
  destruct (Search_spec _ k Hd) as (H1 & H2 & _).
  destruct (spec_run ops k) as [c|] eqn:E; simpl.
  - apply Hm in E as [??]. by apply H1.
  - apply H2. intros c Hc Hin. assert (spec_run ops k = Some c) by (by apply Hm). congruence.
Qed.

(** on a tree of disjoint cells, [Update] with a non-empty range stores the
    new cell, deletes exactly the stored cells whose range overlaps it, and
    leaves a tree of disjoint cells. *)
Theorem Update_replaces_overlaps (t : T) (c a : Cell) :
  disjoint_tree t → valid_cell c →
  disjoint_tree (Update t c) ∧
  (holds (Update t c) a ↔ a = c ∨ (holds t a ∧ ¬ overlap a c)).
Proof. intros. split; [by apply Update_disjoint | by apply Update_holds]. Qed.

(** [NextCell] returns the stored cell with the smallest start key strictly
    after the argument, and nil only when no stored cell starts after it. *)
Theorem NextCell_spec (t : T) (start : bytes) :
  disjoint_tree t →
  match NextCell t start with
  | Some c => holds t c ∧ blt start (Start c) ∧
              ∀ a, holds t a → blt start (Start a) → a = c ∨ blt (Start c) (Start a)
  | None => ∀ a, holds t a → ble (Start a) start
  end.
Proof. intros [Hwf _]. by apply NextCell_least. Qed.
End cell_tree_properties.

(** ** Witnesses: a tree of three cells over the sorted-list instance *)
Definition wcell (id : Z) (s e : bytes) : Cell := mkCell id s e (mkCellEpoch 1 1) [mkPeer (id * 10) 1].
Definition wops : list tree_op :=
  [OpUpdate (wcell 1 [] []); OpUpdate (wcell 2 [x61] [x6d]); OpUpdate (wcell 3 [x6d] []);
   OpUpdate (wcell 4 [x70] [x74])].

Lemma Search_refines_key_map_witness :
  Forall op_valid wops ∧
  Search (tree_run (T := list CellItem) wops) [x71] = default emptyCell (spec_run wops [x71]) ∧
  Search (tree_run (T := list CellItem) wops) [x71] = wcell 4 [x70] [x74] ∧
  Search (tree_run (T := list CellItem) wops) [x7a] = emptyCell.
Proof.
  assert (Forall op_valid wops) as H by (apply (bool_decide_unpack _); vm_compute; exact I).
  split; [exact H|]. split; [exact (Search_refines_key_map wops [x71] H)|].
  split; vm_compute; reflexivity.
Defined.

Lemma wtree_disjoint : disjoint_tree (tree_run (T := list CellItem) wops).
Proof. apply tree_run_refines. apply (bool_decide_unpack _); vm_compute; exact I. Qed.

Lemma Update_replaces_overlaps_witness :
  holds (Update (tree_run (T := list CellItem) wops) (wcell 5 [x6d] [x71])) (wcell 2 [x61] [x6d]).
Proof.
  refine (proj2 (proj2 (Update_replaces_overlaps _ (wcell 5 [x6d] [x71]) _ wtree_disjoint _)) _).
  - apply (bool_decide_unpack _). vm_compute. exact I.
  - right. split; [right; left|].
    apply (bool_decide_unpack _). vm_compute. exact I.
Defined.

Lemma NextCell_spec_witness :
  NextCell (tree_run (T := list CellItem) wops) [x61] = Some (wcell 4 [x70] [x74]) ∧
  ∀ a, holds (tree_run (T := list CellItem) wops) a → blt [x61] (Start a) →
       a = wcell 4 [x70] [x74] ∨ blt [x70] (Start a).
Proof.
  split; [vm_compute; reflexivity|].
  exact (proj2 (proj2 (NextCell_spec _ [x61] wtree_disjoint))).
Defined.
