(* ===== verification/Encoding.v ===== *)
(** * Fixed-width integers as bytes (pkg/util/bytes.go)

    [Uint64ToBytes] and [BytesToUint64] store PD's counters, and the same
    big-endian layout is what [goetty.ByteBuf.WriteInt64] writes into every
    storage key.  The lemmas give the round trips and the fact every range scan
    over keys relies on: the numeric order is the byte order. *)

From S2P Require Import Prelude.

Inductive encoding_error := ErrInvalidData (len : nat) | ErrInvalidKey (key : bytes).

Definition byte_of_Z (z : Z) : byte := default x00 (Byte.of_N (Z.to_N (z `mod` 256))).
Definition Z_of_byte (b : byte) : Z := Z.of_N (Byte.to_N b).

(** [n] bytes, most significant first. *)
Fixpoint be_encode (n : nat) (v : Z) : bytes :=
  match n with
  | O => []
  | S n' => byte_of_Z (Z.shiftr v (8 * Z.of_nat n')) :: be_encode n' v
  end.
Definition be_decode (b : bytes) : Z := foldl (λ acc x, Z.lor (Z.shiftl acc 8) (Z_of_byte x)) 0 b.

(** [binary.BigEndian.PutUint64] / [Uint64]: the latter reads the first eight
    bytes and panics on a shorter slice. *)
Definition PutUint64 (v : Z) : bytes := be_encode 8 v.
Definition BigEndianUint64 {E} (b : bytes) : outcome E Z :=
  if decide (8 ≤ length b)%nat then Ok (be_decode (take 8 b)) else Panic.

Definition BytesToUint64 (b : bytes) : outcome encoding_error Z :=
  if decide (length b ≠ 8%nat) then Err (ErrInvalidData (length b)) else BigEndianUint64 b.

Definition Uint64ToBytes (v : Z) : bytes := PutUint64 v.

(** ** Lemmas *)

Lemma Z_of_byte_bound b : 0 ≤ Z_of_byte b < 256.
Proof. unfold Z_of_byte. pose proof (byte_to_N_bound b). lia. Qed.

Lemma Z_of_byte_of_Z z : Z_of_byte (byte_of_Z z) = z `mod` 256.
Proof.
  unfold Z_of_byte, byte_of_Z. pose proof (Z.mod_pos_bound z 256 ltac:(done)) as Hb.
  destruct (Byte.of_N (Z.to_N (z `mod` 256))) as [b|] eqn:E; simpl.
  - apply Byte.to_of_N in E. rewrite E. lia.
  - apply Byte.of_N_None_iff in E. lia.
Qed.

Lemma byte_of_Z_of_byte b : byte_of_Z (Z_of_byte b) = b.
Proof.
  apply byte_to_N_inj. apply N2Z.inj. fold (Z_of_byte (byte_of_Z (Z_of_byte b))).
  rewrite Z_of_byte_of_Z. apply Z.mod_small, Z_of_byte_bound.
Qed.

Lemma length_be_encode n v : length (be_encode n v) = n.
Proof. induction n as [|n IH]; simpl; congruence. Qed.

(** Appending one byte to the decoded prefix is multiplication by 256. *)
Lemma lor_shiftl_byte a b : 0 ≤ b < 256 → Z.lor (Z.shiftl a 8) b = a * 256 + b.
Proof.
  intros Hb. assert (Z.land (Z.shiftl a 8) b = 0) as Hland.
  { apply Z.bits_inj'. intros i Hi. rewrite Z.land_spec, Z.bits_0.
    destruct (Z.lt_ge_cases i 8); [by rewrite Z.shiftl_spec_low|].
    rewrite <-(Z.mod_small b (2 ^ 8)) by done.
    rewrite Z.mod_pow2_bits_high, andb_false_r by lia. done. }
  rewrite <-Z.lxor_lor, <-Z.add_nocarry_lxor by done. by rewrite Z.shiftl_mul_pow2.
Qed.

Lemma be_decode_foldl acc b :
  foldl (λ acc x, Z.lor (Z.shiftl acc 8) (Z_of_byte x)) acc b =
  acc * 256 ^ Z.of_nat (length b) + be_decode b.
Proof.
  unfold be_decode. revert acc. induction b as [|x b IH]; intros acc; cbn [foldl length].
  - change (Z.of_nat 0) with 0. lia.
  - rewrite IH, (IH (Z.lor _ _)), !lor_shiftl_byte by apply Z_of_byte_bound.
    rewrite Nat2Z.inj_succ, Z.pow_succ_r by lia. lia.
Qed.

Lemma be_decode_cons x b :
  be_decode (x :: b) = Z_of_byte x * 256 ^ Z.of_nat (length b) + be_decode b.
Proof. unfold be_decode at 1. cbn [foldl]. by rewrite be_decode_foldl. Qed.

Lemma be_decode_bound b : 0 ≤ be_decode b < 256 ^ Z.of_nat (length b).
Proof.
  induction b as [|x b IH]; [unfold be_decode; simpl; lia|].
  rewrite be_decode_cons. cbn [length]. rewrite Nat2Z.inj_succ, Z.pow_succ_r by lia.
  pose proof (Z_of_byte_bound x). nia.
Qed.

Lemma be_decode_encode n v : be_decode (be_encode n v) = v `mod` 256 ^ Z.of_nat n.
Proof.
  induction n as [|n IH]; [change (256 ^ Z.of_nat 0) with 1; by rewrite Z.mod_1_r|].
  cbn [be_encode]. rewrite be_decode_cons, length_be_encode, IH, Z_of_byte_of_Z.
  rewrite Z.shiftr_div_pow2 by lia.
  replace (2 ^ (8 * Z.of_nat n)) with (256 ^ Z.of_nat n)
    by (rewrite Z.pow_mul_r by lia; done).
  rewrite Nat2Z.inj_succ, Z.pow_succ_r by lia.
  assert (256 ^ Z.of_nat n ≠ 0) by (apply Z.pow_nonzero; lia).
  rewrite (Z.mul_comm 256), Z.rem_mul_r by lia. lia.
Qed.

Lemma be_decode_inj a b : length a = length b → be_decode a = be_decode b → a = b.
Proof.
  revert b; induction a as [|x a IH]; intros [|y b] Hl Heq; simplify_eq/=; [done|].
  rewrite !be_decode_cons, Hl in Heq.
  pose proof (be_decode_bound a) as Ha. pose proof (be_decode_bound b) as Hb. rewrite Hl in Ha.
  assert (Z_of_byte x = Z_of_byte y ∧ be_decode a = be_decode b) as [Exy Eab].
  { apply (Z.div_mod_unique (256 ^ Z.of_nat (length b))); [by left..|]. lia. }
  f_equal; [|by apply IH].
  apply byte_to_N_inj, N2Z.inj, Exy.
Qed.

Lemma be_encode_decode b : be_encode (length b) (be_decode b) = b.
Proof.
  apply be_decode_inj; [by rewrite length_be_encode|].
  rewrite be_decode_encode. apply Z.mod_small, be_decode_bound.
Qed.

(** On strings of equal length the byte order is the numeric order. *)
Lemma be_decode_lt a b : length a = length b → blt a b ↔ be_decode a < be_decode b.
Proof.
  revert b; induction a as [|x a IH]; intros [|y b] Hl; simplify_eq/=; [done|].
  rewrite !be_decode_cons, Hl.
  pose proof (be_decode_bound a) as Ha. pose proof (be_decode_bound b) as Hb. rewrite Hl in Ha.
  unfold blt; simpl. fold (blt a b).
  destruct (N.compare_spec (Byte.to_N x) (Byte.to_N y)) as [E|E|E].
  - unfold Z_of_byte. rewrite E. rewrite (IH _ Hl). lia.
  - split; [|done]. intros _. unfold Z_of_byte. nia.
  - split; [done|]. unfold Z_of_byte. nia.
Qed.

Lemma two64_pow : two64 = 256 ^ Z.of_nat 8.
Proof. done. Qed.

Lemma be_decode_PutUint64 v : is_u64 v → be_decode (PutUint64 v) = v.
Proof.
  intros Hv. unfold PutUint64. rewrite be_decode_encode, <-two64_pow. by apply Z.mod_small.
Qed.

Lemma PutUint64_inj v w : is_u64 v → is_u64 w → PutUint64 v = PutUint64 w → v = w.
Proof. intros Hv Hw E%(f_equal be_decode). by rewrite !be_decode_PutUint64 in E. Qed.

Lemma PutUint64_lt v w : is_u64 v → is_u64 w → blt (PutUint64 v) (PutUint64 w) ↔ v < w.
Proof.
  intros Hv Hw. rewrite be_decode_lt by (unfold PutUint64; by rewrite !length_be_encode).
  by rewrite !be_decode_PutUint64.
Qed.

Lemma length_PutUint64 v : length (PutUint64 v) = 8%nat.
Proof. apply length_be_encode. Qed.

Lemma BigEndianUint64_put {E} v rest : is_u64 v →
  BigEndianUint64 (E := E) (PutUint64 v ++ rest) = Ok v.
Proof.
  intros Hv. unfold BigEndianUint64.
  rewrite decide_True by (rewrite length_app, length_PutUint64; lia).
  rewrite (take_app_length' (PutUint64 v)) by (symmetry; apply length_PutUint64). by rewrite be_decode_PutUint64.
Qed.

Lemma BytesToUint64_Uint64ToBytes v : is_u64 v → BytesToUint64 (Uint64ToBytes v) = Ok v.
Proof.
  intros Hv. unfold BytesToUint64, Uint64ToBytes.
  rewrite decide_False by (rewrite length_PutUint64; auto).
  rewrite <-(app_nil_r (PutUint64 v)). by apply BigEndianUint64_put.
Qed.

Lemma Uint64ToBytes_BytesToUint64 b v : BytesToUint64 b = Ok v → Uint64ToBytes v = b ∧ is_u64 v.
Proof.
  unfold BytesToUint64, BigEndianUint64. case_decide as Hl; [done|].
  case_decide as Hl'; [|done]. rewrite take_ge by lia.
  intros [= <-]. unfold Uint64ToBytes, PutUint64. rewrite <-Hl, be_encode_decode.
  split; [done|]. pose proof (be_decode_bound b) as Hb. by rewrite Hl, <-two64_pow in Hb.
Qed.
