(* ===== verification/Keys.v ===== *)
(** * Storage keys (pkg/raftstore/keys.go)

    A store keeps three kinds of data in its engines: local metadata under the
    prefix 0x01 (store ident, raft logs and states, cell states, doc ids, the
    index queue) and user data under the prefix 'z'.  The theorems show that the
    encodings never collide, decode back, and keep the order the range scans
    and range deletes rely on. *)

From S2P Require Import Prelude Encoding Meta.

(** ** Constants *)
Definition cellStateSuffix : byte := x01.
Definition raftLogSuffix : byte := x01.
Definition raftStateSuffix : byte := x02.
Definition applyStateSuffix : byte := x03.
Definition localPrefix : byte := x01.
Definition localMinKey : bytes := [localPrefix].
Definition localMaxKey : bytes := [x02].
Definition maxKey : bytes := [].
Definition minKey : bytes := [xff].
Definition storeIdentKey : bytes := [localPrefix; x01].
Definition dataPrefix : byte := x7a.
Definition dataPrefixKey : bytes := [dataPrefix].
Definition dataMinKey : bytes := [dataPrefix].
Definition dataMaxKey : bytes := [x7b].
Definition cellRaftPrefix : byte := x02.
Definition cellRaftPrefixKey : bytes := [localPrefix; cellRaftPrefix].
Definition cellMetaPrefix : byte := x03.
Definition cellMetaPrefixKey : bytes := [localPrefix; cellMetaPrefix].
Definition cellMetaMinKey : bytes := [localPrefix; cellMetaPrefix].
Definition cellMetaMaxKey : bytes := [localPrefix; x04].
Definition cellDocIDPrefixKey : bytes := [localPrefix; x04].
Definition idxReqQueueKey : bytes := [localPrefix; x05].

(** ** Encoders.  [int64(x)] written big-endian has the same bytes as [uint64]. *)
Definition GetStoreIdentKey : bytes := storeIdentKey.
Definition GetMaxKey : bytes := maxKey.
Definition GetMinKey : bytes := minKey.

Definition decodeCellMetaKey (key : bytes) : outcome encoding_error (Z * byte) :=
  let prefixLen := length cellMetaPrefixKey in
  let keyLen := length key in
  if decide ((prefixLen + 9)%nat ≠ keyLen) then Err (ErrInvalidKey key)
  else if negb (bool_decide (take prefixLen key = cellMetaPrefixKey)) then Err (ErrInvalidKey key)
  else let! id := BigEndianUint64 (drop prefixLen key) in
       match key !! (keyLen - 1)%nat with
       | Some suffix => Ok (id, suffix)
       | None => Panic
       end.

Definition getCellMetaKey (cellID : Z) (suffix : byte) : bytes :=
  cellMetaPrefixKey ++ PutUint64 cellID ++ [suffix].
Definition getCellStateKey (cellID : Z) : bytes := getCellMetaKey cellID cellStateSuffix.
Definition getCellMetaPrefix (cellID : Z) : bytes := cellMetaPrefixKey ++ PutUint64 cellID.

Definition getDataKey (key : bytes) : bytes := dataPrefixKey ++ key.
(** [key[len(dataPrefixKey):]]: slicing past the end panics. *)
Definition getOriginKey (key : bytes) : outcome encoding_error bytes :=
  if decide (length dataPrefixKey ≤ length key)%nat then Ok (drop (length dataPrefixKey) key) else Panic.
Definition getDataEndKey (endKey : bytes) : bytes :=
  if decide (endKey = []) then dataMaxKey else getDataKey endKey.

(** [log.Fatalf] ends the process when the cell has no peers. *)
Definition encStartKey (c : Cell) : outcome encoding_error bytes :=
  if decide (Peers c = []) then Panic else Ok (getDataKey (Start c)).
Definition encEndKey (c : Cell) : outcome encoding_error bytes :=
  if decide (Peers c = []) then Panic else Ok (getDataEndKey (End c)).

Definition getCellIDKey (cellID : Z) (suffix : byte) (extraCap : Z) (extra : Z) : bytes :=
  cellRaftPrefixKey ++ PutUint64 cellID ++ [suffix] ++
  (if decide (extraCap > 0) then PutUint64 extra else []).
Definition getRaftStateKey (cellID : Z) : bytes := getCellIDKey cellID raftStateSuffix 0 0.
Definition getApplyStateKey (cellID : Z) : bytes := getCellIDKey cellID applyStateSuffix 0 0.
Definition getCellRaftPrefix (cellID : Z) : bytes := cellRaftPrefixKey ++ PutUint64 cellID.
Definition getRaftLogKey (cellID logIndex : Z) : bytes := getCellIDKey cellID raftLogSuffix 8 logIndex.
Definition getDocIDKey (docID : Z) : bytes := cellDocIDPrefixKey ++ PutUint64 docID.
Definition getIdxReqQueueKey : bytes := idxReqQueueKey.

Definition getRaftLogIndex (key : bytes) : outcome encoding_error Z :=
  let expectKeyLen := (length cellRaftPrefixKey + 8 * 2 + 1)%nat in
  if decide (length key ≠ expectKeyLen) then Err (ErrInvalidKey key)
  else BigEndianUint64 (drop (length cellRaftPrefixKey + 9) key).

(** [HasOverlap] of pkg/raftstore/util.go compares the encoded bounds. *)
Definition HasOverlap (c1 c2 : Cell) : outcome encoding_error bool :=
  let! s1 := encStartKey c1 in
  let! e2 := encEndKey c2 in
  if bltb s1 e2 then
    let! e1 := encEndKey c1 in
    let! s2 := encStartKey c2 in
    Ok (bltb s2 e1)
  else Ok false.

(** ** The key space: every key a store writes *)
Inductive store_key :=
  | KStoreIdent
  | KIdxReqQueue
  | KCellState (cell : Z)
  | KRaftState (cell : Z)
  | KApplyState (cell : Z)
  | KRaftLog (cell index : Z)
  | KDocID (doc : Z)
  | KData (key : bytes).

Definition encode_key (k : store_key) : bytes :=
  match k with
  | KStoreIdent => GetStoreIdentKey
  | KIdxReqQueue => getIdxReqQueueKey
  | KCellState c => getCellStateKey c
  | KRaftState c => getRaftStateKey c
  | KApplyState c => getApplyStateKey c
  | KRaftLog c i => getRaftLogKey c i
  | KDocID d => getDocIDKey d
  | KData key => getDataKey key
  end.

(** The ids are [uint64] values. *)
Definition key_ok (k : store_key) : Prop :=
  match k with
  | KCellState c | KRaftState c | KApplyState c | KDocID c => is_u64 c
  | KRaftLog c i => is_u64 c ∧ is_u64 i
  | _ => True
  end.

(** ** Lemmas *)
Lemma blt_cons x a b : blt (x :: a) (x :: b) ↔ blt a b.
Proof. unfold blt; simpl. by rewrite N.compare_refl. Qed.

Lemma blt_app p a b : blt (p ++ a) (p ++ b) ↔ blt a b.
Proof. induction p as [|x p IH]; simpl; [done|]. by rewrite blt_cons. Qed.

Lemma blt_app_prefix p q a b : length p = length q → blt p q → blt (p ++ a) (q ++ b).
Proof.
  revert q; induction p as [|x p IH]; intros [|y q] Hl; simplify_eq/=; unfold blt; simpl; [done|].
  destruct (N.compare (Byte.to_N x) (Byte.to_N y)); try done. by apply IH.
Qed.

Lemma PutUint64_app_inj v w a b : is_u64 v → is_u64 w →
  PutUint64 v ++ a = PutUint64 w ++ b → v = w ∧ a = b.
Proof.
  intros Hv Hw E. apply app_inj_1 in E as [E1 E2]; [|by rewrite !length_PutUint64].
  split; [by apply PutUint64_inj|done].
Qed.

Lemma length_app_PutUint64 v a : length (PutUint64 v ++ a) = (8 + length a)%nat.
Proof. by rewrite length_app, length_PutUint64. Qed.

#[local] Opaque PutUint64.

Lemma encode_key_injective k1 k2 :
  key_ok k1 → key_ok k2 → encode_key k1 = encode_key k2 → k1 = k2.
Proof.
  intros H1 H2 E. pose proof (f_equal (take 2) E) as Ep. pose proof (f_equal (drop 2) E) as Es.
  pose proof (f_equal length E) as El. pose proof (f_equal (drop 1) E) as Ed. clear E.
  destruct k1, k2; try done; cbn in Ep, Es, Ed, H1, H2; clear Ep; rewrite ?app_nil_r in *;
    try (apply PutUint64_app_inj in Es as [-> Es]; [|tauto..]; try done);
    try (rewrite (PutUint64_inj _ _ H1 H2 Es); done).
  - destruct H1 as [H1 H1'], H2 as [H2 H2']. apply (f_equal (drop 1)) in Es; cbn in Es.
    by rewrite (PutUint64_inj _ _ H1' H2' Es).
  - rewrite !drop_0 in Ed. by rewrite Ed.
Qed.
#[local] Transparent PutUint64.

Lemma getRaftLogKey_lt c i j : is_u64 i → is_u64 j → blt (getRaftLogKey c i) (getRaftLogKey c j) ↔ i < j.
Proof.
  intros Hi Hj. unfold getRaftLogKey, getCellIDKey. rewrite decide_True by done.
  rewrite !blt_app. by apply PutUint64_lt.
Qed.

Lemma getRaftLogKey_inj c c' i j : is_u64 c → is_u64 c' → is_u64 i → is_u64 j →
  getRaftLogKey c i = getRaftLogKey c' j → c = c' ∧ i = j.
Proof.
  intros ???? E. assert (KRaftLog c i = KRaftLog c' j) as [= -> ->]; [|done].
  by apply encode_key_injective.
Qed.

Lemma getRaftLogIndex_nonneg key i : getRaftLogIndex key = Ok i → 0 ≤ i.
Proof.
  unfold getRaftLogIndex, BigEndianUint64. case_decide; [done|]. case_decide; [|done].
  intros [= <-]. apply be_decode_bound.
Qed.

(** A key between two keys with a common prefix has that prefix. *)
Lemma prefix_between p a b k : ble (p ++ a) k → blt k (p ++ b) → ∃ r, k = p ++ r ∧ ble a r ∧ blt r b.
Proof.
  revert k; induction p as [|x p IH]; intros k; simpl; [by exists k|].
  destruct k as [|y k]; [by intros []|]. unfold ble, blt; simpl. rewrite (N.compare_antisym (Byte.to_N x)).
  destruct (N.compare_spec (Byte.to_N x) (Byte.to_N y)) as [E| |]; simpl; try done.
  apply byte_to_N_inj in E as ->. intros H1 H2. destruct (IH k H1 H2) as (r & -> & ? & ?). by exists r.
Qed.

#[local] Opaque PutUint64.
(** Only entries of the cell's own log lie between two of its log keys. *)
Lemma store_key_between_logs c i j sk : is_u64 c → key_ok sk →
  ble (getRaftLogKey c i) (encode_key sk) → blt (encode_key sk) (getRaftLogKey c j) →
  ∃ n, sk = KRaftLog c n.
Proof.
  intros Hc Hsk H1 H2. unfold getRaftLogKey, getCellIDKey in H1, H2. rewrite decide_True in H1, H2 by done.
  rewrite !(app_assoc (PutUint64 c)), !(app_assoc cellRaftPrefixKey) in H1, H2.
  destruct (prefix_between _ _ _ _ H1 H2) as (r & E & _). clear H1 H2.
  pose proof (f_equal (take 2) E) as Ep. pose proof (f_equal (drop 2) E) as Es.
  destruct sk; try done; cbn in Ep, Es, Hsk; rewrite <-?app_assoc in Es;
    apply PutUint64_app_inj in Es as [-> Es]; try tauto; try done. by exists index.
Qed.
#[local] Transparent PutUint64.

Lemma getDataEndKey_blt k e : blt (getDataKey k) (getDataEndKey e) ↔ e = [] ∨ blt k e.
Proof.
  unfold getDataEndKey, getDataKey. case_decide as E; [split; [by left|done]|].
  rewrite blt_app. naive_solver.
Qed.

Lemma HasOverlap_total c1 c2 : Peers c1 ≠ [] → Peers c2 ≠ [] →
  HasOverlap c1 c2 = Ok (bool_decide (overlap c1 c2)).
Proof.
  intros H1 H2. unfold HasOverlap, encStartKey, encEndKey.
  rewrite !(decide_False (P := Peers c1 = [])), !(decide_False (P := Peers c2 = [])) by done. simpl.
  destruct (bltb_spec (getDataKey (Start c1)) (getDataEndKey (End c2))) as [E1|E1]; f_equal;
    rewrite getDataEndKey_blt in E1.
  - destruct (bltb_spec (getDataKey (Start c2)) (getDataEndKey (End c1))) as [E2|E2];
      rewrite getDataEndKey_blt in E2; symmetry.
    + apply bool_decide_eq_true. done.
    + apply bool_decide_eq_false. unfold overlap. tauto.
  - symmetry. apply bool_decide_eq_false. unfold overlap. tauto.
Qed.

(** two stored items share an engine key only if they are the same item:
    store ident, index queue, cell states, raft states, apply states, raft log
    entries, doc ids and user data never collide. *)
Theorem store_keys_never_collide (k1 k2 : store_key) :
  key_ok k1 → key_ok k2 → encode_key k1 = encode_key k2 → k1 = k2.
Proof. apply encode_key_injective. Qed.

Lemma store_keys_never_collide_witness :
  encode_key (KRaftLog 7 9) = encode_key (KRaftLog 7 9) ∧ KRaftLog 7 9 = KRaftLog 7 9.
Proof.
  split; [reflexivity|].
  apply (store_keys_never_collide (KRaftLog 7 9) (KRaftLog 7 9)); [..|reflexivity];
    (split; split; vm_compute; congruence).
Defined.

(** the raft log keys of a cell decode to their index, sort by index, and lie
    strictly between the first key of the cell and the first key of the next
    cell id, so a range delete of one cell's log touches no other cell's. *)
Theorem raft_log_keys_ordered (c i j : Z) :
  is_u64 c → is_u64 i → is_u64 j →
  getRaftLogIndex (getRaftLogKey c i) = Ok i ∧
  (blt (getRaftLogKey c i) (getRaftLogKey c j) ↔ i < j) ∧
  (∀ c', is_u64 c' → c < c' → blt (getRaftLogKey c i) (getRaftLogKey c' j)).
Proof.
  intros Hc Hi Hj. unfold getRaftLogKey, getCellIDKey. rewrite decide_True by done. split; [|split].
  - unfold getRaftLogIndex. rewrite decide_False.
    2:{ rewrite !length_app, !length_PutUint64. simpl. lia. }
    rewrite !app_assoc, drop_app_length'
      by (rewrite !length_app, length_PutUint64; reflexivity).
    rewrite <-(app_nil_r (PutUint64 i)). by apply BigEndianUint64_put.
  - rewrite !blt_app. by apply PutUint64_lt.
  - intros c' Hc' Hlt. rewrite blt_app. apply blt_app_prefix; [by rewrite !length_PutUint64|].
    by apply PutUint64_lt.
Qed.

Lemma raft_log_keys_ordered_witness :
  getRaftLogIndex (getRaftLogKey 3 258) = Ok 258 ∧
  blt (getRaftLogKey 3 258) (getRaftLogKey 3 1000).
Proof.
  destruct (raft_log_keys_ordered 3 258 1000) as (H1 & H2 & _);
    [split; vm_compute; congruence..|].
  split; [exact H1|]. apply H2. reflexivity.
Defined.

(** [decodeCellMetaKey] inverts [getCellMetaKey], and rejects every key that
    is not eleven bytes long or lacks the cell meta prefix. *)
Theorem decodeCellMetaKey_spec (key : bytes) (id : Z) (suffix : byte) :
  is_u64 id →
  decodeCellMetaKey (getCellMetaKey id suffix) = Ok (id, suffix) ∧
  (decodeCellMetaKey key = Ok (id, suffix) ↔ key = getCellMetaKey id suffix).
Proof.
  intros Hid. assert (decodeCellMetaKey (getCellMetaKey id suffix) = Ok (id, suffix)) as Hok.
  { unfold decodeCellMetaKey, getCellMetaKey. rewrite decide_False.
    2:{ rewrite !length_app, length_PutUint64. simpl. lia. }
    rewrite take_app_length, bool_decide_true by done. simpl negb. cbv iota.
    rewrite drop_app_length. rewrite BigEndianUint64_put by done. cbn [outcome_bind].
    by rewrite app_assoc, lookup_snoc_last. }
  split; [done|]. split; [|by intros ->].
  unfold decodeCellMetaKey. case_decide as Hl; [done|].
  case_bool_decide as Hp; [|done]. simpl negb. cbv iota.
  assert (key = cellMetaPrefixKey ++ drop (length cellMetaPrefixKey) key) as Hk
    by (rewrite <-Hp at 1; by rewrite take_drop).
  revert Hl. revert Hk. generalize (drop (length cellMetaPrefixKey) key). intros rest -> Hl. clear Hp.
  assert (length rest = 9%nat) as Hr by (rewrite length_app in Hl; simpl in Hl; lia).
  destruct rest as [|b0 [|b1 [|b2 [|b3 [|b4 [|b5 [|b6 [|b7 [|b8 [|]]]]]]]]]]; try done.
  intros [= <- <-]. unfold getCellMetaKey. f_equal.
  change [b0; b1; b2; b3; b4; b5; b6; b7; b8] with ([b0; b1; b2; b3; b4; b5; b6; b7] ++ [b8]).
  f_equal. symmetry. apply (be_encode_decode [b0; b1; b2; b3; b4; b5; b6; b7]).
Qed.

Lemma decodeCellMetaKey_spec_witness :
  decodeCellMetaKey (getCellMetaKey 77 x01) = Ok (77, x01).
Proof. apply (decodeCellMetaKey_spec [] 77 x01). split; vm_compute; congruence. Defined.

(** user keys keep their order under the data prefix, stay inside
    [[dataMinKey, dataMaxKey)], decode back, and the overlap test on encoded
    bounds is the overlap of the key ranges. *)
Theorem data_keys_spec (k k' : bytes) (c1 c2 : Cell) :
  Peers c1 ≠ [] → Peers c2 ≠ [] →
  (blt (getDataKey k) (getDataKey k') ↔ blt k k') ∧
  ble dataMinKey (getDataKey k) ∧ blt (getDataKey k) dataMaxKey ∧
  getOriginKey (getDataKey k) = Ok k ∧
  HasOverlap c1 c2 = Ok (bool_decide (overlap c1 c2)).
Proof.
  intros H1 H2. split; [apply blt_app|]. split; [by destruct k|]. split; [done|]. split.
  - unfold getOriginKey. rewrite decide_True by (unfold getDataKey; rewrite length_app; lia).
    unfold getDataKey. by rewrite drop_app_length.
  - by apply HasOverlap_total.
Qed.

Lemma data_keys_spec_witness :
  HasOverlap (mkCell 1 [x61] [x6d] (mkCellEpoch 1 1) [mkPeer 2 3])
             (mkCell 4 [x6d] [] (mkCellEpoch 1 1) [mkPeer 5 6]) = Ok false.
Proof.
  destruct (data_keys_spec [] [] (mkCell 1 [x61] [x6d] (mkCellEpoch 1 1) [mkPeer 2 3])
             (mkCell 4 [x6d] [] (mkCellEpoch 1 1) [mkPeer 5 6])) as (_ & _ & _ & _ & H);
    [discriminate..|].
  rewrite H. vm_compute. reflexivity.
Defined.
