(* ===== verification/Strconv.v ===== *)
(** * Numbers as text

    What the repository uses of Go's strconv and strings: decimal integers
    ([ParseInt], [AppendInt], [Itoa], behind [StrInt64] and [FormatInt64ToBytes]
    of pkg/util/bytes.go), and lower case of command names. *)

From S2P Require Import Prelude Encoding.

(** ** Printing *)
Definition digit (d : Z) : byte := byte_of_Z (48 + d).
Fixpoint dec_digits (fuel : nat) (n : Z) (acc : bytes) : bytes :=
  match fuel with
  | O => acc
  | S fuel' => if bool_decide (n < 10) then digit n :: acc else dec_digits fuel' (n / 10) (digit (n `mod` 10) :: acc)
  end.
Definition uint_text (n : Z) : bytes := dec_digits (S (Z.to_nat (Z.log2 n))) n [].
Definition FormatInt64ToBytes (v : Z) : bytes := if bool_decide (v < 0) then x2d :: uint_text (- v) else uint_text v.
Definition Itoa (n : nat) : bytes := FormatInt64ToBytes (Z.of_nat n).

(** ** Parsing *)
Inductive numError := ErrSyntax | ErrRange.
Definition two63 : Z := 9223372036854775808.
Definition is_i64 (z : Z) : Prop := - two63 ≤ z < two63.
(** Arithmetic on [int] and [int64] wraps around. *)
Definition i64 (z : Z) : Z := (z + two63) `mod` two64 - two63.
Definition digit_val (c : byte) : option Z :=
  let d := Z_of_byte c - 48 in if bool_decide (0 ≤ d ≤ 9) then Some d else None.
(** [ParseUint] stops at the first character that is not a digit and at the first
    prefix that does not fit, and then returns the largest value. *)
Fixpoint parse_uint (s : bytes) (n : Z) : Z * option numError :=
  match s with
  | [] => (n, None)
  | c :: s' =>
      match digit_val c with
      | None => (0, Some ErrSyntax)
      | Some d =>
          let n := n * 10 + d in
          if bool_decide (two64 ≤ n) then (two64 - 1, Some ErrRange) else parse_uint s' n
      end
  end.
Definition ParseUint (s : bytes) : Z * option numError := match s with [] => (0, Some ErrSyntax) | _ => parse_uint s 0 end.
Definition ParseInt (s : bytes) : Z * option numError :=
  let '(neg, digits) := match s with x2b :: s' => (false, s') | x2d :: s' => (true, s') | _ => (false, s) end in
  let '(un, err) := ParseUint digits in
  match err with
  | Some ErrSyntax => (0, Some ErrSyntax)
  | _ =>
      if negb neg && bool_decide (two63 ≤ un) then (two63 - 1, Some ErrRange)
      else if neg && bool_decide (two63 < un) then (- two63, Some ErrRange)
      else (if neg then - un else un, None)
  end.
Definition StrInt64 (v : bytes) : Z * option numError := ParseInt v.
Definition Atoi (s : bytes) : Z * option numError := ParseInt s.

(** ** Lower case *)
Definition lower (c : byte) : byte :=
  if bool_decide (65 ≤ Z_of_byte c ≤ 90) then byte_of_Z (Z_of_byte c + 32) else c.
(** [strings.ToLower] on what can become a command name: ASCII letters and the two
    other characters whose lower case is one, the Kelvin sign and the capital I
    with a dot.  Other characters outside ASCII stay outside. *)
Fixpoint ToLower (s : bytes) : bytes :=
  match s with
  | xe2 :: x84 :: xaa :: s' => x6b :: ToLower s'
  | xc4 :: xb0 :: s' => x69 :: ToLower s'
  | c :: s' => lower c :: ToLower s'
  | [] => []
  end.

(** ** Round trip *)
Definition dec_value (s : bytes) (n : Z) : Z := foldl (λ n c, n * 10 + (Z_of_byte c - 48)) n s.
Definition is_digit (c : byte) : Prop := 48 ≤ Z_of_byte c ≤ 57.

Lemma i64_small z : is_i64 z → i64 z = z.
Proof. unfold is_i64, i64, two63, two64. intros. rewrite Z.mod_small; lia. Qed.
Lemma digit_value d : 0 ≤ d < 10 → Z_of_byte (digit d) = 48 + d.
Proof. intros. unfold digit. rewrite Z_of_byte_of_Z. apply Z.mod_small. lia. Qed.
Lemma digit_is_digit d : 0 ≤ d < 10 → is_digit (digit d).
Proof. intros. unfold is_digit. rewrite digit_value by done. lia. Qed.
Lemma digit_val_is c : is_digit c → digit_val c = Some (Z_of_byte c - 48).
Proof. intros [??]. unfold digit_val. by rewrite bool_decide_eq_true_2 by lia. Qed.

Lemma dec_digits_spec fuel : ∀ n acc, 0 ≤ n < 10 ^ Z.of_nat fuel → Forall is_digit acc →
  Forall is_digit (dec_digits fuel n acc) ∧ ∃ ds, dec_digits fuel n acc = ds ++ acc ∧ dec_value ds 0 = n ∧ (fuel ≠ 0%nat → ds ≠ []).
Proof.
  induction fuel as [|fuel IH]; intros n acc Hn Hacc; simpl.
  - split; [done|]. exists []. split_and!; [done| |done]. change (10 ^ Z.of_nat 0) with 1 in Hn. simpl. lia.
  - case_bool_decide as Hlt.
    + split; [constructor; [by apply digit_is_digit; lia|done]|]. exists [digit n]. split_and!; [done| |done].
      unfold dec_value. simpl. rewrite digit_value by lia. lia.
    + rewrite Nat2Z.inj_succ, Z.pow_succ_r in Hn by lia. pose proof (Z.mod_pos_bound n 10 ltac:(lia)).
      destruct (IH (n / 10) (digit (n `mod` 10) :: acc)) as (Hd & ds & Heq & Hv & _).
      { split; [apply Z.div_pos; lia|]. apply Z.div_lt_upper_bound; lia. }
      { constructor; [by apply digit_is_digit|done]. }
      rewrite Heq in *. split; [done|]. exists (ds ++ [digit (n `mod` 10)]). split_and!; [by rewrite <-(assoc_L (++))| |].
      * unfold dec_value in *. rewrite foldl_app, Hv. simpl. rewrite digit_value by done. pose proof (Z.div_mod n 10 ltac:(lia)). lia.
      * intros _. by destruct ds.
Qed.

Lemma uint_text_spec n : 0 ≤ n → Forall is_digit (uint_text n) ∧ uint_text n ≠ [] ∧ dec_value (uint_text n) 0 = n.
Proof.
  intros Hn. unfold uint_text. destruct (dec_digits_spec (S (Z.to_nat (Z.log2 n))) n []) as (Hd & ds & Heq & Hv & Hne); [|constructor|].
  - split; [done|]. rewrite Nat2Z.inj_succ, Z2Nat.id by apply Z.log2_nonneg.
    destruct (decide (n = 0)) as [->|]; [done|]. pose proof (Z.log2_spec n ltac:(lia)) as [_ Hl].
    eapply Z.lt_le_trans; [exact Hl|]. apply Z.pow_le_mono_l. lia.
  - rewrite app_nil_r in Heq. rewrite Heq in *. split_and!; [done|by apply Hne|done].
Qed.

Lemma dec_value_ge s : ∀ n, 0 ≤ n → Forall is_digit s → n ≤ dec_value s n.
Proof.
  unfold dec_value. induction s as [|c s IH]; intros n Hn Hs; simpl; [lia|]. inversion_clear Hs as [|?? [Hc _] Hs'].
  etransitivity; [|apply IH; [lia|done]]. lia.
Qed.
Lemma parse_uint_ok s : ∀ n, 0 ≤ n → Forall is_digit s → dec_value s n < two64 → parse_uint s n = (dec_value s n, None).
Proof.
  induction s as [|c s IH]; intros n Hn Hs Hv; simpl; [done|]. inversion_clear Hs as [|?? Hc Hs']. rewrite (digit_val_is c Hc).
  destruct Hc as [Hc1 Hc2]. pose proof (dec_value_ge s (n * 10 + (Z_of_byte c - 48)) ltac:(lia) Hs') as Hge.
  unfold dec_value in Hv. simpl in Hv. fold (dec_value s (n * 10 + (Z_of_byte c - 48))) in Hv.
  rewrite bool_decide_eq_false_2 by lia. apply IH; [lia|done|done].
Qed.

(** Text of digits is read as its value. *)
Lemma ParseInt_digits s : Forall is_digit s → s ≠ [] → dec_value s 0 < two63 → ParseInt s = (dec_value s 0, None).
Proof.
  intros Hs Hne Hv. unfold ParseInt. pose proof (dec_value_ge s 0 ltac:(lia) Hs).
  replace (match s with x2b :: s' => (false, s') | x2d :: s' => (true, s') | _ => (false, s) end) with (false, s)
    by (destruct s as [|[] s]; try done; inversion_clear Hs as [|?? Hc]; exfalso; destruct Hc as [Hc1 Hc2]; vm_compute in Hc1, Hc2; tauto).
  unfold ParseUint. destruct s as [|c s]; [done|]. rewrite parse_uint_ok; [|lia|done|unfold two63, two64 in *; lia].
  cbn [negb andb]. by rewrite bool_decide_eq_false_2 by lia.
Qed.

Lemma parse_format v : is_i64 v → ParseInt (FormatInt64ToBytes v) = (v, None).
Proof.
  intros [Hlo Hhi]. unfold FormatInt64ToBytes. case_bool_decide as Hneg.
  - destruct (uint_text_spec (- v)) as (Hd & Hne & Hv); [lia|]. unfold ParseInt. simpl. unfold ParseUint.
    destruct (uint_text (- v)) as [|c s] eqn:E; [done|]. rewrite parse_uint_ok; [|lia|done|rewrite Hv; unfold two63, two64 in *; lia].
    rewrite Hv. cbn [negb andb]. rewrite bool_decide_eq_false_2 by lia. f_equal. lia.
  - destruct (uint_text_spec v) as (Hd & Hne & Hv); [lia|]. rewrite ParseInt_digits by (rewrite ?Hv; done || lia). by rewrite Hv.
Qed.
