(* ===== verification/Sortable.v ===== *)
(** * Floating point numbers as sortable integers

    [Float32ToSortableUint64] and [Float64ToSortableUint64] of pkg/util/bytes.go,
    by which the index of a document compares floating point fields.  Numbers are
    their bits; parsing the text is a parameter.  [sortable_orders_floats] compares
    the integers with the numbers. *)

From S2P Require Import Prelude Encoding Strconv.

(** [uintw(int0 ^ ((int0 >> (w-1)) & (2^(w-1) - 1))) ^ 2^(w-1)] with
    [int0 = intw(bits)]. *)
Definition to_signed (w bits : Z) : Z := (bits + 2 ^ (w - 1)) `mod` 2 ^ w - 2 ^ (w - 1).
Definition sortable (w bits : Z) : Z :=
  let int0 := to_signed w bits in
  Z.lxor (Z.lxor int0 (Z.land (Z.shiftr int0 (w - 1)) (2 ^ (w - 1) - 1)) `mod` 2 ^ w) (2 ^ (w - 1)).
Section parse.
(** strconv.ParseFloat for numbers of [w] bits, and its errors. *)
Context (ParseFloat : Z → bytes → Z * option numError).
Definition Float32ToSortableUint64 (valS : bytes) : outcome numError Z :=
  match ParseFloat 32 valS with (_, Some e) => Err e | (bits, None) => Ok (sortable 32 bits) end.
Definition Float64ToSortableUint64 (valS : bytes) : outcome numError Z :=
  match ParseFloat 64 valS with (_, Some e) => Err e | (bits, None) => Ok (sortable 64 bits) end.
End parse.

(** ** IEEE 754 *)
(** A format with [eb] bits of exponent and [fb] of fraction: sign and magnitude. *)
Section format.
Context (eb fb : Z) (Heb : 1 < eb) (Hfb : 0 < fb).
Definition width : Z := 1 + eb + fb.
Definition negative (bits : Z) : bool := bool_decide (2 ^ (eb + fb) ≤ bits).
Definition magnitude (bits : Z) : Z := bits `mod` 2 ^ (eb + fb).
Definition exponent (bits : Z) : Z := magnitude bits / 2 ^ fb.
Definition fraction (bits : Z) : Z := magnitude bits `mod` 2 ^ fb.
Definition finite (bits : Z) : Prop := 0 ≤ bits < 2 ^ width ∧ exponent bits < 2 ^ eb - 1.
(** The absolute value and the value, in units of the smallest number. *)
Definition absval (bits : Z) : Z :=
  if bool_decide (exponent bits = 0) then fraction bits else (2 ^ fb + fraction bits) * 2 ^ (exponent bits - 1).
Definition fvalue (bits : Z) : Z := if negative bits then - absval bits else absval bits.

Lemma testbit_small n y i : 0 ≤ y < 2 ^ n → 0 ≤ n ≤ i → Z.testbit y i = false.
Proof.
  intros [Hy Hlt] Hi. destruct (decide (y = 0)) as [->|]; [apply Z.bits_0|]. apply Z.bits_above_log2; [done|].
  apply Z.log2_lt_pow2 in Hlt; lia.
Qed.
Lemma lxor_ones n y : 0 ≤ n → 0 ≤ y < 2 ^ n → Z.lxor y (2 ^ n - 1) = 2 ^ n - 1 - y.
Proof.
  intros Hn Hy. replace (2 ^ n - 1) with (Z.ones n) by (rewrite Z.ones_equiv; lia).
  rewrite Z.sub_nocarry_ldiff; apply Z.bits_inj'; intros i Hi; rewrite ?Z.lxor_spec, !Z.ldiff_spec, ?Z.bits_0; destruct (decide (i < n));
    rewrite ?Z.ones_spec_low, ?Z.ones_spec_high by lia; try (by destruct (Z.testbit y i)); by rewrite (testbit_small n y i) by lia.
Qed.
Lemma lxor_high n y : 0 ≤ n → 0 ≤ y < 2 ^ n → Z.lxor y (2 ^ n) = 2 ^ n + y.
Proof.
  intros Hn Hy. rewrite <-Z.add_nocarry_lxor; [lia|]. apply Z.bits_inj'. intros i Hi. rewrite Z.land_spec, Z.bits_0, Z.pow2_bits_eqb by lia.
  destruct (Z.eqb_spec n i) as [<-|]; [|by rewrite andb_false_r]. by rewrite (testbit_small n y n) by lia.
Qed.
(** Positive numbers are moved up, negative ones reversed below them. *)
Lemma sortable_spec bits : 0 ≤ bits < 2 ^ width →
  sortable width bits = if negative bits then 2 ^ width - 1 - bits else 2 ^ (eb + fb) + bits.
Proof.
  intros Hb. unfold sortable, to_signed, negative, width in *. replace (1 + eb + fb - 1) with (eb + fb) by lia. set (n := eb + fb) in *.
  assert (0 < n) as Hn by lia. assert (2 ^ (1 + eb + fb) = 2 * 2 ^ n) as Hw by (replace (1 + eb + fb) with (Z.succ n) by lia; apply Z.pow_succ_r; lia).
  rewrite Hw in *. pose proof (Z.pow_pos_nonneg 2 n ltac:(lia) ltac:(lia)) as Hp. case_bool_decide as Hneg.
  - replace ((bits + 2 ^ n) `mod` (2 * 2 ^ n) - 2 ^ n) with (bits - 2 * 2 ^ n).
    2:{ rewrite <-(Z_mod_plus_full (bits + 2 ^ n) (-1)), Z.mod_small; lia. }
    set (y := 2 * 2 ^ n - 1 - bits). assert (0 ≤ y < 2 ^ n) as Hy by lia. replace (bits - 2 * 2 ^ n) with (Z.lnot y) by (unfold Z.lnot; lia).
    replace (Z.shiftr (Z.lnot y) n) with (-1).
    2:{ rewrite Z.shiftr_div_pow2 by lia. unfold Z.lnot. apply (Z.div_unique _ _ _ (2 ^ n - 1 - y)); lia. }
    rewrite Z.land_m1_l. replace (Z.lxor (Z.lnot y) (2 ^ n - 1)) with (Z.lnot (Z.lxor y (2 ^ n - 1))).
    2:{ apply Z.bits_inj'. intros i Hi. rewrite Z.lnot_spec, !Z.lxor_spec, Z.lnot_spec by lia. by destruct (Z.testbit y i), (Z.testbit (2 ^ n - 1) i). }
    rewrite lxor_ones by lia. replace (Z.lnot (2 ^ n - 1 - y) `mod` (2 * 2 ^ n)) with (2 ^ n + y).
    2:{ rewrite <-(Z_mod_plus_full _ 1). unfold Z.lnot. rewrite Z.mod_small; lia. }
    rewrite <-(lxor_high n y) by lia. rewrite Z.lxor_assoc, Z.lxor_nilpotent, Z.lxor_0_r. lia.
  - rewrite (Z.mod_small (bits + 2 ^ n)) by lia. replace (bits + 2 ^ n - 2 ^ n) with bits by lia. rewrite Z.shiftr_div_pow2, Z.div_small, Z.land_0_l, Z.lxor_0_r by lia.
    rewrite Z.mod_small by lia. apply lxor_high; lia.
Qed.
(** The absolute value grows with the magnitude. *)
Lemma absval_mono a b : 0 ≤ a < 2 ^ width → 0 ≤ b < 2 ^ width → magnitude a < magnitude b → 0 ≤ absval a < absval b.
Proof.
  intros Ha Hb Hlt. unfold absval, exponent, fraction. pose proof (Z.pow_pos_nonneg 2 fb ltac:(lia) ltac:(lia)) as Hp.
  assert (0 ≤ magnitude a) as Hma by (apply Z.mod_pos_bound, Z.pow_pos_nonneg; lia).
  pose proof (Z_div_mod_eq_full (magnitude a) (2 ^ fb)) as Ea. pose proof (Z_div_mod_eq_full (magnitude b) (2 ^ fb)) as Eb.
  pose proof (Z.mod_pos_bound (magnitude a) (2 ^ fb) Hp) as Fa. pose proof (Z.mod_pos_bound (magnitude b) (2 ^ fb) Hp) as Fb.
  assert (0 ≤ magnitude a / 2 ^ fb) as Qa by (apply Z.div_pos; lia). assert (magnitude a / 2 ^ fb ≤ magnitude b / 2 ^ fb) as Qab by (apply Z.div_le_mono; lia).
  revert Ea Eb Fa Fb Qa Qab. generalize (magnitude a / 2 ^ fb) (magnitude b / 2 ^ fb) (magnitude a `mod` 2 ^ fb) (magnitude b `mod` 2 ^ fb).
  intros qa qb fa fb' Ea Eb Fa Fb Qa Qab. set (P := 2 ^ fb) in *. rewrite Ea, Eb in Hlt.
  repeat case_bool_decide; try lia.
  - subst qa. assert (1 ≤ 2 ^ (qb - 1)) by (assert (0 < 2 ^ (qb - 1)) by (apply Z.pow_pos_nonneg; lia); lia). nia.
  - assert (0 < 2 ^ (qa - 1)) as Pa by (apply Z.pow_pos_nonneg; lia). split; [nia|]. destruct (decide (qa = qb)) as [->|Hne]; [nia|].
    assert (2 * 2 ^ (qa - 1) ≤ 2 ^ (qb - 1)) as Hpow.
    { rewrite <-Z.pow_succ_r by lia. apply Z.pow_le_mono_r; lia. }
    nia.
Qed.

(** The integers of two finite numbers compare as the numbers do, and zero with a
    sign comes before zero without. *)
Lemma sortable_orders a b : finite a → finite b →
  sortable width a < sortable width b ↔ fvalue a < fvalue b ∨ magnitude a = 0 ∧ magnitude b = 0 ∧ negative a = true ∧ negative b = false.
Proof.
  intros [Ha _] [Hb _]. rewrite !sortable_spec by done. unfold fvalue.
  assert (∀ x, 0 ≤ x < 2 ^ width → magnitude x = if negative x then x - 2 ^ (eb + fb) else x) as Hmag.
  { intros x Hx. unfold magnitude, negative, width in *. assert (2 ^ (1 + eb + fb) = 2 * 2 ^ (eb + fb)) as Hw by (replace (1 + eb + fb) with (Z.succ (eb + fb)) by lia; apply Z.pow_succ_r; lia).
    case_bool_decide; [|apply Z.mod_small; lia]. rewrite <-(Z_mod_plus_full x (-1)), Z.mod_small; lia. }
  assert (∀ x y, 0 ≤ x < 2 ^ width → 0 ≤ y < 2 ^ width → magnitude x < magnitude y ↔ absval x < absval y) as Habs.
  { intros x y Hx Hy. split; [by apply absval_mono|]. intros Hlt. destruct (decide (magnitude x < magnitude y)) as [|Hge]; [done|].
    destruct (decide (magnitude y = magnitude x)) as [He|Hne]; [unfold absval, exponent, fraction in Hlt; rewrite He in Hlt; lia|].
    pose proof (absval_mono y x Hy Hx ltac:(lia)). lia. }
  assert (∀ x, 0 ≤ x < 2 ^ width → 0 ≤ absval x ∧ (absval x = 0 ↔ magnitude x = 0)) as Hpos.
  { intros x Hx. pose proof (Hmag x Hx) as Hm. assert (0 ≤ magnitude x) by (apply Z.mod_pos_bound, Z.pow_pos_nonneg; lia).
    assert (absval 0 = 0 ∧ magnitude 0 = 0) as [Ha0 Hm0] by (unfold absval, exponent, fraction, magnitude; rewrite Z.mod_0_l, Z.div_0_l, Z.mod_0_l by (apply Z.pow_nonzero; lia); by rewrite bool_decide_eq_true_2).
    destruct (decide (magnitude x = 0)) as [He|Hne].
    - assert (absval x = 0) by (rewrite <-Ha0; unfold absval, exponent, fraction; by rewrite He, Hm0). lia.
    - pose proof (absval_mono 0 x ltac:(lia) Hx ltac:(lia)). lia. }
  pose proof (Hmag a Ha) as Ma. pose proof (Hmag b Hb) as Mb. pose proof (Habs a b Ha Hb) as Hab. pose proof (Habs b a Hb Ha) as Hba.
  pose proof (Hpos a Ha) as [Pa Za]. pose proof (Hpos b Hb) as [Pb Zb].
  assert (2 ^ width = 2 * 2 ^ (eb + fb)) as Hw by (unfold width; replace (1 + eb + fb) with (Z.succ (eb + fb)) by lia; apply Z.pow_succ_r; lia).
  assert (0 ≤ magnitude a ∧ 0 ≤ magnitude b) as [Na Nb] by (split; apply Z.mod_pos_bound, Z.pow_pos_nonneg; lia).
  destruct (negative a), (negative b); lia.
Qed.
End format.

(** C38. Indexed floating point fields are compared correctly: of two texts that
    parse to finite numbers, of double or of single precision, the first gets the
    smaller integer exactly when its number is smaller, or when the two are zero
    and only the first has a sign. *)
Theorem sortable_orders_floats (ParseFloat : Z → bytes → Z * option numError) s t :
  (∀ a b, ParseFloat 64 s = (a, None) → ParseFloat 64 t = (b, None) → finite 11 52 a → finite 11 52 b →
    ∃ x y, Float64ToSortableUint64 ParseFloat s = Ok x ∧ Float64ToSortableUint64 ParseFloat t = Ok y ∧
      (x < y ↔ fvalue 11 52 a < fvalue 11 52 b ∨ magnitude 11 52 a = 0 ∧ magnitude 11 52 b = 0 ∧ negative 11 52 a = true ∧ negative 11 52 b = false)) ∧
  (∀ a b, ParseFloat 32 s = (a, None) → ParseFloat 32 t = (b, None) → finite 8 23 a → finite 8 23 b →
    ∃ x y, Float32ToSortableUint64 ParseFloat s = Ok x ∧ Float32ToSortableUint64 ParseFloat t = Ok y ∧
      (x < y ↔ fvalue 8 23 a < fvalue 8 23 b ∨ magnitude 8 23 a = 0 ∧ magnitude 8 23 b = 0 ∧ negative 8 23 a = true ∧ negative 8 23 b = false)).
Proof.
  unfold Float64ToSortableUint64, Float32ToSortableUint64. split; intros a b -> -> Ha Hb; do 2 eexists; (split_and!; [done|done|]).
  - exact (sortable_orders 11 52 ltac:(lia) ltac:(lia) a b Ha Hb).
  - exact (sortable_orders 8 23 ltac:(lia) ltac:(lia) a b Ha Hb).
Qed.
(** Minus one and one half, as double precision numbers. *)
Definition sample_parse (_ : Z) (s : bytes) : Z * option numError :=
  match s with [x2d; x31] => (0xBFF0000000000000, None) | _ => (0x3FE0000000000000, None) end.
Lemma sortable_orders_floats_witness :
  ∃ x y, Float64ToSortableUint64 sample_parse [x2d; x31] = Ok x ∧ Float64ToSortableUint64 sample_parse [x30; x2e; x35] = Ok y ∧ x < y.
Proof.
  destruct (sortable_orders_floats sample_parse [x2d; x31] [x30; x2e; x35]) as [H _].
  destruct (H 0xBFF0000000000000 0x3FE0000000000000 eq_refl eq_refl) as (x & y & H1 & H2 & H3); [split; [split; [discriminate|reflexivity]|reflexivity]..|].
  exists x, y. split; [exact H1|]. split; [exact H2|]. apply H3. left. vm_compute. reflexivity.
Defined.
