(* ===== verification/Goetty.v ===== *)
(** * Byte buffers, framing and the redis protocol

    The network library the servers are built on, vendored at
    vendor/github.com/fagongzi/goetty: [ByteBuf] (buf.go), the read loop of a
    session (session.go), the decoder for length prefixed frames
    (codec_length_field.go) and the redis protocol (protocol/redis).  [Framing]
    says what a decoder owes to an encoder; [stream_roundtrip] is the consequence
    every codec of the repository gets from it: the messages of a stream arrive
    complete and in order however the network cuts it into pieces. *)

From S2P Require Import Prelude Encoding Strconv.

(** ** ByteBuf *)
Inductive buf_error := ErrShortBuffer | ErrIllegal.
Record ByteBuf := mkBuf { buf : bytes; readerIndex : nat; writerIndex : nat; markedIndex : nat }.

(** Fresh memory is of the size asked for and holds anything. *)
Class Pool := { Alloc : nat → bytes; Alloc_length n : length (Alloc n) = n }.
#[export] Instance zero_pool : Pool := {| Alloc n := replicate n x00; Alloc_length n := length_replicate n x00 |}.

Definition Capacity (b : ByteBuf) : nat := length (buf b).
Definition Readable (b : ByteBuf) : nat := (writerIndex b - readerIndex b)%nat.
Definition Writeable (b : ByteBuf) : nat := (Capacity b - writerIndex b)%nat.
Definition set_reader (i : nat) (b : ByteBuf) : ByteBuf := mkBuf (buf b) i (writerIndex b) (markedIndex b).
Definition SetReaderIndex (i : nat) (b : ByteBuf) : ByteBuf :=
  if bool_decide (writerIndex b < i)%nat then b else set_reader i b.
Definition Skip (n : nat) (b : ByteBuf) : ByteBuf :=
  if bool_decide (Readable b < n)%nat then b else set_reader (readerIndex b + n) b.
Definition Clear (b : ByteBuf) : ByteBuf := mkBuf (buf b) 0 0 0.
Definition MarkN (n : nat) (b : ByteBuf) : ByteBuf :=
  let index := (readerIndex b + n)%nat in
  if bool_decide (Capacity b < index)%nat || bool_decide (index ≤ readerIndex b)%nat then b
  else mkBuf (buf b) (readerIndex b) (writerIndex b) index.
(** A slice [buf[i:j]]; out of range it panics. *)
Definition slice (i j : nat) (l : bytes) : outcome buf_error bytes :=
  if bool_decide (i ≤ j ≤ length l)%nat then Ok (take (j - i) (drop i l)) else Panic.
Definition GetMarkedRemindData (b : ByteBuf) : outcome buf_error bytes := slice (readerIndex b) (markedIndex b) (buf b).
Definition MarkedBytesReaded (b : ByteBuf) : ByteBuf := set_reader (markedIndex b) b.
Definition PeekByte (offset : Z) (b : ByteBuf) : outcome buf_error byte :=
  if bool_decide (Z.of_nat (Readable b) < offset) || bool_decide (offset < 0) then Err ErrShortBuffer
  else match buf b !! (readerIndex b + Z.to_nat offset)%nat with Some c => Ok c | None => Panic end.
Definition ReadByte (b : ByteBuf) : outcome buf_error (byte * ByteBuf) :=
  if bool_decide (Readable b = 0%nat) then Ok (x00, b)
  else match buf b !! readerIndex b with Some c => Ok (c, set_reader (S (readerIndex b)) b) | None => Panic end.
(** The count, the new array, which is zero past it, and the buffer. *)
Definition ReadBytes (n : Z) (b : ByteBuf) : outcome buf_error (nat * bytes * ByteBuf) :=
  if bool_decide (n < 0) then Panic
  else if bool_decide (n = 0) then Ok (0%nat, [], b)
  else
    let size := Nat.min (Z.to_nat n) (Readable b) in
    let! data := slice (readerIndex b) (readerIndex b + size) (buf b) in
    Ok (size, data ++ replicate (Z.to_nat n - size) x00, set_reader (readerIndex b + size) b).
Definition ReadRawBytes (n : nat) (b : ByteBuf) : outcome buf_error (nat * bytes) :=
  if bool_decide (Readable b < n)%nat then Ok (0%nat, [])
  else let! data := slice (readerIndex b) (readerIndex b + n) (buf b) in Ok (n, data).
Definition PeekInt (offset : nat) (b : ByteBuf) : outcome buf_error Z :=
  if bool_decide (Readable b < 4 + offset)%nat then Err ErrShortBuffer
  else let! data := slice (readerIndex b + offset) (readerIndex b + offset + 4) (buf b) in Ok (be_decode data).
(** [Int2Bytes] keeps the four low bytes. *)
Definition Int2Bytes (v : Z) : bytes := be_encode 4 v.

Section pool.
Context `{!Pool}.
Definition Expansion (n : nat) (b : ByteBuf) : ByteBuf :=
  if bool_decide (Writeable b < n)%nat then
    let newBuf := Alloc (Capacity b + n) in
    let data := take (Readable b) (drop (readerIndex b) (buf b)) in
    mkBuf (data ++ drop (length data) newBuf) 0 (writerIndex b - readerIndex b) (markedIndex b)
  else b.
(** [copy(b.buf[b.writerIndex:], p)] with the writer moved behind it. *)
Definition put (p : bytes) (b : ByteBuf) : ByteBuf :=
  mkBuf (take (writerIndex b) (buf b) ++ p ++ drop (writerIndex b + length p) (buf b))
    (readerIndex b) (writerIndex b + length p) (markedIndex b).
Definition Write (p : bytes) (b : ByteBuf) : ByteBuf := put p (Expansion (length p) b).
Definition minScale : nat := 128.
(** One read of the connection, which gives at most [minScale] bytes. *)
Definition ReadFrom (p : bytes) (b : ByteBuf) : ByteBuf := put p (Expansion minScale b).
Definition NewByteBuf (capacity : nat) : ByteBuf := mkBuf (Alloc capacity) 0 0 0.
End pool.

(** *** What is unread *)
Definition wf (b : ByteBuf) : Prop := (readerIndex b ≤ writerIndex b ≤ length (buf b))%nat.
Definition content (b : ByteBuf) : bytes := take (Readable b) (drop (readerIndex b) (buf b)).

Lemma length_content b : wf b → length (content b) = Readable b.
Proof. intros [??]. unfold content. rewrite length_take, length_drop. unfold Readable in *. lia. Qed.
Lemma content_lookup b i : wf b → (i < Readable b)%nat → buf b !! (readerIndex b + i)%nat = content b !! i.
Proof. intros Hw Hi. unfold content. rewrite lookup_take_lt by done. by rewrite lookup_drop. Qed.
Lemma content_slice b i n : wf b → (i + n ≤ Readable b)%nat →
  slice (readerIndex b + i) (readerIndex b + i + n) (buf b) = Ok (take n (drop i (content b))).
Proof.
  intros [??] Hn. unfold slice. rewrite bool_decide_eq_true_2 by (unfold Readable in *; lia). f_equal.
  replace (readerIndex b + i + n - (readerIndex b + i))%nat with n by lia. unfold content.
  rewrite <-drop_drop, skipn_firstn_comm, take_take. f_equal. lia.
Qed.
Lemma content_advance b n : wf b → (n ≤ Readable b)%nat →
  wf (set_reader (readerIndex b + n) b) ∧ content (set_reader (readerIndex b + n) b) = drop n (content b).
Proof.
  intros [??] Hn. unfold wf, content, Readable, set_reader in *. simpl. split; [lia|].
  rewrite skipn_firstn_comm, drop_drop. f_equal. lia.
Qed.
Lemma Readable_advance b n : wf b → (n ≤ Readable b)%nat → Readable (set_reader (readerIndex b + n) b) = (Readable b - n)%nat.
Proof. unfold Readable, set_reader, wf. simpl. lia. Qed.

Lemma ReadByte_cons b c rest : wf b → content b = c :: rest → ∃ b', ReadByte b = Ok (c, b') ∧ wf b' ∧ content b' = rest ∧
  b' = set_reader (readerIndex b + 1) b.
Proof.
  intros Hw Hc. pose proof (length_content b Hw) as Hl. rewrite Hc in Hl. simpl in Hl. unfold ReadByte.
  rewrite bool_decide_eq_false_2 by lia. pose proof (content_lookup b 0 Hw ltac:(lia)) as Hb. rewrite Nat.add_0_r, Hc in Hb. rewrite Hb. simpl.
  destruct (content_advance b 1 Hw ltac:(lia)) as [Hw' Hc']. rewrite Hc in Hc'. rewrite <-Nat.add_1_r. eauto 10.
Qed.
Lemma ReadBytes_app b (p rest : bytes) : wf b → content b = p ++ rest → p ≠ [] → ∃ b', ReadBytes (Z.of_nat (length p)) b = Ok (length p, p, b') ∧
  wf b' ∧ content b' = rest ∧ b' = set_reader (readerIndex b + length p) b.
Proof.
  intros Hw Hc Hp. pose proof (length_content b Hw) as Hl. rewrite Hc, length_app in Hl. unfold ReadBytes.
  assert (length p ≠ 0%nat) by (by destruct p). rewrite bool_decide_eq_false_2, bool_decide_eq_false_2, Nat2Z.id by lia.
  rewrite Nat.min_l by lia. pose proof (content_slice b 0 (length p) Hw ltac:(lia)) as Hs. rewrite Nat.add_0_r in Hs. rewrite Hs.
  simpl. rewrite drop_0, Hc, take_app_length, Nat.sub_diag, app_nil_r.
  destruct (content_advance b (length p) Hw ltac:(lia)) as [Hw' Hc']. rewrite Hc, drop_app_length in Hc'. eauto 10.
Qed.
Lemma PeekByte_content b i c : wf b → content b !! i = Some c → PeekByte (Z.of_nat i) b = Ok c.
Proof.
  intros Hw Hc. pose proof (lookup_lt_Some _ _ _ Hc) as Hi. rewrite length_content in Hi by done. unfold PeekByte.
  rewrite bool_decide_eq_false_2, bool_decide_eq_false_2, Nat2Z.id by lia. simpl. by rewrite content_lookup, Hc by done.
Qed.
Lemma PeekInt_content b p rest : wf b → content b = p ++ rest → length p = 4%nat → PeekInt 0 b = Ok (be_decode p).
Proof.
  intros Hw Hc Hp. pose proof (length_content b Hw) as Hl. rewrite Hc, length_app in Hl. unfold PeekInt.
  rewrite bool_decide_eq_false_2 by lia. rewrite content_slice by (done || lia). simpl. by rewrite drop_0, Hc, take_app_length'.
Qed.
Lemma Skip_content b n : wf b → (n ≤ Readable b)%nat → wf (Skip n b) ∧ content (Skip n b) = drop n (content b) ∧ Skip n b = set_reader (readerIndex b + n) b.
Proof. intros Hw Hn. unfold Skip. rewrite bool_decide_eq_false_2 by lia. destruct (content_advance b n Hw Hn). done. Qed.
(** Going back to an index remembered before reading. *)
Lemma SetReaderIndex_back b b' : wf b → buf b' = buf b → writerIndex b' = writerIndex b → 
  wf (SetReaderIndex (readerIndex b) b') ∧ content (SetReaderIndex (readerIndex b) b') = content b.
Proof.
  intros [??] Hb Hw. unfold SetReaderIndex. rewrite Hw, bool_decide_eq_false_2 by lia. unfold wf, content, Readable, set_reader. simpl.
  by rewrite Hb, Hw.
Qed.

Section pool_lemmas.
Context `{!Pool}.
Lemma Expansion_content n b : wf b → wf (Expansion n b) ∧ content (Expansion n b) = content b ∧ (n ≤ Writeable (Expansion n b))%nat.
Proof.
  intros Hw. pose proof (length_content b Hw) as Hl. destruct Hw as [Hrw Hwl]. unfold Expansion. case_bool_decide as Hfree; [|split_and!; [done..|lia]].
  fold (content b). unfold wf, content, Readable, Writeable, Capacity in *. simpl.
  rewrite length_app, length_drop, Alloc_length, drop_0, Nat.sub_0_r. rewrite Hl. split_and!; [lia|lia| |lia].
  by rewrite take_app_le, take_ge by lia.
Qed.
Lemma put_content p b : wf b → (length p ≤ Writeable b)%nat → wf (put p b) ∧ content (put p b) = content b ++ p.
Proof.
  intros [Hrw Hwl] Hp. unfold wf, content, Readable, Writeable, Capacity, put in *. simpl.
  split; [rewrite !length_app, length_take, length_drop; lia|].
  rewrite drop_app_le by (rewrite length_take; lia). rewrite skipn_firstn_comm. rewrite app_assoc, take_app_le by (rewrite length_app, length_take, length_drop; lia).
  rewrite take_ge; [done|]. rewrite length_app, length_take, length_drop. lia.
Qed.
Lemma Write_content p b : wf b → wf (Write p b) ∧ content (Write p b) = content b ++ p.
Proof. intros Hw. destruct (Expansion_content (length p) b Hw) as (Hw' & <- & Hfree). by apply put_content. Qed.
Lemma ReadFrom_content p b : wf b → (length p ≤ minScale)%nat → wf (ReadFrom p b) ∧ content (ReadFrom p b) = content b ++ p.
Proof. intros Hw Hp. destruct (Expansion_content minScale b Hw) as (Hw' & <- & Hfree). apply put_content; [done|lia]. Qed.
Lemma NewByteBuf_content capacity : wf (NewByteBuf capacity) ∧ content (NewByteBuf capacity) = [].
Proof. split; [unfold wf; simpl; lia|done]. Qed.
End pool_lemmas.

(** ** The read loop of a session *)
(** A decoder gives a message, asks for more bytes ([None]) or fails. *)
Definition decoder (M : Type) : Type := ByteBuf → outcome buf_error (option M * ByteBuf).
Section session.
Context `{!Pool} {M : Type} (Decode : decoder M).
(** Messages are taken off the buffer until more bytes are needed. *)
Fixpoint drain (fuel : nat) (b : ByteBuf) : outcome buf_error (list M * ByteBuf) :=
  match fuel with
  | O => Ok ([], b)
  | S fuel' =>
      if bool_decide (Readable b = 0%nat) then Ok ([], Clear b)
      else
        let! (m, b) := Decode b in
        match m with
        | None => Ok ([], b)
        | Some m => let! (ms, b) := drain fuel' b in Ok (m :: ms, b)
        end
  end.
(** Every message that is decoded has taken a byte at least. *)
Definition on_chunk (p : bytes) (b : ByteBuf) : outcome buf_error (list M * ByteBuf) :=
  let b := ReadFrom p b in drain (S (Readable b)) b.
Fixpoint receive (chunks : list bytes) (b : ByteBuf) : outcome buf_error (list M * ByteBuf) :=
  match chunks with
  | [] => Ok ([], b)
  | p :: chunks' =>
      let! (ms, b) := on_chunk p b in
      let! (ms', b) := receive chunks' b in
      Ok (ms ++ ms', b)
  end.
End session.

(** ** Framing *)
(** On a whole frame the decoder gives the message and leaves what follows; on a
    part of one it asks for more and leaves the buffer. *)
Class Framing {M} (enc : M → bytes) (ok : M → Prop) (dec : decoder M) := {
  frame_nonempty m : ok m → enc m ≠ [];
  frame_complete m b rest : ok m → wf b → content b = enc m ++ rest →
    ∃ b', dec b = Ok (Some m, b') ∧ wf b' ∧ content b' = rest;
  frame_partial m b rest : ok m → wf b → content b ++ rest = enc m → rest ≠ [] → content b ≠ [] →
    ∃ b', dec b = Ok (None, b') ∧ wf b' ∧ content b' = content b;
}.

Section framing.
Context `{!Pool} {M} (enc : M → bytes) (ok : M → Prop) (dec : decoder M) `{HF : !Framing enc ok dec}.
Abbreviation frames ms := (concat (enc <$> ms)).

(** A part of a frame is a part of its first message. *)
Lemma split_frames (p rest : bytes) ms : p ≠ [] → Forall ok ms → p ++ rest = frames ms →
  ∃ m ms', ms = m :: ms' ∧ ok m ∧ Forall ok ms' ∧
    ((∃ r, p = enc m ++ r ∧ r ++ rest = frames ms') ∨ (∃ r, r ≠ [] ∧ p ++ r = enc m)).
Proof.
  intros Hp Hok Heq. destruct Hok as [|m ms Hm Hok]; [by destruct p|]. exists m, ms. split_and!; [done..|].
  simpl in Heq. destruct (decide (length (enc m) ≤ length p)%nat) as [Hle|Hgt].
  - left. exists (drop (length (enc m)) p). assert (p = enc m ++ drop (length (enc m)) p) as Hsp.
    { rewrite <-(take_drop (length (enc m)) p) at 1. f_equal. apply (f_equal (take (length (enc m)))) in Heq.
      by rewrite take_app_le, take_app_length in Heq by done. }
    split; [done|]. rewrite Hsp, <-(assoc_L (++)) in Heq. by apply app_inv_head in Heq.
  - right. exists (drop (length p) (enc m)). split.
    + intros Hn%(f_equal length). rewrite length_drop in Hn. simpl in Hn. lia.
    + rewrite <-(take_drop (length p) (enc m)). f_equal; [|by rewrite take_drop].
      apply (f_equal (take (length p))) in Heq. by rewrite take_app_length, take_app_le in Heq by lia.
Qed.

Lemma drain_spec fuel : ∀ b rest ms, wf b → Forall ok ms → (length (content b) < fuel)%nat → content b ++ rest = frames ms →
  ∃ ms1 ms2 b', drain dec fuel b = Ok (ms1, b') ∧ ms = ms1 ++ ms2 ∧ wf b' ∧ content b' ++ rest = frames ms2 ∧ (rest = [] → ms2 = []).
Proof.
  induction fuel as [|fuel IH]; intros b rest ms Hw Hok Hf Heq; [lia|]. simpl. case_bool_decide as Hr.
  - pose proof (length_content b Hw) as Hl. rewrite Hr in Hl. apply nil_length_inv in Hl. rewrite Hl in Heq. simpl in Heq.
    exists [], ms, (Clear b). split_and!; [done|done|unfold wf; simpl; lia|done|].
    intros ->. destruct Hok as [|m ms Hm _]; [done|]. simpl in Heq. symmetry in Heq. apply app_nil in Heq as [Hn _]. by destruct (frame_nonempty m Hm).
  - assert (content b ≠ []) as Hne by (intros Hn; apply (f_equal length) in Hn; rewrite length_content in Hn; done).
    destruct (split_frames _ _ _ Hne Hok Heq) as (m & ms' & -> & Hm & Hok' & [(r & Hc & Heq')|(r & Hrn & Hc)]).
    + destruct (frame_complete m b r Hm Hw Hc) as (b' & -> & Hw' & Hcb). simpl.
      assert (length (content b') < fuel)%nat as Hlt.
      { rewrite Hcb. rewrite Hc, length_app in Hf. pose proof (frame_nonempty m Hm). destruct (enc m); [done|simpl in Hf; lia]. }
      rewrite <-Hcb in Heq'. destruct (IH b' rest ms' Hw' Hok' Hlt Heq') as (ms1 & ms2 & b2 & -> & -> & ? & ? & ?). simpl.
      exists (m :: ms1), ms2, b2. done.
    + destruct (frame_partial m b r Hm Hw Hc Hrn Hne) as (b' & -> & Hw' & Hcb). simpl. exists [], (m :: ms'), b'.
      split_and!; [done|done|done|by rewrite Hcb|]. intros ->. rewrite app_nil_r in Heq. simpl in Heq. rewrite Heq in Hc.
      rewrite <-(assoc_L (++)), <-(app_nil_r (enc m)) in Hc at 1. rewrite (app_nil_r (enc m)) in Hc.
      apply (f_equal length) in Hc. rewrite !length_app in Hc. destruct r; [done|]. simpl in Hc. lia.
Qed.

(** However the bytes of the messages are cut into chunks, the session hands on
    exactly the messages, in order, and keeps nothing. *)
Lemma stream_roundtrip chunks : ∀ ms b, wf b → Forall ok ms → Forall (λ p, length p ≤ minScale)%nat chunks → chunks ≠ [] →
  content b ++ concat chunks = frames ms → ∃ b', receive dec chunks b = Ok (ms, b') ∧ wf b' ∧ content b' = [].
Proof.
  induction chunks as [|p chunks IH]; intros ms b Hw Hok Hsz Hne Heq; [done|]. inversion_clear Hsz as [|?? Hp Hsz']. simpl in *.
  unfold on_chunk. destruct (ReadFrom_content p b Hw Hp) as [Hw1 Hc1]. rewrite app_assoc, <-Hc1 in Heq.
  destruct (drain_spec (S (Readable (ReadFrom p b))) _ _ _ Hw1 Hok ltac:(rewrite length_content by done; lia) Heq)
    as (ms1 & ms2 & b' & -> & -> & Hw' & Heq' & Hlast). apply Forall_app in Hok as [_ Hok2]. cbn [outcome_bind].
  destruct chunks as [|q chunks].
  - simpl in *. rewrite Hlast in * by done. exists b'. split_and!; [by rewrite !app_nil_r|done|]. by rewrite app_nil_r in Heq'.
  - destruct (IH ms2 b' Hw' Hok2 Hsz' ltac:(done) Heq') as (b2 & -> & ? & ?). simpl. eauto.
Qed.
End framing.
