(* ===== verification/Resp.v ===== *)
(** * The redis protocol

    Reading commands and replies and writing replies: the vendored
    goetty/protocol/redis (parser.go, reply.go, cmd.go) and pkg/redis (parser.go,
    codec.go, command.go).  Reading is over a [ByteBuf]; a writer is given by the
    bytes it appends.  The framing theorems say that a command written by a client
    is read back, and asked for again as long as a part of it is missing. *)

From S2P Require Import Prelude Encoding Strconv Goetty.

Definition CR : byte := x0d.
Definition LF : byte := x0a.
Definition Delims : bytes := [CR; LF].
Definition CMDBegin : byte := x2a.
Definition ARGBegin : byte := x24.
Abbreviation res A := (outcome buf_error A).

(** ** Reading *)
(** [ch, _ := in.PeekByte(offset)]: an error leaves the zero byte. *)
Definition peek (offset : Z) (b : ByteBuf) : res byte :=
  match PeekByte offset b with Err _ => Ok x00 | o => o end.
Fixpoint line_loop (n : nat) (offset : Z) (b : ByteBuf) : res (nat * bytes * ByteBuf) :=
  match n with
  | O => Ok (0%nat, [], b)
  | S n' =>
      let! ch := peek offset b in
      if bool_decide (ch = LF) then
        let! ch := peek (offset - 1) b in
        if bool_decide (ch = CR) then ReadBytes (offset + 1) b else Err ErrIllegal
      else line_loop n' (offset + 1) b
  end.
Definition readLine (b : ByteBuf) : res (nat * bytes * ByteBuf) := line_loop (Readable b) 0 b.
Definition parseInteger (data : bytes) : res Z :=
  match data with
  | [] => Panic
  | [x2d; x31] => Ok (-1)
  | _ => match Atoi data with (v, None) => Ok v | _ => Err ErrIllegal end
  end.
(** [line[:n]] of a line shorter than its two delimiters panics. *)
Definition strip (count : nat) (line : bytes) : res bytes := if bool_decide (count < 2)%nat then Panic else Ok (take (count - 2) line).
Definition readStringInt (b : ByteBuf) : res (nat * Z * ByteBuf) :=
  let! (count, line, b) := readLine b in
  if bool_decide (count = 0%nat) then Ok (0%nat, 0, b)
  else
    let! data := strip count line in
    let! value := parseInteger data in
    Ok (length line, value, b).

Definition Command : Type := list bytes.
(** The arguments; [backup] is where the command began. *)
Fixpoint read_args (n : nat) (backup : nat) (acc : list bytes) (b : ByteBuf) : res (option Command * ByteBuf) :=
  match n with
  | O => Ok (Some acc, b)
  | S n' =>
      if bool_decide (Readable b = 0%nat) then Ok (None, SetReaderIndex backup b)
      else
        let! (c, b) := ReadByte b in
        if negb (bool_decide (c = ARGBegin)) then Err ErrIllegal
        else
          let! (count, argBytesCount, b) := readStringInt b in
          if bool_decide (count = 0%nat) then Ok (None, SetReaderIndex backup b)
          else if bool_decide (count < 2)%nat then Err ErrIllegal
          else if bool_decide (Z.of_nat (Readable b) < i64 (argBytesCount + 2)) then Ok (None, SetReaderIndex backup b)
          else
            let! (count, value, b) := ReadBytes (i64 (argBytesCount + 2)) b in
            if bool_decide (count = 0%nat) then Ok (None, SetReaderIndex backup b)
            else let! arg := strip count value in read_args n' backup (acc ++ [arg]) b
  end.
Definition ReadCommand (b : ByteBuf) : res (option Command * ByteBuf) :=
  let backup := readerIndex b in
  let! (c, b) := ReadByte b in
  if negb (bool_decide (c = CMDBegin)) then Err ErrIllegal
  else
    let! (count, argsCount, b) := readStringInt b in
    if bool_decide (count = 0%nat) then Ok (None, SetReaderIndex backup b)
    else if bool_decide (argsCount < 0) then Panic
    else read_args (Z.to_nat argsCount) backup [] b.

(** *** Replies *)
Inductive RespValue :=
  | StatusResp (text : bytes)
  | ErrResp (text : bytes)
  | IntegerResp (text : bytes)
  | BulkResp (data : bytes)
  | NullBulkResp
  | NullArrayResp
  | ArrayResp (vs : list RespValue).
Fixpoint read_elements (read : ByteBuf → res (option RespValue * ByteBuf)) (backup n : nat) (acc : list RespValue) (b : ByteBuf)
    : res (option RespValue * ByteBuf) :=
  match n with
  | O => Ok (Some (ArrayResp acc), b)
  | S n' =>
      let! (value, b) := read b in
      match value with
      | None => Ok (None, SetReaderIndex backup b)
      | Some v => read_elements read backup n' (acc ++ [v]) b
      end
  end.
(** Replies nest; the fuel bounds the depth. *)
Fixpoint readCommandReply (fuel : nat) (b : ByteBuf) : res (option RespValue * ByteBuf) :=
  match fuel with
  | O => Ok (None, b)
  | S fuel' =>
      let backup := readerIndex b in
      let! (cnt, line, b) := readLine b in
      if bool_decide (cnt = 0%nat) then Ok (None, SetReaderIndex backup b)
      else
        let! line := strip cnt line in
        match line with
        | [] => Panic
        | x2b :: text => Ok (Some (StatusResp text), b)
        | x2d :: text => Ok (Some (ErrResp text), b)
        | x3a :: text => Ok (Some (IntegerResp text), b)
        | x24 :: text =>
            let! size := parseInteger text in
            if bool_decide (size < 0) then Ok (Some NullBulkResp, b)
            else if bool_decide (Z.of_nat (Readable b) < i64 (size + 2)) then Ok (None, SetReaderIndex backup b)
            else
              let! (c, data, b) := ReadBytes (i64 (size + 2)) b in
              if bool_decide (c = 0%nat) then Ok (None, SetReaderIndex backup b)
              else let! data := strip c data in Ok (Some (BulkResp data), b)
        | x2a :: text =>
            let! size := parseInteger text in
            if bool_decide (size < 0) then Ok (Some NullArrayResp, b)
            else
              read_elements (readCommandReply fuel') backup (Z.to_nat size) [] b
        | _ => Err ErrIllegal
        end
  end.

(** ** Writing *)
Definition WriteError (err : option bytes) : bytes :=
  x2d :: match err with Some e => x20 :: e | None => [] end ++ Delims.
Definition WriteStatus (status : bytes) : bytes := x2b :: status ++ Delims.
Definition WriteInteger (n : Z) : bytes := x3a :: FormatInt64ToBytes n ++ Delims.
Definition NullBulk : bytes := [x2d; x31].
Definition NullArray : bytes := [x30].
Definition WriteBulk (b : bytes) : bytes :=
  x24 :: match b with [] => NullBulk | _ => Itoa (length b) ++ Delims ++ b end ++ Delims.
Definition WriteSliceArray (lst : list bytes) : bytes :=
  x2a :: match lst with
         | [] => NullArray ++ Delims
         | _ => Itoa (length lst) ++ Delims ++ concat (WriteBulk <$> lst)
         end.

(** What a client writes for a command: [writeLen], [writeBytes] of req.go. *)
Definition writeBytes (p : bytes) : bytes := x24 :: Itoa (length p) ++ Delims ++ p ++ Delims.
Definition write_command (cmd : Command) : bytes := x2a :: Itoa (length cmd) ++ Delims ++ concat (writeBytes <$> cmd).

(** ** pkg/redis/command.go *)
Definition Cmd (c : Command) : res bytes := match c with [] => Panic | x :: _ => Ok x end.
Definition CmdString (c : Command) : res bytes := let! x := Cmd c in Ok (ToLower x).
Definition Args (c : Command) : res (list bytes) := match c with [] => Panic | _ :: args => Ok args end.

(** ** Lines *)
Definition no_LF (l : bytes) : Prop := LF ∉ l.
Lemma digits_no_LF s : Forall is_digit s → no_LF s.
Proof.
  intros Hd Hin. rewrite Forall_forall in Hd. destruct (Hd _ Hin) as [H1 _]. vm_compute in H1. tauto.
Qed.
Lemma Itoa_spec n : Forall is_digit (Itoa n) ∧ Itoa n ≠ [] ∧ dec_value (Itoa n) 0 = Z.of_nat n.
Proof. unfold Itoa, FormatInt64ToBytes. rewrite bool_decide_eq_false_2 by lia. apply uint_text_spec. lia. Qed.

Lemma line_loop_skip (l : bytes) b pre : wf b → ∀ k rest, no_LF l → content b = pre ++ l ++ rest → (length l ≤ k)%nat →
  line_loop k (Z.of_nat (length pre)) b = line_loop (k - length l) (Z.of_nat (length (pre ++ l))) b.
Proof.
  intros Hw. revert pre. induction l as [|c l IH]; intros pre k rest Hl Hc Hk; simpl in *.
  - by rewrite app_nil_r, Nat.sub_0_r.
  - destruct k as [|k]; [lia|]. simpl. unfold peek.
    rewrite (PeekByte_content b (length pre) c) by (done || by rewrite Hc, lookup_app_r, Nat.sub_diag). simpl.
    rewrite bool_decide_eq_false_2 by (intros ->; apply Hl; left).
    replace (Z.of_nat (length pre) + 1) with (Z.of_nat (length (pre ++ [c]))) by (rewrite length_app; simpl; lia).
    rewrite (IH (pre ++ [c]) k rest); [by rewrite <-(assoc_L (++))| |by rewrite <-!(assoc_L (++))|lia].
    intros Hin. apply Hl. by right.
Qed.

(** A line is read up to its end, *)
Lemma readLine_line b l rest : wf b → no_LF l → content b = l ++ Delims ++ rest →
  ∃ b', readLine b = Ok (length l + 2, l ++ Delims, b')%nat ∧ wf b' ∧ content b' = rest ∧ b' = set_reader (readerIndex b + (length l + 2)) b.
Proof.
  intros Hw Hl Hc. pose proof (length_content b Hw) as Hlen. rewrite Hc, !length_app in Hlen. simpl in Hlen. unfold readLine. change 0 with (Z.of_nat (length (@nil byte))) at 1.
  rewrite (line_loop_skip (l ++ [CR]) b [] Hw (Readable b) (LF :: rest)); [| |by rewrite Hc, <-!(assoc_L (++))|rewrite length_app; simpl; lia].
  2:{ intros [?|Hin%list_elem_of_singleton]%elem_of_app; [by apply Hl|done]. }
  rewrite app_nil_l, length_app. cbn [length]. replace (Readable b - (length l + 1))%nat with (S (Readable b - (length l + 2)))%nat by lia. simpl. unfold peek at 1.
  rewrite (PeekByte_content b (length l + 1) LF) by (done || (rewrite Hc, app_assoc, lookup_app_l by (rewrite length_app; simpl; lia); rewrite lookup_app_r by lia; by replace (length l + 1 - length l)%nat with 1%nat by lia)).
  simpl. unfold peek. replace (Z.of_nat (length l + 1) - 1) with (Z.of_nat (length l)) by lia.
  rewrite (PeekByte_content b (length l) CR) by (done || by rewrite Hc, lookup_app_r, Nat.sub_diag). simpl.
  destruct (ReadBytes_app b (l ++ Delims) rest Hw) as (b' & Hr & Hw' & Hc' & Heq); [by rewrite Hc, <-(assoc_L (++))|by destruct l|].
  rewrite length_app in Hr, Heq. cbn [Delims length] in Hr, Heq. replace (Z.of_nat (length l + 1) + 1) with (Z.of_nat (length l + 2)) by lia. eauto 10.
Qed.
(** and a line that has not ended is left. *)
Lemma readLine_partial b l : wf b → no_LF l → content b = l → readLine b = Ok (0%nat, [], b).
Proof.
  intros Hw Hl Hc. unfold readLine. change 0 with (Z.of_nat (length (@nil byte))) at 1. pose proof (length_content b Hw) as Hlen. rewrite Hc in Hlen.
  rewrite (line_loop_skip l b [] Hw (Readable b) []); [|done|by rewrite app_nil_r|lia]. by rewrite Hlen, Nat.sub_diag.
Qed.

(** A proper part of a line holds no line end. *)
Lemma part_no_LF (p r l : bytes) : no_LF l → p ++ r = l ++ Delims → r ≠ [] → no_LF p.
Proof.
  intros Hl Heq Hr. assert (∃ r', r = r' ++ [LF]) as (r' & ->).
  { destruct r as [|x r] using rev_ind; [done|]. exists r. rewrite app_assoc in Heq. change Delims with ([CR] ++ [LF]) in Heq.
    rewrite app_assoc in Heq. apply app_inj_tail in Heq as [_ ->]. done. }
  change Delims with ([CR] ++ [LF]) in Heq. rewrite !app_assoc in Heq. apply app_inj_tail in Heq as [Heq _].
  intros Hin. assert (LF ∈ l ++ [CR]) as Hin' by (rewrite <-Heq; apply elem_of_app; by left).
  apply elem_of_app in Hin' as [?|Hin'%list_elem_of_singleton]; [by apply Hl|done].
Qed.

Lemma parseInteger_digits s : Forall is_digit s → s ≠ [] → dec_value s 0 < two63 → parseInteger s = Ok (dec_value s 0).
Proof.
  intros Hs Hne Hv. unfold parseInteger, Atoi. rewrite (ParseInt_digits s Hs Hne Hv).
  destruct s as [|c s]; [done|]. inversion_clear Hs as [|?? Hc Hs'].
  destruct c; try done; exfalso; destruct Hc as [H1 H2]; vm_compute in H1, H2; tauto.
Qed.

(** Reading moves the reader only. *)
Definition moved (b b' : ByteBuf) : Prop := buf b' = buf b ∧ writerIndex b' = writerIndex b.
Lemma moved_set_reader b i : moved b (set_reader i b).
Proof. done. Qed.
Lemma moved_trans b b' b'' : moved b b' → moved b' b'' → moved b b''.
Proof. unfold moved. intuition congruence. Qed.
#[local] Hint Resolve moved_set_reader : go.

Lemma readStringInt_complete b n rest : wf b → Z.of_nat n < two63 → content b = Itoa n ++ Delims ++ rest →
  ∃ b', readStringInt b = Ok (length (Itoa n) + 2, Z.of_nat n, b')%nat ∧ wf b' ∧ content b' = rest ∧ moved b b'.
Proof.
  intros Hw Hn Hc. destruct (Itoa_spec n) as (Hd & Hne & Hv).
  destruct (readLine_line b (Itoa n) rest Hw (digits_no_LF _ Hd) Hc) as (b' & Hr & Hw' & Hc' & ->). unfold readStringInt.
  rewrite Hr. simpl. rewrite bool_decide_eq_false_2 by lia. unfold strip. rewrite bool_decide_eq_false_2 by lia. simpl.
  rewrite Nat.add_sub, take_app_length, parseInteger_digits by (done || by rewrite Hv). simpl. rewrite Hv, length_app. eauto with go.
Qed.
Lemma readStringInt_partial b n r : wf b → content b ++ r = Itoa n ++ Delims → r ≠ [] → readStringInt b = Ok (0%nat, 0, b).
Proof.
  intros Hw Hc Hr. destruct (Itoa_spec n) as (Hd & _). unfold readStringInt.
  rewrite (readLine_partial b (content b) Hw); [done| |done]. eapply part_no_LF; [by apply digits_no_LF|done|done].
Qed.

(** ** Commands are framed *)
Definition ok_arg (a : bytes) : Prop := Z.of_nat (length a) + 2 < two63.
Definition ok_command (c : Command) : Prop := Z.of_nat (length c) < two63 ∧ Forall ok_arg c.

(** Where a proper part of [x ++ y] ends: in [x], or past it. *)
Lemma part_app (p r x y : bytes) : p ++ r = x ++ y → r ≠ [] →
  (∃ r', r' ≠ [] ∧ p ++ r' = x) ∨ (∃ q, p = x ++ q ∧ q ++ r = y).
Proof.
  intros Heq Hr. destruct (decide (length p < length x)%nat) as [Hlt|Hge].
  - left. exists (drop (length p) x). split; [intros Hn%(f_equal length); rewrite length_drop in Hn; simpl in Hn; lia|].
    rewrite <-(take_drop (length p) x) at 2. f_equal. apply (f_equal (take (length p))) in Heq. by rewrite take_app_length, take_app_le in Heq by lia.
  - right. exists (drop (length x) p). assert (p = x ++ drop (length x) p) as Hp.
    { rewrite <-(take_drop (length x) p) at 1. f_equal. apply (f_equal (take (length x))) in Heq. by rewrite take_app_le, take_app_length in Heq by lia. }
    split; [done|]. rewrite Hp, <-(assoc_L (++)) in Heq. by apply app_inv_head in Heq.
Qed.

Lemma read_args_complete args : ∀ backup acc b rest, wf b → Forall ok_arg args → content b = concat (writeBytes <$> args) ++ rest →
  ∃ b', read_args (length args) backup acc b = Ok (Some (acc ++ args), b') ∧ wf b' ∧ content b' = rest.
Proof.
  induction args as [|a args IH]; intros backup acc b rest Hw Hok Hc; simpl in *; [rewrite app_nil_r; eauto|].
  inversion_clear Hok as [|?? Ha Hok']. unfold ok_arg in Ha. rewrite <-!(assoc_L (++)) in Hc. simpl in Hc.
  pose proof (length_content b Hw) as Hl. rewrite Hc in Hl. simpl in Hl. rewrite bool_decide_eq_false_2 by lia.
  destruct (ReadByte_cons b _ _ Hw Hc) as (b1 & -> & Hw1 & Hc1 & _). cbn [outcome_bind]. rewrite bool_decide_eq_true_2 by done. cbn [negb].
  rewrite <-!(assoc_L (++)) in Hc1. destruct (readStringInt_complete b1 (length a) _ Hw1 ltac:(lia) Hc1) as (b2 & -> & Hw2 & Hc2 & _). cbn [outcome_bind].
  rewrite bool_decide_eq_false_2, bool_decide_eq_false_2 by lia. rewrite i64_small by (unfold is_i64, two63 in *; lia).
  pose proof (length_content b2 Hw2) as Hl2. rewrite Hc2, app_assoc, length_app, length_app in Hl2. simpl in Hl2.
  rewrite bool_decide_eq_false_2 by lia. rewrite app_assoc in Hc2.
  destruct (ReadBytes_app b2 (a ++ Delims) _ Hw2 Hc2 ltac:(by destruct a)) as (b3 & Hr & Hw3 & Hc3 & _).
  rewrite length_app in Hr. cbn [Delims length] in Hr. replace (Z.of_nat (length a) + 2) with (Z.of_nat (length a + 2)) by lia. rewrite Hr. cbn [outcome_bind].
  rewrite bool_decide_eq_false_2 by lia. unfold strip. rewrite bool_decide_eq_false_2 by lia. cbn [outcome_bind].
  rewrite Nat.add_sub, take_app_length. destruct (IH backup (acc ++ [a]) b3 rest Hw3 Hok' Hc3) as (b4 & -> & ? & ?).
  rewrite <-(assoc_L (++)). eauto.
Qed.
Lemma read_args_partial args : ∀ backup acc b r, wf b → Forall ok_arg args → content b ++ r = concat (writeBytes <$> args) → r ≠ [] →
  ∃ b', read_args (length args) backup acc b = Ok (None, SetReaderIndex backup b') ∧ moved b b'.
Proof.
  induction args as [|a args IH]; intros backup acc b r Hw Hok Hc Hr; simpl in *; [by destruct (content b), r|].
  inversion_clear Hok as [|?? Ha Hok']. unfold ok_arg in Ha. pose proof (length_content b Hw) as Hl. case_bool_decide as H0; [by exists b|].
  destruct (content b) as [|c p] eqn:Hcb; [simpl in Hl; lia|]. simpl in Hc. injection Hc as Hc1 Hp. subst c.
  destruct (ReadByte_cons b _ _ Hw Hcb) as (b1 & -> & Hw1 & Hc1 & ->). set (b1 := set_reader _ b) in *. cbn [outcome_bind].
  rewrite bool_decide_eq_true_2 by done. cbn [negb]. rewrite <-Hc1 in Hp.
  assert (content b1 ++ r = (Itoa (length a) ++ Delims) ++ (a ++ Delims) ++ concat (writeBytes <$> args)) as Hp0
    by (rewrite Hp; unfold Delims; simpl; rewrite <-!app_assoc; simpl; by rewrite <-!app_assoc). clear Hp. rename Hp0 into Hp.
  destruct (part_app _ _ _ _ Hp Hr) as [(r' & Hr' & Hp')|(q & Hq & Hp')].
  { rewrite (readStringInt_partial b1 (length a) r' Hw1 Hp' Hr'). cbn [outcome_bind]. rewrite bool_decide_eq_true_2 by done. by exists b1. }
  rewrite <-(assoc_L (++)) in Hq. destruct (readStringInt_complete b1 (length a) q Hw1 ltac:(lia) Hq) as (b2 & -> & Hw2 & Hc2 & Hm2). cbn [outcome_bind].
  rewrite bool_decide_eq_false_2, bool_decide_eq_false_2 by lia. rewrite i64_small by (unfold is_i64, two63 in *; lia).
  pose proof (length_content b2 Hw2) as Hl2. rewrite Hc2 in Hl2.
  assert (moved b b2) by (eapply moved_trans; [|done]; done).
  destruct (part_app _ _ _ _ Hp' Hr) as [(r' & Hr' & Hp2)|(q2 & Hq2 & Hp2)].
  { rewrite bool_decide_eq_true_2; [by exists b2|]. apply (f_equal length) in Hp2. rewrite !length_app in Hp2. simpl in Hp2. destruct r'; [done|]. simpl in Hp2. lia. }
  rewrite Hq2 in Hc2, Hl2. rewrite !length_app in Hl2. simpl in Hl2. rewrite bool_decide_eq_false_2 by lia.
  destruct (ReadBytes_app b2 (a ++ Delims) q2 Hw2 Hc2 ltac:(by destruct a)) as (b3 & Hrd & Hw3 & Hc3 & ->). set (b3 := set_reader _ b2) in *.
  rewrite length_app in Hrd. cbn [Delims length] in Hrd. replace (Z.of_nat (length a) + 2) with (Z.of_nat (length a + 2)) by lia. rewrite Hrd. cbn [outcome_bind].
  rewrite bool_decide_eq_false_2 by lia. unfold strip. rewrite bool_decide_eq_false_2 by lia. cbn [outcome_bind].
  rewrite <-Hc3 in Hp2. destruct (IH backup (acc ++ [take (length a + 2 - 2) (a ++ Delims)]) b3 r Hw3 Hok' Hp2 Hr) as (b4 & -> & Hm4).
  exists b4. split; [done|]. by eapply moved_trans; [|done].
Qed.

#[export] Instance command_framing : Framing write_command ok_command ReadCommand.
Proof.
  split.
  - done.
  - intros c b rest [Hn Hok] Hw Hc. unfold write_command in Hc. simpl in Hc. rewrite <-!(assoc_L (++)) in Hc. unfold ReadCommand.
    destruct (ReadByte_cons b _ _ Hw Hc) as (b1 & -> & Hw1 & Hc1 & _). cbn [outcome_bind]. rewrite bool_decide_eq_true_2 by done. cbn [negb].
    destruct (readStringInt_complete b1 (length c) _ Hw1 Hn Hc1) as (b2 & -> & Hw2 & Hc2 & _). cbn [outcome_bind].
    rewrite bool_decide_eq_false_2, bool_decide_eq_false_2, Nat2Z.id by lia.
    by apply (read_args_complete c _ []).
  - intros c b r [Hn Hok] Hw Hc Hr Hne. unfold write_command in Hc. unfold ReadCommand.
    destruct (content b) as [|x p] eqn:Hcb; [done|]. simpl in Hc. injection Hc as Hx Hp. subst x.
    destruct (ReadByte_cons b _ _ Hw Hcb) as (b1 & -> & Hw1 & Hc1 & ->). set (b1 := set_reader _ b) in *. cbn [outcome_bind].
    rewrite bool_decide_eq_true_2 by done. cbn [negb]. rewrite <-Hc1 in Hp. rewrite <-Hcb.
    change (CR :: LF :: concat (writeBytes <$> c)) with (Delims ++ concat (writeBytes <$> c)) in Hp. rewrite (app_assoc (Itoa _)) in Hp.
    destruct (part_app _ _ _ _ Hp Hr) as [(r' & Hr' & Hp')|(q & Hq & Hp')].
    { rewrite (readStringInt_partial b1 (length c) r' Hw1 Hp' Hr'). cbn [outcome_bind]. rewrite bool_decide_eq_true_2 by done.
      eexists. split; [done|]. by apply SetReaderIndex_back. }
    rewrite <-(assoc_L (++)) in Hq. destruct (readStringInt_complete b1 (length c) q Hw1 Hn Hq) as (b2 & -> & Hw2 & Hc2 & Hm2). cbn [outcome_bind].
    rewrite bool_decide_eq_false_2, bool_decide_eq_false_2, Nat2Z.id by lia. rewrite <-Hc2 in Hp'.
    destruct (read_args_partial c (readerIndex b) [] b2 r Hw2 Hok Hp' Hr) as (b3 & -> & Hm3). eexists. split; [done|].
    apply SetReaderIndex_back; [done|..]; by destruct (moved_trans _ _ _ Hm2 Hm3).
Qed.

(** ** Replies are framed *)
(** A client reads [w] as the one reply [v] and leaves what follows; [d] is the
    depth of the reply. *)
Definition reads (d : nat) (w : bytes) (v : RespValue) : Prop :=
  ∀ fuel b rest, (d ≤ fuel)%nat → wf b → content b = w ++ rest →
    ∃ b', readCommandReply fuel b = Ok (Some v, b') ∧ wf b' ∧ content b' = rest.

(** The line a reply begins with. *)
Lemma reply_line d c t b rest : no_LF (c :: t) → wf b → content b = c :: t ++ Delims ++ rest →
  ∃ b', wf b' ∧ content b' = rest ∧ readCommandReply (S d) b =
    match c with
    | x2b => Ok (Some (StatusResp t), b')
    | x2d => Ok (Some (ErrResp t), b')
    | x3a => Ok (Some (IntegerResp t), b')
    | x24 =>
        let! size := parseInteger t in
        if bool_decide (size < 0) then Ok (Some NullBulkResp, b')
        else if bool_decide (Z.of_nat (Readable b') < i64 (size + 2)) then Ok (None, SetReaderIndex (readerIndex b) b')
        else
          let! (n, data, b2) := ReadBytes (i64 (size + 2)) b' in
          if bool_decide (n = 0%nat) then Ok (None, SetReaderIndex (readerIndex b) b2)
          else let! data := strip n data in Ok (Some (BulkResp data), b2)
    | x2a =>
        let! size := parseInteger t in
        if bool_decide (size < 0) then Ok (Some NullArrayResp, b')
        else
          read_elements (readCommandReply d) (readerIndex b) (Z.to_nat size) [] b'
    | _ => Err ErrIllegal
    end.
Proof.
  intros Hl Hw Hc. destruct (readLine_line b (c :: t) rest Hw Hl Hc) as (b' & Hr & Hw' & Hc' & _). exists b'. split_and!; [done..|].
  cbn [readCommandReply]. rewrite Hr. cbn [outcome_bind]. rewrite bool_decide_eq_false_2 by (simpl; lia). unfold strip at 1.
  rewrite bool_decide_eq_false_2 by (simpl; lia). rewrite Nat.add_sub, take_app_length. cbn [outcome_bind]. done.
Qed.

Lemma no_LF_cons c t : c ≠ LF → no_LF t → no_LF (c :: t).
Proof. intros Hc Ht [Heq|Hin]%elem_of_cons; [by rewrite Heq in Hc|by apply Ht]. Qed.

Ltac read_line c t :=
  intros [|fuel] b rest Hd Hw Hc; [lia|]; cbn [app] in Hc; rewrite <-?(assoc_L (++)) in Hc;
  edestruct (reply_line fuel c t b) as (b' & Hw' & Hc' & ->); [apply no_LF_cons; [done|]|done|exact Hc|].

Lemma reads_status t : no_LF t → reads 1 (WriteStatus t) (StatusResp t).
Proof. intros Ht. unfold WriteStatus. read_line x2b t; [done|]. eauto. Qed.
Lemma reads_error e : no_LF e → reads 1 (WriteError (Some e)) (ErrResp (x20 :: e)).
Proof. intros Ht. unfold WriteError. read_line x2d (x20 :: e); [by apply no_LF_cons|]. eauto. Qed.
Lemma Format_no_LF n : no_LF (FormatInt64ToBytes n).
Proof.
  unfold FormatInt64ToBytes. case_bool_decide; [apply no_LF_cons; [done|]|]; apply digits_no_LF, uint_text_spec; lia.
Qed.
Lemma reads_integer n : reads 1 (WriteInteger n) (IntegerResp (FormatInt64ToBytes n)).
Proof. unfold WriteInteger. read_line x3a (FormatInt64ToBytes n); [apply Format_no_LF|]. eauto. Qed.

Definition bulk_value (p : bytes) : RespValue := match p with [] => NullBulkResp | _ => BulkResp p end.
Lemma Itoa_no_LF n : no_LF (Itoa n).
Proof. apply digits_no_LF, Itoa_spec. Qed.
Lemma parse_Itoa n : Z.of_nat n < two63 → parseInteger (Itoa n) = Ok (Z.of_nat n).
Proof. intros Hn. destruct (Itoa_spec n) as (Hd & Hne & Hv). rewrite parseInteger_digits by (done || by rewrite Hv). by rewrite Hv. Qed.
Lemma reads_bulk p : ok_arg p → reads 1 (WriteBulk p) (bulk_value p).
Proof.
  intros Hp. unfold WriteBulk, ok_arg in *. destruct p as [|x p].
  - read_line x24 NullBulk; [|simpl; eauto]. intros Hin. vm_compute in Hin. repeat (apply elem_of_cons in Hin as [?|Hin]; [done|]). by apply not_elem_of_nil in Hin.
  - set (q := x :: p) in *. unfold bulk_value. subst q. intros [|fuel] b rest Hd Hw Hc; [lia|]. rewrite <-?(assoc_L (++)) in Hc. cbn [app] in Hc.
    rewrite <-!(assoc_L (++)) in Hc.
    destruct (reply_line fuel x24 (Itoa (length (x :: p))) b ((x :: p) ++ Delims ++ rest)) as (b' & Hw' & Hc' & ->); [by apply no_LF_cons, Itoa_no_LF|done|..].
    { rewrite Hc. cbn [app]. by rewrite <-(assoc_L (++)). }
    rewrite parse_Itoa by lia. cbn [outcome_bind]. rewrite bool_decide_eq_false_2 by lia. rewrite i64_small by (unfold is_i64, two63 in *; lia).
    pose proof (length_content b' Hw') as Hl. rewrite Hc', !length_app in Hl. cbn [Delims length] in Hl. rewrite bool_decide_eq_false_2 by (cbn [length]; lia).
    rewrite app_assoc in Hc'. destruct (ReadBytes_app b' ((x :: p) ++ Delims) rest Hw' Hc' ltac:(done)) as (b2 & Hr & Hw2 & Hc2 & _).
    rewrite length_app in Hr. change (length Delims) with 2%nat in Hr.
    replace (Z.of_nat (length (x :: p)) + 2) with (Z.of_nat (length (x :: p) + 2)) by lia. rewrite Hr. cbn [outcome_bind].
    rewrite bool_decide_eq_false_2 by lia. unfold strip. rewrite bool_decide_eq_false_2 by lia. rewrite Nat.add_sub, take_app_length. simpl. eauto.
Qed.

(** An array of replies. *)
Lemma read_elements_ok d fuel backup ws : ∀ vs acc b rest, (d ≤ fuel)%nat → Forall2 (reads d) ws vs → wf b → content b = concat ws ++ rest →
  ∃ b', read_elements (readCommandReply fuel) backup (length ws) acc b = Ok (Some (ArrayResp (acc ++ vs)), b') ∧ wf b' ∧ content b' = rest.
Proof.
  induction ws as [|w ws IH]; intros vs acc b rest Hd Hws Hw Hc; inversion_clear Hws as [|? v ? vs' Hv Hvs]; cbn [length read_elements concat] in *.
  - rewrite app_nil_r. eauto.
  - rewrite <-(assoc_L (++)) in Hc. destruct (Hv fuel b _ Hd Hw Hc) as (b2 & -> & Hw2 & Hc2). cbn [outcome_bind].
    destruct (IH vs' (acc ++ [v]) b2 rest Hd Hvs Hw2 Hc2) as (b3 & -> & ?). rewrite <-(assoc_L (++)). eauto.
Qed.
Lemma reads_array d ws vs : Z.of_nat (length ws) < two63 → Forall2 (reads d) ws vs →
  reads (S d) (x2a :: Itoa (length ws) ++ Delims ++ concat ws) (ArrayResp vs).
Proof.
  intros Hn Hws [|fuel] b rest Hd Hw Hc; [lia|]. cbn [app] in Hc. rewrite <-!(assoc_L (++)) in Hc.
  destruct (reply_line fuel x2a (Itoa (length ws)) b (concat ws ++ rest) ltac:(by apply no_LF_cons, Itoa_no_LF) Hw Hc) as (b' & Hw' & Hc' & ->).
  rewrite parse_Itoa by done. cbn [outcome_bind]. rewrite bool_decide_eq_false_2, Nat2Z.id by lia.
  apply (read_elements_ok d fuel _ ws vs [] b' rest); [lia|done..].
Qed.
Lemma reads_empty_array : reads 1 (x2a :: NullArray ++ Delims) (ArrayResp []).
Proof. apply (reads_array 0 [] []); [done|constructor]. Qed.

Lemma Forall2_reads {A} d (f : A → bytes) (g : A → RespValue) l : Forall (λ a, reads d (f a) (g a)) l → Forall2 (reads d) (f <$> l) (g <$> l).
Proof. intros H. apply Forall2_fmap, Forall_Forall2_diag. done. Qed.
Lemma reads_slice_array lst : Z.of_nat (length lst) < two63 → Forall ok_arg lst → reads 2 (WriteSliceArray lst) (ArrayResp (bulk_value <$> lst)).
Proof.
  intros Hn Hl. unfold WriteSliceArray. destruct lst as [|p lst].
  - intros fuel b rest Hd. apply reads_empty_array. lia.
  - rewrite <-(length_fmap WriteBulk). apply reads_array; [by rewrite length_fmap|]. apply Forall2_reads. eapply Forall_impl; [exact Hl|]. apply reads_bulk.
Qed.
