(* ===== verification/Codec.v ===== *)
(** * The codecs of the servers

    pkg/redis/parser.go and codec.go (what a redis server reads: commands and the
    frames of the proxy), pkg/codec/proxy.go (what the proxy reads),
    pkg/raftstore/codec.go on top of goetty's length field decoder (what stores
    send each other).  The generated marshalling of the messages is the class
    [Proto].  Every codec is an instance of [Framing]. *)

From S2P Require Import Prelude Encoding Strconv Goetty Resp.

(** Generated by protoc from pkg/pb: marshalled messages can be read back.
    [proto_ok] are the messages without empty slices that are not nil, which do
    not survive. *)
Class Proto (M : Type) := {
  Marshal : M → bytes;
  Unmarshal : bytes → option M;
  proto_ok : M → Prop;
  Unmarshal_Marshal m : proto_ok m → Unmarshal (Marshal m) = Some m;
}.
Definition MustUnmarshal {M} `{!Proto M} (data : bytes) : res M := match Unmarshal data with Some m => Ok m | None => Panic end.
(** [size, _ := in.PeekInt(0)] *)
Definition peek_int (b : ByteBuf) : res nat :=
  match PeekInt 0 b with Ok v => Ok (Z.to_nat v) | Err _ => Ok 0%nat | Panic => Panic end.

(** ** pkg/redis/parser.go *)
(** What the decoder hands to the server: the command of the vendored package is
    another Go type than the command of pkg/redis. *)
Inductive server_value (Request : Type) :=
  | VGoettyCommand (c : Command)
  | VRedisCommand (c : Command)
  | VRequest (r : Request).
Arguments VGoettyCommand {Request} _.
Arguments VRedisCommand {Request} _.
Arguments VRequest {Request} _.
Definition ProxyBegin : byte := x01.

Section frames.
Context {M : Type} `{!Proto M}.
Definition readCommandByProxyProtocol (b : ByteBuf) : res (option M * ByteBuf) :=
  let backup := readerIndex b in
  let b := Skip 1 b in
  if bool_decide (Readable b < 4)%nat then Ok (None, SetReaderIndex backup b)
  else
    let! size := peek_int b in
    if bool_decide (Readable b < 4 + size)%nat then Ok (None, SetReaderIndex backup b)
    else
      let b := Skip 4 b in
      let! (n, data) := ReadRawBytes size b in
      if negb (bool_decide (n = size)) then Panic
      else
        let! req := MustUnmarshal data in
        Ok (Some req, Skip size b).

(** ** pkg/codec/proxy.go *)
Definition WriteProxyMessage (tag : byte) (m : M) : bytes :=
  let value := Marshal m in tag :: Int2Bytes (Z.of_nat (length value)) ++ value.
(** [readRedis] and [readPB]. *)
Definition readPB (size : nat) (b : ByteBuf) : res (M * ByteBuf) :=
  let! (n, data, b) := ReadBytes (Z.of_nat size) b in
  if negb (bool_decide (n = size)) then Err ErrIllegal
  else let! m := MustUnmarshal data in Ok (m, b).
End frames.
Definition hasEnoughData (backup : nat) (b : ByteBuf) : res (option nat * ByteBuf) :=
  if bool_decide (Readable b < 4)%nat then Ok (None, SetReaderIndex backup b)
  else
    let! size := peek_int b in
    if bool_decide (Readable b < 4 + size)%nat then Ok (None, SetReaderIndex backup b)
    else Ok (Some size, Skip 4 b).

Definition readCommand {Rq} `{!Proto Rq} (b : ByteBuf) : res (option (server_value Rq) * ByteBuf) :=
  let! c := PeekByte 0 b in
  if bool_decide (c = CMDBegin) then let! (m, b) := ReadCommand b in Ok (VGoettyCommand <$> m, b)
  else if bool_decide (c = ProxyBegin) then let! (m, b) := readCommandByProxyProtocol b in Ok (VRequest <$> m, b)
  else Err ErrIllegal.

(** *** The proxy *)
Definition RedisBegin : byte := x01.
Definition WatcherNotifyBegin : byte := x02.
Definition WatcherNotifySyncBegin : byte := x03.
Definition WatcherNotifyRspBegin : byte := x04.
Inductive proxy_value (Rsp WN WS WR : Type) := PResponse (m : Rsp) | PNotify (m : WN) | PSync (m : WS) | PNotifyRsp (m : WR).
Arguments PResponse {Rsp WN WS WR} _.
Arguments PNotify {Rsp WN WS WR} _.
Arguments PSync {Rsp WN WS WR} _.
Arguments PNotifyRsp {Rsp WN WS WR} _.
(** One branch of [Decode]. *)
Definition decode_as {M V} `{!Proto M} (wrap : M → V) (backup : nat) (b : ByteBuf) : res (option V * ByteBuf) :=
  let! (size, b) := hasEnoughData backup b in
  match size with
  | None => Ok (None, b)
  | Some size => let! (m, b) := readPB size b in Ok (Some (wrap m), b)
  end.
Definition ProxyDecode {Rsp WN WS WR} `{!Proto Rsp, !Proto WN, !Proto WS, !Proto WR} (b : ByteBuf) : res (option (proxy_value Rsp WN WS WR) * ByteBuf) :=
  let backup := readerIndex b in
  let! (c, b) := ReadByte b in
  if bool_decide (c = RedisBegin) then decode_as PResponse backup b
  else if bool_decide (c = WatcherNotifyBegin) then decode_as PNotify backup b
  else if bool_decide (c = WatcherNotifySyncBegin) then decode_as PSync backup b
  else if bool_decide (c = WatcherNotifyRspBegin) then decode_as PNotifyRsp backup b
  else Err ErrIllegal.
(** What stores and PD send to a proxy: the response of a session, and the
    branches of [Encode]. *)
Definition proxy_frame {Rsp WN WS WR} `{!Proto Rsp, !Proto WN, !Proto WS, !Proto WR} (v : proxy_value Rsp WN WS WR) : bytes :=
  match v with
  | PResponse m => WriteProxyMessage RedisBegin m
  | PNotify m => WriteProxyMessage WatcherNotifyBegin m
  | PSync m => WriteProxyMessage WatcherNotifySyncBegin m
  | PNotifyRsp m => WriteProxyMessage WatcherNotifyRspBegin m
  end.

(** ** pkg/raftstore/codec.go *)
Inductive raft_value (Rm Sm Am Qr Qs : Type) := RRaft (m : Rm) | RSnap (m : Sm) | RAck (m : Am) | RQueryReq (m : Qr) | RQueryRsp (m : Qs).
Arguments RRaft {Rm Sm Am Qr Qs} _.
Arguments RSnap {Rm Sm Am Qr Qs} _.
Arguments RAck {Rm Sm Am Qr Qs} _.
Arguments RQueryReq {Rm Sm Am Qr Qs} _.
Arguments RQueryRsp {Rm Sm Am Qr Qs} _.
Definition typeRaft : byte := x01.
Definition typeSnap : byte := x02.
Definition typeAck : byte := x03.
Definition typeQueryReq : byte := x04.
Definition typeQueryRsp : byte := x05.
Definition marked_as {M V} `{!Proto M} (wrap : M → V) (data : bytes) (b : ByteBuf) : res (option V * ByteBuf) :=
  let! m := MustUnmarshal data in Ok (Some (wrap m), MarkedBytesReaded b).
Section raft_codec.
Context {Rm Sm Am Qr Qs : Type} `{!Proto Rm, !Proto Sm, !Proto Am, !Proto Qr, !Proto Qs}.
Abbreviation V := (raft_value Rm Sm Am Qr Qs).
Definition raftDecode (b : ByteBuf) : res (option V * ByteBuf) :=
  let! (t, b) := ReadByte b in
  let! data := GetMarkedRemindData b in
  if bool_decide (t = typeSnap) then marked_as RSnap data b
  else if bool_decide (t = typeRaft) then marked_as RRaft data b
  else if bool_decide (t = typeAck) then marked_as RAck data b
  else if bool_decide (t = typeQueryReq) then marked_as RQueryReq data b
  else if bool_decide (t = typeQueryRsp) then marked_as RQueryRsp data b
  else Panic.
Definition raft_body (v : V) : byte * bytes :=
  match v with
  | RRaft m => (typeRaft, Marshal m)
  | RSnap m => (typeSnap, Marshal m)
  | RAck m => (typeAck, Marshal m)
  | RQueryReq m => (typeQueryReq, Marshal m)
  | RQueryRsp m => (typeQueryRsp, Marshal m)
  end.
Definition raftEncode (v : V) : bytes :=
  let '(t, body) := raft_body v in Int2Bytes (Z.of_nat (length body + 1)) ++ [t] ++ body.
End raft_codec.
(** goetty's decoder for frames with a length in front. *)
Definition DefaultMaxBodySize : Z := 10485760.
Definition length_field_decode {V} (base : ByteBuf → res (option V * ByteBuf)) (b : ByteBuf) : res (option V * ByteBuf) :=
  if bool_decide (Readable b < 4)%nat then Ok (None, b)
  else
    let! length := PeekInt 0 b in
    let length := Z.to_nat length in
    if bool_decide (DefaultMaxBodySize < Z.of_nat length) then Err ErrIllegal
    else if bool_decide (Readable b < 4 + length)%nat then Ok (None, b)
    else base (MarkN length (Skip 4 b)).

(** ** Framing *)
Definition fits {M} `{!Proto M} (m : M) : Prop := proto_ok m ∧ Z.of_nat (length (Marshal m)) < two32.
Lemma length_Int2Bytes n : length (Int2Bytes n) = 4%nat.
Proof. apply length_be_encode. Qed.
Lemma decode_Int2Bytes n : 0 ≤ n < two32 → be_decode (Int2Bytes n) = n.
Proof. intros. unfold Int2Bytes. rewrite be_decode_encode. by apply Z.mod_small. Qed.
Lemma peek_int_frame b n rest : wf b → Z.of_nat n < two32 → content b = Int2Bytes (Z.of_nat n) ++ rest → peek_int b = Ok n.
Proof.
  intros Hw Hn Hc. unfold peek_int. rewrite (PeekInt_content b (Int2Bytes (Z.of_nat n)) rest Hw Hc) by apply length_Int2Bytes.
  by rewrite decode_Int2Bytes, Nat2Z.id by lia.
Qed.

(** A length field and its body: all there, or some of it missing. *)
Lemma enough_complete b backup (body rest : bytes) : wf b → Z.of_nat (length body) < two32 →
  content b = Int2Bytes (Z.of_nat (length body)) ++ body ++ rest →
  (4 + length body ≤ Readable b)%nat ∧ peek_int b = Ok (length body) ∧
  hasEnoughData backup b = Ok (Some (length body), Skip 4 b) ∧ wf (Skip 4 b) ∧ content (Skip 4 b) = body ++ rest.
Proof.
  intros Hw Hn Hc. pose proof (peek_int_frame b _ _ Hw Hn Hc) as Hp. pose proof (length_content b Hw) as Hl.
  rewrite Hc, !length_app, length_Int2Bytes in Hl. destruct (Skip_content b 4 Hw ltac:(lia)) as (Hw' & Hc' & _).
  rewrite Hc, drop_app_length' in Hc' by (by rewrite length_Int2Bytes). split_and!; [lia|done| |done|done].
  unfold hasEnoughData. rewrite bool_decide_eq_false_2 by lia. rewrite Hp. simpl. by rewrite bool_decide_eq_false_2 by lia.
Qed.
Lemma enough_partial b (body r : bytes) : wf b → Z.of_nat (length body) < two32 → r ≠ [] →
  content b ++ r = Int2Bytes (Z.of_nat (length body)) ++ body →
  (Readable b < 4)%nat ∨ (4 ≤ Readable b < 4 + length body)%nat ∧ PeekInt 0 b = Ok (Z.of_nat (length body)).
Proof.
  intros Hw Hn Hr Hc. pose proof (length_content b Hw) as Hl. destruct (decide (Readable b < 4)%nat) as [|Hge]; [by left|right].
  assert (length r ≠ 0%nat) by (by destruct r). pose proof (f_equal length Hc) as Hlen. rewrite !length_app, length_Int2Bytes in Hlen.
  split; [lia|]. rewrite (PeekInt_content b (Int2Bytes (Z.of_nat (length body))) (drop 4 (content b))); [by rewrite decode_Int2Bytes by lia|done| |apply length_Int2Bytes].
  rewrite <-(take_drop 4 (content b)) at 1. f_equal. apply (f_equal (take 4)) in Hc.
  by rewrite take_app_le, take_app_length' in Hc by (by rewrite ?length_Int2Bytes || lia).
Qed.
Lemma hasEnoughData_partial b backup (body r : bytes) : wf b → Z.of_nat (length body) < two32 → r ≠ [] →
  content b ++ r = Int2Bytes (Z.of_nat (length body)) ++ body → hasEnoughData backup b = Ok (None, SetReaderIndex backup b).
Proof.
  intros Hw Hn Hr Hc. unfold hasEnoughData. destruct (enough_partial b body r Hw Hn Hr Hc) as [?|(? & Hp)]; [by rewrite bool_decide_eq_true_2|].
  rewrite bool_decide_eq_false_2 by lia. unfold peek_int. rewrite Hp, Nat2Z.id. simpl. by rewrite bool_decide_eq_true_2 by lia.
Qed.

(** The store reads the frames of the proxy. *)
#[export] Instance request_framing {M} `{!Proto M} : Framing (WriteProxyMessage RedisBegin) fits (readCommandByProxyProtocol (M := M)).
Proof.
  split.
  - done.
  - intros m b rest [Hok Hn] Hw Hc. unfold WriteProxyMessage in Hc. cbn [app] in Hc. rewrite <-(assoc_L (++)) in Hc. unfold readCommandByProxyProtocol.
    pose proof (length_content b Hw) as Hl. rewrite Hc in Hl. cbn [length] in Hl. destruct (Skip_content b 1 Hw ltac:(lia)) as (Hw1 & Hc1 & _).
    rewrite Hc in Hc1. cbn [drop] in Hc1. destruct (enough_complete _ 0 _ _ Hw1 Hn Hc1) as (Hsz & -> & _ & Hw2 & Hc2).
    rewrite bool_decide_eq_false_2 by lia. cbn [outcome_bind]. rewrite bool_decide_eq_false_2 by lia.
    pose proof (length_content _ Hw2) as Hl2. rewrite Hc2, length_app in Hl2. unfold ReadRawBytes. rewrite bool_decide_eq_false_2 by lia.
    pose proof (content_slice _ 0 (length (Marshal m)) Hw2 ltac:(lia)) as Hs. rewrite Nat.add_0_r in Hs. rewrite Hs, drop_0, Hc2, take_app_length.
    cbn [outcome_bind]. rewrite bool_decide_eq_true_2 by done. cbn [negb]. unfold MustUnmarshal. rewrite Unmarshal_Marshal by done. cbn [outcome_bind].
    destruct (Skip_content (Skip 4 (Skip 1 b)) (length (Marshal m)) Hw2 ltac:(lia)) as (Hw3 & Hc3 & _). rewrite Hc2, drop_app_length in Hc3. eauto.
  - intros m b r [Hok Hn] Hw Hc Hr Hne. unfold WriteProxyMessage in Hc. destruct (content b) as [|x p] eqn:Hcb; [done|]. cbn [app] in Hc. injection Hc as -> Hp.
    pose proof (length_content b Hw) as Hl. rewrite Hcb in Hl. cbn [length] in Hl. destruct (Skip_content b 1 Hw ltac:(lia)) as (Hw1 & Hc1 & Heq).
    rewrite Hcb in Hc1. change (content (Skip 1 b) = p) in Hc1. rewrite <-Hc1 in Hp. pose proof (enough_partial _ _ _ Hw1 Hn Hr Hp) as Hcase. rewrite Heq in *. clear Heq.
    destruct (SetReaderIndex_back b (set_reader (readerIndex b + 1) b) Hw eq_refl eq_refl) as [Hwb Hcbk]. rewrite Hcb in Hcbk.
    unfold readCommandByProxyProtocol. destruct (Skip_content b 1 Hw ltac:(lia)) as (_ & _ & ->).
    destruct Hcase as [Hlt|[Hlt Hpi]]; [rewrite bool_decide_eq_true_2 by done; eauto|].
    rewrite bool_decide_eq_false_2 by lia. unfold peek_int. rewrite Hpi, Nat2Z.id. cbn [outcome_bind]. rewrite bool_decide_eq_true_2 by lia. eauto.
Qed.

(** *** What a redis server reads *)
Definition server_frame {Rq} `{!Proto Rq} (v : server_value Rq) : bytes :=
  match v with
  | VGoettyCommand c | VRedisCommand c => write_command c
  | VRequest r => WriteProxyMessage RedisBegin r
  end.
Definition server_ok {Rq} `{!Proto Rq} (v : server_value Rq) : Prop :=
  match v with VGoettyCommand c => ok_command c | VRedisCommand _ => False | VRequest r => fits r end.
Lemma peek_first b c p : wf b → content b = c :: p → PeekByte 0 b = Ok c.
Proof. intros Hw Hc. apply (PeekByte_content b 0 c Hw). by rewrite Hc. Qed.
#[export] Instance server_framing {Rq} `{!Proto Rq} : Framing server_frame server_ok (readCommand (Rq := Rq)).
Proof.
  split.
  - by intros [c|c|r].
  - intros [c|c|r] b rest Hok Hw Hc; [|done|]; unfold readCommand; pose proof Hc as Hc'; cbn in Hc'; rewrite (peek_first _ _ _ Hw Hc'); cbn [outcome_bind].
    + destruct (frame_complete c b rest Hok Hw Hc) as (b' & Hd & ?). rewrite bool_decide_eq_true_2, Hd by done. simpl. eauto.
    + destruct (frame_complete r b rest Hok Hw Hc) as (b' & Hd & ?).
      rewrite bool_decide_eq_false_2, bool_decide_eq_true_2, Hd by done. simpl. eauto.
  - intros [c|c|r] b rest Hok Hw Hc Hr Hne; [|done|]; (destruct (content b) as [|x p] eqn:Hcb; [done|]);
      unfold readCommand; rewrite (peek_first b x p) by done; cbn [outcome_bind]; rewrite <-Hcb in *.
    + destruct (frame_partial c b rest Hok Hw Hc Hr Hne) as (b' & Hd & ?). rewrite Hcb in Hc. injection Hc as -> _.
      rewrite bool_decide_eq_true_2, Hd by done. simpl. eauto.
    + destruct (frame_partial r b rest Hok Hw Hc Hr Hne) as (b' & Hd & ?). rewrite Hcb in Hc. injection Hc as -> _.
      rewrite bool_decide_eq_false_2, bool_decide_eq_true_2, Hd by done. simpl. eauto.
Qed.

(** *** What the proxy reads *)
Lemma decode_as_complete {M V} `{!Proto M} (wrap : M → V) m backup b rest : fits m → wf b →
  content b = Int2Bytes (Z.of_nat (length (Marshal m))) ++ Marshal m ++ rest →
  ∃ b', decode_as wrap backup b = Ok (Some (wrap m), b') ∧ wf b' ∧ content b' = rest.
Proof.
  intros [Hok Hn] Hw Hc. unfold decode_as. destruct (enough_complete b backup _ _ Hw Hn Hc) as (_ & _ & -> & Hw1 & Hc1). cbn [outcome_bind].
  unfold readPB. destruct (Marshal m) as [|x p] eqn:Hm.
  - unfold ReadBytes. simpl. unfold MustUnmarshal. rewrite <-Hm, Unmarshal_Marshal by done. simpl. eauto.
  - rewrite <-Hm in *. destruct (ReadBytes_app _ (Marshal m) rest Hw1 Hc1) as (b' & -> & ? & ? & _); [by rewrite Hm|]. cbn [outcome_bind].
    rewrite bool_decide_eq_true_2 by done. simpl. unfold MustUnmarshal. rewrite Unmarshal_Marshal by done. simpl. eauto.
Qed.
Lemma decode_as_partial {M V} `{!Proto M} (wrap : M → V) m backup b r : fits m → wf b → r ≠ [] →
  content b ++ r = Int2Bytes (Z.of_nat (length (Marshal m))) ++ Marshal m → decode_as wrap backup b = Ok (None, SetReaderIndex backup b).
Proof. intros [Hok Hn] Hw Hr Hc. unfold decode_as. by rewrite (hasEnoughData_partial b backup _ _ Hw Hn Hr Hc). Qed.

Section proxy_framing.
Context {Rsp WN WS WR : Type} `{!Proto Rsp, !Proto WN, !Proto WS, !Proto WR}.
Definition proxy_value_ok (v : proxy_value Rsp WN WS WR) : Prop :=
  match v with PResponse m => fits m | PNotify m => fits m | PSync m => fits m | PNotifyRsp m => fits m end.
(** The four kinds of frames differ in their tag only. *)
Lemma proxy_decode_complete v b rest : proxy_value_ok v → wf b → content b = proxy_frame v ++ rest →
  ∃ b', ProxyDecode b = Ok (Some v, b') ∧ wf b' ∧ content b' = rest.
Proof.
  intros Hok Hw Hc. unfold ProxyDecode.
  destruct v as [m|m|m|m]; unfold proxy_frame, WriteProxyMessage in Hc; cbn [app] in Hc; rewrite <-(assoc_L (++)) in Hc;
    destruct (ReadByte_cons b _ _ Hw Hc) as (b1 & -> & Hw1 & Hc1 & _); cbn [outcome_bind];
    repeat first [rewrite bool_decide_eq_true_2 by done | rewrite bool_decide_eq_false_2 by done]; by apply decode_as_complete.
Qed.
Lemma proxy_decode_partial v b r : proxy_value_ok v → wf b → content b ++ r = proxy_frame v → r ≠ [] → content b ≠ [] →
  ∃ b', ProxyDecode (Rsp := Rsp) (WN := WN) (WS := WS) (WR := WR) b = Ok (None, b') ∧ wf b' ∧ content b' = content b.
Proof.
  intros Hok Hw Hc Hr Hne. unfold ProxyDecode. destruct (content b) as [|x p] eqn:Hcb; [done|]. rewrite <-Hcb.
  destruct (ReadByte_cons b _ _ Hw Hcb) as (b1 & -> & Hw1 & Hc1 & ->). cbn [outcome_bind].
  exists (SetReaderIndex (readerIndex b) (set_reader (readerIndex b + 1) b)). split; [|by apply SetReaderIndex_back].
  destruct v as [m|m|m|m]; unfold proxy_frame, WriteProxyMessage in Hc; cbn [app] in Hc; injection Hc as -> Hp; rewrite <-Hc1 in Hp;
    repeat first [rewrite bool_decide_eq_true_2 by done | rewrite bool_decide_eq_false_2 by done]; (eapply decode_as_partial; [exact Hok|done|exact Hr|exact Hp]).
Qed.
#[export] Instance proxy_framing : Framing proxy_frame proxy_value_ok (ProxyDecode (Rsp := Rsp) (WN := WN) (WS := WS) (WR := WR)).
Proof. split; [by intros [m|m|m|m] | exact proxy_decode_complete | exact proxy_decode_partial]. Qed.
End proxy_framing.

(** *** What stores send each other *)
Section raft_framing.
Context {Rm Sm Am Qr Qs : Type} `{!Proto Rm, !Proto Sm, !Proto Am, !Proto Qr, !Proto Qs}.
Abbreviation V := (raft_value Rm Sm Am Qr Qs).
Definition raft_value_ok (v : V) : Prop :=
  Z.of_nat (length (raft_body v).2) < DefaultMaxBodySize ∧
  match v with RRaft m => proto_ok m | RSnap m => proto_ok m | RAck m => proto_ok m | RQueryReq m => proto_ok m | RQueryRsp m => proto_ok m end.
Lemma max_body_two32 : DefaultMaxBodySize < two32.
Proof. done. Qed.
Lemma raftDecode_frame v b rest : raft_value_ok v → wf b → content b = [(raft_body v).1] ++ (raft_body v).2 ++ rest →
  markedIndex b = (readerIndex b + S (length (raft_body v).2))%nat →
  ∃ b', raftDecode b = Ok (Some v, b') ∧ wf b' ∧ content b' = rest.
Proof.
  intros [_ Hok] Hw Hc Hm. unfold raftDecode. destruct (ReadByte_cons b _ _ Hw Hc) as (b1 & -> & Hw1 & Hc1 & ->). cbn [outcome_bind].
  set (b1 := set_reader (readerIndex b + 1) b) in *. pose proof (length_content b1 Hw1) as Hl. rewrite Hc1, length_app in Hl.
  assert (markedIndex b1 = (readerIndex b1 + length (raft_body v).2)%nat) as Hm1 by (unfold b1; simpl; lia).
  unfold GetMarkedRemindData. rewrite Hm1. pose proof (content_slice b1 0 (length (raft_body v).2) Hw1 ltac:(lia)) as Hs.
  rewrite Nat.add_0_r in Hs. rewrite Hs, drop_0, Hc1, take_app_length. cbn [outcome_bind].
  assert (wf (MarkedBytesReaded b1) ∧ content (MarkedBytesReaded b1) = rest) as [Hw2 Hc2].
  { unfold MarkedBytesReaded. rewrite Hm1. destruct (content_advance b1 (length (raft_body v).2) Hw1 ltac:(lia)) as [? Hc2]. by rewrite Hc1, drop_app_length in Hc2. }
  destruct v as [m|m|m|m|m]; cbn [raft_body fst snd] in *;
    repeat first [rewrite bool_decide_eq_true_2 by done | rewrite bool_decide_eq_false_2 by done];
    unfold marked_as, MustUnmarshal; rewrite Unmarshal_Marshal by done; simpl; eauto.
Qed.
#[export] Instance raft_framing : Framing raftEncode raft_value_ok (length_field_decode (raftDecode (Rm := Rm) (Sm := Sm) (Am := Am) (Qr := Qr) (Qs := Qs))).
Proof.
  pose proof max_body_two32. split.
  - intros v _. unfold raftEncode. destruct (raft_body v) as [t body]. intros Hn%(f_equal length). rewrite length_app, length_Int2Bytes in Hn. simpl in Hn. lia.
  - intros v b rest Hok Hw Hc. unfold raftEncode in Hc. destruct (raft_body v) as [t body] eqn:Hb.
    assert (Z.of_nat (length body) < DefaultMaxBodySize) as Hsz by (destruct Hok as [Hsz _]; by rewrite Hb in Hsz).
    rewrite <-!(assoc_L (++)) in Hc. replace (length body + 1)%nat with (length (t :: body)) in Hc by (simpl; lia).
    pose proof (peek_int_frame b (length (t :: body)) _ Hw ltac:(simpl; lia) Hc) as Hp.
    pose proof (length_content b Hw) as Hl. rewrite Hc, !length_app, length_Int2Bytes in Hl. cbn [length] in Hl. unfold length_field_decode.
    rewrite bool_decide_eq_false_2 by lia. unfold peek_int in Hp. destruct (PeekInt 0 b) as [len| |] eqn:Hpi; [|done..].
    injection Hp as Hlen. cbn [outcome_bind]. rewrite Hlen. cbn [length]. rewrite bool_decide_eq_false_2, bool_decide_eq_false_2 by lia.
    destruct (Skip_content b 4 Hw ltac:(lia)) as (Hw1 & Hc1 & Heq). rewrite Hc, drop_app_length' in Hc1 by (by rewrite length_Int2Bytes).
    destruct Hw1 as [Hrw Hwl]. assert (Readable (Skip 4 b) = (Readable b - 4)%nat) as Hr1 by (rewrite Heq; by apply Readable_advance; [|lia]).
    assert (MarkN (S (length body)) (Skip 4 b) = mkBuf (buf (Skip 4 b)) (readerIndex (Skip 4 b)) (writerIndex (Skip 4 b)) (readerIndex (Skip 4 b) + S (length body))) as ->.
    { unfold MarkN. unfold Readable in Hr1. unfold Capacity. rewrite bool_decide_eq_false_2, bool_decide_eq_false_2 by (unfold Readable in *; lia). done. }
    apply raftDecode_frame; [done|done| |by rewrite Hb]. rewrite Hb. exact Hc1.
  - intros v b r Hok Hw Hc Hr Hne. unfold raftEncode in Hc. destruct (raft_body v) as [t body] eqn:Hb.
    assert (Z.of_nat (length body) < DefaultMaxBodySize) as Hsz by (destruct Hok as [Hsz _]; by rewrite Hb in Hsz).
    replace (length body + 1)%nat with (length (t :: body)) in Hc by (simpl; lia). unfold length_field_decode.
    destruct (enough_partial b (t :: body) r Hw ltac:(simpl; lia) Hr Hc) as [Hlt|[Hlt Hp]]; [rewrite bool_decide_eq_true_2 by done; eauto|].
    rewrite bool_decide_eq_false_2 by lia. rewrite Hp. cbn [outcome_bind]. rewrite Nat2Z.id.
    rewrite bool_decide_eq_false_2, bool_decide_eq_true_2 by (simpl in *; lia). eauto.
Qed.
End raft_framing.

(** ** A marshalling *)
(** Messages of a countable type as strings of bits: [Proto] can be had. *)
Fixpoint pos_bytes (n : positive) : bytes :=
  match n with xH => [] | xO n' => x00 :: pos_bytes n' | xI n' => x01 :: pos_bytes n' end.
Fixpoint bytes_pos (l : bytes) : positive :=
  match l with [] => xH | c :: l' => if decide (c = x00) then xO (bytes_pos l') else xI (bytes_pos l') end.
Lemma bytes_pos_bytes n : bytes_pos (pos_bytes n) = n.
Proof. induction n as [n IH|n IH|]; simpl; by rewrite ?IH. Qed.
Definition countable_proto (M : Type) `{Countable M} : Proto M.
Proof.
  refine {| Marshal m := pos_bytes (encode m); Unmarshal b := decode (bytes_pos b); proto_ok _ := True |}.
  intros m _. rewrite bytes_pos_bytes. apply decode_encode.
Defined.
(** A message that is only written. *)
Definition written_only (M : Type) : Proto M.
Proof. by refine {| Marshal _ := []; Unmarshal _ := None; proto_ok _ := False |}. Defined.

(** ** What arrives *)
Section arrival.
Context `{!Pool} {Rq Rsp WN WS WR Rm Sm Am Qr Qs : Type}.
Context `{!Proto Rq, !Proto Rsp, !Proto WN, !Proto WS, !Proto WR, !Proto Rm, !Proto Sm, !Proto Am, !Proto Qr, !Proto Qs}.

(** C23. The messages written to a connection arrive complete, unchanged and in
    order however the network cuts their bytes into reads: at the redis port of
    a store (RESP commands and the requests of a proxy), at a proxy (responses
    and the notifications of PD) and between stores (raft messages, snapshot
    chunks, acknowledgements, queries).  The buffer keeps nothing. *)
Theorem streams_survive_fragmentation (capacity : nat) (chunks : list bytes) :
  chunks ≠ [] → Forall (λ p, length p ≤ minScale)%nat chunks →
  (∀ ms, Forall server_ok ms → concat chunks = concat (server_frame <$> ms) →
    ∃ b, receive (readCommand (Rq := Rq)) chunks (NewByteBuf capacity) = Ok (ms, b) ∧ content b = []) ∧
  (∀ ms, Forall proxy_value_ok ms → concat chunks = concat (proxy_frame <$> ms) →
    ∃ b, receive (ProxyDecode (Rsp := Rsp) (WN := WN) (WS := WS) (WR := WR)) chunks (NewByteBuf capacity) = Ok (ms, b) ∧ content b = []) ∧
  (∀ ms, Forall raft_value_ok ms → concat chunks = concat (raftEncode <$> ms) →
    ∃ b, receive (length_field_decode (raftDecode (Rm := Rm) (Sm := Sm) (Am := Am) (Qr := Qr) (Qs := Qs))) chunks (NewByteBuf capacity) = Ok (ms, b) ∧ content b = []).
Proof.
  intros Hne Hsz. destruct (NewByteBuf_content capacity) as [Hw Hc].
  split_and!; intros ms Hok Heq; edestruct (stream_roundtrip (M := _) _ _ _ chunks ms _ Hw Hok Hsz Hne) as (b & ? & _ & ?);
    eauto; by rewrite Hc.
Qed.
End arrival.

(** A PING and a proxied request, cut into reads of seven bytes. *)
Definition wire_values : list (server_value bytes) := [VGoettyCommand [[x70; x69; x6e; x67]]; VRequest [x01; x02]].
Definition wire_bytes : bytes := let _ := countable_proto bytes in concat (server_frame <$> wire_values).
Definition wire_chunks : list bytes := (λ i, take 7 (drop (7 * i) wire_bytes)) <$> seq 0 8.
Lemma streams_survive_fragmentation_witness : let _ := countable_proto bytes in
  ∃ b, receive (readCommand (Rq := bytes)) wire_chunks (NewByteBuf 16) = Ok (wire_values, b) ∧ content b = [].
Proof.
  intros P. unshelve eapply (streams_survive_fragmentation (Rq := bytes) (Rsp := bytes) (WN := bytes) (WS := bytes) (WR := bytes)
    (Rm := bytes) (Sm := bytes) (Am := bytes) (Qr := bytes) (Qs := bytes) 16 wire_chunks); [done| | |vm_compute; reflexivity].
  - apply Forall_fmap, Forall_forall. intros i _. simpl. rewrite length_take. unfold minScale. lia.
  - repeat constructor; vm_compute; try done.
Defined.
