(* ===== verification/Routing.v ===== *)
(** * Hashes, key conversion and bucketed tables

    The checksums of hash/crc32 and hash/crc64 that pkg/util/keys.go and
    pkg/proxy/routing.go use, the two conversions of keys a cluster can be set up
    with, and the tables of pkg/server/routing.go and pkg/proxy/routing.go: 128
    maps, each behind its own lock, of which the bits of the key choose one.
    The lemmas of the section [routing_lemmas] show that such
    a table is one map. *)

From S2P Require Import Prelude Encoding Meta.

(** ** Checksums *)
(** One byte of a reflected CRC with the polynomial [poly]: the table of the
    library holds the results of the eight steps. *)
Fixpoint crc_bits (n : nat) (poly c : Z) : Z :=
  match n with
  | O => c
  | S n' => crc_bits n' poly (if Z.testbit c 0 then Z.lxor (Z.shiftr c 1) poly else Z.shiftr c 1)
  end.
Definition crc_update (poly c : Z) (b : byte) : Z :=
  Z.lxor (crc_bits 8 poly (Z.land (Z.lxor c (Z_of_byte b)) 255)) (Z.shiftr c 8).
Definition crc (ones poly : Z) (data : bytes) : Z := Z.lxor (foldl (crc_update poly) ones data) ones.
(** crc32.ChecksumIEEE and crc64.Checksum with crc64.ECMA. *)
Definition ChecksumIEEE (data : bytes) : Z := crc (two32 - 1) 0xEDB88320 data.
Definition ChecksumECMA (data : bytes) : Z := crc (two64 - 1) 0xC96C5795D7870F42 data.

(** The check values of both, of the text 123456789. *)
Example crc_check :
  ChecksumIEEE [x31; x32; x33; x34; x35; x36; x37; x38; x39] = 0xCBF43926 ∧
  ChecksumECMA [x31; x32; x33; x34; x35; x36; x37; x38; x39] = 0x995DC9BBDF1939FA.
Proof. split; vm_compute; reflexivity. Qed.

(** ** pkg/util/keys.go *)
Definition NoConvert (key : bytes) (do : bytes → Cell) : Cell := do key.
Definition Uint64Convert (key : bytes) (do : bytes → Cell) : Cell := do (PutUint64 (ChecksumECMA key)).
(** Either looks the cell up by a key computed from the key. *)
Definition converted (hashed : bool) (key : bytes) : bytes := if hashed then PutUint64 (ChecksumECMA key) else key.
Lemma convert_spec (hashed : bool) key do :
  (if hashed then Uint64Convert else NoConvert) key do = do (converted hashed key).
Proof. by destruct hashed. Qed.

(** ** Tables in buckets *)
Definition bucketSize : nat := 128.
Definition bucketM : Z := 127.
(** The bucket of a key: its low bits, of a checksum of it. *)
Class Bucketed (K : Type) := getIndex : K → Z.
#[export] Instance session_index : Bucketed Z := λ id, Z.land id bucketM.
#[export] Instance uuid_index : Bucketed bytes := λ key, Z.land (ChecksumIEEE key) bucketM.

Section routing.
Context {K V : Type} `{Countable K} `{!Bucketed K}.
Abbreviation routing := (list (gmap K V)).
Abbreviation res A := (outcome unit A).
Definition newRouting : routing := replicate bucketSize ∅.
(** [r.rms[getIndex(id)]], which panics out of range. *)
Definition bucket (id : K) (r : routing) : res (gmap K V) :=
  if bool_decide (getIndex id < 0) then Panic
  else match r !! Z.to_nat (getIndex id) with Some m => Ok m | None => Panic end.
Definition set_bucket (id : K) (m : gmap K V) (r : routing) : routing := <[Z.to_nat (getIndex id) := m]> r.
Definition routing_put (id : K) (value : V) (r : routing) : res routing :=
  let! m := bucket id r in Ok (set_bucket id (<[id := value]> m) r).
Definition routing_get (id : K) (r : routing) : res (option V) :=
  let! m := bucket id r in Ok (m !! id).
Definition routing_delete (id : K) (r : routing) : res (option V * routing) :=
  let! m := bucket id r in Ok (m !! id, set_bucket id (delete id m) r).
(** What the table holds under a key. *)
Definition routed (r : routing) (id : K) : option V := r !! Z.to_nat (getIndex id) ≫= lookup id.
Definition routing_wf (r : routing) : Prop := length r = bucketSize.
End routing.

(** The index of a key is that of a bucket. *)
Class BucketLaws (K : Type) `{!Bucketed K} := index_range (k : K) : 0 ≤ getIndex k < Z.of_nat bucketSize.
Lemma land_bucketM z : 0 ≤ Z.land z bucketM < Z.of_nat bucketSize.
Proof. unfold bucketM, bucketSize. change 127 with (Z.ones 7). rewrite Z.land_ones by done. by apply Z.mod_pos_bound. Qed.
#[export] Instance session_index_laws : BucketLaws Z.
Proof. intros k. apply land_bucketM. Qed.
#[export] Instance uuid_index_laws : BucketLaws bytes.
Proof. intros k. apply land_bucketM. Qed.

Section routing_lemmas.
Context {K V : Type} `{Countable K} `{!Bucketed K} `{!BucketLaws K}.
Implicit Types (r : list (gmap K V)).

Lemma newRouting_spec : routing_wf (newRouting (K := K) (V := V)) ∧ ∀ k, routed (newRouting (K := K) (V := V)) k = None.
Proof.
  split; [apply length_replicate|]. intros k. unfold routed, newRouting. pose proof (index_range k).
  rewrite lookup_replicate_2 by lia. apply lookup_empty.
Qed.
Lemma bucket_spec r k : routing_wf r → ∃ m, bucket k r = Ok m ∧ r !! Z.to_nat (getIndex k) = Some m ∧ routed r k = m !! k.
Proof.
  intros Hw. pose proof (index_range k) as Hi. unfold bucket, routed. rewrite bool_decide_eq_false_2 by lia.
  destruct (lookup_lt_is_Some_2 r (Z.to_nat (getIndex k))) as [m Hm]; [unfold routing_wf in Hw; lia|].
  exists m. rewrite Hm. done.
Qed.
Lemma routed_set_bucket r k m m' k' : routing_wf r → r !! Z.to_nat (getIndex k) = Some m → (∀ j, j ≠ k → m' !! j = m !! j) →
  routed (set_bucket k m' r) k' = if decide (k' = k) then m' !! k else routed r k'.
Proof.
  intros Hw Hm Hsame. pose proof (index_range k). unfold routed, set_bucket, routing_wf in *.
  destruct (decide (Z.to_nat (getIndex k') = Z.to_nat (getIndex k))) as [Heq|Hne].
  - rewrite Heq, list_lookup_insert_eq by lia. rewrite Hm. simpl. case_decide; [by subst|by apply Hsame].
  - rewrite list_lookup_insert_ne by done. rewrite decide_False; [done|]. by intros ->.
Qed.
(** A table is one map: its operations never panic and act on the map alone. *)
Lemma routing_put_spec r k v : routing_wf r →
  ∃ r', routing_put k v r = Ok r' ∧ routing_wf r' ∧ ∀ k', routed r' k' = if decide (k' = k) then Some v else routed r k'.
Proof.
  intros Hw. destruct (bucket_spec r k Hw) as (m & Hb & Hm & _). unfold routing_put. rewrite Hb. simpl. eexists. split_and!; [done| |].
  - unfold routing_wf, set_bucket. by rewrite length_insert.
  - intros k'. rewrite (routed_set_bucket r k m) by (done || (intros; by rewrite lookup_insert_ne by done)). by rewrite lookup_insert_eq.
Qed.
Lemma routing_get_spec r k : routing_wf r → routing_get k r = Ok (routed r k).
Proof. intros Hw. destruct (bucket_spec r k Hw) as (m & Hb & _ & ->). unfold routing_get. by rewrite Hb. Qed.
Lemma routing_delete_spec r k : routing_wf r →
  ∃ r', routing_delete k r = Ok (routed r k, r') ∧ routing_wf r' ∧ ∀ k', routed r' k' = if decide (k' = k) then None else routed r k'.
Proof.
  intros Hw. destruct (bucket_spec r k Hw) as (m & Hb & Hm & Hr). unfold routing_delete. rewrite Hb, Hr. simpl. eexists. split_and!; [done| |].
  - unfold routing_wf, set_bucket. by rewrite length_insert.
  - intros k'. rewrite (routed_set_bucket r k m) by (done || (intros; by rewrite lookup_delete_ne by done)). by rewrite lookup_delete_eq.
Qed.
End routing_lemmas.
