(* ===== verification/Heap.v ===== *)
(** * Priority queues and ordered arrays

    container/heap of Go's library, on a slice, and what pkg/util builds on it:
    [PriorityQueue] (priority_queue.go), which hands out items in ascending order,
    and [OrderedArray] (ordered_array.go), which keeps the smallest items it is
    given.  Items are compared by their method [Compare]. *)

From S2P Require Import Prelude.

(** ** container/heap *)
Section heap.
Context {A : Type} `{!Inhabited A} (less : A → A → bool).
Implicit Types (l h : list A).
Definition Less (h : list A) (i j : nat) : bool := less (h !!! i) (h !!! j).
Definition Swap (i j : nat) (h : list A) : list A := <[i := h !!! j]> (<[j := h !!! i]> h).
Definition parent (j : nat) : nat := (j - 1) / 2.
(** [up]; the index at least halves. *)
Fixpoint up_loop (fuel j : nat) (h : list A) : list A :=
  match fuel with
  | O => h
  | S fuel' =>
      let i := parent j in
      if bool_decide (i = j) || negb (Less h j i) then h else up_loop fuel' i (Swap i j h)
  end.
Definition up (j : nat) (h : list A) : list A := up_loop (S j) j h.
(** [down] on the first [n] items: the items and where the loop ended. *)
Fixpoint down_loop (fuel i n : nat) (h : list A) : nat * list A :=
  match fuel with
  | O => (i, h)
  | S fuel' =>
      let j1 := (2 * i + 1)%nat in
      if bool_decide (n ≤ j1)%nat then (i, h)
      else
        let j2 := S j1 in
        let j := if bool_decide (j2 < n)%nat && Less h j2 j1 then j2 else j1 in
        if negb (Less h j i) then (i, h) else down_loop fuel' j n (Swap i j h)
  end.
Definition down (i0 n : nat) (h : list A) : bool * list A :=
  let '(i, h) := down_loop n i0 n h in (bool_decide (i0 < i)%nat, h).
Definition heap_Push (x : A) (h : list A) : list A := let h := h ++ [x] in up (length h - 1) h.
(** The item popped, which has moved to the end, and the items left. *)
Definition heap_Pop (h : list A) : A * list A :=
  let n := (length h - 1)%nat in
  let h := (down 0 n (Swap 0 n h)).2 in
  (h !!! n, take n h).
Definition heap_Fix (i : nat) (h : list A) : list A :=
  let '(moved, h) := down i (length h) h in if moved then h else up i h.

(** *** Its invariant *)
(** A total preorder, by its strict part. *)
Class PreOrderLess : Prop := {
  less_irrefl x : less x x = false;
  less_trans x y z : less y x = false → less z y = false → less z x = false;
  less_le x y : less x y = true → less y x = false;
}.
Definition le (x y : A) : Prop := less y x = false.
Definition heap_ok (n : nat) l : Prop := ∀ k, (0 < k < n)%nat → le (l !!! parent k) (l !!! k).

Context `{!PreOrderLess}.
Lemma le_trans x y z : le x y → le y z → le x z.
Proof. unfold le. intros. by eapply less_trans. Qed.
Lemma parent_lt k : (0 < k)%nat → (parent k < k)%nat.
Proof. intros Hk. unfold parent. apply Nat.Div0.div_lt_upper_bound. lia. Qed.
Lemma parent_child k i : (0 < k)%nat → parent k = i ↔ (k = 2 * i + 1 ∨ k = 2 * i + 2)%nat.
Proof.
  intros Hk. unfold parent. pose proof (Nat.div_mod_eq (k - 1) 2). pose proof (Nat.mod_upper_bound (k - 1) 2 ltac:(lia)). split.
  - intros <-. lia.
  - intros Hi. symmetry. apply (Nat.div_unique (k - 1) 2 i (k - 1 - 2 * i)); lia.
Qed.
Lemma length_Swap i j l : length (Swap i j l) = length l.
Proof. unfold Swap. by rewrite !length_insert. Qed.
Lemma lookup_Swap i j k l : (i < length l)%nat → (j < length l)%nat →
  Swap i j l !!! k = if decide (k = i) then l !!! j else if decide (k = j) then l !!! i else l !!! k.
Proof.
  intros Hi Hj. unfold Swap. repeat case_decide; subst.
  - by rewrite list_lookup_total_insert_eq by (by rewrite length_insert).
  - by rewrite list_lookup_total_insert_ne, list_lookup_total_insert_eq by done.
  - by rewrite !list_lookup_total_insert_ne by done.
Qed.
Lemma Swap_perm i j l : (i < length l)%nat → (j < length l)%nat → Swap i j l ≡ₚ l.
Proof.
  intros Hi Hj. unfold Swap. destruct (lookup_lt_is_Some_2 l i Hi) as [x Hx]. destruct (lookup_lt_is_Some_2 l j Hj) as [y Hy].
  rewrite (list_lookup_total_correct l i x Hx), (list_lookup_total_correct l j y Hy). by apply Permutation_insert_swap.
Qed.

(** The heap but for the item at [j], which may be too small, *)
Definition heap_up (n j : nat) l : Prop :=
  (∀ k, (0 < k < n)%nat → k ≠ j → le (l !!! parent k) (l !!! k)) ∧
  (∀ k, (0 < k < n)%nat → parent k = j → (0 < j)%nat → le (l !!! parent j) (l !!! k)).
(** or for the item at [i], which may be too large. *)
Definition heap_down (n i : nat) l : Prop :=
  (∀ k, (0 < k < n)%nat → parent k ≠ i → le (l !!! parent k) (l !!! k)) ∧
  (∀ k, (0 < k < n)%nat → parent k = i → (0 < i)%nat → le (l !!! parent i) (l !!! k)).
Lemma le_refl x : le x x.
Proof. apply less_irrefl. Qed.
Lemma heap_up_Swap n j l : (0 < j < n)%nat → (n ≤ length l)%nat → less (l !!! j) (l !!! parent j) = true → heap_up n j l → heap_up n (parent j) (Swap (parent j) j l).
Proof.
  intros Hj Hn Hl%less_le [H1 H2]. pose proof (parent_lt j ltac:(lia)) as Hpj. set (i := parent j) in *. unfold heap_up.
  assert (∀ k, Swap i j l !!! k = if decide (k = i) then l !!! j else if decide (k = j) then l !!! i else l !!! k) as Hs by (intros; apply lookup_Swap; lia).
  assert (∀ k, (0 < k < n)%nat → parent k = i → k ≠ j → le (l !!! i) (l !!! k)) as Hsib by (intros k Hk Hp Hne; rewrite <-Hp; by apply H1).
  split.
  - intros k Hk Hki. rewrite !Hs. rewrite (decide_False (P := k = i)) by done. destruct (decide (k = j)) as [->|Hkj].
    + fold i. rewrite decide_True by done. exact Hl.
    + destruct (decide (parent k = i)) as [Hp|Hp]; [eapply le_trans; [exact Hl|by apply Hsib]|].
      destruct (decide (parent k = j)) as [Hp'|Hp']; [by apply H2; [| |lia]|by apply H1].
  - intros k Hk Hp Hi. rewrite !Hs. pose proof (parent_lt i Hi) as Hpi. rewrite (decide_False (P := parent i = i)), (decide_False (P := parent i = j)) by lia.
    pose proof (parent_lt k ltac:(lia)) as Hpk. rewrite (decide_False (P := k = i)) by lia. assert (le (l !!! parent i) (l !!! i)) as Hg by (apply H1; lia).
    destruct (decide (k = j)); [done|]. eapply le_trans; [exact Hg|by apply Hsib].
Qed.
Lemma up_loop_ok n fuel : ∀ j l, (j < fuel)%nat → (j < n ≤ length l)%nat → heap_up n j l → heap_ok n (up_loop fuel j l) ∧ up_loop fuel j l ≡ₚ l.
Proof.
  induction fuel as [|fuel IH]; intros j l Hf Hj Hh; [lia|]. cbn [up_loop]. destruct (decide (j = 0)%nat) as [->|Hj0].
  { split; [|done]. intros k Hk. apply Hh; lia. }
  pose proof (parent_lt j ltac:(lia)) as Hp. rewrite (bool_decide_eq_false_2 (parent j = j)) by lia. cbn [orb]. unfold Less.
  destruct (less (l !!! j) (l !!! parent j)) eqn:Hl; cbn [negb].
  - destruct (IH (parent j) (Swap (parent j) j l)) as [? Hperm]; [lia|rewrite length_Swap; lia|by apply heap_up_Swap; [lia|lia| |]|].
    split; [done|]. rewrite Hperm. apply Swap_perm; lia.
  - split; [|done]. intros k Hk. destruct (decide (k = j)) as [->|]; [exact Hl|]. by apply Hh.
Qed.
Lemma heap_down_Swap n i j l : (0 < j < n)%nat → parent j = i → (n ≤ length l)%nat → less (l !!! j) (l !!! i) = true →
  (∀ k, (0 < k < n)%nat → parent k = i → le (l !!! j) (l !!! k)) → heap_down n i l → heap_down n j (Swap i j l).
Proof.
  intros Hj Hp Hn Hl%less_le Hmin [H1 H2]. pose proof (parent_lt j ltac:(lia)) as Hpj. unfold heap_down.
  assert (∀ k, Swap i j l !!! k = if decide (k = i) then l !!! j else if decide (k = j) then l !!! i else l !!! k) as Hs by (intros; apply lookup_Swap; lia).
  split.
  - intros k Hk Hkj. rewrite !Hs. rewrite (decide_False (P := parent k = j)) by done. destruct (decide (parent k = i)) as [Hpi|Hpi].
    + pose proof (parent_lt k ltac:(lia)). rewrite (decide_False (P := k = i)) by lia. destruct (decide (k = j)); [exact Hl|by apply Hmin].
    + destruct (decide (k = i)) as [->|Hki]; [apply H2; lia|]. rewrite (decide_False (P := k = j)) by congruence. by apply H1.
  - intros k Hk Hpk _. rewrite !Hs. rewrite Hp, (decide_True (P := i = i)) by done. pose proof (parent_lt k ltac:(lia)).
    rewrite (decide_False (P := k = i)), (decide_False (P := k = j)) by lia. rewrite <-Hpk. apply H1; [done|lia].
Qed.
Lemma down_loop_ok n fuel : ∀ i l, (n ≤ i + fuel)%nat → (n ≤ length l)%nat → heap_down n i l →
  heap_ok n (down_loop fuel i n l).2 ∧ (down_loop fuel i n l).2 ≡ₚ l ∧ drop n (down_loop fuel i n l).2 = drop n l.
Proof.
  induction fuel as [|fuel IH]; intros i l Hf Hn Hh; cbn [down_loop].
  { split_and!; [|done|done]. intros k Hk. apply Hh; [done|]. pose proof (parent_lt k ltac:(lia)). lia. }
  case_bool_decide as Hj1.
  { split_and!; [|done|done]. intros k Hk. apply Hh; [done|]. intros Hp%parent_child; lia. }
  set (j := if bool_decide (S (2 * i + 1) < n)%nat && Less l (S (2 * i + 1)) (2 * i + 1) then S (2 * i + 1) else (2 * i + 1)%nat).
  assert ((0 < j < n)%nat ∧ parent j = i ∧ ∀ k, (0 < k < n)%nat → parent k = i → le (l !!! j) (l !!! k)) as (Hj & Hpj & Hmin).
  { subst j. destruct (bool_decide (S (2 * i + 1) < n)%nat) eqn:Hb; cbn [andb]; [apply bool_decide_eq_true in Hb|apply bool_decide_eq_false in Hb].
    - unfold Less. destruct (less _ _) eqn:Hl; (split_and!; [lia|lia|apply parent_child; lia|]); intros k Hk Hp%parent_child; [| lia| |lia].
      + destruct Hp as [->|Hp]; [by apply less_le|]. replace k with (S (2 * i + 1)) by lia. apply le_refl.
      + destruct Hp as [->|Hp]; [apply le_refl|]. replace k with (S (2 * i + 1)) by lia. exact Hl.
    - split_and!; [lia|lia|apply parent_child; lia|]. intros k Hk Hp%parent_child; [|lia]. replace k with (2 * i + 1)%nat by lia. apply le_refl. }
  clearbody j.
  unfold Less. destruct (less (l !!! j) (l !!! i)) eqn:Hl; cbn [negb].
  - pose proof (parent_lt j ltac:(lia)) as Hpl. assert (heap_down n j (Swap i j l)) as Hd by (by apply heap_down_Swap).
    destruct (IH j (Swap i j l)) as (Ho & Hperm & Hdrop); [lia|by rewrite length_Swap|done|]. split_and!; [done|rewrite Hperm; apply Swap_perm; lia|].
    rewrite Hdrop. unfold Swap. by rewrite !drop_insert_lt by lia.
  - split_and!; [|done|done]. intros k Hk. destruct (decide (parent k = i)) as [Hp|Hp]; [|by apply Hh]. rewrite Hp. eapply le_trans; [exact Hl|by apply Hmin].
Qed.
(** The first item is the least. *)
Lemma heap_root n l k : heap_ok n l → (k < n)%nat → le (l !!! 0%nat) (l !!! k).
Proof.
  intros Hh. induction (lt_wf k) as [k _ IH]. intros Hk. destruct (decide (k = 0)%nat) as [->|Hk0]; [apply le_refl|].
  pose proof (parent_lt k ltac:(lia)). eapply le_trans; [apply (IH (parent k)); lia|]. apply Hh. lia.
Qed.
Lemma heap_ok_ext n l l' : (∀ k, (k < n)%nat → l' !!! k = l !!! k) → heap_ok n l → heap_ok n l'.
Proof. intros He Hh k Hk. pose proof (parent_lt k ltac:(lia)). rewrite !He by lia. by apply Hh. Qed.
Lemma heap_Push_ok x l : heap_ok (length l) l → heap_ok (length (heap_Push x l)) (heap_Push x l) ∧ heap_Push x l ≡ₚ x :: l.
Proof.
  intros Hh. unfold heap_Push, up. rewrite length_app. cbn [length]. replace (length l + 1 - 1)%nat with (length l) by lia.
  destruct (up_loop_ok (length l + 1) (S (length l)) (length l) (l ++ [x])) as [Ho Hp]; [lia|rewrite length_app; simpl; lia| |].
  - split.
    + intros k Hk Hne. pose proof (parent_lt k ltac:(lia)). rewrite !lookup_total_app_l by lia. apply Hh. lia.
    + intros k Hk Hp. pose proof (parent_lt k ltac:(lia)). lia.
  - rewrite Hp at 1. rewrite length_app. cbn [length]. split; [done|]. rewrite Hp. symmetry. apply Permutation_cons_append.
Qed.
Lemma heap_Pop_ok l x h : l ≠ [] → heap_ok (length l) l → heap_Pop l = (x, h) → heap_ok (length h) h ∧ l ≡ₚ x :: h ∧ Forall (le x) h.
Proof.
  intros Hne Hh Heq. assert (0 < length l)%nat as Hl by (destruct l; [done|simpl; lia]). unfold heap_Pop, down in Heq. set (n := (length l - 1)%nat) in *.
  assert (heap_down n 0 (Swap 0 n l)) as Hd.
  { split; [|lia]. intros k Hk Hp. pose proof (parent_lt k ltac:(lia)). rewrite !lookup_Swap by lia. rewrite !decide_False by lia. apply Hh. lia. }
  destruct (down_loop_ok n n 0 (Swap 0 n l)) as (Ho & Hp & Hdr); [lia|rewrite length_Swap; lia|done|].
  destruct (down_loop n 0 n (Swap 0 n l)) as [i l'] eqn:Hdl. cbn [snd] in *. injection Heq as <- <-.
  assert (length l' = length l) as Hlen by (rewrite Hp; apply length_Swap).
  assert (l' !!! n = l !!! 0%nat) as Hx.
  { assert (Swap 0 n l !!! n = l !!! 0%nat) as <- by (rewrite lookup_Swap by lia; rewrite (decide_True (P := n = n)) by done; case_decide as Hn0; [by rewrite Hn0|done]).
    pose proof (f_equal (λ d, d !!! 0%nat) Hdr) as H0. cbn beta in H0. by rewrite !lookup_total_drop, Nat.add_0_r in H0. }
  assert (l ≡ₚ l' !!! n :: take n l') as Hperm.
  { rewrite <-(Swap_perm 0 n l), <-Hp by lia. rewrite <-(take_drop n l') at 1. rewrite (Permutation_app_comm (take n l')).
    destruct (drop n l') as [|y [|z rest]] eqn:Hdn; [apply (f_equal length) in Hdn; rewrite length_drop in Hdn; simpl in Hdn; lia| |apply (f_equal length) in Hdn; rewrite length_drop in Hdn; simpl in Hdn; lia].
    replace (l' !!! n) with y; [done|]. pose proof (f_equal (λ d, d !!! 0%nat) Hdn) as H0. cbn beta in H0. rewrite lookup_total_drop, Nat.add_0_r in H0. by rewrite H0. }
  split_and!; [| done |].
  - rewrite length_take, Nat.min_l by lia. apply (heap_ok_ext n l'); [|done]. intros k Hk. by rewrite lookup_total_take_lt by lia.
  - apply Forall_forall. intros y Hy. assert (y ∈ l) as Hyl by (rewrite Hperm; by right). apply list_elem_of_lookup in Hyl as [k Hk].
    rewrite Hx, <-(list_lookup_total_correct l k y Hk). apply (heap_root (length l)); [done|]. by eapply lookup_lt_Some.
Qed.
(** Putting another item at the root. *)
Lemma heap_Fix_ok x y l : heap_ok (S (length l)) (x :: l) → heap_ok (S (length l)) (heap_Fix 0 (y :: l)) ∧ heap_Fix 0 (y :: l) ≡ₚ y :: l.
Proof.
  intros Hh. unfold heap_Fix, down. cbn [length]. destruct (down_loop_ok (S (length l)) (S (length l)) 0 (y :: l)) as (Ho & Hp & _); [lia|done| |].
  - split; [|lia]. intros k Hk Hp. specialize (Hh k Hk). destruct k as [|k]; [lia|]. destruct (parent (S k)) as [|j] eqn:Hj; [done|]. exact Hh.
  - destruct (down_loop _ 0 _ (y :: l)) as [i h]. cbn [snd] in *. case_bool_decide; done.
Qed.
End heap.

(** sort.Sort, which may be any sorting algorithm. *)
Class Sorter := {
  Sort {A} (less : A → A → bool) : list A → list A;
  Sort_perm {A} (less : A → A → bool) l : Sort less l ≡ₚ l;
  Sort_sorted {A} (less : A → A → bool) `{!PreOrderLess less} l : StronglySorted (le less) (Sort less l);
}.

(** ** Items *)
(** [Compare] of the interface Item, which says how two items are ordered. *)
Class Item (A : Type) := Compare : A → A → Z.
Class ItemLaws (A : Type) `{!Item A} : Prop := {
  Compare_refl (x : A) : Compare x x = 0;
  Compare_antisym (x y : A) : Compare x y < 0 ↔ 0 < Compare y x;
  Compare_trans (x y z : A) : Compare x y ≤ 0 → Compare y z ≤ 0 → Compare x z ≤ 0;
}.
Definition item_le {A} `{!Item A} (x y : A) : Prop := Compare x y ≤ 0.

Section items.
Context {A : Type} `{!Inhabited A} `{!Item A} `{!Sorter}.
(** [Less] of priorityItems and of orderedItems. *)
Definition ascending (x y : A) : bool := bool_decide (Compare x y < 0).
Definition descending (x y : A) : bool := bool_decide (0 < Compare x y).

(** ** priority_queue.go *)
Record PriorityQueue := mkPQ { pq_items : list A }.
Definition NewPriorityQueue (capHint : Z) : PriorityQueue := mkPQ [].
Definition PQ_Put (xs : list A) (pq : PriorityQueue) : PriorityQueue := mkPQ (foldl (λ h x, heap_Push ascending x h) (pq_items pq) xs).
Definition PQ_Get (pq : PriorityQueue) : option A * PriorityQueue :=
  match pq_items pq with
  | [] => (None, pq)
  | h => let '(x, h) := heap_Pop ascending h in (Some x, mkPQ h)
  end.
Fixpoint pop_n (n : nat) (h : list A) : list A * list A :=
  match n with
  | O => ([], h)
  | S n' => let '(x, h) := heap_Pop ascending h in let '(xs, h) := pop_n n' h in (x :: xs, h)
  end.
Definition PQ_BulkGet (number : Z) (pq : PriorityQueue) : list A * PriorityQueue :=
  if bool_decide (number < 1) then ([], pq)
  else if bool_decide (Z.of_nat (length (pq_items pq)) ≤ number) then (Sort ascending (pq_items pq), mkPQ [])
  else let '(xs, h) := pop_n (Z.to_nat number) (pq_items pq) in (xs, mkPQ h).
Definition PQ_Peek (pq : PriorityQueue) : option A := head (pq_items pq).
Definition PQ_Empty (pq : PriorityQueue) : bool := bool_decide (length (pq_items pq) = 0%nat).
Definition PQ_Len (pq : PriorityQueue) : Z := Z.of_nat (length (pq_items pq)).

(** ** ordered_array.go *)
Record OrderedArray := mkOA { oa_items : list A; oa_capacity : Z }.
Definition NewOrderedArray (capacity : Z) : outcome unit OrderedArray :=
  if bool_decide (capacity ≤ 0) then Err tt else Ok (mkOA [] capacity).
(** One item of [Put]; [items[0]] of no items panics. *)
Definition oa_put (x : A) (oa : OrderedArray) : outcome unit OrderedArray :=
  if bool_decide (oa_capacity oa ≤ Z.of_nat (length (oa_items oa))) then
    match oa_items oa with
    | [] => Panic
    | y :: h => if bool_decide (0 < Compare y x) then Ok (mkOA (heap_Fix descending 0 (x :: h)) (oa_capacity oa)) else Ok oa
    end
  else Ok (mkOA (heap_Push descending x (oa_items oa)) (oa_capacity oa)).
Fixpoint OA_Put (xs : list A) (oa : OrderedArray) : outcome unit OrderedArray :=
  match xs with [] => Ok oa | x :: xs' => let! oa := oa_put x oa in OA_Put xs' oa end.
(** [sort.Reverse] turns [Less] around. *)
Definition OA_Finalize (oa : OrderedArray) : list A * OrderedArray :=
  (Sort (λ x y, descending y x) (oa_items oa), mkOA [] (oa_capacity oa)).
Definition OA_Len (oa : OrderedArray) : Z := Z.of_nat (length (oa_items oa)).

Context `{!ItemLaws A}.
Lemma Compare_total (x y : A) : Compare x y ≤ 0 ∨ Compare y x ≤ 0.
Proof. pose proof (Compare_antisym x y). lia. Qed.
#[export] Instance ascending_order : PreOrderLess ascending.
Proof.
  unfold ascending. split.
  - intros x. rewrite Compare_refl. done.
  - intros x y z. rewrite !bool_decide_eq_false. pose proof (Compare_antisym y x). pose proof (Compare_antisym z y). pose proof (Compare_antisym z x).
    intros E1 E2. assert (Compare x z ≤ 0) by (apply (Compare_trans x y z); lia). lia.
  - intros x y. rewrite bool_decide_eq_true, bool_decide_eq_false. pose proof (Compare_antisym x y). lia.
Qed.
#[export] Instance descending_order : PreOrderLess descending.
Proof.
  unfold descending. split.
  - intros x. rewrite Compare_refl. done.
  - intros x y z. rewrite !bool_decide_eq_false. intros E1 E2. assert (Compare z x ≤ 0) by (apply (Compare_trans z y x); lia). lia.
  - intros x y. rewrite bool_decide_eq_true, bool_decide_eq_false. pose proof (Compare_antisym y x). lia.
Qed.
Lemma descending_flip x y : descending y x = ascending x y.
Proof. unfold descending, ascending. apply bool_decide_ext. symmetry. apply Compare_antisym. Qed.
Lemma le_ascending x y : le ascending x y ↔ item_le x y.
Proof. unfold le, ascending, item_le. rewrite bool_decide_eq_false. pose proof (Compare_antisym y x). lia. Qed.
Lemma le_descending x y : le descending x y ↔ item_le y x.
Proof. unfold le, descending, item_le. rewrite bool_decide_eq_false. lia. Qed.
#[export] Instance flipped_order : PreOrderLess (λ x y, descending y x).
Proof.
  split; intros *; rewrite !descending_flip.
  - apply (less_irrefl ascending).
  - apply (less_trans ascending).
  - apply (less_le ascending).
Qed.

(** *** The priority queue *)
Definition pq_ok (pq : PriorityQueue) : Prop := heap_ok ascending (length (pq_items pq)) (pq_items pq).
Lemma PQ_Put_ok xs : ∀ pq, pq_ok pq → pq_ok (PQ_Put xs pq) ∧ pq_items (PQ_Put xs pq) ≡ₚ xs ++ pq_items pq.
Proof.
  unfold PQ_Put. induction xs as [|x xs IH]; intros [h] Hok; cbn [foldl pq_items]; [done|].
  destruct (heap_Push_ok ascending x h Hok) as [Hok' Hp]. destruct (IH (mkPQ (heap_Push ascending x h)) Hok') as [? Hp']. split; [done|].
  cbn [pq_items] in Hp'. rewrite Hp', Hp. by rewrite <-Permutation_middle.
Qed.
Lemma pop_n_ok n : ∀ h, (n ≤ length h)%nat → heap_ok ascending (length h) h →
  heap_ok ascending (length (pop_n n h).2) (pop_n n h).2 ∧ h ≡ₚ (pop_n n h).1 ++ (pop_n n h).2 ∧ length (pop_n n h).1 = n ∧
  StronglySorted item_le (pop_n n h).1 ∧ Forall (λ x, Forall (item_le x) (pop_n n h).2) (pop_n n h).1.
Proof.
  induction n as [|n IH]; intros h Hn Hok; cbn [pop_n]; [split_and!; [done..|constructor|constructor]|].
  destruct (heap_Pop ascending h) as [x h1] eqn:Hpop. destruct (heap_Pop_ok ascending h x h1) as (Hok1 & Hp & Hmin); [by intros ->; simpl in Hn; lia|done|done|].
  assert (n ≤ length h1)%nat as Hn1 by (rewrite Hp in Hn; simpl in Hn; lia).
  destruct (IH h1 Hn1 Hok1) as (Hok2 & Hp2 & Hl2 & Hs2 & Hf2). destruct (pop_n n h1) as [xs h2]. cbn [fst snd] in *.
  assert (Forall (item_le x) h1) as Hle by (eapply Forall_impl; [exact Hmin|]; intros y; apply le_ascending).
  rewrite Hp2 in Hle. apply Forall_app in Hle as [Hle1 Hle2]. split_and!; [done|by rewrite Hp, Hp2|by rewrite <-Hl2|by constructor|by constructor].
Qed.
Lemma BulkGet_ok number pq : pq_ok pq → let '(xs, pq') := PQ_BulkGet number pq in
  pq_ok pq' ∧ pq_items pq ≡ₚ xs ++ pq_items pq' ∧ Z.of_nat (length xs) = Z.max 0 (Z.min number (PQ_Len pq)) ∧
  StronglySorted item_le xs ∧ Forall (λ x, Forall (item_le x) (pq_items pq')) xs.
Proof.
  intros Hok. unfold PQ_BulkGet, PQ_Len. case_bool_decide as Hn; [split_and!; [done|done|simpl; lia|constructor|constructor]|]. case_bool_decide as Hl.
  - cbn [pq_items]. rewrite app_nil_r. split_and!; [intros k Hk; simpl in Hk; lia|symmetry; apply Sort_perm|rewrite (Sort_perm ascending); lia| |apply Forall_true; constructor].
    eapply StronglySorted_impl; [|apply (Sort_sorted ascending)]. intros x y. apply le_ascending.
  - destruct (pop_n_ok (Z.to_nat number) (pq_items pq) ltac:(lia) Hok) as (? & ? & ? & ? & ?). destruct (pop_n _ _) as [xs h]. cbn [fst snd pq_items] in *.
    split_and!; [done|done|lia|done|done].
Qed.

(** *** The ordered array *)
(** It holds the smallest of the items put so far; [out] are the others. *)
Record oa_ok (oa : OrderedArray) (out : list A) : Prop := {
  oa_heap : heap_ok descending (length (oa_items oa)) (oa_items oa);
  oa_le : Forall (λ x, Forall (item_le x) out) (oa_items oa);
  oa_size : Z.of_nat (length (oa_items oa)) ≤ oa_capacity oa ∧ (out ≠ [] → Z.of_nat (length (oa_items oa)) = oa_capacity oa);
}.
Lemma oa_put_ok x oa out : 0 < oa_capacity oa → oa_ok oa out →
  ∃ oa' out', oa_put x oa = Ok oa' ∧ oa_capacity oa' = oa_capacity oa ∧ oa_ok oa' out' ∧ oa_items oa' ++ out' ≡ₚ x :: oa_items oa ++ out.
Proof.
  intros Hc [Hh Hle [Hs Hf]]. unfold oa_put. destruct oa as [h c]. cbn [oa_items oa_capacity] in *. case_bool_decide as Hfull.
  - destruct h as [|y h]; [simpl in Hfull; lia|]. assert (∀ z, z ∈ y :: h → item_le z y) as Hmax.
    { intros z [k Hk]%list_elem_of_lookup. pose proof (heap_root descending _ (y :: h) k Hh ltac:(by eapply lookup_lt_Some)) as Hr.
      rewrite (list_lookup_total_correct _ _ _ Hk) in Hr. by apply le_descending. }
    case_bool_decide as Hcmp.
    + destruct (heap_Fix_ok descending y x h Hh) as [Hok Hp]. exists (mkOA (heap_Fix descending 0 (x :: h)) c), (y :: out).
      assert (item_le x y) as Hxy by (unfold item_le; pose proof (Compare_antisym x y); lia).
      inversion_clear Hle as [|?? Hy Hle']. split_and!; [done|done| |cbn [oa_items]; rewrite Hp; simpl; constructor; symmetry; apply Permutation_middle].
      split; cbn [oa_items oa_capacity].
      * rewrite (Permutation_length Hp). exact Hok.
      * rewrite Hp. constructor; [constructor; [done|]|].
        -- eapply Forall_impl; [exact Hy|]. intros z Hz. by eapply Compare_trans.
        -- rewrite Forall_forall in *. intros z Hz. constructor; [apply Hmax; by right|by apply Hle'].
      * rewrite (Permutation_length Hp). simpl in *. split; [lia|]. intros _. lia.
    + exists (mkOA (y :: h) c), (x :: out). split_and!; [done|done| |cbn [oa_items]; by rewrite <-Permutation_middle]. split; cbn [oa_items oa_capacity]; [done| |split; [done|lia]].
      rewrite Forall_forall in *. intros z Hz. constructor; [|by apply Hle]. eapply Compare_trans; [by apply Hmax|]. lia.
  - destruct (heap_Push_ok descending x h Hh) as [Hok Hp]. assert (out = []) as -> by (destruct out; [done|]; specialize (Hf ltac:(done)); lia).
    exists (mkOA (heap_Push descending x h) c), []. cbn [oa_items oa_capacity]. rewrite !app_nil_r. split_and!; [done|done| |done].
    split; cbn [oa_items oa_capacity]; [done|apply Forall_true; constructor|]. rewrite (Permutation_length Hp). simpl. split; [lia|done].
Qed.
Lemma OA_Put_ok xs : ∀ oa out, 0 < oa_capacity oa → oa_ok oa out →
  ∃ oa' out', OA_Put xs oa = Ok oa' ∧ oa_capacity oa' = oa_capacity oa ∧ oa_ok oa' out' ∧ oa_items oa' ++ out' ≡ₚ xs ++ oa_items oa ++ out.
Proof.
  induction xs as [|x xs IH]; intros oa out Hc Hok; cbn [OA_Put]; [by exists oa, out|].
  destruct (oa_put_ok x oa out Hc Hok) as (oa1 & out1 & -> & Hc1 & Hok1 & Hp1). cbn [outcome_bind]. rewrite <-Hc1 in Hc.
  destruct (IH oa1 out1 Hc Hok1) as (oa2 & out2 & -> & Hc2 & Hok2 & Hp2). exists oa2, out2. split_and!; [done|congruence|done|].
  rewrite Hp2, Hp1. simpl. symmetry. apply Permutation_middle.
Qed.

(** An ordered array answers which are the smallest of any number of items:
    whatever is put in, in whatever order, it hands out as many items as it has
    room for, or all of them if there are fewer, in ascending order, every item it
    has left out is at least as large as each of them, and it is empty again. *)
Theorem ordered_array_keeps_smallest capacity (given : list A) : 0 < capacity →
  ∃ oa0 oa xs out, NewOrderedArray capacity = Ok oa0 ∧ OA_Put given oa0 = Ok oa ∧ OA_Finalize oa = (xs, oa0) ∧
    xs ++ out ≡ₚ given ∧ Z.of_nat (length xs) = Z.min capacity (Z.of_nat (length given)) ∧
    StronglySorted item_le xs ∧ Forall (λ x, Forall (item_le x) out) xs.
Proof.
  intros Hc. unfold NewOrderedArray. rewrite bool_decide_eq_false_2 by lia. assert (oa_ok (mkOA [] capacity) []) as Hok0.
  { split; cbn [oa_items oa_capacity]; [intros k Hk; simpl in Hk; lia|constructor|simpl; split; [lia|done]]. }
  destruct (OA_Put_ok given (mkOA [] capacity) [] Hc Hok0) as (oa & out & Hput & Hcap & [Hh Hle [Hs Hf]] & Hp). cbn [oa_items oa_capacity] in *. rewrite !app_nil_r in Hp.
  exists (mkOA [] capacity), oa, (Sort (λ x y, descending y x) (oa_items oa)), out. unfold OA_Finalize. rewrite Hcap.
  split_and!; [done|done|done|by rewrite Sort_perm| | |by rewrite Sort_perm].
  - rewrite (Sort_perm (λ x y, descending y x)), <-Hp, length_app. destruct out as [|y out]; [simpl; lia|]. specialize (Hf ltac:(done)). lia.
  - eapply StronglySorted_impl; [|apply (Sort_sorted (λ x y, descending y x))]. intros x y. unfold le. rewrite descending_flip. apply le_ascending.
Qed.
End items.

(** ** Integers as items *)
#[export] Instance int_item : Item Z := λ x y, x - y.
#[export] Instance int_item_laws : ItemLaws Z.
Proof. split; unfold Compare, int_item; lia. Qed.
#[local] Instance merge_sorter : Sorter.
Proof.
  assert (∀ A (less : A → A → bool), ∀ x y, Decision (le less x y)) as Hd by (intros; unfold le; solve_decision).
  refine {| Sort A less l := @merge_sort _ (le less) (Hd A less) l |}.
  - intros. apply merge_sort_Permutation.
  - intros A less Ho l. assert (Transitive (le less)) by (intros x y z; unfold le; apply (less_trans less)).
    assert (Total (le less)) by (intros x y; unfold le; destruct (less y x) eqn:E; [right; by apply (less_le less)|by left]). apply (StronglySorted_merge_sort (le less)).
Defined.
Lemma ordered_array_keeps_smallest_witness :
  ∃ oa0 oa xs, NewOrderedArray 2 = Ok oa0 ∧ OA_Put [5; 3; 8; 1] oa0 = Ok oa ∧ OA_Finalize oa = (xs, oa0) ∧ length xs = 2%nat.
Proof.
  destruct (ordered_array_keeps_smallest 2 [5; 3; 8; 1] ltac:(lia)) as (oa0 & oa & xs & out & E1 & E2 & E3 & _ & E4 & _).
  exists oa0, oa, xs. split_and!; [exact E1|exact E2|exact E3|]. change (Z.min 2 (Z.of_nat (length [5; 3; 8; 1]))) with 2 in E4. lia.
Defined.
