(* ===== verification/Files.v ===== *)
(** * Files

    What pkg/raftstore/snap.go, pkg/util/compress.go and the memory engine of
    pkg/storage use of the file system: paths are byte strings, a directory
    exists when it was made or has something below it, every call of the system
    may fail ([d_faults]), and a write that fails may have written a part. *)

From S2P Require Import Prelude.

Inductive node := FDir | FFile (data : bytes).
(** The files, and the faults of the next calls: [Some n] fails, a write after [n]
    bytes, a removal after [n] entries. *)
Record disk := mkDisk { d_files : gmap bytes node; d_faults : list (option nat) }.
Inductive io_error := EIO | ENoEnt | EArchive | EMissing | ESize | EIndexer.
Definition io (A : Type) : Type := disk → outcome io_error A * disk.
#[export] Instance io_ret : MRet io := λ A a d, (Ok a, d).
#[export] Instance io_bind : MBind io := λ A B f m d,
  match m d with (Ok a, d') => f a d' | (Err e, d') => (Err e, d') | (Panic, d') => (Panic, d') end.
Definition io_fail {A} (e : io_error) : io A := λ d, (Err e, d).
(** The error of a call that is dropped. *)
Definition ignore (m : io unit) : io unit := λ d, match m d with (Err _, d') => (Ok tt, d') | r => r end.
(** [defer]: a call whose result does not matter is made at the end. *)
Definition deferred {A} (cleanup : io unit) (m : io A) : io A := λ d, let '(r, d) := m d in (r, (cleanup d).2).

(** A call that does something or fails. *)
Definition syscall {A} (op : gmap bytes node → outcome io_error A * gmap bytes node) : io A := λ d,
  match d_faults d with
  | Some _ :: fs => (Err EIO, mkDisk (d_files d) fs)
  | fs => let '(r, files) := op (d_files d) in (r, mkDisk files (tail fs))
  end.

(** ** Paths *)
Definition slash : byte := x2f.
Definition join (p name : bytes) : bytes := p ++ slash :: name.
(** What is below a directory, and its path from there. *)
Definition strip (p q : bytes) : option bytes :=
  if bool_decide (take (S (length p)) q = p ++ [slash]) then Some (drop (S (length p)) q) else None.
Definition within (p q : bytes) : Prop := q = p ∨ is_Some (strip p q).
#[export] Instance within_dec p q : Decision (within p q).
Proof. unfold within. apply _. Defined.
(** The last component of a path, and the first one. *)
Fixpoint base (p : bytes) (acc : bytes) : bytes :=
  match p with [] => acc | c :: p' => if decide (c = slash) then base p' [] else base p' (acc ++ [c]) end.
Fixpoint first_component (p : bytes) : bytes :=
  match p with [] => [] | c :: p' => if decide (c = slash) then [] else c :: first_component p' end.

(** ** os *)
Definition present (p : bytes) (fs : gmap bytes node) : bool := existsb (λ '(q, _), bool_decide (within p q)) (map_to_list fs).
Definition exist (p : bytes) : io bool := λ d,
  match syscall (λ fs, (Ok (present p fs), fs)) d with (Ok b, d') => (Ok b, d') | (_, d') => (Ok false, d') end.
Definition ReadFile (p : bytes) : io bytes :=
  syscall (λ fs, (match fs !! p with Some (FFile b) => Ok b | _ => Err ENoEnt end, fs)).
Definition Stat_Size (p : bytes) : io Z := b ← ReadFile p; mret (Z.of_nat (length b)).
Definition MkdirAll (p : bytes) : io unit := syscall (λ fs, (Ok tt, if present p fs then fs else <[p := FDir]> fs)).
Definition Create_file (p : bytes) : io unit := syscall (λ fs, (Ok tt, <[p := FFile []]> fs)).
Definition append (p data : bytes) (fs : gmap bytes node) : gmap bytes node :=
  match fs !! p with Some (FFile b) => <[p := FFile (b ++ data)]> fs | _ => fs end.
Definition Write_file (p data : bytes) : io unit := λ d,
  match d_faults d with
  | Some n :: fs => (Err EIO, mkDisk (append p (take n data) (d_files d)) fs)
  | fs => (Ok tt, mkDisk (append p data (d_files d)) (tail fs))
  end.
Definition Rename (p q : bytes) : io unit :=
  syscall (λ fs, match fs !! p with Some n => (Ok tt, <[q := n]> (delete p fs)) | None => (Err ENoEnt, fs) end).
Definition remove_all (p : bytes) (fs : gmap bytes node) : gmap bytes node := filter (λ '(q, _), ¬ within p q) fs.
Definition RemoveAll (p : bytes) : io unit := λ d,
  match d_faults d with
  | Some n :: fs =>
      (Err EIO, mkDisk (foldr delete (d_files d) (take n (filter (within p) (map_to_list (d_files d)).*1))) fs)
  | fs => (Ok tt, mkDisk (remove_all p (d_files d)) (tail fs))
  end.
(** The entries of a directory. *)
Definition Readdirnames (p : bytes) : io (list bytes) :=
  syscall (λ fs, (Ok (remove_dups (omap (λ '(q, _), first_component <$> strip p q) (map_to_list fs))), fs)).

(** ** compress.go *)
(** The formats of archive/tar and compress/gzip: what is written while the files
    are copied and what is flushed when the writers are closed; how far the files
    of an archive can be read, and whether its end was reached.  An archive is never
    empty: gzip writes a header. *)
Class Archive := {
  pack : list (bytes * bytes) → bytes * bytes;
  unpack : bytes → list (bytes * bytes) * bool;
  unpack_pack l : unpack ((pack l).1 ++ (pack l).2) = (l, true);
  pack_header l : (pack l).1 ++ (pack l).2 ≠ [];
}.
Section compress.
Context `{!Archive}.
Definition gz : bytes := [x2e; x67; x7a].
(** [compress]: the files below a path, named from its last component on. *)
Definition packed_files (path : bytes) (fs : gmap bytes node) : list (bytes * bytes) :=
  omap (λ '(q, n), match n, strip path q with FFile b, Some r => Some (slash :: join (base path []) r, b) | _, _ => None end) (map_to_list fs).
(** The error of [os.Create] is dropped: a file that could not be created is found out
    by the first write.  The writers are flushed by deferred [Close] calls, whose
    errors are dropped. *)
Definition write_archive (dest : bytes) (l : list (bytes * bytes)) : io unit := λ d,
  match Create_file dest d with
  | (Ok _, d) => let '(body, rest) := pack l in deferred (Write_file dest rest) (Write_file dest body) d
  | (_, d) => (if bool_decide (l = []) then Ok tt else Err EIO, d)
  end.
Definition GZIP (path : bytes) : io unit :=
  found ← syscall (λ fs, (Ok (present path fs), fs));
  if negb found then io_fail ENoEnt
  else l ← syscall (λ fs, (Ok (packed_files path fs), fs)); write_archive (path ++ gz) l.
(** The error of [io.Copy] is dropped. *)
Fixpoint extract (dest : bytes) (l : list (bytes * bytes)) : io unit :=
  match l with
  | [] => mret tt
  | (name, data) :: l' => Create_file (dest ++ name);; ignore (Write_file (dest ++ name) data);; extract dest l'
  end.
Definition UnGZIP (file dest : bytes) : io unit :=
  data ← ReadFile file;
  let '(l, complete) := unpack data in
  extract dest l;;
  if (complete : bool) then mret tt else io_fail EArchive.
End compress.

(** ** Without faults *)
Definition calm (fs : gmap bytes node) : disk := mkDisk fs [].
Lemma bind_ok {A B} (m : io A) (f : A → io B) d a d' : m d = (Ok a, d') → (m ≫= f) d = f a d'.
Proof. intros Hm. unfold mbind, io_bind. by rewrite Hm. Qed.
Lemma bind_err {A B} (m : io A) (f : A → io B) d e d' : m d = (Err e, d') → (m ≫= f) d = (Err e, d').
Proof. intros Hm. unfold mbind, io_bind. by rewrite Hm. Qed.
Lemma exist_calm p fs : exist p (calm fs) = (Ok (present p fs), calm fs).
Proof. done. Qed.
Lemma ReadFile_calm p fs b : fs !! p = Some (FFile b) → ReadFile p (calm fs) = (Ok b, calm fs).
Proof. intros Hp. unfold ReadFile, syscall. simpl. by rewrite Hp. Qed.
Lemma Stat_Size_calm p fs b : fs !! p = Some (FFile b) → Stat_Size p (calm fs) = (Ok (Z.of_nat (length b)), calm fs).
Proof. intros Hp. unfold Stat_Size. by rewrite (bind_ok _ _ _ _ _ (ReadFile_calm _ _ _ Hp)). Qed.
Lemma RemoveAll_calm p fs : RemoveAll p (calm fs) = (Ok tt, calm (remove_all p fs)).
Proof. done. Qed.
Lemma strip_join p r : strip p (join p r) = Some r.
Proof.
  unfold strip, join. replace (p ++ slash :: r) with ((p ++ [slash]) ++ r) by (by rewrite <-(assoc_L (++))).
  assert (length (p ++ [slash]) = S (length p)) as Hl by (rewrite length_app; simpl; lia). rewrite <-Hl, take_app_length, drop_app_length. by rewrite bool_decide_eq_true_2.
Qed.
Lemma strip_Some p q r : strip p q = Some r ↔ q = join p r.
Proof.
  split; [|intros ->; apply strip_join]. unfold strip. case_bool_decide as Ht; [|done]. intros [= <-].
  rewrite <-(take_drop (S (length p)) q) at 1. rewrite Ht. unfold join. by rewrite <-(assoc_L (++)).
Qed.
Lemma within_spec p q : within p q ↔ q = p ∨ ∃ r, q = join p r.
Proof. unfold within, is_Some. setoid_rewrite strip_Some. done. Qed.
Lemma present_spec p fs : present p fs = true ↔ ∃ q, is_Some (fs !! q) ∧ within p q.
Proof.
  unfold present. rewrite existsb_exists. split.
  - intros ([q n] & Hin%list_elem_of_In%elem_of_map_to_list & Hw%bool_decide_eq_true). eauto.
  - intros (q & [n Hn] & Hw). exists (q, n). split; [by apply list_elem_of_In, elem_of_map_to_list|by apply bool_decide_eq_true_2].
Qed.
Lemma present_false p fs : (∀ q, within p q → fs !! q = None) → present p fs = false.
Proof. intros Hn. apply not_true_iff_false. intros (q & [n Hq] & Hw)%present_spec. by rewrite (Hn q Hw) in Hq. Qed.
Lemma base_app l : ∀ acc key, slash ∉ key → base (l ++ slash :: key) acc = key.
Proof.
  assert (∀ key acc, slash ∉ key → base key acc = acc ++ key) as Hb.
  { induction key as [|c key IH]; intros acc Hn; cbn [base]; [by rewrite app_nil_r|]. apply not_elem_of_cons in Hn as [Hc Hn].
    rewrite decide_False by done. rewrite IH by done. by rewrite <-(assoc_L (++)). }
  induction l as [|c l IH]; intros acc key Hn; cbn [base app]; [rewrite decide_True by done; by rewrite Hb|]. case_decide; by apply IH.
Qed.
Lemma base_join dir key : slash ∉ key → base (join dir key) [] = key.
Proof. apply base_app. Qed.
Lemma first_component_plain p : slash ∉ p → first_component p = p.
Proof. induction p as [|c p IH]; intros Hn; [done|]. apply not_elem_of_cons in Hn as [Hc Hn]. cbn [first_component]. by rewrite decide_False, IH. Qed.
Lemma first_component_join p r : slash ∉ p → first_component (join p r) = p.
Proof. unfold join. induction p as [|c p IH]; intros Hn; cbn [first_component app]; [by rewrite decide_True|]. apply not_elem_of_cons in Hn as [Hc Hn]. by rewrite decide_False, IH. Qed.
Lemma remove_all_lookup p fs q : remove_all p fs !! q = if decide (within p q) then None else fs !! q.
Proof.
  unfold remove_all. case_decide as Hw.
  - apply map_lookup_filter_None. right. intros n _. tauto.
  - destruct (fs !! q) as [n|] eqn:Hq; [by apply map_lookup_filter_Some|apply map_lookup_filter_None; by left].
Qed.
Lemma append_file p data fs b : fs !! p = Some (FFile b) → append p data fs = <[p := FFile (b ++ data)]> fs.
Proof. intros Hp. unfold append. by rewrite Hp. Qed.

Section packing.
Context `{!Archive}.
Lemma packed_files_elem path fs name data : (name, data) ∈ packed_files path fs ↔
  ∃ r, name = slash :: join (base path []) r ∧ fs !! (join path r) = Some (FFile data).
Proof.
  unfold packed_files. rewrite list_elem_of_omap. split.
  - intros ([q n] & Hin%elem_of_map_to_list & Hq). destruct n as [|b]; [done|]. destruct (strip path q) as [r|] eqn:Hr; [|done].
    injection Hq as <- <-. apply strip_Some in Hr as ->. eauto.
  - intros (r & -> & Hf). exists (join path r, FFile data). split; [by apply elem_of_map_to_list|]. by rewrite strip_join.
Qed.
Lemma join_inj p r r' : join p r = join p r' → r = r'.
Proof. unfold join. intros Heq%app_inv_head. by injection Heq. Qed.
Lemma packed_files_nodup path fs : NoDup (packed_files path fs).*1.
Proof.
  unfold packed_files. pose proof (NoDup_fst_map_to_list fs) as Hnd. induction (map_to_list fs) as [|[q n] l IH]; simpl; [constructor|].
  apply NoDup_cons in Hnd as [Hq Hnd]. specialize (IH Hnd). destruct n as [|b]; [done|]. destruct (strip path q) as [r|] eqn:Hr; [|done].
  simpl. apply NoDup_cons. split; [|done]. intros ([nm b'] & Hn & Hin)%list_elem_of_fmap. simpl in Hn. subst nm.
  apply list_elem_of_omap in Hin as ([q' n'] & Hin & Hq'). destruct n' as [|b2]; [done|]. destruct (strip path q') as [r'|] eqn:Hr'; [|done].
  injection Hq' as Heq _. apply join_inj in Heq as ->. apply strip_Some in Hr as ->. apply strip_Some in Hr' as ->.
  apply Hq. apply list_elem_of_fmap. by exists (join path r, FFile b2).
Qed.
(** Packing a directory that exists leaves everything else alone. *)
Lemma GZIP_calm path fs : present path fs = true → ∃ data,
  GZIP path (calm fs) = (Ok tt, calm (<[path ++ gz := FFile data]> fs)) ∧ unpack data = (packed_files path fs, true) ∧ data ≠ [].
Proof.
  intros Hp. pose proof (unpack_pack (packed_files path fs)) as Hu. pose proof (pack_header (packed_files path fs)) as Hh.
  destruct (pack (packed_files path fs)) as [body rest] eqn:Hpk. exists (body ++ rest). split; [|done].
  unfold GZIP, write_archive, mbind, io_bind, Create_file, syscall, calm. cbn [d_faults d_files tail]. rewrite Hp. cbn [negb d_faults d_files tail]. rewrite Hpk.
  unfold deferred, Write_file. cbn [d_faults d_files tail snd]. rewrite (append_file _ body _ []) by (by rewrite lookup_insert_eq).
  rewrite app_nil_l, (append_file _ rest _ body) by (by rewrite lookup_insert_eq). by rewrite !insert_insert_eq.
Qed.
(** The files of an archive at their places. *)
Definition placed (dest : bytes) (l : list (bytes * bytes)) (fs : gmap bytes node) : gmap bytes node :=
  foldl (λ fs '(name, data), <[dest ++ name := FFile data]> fs) fs l.
Lemma extract_calm dest l : ∀ fs, extract dest l (calm fs) = (Ok tt, calm (placed dest l fs)).
Proof.
  induction l as [|[name data] l IH]; intros fs; [done|]. cbn [extract]. unfold mbind, io_bind at 1, Create_file, syscall, calm at 1. cbn [d_faults d_files tail].
  unfold io_bind at 1, ignore, Write_file. cbn [d_faults d_files tail]. rewrite append_file with (b := []) by (by rewrite lookup_insert_eq).
  rewrite insert_insert_eq. apply IH.
Qed.
Lemma placed_lookup dest l : ∀ fs q, NoDup l.*1 →
  (∀ name data, (name, data) ∈ l → q = dest ++ name → placed dest l fs !! q = Some (FFile data)) ∧
  ((∀ name, q = dest ++ name → name ∉ l.*1) → placed dest l fs !! q = fs !! q).
Proof.
  induction l as [|[name data] l IH]; intros fs q Hnd; simpl; [split; [by intros ?? ?%elem_of_nil|done]|].
  simpl in Hnd. apply NoDup_cons in Hnd as [Hn Hnd]. destruct (IH (<[dest ++ name := FFile data]> fs) q Hnd) as [H1 H2]. split.
  - intros nm d [[= -> ->]|Hin]%elem_of_cons ->; [|by eapply H1]. rewrite H2; [by rewrite lookup_insert_eq|]. intros nm Heq. apply app_inv_head in Heq as <-. done.
  - intros Hnot. rewrite H2 by (intros nm Heq; specialize (Hnot nm Heq); by apply not_elem_of_cons in Hnot as [_ ?]).
    rewrite lookup_insert_ne; [done|]. intros Heq. destruct (Hnot name (eq_sym Heq)). apply elem_of_cons. by left.
Qed.
Lemma UnGZIP_calm file dest fs data l : fs !! file = Some (FFile data) → unpack data = (l, true) →
  UnGZIP file dest (calm fs) = (Ok tt, calm (placed dest l fs)).
Proof.
  intros Hf Hu. unfold UnGZIP. rewrite (bind_ok _ _ _ _ _ (ReadFile_calm _ _ _ Hf)), Hu. by rewrite (bind_ok _ _ _ _ _ (extract_calm _ _ _)).
Qed.
End packing.
