(* ===== verification/IdAlloc.v ===== *)
(** * The id allocator (pkg/pdserver/alloc.go, store_id.go)

    PD hands out store, cell and peer ids in batches of 1000 reserved in etcd
    with a compare-and-swap on the persisted counter, guarded by the leader key.
    The first part translates the functions; the second runs any number of PD
    servers against one etcd, with reads and transactions interleaving, lost
    replies, leader changes and restarts, and shows that no id is ever handed
    out twice. *)

From S2P Require Import Prelude Encoding.

(** ** The etcd keys involved, and transactions *)
Record etcd := mkEtcd { leader_key : option string; id_key : option bytes }.

Inductive alloc_error :=
  | errMaybeNotLeader
  | ErrEtcd
  | ErrDecode (e : encoding_error).

(** What the network does to one request: it is answered, it is lost before
    etcd sees it, or it is applied and the reply is lost. *)
Inductive net := NetOk | NetLost | NetReplyLost.

Definition leaderCmp (sig : string) (st : etcd) : bool := bool_decide (leader_key st = Some sig).

(** [leaderTxn(sig, cmp).Then(OpPut(pdIDPath, value)).Commit()] *)
Definition leaderTxn_put (n : net) (sig : string) (cmp : etcd → bool) (value : Z) (st : etcd)
  : outcome alloc_error bool * etcd :=
  let succeeded := cmp st && leaderCmp sig st in
  let st' := if succeeded then mkEtcd (leader_key st) (Some (Uint64ToBytes value)) else st in
  match n with
  | NetOk => (Ok succeeded, st')
  | NetLost => (Err ErrEtcd, st)
  | NetReplyLost => (Err ErrEtcd, st')
  end.

Definition GetID (n : net) (st : etcd) : outcome alloc_error Z :=
  match n with
  | NetOk =>
      match id_key st with
      | None => Ok 0
      | Some b => match BytesToUint64 b with
                  | Ok v => Ok v
                  | Err e => Err (ErrDecode e)
                  | Panic => Panic
                  end
      end
  | _ => Err ErrEtcd
  end.

Definition txn_result (r : outcome alloc_error bool) : outcome alloc_error unit :=
  let! succeeded := r in
  if succeeded : bool then Ok tt else Err errMaybeNotLeader.

Definition CreateID (n : net) (sig : string) (value : Z) (st : etcd) : outcome alloc_error unit * etcd :=
  let '(r, st') := leaderTxn_put n sig (λ st, bool_decide (id_key st = None)) value st in
  (txn_result r, st').

Definition UpdateID (n : net) (sig : string) (old value : Z) (st : etcd)
  : outcome alloc_error unit * etcd :=
  let '(r, st') :=
    leaderTxn_put n sig (λ st, bool_decide (id_key st = Some (Uint64ToBytes old))) value st in
  (txn_result r, st').

(** ** The allocator *)
Definition batch : Z := 1000.
Record idAllocator := mkIdAllocator { base : Z; end_ : Z }.
Definition newIDAllocator : idAllocator := mkIdAllocator 0 0.

(** The second half of [generate], after the counter has been read. *)
Definition generate_write (n : net) (sig : string) (value : Z) (st : etcd)
  : outcome alloc_error Z * etcd :=
  let max := u64 (value + batch) in
  let '(r, st') :=
    if decide (value = 0) then CreateID n sig max st else UpdateID n sig value max st in
  (let! _ := r in Ok max, st').

Definition generate (n1 n2 : net) (sig : string) (st : etcd) : outcome alloc_error Z * etcd :=
  match GetID n1 st with
  | Ok value => generate_write n2 sig value st
  | Err e => (Err e, st)
  | Panic => (Panic, st)
  end.

(** Taking the next id of the current batch, and starting a new batch. *)
Definition take_next (a : idAllocator) : Z * idAllocator :=
  let b := u64 (base a + 1) in (b, mkIdAllocator b (end_ a)).
Definition start_batch (e : Z) : idAllocator := mkIdAllocator (u64 (e - batch)) e.

Definition newID (n1 n2 : net) (sig : string) (a : idAllocator) (st : etcd)
  : outcome alloc_error Z * idAllocator * etcd :=
  if decide (base a = end_ a) then
    match generate n1 n2 sig st with
    | (Ok e, st') => let '(id, a') := take_next (start_batch e) in (Ok id, a', st')
    | (Err e, st') => (Err e, a, st')
    | (Panic, st') => (Panic, a, st')
    end
  else let '(id, a') := take_next a in (Ok id, a', st).

(** ** Several PD servers, one etcd

    Each server runs [newID] under its own mutex; between the read and the
    write of [generate] the other servers may run.  [issued] collects every id
    returned to a caller. *)
Record server := mkServer { alloc : idAllocator; reading : option Z }.
Record system := mkSystem { sys_etcd : etcd; servers : gmap nat server; issued : list Z }.

Definition fresh_server : server := mkServer newIDAllocator None.

Inductive step : system → system → Prop :=
  | step_fast st ss l i a id a' :
      ss !! i = Some (mkServer a None) → base a ≠ end_ a → take_next a = (id, a') →
      step (mkSystem st ss l) (mkSystem st (<[i := mkServer a' None]> ss) (id :: l))
  | step_read st ss l i a n v :
      ss !! i = Some (mkServer a None) → base a = end_ a → GetID n st = Ok v →
      step (mkSystem st ss l) (mkSystem st (<[i := mkServer a (Some v)]> ss) l)
  | step_write_ok st st' ss l i a sig n v e id a' :
      ss !! i = Some (mkServer a (Some v)) →
      generate_write n sig v st = (Ok e, st') → take_next (start_batch e) = (id, a') →
      step (mkSystem st ss l) (mkSystem st' (<[i := mkServer a' None]> ss) (id :: l))
  | step_write_err st st' ss l i a sig n v err :
      ss !! i = Some (mkServer a (Some v)) →
      generate_write n sig v st = (Err err, st') →
      step (mkSystem st ss l) (mkSystem st' (<[i := mkServer a None]> ss) l)
  | step_leader st ss l leader :
      step (mkSystem st ss l) (mkSystem (mkEtcd leader (id_key st)) ss l)
  | step_restart st ss l i :
      step (mkSystem st ss l) (mkSystem st (<[i := fresh_server]> ss) l).

Definition initial (s : system) : Prop :=
  id_key (sys_etcd s) = None ∧ servers s = ∅ ∧ issued s = [].

(** ** The invariant *)
#[local] Arguments Z.of_nat : simpl never.

(** The persisted counter. *)
Definition persisted (st : etcd) : Z :=
  match id_key st with Some b => be_decode b | None => 0 end.

Definition reserved (sv : server) (id : Z) : Prop := base (alloc sv) < id ≤ end_ (alloc sv).

Record alloc_inv (n : nat) (s : system) : Prop := {
  inv_key : ∀ b, id_key (sys_etcd s) = Some b → b = Uint64ToBytes (persisted (sys_etcd s));
  inv_bound : 0 ≤ persisted (sys_etcd s) ≤ batch * Z.of_nat n;
  inv_server : ∀ i sv, servers s !! i = Some sv →
    0 ≤ base (alloc sv) ≤ end_ (alloc sv) ∧ end_ (alloc sv) ≤ persisted (sys_etcd s);
  inv_reading : ∀ i sv v, servers s !! i = Some sv → reading sv = Some v →
    0 ≤ v ≤ persisted (sys_etcd s) ∧ base (alloc sv) = end_ (alloc sv);
  inv_disjoint : ∀ i j si sj id, servers s !! i = Some si → servers s !! j = Some sj →
    reserved si id → reserved sj id → i = j;
  inv_issued : ∀ i sv id, servers s !! i = Some sv → id ∈ issued s → ¬ reserved sv id;
  inv_issued_bound : ∀ id, id ∈ issued s → id ≤ persisted (sys_etcd s);
  inv_nodup : NoDup (issued s);
}.

(** What a write of [generate] does to etcd, whatever the network does. *)
Lemma generate_write_etcd n sig v st r st' :
  generate_write n sig v st = (r, st') → 0 ≤ v → v + batch < two64 →
  (∀ b, id_key st = Some b → b = Uint64ToBytes (persisted st)) → persisted st < two64 → 0 ≤ persisted st →
  (r = Ok (v + batch) ∧ persisted st = v ∧ id_key st' = Some (Uint64ToBytes (v + batch)) ∧
   leader_key st = Some sig) ∨
  ((∀ e, r ≠ Ok e) ∧ r ≠ Panic ∧
   (st' = st ∨ persisted st = v ∧ id_key st' = Some (Uint64ToBytes (v + batch)))).
Proof.
  intros Hg Hv Hmax Hkey Hp Hp0. unfold generate_write, CreateID, UpdateID, leaderTxn_put in Hg.
  rewrite u64_small in Hg by (unfold is_u64, batch in *; lia).
  assert (∀ o : option bytes, id_key st = o → o = None ∧ v = 0 ∨ o = Some (Uint64ToBytes v) →
    persisted st = v) as Hpers.
  { intros o <- [[E ->]|E]; unfold persisted; rewrite E; [done|].
    apply be_decode_PutUint64. unfold is_u64, batch in *; lia. }
  destruct (decide (v = 0)) as [->|Hnz]; simpl in Hg.
  - destruct (bool_decide (id_key st = None)) eqn:E1; [apply bool_decide_eq_true in E1|];
      destruct (leaderCmp sig st) eqn:E2; try apply bool_decide_eq_true in E2; destruct n; simpl in Hg; simplify_eq/=; naive_solver.
  - destruct (bool_decide (id_key st = Some (Uint64ToBytes v))) eqn:E1; [apply bool_decide_eq_true in E1|];
      destruct (leaderCmp sig st) eqn:E2; try apply bool_decide_eq_true in E2; destruct n; simpl in Hg; simplify_eq/=; naive_solver.
Qed.

(** Ids a server may still hand out: above the old counter, or already its own. *)
Definition fresh_for (st : etcd) (ss : gmap nat server) (i : nat) (id : Z) : Prop :=
  persisted st < id ∨ ∃ sv, ss !! i = Some sv ∧ reserved sv id.

Lemma alloc_inv_update n st ss l st' i sv' l' :
  alloc_inv n (mkSystem st ss l) →
  (∀ b, id_key st' = Some b → b = Uint64ToBytes (persisted st')) →
  persisted st ≤ persisted st' ≤ batch * Z.of_nat (S n) →
  0 ≤ base (alloc sv') ≤ end_ (alloc sv') ∧ end_ (alloc sv') ≤ persisted st' →
  (∀ v, reading sv' = Some v → 0 ≤ v ≤ persisted st' ∧ base (alloc sv') = end_ (alloc sv')) →
  (∀ id, reserved sv' id → fresh_for st ss i id) →
  l' = l ∨ (∃ id, l' = id :: l ∧ id ≤ persisted st' ∧ ¬ reserved sv' id ∧ fresh_for st ss i id) →
  alloc_inv (S n) (mkSystem st' (<[i := sv']> ss) l').
Proof.
  intros [Hk Hb Hs Hr Hd Hi Hib Hn] Hk' Hp Hsv Hrd Hfresh Hl'; simpl in *.
  assert (∀ j sv id, j ≠ i → ss !! j = Some sv → reserved sv id → ¬ fresh_for st ss i id) as Hother.
  { intros j sv id Hji Hj Hres [Hlt|(svi & Hsvi & Hresi)].
    - destruct (Hs _ _ Hj). unfold reserved in Hres. lia.
    - by destruct (Hji (Hd _ _ _ _ _ Hj Hsvi Hres Hresi)). }
  assert (∀ id, id ∈ l → ¬ fresh_for st ss i id) as Hissued.
  { intros id Hid [Hlt|(svi & Hsvi & Hresi)]; [specialize (Hib _ Hid); lia|]. by eapply Hi. }
  split; simpl.
  - done.
  - lia.
  - intros j sv [[<- <-]|[Hne Hj]]%lookup_insert_Some; [done|].
    destruct (Hs _ _ Hj). lia.
  - intros j sv v [[<- <-]|[Hne Hj]]%lookup_insert_Some Hv; [auto|].
    destruct (Hr _ _ _ Hj Hv). lia.
  - intros j k sj sk id [[<- <-]|[Hj Hsj]]%lookup_insert_Some [[<- <-]|[Hk2 Hsk]]%lookup_insert_Some Hres1 Hres2;
      [done|..].
    + destruct (Hother k sk id); auto.
    + destruct (Hother j sj id); auto.
    + by eapply Hd.
  - intros j sv id [[<- <-]|[Hne Hj]]%lookup_insert_Some Hin Hres.
    + destruct Hl' as [->|(id' & -> & Hle & Hnr & Hf)]; [by eapply Hissued; eauto|].
      apply elem_of_cons in Hin as [->|Hin]; [done|]. by eapply Hissued; eauto.
    + destruct Hl' as [->|(id' & -> & Hle & Hnr & Hf)]; [by eapply Hi|].
      apply elem_of_cons in Hin as [->|Hin]; [|by eapply Hi]. destruct (Hother j sv id'); auto.
  - intros id Hin. destruct Hl' as [->|(id' & -> & Hle & Hnr & Hf)]; [specialize (Hib _ Hin); lia|].
    apply elem_of_cons in Hin as [->|Hin]; [done|]. specialize (Hib _ Hin); lia.
  - destruct Hl' as [->|(id' & -> & Hle & Hnr & Hf)]; [done|].
    constructor; [|done]. intros Hin. by apply (Hissued _ Hin).
Qed.

Lemma alloc_inv_step n s s' :
  alloc_inv n s → step s s' → batch * Z.of_nat (S n) < two64 → alloc_inv (S n) s'.
Proof.
  intros Hinv Hstep Hmax. pose proof Hinv as [Hk Hb Hs Hr _ _ _ _].
  assert (batch * Z.of_nat (S n) = batch * Z.of_nat n + batch ∧ batch = 1000) as [Hmul Hbatch]
    by (split; [lia|done]).
  destruct Hstep as [st ss l i a id a' Hi Hne Ht|st ss l i a nt v Hi He Hg
    |st st' ss l i a sig nt v e id a' Hi Hg Ht|st st' ss l i a sig nt v err Hi Hg|st ss l leader|st ss l i];
    simpl in *.
  - destruct (Hs _ _ Hi) as [??]; simpl in *.
    unfold take_next in Ht. rewrite u64_small in Ht by (unfold is_u64; lia). simplify_eq.
    apply (alloc_inv_update n st ss l); simpl; auto; try lia; try done.
    + intros id Hid. right. exists (mkServer a None). unfold reserved in *; simpl in *. split; [done|lia].
    + right. eexists. split; [done|]. split; [lia|]. split; [unfold reserved; simpl; lia|].
      right. exists (mkServer a None). unfold reserved; simpl. split; [done|lia].
  - destruct (Hs _ _ Hi) as [??]; simpl in *.
    apply (alloc_inv_update n st ss l); simpl; auto; try lia.
    + intros v' [= <-]. split; [|done]. unfold GetID in Hg. unfold persisted.
      destruct nt; [|done..]. destruct (id_key st) as [b|] eqn:Eb; [|injection Hg as <-; lia].
      rewrite (Hk b eq_refl) in Hg |- *. unfold persisted in Hb. rewrite Eb in Hb.
      assert (is_u64 (persisted st)) as Hu by (unfold is_u64, persisted; rewrite Eb; lia).
      rewrite BytesToUint64_Uint64ToBytes in Hg by done.
      injection Hg as <-. unfold Uint64ToBytes. rewrite be_decode_PutUint64 by done.
      unfold is_u64 in Hu. lia.
    + intros id Hid. unfold reserved in Hid; simpl in Hid. lia.
  - destruct (Hs _ _ Hi) as [??]. destruct (Hr _ _ v Hi eq_refl) as [Hv _]; simpl in *.
    destruct (generate_write_etcd _ _ _ _ _ _ Hg ltac:(lia) ltac:(lia) Hk ltac:(lia) ltac:(lia))
      as [(He & Hp & Hst' & _)|[Hno _]].
    + simplify_eq. assert (is_u64 (persisted st + batch)) as Hu by (unfold is_u64; lia).
      assert (persisted st' = persisted st + batch) as Hp'.
      { unfold persisted at 1. rewrite Hst'. by apply be_decode_PutUint64. }
      unfold take_next, start_batch in Ht; simpl in Ht.
      rewrite (u64_small (persisted st + batch - batch)) in Ht by (unfold is_u64; lia).
      rewrite u64_small in Ht by (unfold is_u64; lia). simplify_eq.
      apply (alloc_inv_update n st ss l); auto; try (simpl; lia); try done.
      * intros b Hb'. rewrite Hst' in Hb'. rewrite Hp'. congruence.
      * intros id Hid. left. unfold reserved in Hid; simpl in Hid. lia.
      * right. eexists. split; [done|]. split; [lia|].
        split; [unfold reserved; simpl; lia|]. left. lia.
    + by destruct (Hno e).
  - destruct (Hs _ _ Hi) as [??]. destruct (Hr _ _ v Hi eq_refl) as [Hv Hbe]; simpl in *.
    assert (persisted st ≤ persisted st' ≤ batch * Z.of_nat (S n) ∧
      ∀ b, id_key st' = Some b → b = Uint64ToBytes (persisted st')) as [Hp' Hk'].
    { destruct (generate_write_etcd _ _ _ _ _ _ Hg ltac:(lia) ltac:(lia) Hk ltac:(lia) ltac:(lia))
        as [(He & _)|(_ & _ & [->|[Hp Hst']])]; [done|split; [lia|done]|].
      assert (is_u64 (v + batch)) as Hu by (unfold is_u64; lia).
      assert (persisted st' = v + batch) as Hp'.
      { unfold persisted at 1. rewrite Hst'. by apply be_decode_PutUint64. }
      split; [lia|]. rewrite Hp', Hst'. congruence. }
    apply (alloc_inv_update n st ss l); auto; try (simpl; lia); try done.
    intros id Hid. unfold reserved in Hid; simpl in Hid. lia.
  - destruct Hinv as [I1 I2 I3 I4 I5 I6 I7 I8]; split; simpl in *; auto.
    change (persisted (mkEtcd leader (id_key st))) with (persisted st). lia.
  - apply (alloc_inv_update n st ss l); simpl; auto; try lia; try done.
    intros id Hid. unfold reserved in Hid; simpl in Hid. lia.
Qed.

Lemma initial_alloc_inv s : initial s → alloc_inv 0 s.
Proof.
  destruct s as [st ss l]. intros (Hk & E1 & E2); simpl in *; subst.
  split; simpl; unfold persisted; rewrite ?Hk; try done; try lia.
  - intros id []%not_elem_of_nil.
  - constructor.
Qed.

Lemma nsteps_alloc_inv n s0 s :
  initial s0 → nsteps step n s0 s → batch * Z.of_nat n < two64 → alloc_inv n s.
Proof.
  intros H0. revert s; induction n as [|n IH]; intros s Hn Hmax.
  - inversion Hn; subst. by apply initial_alloc_inv.
  - apply nsteps_inv_r in Hn as (s' & Hn & Hs). eapply alloc_inv_step; [|done..].
    apply IH; [done|]. unfold batch in *. lia.
Qed.

(** C13. however many PD servers allocate ids from the same etcd, in whatever
    interleaving of their reads and transactions, with requests or replies lost,
    leaders changing and servers restarting, no id is handed out twice, for as
    long as the counter stays below 2^64 (each step adds at most one batch). *)
Theorem allocated_ids_unique (n : nat) (s0 s : system) :
  initial s0 → nsteps step n s0 s → batch * Z.of_nat n < two64 →
  NoDup (issued s) ∧ ∀ id, id ∈ issued s → id ≤ persisted (sys_etcd s).
Proof.
  intros H0 Hn Hmax. destruct (nsteps_alloc_inv n s0 s H0 Hn Hmax). done.
Qed.

(** [generate] reserves the next batch, or fails; a lost reply may still have
    moved the counter. *)
Lemma generate_cases n1 n2 sig st r st' :
  (∀ b, id_key st = Some b → b = Uint64ToBytes (persisted st)) →
  0 ≤ persisted st → persisted st + batch < two64 → generate n1 n2 sig st = (r, st') →
  (r = Ok (persisted st + batch) ∧ id_key st' = Some (Uint64ToBytes (persisted st + batch)) ∧
   leader_key st = Some sig) ∨
  ((∃ e, r = Err e) ∧ (st' = st ∨ id_key st' = Some (Uint64ToBytes (persisted st + batch)))).
Proof.
  intros Hk Hp0 Hmax Hg. assert (batch = 1000) as Hbatch by done. unfold generate in Hg.
  assert (GetID n1 st = Ok (persisted st) ∨ GetID n1 st = Err ErrEtcd) as [Hget|Hget].
  { unfold GetID. destruct n1; auto. left. unfold persisted in *.
    destruct (id_key st) as [b|]; [|done].
    rewrite (Hk b eq_refl), BytesToUint64_Uint64ToBytes; [|unfold is_u64; lia].
    unfold Uint64ToBytes. rewrite be_decode_PutUint64; [done|]. unfold is_u64; lia. }
  - rewrite Hget in Hg.
    destruct (generate_write_etcd _ _ _ _ _ _ Hg ltac:(lia) ltac:(lia) Hk ltac:(lia) ltac:(lia))
      as [(-> & _ & Hst' & Hl)|(Hno & Hnp & Hst')]; [auto|].
    right. split; [destruct r as [e|e|]; [by destruct (Hno e)|eauto|done]|]. tauto.
  - rewrite Hget in Hg. simplify_eq. eauto.
Qed.

Lemma persisted_key st v : is_u64 v → id_key st = Some (Uint64ToBytes v) → persisted st = v.
Proof. intros Hv E. unfold persisted. rewrite E. by apply be_decode_PutUint64. Qed.

(** [newID] takes the next id of the current batch without touching etcd; an
    exhausted batch is replaced by the 1000 ids above the persisted counter, and
    only while the server's signature is in the leader key; every failure leaves
    the allocator as it was, and [newID] never panics. *)
Theorem newID_spec (n1 n2 : net) (sig : string) (a : idAllocator) (st : etcd) :
  (∀ b, id_key st = Some b → b = Uint64ToBytes (persisted st)) →
  0 ≤ persisted st → persisted st + batch < two64 → 0 ≤ base a ≤ end_ a → end_ a ≤ persisted st →
  match newID n1 n2 sig a st with
  | (Ok id, a', st') =>
      base a' = id ∧
      (if decide (base a = end_ a) then
         id = persisted st + 1 ∧ end_ a' = persisted st + batch ∧
         persisted st' = persisted st + batch ∧ leader_key st = Some sig
       else id = base a + 1 ∧ end_ a' = end_ a ∧ st' = st)
  | (Err _, a', st') => a' = a ∧ base a = end_ a
  | (Panic, _, _) => False
  end.
Proof.
  intros Hk Hp0 Hmax Hba Hend. assert (batch = 1000) as Hbatch by done.
  unfold newID. case_decide as E.
  2:{ unfold take_next. rewrite u64_small by (unfold is_u64; lia). simpl. auto. }
  destruct (generate n1 n2 sig st) as [r st'] eqn:Hg.
  destruct (generate_cases _ _ _ _ _ _ Hk Hp0 Hmax Hg) as [(-> & Hst' & Hl)|[[e ->] _]]; [|auto].
  unfold take_next, start_batch; simpl.
  rewrite (u64_small (persisted st + batch - batch)) by (unfold is_u64; lia).
  rewrite u64_small by (unfold is_u64; lia). split_and!; [done|lia|done| |done].
  apply persisted_key; [unfold is_u64; lia|done].
Qed.

(** ** Witnesses *)
Definition wstart : system := mkSystem (mkEtcd None None) ∅ [].
Definition wend : system :=
  mkSystem (mkEtcd (Some "pd1"%string) (Some (Uint64ToBytes 1000)))
    (<[2%nat := mkServer newIDAllocator None]> (<[1%nat := mkServer (mkIdAllocator 1 1000) None]>
      (<[2%nat := mkServer newIDAllocator (Some 0)]> (<[1%nat := mkServer newIDAllocator (Some 0)]>
        (<[2%nat := fresh_server]> (<[1%nat := fresh_server]> ∅)))))) [1].

(** Two servers read the empty counter; the first one's create wins, the second
    one's is refused. *)
Lemma wrun : nsteps step 7 wstart wend.
Proof.
  eapply nsteps_l; [apply (step_restart _ _ _ 1)|].
  eapply nsteps_l; [apply (step_restart _ _ _ 2)|].
  eapply nsteps_l; [apply (step_leader _ _ _ (Some "pd1"%string))|].
  eapply nsteps_l; [apply (step_read _ _ _ 1 newIDAllocator NetOk 0); reflexivity|].
  eapply nsteps_l; [apply (step_read _ _ _ 2 newIDAllocator NetOk 0); reflexivity|].
  eapply nsteps_l; [eapply (step_write_ok _ _ _ _ 1 newIDAllocator "pd1" NetOk 0 1000); reflexivity|].
  eapply nsteps_l; [eapply (step_write_err _ _ _ _ 2 newIDAllocator "pd1" NetOk 0); reflexivity|].
  apply nsteps_O.
Qed.

Lemma allocated_ids_unique_witness : NoDup [1] ∧ 1 ≤ persisted (sys_etcd wend).
Proof.
  destruct (allocated_ids_unique 7 wstart wend) as [H1 H2];
    [repeat split | exact wrun | reflexivity |].
  split; [exact H1|]. apply H2. left.
Defined.

Lemma newID_spec_witness :
  newID NetOk NetOk "pd1" (mkIdAllocator 2000 2000) (mkEtcd (Some "pd1"%string) (Some (Uint64ToBytes 2000)))
  = (Ok 2001, mkIdAllocator 2001 3000, mkEtcd (Some "pd1"%string) (Some (Uint64ToBytes 3000))) ∧
  persisted (mkEtcd (Some "pd1"%string) (Some (Uint64ToBytes 3000))) = 3000.
Proof.
  split; [vm_compute; reflexivity|].
  pose proof (newID_spec NetOk NetOk "pd1" (mkIdAllocator 2000 2000)
    (mkEtcd (Some "pd1"%string) (Some (Uint64ToBytes 2000)))) as H.
  refine (proj1 (proj2 (proj2 (proj2 (H _ _ _ _ _)))));
    [intros b [= <-]; vm_compute; reflexivity | vm_compute; congruence.. | |];
    [split|]; vm_compute; congruence.
Defined.
