(* ===== verification/IdSource.v ===== *)
(** * What the id allocator promises its clients

    The schedulers and the split handler take ids from [idAllocator.newID].
    They are stated against this interface: an id that is returned was never
    returned before, is not zero and fits 64 bits, a failing allocation returns an error, and
    no allocation panics.  The allocator of [IdAlloc], running against etcd
    under any finite schedule of network faults, implements it. *)

From S2P Require Import Prelude Encoding IdAlloc.

Class IdSource (A : Type) := {
  next_id : A → outcome alloc_error Z * A;
  ids_wf : A → Prop;
  ids_used : A → Z → Prop;
  next_id_wf a : ids_wf a → ids_wf (next_id a).2;
  next_id_fresh a id : ids_wf a → (next_id a).1 = Ok id → ¬ ids_used a id ∧ ids_used (next_id a).2 id ∧ id ≠ 0;
  next_id_mono a id : ids_wf a → ids_used a id → ids_used (next_id a).2 id;
  next_id_no_panic a : ids_wf a → (next_id a).1 ≠ Panic;
  next_id_u64 a id : ids_wf a → (next_id a).1 = Ok id → is_u64 id;
}.

(** [newID] called [n] times, as a loop that stops at the first error. *)
Fixpoint next_ids {A} `{IdSource A} (n : nat) (a : A) : outcome alloc_error (list Z) * A :=
  match n with
  | O => (Ok [], a)
  | S n' =>
      let '(r, a1) := next_id a in
      match r with
      | Ok id =>
          let '(rs, a2) := next_ids n' a1 in
          (let! ids := rs in Ok (id :: ids), a2)
      | Err e => (Err e, a1)
      | Panic => (Panic, a1)
      end
  end.

Lemma next_ids_spec {A} `{IdSource A} n : ∀ a, ids_wf a →
  let '(r, a') := next_ids n a in
  ids_wf a' ∧ (∀ x, ids_used a x → ids_used a' x) ∧ r ≠ Panic ∧
  ∀ ids, r = Ok ids → length ids = n ∧ NoDup ids ∧ (0 ∉ ids) ∧ ∀ x, x ∈ ids → ¬ ids_used a x ∧ ids_used a' x.
Proof.
  induction n as [|n IH]; intros a Hwf; simpl.
  { split_and!; try done. intros ids [= <-]. split_and!; [done|constructor|set_solver|set_solver]. }
  pose proof (next_id_wf a Hwf) as Hwf1. pose proof (next_id_mono a) as Hm1.
  pose proof (next_id_no_panic a Hwf) as Hp. pose proof (next_id_fresh a) as Hf.
  destruct (next_id a) as [[id|e|] a1]; simpl in *; [|naive_solver..].
  destruct (Hf id Hwf eq_refl) as (Hu & Hu1 & Hz). specialize (IH a1 Hwf1).
  destruct (next_ids n a1) as [rs a2]. destruct IH as (Hwf2 & Hm2 & Hp2 & Hids).
  split_and!; [done|auto|by destruct rs|]. intros ids Hr.
  destruct rs as [ids'| |]; simpl in Hr; [|done..]. injection Hr as <-.
  destruct (Hids ids' eq_refl) as (Hlen & Hnd & Hnz & Hin). split_and!.
  - simpl. by f_equal.
  - constructor; [|done]. intros [? _]%Hin. done.
  - rewrite elem_of_cons. naive_solver.
  - intros x [->|Hx]%elem_of_cons; [auto|]. destruct (Hin x Hx). auto.
Qed.

(** ** The allocator against etcd *)
Record alloc_client := mkAllocClient {
  client_nets : list (net * net);
  client_sig : string;
  client_alloc : idAllocator;
  client_etcd : etcd;
}.
Definition client_newID (c : alloc_client) : outcome alloc_error Z * alloc_client :=
  match client_nets c with
  | [] => (Err ErrEtcd, c)
  | (n1, n2) :: ns =>
      let '(r, a, st) := newID n1 n2 (client_sig c) (client_alloc c) (client_etcd c) in
      (r, mkAllocClient ns (client_sig c) a st)
  end.
(** The counter is what the key encodes, the current batch lies below it, and
    the counter stays within 64 bits for the requests left. *)
Definition client_wf (c : alloc_client) : Prop :=
  (∀ b, id_key (client_etcd c) = Some b → b = Uint64ToBytes (persisted (client_etcd c))) ∧
  0 ≤ base (client_alloc c) ≤ end_ (client_alloc c) ∧
  end_ (client_alloc c) ≤ persisted (client_etcd c) ∧
  persisted (client_etcd c) + batch * Z.of_nat (length (client_nets c)) < two64.
Definition client_used (c : alloc_client) (id : Z) : Prop := id ≤ base (client_alloc c).

(** One call of the allocator keeps the client well formed; an id it returns
    is the new base, above the old one. *)
Lemma client_newID_spec c : client_wf c →
  let '(r, c') := client_newID c in
  client_wf c' ∧ base (client_alloc c) ≤ base (client_alloc c') ∧ r ≠ Panic ∧
  ∀ id, r = Ok id → id = base (client_alloc c') ∧ base (client_alloc c) < id.
Proof.
  intros (Hk & Hb & He & Hm). assert (batch = 1000) as Hbatch by done.
  unfold client_newID, client_wf. destruct (client_nets c) as [|[n1 n2] ns] eqn:En.
  { rewrite En. split_and!; try done; lia. }
  cbn [length] in Hm. rewrite Nat2Z.inj_succ, Hbatch in Hm. unfold newID. case_decide as E; simpl.
  - destruct (generate n1 n2 (client_sig c) (client_etcd c)) as [r st'] eqn:Hg.
    destruct (generate_cases _ _ _ _ _ _ Hk ltac:(lia) ltac:(lia) Hg) as [(-> & Hst' & Hl)|[[e ->] Hst']].
    + assert (persisted st' = persisted (client_etcd c) + batch) as Hp'
        by (apply persisted_key; [unfold is_u64; lia|done]).
      unfold take_next, start_batch; simpl.
      rewrite (u64_small (persisted (client_etcd c) + batch - batch)) by (unfold is_u64; lia).
      rewrite u64_small by (unfold is_u64; lia). rewrite Hp'. split_and!; rewrite ?Hbatch; try lia; try done.
      * intros b Hb'. congruence.
      * intros id [= <-]. split; [done|lia].
    + destruct Hst' as [->|Hst']; [simpl; split_and!; rewrite ?Hbatch; first [lia|done|by intros id ?]|].
      assert (persisted st' = persisted (client_etcd c) + batch) as Hp'
        by (apply persisted_key; [unfold is_u64; lia|done]).
      simpl. rewrite Hp'. split_and!; rewrite ?Hbatch; try lia; try done. intros b Hb'. congruence.
  - rewrite u64_small by (unfold is_u64; lia). split_and!; rewrite ?Hbatch; try done; try lia.
    intros id [= <-]. split; [done|lia].
Qed.

#[export] Instance alloc_client_ids : IdSource alloc_client.
Proof.
  refine (Build_IdSource alloc_client client_newID client_wf client_used _ _ _ _ _).
  - intros a Hwf. pose proof (client_newID_spec a Hwf) as H. destruct (client_newID a). by destruct H.
  - intros a id Hwf Hr. pose proof (client_newID_spec a Hwf) as H. destruct (client_newID a) as [r a']; simpl in *.
    destruct H as (_ & _ & _ & H). destruct (H id Hr) as [-> Hlt]. unfold client_used. destruct Hwf; lia.
  - intros a id Hwf. pose proof (client_newID_spec a Hwf) as H. unfold client_used.
    destruct (client_newID a) as [r a']; simpl in *. lia.
  - intros a Hwf. pose proof (client_newID_spec a Hwf) as H. destruct (client_newID a). by destruct H as (_ & _ & ? & _).
  - intros a id Hwf Hr. pose proof (client_newID_spec a Hwf) as H. destruct (client_newID a) as [r a']; simpl in *.
    destruct H as ((_ & Hb & He & Hm) & _ & _ & H). destruct (H id Hr) as [-> Hlt]. assert (batch = 1000) as Hbatch by done. unfold is_u64. lia.
Defined.
