(* ===== verification/Uuid.v ===== *)
(** * UUIDs (pkg/util/uuid/uuid.go)

    The ids of requests.  A UUID is a list of 16 bytes; random bytes, hashes, clocks and
    the hardware address are arguments.  The texts of UUIDs can be read back, the versions are what
    they should be, and time-based UUIDs of a process differ. *)

From S2P Require Import Prelude Encoding.

Inductive uuid_error := ErrTooShort | ErrTooLong | ErrFormat | ErrVersion | ErrHex | ErrLength (n : nat) | ErrType.

(** ** The type *)
Definition is_uuid (u : bytes) : Prop := length u = 16%nat.
Definition Nil : bytes := replicate 16 x00.
Definition byte_at (u : bytes) (i : nat) : Z := Z_of_byte (default x00 (u !! i)).
Definition VariantNCS : Z := 0.
Definition VariantRFC4122 : Z := 1.
Definition VariantMicrosoft : Z := 2.
Definition VariantFuture : Z := 3.
Definition And (u1 u2 : bytes) : bytes := zip_with (λ a b, byte_of_Z (Z.land (Z_of_byte a) (Z_of_byte b))) u1 u2.
Definition Or (u1 u2 : bytes) : bytes := zip_with (λ a b, byte_of_Z (Z.lor (Z_of_byte a) (Z_of_byte b))) u1 u2.
Definition Equal (u1 u2 : bytes) : bool := bool_decide (u1 = u2).
Definition Version (u : bytes) : Z := Z.shiftr (byte_at u 6) 4.
Definition Variant (u : bytes) : Z :=
  let b := byte_at u 8 in
  if bool_decide (Z.land b 0x80 = 0) then VariantNCS
  else if bool_decide (Z.lor (Z.land b 0xc0) 0x80 = 0x80) then VariantRFC4122
  else if bool_decide (Z.lor (Z.land b 0xe0) 0xc0 = 0xc0) then VariantMicrosoft
  else VariantFuture.
Definition Bytes (u : bytes) : bytes := u.
Definition SetVersion (v : Z) (u : bytes) : bytes := <[6%nat := byte_of_Z (Z.lor (Z.land (byte_at u 6) 0x0f) (Z.shiftl v 4))]> u.
Definition SetVariant (u : bytes) : bytes := <[8%nat := byte_of_Z (Z.lor (Z.land (byte_at u 8) 0xbf) 0x80)]> u.

(** ** Texts *)
(** encoding/hex: lower case is written, both cases are read. *)
Definition hex_table : bytes := [x30; x31; x32; x33; x34; x35; x36; x37; x38; x39; x61; x62; x63; x64; x65; x66].
Definition hex_digit (z : Z) : byte := default x30 (hex_table !! Z.to_nat z).
Definition hex_encode (b : bytes) : bytes := concat ((λ x, [hex_digit (Z.shiftr (Z_of_byte x) 4); hex_digit (Z.land (Z_of_byte x) 0x0f)]) <$> b).
Definition fromHexChar (c : byte) : option Z :=
  let z := Z_of_byte c in
  if bool_decide (0x30 ≤ z ≤ 0x39) then Some (z - 0x30)
  else if bool_decide (0x61 ≤ z ≤ 0x66) then Some (z - 0x61 + 10)
  else if bool_decide (0x41 ≤ z ≤ 0x46) then Some (z - 0x41 + 10)
  else None.
Fixpoint hex_decode (t : bytes) : option bytes :=
  match t with
  | a :: b :: t' =>
      match fromHexChar a, fromHexChar b, hex_decode t' with
      | Some x, Some y, Some r => Some (byte_of_Z (Z.lor (Z.shiftl x 4) y) :: r)
      | _, _, _ => None
      end
  | [_] => None
  | [] => Some []
  end.
Definition dash : byte := x2d.
Definition urnPrefix : bytes := [x75; x72; x6e; x3a; x75; x75; x69; x64; x3a].
Definition byteGroups : list nat := [8; 4; 4; 4; 12]%nat.
Definition String (u : bytes) : bytes :=
  hex_encode (take 4 u) ++ dash :: hex_encode (take 2 (drop 4 u)) ++ dash :: hex_encode (take 2 (drop 6 u)) ++ dash :: hex_encode (take 2 (drop 8 u)) ++ dash :: hex_encode (drop 10 u).
Definition MarshalText (u : bytes) : outcome uuid_error bytes := Ok (String u).
Definition version_digits : bytes := [x30; x31; x32; x33; x34; x35].
(** [t[0]] of an empty slice panics. *)
Definition first_byte (t : bytes) : outcome uuid_error byte := match t with c :: _ => Ok c | [] => Panic end.
(** One group of digits, the [i]-th; what follows it. *)
Definition read_group (braced : bool) (i group : nat) (t : bytes) : outcome uuid_error (bytes * bytes) :=
  let! t := (if bool_decide (i = 0%nat) then Ok t
             else let! c := first_byte t in if bool_decide (c = dash) then Ok (drop 1 t) else Err ErrFormat) in
  let! _ := (if bool_decide (i = 2%nat) then let! c := first_byte t in if bool_decide (c ∈ version_digits) then Ok tt else Err ErrVersion else Ok tt) in
  if bool_decide (length t < group)%nat then Err ErrTooShort
  else if bool_decide (i = 4%nat) && bool_decide (group < length t)%nat &&
            ((braced && negb (bool_decide (t !! group = Some x7d))) || bool_decide (1 < length (drop group t))%nat || negb braced) then Err ErrTooLong
  else match hex_decode (take group t) with Some b => Ok (b, drop group t) | None => Err ErrHex end.
Fixpoint read_groups (braced : bool) (i : nat) (groups : list nat) (t : bytes) : outcome uuid_error bytes :=
  match groups with
  | [] => Ok []
  | g :: groups' => let! (b, t) := read_group braced i g t in let! bs := read_groups braced (S i) groups' t in Ok (b ++ bs)
  end.
Definition UnmarshalText (text : bytes) : outcome uuid_error bytes :=
  if bool_decide (length text < 32)%nat then Err ErrTooShort
  else if bool_decide (take 9 text = urnPrefix) then read_groups false 0 byteGroups (drop 9 text)
  else if bool_decide (head text = Some x7b) then read_groups true 0 byteGroups (drop 1 text)
  else read_groups false 0 byteGroups text.
Definition MarshalBinary (u : bytes) : outcome uuid_error bytes := Ok (Bytes u).
Definition UnmarshalBinary (data : bytes) : outcome uuid_error bytes := if bool_decide (length data = 16%nat) then Ok data else Err (ErrLength (length data)).
(** A value of a database. *)
Inductive sql_value := VBytes (b : bytes) | VString (b : bytes) | VNull | VOtherType.
Definition Value (u : bytes) : sql_value := VString (String u).
Definition Scan (src : sql_value) : outcome uuid_error bytes :=
  match src with
  | VBytes b => if bool_decide (length b = 16%nat) then UnmarshalBinary b else UnmarshalText b
  | VString b => UnmarshalText b
  | _ => Err ErrType
  end.
Record NullUUID := mkNull { nu_UUID : bytes; nu_Valid : bool }.
Definition NullUUID_Value (u : NullUUID) : sql_value := if nu_Valid u then Value (nu_UUID u) else VNull.
Definition NullUUID_Scan (src : sql_value) : outcome uuid_error NullUUID :=
  match src with VNull => Ok (mkNull Nil false) | _ => let! u := Scan src in Ok (mkNull u true) end.
Definition FromBytes (input : bytes) : outcome uuid_error bytes := UnmarshalBinary input.
Definition FromString (input : bytes) : outcome uuid_error bytes := UnmarshalText input.
Definition or_nil (r : outcome uuid_error bytes) : outcome uuid_error bytes := match r with Err _ => Ok Nil | _ => r end.
Definition FromBytesOrNil (input : bytes) : outcome uuid_error bytes := or_nil (FromBytes input).
Definition FromStringOrNil (input : bytes) : outcome uuid_error bytes := or_nil (FromString input).

(** ** Making UUIDs *)
(** [copy(u[i:], src)] into the 16 bytes. *)
Definition copy_at (i : nat) (src u : bytes) : bytes := take i u ++ take (16 - i) src ++ drop (i + length src) u.
Record storage := mkStorage { clockSequence : Z; lastTime : Z }.
(** [timeNow] is what [epochFunc] returns. *)
Definition getStorage (timeNow : Z) (st : storage) : storage :=
  mkStorage (if bool_decide (timeNow ≤ lastTime st) then (clockSequence st + 1) `mod` 65536 else clockSequence st) timeNow.
Definition time_fields (timeNow clockSeq : Z) : bytes := be_encode 2 (Z.shiftr timeNow 32) ++ be_encode 2 (Z.shiftr timeNow 48) ++ be_encode 2 clockSeq.
Definition NewV1 (timeNow : Z) (hardwareAddr : bytes) (st : storage) : bytes * storage :=
  let st := getStorage timeNow st in
  (SetVariant (SetVersion 1 (be_encode 4 timeNow ++ time_fields timeNow (clockSequence st) ++ take 6 hardwareAddr)), st).
Definition DomainPerson : Z := 0.
Definition DomainGroup : Z := 1.
Definition NewV2 (domain : Z) (posixUID posixGID : Z) (timeNow : Z) (hardwareAddr : bytes) (st : storage) : bytes * storage :=
  let st := getStorage timeNow st in
  let id := if bool_decide (domain = DomainPerson) then be_encode 4 posixUID else if bool_decide (domain = DomainGroup) then be_encode 4 posixGID else replicate 4 x00 in
  (SetVariant (SetVersion 2 (<[9%nat := byte_of_Z domain]> (id ++ time_fields timeNow (clockSequence st) ++ take 6 hardwareAddr))), st).
Definition newFromHash (sum : bytes → bytes) (ns name : bytes) : bytes := copy_at 0 (sum (ns ++ name)) Nil.
Definition NewV3 (md5 : bytes → bytes) (ns name : bytes) : bytes := SetVariant (SetVersion 3 (newFromHash md5 ns name)).
Definition NewV4 (random : bytes) : bytes := SetVariant (SetVersion 4 (copy_at 0 random Nil)).
Definition NewV5 (sha1 : bytes → bytes) (ns name : bytes) : bytes := SetVariant (SetVersion 5 (newFromHash sha1 ns name)).

(** ** Reading texts back *)
Lemma hex_byte x : fromHexChar (hex_digit (Z.shiftr (Z_of_byte x) 4)) = Some (Z.shiftr (Z_of_byte x) 4) ∧ fromHexChar (hex_digit (Z.land (Z_of_byte x) 0x0f)) = Some (Z.land (Z_of_byte x) 0x0f) ∧
  byte_of_Z (Z.lor (Z.shiftl (Z.shiftr (Z_of_byte x) 4) 4) (Z.land (Z_of_byte x) 0x0f)) = x.
Proof. by destruct x. Qed.
Lemma hex_roundtrip b : hex_decode (hex_encode b) = Some b.
Proof.
  induction b as [|x b IH]; [done|]. unfold hex_encode in *. rewrite fmap_cons. cbn [concat app hex_decode]. destruct (hex_byte x) as (H1 & H2 & H3). by rewrite H1, H2, IH, H3.
Qed.
Lemma length_hex b : length (hex_encode b) = (2 * length b)%nat.
Proof. induction b as [|x b IH]; [done|]. unfold hex_encode in *. rewrite fmap_cons. cbn [concat]. rewrite length_app, IH. simpl. lia. Qed.
Lemma hex_take b t : take (2 * length b) (hex_encode b ++ t) = hex_encode b ∧ drop (2 * length b) (hex_encode b ++ t) = t.
Proof. by rewrite <-length_hex, take_app_length, drop_app_length. Qed.
(** A group that is written is read; [ends] says that the text may end with [t]. *)
Definition ends (braced : bool) (i : nat) (t : bytes) : Prop := i = 4%nat → t = [] ∨ braced = true ∧ t = [x7d].
Lemma read_digits braced i b t : ends braced i t →
  (if bool_decide (length (hex_encode b ++ t) < 2 * length b)%nat then Err ErrTooShort
   else if bool_decide (i = 4%nat) && bool_decide (2 * length b < length (hex_encode b ++ t))%nat &&
            ((braced && negb (bool_decide ((hex_encode b ++ t) !! (2 * length b)%nat = Some x7d))) || bool_decide (1 < length (drop (2 * length b) (hex_encode b ++ t)))%nat || negb braced) then Err ErrTooLong
   else match hex_decode (take (2 * length b) (hex_encode b ++ t)) with Some b' => Ok (b', drop (2 * length b) (hex_encode b ++ t)) | None => Err ErrHex end) = Ok (b, t).
Proof.
  intros He. destruct (hex_take b t) as [-> ->]. rewrite hex_roundtrip, length_app, length_hex, bool_decide_eq_false_2 by lia.
  destruct (decide (i = 4%nat)) as [->|Hi]; [|by rewrite bool_decide_eq_false_2]. rewrite bool_decide_eq_true_2 by done. destruct (He eq_refl) as [->|[-> ->]].
  - rewrite (bool_decide_eq_false_2 (2 * length b < _)%nat) by (simpl; lia). done.
  - rewrite <-length_hex, lookup_app_r, Nat.sub_diag by done. cbn [lookup list_lookup length]. rewrite (bool_decide_eq_true_2 (Some x7d = Some x7d)) by done.
    rewrite (bool_decide_eq_false_2 (1 < 1)%nat) by lia. by rewrite andb_false_r.
Qed.
Lemma read_group_first braced b t : read_group braced 0 (2 * length b) (hex_encode b ++ t) = Ok (b, t).
Proof. unfold read_group. rewrite bool_decide_eq_true_2 by done. cbn [outcome_bind]. rewrite (bool_decide_eq_false_2 (0 = 2)%nat) by done. cbn [outcome_bind]. by apply read_digits. Qed.
Lemma read_group_next braced i b t : (i = 1 ∨ i = 3 ∨ i = 4)%nat → ends braced i t → read_group braced i (2 * length b) (dash :: hex_encode b ++ t) = Ok (b, t).
Proof.
  intros Hi He. unfold read_group. rewrite bool_decide_eq_false_2 by lia. cbn [first_byte outcome_bind]. rewrite bool_decide_eq_true_2 by done. cbn [outcome_bind drop].
  rewrite (bool_decide_eq_false_2 (i = 2)%nat) by lia. cbn [outcome_bind]. by apply read_digits.
Qed.
Lemma version_digit x : hex_digit (Z.shiftr (Z_of_byte x) 4) ∈ version_digits ↔ Z.shiftr (Z_of_byte x) 4 ≤ 5.
Proof. rewrite <-(bool_decide_spec (_ ∈ _)), <-(bool_decide_spec (_ ≤ _)). by destruct x. Qed.
Lemma read_group_version braced x b t : read_group braced 2 (2 * length (x :: b)) (dash :: hex_encode (x :: b) ++ t) =
  if bool_decide (Z.shiftr (Z_of_byte x) 4 ≤ 5) then Ok (x :: b, t) else Err ErrVersion.
Proof.
  unfold read_group. rewrite (bool_decide_eq_false_2 (2 = 0)%nat) by lia. cbn [first_byte outcome_bind]. rewrite bool_decide_eq_true_2 by done. cbn [outcome_bind drop].
  rewrite (bool_decide_eq_true_2 (2 = 2)%nat) by lia. assert (hex_encode (x :: b) ++ t = hex_digit (Z.shiftr (Z_of_byte x) 4) :: tail (hex_encode (x :: b) ++ t)) as Hc by done.
  rewrite !drop_0. rewrite Hc at 1. cbn [first_byte outcome_bind]. case_bool_decide as Hv; rewrite version_digit in Hv; cbn [outcome_bind]; [rewrite (bool_decide_eq_true_2 _ Hv); by apply read_digits|by rewrite (bool_decide_eq_false_2 _ Hv)].
Qed.
Lemma read_String braced u t : is_uuid u → ends braced 4 t → read_groups braced 0 byteGroups (String u ++ t) = if bool_decide (Version u ≤ 5) then Ok u else Err ErrVersion.
Proof.
  unfold is_uuid. intros Hu He. do 16 (destruct u as [|? u]; [done|]). destruct u; [|done]. unfold String, byteGroups. cbn [take drop]. rewrite <-!(assoc_L (++)). cbn [app].
  rewrite <-!(assoc_L (++)). cbn [app]. rewrite <-!(assoc_L (++)). cbn [app]. rewrite <-!(assoc_L (++)). cbn [app read_groups].
  rewrite (read_group_first braced [_; _; _; _]). cbn [outcome_bind]. rewrite (read_group_next braced 1 [_; _]) by (first [exact He|by intros ?|lia]). cbn [outcome_bind].
  rewrite (read_group_version braced _ [_]). unfold Version, byte_at. cbn [lookup list_lookup default from_option id]. case_bool_decide; cbn [outcome_bind]; [|done].
  rewrite (read_group_next braced 3 [_; _]) by (first [exact He|by intros ?|lia]). cbn [outcome_bind]. by rewrite (read_group_next braced 4 [_; _; _; _; _; _]) by (first [exact He|by intros ?|lia]).
Qed.
Lemma String_head u : is_uuid u → ∃ x t, String u = hex_digit (Z.shiftr (Z_of_byte x) 4) :: t ∧ length (String u) = 36%nat.
Proof.
  unfold is_uuid. intros Hu. destruct u as [|x u]; [done|]. exists x. eexists. split; [reflexivity|]. unfold String. repeat (rewrite length_app || rewrite length_hex || rewrite length_cons || rewrite length_take || rewrite length_drop).
  cbn [length] in *. lia.
Qed.
Lemma digit_not_prefix x t : hex_digit (Z.shiftr (Z_of_byte x) 4) ≠ x75 ∧ head (hex_digit (Z.shiftr (Z_of_byte x) 4) :: t) ≠ Some x7b.
Proof. by destruct x. Qed.
(** A UUID that is written in any of the three forms that [UnmarshalText] documents is read back, if
    its version is at most 5, as that of every UUID this package makes; others are refused.  A brace that is not closed is
    accepted as well. *)
Theorem uuid_text_roundtrip u pre post : is_uuid u → (pre, post) ∈ [([], []); (urnPrefix, []); ([x7b], [x7d]); ([x7b], [])] →
  FromString (pre ++ String u ++ post) = if bool_decide (Version u ≤ 5) then Ok u else Err ErrVersion.
Proof.
  intros Hu Hpre. destruct (String_head u Hu) as (x & t & Hs & Hl). unfold FromString, UnmarshalText. rewrite !length_app, Hl, bool_decide_eq_false_2 by lia.
  destruct (digit_not_prefix x (t ++ post)) as [Hd1 Hd2]. repeat (apply elem_of_cons in Hpre as [[= -> ->]|Hpre]); [| | | |by apply not_elem_of_nil in Hpre].
  - cbn [app]. rewrite bool_decide_eq_false_2 by (rewrite Hs; unfold urnPrefix; cbn [app take]; congruence). rewrite bool_decide_eq_false_2 by (by rewrite Hs). apply read_String; [done|by left].
  - rewrite (take_app_length' urnPrefix) by done. rewrite bool_decide_eq_true_2 by done. rewrite (drop_app_length' urnPrefix) by done. apply read_String; [done|by left].
  - rewrite bool_decide_eq_false_2 by (unfold urnPrefix; cbn [app take]; congruence). rewrite bool_decide_eq_true_2 by done. cbn [app drop]. apply read_String; [done|by right].
  - rewrite bool_decide_eq_false_2 by (unfold urnPrefix; cbn [app take]; congruence). rewrite bool_decide_eq_true_2 by done. cbn [app drop]. apply read_String; [done|by left].
Qed.
(** A URN that ends after its fourth group makes the parser read past its end. *)
Example short_urn_panics : FromString (urnPrefix ++ take 23 (String Nil)) = Panic.
Proof. reflexivity. Qed.

(** ** Versions *)
Lemma byte_at_insert u i x : (i < length u)%nat → byte_at (<[i := x]> u) i = Z_of_byte x.
Proof. intros Hi. unfold byte_at. by rewrite list_lookup_insert_eq. Qed.
Lemma version_bits x v : 1 ≤ v ≤ 5 → Z.shiftr (Z_of_byte (byte_of_Z (Z.lor (Z.land (Z_of_byte x) 0x0f) (Z.shiftl v 4)))) 4 = v.
Proof. intros Hv. assert (v = 1 ∨ v = 2 ∨ v = 3 ∨ v = 4 ∨ v = 5) as [->|[->|[->|[->| ->]]]] by lia; by destruct x. Qed.
Lemma variant_bits x : let b := Z_of_byte (byte_of_Z (Z.lor (Z.land (Z_of_byte x) 0xbf) 0x80)) in
  bool_decide (Z.land b 0x80 = 0) = false ∧ bool_decide (Z.lor (Z.land b 0xc0) 0x80 = 0x80) = true.
Proof. by destruct x. Qed.
Lemma marked_uuid u v : is_uuid u → 1 ≤ v ≤ 5 → is_uuid (SetVariant (SetVersion v u)) ∧ Version (SetVariant (SetVersion v u)) = v ∧ Variant (SetVariant (SetVersion v u)) = VariantRFC4122.
Proof.
  unfold is_uuid, SetVariant. intros Hu Hv. assert (length (SetVersion v u) = 16%nat) as Hl by (unfold SetVersion; by rewrite length_insert). split_and!.
  - by rewrite length_insert.
  - unfold Version, byte_at. rewrite list_lookup_insert_ne by done. fold (byte_at (SetVersion v u) 6). unfold SetVersion. rewrite byte_at_insert by (rewrite Hu; lia). unfold byte_at at 1. by apply version_bits.
  - unfold Variant. rewrite byte_at_insert by (rewrite Hl; lia). unfold byte_at. destruct (variant_bits (default x00 (SetVersion v u !! 8%nat))) as [-> ->]. done.
Qed.
Lemma copied_uuid src : is_uuid (copy_at 0 src Nil).
Proof. unfold is_uuid, copy_at. rewrite !length_app, length_take, length_take, length_drop. cbn [length Nil replicate Nat.sub Nat.add]. change (length Nil) with 16%nat. lia. Qed.
Lemma time_uuid n t c hw v : length n = 4%nat → length hw = 6%nat → is_uuid (n ++ time_fields t c ++ take 6 hw) ∧ is_uuid (<[9%nat := v]> (n ++ time_fields t c ++ take 6 hw)).
Proof.
  intros Hn Hh. assert (is_uuid (n ++ time_fields t c ++ take 6 hw)) as Hu.
  { unfold is_uuid, time_fields. rewrite !length_app, !length_be_encode, length_take. lia. }
  split; [done|]. unfold is_uuid. by rewrite length_insert.
Qed.
(** Every UUID the package makes has 16 bytes, the version of its function and the variant
    of RFC 4122, so that its text can be read back. *)
Theorem new_uuids_well_formed t hw st domain uid gid md5 sha1 ns name random : length hw = 6%nat →
  ∀ u v, (u, v) ∈ [((NewV1 t hw st).1, 1); ((NewV2 domain uid gid t hw st).1, 2); (NewV3 md5 ns name, 3); (NewV4 random, 4); (NewV5 sha1 ns name, 5)] →
  is_uuid u ∧ Version u = v ∧ Variant u = VariantRFC4122 ∧ FromString (String u) = Ok u.
Proof.
  intros Hh u v Hin. assert (∃ u0, u = SetVariant (SetVersion v u0) ∧ is_uuid u0 ∧ 1 ≤ v ≤ 5) as (u0 & -> & Hu0 & Hv).
  { repeat (apply elem_of_cons in Hin as [[-> ->]%pair_equal_spec|Hin]); [..|by apply not_elem_of_nil in Hin]; eexists; (split; [reflexivity|]); (split; [|lia]).
    - by apply (time_uuid _ _ _ _ x00); [apply length_be_encode|].
    - apply time_uuid; [|done]. repeat case_bool_decide; [apply length_be_encode..|done].
    - apply copied_uuid.
    - apply copied_uuid.
    - apply copied_uuid. }
  destruct (marked_uuid u0 v Hu0 Hv) as (H1 & H2 & H3). split_and!; [done|done|done|].
  pose proof (read_String false _ [] H1 ltac:(by left)) as Hr. rewrite H2, bool_decide_eq_true_2 in Hr by lia. rewrite app_nil_r in Hr.
  destruct (String_head _ H1) as (x & t' & Hs & Hl). unfold FromString, UnmarshalText. rewrite Hl, bool_decide_eq_false_2 by lia. destruct (digit_not_prefix x t') as [Hd1 Hd2].
  rewrite bool_decide_eq_false_2 by (rewrite Hs; unfold urnPrefix; cbn [take]; congruence). rewrite bool_decide_eq_false_2 by (by rewrite Hs). exact Hr.
Qed.

(** ** UUIDs of a process *)
Fixpoint v1_run (times : list Z) (hw : bytes) (st : storage) : list bytes :=
  match times with
  | [] => []
  | t :: times' => let '(u, st') := NewV1 t hw st in u :: v1_run times' hw st'
  end.
(** How often the clock stands still or is turned back. *)
Fixpoint backs (times : list Z) (last : Z) : Z :=
  match times with [] => 0 | t :: times' => (if bool_decide (t ≤ last) then 1 else 0) + backs times' t end.
Lemma backs_nonneg times : ∀ last, 0 ≤ backs times last.
Proof. induction times as [|t times IH]; intros last; cbn [backs]; [done|]. specialize (IH t). case_bool_decide; lia. Qed.
(** What can be read off a time-based UUID. *)
Definition u_time (u : bytes) : Z := be_decode (take 4 u) + 2 ^ 32 * be_decode (take 2 (drop 4 u)) + 2 ^ 48 * ((byte_at u 6 `mod` 16) * 256 + byte_at u 7).
Definition u_seq (u : bytes) : Z := (byte_at u 8 `mod` 64) * 256 + byte_at u 9.
Lemma version_low x : Z_of_byte (byte_of_Z (Z.lor (Z.land (Z_of_byte x) 0x0f) (Z.shiftl 1 4))) `mod` 16 = Z_of_byte x `mod` 16.
Proof. by destruct x. Qed.
Lemma variant_low x : Z_of_byte (byte_of_Z (Z.lor (Z.land (Z_of_byte x) 0xbf) 0x80)) `mod` 64 = Z_of_byte x `mod` 64.
Proof. by destruct x. Qed.
Lemma v1_fields t c hw : 0 ≤ t < 2 ^ 60 → 0 ≤ c < 65536 →
  let u := SetVariant (SetVersion 1 (be_encode 4 t ++ time_fields t c ++ take 6 hw)) in u_time u = t ∧ u_seq u = c `mod` 16384.
Proof.
  intros Ht Hc. cbv zeta. unfold time_fields. pose proof (be_decode_encode 4 t) as H4. pose proof (be_decode_encode 2 (Z.shiftr t 32)) as H2.
  cbn [be_encode] in *. unfold SetVariant, SetVersion, u_time, u_seq, byte_at. cbn [app insert list_insert lookup list_lookup default from_option id take drop].
  rewrite version_low, variant_low, H4, H2, !Z_of_byte_of_Z, !Z.shiftr_div_pow2 by lia. clear H4 H2.
  change (256 ^ Z.of_nat 4) with (2 ^ 32). change (256 ^ Z.of_nat 2) with (2 ^ 16). change (8 * Z.of_nat 0) with 0. change (8 * Z.of_nat 1) with 8. rewrite !Z.pow_0_r, !Z.div_1_r.
  rewrite !Z.div_div, <-!Z.pow_add_r by lia. change (48 + 8) with 56. split; Z.to_euclidean_division_equations; lia.
Qed.
Lemma NewV1_fields t hw c last : 0 ≤ t < 2 ^ 60 → 0 ≤ c < 65536 →
  ∃ c', (NewV1 t hw (mkStorage c last)).2 = mkStorage c' t ∧ c' = (if bool_decide (t ≤ last) then (c + 1) `mod` 65536 else c) ∧ 0 ≤ c' < 65536 ∧
    u_time (NewV1 t hw (mkStorage c last)).1 = t ∧ u_seq (NewV1 t hw (mkStorage c last)).1 = c' `mod` 16384.
Proof.
  intros Ht Hc. unfold NewV1, getStorage. cbn [fst snd clockSequence lastTime]. eexists. split; [done|]. split; [done|]. assert (0 ≤ (if bool_decide (t ≤ last) then (c + 1) `mod` 65536 else c) < 65536) as Hc'.
  { case_bool_decide; [apply Z.mod_pos_bound; lia|done]. }
  split; [done|]. by apply v1_fields.
Qed.
(** A UUID that was made when the clock sequence had been raised [k] times less is not made again. *)
Lemma v1_rest hw t0 c0 times : Forall (λ t, 0 ≤ t < 2 ^ 60) times → ∀ c last k, 0 ≤ c < 65536 → c `mod` 16384 = (c0 + k) `mod` 16384 → (k = 0 → t0 ≤ last) → 0 ≤ k → k + backs times last < 16384 →
  ∀ u, u ∈ v1_run times hw (mkStorage c last) → ¬ (u_time u = t0 ∧ u_seq u = c0 `mod` 16384).
Proof.
  induction 1 as [|t times Ht _ IH]; intros c last k Hc Hk Hlast Hk0 Hb u; [by intros ?%not_elem_of_nil|]. cbn [v1_run backs] in *.
  destruct (NewV1_fields t hw c last Ht Hc) as (c' & Hst & Heq & Hc' & Hut & Hus). destruct (NewV1 t hw (mkStorage c last)) as [u1 st1]. cbn [fst snd] in *. subst st1.
  pose proof (backs_nonneg times t) as Hnn. set (k' := k + (if bool_decide (t ≤ last) then 1 else 0)).
  assert (c' `mod` 16384 = (c0 + k') `mod` 16384) as Hk'.
  { unfold k'. rewrite Heq. case_bool_decide; [|by rewrite Z.add_0_r]. Z.to_euclidean_division_equations; lia. }
  intros [->|Hin]%elem_of_cons.
  - rewrite Hut, Hus, Hk'. intros [-> Hseq]. unfold k' in Hseq. assert (t0 ≤ last ∨ 0 < k) as Hor by lia. case_bool_decide; Z.to_euclidean_division_equations; lia.
  - apply (IH c' t k'); [done|done| |unfold k'; case_bool_decide; lia|unfold k'; case_bool_decide; lia|done]. unfold k'. case_bool_decide; lia.
Qed.
(** The time-based UUIDs a process makes all differ, even when its clock is turned back, as long as that
    happens less than 2^14 times: the clock sequence is raised then, and the variant leaves 14 bits of it. *)
Theorem v1_uuids_unique hw st times : 0 ≤ clockSequence st < 65536 → Forall (λ t, 0 ≤ t < 2 ^ 60) times → backs times (lastTime st) < 16384 → NoDup (v1_run times hw st).
Proof.
  intros Hc Hts. revert st Hc. induction Hts as [|t times Ht Hts IH]; intros [c last] Hc Hb; cbn [v1_run backs clockSequence lastTime] in *; [constructor|].
  destruct (NewV1_fields t hw c last Ht Hc) as (c' & Hst & _ & Hc' & Hut & Hus). destruct (NewV1 t hw (mkStorage c last)) as [u1 st1]. cbn [fst snd] in *. subst st1.
  pose proof (backs_nonneg times t). assert (backs times t < 16384) by (case_bool_decide; lia). apply NoDup_cons. split; [|by apply IH].
  intros Hin. apply (v1_rest hw t c' times Hts c' t 0 Hc' ltac:(by rewrite Z.add_0_r) ltac:(lia) ltac:(lia) ltac:(lia) u1 Hin). by split.
Qed.

(** ** Examples *)
Lemma uuid_text_roundtrip_witness : FromString (urnPrefix ++ String (NewV4 Nil) ++ []) = Ok (NewV4 Nil).
Proof. apply (uuid_text_roundtrip (NewV4 Nil) urnPrefix []); [reflexivity|]. right. left. Defined.
Lemma new_uuids_well_formed_witness : Version (NewV4 Nil) = 4 ∧ FromString (String (NewV4 Nil)) = Ok (NewV4 Nil).
Proof.
  destruct (new_uuids_well_formed 5 (replicate 6 x01) (mkStorage 0 0) 0 0 0 id id Nil [] Nil eq_refl (NewV4 Nil) 4) as (_ & H1 & _ & H2); [do 3 right; left|]. split; [exact H1|exact H2].
Defined.
Lemma v1_uuids_unique_witness : NoDup (v1_run [7; 9; 9; 8] (replicate 6 x01) (mkStorage 65535 0)).
Proof. apply v1_uuids_unique; [done|by repeat (apply Forall_cons; split; [done|])|reflexivity]. Defined.
