(* ===== verification/Election.v ===== *)
(** * Electing the PD leader

    pkg/pdserver/server_leader.go (the leader loop of a PD server),
    store_leader.go (the leader key of etcd and its lease) and rpc_proxy.go (the
    proxy of a server that is not the leader).  Every request to etcd may be
    lost, or answered and the answer lost; a lease may expire at any time; the
    loops of any number of servers interleave between their requests. *)

From S2P Require Import Prelude Encoding IdAlloc.

(** ** The leader of pdpb, and its text *)
Record Leader := mkLeader { L_ID : Z; L_Name : string; L_Addr : string; L_EtcdClientAddr : string }.
(** Generated by protoc. *)
Class LeaderProto := {
  marshal : Leader → string;
  unmarshal : string → option Leader;
  unmarshal_marshal l : unmarshal (marshal l) = Some l;
}.
Record Cfg := mkCfg { c_id : Z; c_Name : string; c_AddrRPC : string; c_URLsClient : string }.

(** ** etcd *)
(** The keys of [IdAlloc], the lease the leader key is attached to, the leases
    that are alive, those ever granted, and how often the leader key was deleted. *)
Record kv := mkKV { kv_etcd : etcd; kv_lease : Z; kv_leases : gset Z; kv_granted : gset Z; kv_deletes : nat }.
Inductive leader_error := ErrRequest | ErrUnmarshal | ErrNotLeaderAlready | ErrLeaseNotFound.
Definition set_etcd (st : etcd) (k : kv) : kv := mkKV st (kv_lease k) (kv_leases k) (kv_granted k) (kv_deletes k).
Definition delete_leader (k : kv) : kv :=
  mkKV (mkEtcd None (id_key (kv_etcd k))) (kv_lease k) (kv_leases k) (kv_granted k) (S (kv_deletes k)).
Definition put_leader (sig : string) (lease : Z) (k : kv) : kv :=
  mkKV (mkEtcd (Some sig) (id_key (kv_etcd k))) lease (kv_leases k) (kv_granted k) (kv_deletes k).
(** The lease [lease] runs out, and the key attached to it goes. *)
Definition expire (lease : Z) (k : kv) : kv :=
  let k' := mkKV (kv_etcd k) (kv_lease k) (kv_leases k ∖ {[lease]}) (kv_granted k) (kv_deletes k) in
  if bool_decide (is_Some (leader_key (kv_etcd k)) ∧ kv_lease k = lease) then delete_leader k' else k'.
Definition commit (n : net) (succeeded : bool) (k k' : kv) : outcome leader_error bool * kv :=
  match n with
  | NetOk => (Ok succeeded, k')
  | NetLost => (Err ErrRequest, k)
  | NetReplyLost => (Err ErrRequest, k')
  end.

Section election.
Context `{!LeaderProto}.
Definition marshalLeader (c : Cfg) : string := marshal (mkLeader (c_id c) (c_Name c) (c_AddrRPC c) (c_URLsClient c)).
Definition isMatchLeader (c : Cfg) (l : Leader) : bool := bool_decide (c_AddrRPC c = L_Addr l) && bool_decide (c_id c = L_ID l).

(** *** store_leader.go *)
Definition GetCurrentLeader (n : net) (k : kv) : outcome leader_error (option Leader) :=
  match n with
  | NetOk =>
      match leader_key (kv_etcd k) with
      | None => Ok None
      | Some v => match unmarshal v with Some l => Ok (Some l) | None => Err ErrUnmarshal end
      end
  | _ => Err ErrRequest
  end.
Definition ResignLeader (n : net) (sig : string) (k : kv) : outcome leader_error unit * kv :=
  let succeeded := leaderCmp sig (kv_etcd k) in
  let '(r, k') := commit n succeeded k (if succeeded then delete_leader k else k) in
  (let! s := r in if s : bool then Ok tt else Err ErrNotLeaderAlready, k').
(** [lessor.Grant], with the id etcd gives to the lease. *)
Definition Grant (n : net) (id : Z) (k : kv) : outcome leader_error Z * kv :=
  let k' := mkKV (kv_etcd k) (kv_lease k) ({[id]} ∪ kv_leases k) ({[id]} ∪ kv_granted k) (kv_deletes k) in
  match n with
  | NetOk => (Ok id, k')
  | NetLost => (Err ErrRequest, k)
  | NetReplyLost => (Err ErrRequest, k')
  end.
(** The transaction of [CampaignLeader]: the key must not exist; etcd refuses to
    attach it to a lease that is gone. *)
Definition campaign (n : net) (sig : string) (lease : Z) (k : kv) : outcome leader_error bool * kv :=
  let succeeded := bool_decide (leader_key (kv_etcd k) = None) in
  if succeeded && negb (bool_decide (lease ∈ kv_leases k)) then (Err ErrLeaseNotFound, k)
  else commit n succeeded k (if succeeded then put_leader sig lease k else k).

(** *** server_leader.go *)
(** Where the loop of a server is: at the top, before it resigns, before it
    watches the leader it has read, watching since a number of deletions, before it
    asks for a lease, before the transaction, before the lease is kept alive, in
    [enableLeader], leading; or waiting for a lock that it holds itself. *)
Inductive phase :=
  | PTop | PResign | PWatch (l : Leader) | PWatching (since : nat) | PGrant
  | PTxn (lease : Z) | PKeep (lease : Z) | PStart (lease : Z) | PLead (lease : Z) | PBlocked.
(** [sv_watchers]: whether the notifier of the server has watchers. *)
Record server := mkServer { sv_phase : phase; sv_isLeader : bool; sv_leaderProxy : option string; sv_watchers : bool }.
Definition fresh_server : server := mkServer PTop false None false.
(** What the world does to the next request of a loop: to a request of etcd; the
    id of a granted lease; whether a connection, [KeepAlive], [cluster.start] and
    [LoadWatchers] work and the keep-alive channel is open; what the watch says;
    whether there are watchers. *)
Inductive news := NoNews | Canceled | Reopened.
Record input := mkInput { in_net : net; in_lease : Z; in_ok : bool; in_news : news; in_watchers : bool }.
(** Watchers time out at any time; they are loaded by a new leader and register
    with the leader. *)
Definition watched (i : input) (sv : server) : bool := in_watchers i && (sv_watchers sv || sv_isLeader sv).
Definition goto (i : input) (p : phase) (sv : server) : server := mkServer p (sv_isLeader sv) (sv_leaderProxy sv) (watched i sv).
Definition resetLeaderRPCProxy (connected : bool) (l : Leader) (sv : server) : server :=
  mkServer (sv_phase sv) (sv_isLeader sv) (if connected then Some (L_Addr l) else None) (sv_watchers sv).
(** [removedAllWatcher] locks the notifier and calls [removeWatcher], which locks
    it again, for the first watcher it finds: only without watchers it returns. *)
Definition removedAllWatcher (watchers : bool) (next : phase) : phase := if watchers then PBlocked else next.
(** [WatchLeader] returns on the first deletion it sees; a watch sees what happens
    after it is opened. *)
Definition WatchLeader (i : input) (since : nat) (k : kv) : phase :=
  if bool_decide (since < kv_deletes k)%nat then PGrant
  else match in_news i with NoNews => PWatching since | Canceled => PGrant | Reopened => PWatching (kv_deletes k) end.
Definition enableLeader (lease : Z) (sv : server) : server := mkServer (PStart lease) true (sv_leaderProxy sv) (sv_watchers sv).
Definition disableLeader (sv : server) : server := mkServer PTop false (sv_leaderProxy sv) (sv_watchers sv).
(** One request of [startLeaderLoop] and [CampaignLeader]; [None]: [log.Fatalf]. *)
Definition loop_step (c : Cfg) (i : input) (sv : server) (k : kv) : option (server * kv) :=
  match sv_phase sv with
  | PTop =>
      match GetCurrentLeader (in_net i) k with
      | Ok None => Some (goto i PGrant sv, k)
      | Ok (Some l) => Some (goto i (if isMatchLeader c l then PResign else PWatch l) sv, k)
      | _ => Some (sv, k)
      end
  | PResign =>
      let '(r, k) := ResignLeader (in_net i) (marshalLeader c) k in
      Some (goto i (match r with Ok _ => PGrant | _ => PTop end) sv, k)
  | PWatch l => Some (goto i (removedAllWatcher (watched i sv) (PWatching (kv_deletes k))) (resetLeaderRPCProxy (in_ok i) l sv), k)
  | PWatching since => Some (goto i (WatchLeader i since k) sv, k)
  | PGrant =>
      let '(r, k) := Grant (in_net i) (in_lease i) k in
      Some (goto i (match r with Ok lease => PTxn lease | _ => PTop end) sv, k)
  | PTxn lease =>
      let '(r, k) := campaign (in_net i) (marshalLeader c) lease k in
      Some (goto i (match r with Ok true => PKeep lease | _ => PTop end) sv, k)
  | PKeep lease => Some (if in_ok i then enableLeader lease sv else goto i PTop sv, k)
  | PStart lease => if in_ok i then Some (goto i (PLead lease) sv, k) else None
  | PLead lease => Some (if in_ok i then goto i (PLead lease) sv else disableLeader sv, k)
  | PBlocked => Some (sv, k)
  end.

(** ** Several servers, one etcd *)
Context (cfg : nat → Cfg).
Definition sig (i : nat) : string := marshalLeader (cfg i).
Record system := mkSystem { sy_kv : kv; sy_servers : gmap nat server }.
Definition initial : system := mkSystem (mkKV (mkEtcd None None) 0 ∅ ∅ 0) ∅.
Inductive step : system → system → Prop :=
  | step_loop k ss i inp sv sv' k' :
      ss !! i = Some sv → in_lease inp ∉ kv_granted k → loop_step (cfg i) inp sv k = Some (sv', k') →
      step (mkSystem k ss) (mkSystem k' (<[i := sv']> ss))
  | step_alloc k ss i n v r st :
      generate_write n (sig i) v (kv_etcd k) = (r, st) →
      step (mkSystem k ss) (mkSystem (set_etcd st k) ss)
  | step_expire k ss lease : step (mkSystem k ss) (mkSystem (expire lease k) ss)
  | step_stop k ss i : step (mkSystem k ss) (mkSystem k (delete i ss))
  | step_start k ss i : ss !! i = None → step (mkSystem k ss) (mkSystem k (<[i := fresh_server]> ss)).

(** ** At most one leader *)
(** The lease a server relies on once its transaction has committed. *)
Definition holds (sv : server) : option Z :=
  match sv_phase sv with PKeep l | PStart l | PLead l => Some l | _ => None end.
Definition asked (sv : server) : option Z := match sv_phase sv with PTxn l => Some l | _ => holds sv end.
(** The server takes itself for the leader and its lease is alive. *)
Definition leads (s : system) (i : nat) (lease : Z) : Prop :=
  ∃ sv, sy_servers s !! i = Some sv ∧ sv_isLeader sv = true ∧ holds sv = Some lease ∧ lease ∈ kv_leases (sy_kv s).
Record election_inv (s : system) : Prop := {
  ei_key i sv l : sy_servers s !! i = Some sv → holds sv = Some l → l ∈ kv_leases (sy_kv s) →
    leader_key (kv_etcd (sy_kv s)) = Some (sig i) ∧ kv_lease (sy_kv s) = l;
  ei_asked i sv l : sy_servers s !! i = Some sv → asked sv = Some l → l ∈ kv_granted (sy_kv s);
  ei_alive : kv_leases (sy_kv s) ⊆ kv_granted (sy_kv s);
}.
Lemma initial_inv : election_inv initial.
Proof. split; simpl; [intros ? ? ?; by rewrite lookup_empty..|done]. Qed.

(** The server ids of an etcd cluster are distinct. *)
Context (Hids : ∀ i j, c_id (cfg i) = c_id (cfg j) → i = j).
Lemma sig_inj i j : sig i = sig j → i = j.
Proof.
  intros Heq. apply Hids. apply (f_equal unmarshal) in Heq. unfold sig, marshalLeader in Heq. rewrite !unmarshal_marshal in Heq. by simplify_eq.
Qed.
(** Nobody but its owner can delete or replace the key. *)
Lemma Resign_other n i j k r k' : leader_key (kv_etcd k) = Some (sig i) → i ≠ j → ResignLeader n (sig j) k = (r, k') → k' = k ∧ ∀ u, r ≠ Ok u.
Proof.
  intros Hk Hij. unfold ResignLeader, leaderCmp. rewrite Hk, bool_decide_eq_false_2 by (intros [= ?%sig_inj]; done). destruct n; intros [= <- <-]; done.
Qed.
Lemma campaign_held n i j l k r k' : leader_key (kv_etcd k) = Some (sig i) → campaign n (sig j) l k = (r, k') → k' = k ∧ r ≠ Ok true.
Proof. intros Hk. unfold campaign. rewrite Hk, bool_decide_eq_false_2 by done. destruct n; intros [= <- <-]; done. Qed.
Lemma generate_other n i j v st r st' : leader_key st = Some (sig i) → i ≠ j → generate_write n (sig j) v st = (r, st') → st' = st ∧ ∀ m, r ≠ Ok m.
Proof.
  intros Hk Hij. unfold generate_write, CreateID, UpdateID, leaderTxn_put, leaderCmp. rewrite Hk, (bool_decide_eq_false_2 (Some (sig i) = _)) by (intros [= ?%sig_inj]; done).
  rewrite !andb_false_r. case_decide; destruct n; intros [= <- <-]; done.
Qed.
Lemma generate_leader n sg v st r st' : generate_write n sg v st = (r, st') → leader_key st' = leader_key st.
Proof.
  unfold generate_write, CreateID, UpdateID, leaderTxn_put. case_decide; destruct n; intros [= _ <-]; repeat case_match; done.
Qed.

(** A step that keeps the key of whoever holds a lease that stays alive, and the
    leases; the changed server asks for what was granted. *)
Lemma inv_step k k' ss i sv' : election_inv (mkSystem k ss) →
  (∀ l, l ∈ kv_leases k' → l ∈ kv_leases k ∨ l ∉ kv_granted k) → kv_granted k ⊆ kv_granted k' → kv_leases k' ⊆ kv_granted k' →
  (∀ j l, j ≠ i → (∃ sv, ss !! j = Some sv ∧ holds sv = Some l) → l ∈ kv_leases k' →
     leader_key (kv_etcd k) = Some (sig j) ∧ kv_lease k = l → leader_key (kv_etcd k') = Some (sig j) ∧ kv_lease k' = l) →
  (∀ l, holds sv' = Some l → l ∈ kv_leases k' → leader_key (kv_etcd k') = Some (sig i) ∧ kv_lease k' = l) →
  (∀ l, asked sv' = Some l → l ∈ kv_granted k') →
  election_inv (mkSystem k' (<[i := sv']> ss)).
Proof.
  intros [Hk Ha Hl] Hnew Hg Hl' Hother Hsv Hasked; simpl in *. split; simpl; [|intros j sv l Hj Hs|done].
  - intros j sv l Hj Hh Hin. destruct (decide (i = j)) as [->|Hij]; [rewrite lookup_insert_eq in Hj; simplify_eq; by apply Hsv|].
    rewrite lookup_insert_ne in Hj by done. assert (asked sv = Some l) as Has by (by unfold asked; destruct (sv_phase sv) eqn:Hp; unfold holds in *; rewrite ?Hp in *).
    destruct (Hnew l Hin) as [Hold|Hn]; [|by destruct (Hn (Ha _ _ _ Hj Has))]. apply Hother; [done|by eauto|done|by eapply Hk].
  - destruct (decide (i = j)) as [->|Hij]; [rewrite lookup_insert_eq in Hj; simplify_eq; by apply Hasked|].
    rewrite lookup_insert_ne in Hj by done. apply Hg. by eapply Ha.
Qed.
Lemma server_same_inv k ss i sv' : election_inv (mkSystem k ss) →
  (∀ l, holds sv' = Some l → l ∈ kv_leases k → leader_key (kv_etcd k) = Some (sig i) ∧ kv_lease k = l) →
  (∀ l, asked sv' = Some l → l ∈ kv_granted k) → election_inv (mkSystem k (<[i := sv']> ss)).
Proof. intros Hi Hh Ha. apply (inv_step k k); eauto. by destruct Hi. Qed.
(** A server that holds no lease does not matter. *)
Lemma inv_idle k ss i sv' : election_inv (mkSystem k ss) → asked sv' = None → election_inv (mkSystem k (<[i := sv']> ss)).
Proof.
  intros Hi Ha. apply server_same_inv; [done| |by rewrite Ha]. intros l Hh. by unfold asked, holds in *; destruct (sv_phase sv').
Qed.
Lemma resign_inv n k ss i sv r k' sv' : election_inv (mkSystem k ss) → ss !! i = Some sv → asked sv = None → asked sv' = None →
  ResignLeader n (sig i) k = (r, k') → election_inv (mkSystem k' (<[i := sv']> ss)).
Proof.
  intros Hi Hsv Hno Hno' Hr. assert (kv_leases k' = kv_leases k ∧ kv_granted k' = kv_granted k ∧
    (k' = k ∨ leader_key (kv_etcd k) = Some (sig i))) as (Hl & Hg & Hk).
  { unfold ResignLeader, leaderCmp, commit in Hr. case_bool_decide; destruct n; simplify_eq/=; eauto. }
  apply (inv_step k k'); rewrite ?Hl, ?Hg; [done|auto|done|by destruct Hi| |intros l Hh; by unfold asked, holds in *; destruct (sv_phase sv')|by rewrite Hno'].
  intros j l Hij _ _ [Hkey Hlease]. destruct Hk as [->|Hk]; [done|]. rewrite Hk in Hkey. by injection Hkey as ->%sig_inj.
Qed.
Lemma grant_inv n id k ss i r k' sv' : election_inv (mkSystem k ss) → id ∉ kv_granted k → holds sv' = None →
  (∀ l, asked sv' = Some l → r = Ok l) → Grant n id k = (r, k') → election_inv (mkSystem k' (<[i := sv']> ss)).
Proof.
  intros Hi Hid Hh Ha Hr. assert (kv_granted k ⊆ kv_granted k' ∧ kv_leases k' ⊆ {[id]} ∪ kv_leases k ∧ kv_etcd k' = kv_etcd k ∧ kv_lease k' = kv_lease k ∧
    kv_leases k' ⊆ kv_granted k' ∧ ∀ l, r = Ok l → l ∈ kv_granted k') as (Hg & Hl & He & Hle & Hsub & Hok).
  { destruct Hi as [_ _ Hi]. simpl in Hi. unfold Grant in Hr. destruct n; simplify_eq/=; split_and!; set_solver. }
  apply (inv_step k k'); [done| |done|done|by rewrite He, Hle|by rewrite Hh|by intros l Hl'%Ha; apply Hok].
  intros l Hin%Hl. set_solver.
Qed.
Lemma campaign_inv n lease k ss i r k' sv' : election_inv (mkSystem k ss) → lease ∈ kv_granted k →
  (∀ l, asked sv' = Some l → l = lease ∧ r = Ok true) → campaign n (sig i) lease k = (r, k') → election_inv (mkSystem k' (<[i := sv']> ss)).
Proof.
  intros Hi Hin Ha Hr. assert (kv_leases k' = kv_leases k ∧ kv_granted k' = kv_granted k ∧
    (k' = k ∧ r ≠ Ok true ∨ leader_key (kv_etcd k) = None ∧ leader_key (kv_etcd k') = Some (sig i) ∧ kv_lease k' = lease)) as (Hl & Hg & Hk).
  { unfold campaign, commit in Hr. case_bool_decide as Hnone; simpl in Hr; [case_bool_decide; simpl in Hr|]; destruct n; simplify_eq/=; eauto 10. }
  apply (inv_step k k'); rewrite ?Hl, ?Hg; [done|auto|done|by destruct Hi| | |by intros l [-> _]%Ha].
  - intros j l _ _ _ [Hkey Hlease]. destruct Hk as [[-> _]|(Hnone & _)]; [done|congruence].
  - intros l Hh _. assert (asked sv' = Some l) as [-> Hok]%Ha by (unfold asked, holds in *; by destruct (sv_phase sv')).
    destruct Hk as [[_ Hk]|(_ & ? & ?)]; done.
Qed.
Lemma loop_inv k ss i inp sv sv' k' : election_inv (mkSystem k ss) → ss !! i = Some sv → in_lease inp ∉ kv_granted k →
  loop_step (cfg i) inp sv k = Some (sv', k') → election_inv (mkSystem k' (<[i := sv']> ss)).
Proof.
  intros Hi Hsv Hfresh. pose proof (ei_key _ Hi i sv) as Hkey. pose proof (ei_asked _ Hi i sv) as Hask. simpl in *. unfold loop_step.
  destruct (sv_phase sv) as [| |l| since| |lease|lease|lease|lease|] eqn:Hp; unfold asked, holds in Hkey, Hask; rewrite Hp in *.
  - intros Hs. assert (k' = k ∧ asked sv' = None) as [-> Hno]; [|by apply inv_idle].
    destruct (GetCurrentLeader (in_net inp) k) as [[l|]| |]; [destruct (isMatchLeader (cfg i) l)|..]; injection Hs as <- <-; unfold asked, holds; simpl; by rewrite ?Hp.
  - destruct (ResignLeader _ _ k) as [r k1] eqn:Hr. intros [= <- <-]. eapply resign_inv; [done|done|by unfold asked, holds; rewrite Hp|by destruct r|done].
  - intros [= <- <-]. apply inv_idle; [done|]. unfold asked, holds, removedAllWatcher; simpl. by destruct (watched inp sv).
  - intros [= <- <-]. apply inv_idle; [done|]. unfold asked, holds, WatchLeader; simpl. by repeat case_match.
  - destruct (Grant _ _ k) as [r k1] eqn:Hr. intros [= <- <-]. eapply grant_inv; [done|done|by destruct r| |done].
    unfold asked, holds; simpl. destruct r; naive_solver.
  - destruct (campaign _ _ lease k) as [r k1] eqn:Hr. intros [= <- <-]. eapply campaign_inv; [done|exact (Hask lease Hsv eq_refl)| |done].
    unfold asked, holds; simpl. destruct r as [[]| |]; simpl; intros l; naive_solver.
  - intros [= <- <-]. destruct (in_ok inp); [|by apply inv_idle]. apply server_same_inv; [done|..]; unfold asked, holds; simpl; intros l; eauto.
  - destruct (in_ok inp); intros [= <- <-]. apply server_same_inv; [done|..]; unfold asked, holds; simpl; intros l; eauto.
  - intros [= <- <-]. destruct (in_ok inp); [|by apply inv_idle]. apply server_same_inv; [done|..]; unfold asked, holds; simpl; intros l; eauto.
  - intros [= <- <-]. apply inv_idle; [done|]. unfold asked, holds. by rewrite Hp.
Qed.
Lemma step_inv s s' : step s s' → election_inv s → election_inv s'.
Proof.
  intros Hs Hi. destruct Hs as [k ss i inp sv sv' k' Hsv Hf Hl|k ss i n v r st Hg|k ss lease|k ss i|k ss i _].
  - by eapply loop_inv.
  - destruct Hi as [H1 H2 H3]. split; simpl in *; [|done..]. by rewrite (generate_leader _ _ _ _ _ _ Hg).
  - destruct Hi as [H1 H2 H3]. assert (kv_leases (expire lease k) = kv_leases k ∖ {[lease]} ∧ kv_granted (expire lease k) = kv_granted k) as [Hl Hg]
      by (unfold expire; by case_bool_decide).
    split; simpl in *; rewrite ?Hl, ?Hg; [|done|set_solver]. intros i sv l Hsv Hh [Hin Hne%not_elem_of_singleton]%elem_of_difference.
    destruct (H1 i sv l Hsv Hh Hin) as [Hk Hle]. unfold expire. rewrite bool_decide_eq_false_2 by (intros [_ ?]; congruence). done.
  - destruct Hi as [H1 H2 H3]. split; simpl in *; [| |done]; intros j sv l [_ Hj]%lookup_delete_Some; eauto.
  - by apply inv_idle.
Qed.
Lemma system_reachable_inv s : rtc step initial s → election_inv s.
Proof. intros Hr. assert (election_inv initial) as Hi by apply initial_inv. induction Hr as [|x y z Hs _ IH]; [done|]. apply IH. by eapply step_inv. Qed.

(** C12. PD never has two leaders: over any interleaving of the loops of any
    number of servers, with lost requests and answers, expiring leases, stopped
    and restarted servers, at most one server that takes itself for the leader has
    a lease that is alive; while it has, the leader key is its own, no other
    server can resign or win a campaign, and no other server can reserve ids. *)
Theorem one_leader s i lease : rtc step initial s → leads s i lease →
  (∀ j lease', leads s j lease' → j = i ∧ lease' = lease) ∧
  leader_key (kv_etcd (sy_kv s)) = Some (sig i) ∧
  ∀ j n, j ≠ i →
    (∀ r k', ResignLeader n (sig j) (sy_kv s) = (r, k') → k' = sy_kv s ∧ ∀ u, r ≠ Ok u) ∧
    (∀ l r k', campaign n (sig j) l (sy_kv s) = (r, k') → k' = sy_kv s ∧ r ≠ Ok true) ∧
    (∀ v r st, generate_write n (sig j) v (kv_etcd (sy_kv s)) = (r, st) → st = kv_etcd (sy_kv s) ∧ ∀ m, r ≠ Ok m).
Proof.
  intros Hi%system_reachable_inv (sv & Hsv & _ & Hh & Hal). destruct (ei_key _ Hi i sv lease Hsv Hh Hal) as [Hk Hl]. split_and!; [|done|].
  - intros j lease' (sv' & Hsv' & _ & Hh' & Hal'). destruct (ei_key _ Hi j sv' lease' Hsv' Hh' Hal') as [Hk' Hl'].
    rewrite Hk in Hk'. injection Hk' as ->%sig_inj. split; congruence.
  - intros j n Hij. split_and!; intros *; [by eapply Resign_other|by eapply campaign_held|by eapply generate_other].
Qed.
(** ** Somebody wins *)
(** A server that runs alone: its requests are answered, a lease that is alive is
    kept alive, nothing is new. *)
Definition answered (sv : server) (k : kv) : input :=
  mkInput NetOk (fresh (kv_granted k)) (match sv_phase sv with PLead l => bool_decide (l ∈ kv_leases k) | _ => true end) NoNews (sv_watchers sv).
Fixpoint run_alone (c : Cfg) (n : nat) (sv : server) (k : kv) : option (server * kv) :=
  match n with
  | O => Some (sv, k)
  | S n' => match loop_step c (answered sv k) sv k with Some (sv', k') => run_alone c n' sv' k' | None => None end
  end.
Definition elected (c : Cfg) (sv : server) (k : kv) : Prop :=
  sv_isLeader sv = true ∧ (∃ lease, sv_phase sv = PLead lease ∧ lease ∈ kv_leases k) ∧ leader_key (kv_etcd k) = Some (marshalLeader c).
Definition wins (c : Cfg) (n : nat) (sv : server) (k : kv) : Prop := ∃ m sv' k', (m ≤ n)%nat ∧ run_alone c m sv k = Some (sv', k') ∧ elected c sv' k'.
Lemma wins_step c n sv k sv' k' : loop_step c (answered sv k) sv k = Some (sv', k') → wins c n sv' k' → wins c (S n) sv k.
Proof. intros Hs (m & sv2 & k2 & Hm & Hr & He). exists (S m), sv2, k2. split; [lia|]. simpl. by rewrite Hs. Qed.
Lemma wins_more c n m sv k : wins c n sv k → (n ≤ m)%nat → wins c m sv k.
Proof. intros (j & sv' & k' & Hj & ?) Hle. exists j, sv', k'. split; [lia|done]. Qed.
(** From the transaction on, with a lease that is alive. *)
Lemma wins_txn c sv k lease : sv_phase sv = PTxn lease → lease ∈ kv_leases k → leader_key (kv_etcd k) = None → wins c 3 sv k.
Proof.
  intros Hp Hl Hk. eapply wins_step; [unfold loop_step, campaign; rewrite Hp, bool_decide_eq_true_2, bool_decide_eq_true_2 by done; reflexivity|].
  eapply wins_step; [reflexivity|]. eapply wins_step; [reflexivity|]. exists 0%nat. do 2 eexists. split_and!; [done|reflexivity|].
  split_and!; [done| |done]. exists lease. done.
Qed.
Lemma wins_grant c sv k : sv_phase sv = PGrant → leader_key (kv_etcd k) = None → wins c 4 sv k.
Proof.
  intros Hp Hk. eapply wins_step; [unfold loop_step; rewrite Hp; reflexivity|]. eapply wins_txn; [reflexivity|simpl; set_solver|done].
Qed.
Lemma wins_top c sv k : sv_phase sv = PTop → leader_key (kv_etcd k) = None → wins c 5 sv k.
Proof. intros Hp Hk. eapply wins_step; [unfold loop_step; rewrite Hp; simpl; rewrite Hk; reflexivity|]. by apply wins_grant. Qed.
Lemma wins_lead c sv k lease : sv_phase sv = PLead lease → lease ∉ kv_leases k → leader_key (kv_etcd k) = None → wins c 6 sv k.
Proof.
  intros Hp Hl Hk. eapply (wins_step _ _ _ _ (disableLeader sv) k); [|by apply wins_top].
  unfold loop_step, answered. rewrite Hp. simpl. by rewrite bool_decide_eq_false_2.
Qed.
Lemma wins_start c sv k lease : sv_phase sv = PStart lease → lease ∉ kv_leases k → leader_key (kv_etcd k) = None → wins c 7 sv k.
Proof.
  intros Hp Hl Hk. eapply (wins_step _ _ _ _ (goto (answered sv k) (PLead lease) sv) k); [unfold loop_step, answered; by rewrite Hp|by eapply wins_lead].
Qed.
Lemma wins_keep c sv k lease : sv_phase sv = PKeep lease → lease ∉ kv_leases k → leader_key (kv_etcd k) = None → wins c 8 sv k.
Proof.
  intros Hp Hl Hk. eapply (wins_step _ _ _ _ (enableLeader lease sv) k); [unfold loop_step, answered; by rewrite Hp|by eapply wins_start].
Qed.

(** Whether a server is about to wait for a deletion that has already happened, or
    waits for its own lock. *)
Definition missed (sv : server) (k : kv) : bool :=
  match sv_phase sv with PWatch _ | PBlocked => true | PWatching since => bool_decide (kv_deletes k ≤ since)%nat | _ => false end.
(** C17. An election ends: whenever there is no leader key, wherever its loop is
    and whatever became of its lease, a server that runs alone and whose requests
    are answered is the leader, with a lease that is alive, after at most eight
    requests; unless it waits for a deletion of the key that has happened, or is
    blocked by its own watchers. *)
Theorem election_completes s i sv : rtc step initial s → sy_servers s !! i = Some sv →
  leader_key (kv_etcd (sy_kv s)) = None → missed sv (sy_kv s) = false →
  ∃ n sv' k', (n ≤ 8)%nat ∧ run_alone (cfg i) n sv (sy_kv s) = Some (sv', k') ∧ elected (cfg i) sv' k'.
Proof.
  intros Hi%system_reachable_inv Hsv Hk Hm. assert (∀ l, holds sv = Some l → l ∉ kv_leases (sy_kv s)) as Hdead
    by (intros l Hh Hin; destruct (ei_key _ Hi i sv l Hsv Hh Hin); congruence).
  change (wins (cfg i) 8 sv (sy_kv s)). unfold missed, holds in *. destruct (sv_phase sv) as [| |l|since| |lease|lease|lease|lease|] eqn:Hp.
  - eapply wins_more; [by apply wins_top|lia].
  - eapply wins_more; [eapply (wins_step _ 5); [unfold loop_step, ResignLeader, leaderCmp; rewrite Hp, Hk; reflexivity|by apply wins_top]|lia].
  - done.
  - apply bool_decide_eq_false in Hm. eapply wins_more; [eapply (wins_step _ 4); [|apply (wins_grant _ (goto (answered sv (sy_kv s)) PGrant sv)); done]|lia].
    unfold loop_step, WatchLeader. rewrite Hp, bool_decide_eq_true_2 by lia. done.
  - eapply wins_more; [by apply wins_grant|lia].
  - destruct (decide (lease ∈ kv_leases (sy_kv s))) as [Hin|Hout]; [eapply wins_more; [by eapply wins_txn|lia]|].
    eapply wins_more; [eapply (wins_step _ 5); [|apply (wins_top _ (goto (answered sv (sy_kv s)) PTop sv)); done]|lia].
    unfold loop_step, campaign. by rewrite Hp, Hk, bool_decide_eq_true_2, bool_decide_eq_false_2 by done.
  - by eapply wins_keep; [|apply Hdead|].
  - eapply wins_more; [by eapply wins_start; [|apply Hdead|]|lia].
  - eapply wins_more; [eapply wins_lead; [done|by apply Hdead|done]|lia].
  - done.
Qed.

(** ** A deletion nobody sees *)
(** Steps without new, stopped or cancelled watchers. *)
Inductive quiet : system → system → Prop :=
  | quiet_loop k ss i inp sv sv' k' :
      ss !! i = Some sv → in_lease inp ∉ kv_granted k → in_news inp = NoNews → loop_step (cfg i) inp sv k = Some (sv', k') →
      quiet (mkSystem k ss) (mkSystem k' (<[i := sv']> ss))
  | quiet_alloc k ss i n v r st :
      generate_write n (sig i) v (kv_etcd k) = (r, st) → quiet (mkSystem k ss) (mkSystem (set_etcd st k) ss)
  | quiet_expire k ss lease : quiet (mkSystem k ss) (mkSystem (expire lease k) ss).
(** No leader key, and every server watches for a deletion from now on or is
    blocked. *)
Definition waiting_for_ever (s : system) : Prop :=
  leader_key (kv_etcd (sy_kv s)) = None ∧ ∀ i sv, sy_servers s !! i = Some sv → (sv_phase sv = PWatching (kv_deletes (sy_kv s)) ∨ sv_phase sv = PBlocked) ∧ sv_isLeader sv = false.
Lemma quiet_waiting s s' : quiet s s' → waiting_for_ever s → waiting_for_ever s'.
Proof.
  intros Hs [Hk Hw]. destruct Hs as [k ss i inp sv sv' k' Hsv _ Hnews Hl|k ss i n v r st Hg|k ss lease]; simpl in *.
  - destruct (Hw i sv Hsv) as [Hp Hf]. assert (k' = k ∧ (sv_phase sv' = PWatching (kv_deletes k) ∨ sv_phase sv' = PBlocked) ∧ sv_isLeader sv' = false) as (-> & Hp' & Hf').
    { destruct Hp as [Hp|Hp]; unfold loop_step, WatchLeader in Hl; rewrite Hp in Hl; [rewrite bool_decide_eq_false_2, Hnews in Hl by lia|]; injection Hl as <- <-; eauto. }
    split; [done|]. intros j sv2. simpl. destruct (decide (i = j)) as [->|Hij]; [rewrite lookup_insert_eq|rewrite lookup_insert_ne by done; apply Hw].
    by intros [= <-].
  - split; [simpl; by rewrite (generate_leader _ _ _ _ _ _ Hg)|done].
  - unfold expire. rewrite Hk, bool_decide_eq_false_2 by (intros [[? ?] _]; done). done.
Qed.
(** The deletion of the leader key can be missed by everybody: a server reads
    the leader and only then opens its watch, which does not look back.  When the
    lease of a leader that is gone runs out in between, on every server, the key is
    absent and all of them wait for its deletion: however long they run, no server
    campaigns. *)
Theorem lost_deletion_leaves_no_leader s s' : rtc step initial s → waiting_for_ever s → rtc quiet s s' →
  leader_key (kv_etcd (sy_kv s')) = None ∧ ∀ i sv, sy_servers s' !! i = Some sv → sv_isLeader sv = false.
Proof.
  intros _ Hw Hr. assert (waiting_for_ever s') as [Hk Hf]; [|split; [done|]; intros i sv Hi; by apply (Hf i)].
  induction Hr as [|x y z Hq _ IH]; [done|]. apply IH. by eapply quiet_waiting.
Qed.
(** A leader that is deposed while it has watchers is lost to PD until it is
    restarted: when it comes to watch its successor it locks the notifier twice.  From
    then on its loop never moves, whatever the others do, and it never leads again. *)
Theorem deposed_leader_with_watchers_blocks c i l sv k sv1 k1 :
  sv_phase sv = PWatch l → watched i sv = true → loop_step c i sv k = Some (sv1, k1) →
  sv_phase sv1 = PBlocked ∧ ∀ k' n, (∀ j, loop_step c j sv1 k' = Some (sv1, k')) ∧ ¬ wins c n sv1 k'.
Proof.
  intros Hp Hw. unfold loop_step at 1. rewrite Hp. intros [= <- <-]. unfold removedAllWatcher. rewrite Hw. split; [done|]. intros k' n. set (sv1 := goto _ _ _).
  assert (∀ j k2, loop_step c j sv1 k2 = Some (sv1, k2)) as Hst by done. split; [done|]. intros (m & sv' & k2 & _ & Hr & _ & (lease & Hlead & _) & _).
  assert (sv' = sv1 ∧ k2 = k') as [-> _]; [|done]. clear Hlead. revert Hr. induction m as [|m IH]; simpl; [by intros [= -> ->]|]. exact IH.
Qed.
(** ** Schedules *)
Inductive action := ALoop (i : nat) (inp : input) | AExpire (lease : Z) | AStop (i : nat) | AStart (i : nat).
Definition act (a : action) (s : system) : option system :=
  let '(mkSystem k ss) := s in
  match a with
  | ALoop i inp =>
      match ss !! i with
      | Some sv =>
          if bool_decide (in_lease inp ∈ kv_granted k) then None
          else match loop_step (cfg i) inp sv k with Some (sv', k') => Some (mkSystem k' (<[i := sv']> ss)) | None => None end
      | None => None
      end
  | AExpire lease => Some (mkSystem (expire lease k) ss)
  | AStop i => Some (mkSystem k (delete i ss))
  | AStart i => match ss !! i with None => Some (mkSystem k (<[i := fresh_server]> ss)) | Some _ => None end
  end.
Fixpoint perform (l : list action) (s : system) : option system :=
  match l with [] => Some s | a :: l' => match act a s with Some s' => perform l' s' | None => None end end.
Lemma act_step a s s' : act a s = Some s' → step s s'.
Proof.
  destruct s as [k ss]. destruct a as [i inp|lease|i|i]; simpl.
  - destruct (ss !! i) as [sv|] eqn:Hsv; [|done]. case_bool_decide; [done|]. destruct (loop_step _ _ _ _) as [[sv' k']|] eqn:Hl; [|done].
    intros [= <-]. by econstructor.
  - intros [= <-]. constructor.
  - intros [= <-]. constructor.
  - destruct (ss !! i) eqn:Hn; [done|]. intros [= <-]. by constructor.
Qed.
Lemma perform_reachable l : ∀ s s', perform l s = Some s' → rtc step s s'.
Proof.
  induction l as [|a l IH]; intros s s' Hp; simpl in Hp; [by injection Hp as <-|]. destruct (act a s) as [s1|] eqn:Ha; [|done].
  eapply rtc_l; [by eapply act_step|by apply IH].
Qed.
End election.

(** ** Three servers *)
Fixpoint pos_string (n : positive) : string :=
  match n with xH => EmptyString | xO n' => String Ascii.zero (pos_string n') | xI n' => String Ascii.one (pos_string n') end.
Fixpoint string_pos (s : string) : positive :=
  match s with EmptyString => xH | String c s' => if decide (c = Ascii.zero) then xO (string_pos s') else xI (string_pos s') end.
Lemma string_pos_string n : string_pos (pos_string n) = n.
Proof. induction n as [n IH|n IH|]; simpl; by rewrite ?IH. Qed.
#[export] Instance bits_leader : LeaderProto.
Proof.
  refine {| marshal l := pos_string (encode (L_ID l, L_Name l, L_Addr l, L_EtcdClientAddr l));
            unmarshal s := match decode (string_pos s) with Some (i, n, a, u) => Some (mkLeader i n a u) | None => None end |}.
  intros [i n a u]. simpl. by rewrite string_pos_string, decode_encode.
Defined.
Definition sample_cfg (i : nat) : Cfg := mkCfg (Z.of_nat i) "p" "a" "u".
Lemma sample_ids i j : c_id (sample_cfg i) = c_id (sample_cfg j) → i = j.
Proof. apply Nat2Z.inj. Qed.
Definition fine (i : nat) (lease : Z) : action := ALoop i (mkInput NetOk lease true NoNews false).
(** Server 0 is elected. *)
Definition elect_0 : list action := [AStart 0; AStart 1; AStart 2; fine 0 7; fine 0 7; fine 0 8; fine 0 8; fine 0 8].
Definition after (l : list action) : system := default initial (perform sample_cfg l initial).
Lemma after_reachable l : match perform sample_cfg l initial with Some _ => True | None => False end → rtc (step sample_cfg) initial (after l).
Proof. unfold after. destruct (perform sample_cfg l initial) eqn:Hp; [|done]. intros _. by apply (perform_reachable sample_cfg l). Qed.
Lemma one_leader_witness : let s := after elect_0 in
  leads s 0 7 ∧ (∀ r k', ResignLeader NetOk (sig sample_cfg 1) (sy_kv s) = (r, k') → k' = sy_kv s) ∧ ∀ j lease, leads s j lease → j = 0%nat.
Proof.
  intros s. assert (leads s 0 7) as Hl by (eexists; split_and!; vm_compute; reflexivity).
  destruct (one_leader sample_cfg sample_ids s 0 7) as (H1 & _ & H2); [apply after_reachable; vm_compute; exact I|exact Hl|].
  split_and!; [exact Hl| |intros j lease Hj; apply (H1 j lease Hj)]. intros r k' Hr. destruct (H2 1%nat NetOk ltac:(discriminate)) as [H3 _]. by destruct (H3 r k' Hr).
Defined.
(** Its lease runs out: server 1 has not looked yet. *)
Lemma election_completes_witness : let s := after (elect_0 ++ [AExpire 7]) in
  ∃ n sv' k', (n ≤ 8)%nat ∧ run_alone (sample_cfg 1) n fresh_server (sy_kv s) = Some (sv', k') ∧ elected (sample_cfg 1) sv' k'.
Proof.
  intros s. apply (election_completes sample_cfg sample_ids s 1 fresh_server); [apply after_reachable; vm_compute; exact I|vm_compute; reflexivity..].
Defined.
(** Servers 1 and 2 read the leader, server 0 is stopped, its lease runs out, and
    only then the watches are opened. *)
Definition miss : list action := elect_0 ++ [fine 1 8; fine 2 8; AStop 0; AExpire 7; fine 1 8; fine 2 8].
Lemma lost_deletion_leaves_no_leader_witness : let s := after miss in
  sy_servers s = {[1%nat := mkServer (PWatching 1) false (Some "a"%string) false; 2%nat := mkServer (PWatching 1) false (Some "a"%string) false]} ∧
  ∀ s', rtc (quiet sample_cfg) s s' → leader_key (kv_etcd (sy_kv s')) = None.
Proof.
  intros s. assert (sy_servers s = {[1%nat := mkServer (PWatching 1) false (Some "a"%string) false; 2%nat := mkServer (PWatching 1) false (Some "a"%string) false]}) as Hs
    by (vm_compute; reflexivity).
  split; [exact Hs|]. intros s' Hq. apply (lost_deletion_leaves_no_leader sample_cfg s s'); [apply after_reachable; vm_compute; exact I| |exact Hq].
  split; [vm_compute; reflexivity|]. rewrite Hs. intros i sv [[_ <-]|[_ [_ <-]%lookup_singleton_Some]]%lookup_insert_Some; split; try (left; vm_compute; reflexivity); vm_compute; reflexivity.
Defined.
(** Server 0 leads with watchers, its lease runs out, server 1 wins, server 0 comes
    round to watch it. *)
Definition with_watchers (i : nat) (lease : Z) (ok : bool) : action := ALoop i (mkInput NetOk lease ok NoNews true).
Definition depose : list action :=
  elect_0 ++ [with_watchers 0 8 true; AExpire 7; fine 1 8; fine 1 8; fine 1 9; fine 1 9; fine 1 9; with_watchers 0 9 false; with_watchers 0 9 true].
Lemma deposed_leader_with_watchers_blocks_witness : let s := after depose in
  rtc (step sample_cfg) initial s ∧ ∃ sv1 k1, loop_step (sample_cfg 0) (mkInput NetOk 9 true NoNews true) (default fresh_server (sy_servers s !! 0%nat)) (sy_kv s) = Some (sv1, k1) ∧ sv_phase sv1 = PBlocked.
Proof.
  intros s. split; [apply after_reachable; vm_compute; exact I|]. set (sv := default fresh_server _).
  assert (∃ l, sv_phase sv = PWatch l ∧ watched (mkInput NetOk 9 true NoNews true) sv = true) as (l & Hp & Hw) by (eexists; split; vm_compute; reflexivity).
  destruct (loop_step (sample_cfg 0) (mkInput NetOk 9 true NoNews true) sv (sy_kv s)) as [[sv1 k1]|] eqn:Hl; [|unfold loop_step in Hl; rewrite Hp in Hl; discriminate Hl].
  exists sv1, k1. split; [reflexivity|]. exact (proj1 (deposed_leader_with_watchers_blocks (sample_cfg 0) _ l sv (sy_kv s) sv1 k1 Hp Hw Hl)).
Defined.
(** Before its keep-alive channel closes, a server whose lease has run out still
    takes itself for the leader, beside the new one. *)
Lemma deposed_leader_stays_flagged : let s := after (elect_0 ++ [AExpire 7; fine 1 8; fine 1 8; fine 1 9; fine 1 9; fine 1 9]) in
  rtc (step sample_cfg) initial s ∧ leads s 1 8 ∧ ∃ sv, sy_servers s !! 0%nat = Some sv ∧ sv_isLeader sv = true.
Proof. split_and!; [apply after_reachable; vm_compute; exact I|eexists; split_and!; vm_compute; reflexivity|eexists; split; vm_compute; reflexivity]. Qed.
