(* ===== verification/PDClient.v ===== *)
(** * Calls of PD

    pkg/pd/client.go (the client of PD: connections, retries), the dispatch of
    pkg/pdserver/rpc_handler.go (a server that is not the leader forwards to the
    leader it knows) on top of the election.  What a leader does with a request is
    [do], an argument: the handlers of Cluster and IdAlloc. *)

From S2P Require Import Prelude Encoding IdAlloc Election.

(** The calls of the service. *)
Inductive method :=
  | MRegisterWatcher | MWatcherHeartbeat | MGetClusterID | MGetInitParams | MAllocID | MGetLeader | MIsClusterBootstrap | MBootstrapCluster
  | MListStore | MPutStore | MGetStore | MCellHeartbeat | MStoreHeartbeat | MAskSplit | MReportSplit | MGetLastRanges.
(** What a call can fail with: the codes of gRPC the client looks at, PD's own
    error, the deadline of a call, the code of a closed connection, anything else. *)
Inductive rpc_error := Unavailable | FailedPrecondition | NotLeader | DeadlineExceeded | ConnClosing | OtherError | ErrConnectAll.
Record conn := mkConn { cn_addr : string; cn_open : bool }.
Record Client := mkClient {
  cl_name : string;
  cl_addrs : list string;
  cl_continuousFailureCount : Z;
  cl_conn : option conn;
  cl_lastAddr : string;
  cl_seq : Z;
}.
(** A request: who sent it first, its number there, and the rest. *)
Record Request (B : Type) := mkReq { req_From : string; req_ID : Z; req_body : B }.
Arguments mkReq {B} _ _ _.
Arguments req_From {B} _.
Arguments req_ID {B} _.
Arguments req_body {B} _.

(** ** Connecting *)
Section connect.
(** Which addresses answer [grpc.Dial]. *)
Context (dial : string → bool).
Fixpoint connect (addrs : list string) (failures : Z) : option string * Z :=
  match addrs with
  | [] => (None, failures)
  | addr :: addrs' => if dial addr then (Some addr, 0) else connect addrs' (failures + 1)
  end.
Definition close_conn (c : option conn) : option conn := match c with Some cn => Some (mkConn (cn_addr cn) false) | None => None end.
Definition resetConn (c : Client) : outcome rpc_error unit * Client :=
  match connect (cl_addrs c) (cl_continuousFailureCount c) with
  | (None, n) => (Err ErrConnectAll, mkClient (cl_name c) (cl_addrs c) n (close_conn (cl_conn c)) (cl_lastAddr c) (cl_seq c))
  | (Some addr, n) => (Ok tt, mkClient (cl_name c) (cl_addrs c) n (Some (mkConn addr true)) addr (cl_seq c))
  end.
Definition NewClient (name : string) (initAddrs : list string) : option Client :=
  match resetConn (mkClient name initAddrs 0 None "" 0) with (Ok _, c) => Some c | _ => None end.
Definition Close (c : Client) : Client := mkClient (cl_name c) (cl_addrs c) (cl_continuousFailureCount c) (close_conn (cl_conn c)) (cl_lastAddr c) (cl_seq c).
Definition SetName (name : string) (c : Client) : Client := mkClient name (cl_addrs c) (cl_continuousFailureCount c) (cl_conn c) (cl_lastAddr c) (cl_seq c).

(** ** Calling *)
Context {B R W : Type}.
(** What the network does with the next calls: a request or its reply can be lost,
    which a client cannot tell apart. *)
Inductive delivery := Delivered | RequestLost | ReplyLost.
(** A server that is reached at an address. *)
Abbreviation serving := (string → method → Request B → W * list delivery → outcome rpc_error R * (W * list delivery)).
(** gRPC on the connection of the client: a connection that was closed fails every
    call and reaches nobody; a call whose reply is lost has been executed. *)
Definition doRPC (serve : serving) (m : method) (req : Request B) (c : Client) (w : W * list delivery) : outcome rpc_error R * (W * list delivery) :=
  match cl_conn c with
  | Some cn =>
      if cn_open cn then
        match w.2 with
        | RequestLost :: fs => (Err Unavailable, (w.1, fs))
        | ReplyLost :: fs => (Err Unavailable, (serve (cn_addr cn) m req (w.1, fs)).2)
        | fs => serve (cn_addr cn) m req (w.1, tail fs)
        end
      else (Err ConnClosing, w)
  | None => (Panic, w)
  end.
Definition needRetry (e : rpc_error) : bool := match e with Unavailable | FailedPrecondition => true | _ => false end.
(** The loop of [proxyRPC]; [attempts]: how often it comes round before the
    deadline of the call. *)
Fixpoint rpc_loop (serve : serving) (attempts : nat) (m : method) (req : Request B) (c : Client) (w : W * list delivery) : outcome rpc_error R * Client * (W * list delivery) :=
  match attempts with
  | O => (Err DeadlineExceeded, c, w)
  | S attempts' =>
      match doRPC serve m req c w with
      | (Ok rsp, w) => (Ok rsp, c, w)
      | (Panic, w) => (Panic, c, w)
      | (Err e, w) =>
          if needRetry e then
            match resetConn c with
            | (Ok _, c) => rpc_loop serve attempts' m req c w
            | (Err e, c) => (Err e, c, w)
            | (Panic, c) => (Panic, c, w)
            end
          else match e with NotLeader => rpc_loop serve attempts' m req c w | _ => (Err e, c, w) end
      end
  end.
Definition stamp (req : Request B) (c : Client) : Request B * Client :=
  if bool_decide (req_From req = ""%string) && bool_decide (req_ID req = 0) then
    (mkReq (cl_name c) (cl_seq c) (req_body req), mkClient (cl_name c) (cl_addrs c) (cl_continuousFailureCount c) (cl_conn c) (cl_lastAddr c) (u64 (cl_seq c + 1)))
  else (req, c).
Definition proxyRPC (m : method) (serve : serving) (attempts : nat) (req : Request B) (c : Client) (w : W * list delivery) : outcome rpc_error R * Client * (W * list delivery) :=
  let '(req, c) := stamp req c in rpc_loop serve attempts m req c w.
Definition GetLeader := proxyRPC MGetLeader.
Definition AllocID := proxyRPC MAllocID.
Definition RegisterWatcher := proxyRPC MRegisterWatcher.
Definition WatcherHeartbeat := proxyRPC MWatcherHeartbeat.
Definition GetClusterID := proxyRPC MGetClusterID.
Definition GetInitParams := proxyRPC MGetInitParams.
Definition IsClusterBootstrapped := proxyRPC MIsClusterBootstrap.
Definition BootstrapCluster := proxyRPC MBootstrapCluster.
Definition ListStore := proxyRPC MListStore.
Definition PutStore := proxyRPC MPutStore.
Definition GetStore := proxyRPC MGetStore.
Definition CellHeartbeat := proxyRPC MCellHeartbeat.
Definition StoreHeartbeat := proxyRPC MStoreHeartbeat.
Definition AskSplit := proxyRPC MAskSplit.
Definition ReportSplit := proxyRPC MReportSplit.
Definition GetLastRanges := proxyRPC MGetLastRanges.

(** ** rpc_handler.go *)
(** [do i]: the handlers of server [i]; [proxy]: what its client of the leader
    does with the call. *)
Context (do : nat → method → Request B → W → outcome rpc_error R * W).
Definition doHandle (m : method) (i : nat) (sv : server) (proxy : serving) (req : Request B) (w : W * list delivery) : outcome rpc_error R * (W * list delivery) :=
  if sv_isLeader sv then let '(r, x) := do i m req w.1 in (r, (x, w.2))
  else match sv_leaderProxy sv with
       | None => (Err NotLeader, w)
       | Some addr => proxy addr m req w
       end.
(** The servers with their names, and who listens at an address. *)
Context (servers : gmap nat server) (server_name : nat → string) (listens : string → option nat).
(** The client a server makes for a leader ([resetLeaderRPCProxy]). *)
Definition leader_client (i : nat) (addr : string) : Client := mkClient (server_name i) [addr] 0 (Some (mkConn addr true)) addr 0.
(** A call of the server at [addr]; [depth] bounds how often it is forwarded
    before the deadline. *)
Fixpoint serve (attempts depth : nat) : serving := λ addr m req w,
  match depth with
  | O => (Err DeadlineExceeded, w)
  | S depth' =>
      match listens addr with
      | None => (Err Unavailable, w)
      | Some i =>
          match servers !! i with
          | None => (Err Unavailable, w)
          | Some sv => doHandle m i sv (λ leader m req w, let '(r, _, w) := proxyRPC m (serve attempts depth') attempts req (leader_client i leader) w in (r, w)) req w
          end
      end
  end.

(** ** What a caller gets *)
(** The client does not try again. *)
Definition final (r : outcome rpc_error R) : Prop := match r with Ok _ | Err OtherError => True | _ => False end.
Lemma stamp_again req c : req_From req ≠ ""%string → stamp req c = (req, c).
Proof. intros Hne. unfold stamp. by rewrite bool_decide_eq_false_2. Qed.
(** The leader a server answers for or forwards to. *)
Definition knows_leader (addr : string) (j : nat) : Prop :=
  ∃ i sv, listens addr = Some i ∧ servers !! i = Some sv ∧
    (sv_isLeader sv = true ∧ i = j ∨
     sv_isLeader sv = false ∧ ∃ addr' sv', sv_leaderProxy sv = Some addr' ∧ dial addr' = true ∧ listens addr' = Some j ∧ servers !! j = Some sv' ∧ sv_isLeader sv' = true).
Lemma connect_some (P : string → Prop) addrs : (∀ a, a ∈ addrs → dial a = true → P a) → (∃ a, a ∈ addrs ∧ dial a = true) →
  ∀ n, ∃ addr, connect addrs n = (Some addr, 0) ∧ P addr.
Proof.
  induction addrs as [|a l IH]; intros HP (x & Hin & Hd) n; [by apply elem_of_nil in Hin|]. simpl. destruct (dial a) eqn:Ha.
  - exists a. split; [done|]. apply HP; [left|done].
  - apply IH; [intros b Hb; apply HP; by right|]. apply elem_of_cons in Hin as [->|Hin]; [congruence|by exists x].
Qed.

(** How many deliveries fail, and how many replies are lost. *)
Definition faults : list delivery → nat := sum_list_with (λ d, match d with Delivered => 0 | _ => 1 end)%nat.
Definition lost_replies : list delivery → nat := sum_list_with (λ d, match d with ReplyLost => 1 | _ => 0 end)%nat.

(** *** One call that the leader [j] handles *)
Section one_call.
Context (j : nat) (m : method) (req : Request B).
Hypothesis from_somebody : req_From req ≠ ""%string.
Hypothesis handled : ∀ w, final (do j m req w).1.
Definition executed (k : nat) (w : W) : W := Nat.iter k (λ w, (do j m req w).2) w.
Lemma executed_add a b w : executed a (executed b w) = executed (a + b) w.
Proof. unfold executed. by rewrite Nat.iter_add. Qed.

(** The call was executed by the leader, once more than replies were lost at
    most, and its last answer came back; or [n] deliveries failed. *)
Definition served (n : nat) (w : W) (fs : list delivery) (r : outcome rpc_error R) (wf' : W * list delivery) : Prop :=
  ∃ k fs', wf' = (executed k w, fs') ∧ (faults fs' ≤ faults fs)%nat ∧
    ((∃ k', k = S k' ∧ r = (do j m req (executed k' w)).1 ∧ k' + lost_replies fs' ≤ lost_replies fs)%nat ∨
     (r = Err DeadlineExceeded ∧ k + lost_replies fs' ≤ lost_replies fs ∧ n + faults fs' ≤ faults fs)%nat).
Lemma final_not_deadline w : (do j m req w).1 ≠ Err DeadlineExceeded.
Proof. intros Heq. specialize (handled w). by rewrite Heq in handled. Qed.

Lemma rpc_loop_served (sv : serving) (G : string → Prop) N : (∀ a w fs, G a → served N w fs (sv a m req (w, fs)).1 (sv a m req (w, fs)).2) →
  ∀ n c w fs a, (n ≤ N)%nat → (∀ f, ∃ addr, connect (cl_addrs c) f = (Some addr, 0) ∧ G addr) → cl_conn c = Some (mkConn a true) → G a →
  ∃ r c' wf', rpc_loop sv n m req c (w, fs) = (r, c', wf') ∧ served n w fs r wf' ∧
    (∃ a', cl_conn c' = Some (mkConn a' true) ∧ G a') ∧ cl_seq c' = cl_seq c.
Proof.
  intros Hsv. induction n as [|n IH]; intros c w fs a Hn Hconn Hcn Ha.
  { eexists _, _, _. split; [done|]. split; [exists O, fs; split_and!; [done|done|right; split_and!; [done|lia|lia]]|eauto]. }
  assert (∀ w1 fs1 k, (faults fs1 < faults fs)%nat → (k + lost_replies fs1 ≤ lost_replies fs)%nat → w1 = executed k w →
    ∃ r c' wf', match resetConn c with (Ok _, c0) => rpc_loop sv n m req c0 (w1, fs1) | (Err e, c0) => (Err e, c0, (w1, fs1)) | (Panic, c0) => (Panic, c0, (w1, fs1)) end
      = (r, c', wf') ∧ served (S n) w fs r wf' ∧ (∃ a', cl_conn c' = Some (mkConn a' true) ∧ G a') ∧ cl_seq c' = cl_seq c) as Hagain.
  { intros w1 fs1 k Hf Hk ->. unfold resetConn. destruct (Hconn (cl_continuousFailureCount c)) as (addr & -> & Hg). set (c1 := mkClient _ _ _ _ _ _).
    destruct (IH c1 (executed k w) fs1 addr) as (r & c' & wf' & -> & (k1 & fs' & -> & Hf' & Hs) & Hc' & Hseq); [lia|done|done|done|]. eexists _, _, _. split; [done|].
    split; [|by split]. exists (k1 + k)%nat, fs'. rewrite executed_add. split; [done|]. split; [lia|]. destruct Hs as [(k' & -> & -> & Hl)|(-> & Hl & Hd)].
    - left. exists (k' + k)%nat. rewrite executed_add. split_and!; [done|done|lia].
    - right. split_and!; [done|lia|lia]. }
  cbn [rpc_loop]. unfold doRPC. rewrite Hcn. cbn [cn_open cn_addr fst snd].
  assert (∀ fs1, (faults fs1 ≤ faults fs)%nat → lost_replies fs1 = lost_replies fs →
    ∃ r c' wf', match sv a m req (w, fs1) with
      | (Ok rsp, w0) => (Ok rsp, c, w0) | (Panic, w0) => (Panic, c, w0)
      | (Err e, w0) => if needRetry e then match resetConn c with (Ok _, c0) => rpc_loop sv n m req c0 w0 | (Err e0, c0) => (Err e0, c0, w0) | (Panic, c0) => (Panic, c0, w0) end
                      else match e with NotLeader => rpc_loop sv n m req c w0 | _ => (Err e, c, w0) end
      end = (r, c', wf') ∧ served (S n) w fs r wf' ∧ (∃ a', cl_conn c' = Some (mkConn a' true) ∧ G a') ∧ cl_seq c' = cl_seq c) as Hcall.
  { intros fs1 Hf1 Hl1. pose proof (Hsv a w fs1 Ha) as (k & fs' & Heq & Hf & Hs). destruct (sv a m req (w, fs1)) as [r0 wf0]. cbn [fst snd] in *. subst wf0.
    assert (served (S n) w fs r0 (executed k w, fs')) as Hres.
    { exists k, fs'. split; [done|]. split; [lia|]. destruct Hs as [(k' & -> & -> & Hl)|(-> & Hl & Hd)]; [left; exists k'; split_and!; [done|done|lia]|right; split_and!; [done|lia|lia]]. }
    assert (final r0 ∨ r0 = Err DeadlineExceeded) as [Hfin| ->] by (destruct Hs as [(k' & _ & -> & _)|(-> & _)]; [left; apply handled|by right]).
    - exists r0, c. destruct r0 as [x|e|]; [|destruct e; try done|done]; eexists; (split; [done|]); (split; [done|]); eauto.
    - eexists _, _, _. split; [done|]. split; [done|]. eauto. }
  destruct fs as [|[| |] fs]; cbn [tail].
  - by apply Hcall.
  - by apply Hcall.
  - apply (Hagain w fs O); [cbn; lia|cbn; lia|done].
  - pose proof (Hsv a w fs Ha) as (k & fs' & Heq & Hf & Hs). rewrite Heq. cbn [needRetry]. apply (Hagain _ _ k); [cbn in *; lia| |done].
    destruct Hs as [(k1 & -> & _ & Hl)|(_ & Hl & Hd)]; cbn in *; lia.
Qed.
Lemma serve_served N depth a w fs : knows_leader a j → (0 < N)%nat → (1 < depth)%nat → served N w fs (serve N depth a m req (w, fs)).1 (serve N depth a m req (w, fs)).2.
Proof.
  assert (∀ d sv addr fs w, listens addr = Some j → servers !! j = Some sv → sv_isLeader sv = true → ∀ n, served n w fs (serve N (S d) addr m req (w, fs)).1 (serve N (S d) addr m req (w, fs)).2) as Hlead.
  { intros d sv addr fs' w' Hl Hs Hlead n. cbn [serve]. rewrite Hl, Hs. unfold doHandle. rewrite Hlead. cbn [fst snd]. destruct (do j m req w') as [r x] eqn:Hdo.
    exists 1%nat, fs'. change (executed 1 w') with (do j m req w').2. rewrite Hdo. split_and!; [done|done|]. left. exists O. change (executed 0 w') with w'. rewrite Hdo. split_and!; [done|done|lia]. }
  intros (i & sv & Hl & Hs & Hcase) HN Hd. destruct depth as [|[|depth]]; [lia|lia|]. destruct Hcase as [[Hi ->]|[Hi (addr' & sv' & Hp & Hdial & Hl' & Hs' & Hj)]]; [by eapply Hlead|].
  cbn [serve]. fold serve. rewrite Hl, Hs. unfold doHandle. rewrite Hi, Hp. unfold proxyRPC. rewrite stamp_again by done.
  destruct (rpc_loop_served (serve N (S depth)) (eq addr') N) with (n := N) (c := leader_client i addr') (w := w) (fs := fs) (a := addr') as (r & c' & wf' & Heq & Hsrv & _); [| | | | |].
  - intros a' w' fs' <-. by eapply Hlead.
  - lia.
  - intros f. exists addr'. unfold leader_client. cbn. by rewrite Hdial.
  - done.
  - done.
  - match goal with |- context [rpc_loop ?f N m req ?c ?x] => change (rpc_loop f N m req c x) with (rpc_loop (serve N (S depth)) N m req c x) end. rewrite Heq. exact Hsrv.
Qed.
End one_call.


(** A client does not survive an outage of PD: when no address answers while
    it reconnects, the call fails and the client is left with the connection it
    has closed; from then on every call fails at once, whatever servers are up,
    and never reaches one. *)
Theorem outage_breaks_client m req (c : Client) cn attempts depth w fs :
  cl_conn c = Some cn → cn_open cn = true → listens (cn_addr cn) = None → Forall (λ a, dial a = false) (cl_addrs c) → (0 < attempts)%nat → (0 < depth)%nat →
  ∃ c' fs', proxyRPC m (serve attempts depth) attempts req c (w, fs) = (Err ErrConnectAll, c', (w, fs')) ∧
    ∀ serve' m' req' n w', ∃ c2, proxyRPC m' serve' (S n) req' c' w' = (Err ConnClosing, c2, w') ∧ cl_conn c2 = cl_conn c'.
Proof.
  intros Hcn Hopen Hgone Hdead Ha Hd. unfold proxyRPC. destruct (stamp req c) as [req1 c1] eqn:Hst.
  assert (cl_conn c1 = Some cn ∧ cl_addrs c1 = cl_addrs c) as [Hcn1 Haddrs] by (unfold stamp in Hst; destruct (_ && _); by injection Hst as <- <-).
  assert (∀ n, (connect (cl_addrs c) n).1 = None) as Hnone.
  { clear - Hdead. induction Hdead as [|a l Ha _ IH]; intros n; simpl; [done|]. rewrite Ha. apply IH. }
  destruct attempts as [|attempts]; [lia|]. destruct depth as [|depth]; [lia|]. destruct cn as [a o]; cbn [cn_addr cn_open] in *. subst o.
  assert (∃ fs', doRPC (serve (S attempts) (S depth)) m req1 c1 (w, fs) = (Err Unavailable, (w, fs'))) as [fs' Hdo].
  { unfold doRPC. rewrite Hcn1. cbn [cn_open cn_addr serve fst snd]. rewrite Hgone. destruct fs as [|[| |] fs]; eauto. }
  cbn [rpc_loop]. rewrite Hdo. cbn [needRetry]. unfold resetConn. rewrite Haddrs.
  specialize (Hnone (cl_continuousFailureCount c1)). destruct (connect _ _) as [[|] n]; [done|]. eexists _, _. split; [done|].
  intros serve' m' req' k w'. destruct (stamp req' _) as [req2 c2] eqn:Hst2. exists c2.
  assert (cl_conn c2 = Some (mkConn a false)) as Hc2 by (unfold stamp in Hst2; destruct (_ && _); injection Hst2 as <- <-; cbn [cl_conn]; by rewrite Hcn1).
  cbn [rpc_loop]. unfold doRPC. rewrite Hc2. split; [done|]. cbn [cl_conn]. by rewrite Hcn1.
Qed.

(** Two servers that are not leaders and know each other forward a call for ever. *)
Lemma forwarding_cycle i j svi svj ai aj attempts depth : ∀ m req w, req_From req ≠ ""%string →
  listens ai = Some i → listens aj = Some j → servers !! i = Some svi → servers !! j = Some svj →
  sv_isLeader svi = false → sv_isLeader svj = false → sv_leaderProxy svi = Some aj → sv_leaderProxy svj = Some ai →
  serve attempts depth ai m req (w, []) = (Err DeadlineExceeded, (w, [])).
Proof.
  revert i j svi svj ai aj. induction depth as [|depth IH]; intros i j svi svj ai aj m req w Hf Hi Hj Hsi Hsj Hfi Hfj Hpi Hpj; [done|].
  cbn [serve]. rewrite Hi, Hsi. unfold doHandle. rewrite Hfi, Hpi. unfold proxyRPC. rewrite stamp_again by done. destruct attempts as [|attempts]; [done|].
  cbn [rpc_loop]. unfold doRPC at 1, leader_client at 1. cbn [cl_conn cn_open cn_addr fst snd tail].
  by rewrite (IH j i svj svi aj ai m req w Hf Hj Hi Hsj Hsi Hfj Hfi Hpj Hpi).
Qed.
End connect.

(** ** Two servers *)
Definition two_listen (a : string) : option nat := if decide (a = "a0"%string) then Some 0%nat else if decide (a = "a1"%string) then Some 1%nat else None.
Definition two_servers : gmap nat server := {[0%nat := mkServer (PLead 7) true None false; 1%nat := mkServer (PWatching 0) false (Some "a0"%string) false]}.
(** A leader that counts the calls it has executed. *)
Definition count_calls (i : nat) (_ : method) (req : Request Z) (w : list (nat * Z)) : outcome rpc_error Z * list (nat * Z) := (Ok (req_body req), (i, req_ID req) :: w).
Definition up (a : string) : bool := bool_decide (a = "a1"%string) || bool_decide (a = "a0"%string).
Definition a_client (addr : string) : Client := mkClient "store" ["a9"; "a1"]%string 0 (Some (mkConn addr true)) addr 4.
Lemma outage_breaks_client_witness : let down := λ _ : string, false in
  ∃ c' fs', proxyRPC down MAskSplit (serve down count_calls two_servers (λ _, "pd"%string) two_listen 3 3) 3 (mkReq "" 0 11) (a_client "a9") ([], []) = (Err ErrConnectAll, c', ([], fs')) ∧
    ∃ c2, proxyRPC down MAllocID (serve up count_calls two_servers (λ _, "pd"%string) two_listen 3 3) 3 (mkReq "" 0 11) c' ([], []) = (Err ConnClosing, c2, ([], [])).
Proof.
  intros down. destruct (outage_breaks_client down count_calls two_servers (λ _, "pd"%string) two_listen MAskSplit (mkReq "" 0 11) (a_client "a9") (mkConn "a9" true) 3 3 [] []) as (c' & fs' & H1 & H2);
    [reflexivity|reflexivity|reflexivity|by repeat constructor|lia|lia|].
  exists c', fs'. split; [exact H1|]. destruct (H2 (serve up count_calls two_servers (λ _, "pd"%string) two_listen 3 3) MAllocID (mkReq "" 0 11) 2%nat ([], [])) as (c2 & H3 & _). by exists c2.
Defined.

(** Leadership goes from server 0 to server 1 and ends there: each takes the other
    for the leader. *)
Definition ring_cfg (i : nat) : Cfg := mkCfg (Z.of_nat i) "p" (if decide (i = 0)%nat then "a0" else "a1") "u".
Definition closed (i : nat) (lease : Z) : action := ALoop i (mkInput NetOk lease false NoNews false).
Definition ring : list action :=
  [AStart 0; AStart 1; fine 0 7; fine 0 7; fine 0 8; fine 0 8; fine 0 8; fine 1 8; fine 1 8; AExpire 7;
   fine 1 8; fine 1 8; fine 1 9; fine 1 9; fine 1 9; closed 0 9; fine 0 9; fine 0 9; AExpire 8; closed 1 9].
Lemma ring_forwards_for_ever : ∃ s, rtc (step ring_cfg) initial s ∧
  ∀ attempts depth m (req : Request Z) w, req_From req ≠ ""%string →
    serve up count_calls (sy_servers s) (λ _, "pd"%string) two_listen attempts depth "a0" m req (w, []) = (Err DeadlineExceeded, (w, [])).
Proof.
  assert (∃ s, perform ring_cfg ring initial = Some s ∧ sy_servers s = {[0%nat := mkServer (PWatching 1) false (Some "a1"%string) false; 1%nat := mkServer PTop false (Some "a0"%string) false]})
    as (s & Hs & Hsv) by (eexists; split; [vm_compute; reflexivity|vm_compute; reflexivity]).
  exists s. split; [by apply (perform_reachable ring_cfg ring)|]. intros attempts depth m req w Hf. rewrite Hsv.
  by apply (forwarding_cycle up count_calls _ _ two_listen 0 1 (mkServer (PWatching 1) false (Some "a1"%string) false) (mkServer PTop false (Some "a0"%string) false) "a0" "a1").
Qed.
