(* ===== verification/StoreCache.v ===== *)
(** * PD's store cache (pkg/pdserver/cache_store.go, cache_clone.go)

    The stores PD knows, keyed by id, with the status their heartbeats report.
    Readers get clones, so the map is only changed through [createStoreInfo]
    and [updateStoreInfo].  A store moves UP -> Down -> Tombstone. *)

From S2P Require Import Prelude Meta.

(** [StoreStatus.Stats] is a pointer every constructor sets; times are
    nanoseconds, [time.Now()] is an argument. *)
Record StoreStatus := mkStoreStatus {
  Stats : StoreStats;
  LeaderCount : Z;
  LastHeartbeatTS : Z;
  blocked : bool;
}.
Record StoreInfo := mkStoreInfo { SMeta : Store; Status : option StoreStatus }.

Definition newStoreStatus : StoreStatus := mkStoreStatus emptyStoreStats 0 0 false.
Definition newStoreInfo (store : Store) : StoreInfo := mkStoreInfo store (Some newStoreStatus).

(** A deep copy: the value is the same. *)
Definition clone_store (s : StoreInfo) : StoreInfo :=
  mkStoreInfo (SMeta s)
    ((λ st, mkStoreStatus (Stats st) (LeaderCount st) (LastHeartbeatTS st) (blocked st)) <$> Status s).

Definition getStoreID (s : StoreInfo) : Z := Store_ID (SMeta s).
Definition isUp (s : StoreInfo) : bool := bool_decide (State (SMeta s) = UP).
Definition isTombstone (s : StoreInfo) : bool := bool_decide (State (SMeta s) = Tombstone).
Definition isOffline (s : StoreInfo) : bool := bool_decide (State (SMeta s) = Down).
Definition isBlocked (s : StoreInfo) : bool :=
  match Status s with None => true | Some st => blocked st end.

(** [time.Since(s.Status.LastHeartbeatTS)]; a nil status panics. *)
Definition downTime {E} (now : Z) (s : StoreInfo) : outcome E Z :=
  match Status s with None => Panic | Some st => Ok (now - LastHeartbeatTS st) end.

Definition set_state (st : StoreState) (m : Store) : Store :=
  mkStore (Store_ID m) (Address m) (Lables m) st (ClientAddress m).

(** ** Operations *)
Abbreviation storeCache := (gmap Z StoreInfo).
Definition newStoreCache : storeCache := ∅.

Inductive store_error := errStoreNotFound | errStoreRemoved | errStoreStillUp.

Definition createStoreInfo (sc : storeCache) (store : Store) : storeCache :=
  match sc !! Store_ID store with
  | Some _ => sc
  | None => <[Store_ID store := newStoreInfo store]> sc
  end.

Definition updateStoreInfo (sc : storeCache) (store : StoreInfo) : storeCache :=
  <[getStoreID store := store]> sc.

Definition getStoreWithoutLock (sc : storeCache) (storeID : Z) : option StoreInfo :=
  clone_store <$> sc !! storeID.
Definition getStore (sc : storeCache) (storeID : Z) : option StoreInfo :=
  getStoreWithoutLock sc storeID.

Definition getStores `{MapOrder} (sc : storeCache) : list StoreInfo :=
  clone_store <$> range_values sc.

(** Both work on a clone; [None] is "nothing to do". *)
Definition setStoreOffline (sc : storeCache) (storeID : Z) : outcome store_error (option StoreInfo) :=
  match getStoreWithoutLock sc storeID with
  | None => Err errStoreNotFound
  | Some store =>
      if isOffline store then Ok None
      else if isTombstone store then Err errStoreRemoved
      else Ok (Some (mkStoreInfo (set_state Down (SMeta store)) (Status store)))
  end.

Definition setStoreTombstone (sc : storeCache) (storeID : Z) (force : bool)
  : outcome store_error (option StoreInfo) :=
  match getStoreWithoutLock sc storeID with
  | None => Err errStoreNotFound
  | Some store =>
      if isTombstone store then Ok None
      else if isUp store && negb force then Err errStoreStillUp
      else Ok (Some (mkStoreInfo (set_state Tombstone (SMeta store)) (Some newStoreStatus)))
  end.

Definition foreach_store `{MapOrder} {E} (sc : storeCache) (fn : StoreInfo → outcome E bool)
  : outcome E unit :=
  (fix go (l : list StoreInfo) : outcome E unit :=
     match l with
     | [] => Ok tt
     | s :: l' => let! next := fn s in
                  if next : bool then go l' else Ok tt
     end) (range_values sc).

(** Label lookup and location ids. *)
Definition getLabelValue (s : StoreInfo) (key : string) : string :=
  default EmptyString
    (find_map (λ l, if decide (Label_Key l = key) then Some (Label_Value l) else None) (Lables (SMeta s))).

Definition getLocationID (s : StoreInfo) (keys : list string) : string :=
  (fix go (id : string) (ks : list string) : string :=
     match ks with
     | [] => id
     | k :: ks' =>
         let v := getLabelValue s k in
         if decide (v = EmptyString) then EmptyString else go (String.append id v) ks'
     end) EmptyString keys.

(** ** Lemmas *)
Lemma clone_store_id s : clone_store s = s.
Proof. by destruct s as [m [[]|]]. Qed.

Lemma getStore_lookup sc id : getStore sc id = sc !! id.
Proof.
  unfold getStore, getStoreWithoutLock. destruct (sc !! id); simpl; [|done]. by rewrite clone_store_id.
Qed.

Lemma elem_of_getStores `{MapOrder} sc s : s ∈ getStores sc ↔ ∃ id, sc !! id = Some s.
Proof.
  unfold getStores. rewrite list_elem_of_fmap. setoid_rewrite clone_store_id.
  rewrite <-elem_of_range_values. naive_solver.
Qed.

(** The cache stores every store under its own id. *)
Definition store_cache_wf (sc : storeCache) : Prop :=
  ∀ id s, sc !! id = Some s → getStoreID s = id.

Lemma createStoreInfo_wf sc store : store_cache_wf sc → store_cache_wf (createStoreInfo sc store).
Proof.
  intros Hwf id s. unfold createStoreInfo. destruct (sc !! Store_ID store); [apply Hwf|].
  intros [[<- <-]|[_ ?]]%lookup_insert_Some; auto.
Qed.

Lemma updateStoreInfo_wf sc s : store_cache_wf sc → store_cache_wf (updateStoreInfo sc s).
Proof. intros Hwf id s'. unfold updateStoreInfo. intros [[<- <-]|[_ ?]]%lookup_insert_Some; auto. Qed.
#[export] Hint Resolve createStoreInfo_wf updateStoreInfo_wf : go.
