(* ===== verification/CellCache.v ===== *)
(** * PD's cell cache (pkg/pdserver/cache_cell.go)

    The cells PD knows: a [CellTree] by key range, a map by cell id, and for
    each store the cells it leads and follows.  The cached [*CellInfo] values
    are shared by the maps but never changed in place (readers get clones), so
    they are modelled as values.  The invariant ties the four structures
    together; every operation keeps it. *)

From S2P Require Import Prelude BTree Meta CellTree.

Record CellInfo := mkCellInfo {
  CMeta : Cell;
  LeaderPeer : option Peer;
  DownPeers : list PeerStats;
  PendingPeers : list Peer;
}.

Definition newCellInfo (c : Cell) (leader : option Peer) : CellInfo := mkCellInfo c leader [] [].

(** A deep copy: the value is the same. *)
Definition clone_cell (cc : CellInfo) : CellInfo :=
  mkCellInfo (CMeta cc) (LeaderPeer cc) (DownPeers cc) (PendingPeers cc).

(** ** Accessors of a [CellInfo] *)
Definition getID (cc : CellInfo) : Z := Cell_ID (CMeta cc).
Definition getPeers (cc : CellInfo) : list Peer := Peers (CMeta cc).

(** A Go map from store ids to peers: a later peer of the same store wins. *)
Definition getFollowers (cc : CellInfo) : gmap Z Peer :=
  foldl (λ followers peer,
    if decide (Peer_ID <$> LeaderPeer cc = Some (Peer_ID peer)) then followers
    else <[Peer_StoreID peer := peer]> followers) ∅ (Peers (CMeta cc)).

Definition getStorePeer (cc : CellInfo) (storeID : Z) : option Peer :=
  find_map (λ p, if decide (Peer_StoreID p = storeID) then Some p else None) (Peers (CMeta cc)).
Definition getPendingPeer (cc : CellInfo) (peerID : Z) : option Peer :=
  find_map (λ p, if decide (Peer_ID p = peerID) then Some p else None) (PendingPeers cc).
Definition getPeer (cc : CellInfo) (peerID : Z) : option Peer :=
  find_map (λ p, if decide (Peer_ID p = peerID) then Some p else None) (Peers (CMeta cc)).

Definition set_peers (c : Cell) (ps : list Peer) : Cell :=
  mkCell (Cell_ID c) (Start c) (End c) (Epoch c) ps.
Definition removeStorePeer (cc : CellInfo) (storeID : Z) : CellInfo :=
  mkCellInfo (set_peers (CMeta cc) (filter (λ p, Peer_StoreID p ≠ storeID) (getPeers cc)))
    (LeaderPeer cc) (DownPeers cc) (PendingPeers cc).

Definition getStoreIDs (cc : CellInfo) : gmap Z unit :=
  foldl (λ m p, <[Peer_StoreID p := tt]> m) ∅ (getPeers cc).

(** ** The cache *)
Record cellCache (T : Type) := mkCellCache {
  tree : T;
  cells : gmap Z CellInfo;
  leaders : gmap Z (gmap Z CellInfo);
  followers : gmap Z (gmap Z CellInfo);
}.
Arguments mkCellCache {T} _ _ _ _.
Arguments tree {T} _.
Arguments cells {T} _.
Arguments leaders {T} _.
Arguments followers {T} _.

(** [cc.leaders[storeID][cellID]] *)
Definition lookup2 (m : gmap Z (gmap Z CellInfo)) (s id : Z) : option CellInfo :=
  m !! s ≫= λ cells, cells !! id.
(** [store, ok := m[storeID]; if !ok {...}; store[id] = v] *)
Definition insert2 (s id : Z) (v : CellInfo) (m : gmap Z (gmap Z CellInfo)) : gmap Z (gmap Z CellInfo) :=
  <[s := <[id := v]> (default ∅ (m !! s))]> m.
(** [delete(m[storeID], id)] *)
Definition delete2 (s id : Z) (m : gmap Z (gmap Z CellInfo)) : gmap Z (gmap Z CellInfo) :=
  alter (delete id) s m.

Section cell_cache.
Context {T : Type} `{OT : !OrderedTree CellItem Less T}.
Implicit Types cc : cellCache T.

Definition newCellCache : cellCache T := mkCellCache NewCellTree ∅ ∅ ∅.

Definition removeCell (cc : cellCache T) (origin : CellInfo) : cellCache T :=
  let id := getID origin in
  mkCellCache (Remove (tree cc) (CMeta origin)).2 (delete id (cells cc))
    (foldl (λ m p, delete2 (Peer_StoreID p) id m) (leaders cc) (getPeers origin))
    (foldl (λ m p, delete2 (Peer_StoreID p) id m) (followers cc) (getPeers origin)).

(** The loop over the peers of the new cell. *)
Definition add_peer (origin : CellInfo) (leader : Peer) (cc : cellCache T) (peer : Peer) : cellCache T :=
  let storeID := Peer_StoreID peer in
  if decide (Peer_ID peer = Peer_ID leader)
  then mkCellCache (tree cc) (cells cc) (insert2 storeID (getID origin) origin (leaders cc)) (followers cc)
  else mkCellCache (tree cc) (cells cc) (leaders cc) (insert2 storeID (getID origin) origin (followers cc)).

Definition addOrUpdateWithoutLock (cc : cellCache T) (origin : CellInfo) : cellCache T :=
  let cc1 := match cells cc !! getID origin with
             | Some old => removeCell cc old
             | None => cc
             end in
  let cc2 := mkCellCache (Update (tree cc1) (CMeta origin)) (<[getID origin := origin]> (cells cc1))
               (leaders cc1) (followers cc1) in
  match LeaderPeer origin with
  | None => cc2
  | Some leader =>
      if decide (Peer_ID leader = ZeroID) then cc2
      else foldl (add_peer origin leader) cc2 (getPeers origin)
  end.

Definition addOrUpdate (cc : cellCache T) (cellInfo : CellInfo) : cellCache T :=
  addOrUpdateWithoutLock cc cellInfo.
Definition createAndAdd (cc : cellCache T) (c : Cell) : cellCache T :=
  addOrUpdateWithoutLock cc (newCellInfo c None).

Definition searchCell (cc : cellCache T) (startKey : bytes) : option CellInfo :=
  let c := Search (tree cc) startKey in
  if decide (Cell_ID c = ZeroID) then None else cells cc !! Cell_ID c.

Definition getCell (cc : cellCache T) (id : Z) : option CellInfo := clone_cell <$> cells cc !! id.
Definition getCells `{MapOrder} (cc : cellCache T) : list CellInfo := clone_cell <$> range_values (cells cc).
Definition getStoreLeaderCount (cc : cellCache T) (storeID : Z) : nat :=
  size (default ∅ (leaders cc !! storeID)).

(** [randCell]: the first cell of the (unordered) map without down or pending
    peers; a cell without a leader is a fatal error. *)
Definition randCell `{MapOrder} {E} (m : gmap Z CellInfo) : outcome E (option CellInfo) :=
  (fix go (l : list CellInfo) : outcome E (option CellInfo) :=
     match l with
     | [] => Ok None
     | c :: l' =>
         match LeaderPeer c with
         | None => Panic
         | Some _ =>
             if decide (DownPeers c ≠ []) then go l'
             else if decide (PendingPeers c ≠ []) then go l'
             else Ok (Some (clone_cell c))
         end
     end) (range_values m).
Definition randFollowerCell `{MapOrder} {E} (cc : cellCache T) (storeID : Z) : outcome E (option CellInfo) :=
  randCell (default ∅ (followers cc !! storeID)).
Definition randLeaderCell `{MapOrder} {E} (cc : cellCache T) (storeID : Z) : outcome E (option CellInfo) :=
  randCell (default ∅ (leaders cc !! storeID)).

(** ** The invariant *)

(** [info] leads (or, with [false], follows) on store [s]. *)
Definition plays (leads : bool) (info : CellInfo) (s : Z) : Prop :=
  ∃ l p, LeaderPeer info = Some l ∧ Peer_ID l ≠ ZeroID ∧ p ∈ getPeers info ∧
         Peer_StoreID p = s ∧ if leads then Peer_ID p = Peer_ID l else Peer_ID p ≠ Peer_ID l.

Definition index_ok (leads : bool) (m : gmap Z (gmap Z CellInfo)) (cs : gmap Z CellInfo) : Prop :=
  ∀ s id info, lookup2 m s id = Some info ↔ cs !! id = Some info ∧ plays leads info s.

Record cache_inv (cc : cellCache T) : Prop := {
  ci_tree : disjoint_tree (tree cc);
  ci_tree_cells c : holds (tree cc) c → ∃ info, cells cc !! Cell_ID c = Some info ∧ CMeta info = c;
  ci_id id info : cells cc !! id = Some info → getID info = id;
  ci_leaders : index_ok true (leaders cc) (cells cc);
  ci_followers : index_ok false (followers cc) (cells cc);
}.

Lemma lookup2_insert2 m s id v s' id' :
  lookup2 (insert2 s id v m) s' id' =
  if decide (s = s' ∧ id = id') then Some v else lookup2 m s' id'.
Proof.
  unfold lookup2, insert2. destruct (decide (s = s')) as [->|Hs].
  - rewrite lookup_insert_eq; simpl. destruct (decide (id = id')) as [->|Hid].
    + by rewrite lookup_insert_eq, decide_True.
    + rewrite lookup_insert_ne, decide_False by naive_solver. by destruct (m !! s').
  - by rewrite lookup_insert_ne, decide_False by naive_solver.
Qed.

Lemma lookup2_delete2 m s id s' id' :
  lookup2 (delete2 s id m) s' id' = if decide (s = s' ∧ id = id') then None else lookup2 m s' id'.
Proof.
  unfold lookup2, delete2. destruct (decide (s = s')) as [->|Hs].
  - rewrite lookup_alter_eq. destruct (m !! s') as [inner|]; simpl; [|by case_decide].
    destruct (decide (id = id')) as [->|Hid].
    + by rewrite lookup_delete_eq, decide_True.
    + by rewrite lookup_delete_ne, decide_False by naive_solver.
  - by rewrite lookup_alter_ne, decide_False by naive_solver.
Qed.

Lemma lookup2_delete_all ps id m s' id' :
  lookup2 (foldl (λ m p, delete2 (Peer_StoreID p) id m) m ps) s' id' =
  if decide (id = id' ∧ s' ∈ (Peer_StoreID <$> ps)) then None else lookup2 m s' id'.
Proof.
  revert m; induction ps as [|p ps IH]; intros m; simpl.
  { rewrite decide_False; [done|]. intros [_ []%not_elem_of_nil]. }
  rewrite IH, lookup2_delete2. repeat case_decide; try done; set_solver.
Qed.

Lemma plays_store leads info s : plays leads info s → s ∈ (Peer_StoreID <$> getPeers info).
Proof. intros (l & p & _ & _ & Hp & <- & _). by apply list_elem_of_fmap_2. Qed.

Lemma index_ok_delete leads m cs id old :
  index_ok leads m cs → cs !! id = Some old →
  index_ok leads (foldl (λ m p, delete2 (Peer_StoreID p) id m) m (getPeers old)) (delete id cs).
Proof.
  intros Hok Hold s id' info. rewrite lookup2_delete_all. split.
  - case_decide as Hd; [done|]. intros [Hc Hp]%Hok. split; [|done].
    rewrite lookup_delete_ne; [done|]. intros <-. apply Hd. split; [done|].
    assert (info = old) as -> by congruence. by eapply plays_store.
  - intros [[Hne Hc]%lookup_delete_Some Hp]. rewrite decide_False by naive_solver. by apply Hok.
Qed.

Lemma removeCell_inv cc id old :
  cache_inv cc → cells cc !! id = Some old → cache_inv (removeCell cc old).
Proof.
  intros [Ht Htc Hid Hl Hf] Hold. pose proof (Hid _ _ Hold) as Hoid.
  unfold removeCell. rewrite Hoid. split; simpl.
  - by apply Remove_disjoint.
  - intros c Hc. pose proof (Remove_spec (tree cc) (CMeta old) Ht) as Hspec.
    destruct (Remove (tree cc) (CMeta old)) as [b t'], Hspec as [_ Hspec]; simpl in *.
    apply Hspec in Hc as [Hc Hn]. destruct (Htc _ Hc) as (info & Hinfo & Hm).
    exists info. split; [|done]. rewrite lookup_delete_ne; [done|]. intros Heq.
    apply Hn. assert (info = old) as -> by (rewrite <-Heq in Hinfo; congruence).
    rewrite Hm. split; [|done]. apply in_cell_start. by apply Ht.
  - intros id' info [_ ?]%lookup_delete_Some. auto.
  - by apply index_ok_delete.
  - by apply index_ok_delete.
Qed.

Lemma add_peers_spec origin leader ps cc :
  let cc' := foldl (add_peer origin leader) cc ps in
  tree cc' = tree cc ∧ cells cc' = cells cc ∧
  (∀ s id, lookup2 (leaders cc') s id =
     if decide (id = getID origin ∧ Exists (λ p, Peer_StoreID p = s ∧ Peer_ID p = Peer_ID leader) ps)
     then Some origin else lookup2 (leaders cc) s id) ∧
  (∀ s id, lookup2 (followers cc') s id =
     if decide (id = getID origin ∧ Exists (λ p, Peer_StoreID p = s ∧ Peer_ID p ≠ Peer_ID leader) ps)
     then Some origin else lookup2 (followers cc) s id).
Proof.
  revert cc; induction ps as [|p ps IH]; intros cc; simpl.
  { split; [done|]. split; [done|]. split; intros s id;
      (rewrite decide_False; [done|]); by intros [_ ?%Exists_nil]. }
  destruct (IH (add_peer origin leader cc p)) as (-> & -> & Hl & Hf).
  unfold add_peer in *. destruct (decide (Peer_ID p = Peer_ID leader)) as [E|E]; simpl in *;
    (split; [done|]; split; [done|]); split; intros s id; rewrite ?Hl, ?Hf, ?lookup2_insert2;
    repeat case_decide; rewrite ?Exists_cons in *; naive_solver.
Qed.

(** Registering a cell whose id no index mentions yet. *)
Lemma index_ok_insert leads m cs m' origin :
  index_ok leads m cs → cs !! getID origin = None →
  (∀ s id info, lookup2 m' s id = Some info ↔
     (id = getID origin ∧ info = origin ∧ plays leads origin s) ∨
     (id ≠ getID origin ∧ lookup2 m s id = Some info)) →
  index_ok leads m' (<[getID origin := origin]> cs).
Proof.
  intros Hok Hnone Hm' s id info. rewrite Hm', lookup_insert_Some, (Hok s id info). naive_solver.
Qed.

Lemma index_ok_absent leads m cs id s info : index_ok leads m cs → cs !! id = None →
  lookup2 m s id = Some info → False.
Proof. intros Hok Hn [? _]%Hok. congruence. Qed.

Lemma addOrUpdateWithoutLock_inv cc origin :
  cache_inv cc → valid_cell (CMeta origin) → cache_inv (addOrUpdateWithoutLock cc origin).
Proof.
  intros Hinv Hv. unfold addOrUpdateWithoutLock.
  set (cc1 := match cells cc !! getID origin with Some old => removeCell cc old | None => cc end).
  assert (cache_inv cc1 ∧ cells cc1 !! getID origin = None) as [[Ht Htc Hid Hl Hf] Hnone].
  { subst cc1. destruct (cells cc !! getID origin) as [old|] eqn:E; [|done].
    split; [by eapply removeCell_inv|]. unfold removeCell; simpl.
    rewrite (ci_id _ Hinv _ _ E). apply lookup_delete_eq. }
  clearbody cc1. clear Hinv cc.
  assert (∀ c, holds (Update (tree cc1) (CMeta origin)) c →
    ∃ info, <[getID origin := origin]> (cells cc1) !! Cell_ID c = Some info ∧ CMeta info = c) as Htc'.
  { intros c Hc. destruct (proj1 (Update_holds _ _ c Ht Hv) Hc) as [->|[Hc1 _]].
    - exists origin. by rewrite lookup_insert_eq.
    - destruct (Htc _ Hc1) as (info & Hi & Hm). exists info. split; [|done].
      rewrite lookup_insert_ne; [done|]. intros E. rewrite <-E in Hi. congruence. }
  assert (∀ id info, <[getID origin := origin]> (cells cc1) !! id = Some info → getID info = id) as Hid'.
  { intros id info [[<- <-]|[_ ?]]%lookup_insert_Some; auto. }
  assert ((∀ s b, ¬ plays b origin s) → ∀ b m, index_ok b m (cells cc1) →
    index_ok b m (<[getID origin := origin]> (cells cc1))) as Hnoleader.
  { intros Hno b m Hok. apply (index_ok_insert b m); [done..|]. intros s id info. split.
    - intros Hlk. right. split; [|done]. intros ->. by eapply index_ok_absent.
    - naive_solver. }
  destruct (LeaderPeer origin) as [leader|] eqn:El.
  2:{ split; simpl; auto using Update_disjoint; apply Hnoleader; auto;
        intros s b (l & p & E & _); congruence. }
  case_decide as Hz.
  { split; simpl; auto using Update_disjoint; apply Hnoleader; auto;
      intros s b (l & p & E & Hnz & _); congruence. }
  destruct (add_peers_spec origin leader (getPeers origin)
    (mkCellCache (Update (tree cc1) (CMeta origin)) (<[getID origin := origin]> (cells cc1))
       (leaders cc1) (followers cc1))) as (E1 & E2 & E3 & E4). simpl in *.
  assert (∀ b s, plays b origin s ↔ Exists (λ p, Peer_StoreID p = s ∧
    if b then Peer_ID p = Peer_ID leader else Peer_ID p ≠ Peer_ID leader) (getPeers origin)) as Hplays.
  { intros b s. unfold plays. rewrite Exists_exists. naive_solver. }
  split; rewrite ?E1, ?E2; auto using Update_disjoint.
  - apply (index_ok_insert true (leaders cc1)); [done..|]. intros s id info. rewrite E3, (Hplays true).
    case_decide as Hd; [naive_solver|]. split; [|naive_solver].
    intros Hlk. right. split; [|done]. intros ->. exact (index_ok_absent _ _ _ _ _ _ Hl Hnone Hlk).
  - apply (index_ok_insert false (followers cc1)); [done..|]. intros s id info. rewrite E4, (Hplays false).
    case_decide as Hd; [naive_solver|]. split; [|naive_solver].
    intros Hlk. right. split; [|done]. intros ->. exact (index_ok_absent _ _ _ _ _ _ Hf Hnone Hlk).
Qed.

Lemma newCellCache_inv : cache_inv newCellCache.
Proof.
  split; simpl; try done.
  - apply NewCellTree_disjoint.
  - intros c Hc. unfold holds, NewCellTree in Hc. rewrite ot_empty_items in Hc.
    by apply not_elem_of_nil in Hc.
  - intros s id info. split; [done | by intros [? _]].
  - intros s id info. split; [done | by intros [? _]].
Qed.

(** The caches PD can hold: the start-up load and the heartbeats only ever
    call [createAndAdd] and [addOrUpdate]. *)
Inductive reachable_cache : cellCache T → Prop :=
  | rc_new : reachable_cache newCellCache
  | rc_create cc c : reachable_cache cc → valid_cell c → reachable_cache (createAndAdd cc c)
  | rc_update cc info : reachable_cache cc → valid_cell (CMeta info) → reachable_cache (addOrUpdate cc info).

Lemma reachable_cache_inv cc : reachable_cache cc → cache_inv cc.
Proof.
  induction 1; [apply newCellCache_inv|apply addOrUpdateWithoutLock_inv..]; done.
Qed.

(** ** What lookups return *)
Lemma add_peers_fields origin cc :
  tree (addOrUpdate cc origin) =
    Update (tree (match cells cc !! getID origin with Some old => removeCell cc old | None => cc end))
      (CMeta origin) ∧
  cells (addOrUpdate cc origin) =
    <[getID origin := origin]>
      (cells (match cells cc !! getID origin with Some old => removeCell cc old | None => cc end)).
Proof.
  unfold addOrUpdate, addOrUpdateWithoutLock.
  destruct (LeaderPeer origin) as [leader|]; [|done]. case_decide; [done|].
  match goal with |- context [foldl _ ?cc0 ?ps] =>
    destruct (add_peers_spec origin leader ps cc0) as (-> & -> & _) end. done.
Qed.

Lemma addOrUpdate_cells cc origin : cache_inv cc →
  cells (addOrUpdate cc origin) = <[getID origin := origin]> (cells cc).
Proof.
  intros Hinv. rewrite (proj2 (add_peers_fields origin cc)).
  destruct (cells cc !! getID origin) as [old|] eqn:E; [|done]. simpl.
  rewrite (ci_id _ Hinv _ _ E). apply insert_delete_eq.
Qed.

Lemma addOrUpdate_holds cc origin c : cache_inv cc → valid_cell (CMeta origin) →
  holds (tree (addOrUpdate cc origin)) c ↔
  c = CMeta origin ∨
  (holds (tree cc) c ∧ Cell_ID c ≠ getID origin ∧ ¬ overlap c (CMeta origin)).
Proof.
  intros Hinv Hv. rewrite (proj1 (add_peers_fields origin cc)).
  destruct (cells cc !! getID origin) as [old|] eqn:E.
  - pose proof (ci_id _ Hinv _ _ E) as Hoid. pose proof (ci_tree _ Hinv) as Ht.
    rewrite Update_holds by (simpl; auto using Remove_disjoint). simpl.
    pose proof (Remove_spec (tree cc) (CMeta old) Ht) as Hr.
    destruct (Remove (tree cc) (CMeta old)) as [b t'], Hr as [_ Hr]; simpl. rewrite Hr.
    assert (∀ c, holds (tree cc) c → Cell_ID c = getID origin → c = CMeta old) as Hsame.
    { intros c' (info & Hi & <-)%(ci_tree_cells _ Hinv) Heq. congruence. }
    split; intros [?|Hc]; auto; right; unfold getID in *.
    + destruct Hc as [[Hc Hn] Hov]. split_and!; [done| |done]. intros Heq.
      apply Hn. rewrite (Hsame _ Hc Heq). split; [|done]. apply in_cell_start, Ht.
      by rewrite <-(Hsame _ Hc Heq).
    + destruct Hc as (Hc & Hne & Hov). split_and!; [done| |done]. intros [_ ?]. congruence.
  - rewrite Update_holds by (auto; apply Hinv). split; intros [?|Hc]; auto; right; [|tauto].
    destruct Hc as [Hc Hov]. split_and!; [done| |done]. intros Heq.
    destruct (ci_tree_cells _ Hinv _ Hc) as (info & Hi & _). congruence.
Qed.

Lemma searchCell_owner cc k info : cache_inv cc →
  searchCell cc k = Some info ↔
  holds (tree cc) (CMeta info) ∧ in_cell k (CMeta info) ∧
  cells cc !! getID info = Some info ∧ getID info ≠ ZeroID.
Proof.
  intros Hinv. pose proof (ci_tree _ Hinv) as Ht.
  destruct (Search_spec (tree cc) k Ht) as (H1 & _ & H3). unfold searchCell. split.
  - case_decide as Hz; [done|]. intros Hc.
    destruct H3 as [Hh Hin]; [intros E; by rewrite E in Hz|].
    destruct (ci_tree_cells _ Hinv _ Hh) as (info' & Hi & Hm).
    assert (info' = info) as -> by congruence. rewrite Hm. split_and!; try done;
      unfold getID; by rewrite Hm.
  - intros (Hh & Hin & Hc & Hz). rewrite (H1 _ Hh Hin). by rewrite decide_False.
Qed.

(** [plays] as a decidable test. *)
Definition playsb (leads : bool) (info : CellInfo) (s : Z) : bool :=
  match LeaderPeer info with
  | None => false
  | Some l => bool_decide (Peer_ID l ≠ ZeroID) &&
      existsb (λ p, bool_decide (Peer_StoreID p = s) &&
                    Bool.eqb (bool_decide (Peer_ID p = Peer_ID l)) leads) (getPeers info)
  end.
Lemma playsb_spec leads info s : playsb leads info s = true ↔ plays leads info s.
Proof.
  unfold playsb, plays. destruct (LeaderPeer info) as [l|].
  2:{ split; [done|]. by intros (? & ? & ? & _). }
  rewrite andb_true_iff, bool_decide_eq_true, existsb_exists.
  setoid_rewrite andb_true_iff. setoid_rewrite bool_decide_eq_true. setoid_rewrite Bool.eqb_true_iff.
  setoid_rewrite <-list_elem_of_In.
  split.
  - intros (Hz & p & Hp & Hs & <-). exists l, p. split_and!; try done. by case_bool_decide.
  - intros (l' & p & [= <-] & Hz & Hp & Hs & Hl). split; [done|]. exists p. split_and!; try done.
    by destruct leads; [rewrite bool_decide_true|rewrite bool_decide_false].
Qed.
#[export] Instance plays_dec leads info s : Decision (plays leads info s).
Proof.
  destruct (playsb leads info s) eqn:E; [left|right]; rewrite <-playsb_spec; [done|]. by rewrite E.
Defined.

Lemma getStoreLeaderCount_size cc s : cache_inv cc →
  getStoreLeaderCount cc s = size (filter (λ kv, plays true kv.2 s) (cells cc)).
Proof.
  intros Hinv. unfold getStoreLeaderCount. f_equal. apply map_eq. intros id.
  apply option_eq. intros info. rewrite map_lookup_filter_Some. simpl.
  rewrite <-(ci_leaders _ Hinv s id info). unfold lookup2.
  by destruct (leaders cc !! s).
Qed.

(** C29. In every cell cache PD can reach, the tree's cells have disjoint
    ranges and each is the range of the cached cell with its id; the leader
    index of a store lists exactly the cached cells whose leader is on that
    store and the follower index exactly those with another peer there; hence
    [getStoreLeaderCount] is the number of cached cells the store leads. *)
Theorem cell_cache_consistent cc : reachable_cache cc →
  disjoint_tree (tree cc) ∧
  (∀ c, holds (tree cc) c → ∃ info, cells cc !! Cell_ID c = Some info ∧ CMeta info = c) ∧
  (∀ s id info, lookup2 (leaders cc) s id = Some info ↔ cells cc !! id = Some info ∧ plays true info s) ∧
  (∀ s id info, lookup2 (followers cc) s id = Some info ↔ cells cc !! id = Some info ∧ plays false info s) ∧
  (∀ s, getStoreLeaderCount cc s = size (filter (λ kv, plays true kv.2 s) (cells cc))).
Proof.
  intros Hinv%reachable_cache_inv. split_and!; [apply Hinv..|].
  intros s. by apply getStoreLeaderCount_size.
Qed.

(** [searchCell] after a heartbeat was cached: every key of the new
    cell's range finds the new cell; any other key finds what it found before,
    unless that was the replaced version of the cell or a cell whose range the
    new one overlaps. *)
Theorem searchCell_after_addOrUpdate cc origin k info :
  reachable_cache cc → valid_cell (CMeta origin) → getID origin ≠ ZeroID →
  searchCell (addOrUpdate cc origin) k = Some info ↔
  (info = origin ∧ in_cell k (CMeta origin)) ∨
  (searchCell cc k = Some info ∧ getID info ≠ getID origin ∧ ¬ overlap (CMeta info) (CMeta origin)).
Proof.
  intros Hr Hv Hz. pose proof (reachable_cache_inv _ Hr) as Hinv.
  pose proof (addOrUpdateWithoutLock_inv cc origin Hinv Hv) as Hinv'.
  rewrite (searchCell_owner (addOrUpdate cc origin)), (searchCell_owner cc) by done.
  rewrite addOrUpdate_holds, addOrUpdate_cells, lookup_insert_Some by done. split.
  - intros ([Hm|(Hh & Hne & Hov)] & Hin & [[Hid Heq]|[Hne' Hc]] & Hnz); subst; auto.
    + destruct Hne'. unfold getID. by rewrite Hm.
    + right. auto 10.
  - intros [[-> Hin]|((Hh & Hin & Hc & Hnz) & Hne & Hov)]; split_and!; auto.
Qed.
End cell_cache.

(** ** Witnesses *)
Definition ccell (id : Z) (s e : bytes) : CellInfo :=
  mkCellInfo (mkCell id s e (mkCellEpoch 1 1) [mkPeer (id * 10) 1; mkPeer (id * 10 + 1) 2])
    (Some (mkPeer (id * 10) 1)) [] [].
Definition wcache : cellCache (list CellItem) :=
  addOrUpdate (createAndAdd newCellCache (CMeta (ccell 1 [] [x05]))) (ccell 2 [x05] []).

Lemma wcache_reachable : reachable_cache wcache.
Proof. apply rc_update; [apply rc_create; [constructor | by right] | by left]. Qed.

Lemma cell_cache_consistent_witness :
  disjoint_tree (tree wcache) ∧ getStoreLeaderCount wcache 1 = 1%nat.
Proof.
  destruct (cell_cache_consistent wcache wcache_reachable) as (H & _ & _ & _ & Hl).
  split; [exact H|]. rewrite Hl. vm_compute. reflexivity.
Defined.

Lemma searchCell_after_addOrUpdate_witness :
  searchCell (addOrUpdate wcache (ccell 3 [x03] [x07])) [x04] = Some (ccell 3 [x03] [x07]).
Proof.
  apply (searchCell_after_addOrUpdate wcache (ccell 3 [x03] [x07]));
    [exact wcache_reachable | by right | done |].
  left. split; [done|]. vm_compute. split; [done|right; done].
Defined.
