(* ===== verification/Operators.v ===== *)
(** * Scheduling operators (pkg/pdserver/operator*.go, coordinator.go, scheduler.go)

    An operator is a plan for one cell that PD drives from the cell's
    heartbeats: [Do] looks at the reported cell and answers with the next
    command, or says that the plan is done.  An aggregation runs a list of
    operators in order and gives up after five minutes.  The coordinator keeps
    at most one operator per cell and counts them per resource kind.

    Aggregations are only ever built from the two simple operators, so the
    list of an aggregation holds [subOperator]s. *)

From S2P Require Import Prelude BTree Meta CellTree StoreCache CellCache.

Inductive ResourceKind := adminKind | leaderKind | cellKind.
#[export] Instance ResourceKind_eq_dec : EqDecision ResourceKind.
Proof. solve_decision. Defined.

Record CellHeartbeatRsp := mkCellHeartbeatRsp {
  Rsp_ChangePeer : option ChangePeer;
  Rsp_TransferLeader : option Peer;
}.
Definition emptyRsp : CellHeartbeatRsp := mkCellHeartbeatRsp None None.

Record changePeerOperator := mkChangePeerOperator {
  cpo_Name : string;
  cpo_CellID : Z;
  cpo_ChangePeer : ChangePeer;
}.
Record transferLeaderOperator := mkTransferLeaderOperator {
  tlo_Name : string;
  tlo_CellID : Z;
  OldLeader : option Peer;
  NewLeader : Peer;
}.
Inductive subOperator :=
  | ChangePeerOp (op : changePeerOperator)
  | TransferLeaderOp (op : transferLeaderOperator).

Record aggregationOperator := mkAggregationOperator {
  agg_CellID : Z;
  StartAt : Z;
  EndAt : Z;
  LastIndex : nat;
  Ops : list subOperator;
}.
Inductive Operator :=
  | SubOp (op : subOperator)
  | AggregationOp (op : aggregationOperator).

Definition maxOperatorWaitTime : Z := 5 * 60 * 1000000000.

(** ** Constructors *)
Definition newAddPeerOp (cellID : Z) (peer : Peer) : changePeerOperator :=
  mkChangePeerOperator "add_peer" cellID (mkChangePeer AddNode peer).
Definition newRemovePeerOp (cellID : Z) (peer : Peer) : changePeerOperator :=
  mkChangePeerOperator "remove_peer" cellID (mkChangePeer RemoveNode peer).
Definition newTransferLeaderOperator (cellID : Z) (oldLeader : option Peer) (newLeader : Peer)
  : transferLeaderOperator :=
  mkTransferLeaderOperator "transfer_leader" cellID oldLeader newLeader.

(** An empty list of operators is a fatal error. *)
Definition newAggregationOp {E} (now : Z) (cell : CellInfo) (ops : list subOperator)
  : outcome E Operator :=
  match ops with
  | [] => Panic
  | _ => Ok (AggregationOp (mkAggregationOperator (getID cell) now 0 0 ops))
  end.
Definition newAddPeerAggregationOp {E} (now : Z) (cell : CellInfo) (peer : Peer) : outcome E Operator :=
  newAggregationOp now cell [ChangePeerOp (newAddPeerOp (getID cell) peer)].
Definition newTransferLeaderAggregationOp {E} (now : Z) (cell : CellInfo) (newLeader : Peer)
  : outcome E Operator :=
  newAggregationOp now cell
    [TransferLeaderOp (newTransferLeaderOperator (Cell_ID (CMeta cell)) (LeaderPeer cell) newLeader)].
Definition newTransferPeerAggregationOp {E} (now : Z) (cell : CellInfo) (oldPeer newPeer : Peer)
  : outcome E Operator :=
  newAggregationOp now cell
    [ChangePeerOp (newAddPeerOp (getID cell) newPeer); ChangePeerOp (newRemovePeerOp (getID cell) oldPeer)].

(** ** The [Operator] interface *)
Definition sub_GetCellID (op : subOperator) : Z :=
  match op with ChangePeerOp op => cpo_CellID op | TransferLeaderOp op => tlo_CellID op end.
Definition sub_GetResourceKind (op : subOperator) : ResourceKind :=
  match op with ChangePeerOp _ => cellKind | TransferLeaderOp _ => leaderKind end.
Definition GetCellID (op : Operator) : Z :=
  match op with SubOp op => sub_GetCellID op | AggregationOp op => agg_CellID op end.
(** [op.Ops[0]] of an empty list would panic; [newAggregationOp] rules it out. *)
Definition GetResourceKind {E} (op : Operator) : outcome E ResourceKind :=
  match op with
  | SubOp op => Ok (sub_GetResourceKind op)
  | AggregationOp op =>
      match Ops op with [] => Panic | o :: _ => Ok (sub_GetResourceKind o) end
  end.

(** [changePeerOperator.Do] *)
Definition changePeer_Do (op : changePeerOperator) (cell : CellInfo) : option CellHeartbeatRsp * bool :=
  let peer := ChangePeer_Peer (cpo_ChangePeer op) in
  let res := (Some (mkCellHeartbeatRsp (Some (cpo_ChangePeer op)) None), false) in
  match ChangePeer_Type (cpo_ChangePeer op) with
  | AddNode =>
      if decide (is_Some (getPendingPeer cell (Peer_ID peer))) then (None, false)
      else if decide (is_Some (getPeer cell (Peer_ID peer))) then (None, true)
      else res
  | RemoveNode =>
      if decide (getPeer cell (Peer_ID peer) = None) then (None, true) else res
  end.

(** [transferLeaderOperator.Do]: a cell without a leader panics. *)
Definition transferLeader_Do {E} (op : transferLeaderOperator) (cell : CellInfo)
  : outcome E (option CellHeartbeatRsp * bool) :=
  match LeaderPeer cell with
  | None => Panic
  | Some leader =>
      if decide (Peer_ID leader = Peer_ID (NewLeader op)) then Ok (None, true)
      else Ok (Some (mkCellHeartbeatRsp None (Some (NewLeader op))), false)
  end.

Definition sub_Do {E} (op : subOperator) (cell : CellInfo) : outcome E (option CellHeartbeatRsp * bool) :=
  match op with
  | ChangePeerOp op => Ok (changePeer_Do op cell)
  | TransferLeaderOp op => transferLeader_Do op cell
  end.

(** The loop of [aggregationOperator.Do] over the operators from [LastIndex]
    on: how many finished, and the answer of the first that did not. *)
Fixpoint do_from {E} (ops : list subOperator) (target : CellInfo)
  : outcome E (nat * option (option CellHeartbeatRsp)) :=
  match ops with
  | [] => Ok (0%nat, None)
  | op :: ops' =>
      let! (res, finished) := sub_Do op target in
      if finished : bool
      then let! (n, r) := do_from ops' target in Ok (S n, r)
      else Ok (0%nat, Some res)
  end.

Definition agg_Do {E} (now : Z) (op : aggregationOperator) (target : CellInfo)
  : outcome E (option CellHeartbeatRsp * bool * aggregationOperator) :=
  if decide (now - StartAt op > maxOperatorWaitTime) then Ok (None, true, op)
  else
    let! (n, r) := do_from (drop (LastIndex op) (Ops op)) target in
    match r with
    | Some res =>
        Ok (res, false, mkAggregationOperator (agg_CellID op) (StartAt op) (EndAt op) (LastIndex op + n) (Ops op))
    | None =>
        Ok (None, true, mkAggregationOperator (agg_CellID op) (StartAt op) now (LastIndex op + n) (Ops op))
    end.

(** [Do] changes the operator in place: the new value is returned. *)
Definition Do {E} (now : Z) (op : Operator) (target : CellInfo)
  : outcome E (option CellHeartbeatRsp * bool * Operator) :=
  match op with
  | SubOp o => let! (res, finished) := sub_Do o target in Ok (res, finished, SubOp o)
  | AggregationOp o =>
      let! (res, finished, o') := agg_Do now o target in Ok (res, finished, AggregationOp o')
  end.

(** ** Store operators *)
Record setLogLevelOperator := mkSetLogLevelOperator { slo_id : Z; newLevel : Z }.
Definition newSetLogLevelOperator (id newLevel : Z) : setLogLevelOperator := mkSetLogLevelOperator id newLevel.
Definition GetStoreID (op : setLogLevelOperator) : Z := slo_id op.
Record StoreHeartbeatRsp := mkStoreHeartbeatRsp { SetLogLevel : option Z }.
Definition setLogLevel_Do {E} (op : setLogLevelOperator) (store : StoreInfo)
  : outcome E (option StoreHeartbeatRsp * bool) :=
  match Status store with
  | None => Panic
  | Some st =>
      if decide (LogLevel (Stats st) = newLevel op) then Ok (None, true)
      else Ok (Some (mkStoreHeartbeatRsp (Some (newLevel op))), false)
  end.

(** ** The operator table of the coordinator and its limiter *)
Definition counts := ResourceKind → Z.
Definition newScheduleLimiter : counts := λ _, 0.
Definition limiter_add {E} (l : counts) (op : Operator) : outcome E counts :=
  let! k := GetResourceKind op in
  Ok (λ k', if decide (k' = k) then u64 (l k' + 1) else l k').
Definition limiter_remove {E} (l : counts) (op : Operator) : outcome E counts :=
  let! k := GetResourceKind op in
  Ok (λ k', if decide (k' = k) then u64 (l k' - 1) else l k').
Definition operatorCount (l : counts) (kind : ResourceKind) : Z := l kind.

Record op_table := mkOpTable { limiter : counts; opts : gmap Z Operator }.
Definition empty_table : op_table := mkOpTable newScheduleLimiter ∅.

Definition getOperator (c : op_table) (cellID : Z) : option Operator := opts c !! cellID.
Definition getOperatorCount (c : op_table) : nat := size (opts c).
Definition getOperators `{MapOrder} (c : op_table) : list Operator := range_values (opts c).

Definition addOperator {E} (c : op_table) (op : Operator) : outcome E (bool * op_table) :=
  match opts c !! GetCellID op with
  | Some _ => Ok (false, c)
  | None =>
      let! l := limiter_add (limiter c) op in
      Ok (true, mkOpTable l (<[GetCellID op := op]> (opts c)))
  end.

Definition removeOperator {E} (c : op_table) (op : Operator) : outcome E op_table :=
  let! l := limiter_remove (limiter c) op in
  Ok (mkOpTable l (delete (GetCellID op) (opts c))).

Abbreviation store_ops := (gmap Z setLogLevelOperator).
Definition getStoreOperator (m : store_ops) (storeID : Z) : option setLogLevelOperator := m !! storeID.
Definition addStoreOperator (m : store_ops) (op : setLogLevelOperator) : bool * store_ops :=
  match m !! GetStoreID op with
  | Some _ => (false, m)
  | None => (true, <[GetStoreID op := op]> m)
  end.
Definition removeStoreOperator (m : store_ops) (op : setLogLevelOperator) : store_ops :=
  delete (GetStoreID op) m.

Definition dispatchStore {E} (m : store_ops) (target : StoreInfo)
  : outcome E (option StoreHeartbeatRsp * store_ops) :=
  match getStoreOperator m (Store_ID (SMeta target)) with
  | Some op =>
      let! (res, finished) := setLogLevel_Do op target in
      if finished : bool then Ok (Some (mkStoreHeartbeatRsp None), removeStoreOperator m op)
      else Ok (res, m)
  | None => Ok (Some (mkStoreHeartbeatRsp None), m)
  end.

(** ** The limiter counts the operators of the table *)
Definition kind_is (k : ResourceKind) (op : Operator) : Prop := @GetResourceKind unit op = Ok k.
#[export] Instance kind_is_dec k op : Decision (kind_is k op).
Proof.
  unfold kind_is. destruct (GetResourceKind op) as [k'| |]; [|by right..].
  destruct (decide (k' = k)) as [->|H]; [by left|right; congruence].
Defined.
Definition op_wf (op : Operator) : Prop :=
  match op with SubOp _ => True | AggregationOp op => Ops op ≠ [] end.

Definition ops_of (k : ResourceKind) (c : op_table) : gmap Z Operator :=
  filter (λ kv, kind_is k kv.2) (opts c).
Definition table_ok (c : op_table) : Prop :=
  (∀ k, operatorCount (limiter c) k = u64 (Z.of_nat (size (ops_of k c)))) ∧
  (∀ id op, getOperator c id = Some op → GetCellID op = id ∧ op_wf op).

Lemma op_wf_kind {E} op : op_wf op → ∃ k, @GetResourceKind E op = Ok k ∧ kind_is k op.
Proof.
  unfold kind_is. destruct op as [op|[id st en li ops]]; simpl; [eauto|].
  destruct ops; [done|eauto].
Qed.

Lemma kind_is_inj k k' op : kind_is k op → kind_is k' op → k = k'.
Proof. unfold kind_is. congruence. Qed.

Lemma u64_succ n : u64 (u64 n + 1) = u64 (n + 1).
Proof. unfold u64. by rewrite Zplus_mod_idemp_l. Qed.
Lemma u64_pred n : u64 (u64 n - 1) = u64 (n - 1).
Proof. unfold u64. by rewrite Zminus_mod_idemp_l. Qed.

Lemma ops_of_insert k c id op : opts c !! id = None →
  size (ops_of k (mkOpTable (limiter c) (<[id := op]> (opts c)))) =
  ((if decide (kind_is k op) then 1 else 0) + size (ops_of k c))%nat.
Proof.
  intros Hn. unfold ops_of; simpl. case_decide as Hk.
  - rewrite map_filter_insert_True by done. rewrite map_size_insert_None; [done|].
    rewrite map_lookup_filter_None. by left.
  - rewrite map_filter_insert_False by done. by rewrite delete_id.
Qed.

Lemma addOperator_ok {E} c op b c' : table_ok c → op_wf op →
  @addOperator E c op = Ok (b, c') → table_ok c'.
Proof.
  intros [Hc Hid] Hwf. unfold addOperator.
  destruct (opts c !! GetCellID op) eqn:Hn; [intros [= _ <-]; done|].
  destruct (op_wf_kind (E:=E) op Hwf) as (k & Hk & Hk'). unfold limiter_add. rewrite Hk; simpl.
  intros [= _ <-]. split; simpl.
  - intros k'. pose proof (ops_of_insert k' c (GetCellID op) op Hn) as Hs.
    unfold operatorCount in *; unfold ops_of in Hs at 1; unfold ops_of at 1; simpl in *. rewrite Hs, Hc.
    destruct (decide (k' = k)) as [->|Hne].
    + rewrite u64_succ, decide_True by done. f_equal. lia.
    + rewrite decide_False; [done|]. intros ?. by destruct Hne; eapply kind_is_inj.
  - intros id op'. unfold getOperator; simpl. intros [[<- <-]|[_ ?]]%lookup_insert_Some; eauto.
Qed.

Lemma removeOperator_ok {E} c op c' : table_ok c → getOperator c (GetCellID op) = Some op →
  @removeOperator E c op = Ok c' → table_ok c'.
Proof.
  intros [Hc Hid] Hop. destruct (Hid _ _ Hop) as [_ Hwf]. unfold removeOperator, limiter_remove.
  destruct (op_wf_kind (E:=E) op Hwf) as (k & Hk & Hk'). rewrite Hk; simpl. intros [= <-].
  unfold getOperator in *. split; simpl.
  - intros k'. specialize (Hc k'). unfold operatorCount in *. rewrite Hc.
    pose proof (ops_of_insert k' (mkOpTable (limiter c) (delete (GetCellID op) (opts c)))
      (GetCellID op) op (lookup_delete_eq _ _)) as Hs. simpl in Hs.
    rewrite insert_delete_id in Hs by done. unfold ops_of in *; simpl in *. rewrite Hs.
    destruct (decide (k' = k)) as [->|Hne].
    + rewrite decide_True, u64_pred by done. f_equal. lia.
    + rewrite decide_False; [done|]. intros ?. by destruct Hne; eapply kind_is_inj.
  - intros id op'. unfold getOperator; simpl. intros [_ ?]%lookup_delete_Some. eauto.
Qed.

(** [Do] keeps the cell and the kind of the operator it changes in place. *)
Lemma Do_keeps {E} now op target r fin op' : @Do E now op target = Ok (r, fin, op') →
  GetCellID op' = GetCellID op ∧ (op_wf op → op_wf op') ∧ ∀ k, kind_is k op' ↔ kind_is k op.
Proof.
  destruct op as [op|op]; simpl.
  - destruct (sub_Do op target) as [[r' fin']| |]; simpl; [|done..]. by intros [= _ _ <-].
  - destruct (agg_Do now op target) as [[[r' fin'] o']| |] eqn:E'; simpl; [|done..].
    intros [= _ _ <-]. unfold agg_Do in E'. case_decide; [by injection E' as _ _ <-|].
    destruct (do_from _ _) as [[n [res|]]| |]; simpl in E'; [|by injection E' as _ _ <-..|done|done].
    by injection E' as _ _ <-.
Qed.

Lemma update_op_ok c id op op' : table_ok c → getOperator c id = Some op →
  GetCellID op' = GetCellID op → (op_wf op → op_wf op') → (∀ k, kind_is k op' ↔ kind_is k op) →
  table_ok (mkOpTable (limiter c) (<[id := op']> (opts c))).
Proof.
  intros [Hc Hid] Hop Hcell Hwf Hk. unfold getOperator in *. destruct (Hid _ _ Hop) as [Hi Hw]. split.
  - intros k. unfold operatorCount in *; simpl. rewrite Hc. do 2 f_equal.
    pose proof (λ o, ops_of_insert k (mkOpTable (limiter c) (delete id (opts c))) id o
      (lookup_delete_eq _ _)) as Hs. simpl in Hs.
    setoid_rewrite insert_delete_eq in Hs. pose proof (Hs op) as Hs1. pose proof (Hs op') as ->.
    rewrite insert_id in Hs1 by done.
    unfold ops_of in Hs1 at 1; unfold ops_of at 1; simpl in *. rewrite Hs1. specialize (Hk k).
    destruct (decide (kind_is k op)), (decide (kind_is k op')); tauto.
  - intros i o. unfold getOperator; simpl. intros [[<- <-]|[_ ?]]%lookup_insert_Some; [|eauto]. split; [congruence|auto].
Qed.

(** ** Histories of the operator table

    Every change of the table the program makes: schedulers, the replica
    checker and the [TransferLeader] API add operators; a heartbeat drives the
    operator of its cell and removes it when it is finished. *)
Inductive table_step : op_table → op_table → Prop :=
  | ts_add c op b c' : op_wf op → @addOperator unit c op = Ok (b, c') → table_step c c'
  | ts_drive c id op now target r op' :
      getOperator c id = Some op → @Do unit now op target = Ok (r, false, op') →
      table_step c (mkOpTable (limiter c) (<[id := op']> (opts c)))
  | ts_finish c id op now target r op' c' :
      getOperator c id = Some op → @Do unit now op target = Ok (r, true, op') →
      @removeOperator unit (mkOpTable (limiter c) (<[id := op']> (opts c))) op' = Ok c' →
      table_step c c'.

Lemma table_step_ok c c' : table_step c c' → table_ok c → table_ok c'.
Proof.
  intros [c0 op b c1 Hwf Ha|c0 id op now target r op' Hg Hd|c0 id op now target r op' c1 Hg Hd Hr] Hok.
  - exact (addOperator_ok _ _ _ _ Hok Hwf Ha).
  - destruct (Do_keeps _ _ _ _ _ _ Hd) as (H1 & H2 & H3).
    exact (update_op_ok _ _ _ op' Hok Hg H1 H2 H3).
  - destruct (Do_keeps _ _ _ _ _ _ Hd) as (H1 & H2 & H3).
    pose proof (update_op_ok _ _ _ op' Hok Hg H1 H2 H3) as Hok'.
    eapply removeOperator_ok; [exact Hok'| |exact Hr].
    destruct (proj2 Hok _ _ Hg) as [Hi _]. unfold getOperator; simpl.
    by rewrite H1, Hi, lookup_insert_eq.
Qed.

Lemma empty_table_ok : table_ok empty_table.
Proof.
  split; [|done]. intros k. unfold ops_of, operatorCount; simpl. by rewrite map_filter_empty, map_size_empty.
Qed.

Lemma table_reachable_ok c : rtc table_step empty_table c → table_ok c.
Proof.
  assert (∀ c0, rtc table_step c0 c → table_ok c0 → table_ok c) as H
    by (induction 1; eauto using table_step_ok).
  intros Hr. eapply H; [done|apply empty_table_ok].
Qed.

(** In every reachable coordinator the limiter's count of a resource
    kind is the number of operators of that kind in the table (it never
    underflows), each operator is filed under its own cell, and adding an
    operator for a cell that has one is refused and changes nothing. *)
Theorem limiter_counts_operators c k :
  rtc table_step empty_table c → Z.of_nat (getOperatorCount c) < two64 →
  operatorCount (limiter c) k = Z.of_nat (size (ops_of k c)) ∧
  (∀ id op, getOperator c id = Some op → GetCellID op = id) ∧
  (∀ op old, getOperator c (GetCellID op) = Some old → @addOperator unit c op = Ok (false, c)).
Proof.
  intros Hr Hs. destruct (table_reachable_ok _ Hr) as [Hc Hid]. split_and!.
  - rewrite Hc. apply u64_small. unfold is_u64. split; [lia|].
    assert (size (ops_of k c) ≤ size (opts c))%nat; [|unfold getOperatorCount in Hs; lia].
    apply map_subseteq_size, map_filter_subseteq.
  - intros id op Hop. by apply Hid.
  - intros op old Hold. unfold addOperator. unfold getOperator in Hold. by rewrite Hold.
Qed.

(** ** Driving an operator with the heartbeats of its cell *)
Fixpoint drive {E} (op : Operator) (hbs : list (Z * CellInfo)) : outcome E (list (option CellHeartbeatRsp)) :=
  match hbs with
  | [] => Ok []
  | (now, target) :: hbs' =>
      let! (res, finished, op') := Do now op target in
      if finished : bool then Ok [res]
      else let! rest := drive op' hbs' in Ok (res :: rest)
  end.

(** The cell shows the peer as an active member. *)
Definition peer_active (peer : Peer) (cell : CellInfo) : Prop :=
  is_Some (getPeer cell (Peer_ID peer)) ∧ getPendingPeer cell (Peer_ID peer) = None.

Definition transfer_state (now0 : Z) (id : Z) (old new : Peer) (k : nat) : Operator :=
  AggregationOp (mkAggregationOperator id now0 0 k
    [ChangePeerOp (newAddPeerOp id new); ChangePeerOp (newRemovePeerOp id old)]).
Definition cmd (t : ConfChangeType) (p : Peer) : CellHeartbeatRsp :=
  mkCellHeartbeatRsp (Some (mkChangePeer t p)) None.

(** One heartbeat of a transfer in state [k] (0: adding, 1: removing). *)
Lemma transfer_Do {E} now now0 id old new k target : (k ≤ 1)%nat →
  ∃ res fin op', @Do E now (transfer_state now0 id old new k) target = Ok (res, fin, op') ∧
  (now - now0 > maxOperatorWaitTime → fin = true) ∧
  (fin = true → res = None) ∧
  (fin = false →
     (op' = transfer_state now0 id old new 0 ∧ k = 0%nat ∧ (res = None ∨ res = Some (cmd AddNode new) ∧ getPeer target (Peer_ID new) = None)) ∨
     (op' = transfer_state now0 id old new 1 ∧ res = Some (cmd RemoveNode old) ∧
      is_Some (getPeer target (Peer_ID old)) ∧ (k = 1%nat ∨ peer_active new target))).
Proof.
  intros Hk. unfold transfer_state, Do, agg_Do. simpl.
  case_decide as Ht; [eexists _, _, _; split; [done|]; naive_solver|].
  assert (k = 0 ∨ k = 1)%nat as [->| ->] by lia; simpl; unfold changePeer_Do; simpl.
  - destruct (decide (is_Some (getPendingPeer target (Peer_ID new)))) as [|Hp%eq_None_not_Some]; simpl.
    { eexists _, _, _; split; [done|]. naive_solver. }
    destruct (decide (is_Some (getPeer target (Peer_ID new)))) as [|Hn%eq_None_not_Some]; simpl.
    2:{ eexists _, _, _; split; [done|]. naive_solver. }
    case_decide as Ho; simpl; eexists _, _, _; (split; [done|]); [naive_solver|].
    apply not_eq_None_Some in Ho. unfold peer_active. naive_solver.
  - case_decide as Ho; simpl; eexists _, _, _; (split; [done|]); [naive_solver|].
    apply not_eq_None_Some in Ho. naive_solver.
Qed.

Lemma drive_transfer {E} now0 id old new hbs : ∀ k, (k ≤ 1)%nat →
  ∃ rs, @drive E (transfer_state now0 id old new k) hbs = Ok rs ∧
  (∀ i r, rs !! i = Some (Some r) → ∃ now target, hbs !! i = Some (now, target) ∧
     (now - now0 ≤ maxOperatorWaitTime) ∧
     (r = cmd AddNode new ∧ getPeer target (Peer_ID new) = None ∨
      r = cmd RemoveNode old ∧ is_Some (getPeer target (Peer_ID old)) ∧
      (k = 1%nat ∨ ∃ j nj tj, (j ≤ i)%nat ∧ hbs !! j = Some (nj, tj) ∧ peer_active new tj))) ∧
  (∀ i now target, hbs !! i = Some (now, target) → now - now0 > maxOperatorWaitTime → (length rs ≤ S i)%nat).
Proof.
  induction hbs as [|[now target] hbs IH]; intros k Hk; cbn [drive].
  { exists []. split; [done|]. split; [intros i r|intros i n t]; by rewrite lookup_nil. }
  destruct (transfer_Do (E:=E) now now0 id old new k target Hk) as (res & fin & op' & -> & Ht & Hf & Hnf).
  cbn [outcome_bind]. destruct fin.
  { rewrite (Hf eq_refl). exists [None]. split; [done|].
    split; [|simpl; lia]. by intros [|[|i]] r. }
  assert (now - now0 ≤ maxOperatorWaitTime) as Hin by (destruct (decide (now - now0 > maxOperatorWaitTime)); [naive_solver|lia]).
  destruct (Hnf eq_refl) as [(-> & -> & Hres)|(-> & Hres & Hold & Hact)].
  - destruct (IH 0%nat ltac:(lia)) as (rs & -> & Hrs & Hlen). cbn [outcome_bind]. eexists. split; [done|]. split.
    + intros [|i] r; simpl.
      * intros [= ->]. exists now, target. split_and!; [done..|]. naive_solver.
      * intros (n & t & Hi & Htime & Hc)%Hrs. exists n, t. split_and!; [done..|].
        destruct Hc as [|(? & ? & [?|(j & nj & tj & ? & ? & ?)])]; [by left|done|].
        right. split_and!; [done..|]. right. exists (S j), nj, tj. split_and!; [lia|done..].
    + intros [|i] n t; simpl; [intros [= -> ->]; lia|]. intros Hi Hgt. specialize (Hlen _ _ _ Hi Hgt). lia.
  - destruct (IH 1%nat ltac:(lia)) as (rs & -> & Hrs & Hlen). cbn [outcome_bind]. eexists. split; [done|].
    assert (k = 1%nat ∨ ∃ j nj tj, (j ≤ 0)%nat ∧ ((now, target) :: hbs) !! j = Some (nj, tj) ∧ peer_active new tj) as Hseen.
    { destruct Hact; [by left|right]. exists 0%nat, now, target. auto. }
    split.
    + intros [|i] r; simpl.
      * intros [= ->]. injection Hres as ->. exists now, target. split_and!; [done..|]. right. auto.
      * intros (n & t & Hi & Htime & Hc)%Hrs. exists n, t. split_and!; [done..|].
        destruct Hc as [|(? & ? & _)]; [by left|]. right. split_and!; [done..|].
        destruct Hseen as [|(j & nj & tj & ? & ? & ?)]; [by left|]. right. exists j, nj, tj. split_and!; [lia|done..].
    + intros [|i] n t; simpl; [intros [= -> ->]; lia|]. intros Hi Hgt. specialize (Hlen _ _ _ Hi Hgt). lia.
Qed.

(** C30. A peer transfer, driven by any sequence of heartbeats of its cell,
    never fails, answers only "add the new peer" (when the cell lacks it) or
    "remove the old peer" (when the cell has it), and asks for the removal only
    once some heartbeat showed the new peer as an active member; it is dropped
    at the first heartbeat more than five minutes after it was created. *)
Theorem transfer_peer_adds_before_removing (now0 : Z) (cell : CellInfo) (old new : Peer)
    (hbs : list (Z * CellInfo)) :
  ∃ op rs, @newTransferPeerAggregationOp unit now0 cell old new = Ok op ∧ @drive unit op hbs = Ok rs ∧
  (∀ i r, rs !! i = Some (Some r) → ∃ now target, hbs !! i = Some (now, target) ∧
     (now - now0 ≤ maxOperatorWaitTime) ∧
     (r = cmd AddNode new ∧ getPeer target (Peer_ID new) = None ∨
      r = cmd RemoveNode old ∧ is_Some (getPeer target (Peer_ID old)) ∧
      ∃ j nj tj, (j ≤ i)%nat ∧ hbs !! j = Some (nj, tj) ∧ peer_active new tj)) ∧
  (∀ i now target, hbs !! i = Some (now, target) → now - now0 > maxOperatorWaitTime → (length rs ≤ S i)%nat).
Proof.
  destruct (drive_transfer (E:=unit) now0 (getID cell) old new hbs 0) as (rs & Hd & Hrs & Hlen); [lia|].
  eexists _, rs. split; [done|]. split; [exact Hd|]. split; [|done].
  intros i r (n & t & ? & ? & Hc)%Hrs. exists n, t. split_and!; [done..|].
  destruct Hc as [|(? & ? & [?|?])]; [by left|done|by right].
Qed.

(** ** Witnesses *)
Definition wop : Operator := SubOp (ChangePeerOp (newAddPeerOp 7 (mkPeer 70 3))).
Definition wtable : op_table :=
  match @addOperator unit empty_table wop with Ok (_, c) => c | _ => empty_table end.
Lemma wtable_reachable : rtc table_step empty_table wtable.
Proof. apply rtc_once, (ts_add _ wop true); [exact I|reflexivity]. Qed.
Lemma limiter_counts_operators_witness :
  operatorCount (limiter wtable) cellKind = 1 ∧ @addOperator unit wtable wop = Ok (false, wtable).
Proof.
  destruct (limiter_counts_operators wtable cellKind wtable_reachable) as (H & _ & Hadd).
  { vm_compute. reflexivity. }
  split; [rewrite H; vm_compute; reflexivity|]. by apply (Hadd wop wop).
Defined.
