(* ===== verification/Float64.v ===== *)
(** * Go's float64

    Balancing decisions compare scores of type [float64].  They are modelled
    by the executable IEEE 754 specification of the Rocq core library, at the
    parameters of binary64.  The lemmas here say when a result is not NaN, that
    comparison is a strict weak order away from NaN, and that integers below
    2^53 convert exactly. *)

From Corelib Require Export Floats.SpecFloat.
From S2P Require Import Prelude.

Abbreviation f64 := spec_float.
Definition fprec : Z := 53.
Definition femax : Z := 1024.
Definition fadd : f64 → f64 → f64 := SFadd fprec femax.
Definition fsub : f64 → f64 → f64 := SFsub fprec femax.
Definition fmul : f64 → f64 → f64 := SFmul fprec femax.
Definition fdiv : f64 → f64 → f64 := SFdiv fprec femax.
Definition fsqrt : f64 → f64 := SFsqrt fprec femax.
Definition fabs : f64 → f64 := SFabs.
Definition flt : f64 → f64 → bool := SFltb.
Definition fle : f64 → f64 → bool := SFleb.
Definition feq : f64 → f64 → bool := SFeqb.
Definition fzero : f64 := S754_zero false.
(** [float64(z)] for an integer [z]: round to nearest even. *)
Definition float64 (z : Z) : f64 := binary_normalize fprec femax z 0 false.

(** Truncation towards zero; [None] for NaN and infinities. *)
Definition ftrunc (f : f64) : option Z :=
  match f with
  | S754_zero _ => Some 0
  | S754_finite s m e =>
      let a := if decide (0 ≤ e) then Z.shiftl (Zpos m) e else Z.shiftr (Zpos m) (- e) in
      Some (if s then - a else a)
  | _ => None
  end.
(** [int(f)]; out of range values become the minimum, as on amd64. *)
Definition int_of_float (f : f64) : Z :=
  match ftrunc f with
  | Some z => if decide (- 2 ^ 63 ≤ z < 2 ^ 63) then z else - 2 ^ 63
  | None => - 2 ^ 63
  end.
(** [uint64(f)]; out of range values become [2^63], as on amd64. *)
Definition uint64_of_float (f : f64) : Z :=
  match ftrunc f with
  | Some z => if decide (0 ≤ z < two64) then z else 2 ^ 63
  | None => 2 ^ 63
  end.

(** ** Not a number *)
Definition is_num (f : f64) : Prop := f ≠ S754_nan.
Definition is_fin (f : f64) : Prop :=
  match f with S754_zero _ | S754_finite _ _ _ => True | _ => False end.

Lemma is_fin_num f : is_fin f → is_num f.
Proof. by destruct f. Qed.

Lemma iter_pos_inv {A} (P : A → Prop) (f : A → A) : (∀ x, P x → P (f x)) →
  ∀ n x, P x → P (SpecFloat.iter_pos f n x).
Proof. intros Hf n. induction n; simpl; eauto. Qed.

Lemma shr_m_nonneg mrs e n : 0 ≤ shr_m mrs → 0 ≤ shr_m (shr mrs e n).1.
Proof.
  intros H. destruct n; simpl; try done.
  apply (iter_pos_inv (λ r, 0 ≤ shr_m r)); [|done]. intros [[|[]|[]] ? ?]; simpl; lia.
Qed.

Lemma shr_fexp_nonneg m e l : 0 ≤ m → 0 ≤ shr_m (shr_fexp fprec femax m e l).1.
Proof. intros H. unfold shr_fexp. apply shr_m_nonneg. by destruct l as [|[]]. Qed.

Lemma round_nearest_even_nonneg m l : 0 ≤ m → 0 ≤ round_nearest_even m l.
Proof. intros H. destruct l as [|[]]; simpl; try lia. destruct (Z.even m); lia. Qed.

Lemma binary_round_aux_num s m e l : 0 ≤ m → is_num (binary_round_aux fprec femax s m e l).
Proof.
  intros H. unfold binary_round_aux.
  pose proof (shr_fexp_nonneg m e l H) as H1. destruct (shr_fexp fprec femax m e l) as [mrs1 e1].
  pose proof (shr_fexp_nonneg _ e1 loc_Exact (round_nearest_even_nonneg _ (loc_of_shr_record mrs1) H1)) as H2.
  destruct (shr_fexp _ _ (round_nearest_even _ _) _ _) as [mrs2 e2]; simpl in *.
  destruct (shr_m mrs2); [done| |lia]. by destruct (Z.leb _ _).
Qed.

Lemma binary_normalize_num m e s : is_num (binary_normalize fprec femax m e s).
Proof.
  destruct m; simpl; [done|..]; unfold binary_round; destruct (shl_align _ _ _);
    by apply binary_round_aux_num.
Qed.

Lemma float64_num z : is_num (float64 z).
Proof. apply binary_normalize_num. Qed.

Lemma fadd_num a b : is_num a → is_num b → (is_fin a ∨ is_fin b) → is_num (fadd a b).
Proof.
  unfold is_num, fadd. destruct a as [[]|[]| |sa ma ea], b as [[]|[]| |sb mb eb]; simpl;
    first [done | intros _ _ _; apply binary_normalize_num | by intros _ _ [[]|[]]].
Qed.

Lemma fsub_num a b : is_num a → is_num b → (is_fin a ∨ is_fin b) → is_num (fsub a b).
Proof.
  unfold is_num, fsub. destruct a as [[]|[]| |sa ma ea], b as [[]|[]| |sb mb eb]; simpl;
    first [done | intros _ _ _; apply binary_normalize_num | by intros _ _ [[]|[]]].
Qed.

Lemma fabs_num a : is_num a → is_num (fabs a).
Proof. by destruct a. Qed.

Lemma fdiv_num a s m e : is_num a → is_num (fdiv a (S754_finite s m e)).
Proof.
  intros Ha. unfold fdiv. destruct a as [[]|[]| |sa ma ea]; simpl; try done.
  unfold SFdiv_core_binary.
  set (m' := match _ with Z0 => _ | Zpos _ => _ | Zneg _ => _ end).
  assert (0 ≤ m') as Hm'.
  { subst m'. destruct (_ - _ - _); [lia| |lia]. apply Z.shiftl_nonneg. lia. }
  pose proof (Z.div_eucl_eq m' (Zpos m)) as _. pose proof (Z.div_pos m' (Zpos m) Hm' ltac:(lia)) as Hq.
  unfold Z.div in Hq. destruct (Z.div_eucl m' (Zpos m)) as [q r]. by apply binary_round_aux_num.
Qed.

(** ** The order *)
Definition fkey (f : f64) : Z * Z * Z :=
  match f with
  | S754_zero _ | S754_nan => (0, 0, 0)
  | S754_infinity true => (-2, 0, 0)
  | S754_infinity false => (2, 0, 0)
  | S754_finite false m e => (1, e, Zpos m)
  | S754_finite true m e => (-1, - e, - Zpos m)
  end.
Definition klt (a b : Z * Z * Z) : Prop :=
  a.1.1 < b.1.1 ∨ a.1.1 = b.1.1 ∧ (a.1.2 < b.1.2 ∨ a.1.2 = b.1.2 ∧ a.2 < b.2).

Lemma SFcompare_key a b : is_num a → is_num b →
  match SFcompare a b with
  | Some Lt => klt (fkey a) (fkey b)
  | Some Eq => fkey a = fkey b
  | Some Gt => klt (fkey b) (fkey a)
  | None => False
  end.
Proof.
  unfold is_num, klt.
  destruct a as [[]|[]| |[] ma ea], b as [[]|[]| |[] mb eb]; simpl; intros Ha Hb; try done; try lia;
    destruct (Z.compare_spec ea eb) as [->|He|He]; simpl; try lia;
    change (Pos.compare_cont Eq ma mb) with (Pos.compare ma mb);
    destruct (Pos.compare_spec ma mb) as [->|Hm|Hm]; simpl; try done; lia.
Qed.

Lemma flt_key a b : is_num a → is_num b → flt a b = true ↔ klt (fkey a) (fkey b).
Proof.
  intros Ha Hb. pose proof (SFcompare_key a b Ha Hb) as H. unfold flt, SFltb.
  destruct (SFcompare a b) as [[]|]; try done.
  - split; [done|]. rewrite H. unfold klt. lia.
  - split; [done|]. unfold klt in *. lia.
Qed.

Lemma flt_irrefl a : flt a a = false.
Proof.
  unfold flt, SFltb. destruct a as [[]|[]| |[] m e]; simpl; try done;
    rewrite Z.compare_refl; change (Pos.compare_cont Eq m m) with (Pos.compare m m);
    by rewrite Pos.compare_refl.
Qed.

(** Not below is transitive away from NaN. *)
Lemma flt_cotrans a b c : is_num a → is_num b → is_num c → flt a b = true → flt a c = true ∨ flt c b = true.
Proof.
  intros Ha Hb Hc. rewrite !flt_key by done. unfold klt.
  destruct (fkey a) as [[]], (fkey b) as [[]], (fkey c) as [[]]; simpl. lia.
Qed.
Lemma flt_trans a b c : is_num a → is_num b → is_num c → flt a b = true → flt b c = true → flt a c = true.
Proof.
  intros Ha Hb Hc. rewrite !flt_key by done. unfold klt.
  destruct (fkey a) as [[]], (fkey b) as [[]], (fkey c) as [[]]; simpl. lia.
Qed.
Lemma flt_asym a b : is_num a → is_num b → flt a b = true → flt b a = false.
Proof.
  intros Ha Hb H. destruct (flt b a) eqn:E; [|done]. exfalso.
  rewrite flt_key in H, E by done. unfold klt in *. lia.
Qed.
Lemma fle_negb_lt a b : is_num a → is_num b → fle a b = negb (flt b a).
Proof.
  intros Ha Hb. pose proof (SFcompare_key a b Ha Hb) as H1. pose proof (SFcompare_key b a Hb Ha) as H2.
  unfold fle, SFleb, flt, SFltb. destruct (SFcompare a b) as [[]|], (SFcompare b a) as [[]|]; try done;
    exfalso; unfold klt in *; (rewrite H1 in H2 || rewrite H2 in H1 || idtac); lia.
Qed.

(** Comparison as an order on a set of values: asymmetric and, away from the
    set's complement, "not below" is transitive. *)
Record swo {X} (D : X → Prop) (lt : X → X → bool) : Prop := {
  swo_asym x y : D x → D y → lt x y = true → lt y x = false;
  swo_cotrans x y z : D x → D y → D z → lt x y = true → lt x z = true ∨ lt z y = true;
}.
Arguments swo_asym {X D lt}.
Arguments swo_cotrans {X D lt}.

Lemma flt_swo : swo is_num flt.
Proof. split; [apply flt_asym|apply flt_cotrans]. Qed.

Lemma swo_irrefl {X} (D : X → Prop) lt x : swo D lt → D x → lt x x = false.
Proof. intros H Hx. destruct (lt x x) eqn:E; [|done]. rewrite <-E at 1. by apply (swo_asym H). Qed.

Lemma swo_flip {X} (D : X → Prop) lt : swo D lt → swo D (λ x y, lt y x).
Proof.
  intros H. split; [by intros; apply (swo_asym H)|]. intros x y z Hx Hy Hz Hl.
  destruct (swo_cotrans H _ _ z Hy Hx Hz Hl); auto.
Qed.

Lemma swo_map {X Y} (D : X → Prop) (D' : Y → Prop) (f : Y → X) lt : (∀ y, D' y → D (f y)) →
  swo D lt → swo D' (λ x y, lt (f x) (f y)).
Proof.
  intros Hf H. split.
  - intros x y Hx Hy. apply (swo_asym H); auto.
  - intros x y z Hx Hy Hz. apply (swo_cotrans H); auto.
Qed.

(** First by [lt1], and by [lt2] when [lt1] does not decide. *)
Lemma swo_lex {X} (D : X → Prop) lt1 lt2 : swo D lt1 → swo D lt2 →
  swo D (λ x y, lt1 x y || (negb (lt1 y x) && lt2 x y)).
Proof.
  intros H1 H2. split.
  - intros x y Hx Hy Hl. pose proof (swo_asym H1 x y Hx Hy). pose proof (swo_asym H2 x y Hx Hy).
    destruct (lt1 x y), (lt1 y x), (lt2 x y), (lt2 y x); naive_solver.
  - intros x y z Hx Hy Hz Hl.
    pose proof (swo_cotrans H1 x y z Hx Hy Hz). pose proof (swo_cotrans H2 x y z Hx Hy Hz).
    pose proof (swo_cotrans H1 z x y Hz Hx Hy). pose proof (swo_cotrans H1 y z x Hy Hz Hx).
    destruct (lt1 x y), (lt1 y x), (lt1 x z), (lt1 z x), (lt1 y z), (lt1 z y), (lt2 x y), (lt2 x z), (lt2 z y);
      simpl in *; naive_solver.
Qed.

(** ** Non-negative values *)
Definition is_nn (f : f64) : Prop :=
  match f with S754_zero _ | S754_infinity false | S754_finite false _ _ => True | _ => False end.
Lemma is_nn_num f : is_nn f → is_num f.
Proof. by destruct f. Qed.

Lemma binary_round_aux_nn m e l : 0 ≤ m → is_nn (binary_round_aux fprec femax false m e l).
Proof.
  intros H. pose proof (binary_round_aux_num false m e l H) as Hn. revert Hn. unfold binary_round_aux.
  destruct (shr_fexp _ _ m e l) as [mrs1 e1]. destruct (shr_fexp _ _ (round_nearest_even _ _) _ _) as [mrs2 e2].
  destruct (shr_m mrs2); [done| |done]. by destruct (Z.leb _ _).
Qed.
Lemma float64_nn z : 0 ≤ z → is_nn (float64 z).
Proof.
  intros Hz. unfold float64. destruct z; [done| |lia]. simpl. unfold binary_round. destruct (shl_align _ _ _).
  by apply binary_round_aux_nn.
Qed.
Lemma fadd_nn a b : is_nn a → is_nn b → is_nn (fadd a b).
Proof.
  unfold fadd. destruct a as [[]|[]| |[] ma ea], b as [[]|[]| |[] mb eb]; simpl; try done. intros _ _.
  unfold binary_round. destruct (shl_align _ _ _). by apply binary_round_aux_nn.
Qed.

(** ** Positive integers do not round to zero *)
Definition is_zero (f : f64) : Prop := match f with S754_zero _ => True | _ => False end.

(** ** Integers below 2^53 convert exactly *)
Lemma digits2_pos_bounds p : 2 ^ (Zpos (digits2_pos p) - 1) ≤ Zpos p < 2 ^ Zpos (digits2_pos p).
Proof.
  assert (∀ d, 0 < d → 2 ^ d = 2 * 2 ^ (d - 1)) as Hpow.
  { intros d Hd. rewrite <-Z.pow_succ_r by lia. f_equal. lia. }
  induction p as [p IH|p IH|]; simpl digits2_pos; [| |done]; rewrite Pos2Z.inj_succ;
    pose proof (Hpow (Zpos (digits2_pos p)) ltac:(lia)); rewrite (Hpow (Z.succ _)) by lia;
    replace (Z.succ (Zpos (digits2_pos p)) - 1) with (Zpos (digits2_pos p)) by lia; lia.
Qed.

Lemma digits2_shift p d : Zpos (digits2_pos (Pos.iter xO p d)) = Zpos (digits2_pos p) + Zpos d.
Proof.
  induction d as [|d IH] using Pos.peano_ind; [simpl; lia|].
  rewrite Pos.iter_succ. simpl. rewrite Pos2Z.inj_succ, IH. lia.
Qed.

Lemma Pos_iter_xO p d : Zpos (Pos.iter xO p d) = Zpos p * 2 ^ Zpos d.
Proof.
  induction d as [|d IH] using Pos.peano_ind; [simpl; lia|].
  rewrite Pos.iter_succ, Pos2Z.inj_xO, IH, Pos2Z.inj_succ, Z.pow_succ_r by lia. ring.
Qed.

(** A 53-bit mantissa is left alone. *)
Lemma binary_round_aux_53 s m e : Zpos (digits2_pos m) = 53 → -1074 ≤ e ≤ 971 →
  binary_round_aux fprec femax s (Zpos m) e loc_Exact = S754_finite s m e.
Proof.
  intros Hd He. unfold binary_round_aux, shr_fexp, fexp, emin, fprec, femax. cbn [Zdigits2 shr_record_of_loc].
  assert (Z.max (Zpos (digits2_pos m) + e - 53) (3 - 1024 - 53) - e = 0) as E by lia.
  rewrite E. cbn. rewrite E. cbn. by rewrite (proj2 (Z.leb_le e (1024 - 53))) by lia.
Qed.

Lemma float64_exact n : 0 < n < 2 ^ 53 →
  ∃ m, float64 n = S754_finite false m (Zdigits2 n - 53) ∧ Zpos m = n * 2 ^ (53 - Zdigits2 n).
Proof.
  intros [Hn1 Hn2]. destruct n as [|p|p]; [lia| |lia]. unfold float64. cbn [binary_normalize Zdigits2].
  pose proof (digits2_pos_bounds p) as [Hb1 Hb2].
  assert (Zpos (digits2_pos p) ≤ 53) as Hd.
  { assert (2 ^ (Zpos (digits2_pos p) - 1) < 2 ^ 53) as Hlt by lia.
    apply Z.pow_lt_mono_r_iff in Hlt; lia. }
  unfold binary_round, fexp, emin. rewrite Z.add_0_r.
  replace (Z.max (Zpos (digits2_pos p) - fprec) (3 - femax - fprec)) with (Zpos (digits2_pos p) - 53)
    by (unfold fprec, femax; lia).
  unfold shl_align. rewrite Z.sub_0_r.
  destruct (Zpos (digits2_pos p) - 53) as [|q|d] eqn:E; [|lia|].
  - exists p. split; [|replace (53 - Zpos (digits2_pos p)) with 0 by lia; lia].
    apply binary_round_aux_53; lia.
  - exists (Pos.iter xO p d). split.
    + apply binary_round_aux_53; [|lia]. rewrite digits2_shift. lia.
    + rewrite Pos_iter_xO. f_equal. f_equal. lia.
Qed.

Lemma float64_fin n : 0 ≤ n < 2 ^ 53 → is_fin (float64 n).
Proof.
  intros Hn. destruct (decide (n = 0)) as [->|]; [done|].
  destruct (float64_exact n) as (m & -> & _); [lia|done].
Qed.
Lemma Zdigits2_mono n n' : 0 < n ≤ n' → Zdigits2 n ≤ Zdigits2 n'.
Proof.
  destruct n as [|p|], n' as [|p'|]; try lia. intros H. simpl.
  pose proof (digits2_pos_bounds p). pose proof (digits2_pos_bounds p').
  assert (2 ^ (Zpos (digits2_pos p) - 1) < 2 ^ Zpos (digits2_pos p')) as Hlt by lia.
  apply Z.pow_lt_mono_r_iff in Hlt; lia.
Qed.

(** Conversion keeps the order. *)
Lemma float64_lt n n' : 0 ≤ n < 2 ^ 53 → 0 ≤ n' < 2 ^ 53 → flt (float64 n) (float64 n') = true ↔ n < n'.
Proof.
  assert (∀ a b, 0 ≤ a < 2 ^ 53 → 0 ≤ b < 2 ^ 53 → a < b → flt (float64 a) (float64 b) = true) as Hlt.
  { intros a b Ha Hb Hab. rewrite flt_key by apply float64_num.
    destruct (float64_exact b) as (mb & -> & Hmb); [lia|].
    destruct (decide (a = 0)) as [->|]; [left; done|].
    destruct (float64_exact a) as (ma & -> & Hma); [lia|]. right; simpl. split; [done|].
    pose proof (Zdigits2_mono a b ltac:(lia)). destruct (decide (Zdigits2 a = Zdigits2 b)) as [E|]; [|lia].
    right. split; [lia|]. rewrite Hma, Hmb, E. apply Z.mul_lt_mono_pos_r; [|done].
    apply Z.pow_pos_nonneg; [done|]. pose proof (digits2_pos_bounds mb).
    destruct b as [|p|]; [lia| |lia]. pose proof (digits2_pos_bounds p) as [Hp _]. simpl.
    assert (2 ^ (Zpos (digits2_pos p) - 1) < 2 ^ 53) as Hl by lia. apply Z.pow_lt_mono_r_iff in Hl; lia. }
  intros Hn Hn'. split; [|by apply Hlt]. intros H.
  destruct (Z.lt_trichotomy n n') as [|[->|Hgt]]; [done| |].
  - by rewrite flt_irrefl in H.
  - apply (flt_asym _ _ (float64_num _) (float64_num _)) in H. by rewrite (Hlt n' n) in H.
Qed.

Lemma shr_iter_div p : ∀ r, 0 ≤ shr_m r → shr_m (SpecFloat.iter_pos shr_1 p r) = shr_m r / 2 ^ Zpos p.
Proof.
  assert (∀ r, 0 ≤ shr_m r → shr_m (shr_1 r) = shr_m r / 2) as H1.
  { intros [[|[q|q|]|] rr rs]; simpl; intros ?; [done| | |done|lia].
    - rewrite Pos2Z.inj_xI. apply Z.div_unique with 1; lia.
    - rewrite Pos2Z.inj_xO. apply Z.div_unique with 0; lia. }
  induction p as [p IH|p IH|]; intros r Hr; simpl SpecFloat.iter_pos; [| |by apply H1].
  - assert (0 ≤ shr_m (shr_1 r)) as Hr1 by (rewrite H1 by done; apply Z.div_pos; lia).
    assert (0 ≤ shr_m (SpecFloat.iter_pos shr_1 p (shr_1 r))) by (rewrite IH by done; apply Z.div_pos; lia).
    rewrite IH, IH, H1, !Z.div_div by (lia || done). f_equal.
    rewrite <-Z.pow_add_r, <-Z.pow_succ_r by lia. f_equal. lia.
  - assert (0 ≤ shr_m (SpecFloat.iter_pos shr_1 p r)) by (rewrite IH by done; apply Z.div_pos; lia).
    rewrite IH, IH, Z.div_div by (lia || done). f_equal. rewrite <-Z.pow_add_r by lia. f_equal. lia.
Qed.

(** Rounding to 53 bits keeps the leading bit. *)
Lemma shr_fexp_pos m e l : 0 < m → -1074 ≤ e →
  0 < shr_m (shr_fexp fprec femax m e l).1 ∧ -1074 ≤ (shr_fexp fprec femax m e l).2.
Proof.
  intros Hm He. unfold shr_fexp, fexp, emin, fprec, femax.
  assert (shr_m (shr_record_of_loc m l) = m) as Hrec by (by destruct l as [|[]]).
  destruct m as [|q|q]; [lia| |lia]. cbn [Zdigits2].
  pose proof (digits2_pos_bounds q) as [Hb _].
  destruct (Z.max _ _ - e) as [|n|n] eqn:En; simpl; rewrite ?Hrec; [lia| |lia]. split; [|lia].
  rewrite shr_iter_div, Hrec by (rewrite Hrec; lia). apply Z.div_str_pos. split; [lia|].
  transitivity (2 ^ (Zpos (digits2_pos q) - 1)); [|done]. apply Z.pow_le_mono_r; lia.
Qed.

Lemma float64_nonzero n : 0 < n → ¬ is_zero (float64 n).
Proof.
  intros Hn. destruct n as [|p|p]; [lia| |lia]. unfold float64. cbn [binary_normalize]. unfold binary_round.
  destruct (shl_align p 0 _) as [m e] eqn:Es.
  assert (-1074 ≤ e) as He.
  { unfold shl_align, fexp, emin, fprec, femax in Es. destruct (_ - 0) eqn:E; simplify_eq; lia. }
  unfold binary_round_aux. destruct (shr_fexp_pos (Zpos m) e loc_Exact ltac:(lia) He) as [H1 H2].
  destruct (shr_fexp _ _ (Zpos m) e _) as [mrs1 e1]; simpl in H1, H2.
  assert (0 < round_nearest_even (shr_m mrs1) (loc_of_shr_record mrs1)) as Hr.
  { destruct (loc_of_shr_record mrs1) as [|[]]; simpl; try lia. destruct (Z.even _); lia. }
  destruct (shr_fexp_pos _ e1 loc_Exact Hr H2) as [H3 _].
  destruct (shr_fexp _ _ (round_nearest_even _ _) _ _) as [mrs2 e2]; simpl in H3.
  destruct (shr_m mrs2); [lia| |lia]. destruct (Z.leb _ _); simpl; tauto.
Qed.

(** A quotient of a finite value by a non-zero one is a number. *)
Lemma fdiv_fin_num a b : is_fin a → is_num b → ¬ is_zero b → is_num (fdiv a b).
Proof.
  intros Ha Hb Hz. unfold fdiv. destruct a as [sa|[]| |sa ma ea], b as [sb|sb| |sb mb eb]; try done.
  by apply fdiv_num.
Qed.

Lemma fdiv_nn a n : 0 ≤ a < 2 ^ 53 → 0 < n → is_nn (fdiv (float64 a) (float64 n)).
Proof.
  intros Ha Hn. pose proof (float64_fin a Ha) as Hf. pose proof (float64_nn a ltac:(lia)) as Hna.
  pose proof (float64_nn n ltac:(lia)) as Hnn. pose proof (float64_nonzero n Hn) as Hz.
  pose proof (fdiv_fin_num _ _ Hf (float64_num n) Hz) as Hnum. revert Hnum. unfold fdiv.
  destruct (float64 a) as [[]|[]| |[] ma ea], (float64 n) as [[]|[]| |[] mn en]; try done; try (by destruct Hz).
  simpl. unfold is_num, binary_round_aux. destruct (SFdiv_core_binary _ _ _ _ _ _) as [[q e] l].
  destruct (shr_fexp _ _ q e l) as [mrs1 e1]. destruct (shr_fexp _ _ (round_nearest_even _ _) _ _) as [mrs2 e2].
  destruct (shr_m mrs2); [done| |done]. by destruct (Z.leb _ _).
Qed.
