(* ===== verification/Scheduling.v ===== *)
(** * Replica placement and balancing

    pkg/pdserver: filter.go, selector.go, replication.go, cfg_replication.go,
    balancer.go, balancer_cell.go, balancer_leader.go, and the scores of
    cache_store.go.  Scores are [float64] values.  A nil [Status] makes the
    accessors panic.  The clock is read once per call of an entry point ([now]);
    the standard deviation is that of the stats package, an argument. *)

From S2P Require Import Prelude BTree Meta CellTree IdAlloc IdSource StoreCache CellCache Operators Float64.

Record Cfg := mkCfg {
  LabelsLocation : list string;
  LimitReplicas : Z;
  LimitSnapshots : Z;
  LimitStoreDownDuration : Z;
  LimitScheduleLeader : Z;
  LimitScheduleCell : Z;
  LimitScheduleReplica : Z;
  ThresholdStorageRate : Z;
}.

Definition minUint64 (a b : Z) : Z := if decide (a < b) then a else b.
Definition maxUint64 (a b : Z) : Z := if decide (a > b) then a else b.
Definition minDuration (a b : Z) : Z := if decide (a < b) then a else b.

(** ** Scores of a store (cache_store.go) *)
Section scores.
Context {E : Type}.
Implicit Types s : StoreInfo.
Definition status (s : StoreInfo) : outcome E StoreStatus :=
  match Status s with Some st => Ok st | None => Panic end.
Definition leaderCount (s : StoreInfo) : outcome E Z :=
  let! st := status s in Ok (LeaderCount st).
Definition leaderScore (s : StoreInfo) : outcome E f64 :=
  let! st := status s in Ok (float64 (LeaderCount st)).
Definition cellCount (s : StoreInfo) : outcome E Z :=
  let! st := status s in Ok (CellCount (Stats st)).
Definition cellScore (s : StoreInfo) : outcome E f64 :=
  let! st := status s in
  if decide (Capacity (Stats st) = 0) then Ok fzero
  else Ok (fdiv (float64 (CellCount (Stats st))) (float64 (Capacity (Stats st)))).
Definition resourceCount (s : StoreInfo) (kind : ResourceKind) : outcome E Z :=
  match kind with leaderKind => leaderCount s | cellKind => cellCount s | _ => Ok 0 end.
Definition resourceScore (s : StoreInfo) (kind : ResourceKind) : outcome E f64 :=
  match kind with leaderKind => leaderScore s | cellKind => cellScore s | _ => Ok fzero end.
(** Unsigned subtraction: more available than capacity wraps around. *)
Definition storageSize (s : StoreInfo) : outcome E Z :=
  let! st := status s in Ok (u64 (Capacity (Stats st) - Available (Stats st))).
Definition storageRatio (s : StoreInfo) : outcome E Z :=
  let! st := status s in
  let cap := Capacity (Stats st) in
  if decide (cap = 0) then Ok 0
  else let! size := storageSize s in
       Ok (int_of_float (fdiv (fmul (float64 size) (float64 100)) (float64 cap))).
End scores.

(** ** The cache of recently skipped stores (cache_cell.go) *)
Definition storeCacheInterval : Z := 30 * 1000000000.
(** [expireCellCache]: the expiry of each id. *)
Abbreviation idCache := (gmap Z Z).
Definition idCache_get (c : idCache) (now id : Z) : bool :=
  match c !! id with
  | None => false
  | Some expire => negb (bool_decide (expire < now))
  end.
Definition idCache_set (c : idCache) (now ttl id : Z) : idCache := <[id := now + ttl]> c.
Definition idCache_delete (c : idCache) (id : Z) : idCache := delete id c.
Definition idCache_count (c : idCache) : nat := size c.
(** One tick of [doGC]. *)
Definition idCache_gc (c : idCache) (now : Z) : idCache := filter (λ kv, ¬ (kv.2 < now)) c.

(** ** Location scores (replication.go, cfg_replication.go) *)
Definition replicaBaseScore : Z := 100.
Definition getLocationLabels (cfg : Cfg) : list string := LabelsLocation cfg.
(** [math.Pow(100, level)]: a binary64 number, hence exact, up to level 11. *)
Definition levelScore (level : nat) : f64 := float64 (replicaBaseScore ^ Z.of_nat level).

(** The inner loop; [None] is the early [return 0]. *)
Fixpoint distinct_level (keys : list string) (other : StoreInfo) (ls : f64) (stores : list StoreInfo) (score : f64)
  : option f64 :=
  match stores with
  | [] => Some score
  | s :: stores' =>
      if decide (getStoreID s = getStoreID other) then distinct_level keys other ls stores' score
      else
        let id1 := getLocationID s keys in
        if decide (id1 = EmptyString) then None
        else
          let id2 := getLocationID other keys in
          if decide (id2 = EmptyString) then None
          else distinct_level keys other ls stores' (if decide (id1 = id2) then score else fadd score ls)
  end.
Fixpoint distinct_from (labels : list string) (other : StoreInfo) (stores : list StoreInfo)
    (i n : nat) (score : f64) : option f64 :=
  match n with
  | O => Some score
  | S n' =>
      distinct_level (take (S i) labels) other (levelScore n') stores score ≫=
        distinct_from labels other stores (S i) n'
  end.
(** The two copies of the function are the same. *)
Definition getDistinctScore (cfg : Cfg) (stores : list StoreInfo) (other : StoreInfo) : f64 :=
  let labels := getLocationLabels cfg in
  default fzero (distinct_from labels other stores 0 (length labels) fzero).

Definition compareStoreScore {E} (storeA : StoreInfo) (scoreA : f64) (storeB : StoreInfo) (scoreB : f64)
  : outcome E Z :=
  if flt scoreB scoreA then Ok 1
  else if flt scoreA scoreB then Ok (-1)
  else
    let! a := cellScore storeA in
    let! b := cellScore storeB in
    if flt a b then Ok 1 else if flt b a then Ok (-1) else Ok 0.

(** ** Filters *)
Inductive Filter :=
  | stateFilter
  | storageThresholdFilter
  | excludedFilter (sources targets : gmap Z unit)
  | blockFilter
  | healthFilter
  | cacheFilter (cache : idCache)
  | snapshotCountFilter
  | distinctScoreFilter (stores : list StoreInfo) (safeScore : f64).

(** [make] with the capacity [len(stores)-1] panics on an empty slice. *)
Definition newDistinctScoreFilter {E} (cfg : Cfg) (stores : list StoreInfo) (source : StoreInfo) : outcome E Filter :=
  match stores with
  | [] => Panic
  | _ =>
      let newStores := filter (λ s, getStoreID s ≠ getStoreID source) stores in
      Ok (distinctScoreFilter newStores (getDistinctScore cfg newStores source))
  end.

Section scheduling.
Context {E : Type} (cfg : Cfg) (now : Z).

Definition state_filter (store : StoreInfo) : outcome E bool :=
  if isUp store
  then let! d := downTime now store in Ok (negb (bool_decide (d < LimitStoreDownDuration cfg)))
  else Ok true.
Definition health_filter (store : StoreInfo) : outcome E bool :=
  match Status store with
  | None => Ok true
  | Some st =>
      if IsBusy (Stats st) then Ok true
      else let! d := downTime now store in Ok (bool_decide (d > LimitStoreDownDuration cfg))
  end.
Definition snapshot_filter (store : StoreInfo) : outcome E bool :=
  let! st := status store in
  Ok (bool_decide (SendingSnapCount (Stats st) > LimitSnapshots cfg) ||
      bool_decide (ReceivingSnapCount (Stats st) > LimitSnapshots cfg) ||
      bool_decide (ApplyingSnapCount (Stats st) > LimitSnapshots cfg)).

Definition FilterSource (f : Filter) (store : StoreInfo) : outcome E bool :=
  match f with
  | stateFilter => state_filter store
  | storageThresholdFilter => Ok false
  | excludedFilter sources _ => Ok (bool_decide (is_Some (sources !! getStoreID store)))
  | blockFilter => Ok (isBlocked store)
  | healthFilter => health_filter store
  | cacheFilter cache => Ok (idCache_get cache now (getStoreID store))
  | snapshotCountFilter => snapshot_filter store
  | distinctScoreFilter _ _ => Ok false
  end.
Definition FilterTarget (f : Filter) (store : StoreInfo) : outcome E bool :=
  match f with
  | stateFilter => state_filter store
  | storageThresholdFilter =>
      let! r := storageRatio store in Ok (bool_decide (r > ThresholdStorageRate cfg))
  | excludedFilter _ targets => Ok (bool_decide (is_Some (targets !! getStoreID store)))
  | blockFilter => Ok (isBlocked store)
  | healthFilter => health_filter store
  | cacheFilter _ => Ok false
  | snapshotCountFilter => snapshot_filter store
  | distinctScoreFilter stores safeScore => Ok (flt (getDistinctScore cfg stores store) safeScore)
  end.

(** [filterSource], [filterTarget]: the first filter that rejects the store. *)
Fixpoint any_filter (f : Filter → StoreInfo → outcome E bool) (store : StoreInfo) (filters : list Filter)
  : outcome E bool :=
  match filters with
  | [] => Ok false
  | flt :: filters' =>
      let! b := f flt store in if b : bool then Ok true else any_filter f store filters'
  end.
Definition filterSource (store : StoreInfo) (filters : list Filter) : outcome E bool :=
  any_filter FilterSource store filters.
Definition filterTarget (store : StoreInfo) (filters : list Filter) : outcome E bool :=
  any_filter FilterTarget store filters.

(** ** Selection loops

    The loops of the selectors and of the replica checker: skip rejected
    stores, keep the first of the best candidates. *)
Fixpoint select_loop {X} (skip : StoreInfo → outcome E bool) (mk : StoreInfo → X)
    (better : X → X → outcome E bool) (result : option X) (stores : list StoreInfo) : outcome E (option X) :=
  match stores with
  | [] => Ok result
  | store :: stores' =>
      let! f := skip store in
      if f : bool then select_loop skip mk better result stores'
      else
        let! b := match result with None => Ok true | Some r => better r (mk store) end in
        select_loop skip mk better (if b : bool then Some (mk store) else result) stores'
  end.

Record balanceSelector := mkBalanceSelector { sel_kind : ResourceKind; sel_filters : list Filter }.
Definition newBalanceSelector := mkBalanceSelector.

Definition score_lt (kind : ResourceKind) (a b : StoreInfo) : outcome E bool :=
  let! sa := resourceScore a kind in let! sb := resourceScore b kind in Ok (flt sa sb).

Definition SelectSource (s : balanceSelector) (stores : list StoreInfo) (filters : list Filter)
  : outcome E (option StoreInfo) :=
  select_loop (λ store, filterSource store (filters ++ sel_filters s)) id
    (λ result store, score_lt (sel_kind s) result store) None stores.
Definition SelectTarget (s : balanceSelector) (stores : list StoreInfo) (filters : list Filter)
  : outcome E (option StoreInfo) :=
  select_loop (λ store, filterTarget store (filters ++ sel_filters s)) id
    (λ result store, score_lt (sel_kind s) store result) None stores.
End scheduling.

(** ** Stores of a cell (cache_store.go) *)
Definition getCellStores `{MapOrder} (sc : storeCache) (cell : CellInfo) : list StoreInfo :=
  omap (λ id, clone_store <$> getStoreWithoutLock sc id) (range_keys (getStoreIDs cell)).
Definition getFollowerStores `{MapOrder} (sc : storeCache) (cell : CellInfo) : list StoreInfo :=
  omap (λ id, getStoreWithoutLock sc id) (range_keys (getFollowers cell)).

(** ** The replica checker and the schedulers *)
Section replication.
Context {A T : Type} `{!IdSource A} `{OT : !OrderedTree CellItem Less T} `{!MapOrder}.
Context {E : Type} (StandardDeviation : list f64 → f64) (cfg : Cfg) (now : Z).

(** [cache.allocPeer] *)
Definition allocPeer (a : A) (storeID : Z) (allocPeerID : bool) : outcome alloc_error Peer * A :=
  if allocPeerID then
    let '(r, a') := next_id a in (let! peerID := r in Ok (mkPeer peerID storeID), a')
  else (Ok (mkPeer 0 storeID), a).

Abbreviation scored := (StoreInfo * f64)%type.

(** [selectWorstPeer] with the checker's filters [rf] *)
Definition selectWorstPeer (rf : list Filter) (sc : storeCache) (cell : CellInfo) (filters : list Filter)
  : outcome E (option Peer * f64) :=
  let stores := getCellStores sc cell in
  let! worst := select_loop (λ store, filterSource cfg now store filters)
    (λ store, (store, getDistinctScore cfg stores store))
    (λ w c : scored, let! r := compareStoreScore c.1 c.2 w.1 w.2 in Ok (bool_decide (r < 0))) None stores in
  match worst with
  | None => Ok (None, fzero)
  | Some (worstStore, worstScore) =>
      let! f := filterSource cfg now worstStore rf in
      if f : bool then Ok (None, fzero) else Ok (getStorePeer cell (getStoreID worstStore), worstScore)
  end.

Definition best_filters (target : CellInfo) (filters : list Filter) : list Filter :=
  filters ++ [stateFilter; storageThresholdFilter; excludedFilter ∅ (getStoreIDs target)].

(** The best store for a new peer of [target]. *)
Definition best_store (sc : storeCache) (target : CellInfo) (filters : list Filter) : outcome E (option scored) :=
  let stores := getCellStores sc target in
  select_loop (λ store, filterTarget cfg now store (best_filters target filters))
    (λ store, (store, getDistinctScore cfg stores store))
    (λ b c : scored, let! r := compareStoreScore c.1 c.2 b.1 b.2 in Ok (bool_decide (r > 0)))
    None (getStores sc).

(** A failed allocation is logged and gives no peer. *)
Definition selectBestPeer (rf : list Filter) (sc : storeCache) (a : A) (target : CellInfo) (allocPeerID : bool)
    (filters : list Filter) : outcome E (option Peer * f64 * A) :=
  let! best := best_store sc target filters in
  match best with
  | None => Ok (None, fzero, a)
  | Some (bestStore, bestScore) =>
      let! f := filterTarget cfg now bestStore rf in
      if f : bool then Ok (None, fzero, a)
      else match allocPeer a (getStoreID bestStore) allocPeerID with
           | (Ok newPeer, a') => Ok (Some newPeer, bestScore, a')
           | (Err _, a') => Ok (None, fzero, a')
           | (Panic, _) => Panic
           end
  end.

Definition selectBestReplacement (rf : list Filter) (sc : storeCache) (a : A) (cell : CellInfo) (peer : Peer)
  : outcome E (option Peer * f64 * A) :=
  let newCell := removeStorePeer (clone_cell cell) (Peer_StoreID peer) in
  selectBestPeer rf sc a newCell false [excludedFilter ∅ (getStoreIDs cell)].

Definition checkBestReplacement (rf : list Filter) (sc : storeCache) (a : A) (cell : CellInfo)
  : outcome E (option Operator * A) :=
  let! (oldPeer, oldScore) := selectWorstPeer rf sc cell [] in
  match oldPeer with
  | None => Ok (None, a)
  | Some oldPeer =>
      let! (newPeer, newScore, a) := selectBestReplacement rf sc a cell oldPeer in
      match newPeer with
      | None => Ok (None, a)
      | Some newPeer =>
          if fle newScore oldScore then Ok (None, a)
          else match next_id a with
               | (Ok id, a') =>
                   let! op := newTransferPeerAggregationOp now cell oldPeer (mkPeer id (Peer_StoreID newPeer)) in
                   Ok (Some op, a')
               | (Err _, a') => Ok (None, a')
               | (Panic, _) => Panic
               end
      end
  end.

(** [d.Seconds()] *)
Definition Seconds (d : Z) : f64 :=
  fadd (float64 (Z.quot d 1000000000)) (fdiv (float64 (Z.rem d 1000000000)) (float64 1000000000)).

Fixpoint checkDownPeer (sc : storeCache) (id : Z) (down : list PeerStats) : outcome E (option Operator) :=
  match down with
  | [] => Ok None
  | stats :: down' =>
      let peer := PeerStats_Peer stats in
      let remove := Ok (Some (SubOp (ChangePeerOp (newRemovePeerOp id peer)))) in
      match getStore sc (Peer_StoreID peer) with
      | None => remove
      | Some store =>
          let! d := downTime now store in
          if decide (d < LimitStoreDownDuration cfg) then checkDownPeer sc id down'
          else if decide (DownSeconds stats < uint64_of_float (Seconds (LimitStoreDownDuration cfg)))
          then checkDownPeer sc id down'
          else remove
      end
  end.

Fixpoint checkOfflinePeer (rf : list Filter) (sc : storeCache) (a : A) (cell : CellInfo) (peers : list Peer)
  : outcome E (option Operator * A) :=
  match peers with
  | [] => Ok (None, a)
  | peer :: peers' =>
      let offline :=
        let! (newPeer, _, a) := selectBestPeer rf sc a cell true [] in
        match newPeer with
        | None => Ok (None, a)
        | Some newPeer => let! op := newTransferPeerAggregationOp now cell peer newPeer in Ok (Some op, a)
        end in
      match getStore sc (Peer_StoreID peer) with
      | None => offline
      | Some store => if isUp store then checkOfflinePeer rf sc a cell peers' else offline
      end
  end.

Definition Check (rf : list Filter) (sc : storeCache) (a : A) (target : CellInfo)
  : outcome E (option Operator * A) :=
  let! op := checkDownPeer sc (getID target) (DownPeers target) in
  match op with
  | Some op => Ok (Some op, a)
  | None =>
      let! (op, a) := checkOfflinePeer rf sc a target (Peers (CMeta target)) in
      match op with
      | Some op => Ok (Some op, a)
      | None =>
          let currReplicasCount := u32 (Z.of_nat (length (getPeers target))) in
          if decide (currReplicasCount < LimitReplicas cfg) then
            let! (newPeer, _, a) := selectBestPeer rf sc a target true rf in
            match newPeer with
            | None => Ok (None, a)
            | Some newPeer => let! op := newAddPeerAggregationOp now target newPeer in Ok (Some op, a)
            end
          else if decide (currReplicasCount > LimitReplicas cfg) then
            let! (oldPeer, _) := selectWorstPeer rf sc target [] in
            match oldPeer with
            | None => Ok (None, a)
            | Some oldPeer => Ok (Some (SubOp (ChangePeerOp (newRemovePeerOp (getID target) oldPeer))), a)
            end
          else checkBestReplacement rf sc a target
      end
  end.

(** *** Balancing *)
Definition bootstrapBalanceCount : Z := 10.
Definition bootstrapBalanceDiff : Z := 2.
Definition minBalanceDiff (count : Z) : f64 :=
  if decide (count < bootstrapBalanceCount) then float64 bootstrapBalanceDiff else fsqrt (float64 count).

Definition shouldBalance (source target : StoreInfo) (kind : ResourceKind) : outcome E bool :=
  let! sourceCount := resourceCount source kind in
  let! sourceScore := resourceScore source kind in
  let! targetScore := resourceScore target kind in
  if fle sourceScore targetScore then Ok false
  else
    let diffRatio := fsub (float64 1) (fdiv targetScore sourceScore) in
    let diffCount := fmul diffRatio (float64 sourceCount) in
    Ok (fle (minBalanceDiff sourceCount) diffCount).

Fixpoint resource_counts (kind : ResourceKind) (stores : list StoreInfo) : outcome E (list f64) :=
  match stores with
  | [] => Ok []
  | s :: stores' =>
      let! c := resourceCount s kind in
      let! cs := resource_counts kind stores' in Ok (float64 c :: cs)
  end.
Definition adjustBalanceLimit (sc : storeCache) (kind : ResourceKind) : outcome E Z :=
  let! counts := resource_counts kind (getStores sc) in
  Ok (maxUint64 1 (uint64_of_float (StandardDeviation counts))).

(** [scheduleRemovePeer] *)
Definition scheduleRemovePeer (sc : storeCache) (cc : cellCache T) (s : balanceSelector) (filters : list Filter)
  : outcome E (option (CellInfo * option Peer)) :=
  let! source := SelectSource cfg now s (getStores sc) filters in
  match source with
  | None => Ok None
  | Some source =>
      let! cell := randFollowerCell cc (getStoreID source) in
      let! cell := match cell with Some c => Ok (Some c) | None => randLeaderCell cc (getStoreID source) end in
      match cell with
      | None => Ok None
      | Some cell => Ok (Some (cell, getStorePeer cell (getStoreID source)))
      end
  end.

Record balanceCellScheduler := mkBalanceCell { bc_cache : idCache; bc_limit : Z }.
Definition newBalanceCellScheduler : balanceCellScheduler := mkBalanceCell ∅ 1.
(** The filters share the scheduler's cache. *)
Definition bc_selector (s : balanceCellScheduler) : balanceSelector :=
  newBalanceSelector cellKind
    [cacheFilter (bc_cache s); stateFilter; healthFilter; snapshotCountFilter; storageThresholdFilter].
Definition bc_GetResourceLimit (s : balanceCellScheduler) : Z := minUint64 (bc_limit s) (LimitScheduleCell cfg).

(** A nil old peer or store panics. *)
Definition bc_transferPeer (s : balanceCellScheduler) (sc : storeCache) (a : A) (cell : CellInfo) (oldPeer : Peer)
  : outcome E (option Operator * balanceCellScheduler * A) :=
  let stores := getCellStores sc cell in
  match getStore sc (Peer_StoreID oldPeer) with
  | None => Panic
  | Some source =>
      let! scoreGuard := newDistinctScoreFilter cfg stores source in
      let! (newPeer, _, a) := selectBestPeer [] sc a cell true [scoreGuard] in
      match newPeer with
      | None => Ok (None, s, a)
      | Some newPeer =>
          match getStore sc (Peer_StoreID newPeer) with
          | None => Panic
          | Some target =>
              let! b := shouldBalance source target cellKind in
              if negb b then Ok (None, s, a)
              else
                let! limit := adjustBalanceLimit sc cellKind in
                let! op := newTransferPeerAggregationOp now cell oldPeer newPeer in
                Ok (Some op, mkBalanceCell (bc_cache s) limit, a)
          end
      end
  end.

Definition bc_Schedule (s : balanceCellScheduler) (sc : storeCache) (cc : cellCache T) (a : A)
  : outcome E (option Operator * balanceCellScheduler * A) :=
  let! r := scheduleRemovePeer sc cc (bc_selector s) [] in
  match r with
  | None => Ok (None, s, a)
  | Some (cell, oldPeer) =>
      if decide (Z.of_nat (length (getPeers cell)) ≠ LimitReplicas cfg) then Ok (None, s, a)
      else match oldPeer with
           | None => Panic
           | Some oldPeer =>
               let! (op, s', a') := bc_transferPeer s sc a cell oldPeer in
               match op with
               | Some op => Ok (Some op, s', a')
               | None =>
                   Ok (None, mkBalanceCell (idCache_set (bc_cache s') now (4 * storeCacheInterval) (Peer_StoreID oldPeer))
                               (bc_limit s'), a')
               end
           end
  end.

Record balanceLeaderScheduler := mkBalanceLeader { bl_limit : Z }.
Definition newBalanceLeaderScheduler : balanceLeaderScheduler := mkBalanceLeader 1.
Definition bl_selector : balanceSelector := newBalanceSelector leaderKind [blockFilter; stateFilter; healthFilter].
Definition bl_GetResourceLimit (s : balanceLeaderScheduler) : Z := minUint64 (bl_limit s) (LimitScheduleLeader cfg).

Fixpoint average (n : Z) (stores : list StoreInfo) (acc : f64) : outcome E f64 :=
  match stores with
  | [] => Ok acc
  | s :: stores' =>
      let! ls := leaderScore s in average n stores' (fadd acc (fdiv ls (float64 n)))
  end.
Definition leader_distance (avg : f64) (s : option StoreInfo) : outcome E f64 :=
  match s with
  | None => Ok fzero
  | Some s => let! ls := leaderScore s in Ok (fabs (fsub ls avg))
  end.

(** [mostLeaderStore] or [leastLeaderStore] being nil where it is used panics. *)
Definition scheduleTransferLeader (sc : storeCache) (cc : cellCache T) (s : balanceSelector) (filters : list Filter)
  : outcome E (option (CellInfo * option Peer)) :=
  let stores := getStores sc in
  if decide (stores = []) then Ok None
  else
    let! averageLeader := average (Z.of_nat (length stores)) stores fzero in
    let! mostLeaderStore := SelectSource cfg now s stores filters in
    let! leastLeaderStore := SelectTarget cfg now s stores filters in
    let! mostLeaderDistance := leader_distance averageLeader mostLeaderStore in
    let! leastLeaderDistance := leader_distance averageLeader leastLeaderStore in
    if feq mostLeaderDistance fzero && feq leastLeaderDistance fzero then Ok None
    else if flt leastLeaderDistance mostLeaderDistance then
      match mostLeaderStore with
      | None => Panic
      | Some most =>
          let! cell := randLeaderCell cc (getStoreID most) in
          match cell with
          | None => Ok None
          | Some cell =>
              let! target := SelectTarget cfg now s (getFollowerStores sc cell) [] in
              match target with
              | None => Ok None
              | Some target => Ok (Some (cell, getStorePeer cell (getStoreID target)))
              end
          end
      end
    else
      match leastLeaderStore with
      | None => Panic
      | Some least =>
          let! cell := randFollowerCell cc (getStoreID least) in
          match cell with
          | None => Ok None
          | Some cell => Ok (Some (cell, getStorePeer cell (getStoreID least)))
          end
      end.

Definition bl_Schedule (s : balanceLeaderScheduler) (sc : storeCache) (cc : cellCache T)
  : outcome E (option Operator * balanceLeaderScheduler) :=
  let! r := scheduleTransferLeader sc cc bl_selector [] in
  match r with
  | None => Ok (None, s)
  | Some (cell, newLeader) =>
      match LeaderPeer cell with
      | None => Panic
      | Some leader =>
          match newLeader with
          | None => Panic
          | Some newLeader =>
              match getStore sc (Peer_StoreID leader), getStore sc (Peer_StoreID newLeader) with
              | Some source, Some target =>
                  let! b := shouldBalance source target leaderKind in
                  if negb b then Ok (None, s)
                  else
                    let! limit := adjustBalanceLimit sc leaderKind in
                    let! op := newTransferLeaderAggregationOp now cell newLeader in
                    Ok (Some op, mkBalanceLeader limit)
              | _, _ => Panic
              end
          end
      end
  end.
End replication.

(** ** Well-formed stores

    Every store PD keeps has a status (its constructors set one), and its
    counters have the widths of the protobuf fields. *)
Definition store_wf (s : StoreInfo) : Prop :=
  ∃ st, Status s = Some st ∧ 0 ≤ LeaderCount st < two32 ∧
        0 ≤ CellCount (Stats st) < two32 ∧ 0 ≤ Capacity (Stats st).

Section lemmas.
Context {E : Type}.
Implicit Types s : StoreInfo.

Lemma leaderScore_wf s : store_wf s →
  ∃ n, @leaderCount E s = Ok n ∧ @leaderScore E s = Ok (float64 n) ∧ 0 ≤ n < two32.
Proof.
  intros (st & Hst & Hl & _). unfold leaderCount, leaderScore, status. rewrite Hst. simpl. eauto.
Qed.

Lemma cellScore_num s : store_wf s → ∃ x, @cellScore E s = Ok x ∧ is_num x.
Proof.
  intros (st & Hst & _ & Hc & Hcap). unfold cellScore, status. rewrite Hst; simpl.
  case_decide; eexists; (split; [done|]); [done|].
  apply fdiv_fin_num; [|apply float64_num|apply float64_nonzero; lia].
  apply float64_fin. unfold two32 in Hc. lia.
Qed.

Lemma resourceScore_num s kind : store_wf s → ∃ x, @resourceScore E s kind = Ok x ∧ is_num x.
Proof.
  intros Hs. destruct kind; simpl; [by eexists| |by apply cellScore_num].
  destruct (leaderScore_wf s Hs) as (n & _ & H & _). eauto using float64_num.
Qed.

Lemma getDistinctScore_nn cfg stores other : is_nn (getDistinctScore cfg stores other).
Proof.
  unfold getDistinctScore. set (labels := getLocationLabels cfg).
  assert (∀ keys ls l score r, is_nn ls → is_nn score → distinct_level keys other ls l score = Some r → is_nn r) as Hlev.
  { intros keys ls l. induction l as [|s l IH]; simpl; intros score r Hls Hsc; [by intros [= <-]|].
    repeat case_decide; try done; [by apply IH..|]. intros Hd. eapply IH; [done| |exact Hd]. by apply fadd_nn. }
  assert (∀ n i score r, is_nn score → distinct_from labels other stores i n score = Some r → is_nn r) as Hfrom.
  { induction n as [|n IH]; simpl; intros i score r Hsc; [by intros [= <-]|].
    destruct (distinct_level _ _ _ _ _) as [score'|] eqn:El; simpl; [|done]. apply IH.
    eapply Hlev; [|exact Hsc|exact El]. apply float64_nn. unfold replicaBaseScore. apply Z.pow_nonneg. lia. }
  destruct (distinct_from _ _ _ _ _ _) as [r|] eqn:Er; simpl; [|done]. by eapply Hfrom in Er.
Qed.

(** No filter fails on a store with a status. *)
Lemma downTime_ok now s : store_wf s → ∃ d, @downTime E now s = Ok d.
Proof. intros (st & Hst & _). unfold downTime. rewrite Hst. eauto. Qed.

Lemma filters_ok cfg now s f : store_wf s →
  (∃ b, @FilterSource E cfg now f s = Ok b) ∧ (∃ b, @FilterTarget E cfg now f s = Ok b).
Proof.
  intros Hs. destruct (downTime_ok now s Hs) as [d Hd]. destruct Hs as (st & Hst & _).
  destruct f; simpl; unfold state_filter, health_filter, snapshot_filter, storageRatio, storageSize, status;
    rewrite ?Hst, ?Hd; simpl; try (by split; eauto).
  - destruct (isUp s); eauto.
  - case_decide; simpl; eauto.
  - destruct (IsBusy (Stats st)); eauto.
Qed.

Lemma any_filter_ok (f : Filter → StoreInfo → outcome E bool) s fs :
  (∀ flt, ∃ b, f flt s = Ok b) → ∃ b, any_filter f s fs = Ok b.
Proof.
  intros Hf. induction fs as [|flt fs IH]; simpl; [eauto|]. destruct (Hf flt) as [[] ->]; simpl; eauto.
Qed.
Lemma any_filter_false (f : Filter → StoreInfo → outcome E bool) s fs :
  any_filter f s fs = Ok false ↔ ∀ flt, flt ∈ fs → f flt s = Ok false.
Proof.
  induction fs as [|flt fs IH]; simpl; [set_solver|]. setoid_rewrite elem_of_cons.
  destruct (f flt s) as [[]| |] eqn:Ef; simpl.
  2:{ rewrite IH. split; intros Hall; [by intros flt' [->|?]; auto|auto]. }
  all: split; [done|]; intros Hall; specialize (Hall flt (or_introl eq_refl)); congruence.
Qed.

Lemma filterSource_ok cfg now s fs : store_wf s → ∃ b, @filterSource E cfg now s fs = Ok b.
Proof. intros Hs. apply any_filter_ok. intros flt. by apply filters_ok. Qed.
Lemma filterTarget_ok cfg now s fs : store_wf s → ∃ b, @filterTarget E cfg now s fs = Ok b.
Proof. intros Hs. apply any_filter_ok. intros flt. by apply filters_ok. Qed.

(** ** What a selection loop returns

    With a comparison that is an order on the candidates, the result is one of
    the accepted stores and no accepted store is better. *)
Definition selected {X} (skip : StoreInfo → outcome E bool) (mk : StoreInfo → X) (better : X → X → bool)
    (stores : list StoreInfo) (r : option X) : Prop :=
  match r with
  | None => ∀ s, s ∈ stores → skip s = Ok true
  | Some x => ∃ s, s ∈ stores ∧ skip s = Ok false ∧ x = mk s ∧
                   ∀ s', s' ∈ stores → skip s' = Ok false → better x (mk s') = false
  end.

Lemma select_loop_spec {X} skip (mk : StoreInfo → X) betterO better (D : X → Prop) stores :
  swo D better →
  (∀ s, s ∈ stores → D (mk s) ∧ ∃ b, skip s = Ok b) →
  (∀ x y, D x → D y → betterO x y = Ok (better x y)) →
  ∃ r, @select_loop E X skip mk betterO None stores = Ok r ∧ selected skip mk better stores r.
Proof.
  intros Hswo Hst Hb.
  assert (∀ l done_ r, (∀ s, s ∈ done_ → D (mk s)) → (∀ s, s ∈ l → D (mk s) ∧ ∃ b, skip s = Ok b) →
    selected skip mk better done_ r →
    ∃ r', select_loop skip mk betterO r l = Ok r' ∧ selected skip mk better (done_ ++ l) r') as Hloop.
  { induction l as [|s l IH]; intros done_ r Hd Hl Hr; simpl.
    { exists r. by rewrite app_nil_r. }
    destruct (Hl s ltac:(set_solver)) as [HDs [b Hskip]]. rewrite Hskip; simpl.
    rewrite (cons_middle s done_ l), (assoc_L (++)). destruct b.
    - apply IH; [intros s' [?| ->%list_elem_of_singleton]%elem_of_app; auto|set_solver|].
      destruct r as [x|]; simpl in *.
      + destruct Hr as (s0 & ? & ? & -> & Hmax). exists s0. split_and!; [set_solver|done..|].
        intros s' [?| ->%list_elem_of_singleton]%elem_of_app ?; [auto|congruence].
      + intros s' [?| ->%list_elem_of_singleton]%elem_of_app; auto.
    - assert (∃ c, match r with None => Ok true | Some x => betterO x (mk s) end = Ok c ∧
        selected skip mk better (done_ ++ [s]) (if c : bool then Some (mk s) else r)) as (c & -> & Hc).
      { destruct r as [x|]; simpl in Hr.
        - destruct Hr as (s0 & Hin & Hs0 & -> & Hmax). rewrite Hb by auto. eexists; split; [done|].
          destruct (better (mk s0) (mk s)) eqn:Eb; simpl.
          + exists s. split_and!; [set_solver|done..|]. intros s' [Hs'| ->%list_elem_of_singleton]%elem_of_app Hk.
            * destruct (better (mk s) (mk s')) eqn:E1; [|done]. exfalso.
              destruct (swo_cotrans Hswo (mk s0) (mk s) (mk s')) as [E2|E2]; auto.
              { by rewrite (Hmax s') in E2. }
              pose proof (swo_asym Hswo (mk s) (mk s') HDs (Hd _ Hs') E1). congruence.
            * by apply (swo_irrefl D).
          + exists s0. split_and!; [set_solver|done..|].
            intros s' [?| ->%list_elem_of_singleton]%elem_of_app ?; auto.
        - exists true. split; [done|]. simpl. exists s. split_and!; [set_solver|done..|].
          intros s' [Hs'%Hr| ->%list_elem_of_singleton]%elem_of_app ?; [congruence|]. by apply (swo_irrefl D). }
      simpl. apply IH; [intros s' [?| ->%list_elem_of_singleton]%elem_of_app; auto|set_solver|done]. }
  apply (Hloop stores [] None); [set_solver|done|]. simpl. set_solver.
Qed.
End lemmas.

Section selection.
Context {E : Type} (cfg : Cfg) (now : Z).
Implicit Types s : StoreInfo.

(** The value of a score that does not fail. *)
Definition score_of (kind : ResourceKind) (s : StoreInfo) : f64 :=
  match @resourceScore E s kind with Ok x => x | _ => fzero end.
Lemma score_of_num kind s : store_wf s → is_num (score_of kind s).
Proof. intros Hs. unfold score_of. by destruct (resourceScore_num (E:=E) s kind Hs) as (x & -> & ?). Qed.
Lemma score_lt_ok kind a b : store_wf a → store_wf b →
  @score_lt E kind a b = Ok (flt (score_of kind a) (score_of kind b)).
Proof.
  intros Ha Hb. unfold score_lt, score_of.
  destruct (resourceScore_num (E:=E) a kind Ha) as (x & -> & _).
  by destruct (resourceScore_num (E:=E) b kind Hb) as (y & -> & _).
Qed.
Lemma score_swo kind : swo store_wf (λ a b, flt (score_of kind a) (score_of kind b)).
Proof. apply (swo_map is_num); [apply score_of_num|apply flt_swo]. Qed.

Lemma SelectSource_spec sel stores filters : Forall store_wf stores →
  ∃ r, @SelectSource E cfg now sel stores filters = Ok r ∧
  selected (λ s, @filterSource E cfg now s (filters ++ sel_filters sel)) id
    (λ a b, flt (score_of (sel_kind sel) a) (score_of (sel_kind sel) b)) stores r.
Proof.
  rewrite Forall_forall. intros Hwf. apply (select_loop_spec _ _ _ _ store_wf).
  - apply score_swo.
  - intros s Hs. split; [by apply Hwf|]. by apply filterSource_ok, Hwf.
  - intros. by apply score_lt_ok.
Qed.
Lemma SelectTarget_spec sel stores filters : Forall store_wf stores →
  ∃ r, @SelectTarget E cfg now sel stores filters = Ok r ∧
  selected (λ s, @filterTarget E cfg now s (filters ++ sel_filters sel)) id
    (λ a b, flt (score_of (sel_kind sel) b) (score_of (sel_kind sel) a)) stores r.
Proof.
  rewrite Forall_forall. intros Hwf. apply (select_loop_spec _ _ _ _ store_wf).
  - apply (swo_flip _ _ (score_swo _)).
  - intros s Hs. split; [by apply Hwf|]. by apply filterTarget_ok, Hwf.
  - intros. by apply score_lt_ok.
Qed.

(** Leader scores compare as the leader counts do. *)
Lemma leader_score_lt a b na nb : store_wf a → store_wf b →
  @leaderCount E a = Ok na → @leaderCount E b = Ok nb →
  flt (score_of leaderKind a) (score_of leaderKind b) = false → nb ≤ na.
Proof.
  intros Ha Hb Ea Eb. unfold score_of; simpl.
  destruct (leaderScore_wf (E:=E) a Ha) as (n & En & -> & Hn).
  destruct (leaderScore_wf (E:=E) b Hb) as (m & Em & -> & Hm).
  rewrite Ea in En; rewrite Eb in Em; injection En as <-; injection Em as <-.
  intros Hf. destruct (decide (na < nb)) as [Hlt|]; [|lia].
  rewrite <-float64_lt in Hlt by (unfold two32 in *; lia). congruence.
Qed.

(** On stores with a status the selectors never fail; they return a store
    that passes every filter, or nothing when every store is filtered out.
    [SelectSource] returns one with a maximal score of its kind and
    [SelectTarget] one with a minimal score; for leaders the score order is the
    order of the leader counts. *)
Theorem selectors_pick_extremal_store (sel : balanceSelector) (stores : list StoreInfo) (filters : list Filter) :
  Forall store_wf stores →
  (∃ r, @SelectSource E cfg now sel stores filters = Ok r ∧
    match r with
    | None => ∀ s, s ∈ stores → @filterSource E cfg now s (filters ++ sel_filters sel) = Ok true
    | Some s => s ∈ stores ∧ @filterSource E cfg now s (filters ++ sel_filters sel) = Ok false ∧
        ∀ s', s' ∈ stores → @filterSource E cfg now s' (filters ++ sel_filters sel) = Ok false →
          @score_lt E (sel_kind sel) s s' = Ok false ∧
          (sel_kind sel = leaderKind →
           ∀ n n', @leaderCount E s = Ok n → @leaderCount E s' = Ok n' → n' ≤ n)
    end) ∧
  (∃ r, @SelectTarget E cfg now sel stores filters = Ok r ∧
    match r with
    | None => ∀ s, s ∈ stores → @filterTarget E cfg now s (filters ++ sel_filters sel) = Ok true
    | Some s => s ∈ stores ∧ @filterTarget E cfg now s (filters ++ sel_filters sel) = Ok false ∧
        ∀ s', s' ∈ stores → @filterTarget E cfg now s' (filters ++ sel_filters sel) = Ok false →
          @score_lt E (sel_kind sel) s' s = Ok false ∧
          (sel_kind sel = leaderKind →
           ∀ n n', @leaderCount E s = Ok n → @leaderCount E s' = Ok n' → n ≤ n')
    end).
Proof.
  intros Hwf. pose proof (proj1 (Forall_forall _ _) Hwf) as Hall. split.
  - destruct (SelectSource_spec sel stores filters Hwf) as (r & Hr & Hsel). exists r. split; [done|].
    destruct r as [s|]; simpl in Hsel; [|done]. destruct Hsel as (s0 & Hin & Hf & -> & Hmax).
    split_and!; [done..|]. intros s' Hin' Hf'. pose proof (Hmax s' Hin' Hf') as Hlt. simpl in Hlt.
    rewrite score_lt_ok by auto. split; [by f_equal|]. intros Hk n n' En En'. rewrite Hk in Hlt.
    exact (leader_score_lt _ _ _ _ (Hall _ Hin) (Hall _ Hin') En En' Hlt).
  - destruct (SelectTarget_spec sel stores filters Hwf) as (r & Hr & Hsel). exists r. split; [done|].
    destruct r as [s|]; simpl in Hsel; [|done]. destruct Hsel as (s0 & Hin & Hf & -> & Hmax).
    split_and!; [done..|]. intros s' Hin' Hf'. pose proof (Hmax s' Hin' Hf') as Hlt. simpl in Hlt.
    rewrite score_lt_ok by auto. split; [by f_equal|]. intros Hk n n' En En'. rewrite Hk in Hlt.
    exact (leader_score_lt _ _ _ _ (Hall _ Hin') (Hall _ Hin) En' En Hlt).
Qed.
End selection.

Section placement.
Context {A T : Type} `{!IdSource A} `{OT : !OrderedTree CellItem Less T} `{!MapOrder}.
Context {E : Type} (cfg : Cfg) (now : Z).

(** The stores of the cache are well formed and filed under their ids. *)
Definition cache_stores_wf (sc : storeCache) : Prop :=
  store_cache_wf sc ∧ ∀ id s, sc !! id = Some s → store_wf s.

Lemma getStores_wf sc s : cache_stores_wf sc → s ∈ getStores sc → store_wf s ∧ sc !! getStoreID s = Some s.
Proof.
  intros [Hid Hwf] [id Hs]%elem_of_getStores. split; [by eapply Hwf|]. by rewrite (Hid _ _ Hs).
Qed.

Lemma lookup_getStoreIDs cell id :
  is_Some (getStoreIDs cell !! id) ↔ id ∈ (Peer_StoreID <$> getPeers cell).
Proof.
  unfold getStoreIDs. assert (∀ ps (m : gmap Z unit), is_Some (foldl (λ m p, <[Peer_StoreID p := tt]> m) m ps !! id) ↔
    is_Some (m !! id) ∨ id ∈ (Peer_StoreID <$> ps)) as Hg.
  { induction ps as [|p ps IH]; intros m; simpl.
    - split; [by left|]. intros [?|[]%not_elem_of_nil]; done.
    - rewrite IH, lookup_insert_is_Some', elem_of_cons. naive_solver. }
  rewrite Hg, lookup_empty. split; [intros [[? [=]]|?]; done|auto].
Qed.

Lemma elem_of_getCellStores sc cell s : cache_stores_wf sc →
  s ∈ getCellStores sc cell → store_wf s ∧ sc !! getStoreID s = Some s ∧ getStoreID s ∈ (Peer_StoreID <$> getPeers cell).
Proof.
  intros [Hid Hwf]. unfold getCellStores. rewrite list_elem_of_omap. intros (id & Hk & Hs).
  change (getStoreWithoutLock sc id) with (getStore sc id) in Hs. rewrite getStore_lookup in Hs.
  destruct (sc !! id) as [s'|] eqn:E1; [|done]. simpl in Hs. rewrite clone_store_id in Hs. injection Hs as <-.
  rewrite elem_of_range_keys, lookup_getStoreIDs in Hk. rewrite (Hid _ _ E1). eauto.
Qed.

Definition cell_score_of (s : StoreInfo) : f64 := score_of (E:=E) cellKind s.

(** Candidate [x] is better than [y]: a higher distinct score, then a lower
    cell score. *)
Definition better_score (x y : StoreInfo * f64) : bool :=
  flt y.2 x.2 || (negb (flt x.2 y.2) && flt (cell_score_of x.1) (cell_score_of y.1)).
Definition scored_ok (x : StoreInfo * f64) : Prop := store_wf x.1 ∧ is_num x.2.

Lemma better_swo : swo scored_ok better_score.
Proof.
  unfold better_score. apply (swo_lex scored_ok (λ x y, flt y.2 x.2) (λ x y, flt (cell_score_of x.1) (cell_score_of y.1))).
  - apply (swo_flip _ (λ x y, flt x.2 y.2)), (swo_map is_num); [by intros [] []|apply flt_swo].
  - apply (swo_map is_num); [|apply flt_swo]. intros [] [? _]. by apply score_of_num.
Qed.

Lemma compareStoreScore_ok a b : scored_ok a → scored_ok b →
  ∃ r, @compareStoreScore E a.1 a.2 b.1 b.2 = Ok r ∧
  bool_decide (r > 0) = better_score a b ∧ bool_decide (r < 0) = better_score b a.
Proof.
  intros [Ha Na] [Hb Nb]. unfold compareStoreScore, better_score, cell_score_of, score_of. simpl.
  destruct (cellScore_num (E:=E) a.1 Ha) as (x & -> & Hx). destruct (cellScore_num (E:=E) b.1 Hb) as (y & -> & Hy).
  pose proof (flt_asym a.2 b.2 Na Nb). pose proof (flt_asym x y Hx Hy). simpl.
  destruct (flt b.2 a.2), (flt a.2 b.2), (flt x y), (flt y x); simpl; eexists; (split; [reflexivity|]);
    first [by split | exfalso; naive_solver].
Qed.

Lemma best_store_spec sc target filters : cache_stores_wf sc →
  ∃ r, @best_store _ E cfg now sc target filters = Ok r ∧
  selected (λ s, @filterTarget E cfg now s (best_filters target filters))
    (λ s, (s, getDistinctScore cfg (getCellStores sc target) s)) (λ b c, better_score c b) (getStores sc) r.
Proof.
  intros Hsc. unfold best_store. apply (select_loop_spec _ _ _ _ scored_ok).
  - apply (swo_flip _ better_score better_swo).
  - intros s [Hwf _]%(getStores_wf _ _ Hsc). split; [split; [done|]|by apply filterTarget_ok].
    apply is_nn_num, getDistinctScore_nn.
  - intros x y Hx Hy. by destruct (compareStoreScore_ok y x Hy Hx) as (r & -> & <- & _).
Qed.

(** What the mandatory filters of [selectBestPeer] say about a store. *)
Definition eligible (target : CellInfo) (s : StoreInfo) : Prop :=
  State (SMeta s) = UP ∧
  (∃ d, @downTime E now s = Ok d ∧ d < LimitStoreDownDuration cfg) ∧
  (∃ r, @storageRatio E s = Ok r ∧ r ≤ ThresholdStorageRate cfg) ∧
  ∀ p, p ∈ getPeers target → Peer_StoreID p ≠ getStoreID s.

Lemma best_filters_eligible target filters s :
  @filterTarget E cfg now s (best_filters target filters) = Ok false ↔
  (∀ f, f ∈ filters → @FilterTarget E cfg now f s = Ok false) ∧ eligible target s.
Proof.
  unfold filterTarget. rewrite any_filter_false. unfold best_filters.
  setoid_rewrite elem_of_app. setoid_rewrite elem_of_cons. setoid_rewrite elem_of_cons.
  setoid_rewrite list_elem_of_singleton.
  assert ((@FilterTarget E cfg now stateFilter s = Ok false ∧
           @FilterTarget E cfg now storageThresholdFilter s = Ok false ∧
           @FilterTarget E cfg now (excludedFilter ∅ (getStoreIDs target)) s = Ok false) ↔ eligible target s) as He.
  { unfold eligible. simpl. unfold state_filter, isUp.
    split.
    - intros (H1 & H2 & H3). destruct (bool_decide (State (SMeta s) = UP)) eqn:Hup; [|done].
      apply bool_decide_eq_true in Hup. destruct (downTime now s) as [d| |]; simpl in H1; try done.
      destruct (storageRatio s) as [r| |]; simpl in H2; try done.
      injection H1 as H1. injection H2 as H2. injection H3 as H3. apply negb_false_iff, bool_decide_eq_true in H1.
      apply bool_decide_eq_false in H2. apply bool_decide_eq_false in H3. split_and!; [done|eauto|eexists; split; [done|lia]|].
      intros p Hp Heq. apply H3, lookup_getStoreIDs. rewrite <-Heq. by apply list_elem_of_fmap_2.
    - intros (Hup & (d & Hd & Hlt) & (r & Hr & Hle) & Hno). rewrite bool_decide_true by done. rewrite Hd, Hr. simpl.
      rewrite bool_decide_true by done. rewrite (bool_decide_false (r > _)) by lia. split_and!; [done..|].
      rewrite bool_decide_false; [done|]. rewrite lookup_getStoreIDs, list_elem_of_fmap. intros (p & Heq & Hp).
      by destruct (Hno p Hp). }
  rewrite <-He. split; [intros Hall; split_and!; auto 6|]. intros (H0 & H1 & H2 & H3) f [?|[->|[->| ->]]]; auto.
Qed.

(** A peer PD may add: on an eligible store, with an id never used before. *)
Definition placed (sc : storeCache) (a : A) (target : CellInfo) (p : Peer) : Prop :=
  (∃ s, sc !! Peer_StoreID p = Some s ∧ eligible target s) ∧ ¬ ids_used a (Peer_ID p) ∧ Peer_ID p ≠ 0.

(** [s] is a best store for a new peer of [target]. *)
Definition best_placed (sc : storeCache) (target : CellInfo) (filters : list Filter) (s : StoreInfo) : Prop :=
  sc !! getStoreID s = Some s ∧ eligible target s ∧ (∀ f, f ∈ filters → @FilterTarget E cfg now f s = Ok false) ∧
  ∀ s', sc !! getStoreID s' = Some s' → eligible target s' →
    (∀ f, f ∈ filters → @FilterTarget E cfg now f s' = Ok false) →
    ∃ r, r ≤ 0 ∧ @compareStoreScore E s' (getDistinctScore cfg (getCellStores sc target) s')
           s (getDistinctScore cfg (getCellStores sc target) s) = Ok r.

Lemma getStores_lookup sc s : cache_stores_wf sc → s ∈ getStores sc ↔ sc !! getStoreID s = Some s.
Proof.
  intros Hsc. split; [by intros [_ ?]%(getStores_wf _ _ Hsc)|]. intros Hs. apply elem_of_getStores. eauto.
Qed.

Lemma best_store_placed sc target filters : cache_stores_wf sc →
  ∃ r, @best_store _ E cfg now sc target filters = Ok r ∧
  match r with
  | None => ∀ s, sc !! getStoreID s = Some s → eligible target s →
              ¬ ∀ f, f ∈ filters → @FilterTarget E cfg now f s = Ok false
  | Some (s, score) => best_placed sc target filters s ∧
                       score = getDistinctScore cfg (getCellStores sc target) s
  end.
Proof.
  intros Hsc. destruct (best_store_spec sc target filters Hsc) as (r & Hr & Hsel). exists r. split; [done|].
  destruct r as [[s score]|]; simpl in Hsel.
  - destruct Hsel as (s0 & Hin & Hf & [= -> ->] & Hmax). split; [|done].
    apply best_filters_eligible in Hf as [Hfs He]. rewrite getStores_lookup in Hin by done.
    split_and!; [done..|]. intros s' Hs' He' Hf'.
    assert (better_score (s', getDistinctScore cfg (getCellStores sc target) s')
              (s0, getDistinctScore cfg (getCellStores sc target) s0) = false) as Hnb.
    { apply Hmax; [by apply getStores_lookup|]. by apply best_filters_eligible. }
    destruct Hsc as [_ Hwf].
    destruct (compareStoreScore_ok (s', getDistinctScore cfg (getCellStores sc target) s')
      (s0, getDistinctScore cfg (getCellStores sc target) s0)) as (r & Hr' & Hgt & _).
    1,2: split; [by eapply Hwf|]; apply is_nn_num, getDistinctScore_nn.
    exists r. split; [|done]. rewrite Hnb in Hgt. apply bool_decide_eq_false in Hgt. lia.
  - intros s Hs He Hf. apply getStores_lookup in Hs; [|done]. apply Hsel in Hs.
    rewrite (proj2 (best_filters_eligible target filters s)) in Hs by done. done.
Qed.

Lemma selectBestPeer_cases rf sc a target allocPeerID filters : cache_stores_wf sc → ids_wf a →
  ∃ p score a', @selectBestPeer A _ _ E cfg now rf sc a target allocPeerID filters = Ok (p, score, a') ∧
  ids_wf a' ∧ (∀ x, ids_used a x → ids_used a' x) ∧
  ∀ p', p = Some p' → ∃ s, getStoreID s = Peer_StoreID p' ∧ best_placed sc target filters s ∧
    @filterTarget E cfg now s rf = Ok false ∧
    score = getDistinctScore cfg (getCellStores sc target) s ∧
    if allocPeerID then ¬ ids_used a (Peer_ID p') ∧ Peer_ID p' ≠ 0 else a' = a.
Proof.
  intros Hsc Ha. unfold selectBestPeer.
  destruct (best_store_placed sc target filters Hsc) as ([[s score]|] & -> & Hs); simpl.
  2:{ eexists _, _, _. split; [done|]. by split_and!. }
  destruct Hs as [Hs ->]. destruct Hs as (Hlk & He & Hf & Hmax).
  destruct (filterTarget_ok (E:=E) cfg now s rf) as [b Hb]; [by eapply (proj2 Hsc)|].
  rewrite Hb; simpl. destruct b.
  { eexists _, _, _. split; [done|]. by split_and!. }
  unfold allocPeer. destruct allocPeerID.
  - pose proof (next_id_wf a Ha). pose proof (next_id_no_panic a Ha). pose proof (next_id_fresh a).
    pose proof (next_id_mono a).
    destruct (next_id a) as [[id|e|] a']; simpl in *; [| |done]; eexists _, _, _; (split; [done|]); split_and!; auto; [|done].
    intros p' [= <-]. exists s. simpl. split_and!; try done. 1,2: naive_solver.
  - eexists _, _, _. split; [done|]. split_and!; auto. intros p' [= <-]. exists s. simpl. split_and!; done.
Qed.

Lemma selectWorstPeer_cases rf sc cell filters : cache_stores_wf sc →
  ∃ p score, @selectWorstPeer _ E cfg now rf sc cell filters = Ok (p, score) ∧
  ∀ p', p = Some p' → p' ∈ getPeers cell.
Proof.
  intros Hsc. unfold selectWorstPeer.
  destruct (select_loop_spec (E:=E) (λ store, filterSource cfg now store filters)
    (λ store, (store, getDistinctScore cfg (getCellStores sc cell) store))
    (λ w c : StoreInfo * f64, let! r := compareStoreScore c.1 c.2 w.1 w.2 in Ok (bool_decide (r < 0)))
    better_score scored_ok (getCellStores sc cell) better_swo) as (r & -> & Hr).
  - intros s (Hwf & _)%elem_of_getCellStores; [|done]. split; [split; [done|]|by apply filterSource_ok].
    apply is_nn_num, getDistinctScore_nn.
  - intros x y Hx Hy. by destruct (compareStoreScore_ok y x Hy Hx) as (r & -> & _ & <-).
  - simpl. destruct r as [[s score]|]; [|eexists _, _; by split].
    destruct Hr as (s0 & (Hwf & _)%elem_of_getCellStores & _ & [= -> ->] & _); [|done].
    destruct (filterSource_ok (E:=E) cfg now s0 rf Hwf) as [[] ->]; simpl; eexists _, _; (split; [done|]); [done|].
    intros p' (p & Hp & Heq)%find_map_Some. case_decide; [by injection Heq as <-|done].
Qed.
End placement.

Section checker.
Context {A T : Type} `{!IdSource A} `{OT : !OrderedTree CellItem Less T} `{!MapOrder}.
Context {E : Type} (cfg : Cfg) (now : Z).

Definition remove_op (id : Z) (p : Peer) : Operator := SubOp (ChangePeerOp (newRemovePeerOp id p)).
Definition add_op (id : Z) (p : Peer) : Operator :=
  AggregationOp (mkAggregationOperator id now 0 0 [ChangePeerOp (newAddPeerOp id p)]).

Lemma checkDownPeer_cases sc id down : cache_stores_wf sc →
  ∃ r, @checkDownPeer E cfg now sc id down = Ok r ∧
  ∀ op, r = Some op → ∃ stats, stats ∈ down ∧ op = remove_op id (PeerStats_Peer stats).
Proof.
  intros [_ Hwf]. induction down as [|stats down (r & IH & Hr)]; cbn [checkDownPeer].
  { by exists None. }
  rewrite getStore_lookup. destruct (sc !! _) as [s|] eqn:Es.
  - destruct (downTime_ok (E:=E) now s (Hwf _ _ Es)) as [d ->]. cbn [outcome_bind].
    case_decide; [|case_decide]; [exists r; split; [done|]..|]; [intros op (st & ? & ->)%Hr; set_solver..|].
    eexists; split; [done|]. intros op [= <-]. set_solver.
  - eexists; split; [done|]. intros op [= <-]. set_solver.
Qed.

Lemma best_placed_eligible sc target filters s p : best_placed (E:=E) cfg now sc target filters s →
  getStoreID s = Peer_StoreID p → ∃ s, sc !! Peer_StoreID p = Some s ∧ eligible (E:=E) cfg now target s.
Proof. intros (Hlk & He & _) <-. eauto. Qed.

Lemma checkOfflinePeer_cases rf sc a cell peers : cache_stores_wf sc → ids_wf a →
  ∃ r a', @checkOfflinePeer A _ _ E cfg now rf sc a cell peers = Ok (r, a') ∧
  ids_wf a' ∧ (∀ x, ids_used a x → ids_used a' x) ∧
  ∀ op, r = Some op → ∃ old new, old ∈ peers ∧ op = transfer_state now (getID cell) old new 0 ∧
    (∀ s, sc !! Peer_StoreID old = Some s → State (SMeta s) ≠ UP) ∧ placed (E:=E) cfg now sc a cell new.
Proof.
  intros Hsc Ha. induction peers as [|peer peers (r & a' & IH & Hwf & Hm & Hr)]; cbn [checkOfflinePeer].
  { exists None, a. by split_and!. }
  set (offline := outcome_bind _ _).
  assert ((∀ s, sc !! Peer_StoreID peer = Some s → State (SMeta s) ≠ UP) → ∃ r a', offline = Ok (r, a') ∧
    ids_wf a' ∧ (∀ x, ids_used a x → ids_used a' x) ∧
    ∀ op, r = Some op → ∃ old new, old ∈ peer :: peers ∧ op = transfer_state now (getID cell) old new 0 ∧
      (∀ s, sc !! Peer_StoreID old = Some s → State (SMeta s) ≠ UP) ∧ placed (E:=E) cfg now sc a cell new) as Hoff.
  { intros Hnup. subst offline.
    destruct (selectBestPeer_cases (E:=E) cfg now rf sc a cell true [] Hsc Ha) as (p & score & a1 & -> & Hwf1 & Hm1 & Hp).
    simpl. destruct p as [p|]; eexists _, _; (split; [done|]); split_and!; auto; [|done].
    intros op [= <-]. destruct (Hp p eq_refl) as (s & Hs & Hb & _ & _ & Hid & Hz).
    exists peer, p. split_and!; [set_solver|done..|]. split; [by eapply best_placed_eligible|done]. }
  rewrite getStore_lookup. destruct (sc !! _) as [s|] eqn:Es; [|by apply Hoff].
  unfold isUp. case_bool_decide as Hup; [|apply Hoff; congruence].
  exists r, a'. split_and!; try done. intros op Hop. destruct (Hr op Hop) as (old & new & ? & ?). exists old, new. set_solver.
Qed.

Lemma checkBestReplacement_cases rf sc a cell : cache_stores_wf sc → ids_wf a →
  ∃ r a', @checkBestReplacement A _ _ E cfg now rf sc a cell = Ok (r, a') ∧
  ∀ op, r = Some op → ∃ old new, old ∈ getPeers cell ∧ op = transfer_state now (getID cell) old new 0 ∧
    placed (E:=E) cfg now sc a cell new.
Proof.
  intros Hsc Ha. unfold checkBestReplacement.
  destruct (selectWorstPeer_cases (E:=E) cfg now rf sc cell [] Hsc) as (old & oldScore & -> & Hold). simpl.
  destruct old as [old|]; [|eexists _, _; by split]. unfold selectBestReplacement.
  match goal with |- context [selectBestPeer _ _ _ _ _ ?nc _ ?fs] =>
    destruct (selectBestPeer_cases (E:=E) cfg now rf sc a nc false fs Hsc Ha)
      as (new & newScore & a1 & -> & Hwf1 & Hm1 & Hnew) end.
  simpl. destruct new as [new|]; [|eexists _, _; by split].
  destruct (fle newScore oldScore); [eexists _, _; by split|].
  destruct (Hnew new eq_refl) as (s & Hs & (Hlk & He & Hf & _) & _ & _ & ->).
  pose proof (next_id_no_panic a Ha). pose proof (next_id_fresh a).
  destruct (next_id a) as [[id|e|] a']; simpl in *; [| |done]; eexists _, _; (split; [done|]); [|done].
  intros op [= <-]. exists old, (mkPeer id (Peer_StoreID new)). split_and!; [auto|done|].
  assert (¬ ids_used a id ∧ id ≠ 0) as [Hu Hz] by naive_solver.
  split; [|done]. exists s. rewrite <-Hs. split; [done|].
  specialize (Hf _ (list_elem_of_here _ _)). simpl in Hf. injection Hf as Hf. apply bool_decide_eq_false in Hf.
  destruct He as (Hup & Hd & Hr & _). split_and!; [done..|]. intros p Hp Heq.
  apply Hf, lookup_getStoreIDs. rewrite <-Heq. by apply list_elem_of_fmap_2.
Qed.

(** [selectBestPeer] never fails on well-formed stores.  A peer it returns
    is on a store that is up, heartbeats recently, is not above the storage
    threshold, has no peer of the cell and passes the extra filters, and no
    other such store is better: none has a higher distinct score, or the same
    distinct score and a lower cell score.  A newly allocated peer id is
    non-zero and was never handed out before. *)
Theorem selectBestPeer_picks_best rf sc (a : A) target allocPeerID filters :
  cache_stores_wf sc → ids_wf a →
  ∃ p score a', @selectBestPeer A _ _ E cfg now rf sc a target allocPeerID filters = Ok (p, score, a') ∧
  ∀ p', p = Some p' → ∃ s, getStoreID s = Peer_StoreID p' ∧
    sc !! getStoreID s = Some s ∧ eligible (E:=E) cfg now target s ∧
    (∀ f, f ∈ filters ++ rf → @FilterTarget E cfg now f s = Ok false) ∧
    (∀ s', sc !! getStoreID s' = Some s' → eligible (E:=E) cfg now target s' →
      (∀ f, f ∈ filters → @FilterTarget E cfg now f s' = Ok false) →
      ∃ r, r ≤ 0 ∧ @compareStoreScore E s' (getDistinctScore cfg (getCellStores sc target) s') s score = Ok r) ∧
    (allocPeerID = true → ¬ ids_used a (Peer_ID p') ∧ Peer_ID p' ≠ 0).
Proof.
  intros Hsc Ha.
  destruct (selectBestPeer_cases (E:=E) cfg now rf sc a target allocPeerID filters Hsc Ha)
    as (p & score & a' & Hr & _ & _ & Hp). exists p, score, a'. split; [done|]. intros p' Hp'.
  destruct (Hp p' Hp') as (s & Hs & (Hlk & He & Hf & Hmax) & Hrf & -> & Hal). exists s. split_and!; try done.
  - unfold filterTarget in Hrf. rewrite any_filter_false in Hrf. intros f [?|?]%elem_of_app; auto.
  - by intros ->.
Qed.

(** [replicaChecker.Check] never fails on well-formed stores, and an
    operator it returns is for the checked cell and is one of: the removal of a
    peer reported down; the transfer of a peer whose store is unknown or not up;
    the addition of a peer, only below the replica limit; the removal of one of
    the cell's peers, only above the limit; the replacement of one of the cell's
    peers, only at the limit.  A peer that is added is on an eligible store that
    holds no peer of the cell, with an id never handed out before. *)
Theorem Check_sound rf sc (a : A) (target : CellInfo) :
  cache_stores_wf sc → ids_wf a →
  let n := u32 (Z.of_nat (length (getPeers target))) in
  ∃ r a', @Check A _ _ E cfg now rf sc a target = Ok (r, a') ∧
  ∀ op, r = Some op → GetCellID op = getID target ∧
  ((∃ stats, stats ∈ DownPeers target ∧ op = remove_op (getID target) (PeerStats_Peer stats)) ∨
   (∃ old new, old ∈ getPeers target ∧ op = transfer_state now (getID target) old new 0 ∧
      ((∀ s, sc !! Peer_StoreID old = Some s → State (SMeta s) ≠ UP) ∨ n = LimitReplicas cfg) ∧
      ∃ a0, placed (E:=E) cfg now sc a0 target new ∧ ∀ x, ids_used a x → ids_used a0 x) ∨
   (n < LimitReplicas cfg ∧ ∃ new a0, op = add_op (getID target) new ∧
      placed (E:=E) cfg now sc a0 target new ∧ ∀ x, ids_used a x → ids_used a0 x) ∨
   (n > LimitReplicas cfg ∧ ∃ old, old ∈ getPeers target ∧ op = remove_op (getID target) old)).
Proof.
  intros Hsc Ha n. unfold Check.
  destruct (checkDownPeer_cases sc (getID target) (DownPeers target) Hsc) as (r & -> & Hr). simpl.
  destruct r as [op|]; [eexists _, _; split; [done|]; intros ? [= <-]; destruct (Hr op eq_refl) as (? & ? & ->); eauto|].
  destruct (checkOfflinePeer_cases rf sc a target (Peers (CMeta target)) Hsc Ha) as (r & a1 & -> & Ha1 & Hm1 & Hr1).
  simpl. destruct r as [op|].
  { eexists _, _; split; [done|]. intros ? [= <-]. destruct (Hr1 op eq_refl) as (old & new & ? & -> & ? & ?).
    split; [done|]. right; left. exists old, new. split_and!; eauto. }
  fold n. case_decide as Hlt; [|case_decide as Hgt].
  - destruct (selectBestPeer_cases (E:=E) cfg now rf sc a1 target true rf Hsc Ha1) as (p & score & a2 & -> & Ha2 & Hm2 & Hp).
    simpl. destruct p as [p|]; simpl; eexists _, _; (split; [done|]); [|done]. intros ? [= <-]. split; [done|].
    right; right; left. split; [done|]. destruct (Hp p eq_refl) as (s & Hs & Hb & _ & _ & Hid & Hz).
    exists p, a1. split_and!; [done| |done]. split; [by eapply best_placed_eligible|done].
  - destruct (selectWorstPeer_cases (E:=E) cfg now rf sc target [] Hsc) as (p & score & -> & Hp). simpl.
    destruct p as [p|]; eexists _, _; (split; [done|]); [|done]. intros ? [= <-]. split; [done|].
    right; right; right. eauto.
  - destruct (checkBestReplacement_cases rf sc a1 target Hsc Ha1) as (r & a2 & -> & Hr2).
    eexists _, _; split; [done|]. intros op Hop. destruct (Hr2 op Hop) as (old & new & Hold & -> & Hpl).
    split; [done|]. right; left. exists old, new. split_and!; [done..| |eauto]. right. lia.
Qed.

(** *** Leader balancing *)
Lemma plays_leader leads info s : plays leads info s → is_Some (LeaderPeer info).
Proof. intros (l & p & -> & _). eauto. Qed.

Lemma randCell_ok (m : gmap Z CellInfo) : (∀ id c, m !! id = Some c → is_Some (LeaderPeer c)) →
  ∃ r, @randCell _ E m = Ok r ∧ ∀ c, r = Some c → ∃ id, m !! id = Some c.
Proof.
  intros Hl. unfold randCell.
  assert (∀ c, c ∈ range_values m → ∃ id, m !! id = Some c) as Hin by (intros c; by rewrite elem_of_range_values).
  induction (range_values m) as [|c l IH]; [eexists; by split|].
  destruct (Hin c ltac:(set_solver)) as [id Hc]. destruct (Hl _ _ Hc) as [leader ->].
  destruct IH as (r & Hr & Hr'); [set_solver|].
  case_decide; [by exists r|]. case_decide; [by exists r|]. eexists; split; [done|].
  intros c' [= <-]. exists id. rewrite Hc. by destruct c.
Qed.

Lemma rand_index_ok leads (m : gmap Z (gmap Z CellInfo)) cs s : index_ok leads m cs →
  ∃ r, @randCell _ E (default ∅ (m !! s)) = Ok r ∧ ∀ c, r = Some c → plays leads c s.
Proof.
  intros Hok. assert (∀ id c, default ∅ (m !! s) !! id = Some c → plays leads c s) as Hp.
  { intros id c Hc. apply (Hok s id c). unfold lookup2. by destruct (m !! s). }
  destruct (randCell_ok (default ∅ (m !! s))) as (r & Hr & Hc); [intros; by eapply plays_leader, Hp|].
  exists r. split; [done|]. intros c (id & ?)%Hc. by eapply Hp.
Qed.

Lemma average_num stores : Forall store_wf stores → ∀ n acc, 0 < n → is_nn acc →
  ∃ x, @average E n stores acc = Ok x ∧ is_num x.
Proof.
  induction 1 as [|s stores Hs Hall IH]; intros n acc Hn Hacc; simpl; [eauto using is_nn_num|].
  destruct (leaderScore_wf (E:=E) s Hs) as (k & _ & -> & Hk). simpl. apply IH; [done|].
  apply fadd_nn; [done|]. apply fdiv_nn; [unfold two32 in *; lia|done].
Qed.

Lemma leader_distance_ok avg s : is_num avg → (∀ x, s = Some x → store_wf x) →
  ∃ d, @leader_distance E avg s = Ok d ∧ is_num d ∧ flt d fzero = false ∧
  (s = None → d = fzero) ∧ (feq d fzero = false → flt fzero d = true).
Proof.
  intros Ha Hs. destruct s as [s|]; simpl; [|eexists; by split].
  destruct (leaderScore_wf (E:=E) s (Hs s eq_refl)) as (n & _ & -> & Hn). simpl. eexists; split; [done|].
  assert (is_num (fsub (float64 n) avg)) as Hnum.
  { apply fsub_num; [apply float64_num|done|]. left. apply float64_fin. unfold two32 in Hn. lia. }
  destruct (fsub (float64 n) avg) as [[]|[]| |[] m e]; by split_and!.
Qed.

Lemma getFollowerStores_peer sc cell s : cache_stores_wf sc → s ∈ getFollowerStores sc cell →
  store_wf s ∧ sc !! getStoreID s = Some s ∧ ∃ p, p ∈ getPeers cell ∧ Peer_StoreID p = getStoreID s.
Proof.
  intros [Hid Hwf]. unfold getFollowerStores. rewrite list_elem_of_omap. intros (id & Hk & Hs).
  change (getStoreWithoutLock sc id) with (getStore sc id) in Hs. rewrite getStore_lookup in Hs.
  rewrite (Hid _ _ Hs). split_and!; [by eapply Hwf|done|]. rewrite elem_of_range_keys in Hk. clear Hs.
  unfold getFollowers, getPeers in *.
  assert (∀ ps (m : gmap Z Peer), is_Some (foldl (λ followers peer,
    if decide (Peer_ID <$> LeaderPeer cell = Some (Peer_ID peer)) then followers
    else <[Peer_StoreID peer := peer]> followers) m ps !! id) →
    is_Some (m !! id) ∨ ∃ p, p ∈ ps ∧ Peer_StoreID p = id) as Hg.
  { induction ps as [|p ps IH]; intros m; simpl; [by left|]. intros [Hm|(q & ? & ?)]%IH; [|right; set_solver].
    case_decide; [by left|]. rewrite lookup_insert_is_Some' in Hm. destruct Hm as [<-|?]; [right; set_solver|by left]. }
  destruct (Hg _ _ Hk) as [[? [=]]|?]; done.
Qed.

Lemma getStorePeer_Some cell id : (∃ p, p ∈ getPeers cell ∧ Peer_StoreID p = id) →
  ∃ p, getStorePeer cell id = Some p ∧ p ∈ getPeers cell ∧ Peer_StoreID p = id.
Proof.
  intros (p & Hp & Hid). destruct (getStorePeer cell id) as [q|] eqn:Eq.
  - exists q. split; [done|]. apply find_map_Some in Eq as (q' & Hq & Heq). case_decide; [|done].
    injection Heq as <-. done.
  - exfalso. unfold getStorePeer in Eq. rewrite find_map_None, Forall_forall in Eq. specialize (Eq p Hp). by rewrite decide_True in Eq.
Qed.

(** Choosing a leader to move never fails: with well-formed stores and a
    reachable cell cache [scheduleTransferLeader] dereferences no nil store and
    meets no cell without a leader; a cell it returns has a leader, and the new
    leader is one of its peers, on a store PD knows. *)
Theorem scheduleTransferLeader_safe sc (cc : cellCache T) sel filters :
  cache_stores_wf sc → reachable_cache cc →
  ∃ r, @scheduleTransferLeader T _ E cfg now sc cc sel filters = Ok r ∧
  ∀ cell p, r = Some (cell, p) → is_Some (LeaderPeer cell) ∧
    ∃ peer, p = Some peer ∧ peer ∈ getPeers cell ∧ is_Some (sc !! Peer_StoreID peer).
Proof.
  intros Hsc Hcc%reachable_cache_inv. unfold scheduleTransferLeader.
  case_decide as Hnil; [eexists; by split|].
  assert (Forall store_wf (getStores sc)) as Hall by (apply Forall_forall; intros s ?; by apply (getStores_wf sc)).
  destruct (average_num _ Hall (Z.of_nat (length (getStores sc))) fzero) as (avg & -> & Havg);
    [destruct (getStores sc); [done|simpl; lia]|done|].
  destruct (SelectSource_spec (E:=E) cfg now sel _ filters Hall) as (most & -> & Hmost).
  destruct (SelectTarget_spec (E:=E) cfg now sel _ filters Hall) as (least & -> & Hleast). cbn [outcome_bind].
  assert (∀ x, most = Some x → store_wf x ∧ sc !! getStoreID x = Some x) as Hm.
  { intros x ->. destruct Hmost as (s & Hin & _ & -> & _). by apply getStores_wf. }
  assert (∀ x, least = Some x → store_wf x ∧ sc !! getStoreID x = Some x) as Hl.
  { intros x ->. destruct Hleast as (s & Hin & _ & -> & _). by apply getStores_wf. }
  destruct (leader_distance_ok avg most Havg) as (dm & -> & Hdm & Hdm0 & HdmN & Hdmp); [intros; by apply Hm|].
  destruct (leader_distance_ok avg least Havg) as (dl & -> & Hdl & Hdl0 & HdlN & Hdlp); [intros; by apply Hl|].
  cbn [outcome_bind]. destruct (feq dm fzero && feq dl fzero) eqn:Ez; [eexists; by split|].
  destruct (flt dl dm) eqn:Elt.
  - destruct most as [most|]; [|by rewrite HdmN in Elt; [congruence|]].
    destruct (rand_index_ok true (leaders cc) _ (getStoreID most) (ci_leaders _ Hcc)) as (c & Hc & Hplays).
    unfold randLeaderCell. rewrite Hc. cbn [outcome_bind]. destruct c as [c|]; [|eexists; by split].
    assert (Forall store_wf (getFollowerStores sc c)) as Hfall
      by (apply Forall_forall; intros s ?; by apply (getFollowerStores_peer sc c)).
    destruct (SelectTarget_spec (E:=E) cfg now sel _ [] Hfall) as (t & -> & Ht). cbn [outcome_bind].
    destruct t as [t|]; [|eexists; by split]. destruct Ht as (s & Hin & _ & -> & _). unfold id.
    destruct (getFollowerStores_peer sc c s Hsc Hin) as (_ & Hlk & Hpeer).
    destruct (getStorePeer_Some c (getStoreID s) Hpeer) as (p & -> & Hp & Hps).
    eexists; split; [done|]. intros cell p' [= <- <-]. split; [by eapply plays_leader, Hplays|].
    exists p. rewrite Hps. eauto.
  - destruct least as [least|].
    2:{ rewrite (HdlN eq_refl) in *. rewrite andb_comm in Ez. simpl in Ez. rewrite (Hdmp Ez) in Elt. done. }
    destruct (rand_index_ok false (followers cc) _ (getStoreID least) (ci_followers _ Hcc)) as (c & Hc & Hplays).
    unfold randFollowerCell. rewrite Hc. cbn [outcome_bind]. destruct c as [c|]; [|eexists; by split].
    specialize (Hplays c eq_refl). pose proof Hplays as (l & q & Hld & _ & Hq & Hqs & _).
    destruct (getStorePeer_Some c (getStoreID least)) as (p & -> & Hp & Hps); [eauto|].
    eexists; split; [done|]. intros cell p' [= <- <-]. split; [eauto|]. exists p. rewrite Hps.
    destruct (Hl least eq_refl). eauto.
Qed.
End checker.

(** ** Witnesses *)
Definition wcfg : Cfg := mkCfg ["zone"%string] 3 3 3600000000000 4 4 8 80.
Definition wstore (id leaders cells : Z) (zone : string) : StoreInfo :=
  mkStoreInfo (mkStore id "addr"%string [mkLabel "zone" zone] UP "client"%string)
    (Some (mkStoreStatus (mkStoreStats id 1000 900 cells 0 0 0 0 false 0 0 0) leaders 1000 false)).
Definition wstores : list StoreInfo := [wstore 1 5 10 "z1"; wstore 2 3 7 "z2"; wstore 3 4 2 "z3"].
Definition wsc : storeCache := list_to_map ((λ s, (getStoreID s, s)) <$> wstores).

Lemma wstore_wf id l c z : 0 ≤ l < 1000 → 0 ≤ c < 1000 → store_wf (wstore id l c z).
Proof. intros Hl Hc. eexists. split; [reflexivity|]. unfold two32. simpl. lia. Qed.
Lemma wsc_wf : cache_stores_wf wsc.
Proof.
  assert (∀ id s, wsc !! id = Some s → id = getStoreID s ∧ s ∈ wstores) as Hall.
  { intros id s Hs. apply elem_of_list_to_map_2, list_elem_of_fmap in Hs as (s' & [= -> ->] & Hin). done. }
  split; [intros id s Hs; by destruct (Hall _ _ Hs)|].
  intros id s [_ Hin]%Hall. unfold wstores in Hin. rewrite !elem_of_cons, elem_of_nil in Hin.
  destruct Hin as [->|[->|[->|[]]]]; apply wstore_wf; lia.
Qed.

Lemma selectors_pick_extremal_store_witness :
  @SelectSource unit wcfg 2000 bl_selector wstores [] = Ok (Some (wstore 1 5 10 "z1")) ∧
  (∃ r, @SelectTarget unit wcfg 2000 bl_selector wstores [] = Ok r).
Proof.
  assert (Forall store_wf wstores) as Hwf by (repeat constructor; apply wstore_wf; lia).
  destruct (selectors_pick_extremal_store (E:=unit) wcfg 2000 bl_selector wstores [] Hwf)
    as [(r & Hr & _) (r' & Hr' & _)].
  split; [vm_compute; reflexivity|]. exists r'. exact Hr'.
Defined.

Definition wclient : alloc_client :=
  mkAllocClient [(NetOk, NetOk)] "pd1" newIDAllocator (mkEtcd (Some "pd1"%string) None).
Lemma wclient_wf : ids_wf wclient.
Proof. split; [done|]. vm_compute. split_and!; done. Qed.
Definition wtarget : CellInfo :=
  mkCellInfo (mkCell 9 [] [] (mkCellEpoch 1 1) [mkPeer 90 1]) (Some (mkPeer 90 1)) [] [].

Lemma selectBestPeer_picks_best_witness :
  ∃ p score a', @selectBestPeer alloc_client _ _ unit wcfg 2000 [] wsc wclient wtarget true [] = Ok (Some p, score, a') ∧
  Peer_StoreID p = 3 ∧ ¬ ids_used wclient (Peer_ID p).
Proof.
  destruct (selectBestPeer_picks_best (E:=unit) wcfg 2000 [] wsc wclient wtarget true [] wsc_wf wclient_wf)
    as (p & score & a' & Hr & Hp).
  assert (∃ q, p = Some q ∧ Peer_StoreID q = 3) as (q & -> & Hq).
  { vm_compute in Hr. injection Hr as <- _ _. eexists. split; reflexivity. }
  exists q, score, a'. split; [exact Hr|]. split; [exact Hq|].
  destruct (Hp q eq_refl) as (s & _ & _ & _ & _ & _ & Hid). by apply Hid.
Defined.

Lemma Check_sound_witness :
  ∃ op a', @Check alloc_client _ _ unit wcfg 2000 [] wsc wclient wtarget = Ok (Some op, a') ∧ GetCellID op = 9.
Proof.
  destruct (Check_sound (E:=unit) wcfg 2000 [] wsc wclient wtarget wsc_wf wclient_wf) as (r & a' & Hr & Hop).
  assert (∃ op, r = Some op) as [op ->].
  { vm_compute in Hr. injection Hr as <- _. eexists. reflexivity. }
  exists op, a'. split; [exact Hr|]. by destruct (Hop op eq_refl).
Defined.

Lemma scheduleTransferLeader_safe_witness :
  ∃ r, @scheduleTransferLeader (list CellItem) _ unit wcfg 2000 wsc wcache bl_selector [] = Ok r.
Proof.
  destruct (scheduleTransferLeader_safe (E:=unit) wcfg 2000 wsc wcache bl_selector [] wsc_wf wcache_reachable)
    as (r & Hr & _). exists r. exact Hr.
Defined.
