(* ===== verification/MetaStore.v ===== *)
(** * PD's persisted metadata (pkg/pdserver/store_cluster.go)

    The cluster, store and cell records PD keeps in etcd.  A record's key ends
    in its id as twenty zero-padded digits, so etcd's key order is the order of
    the ids.  [LoadStoreMeta] and [LoadCellMeta] page through a key range in
    batches; a page request can fail. *)

From stdpp Require Import sorting.
From S2P Require Import Prelude BTree Meta IdAlloc.

Record meta_store := mkMetaStore {
  ms_cluster : option Cluster;
  ms_stores : gmap Z Store;
  ms_cells : gmap Z Cell;
}.
Definition empty_meta : meta_store := mkMetaStore None ∅ ∅.

(** What one unconditional write does under a network outcome. *)
Definition save (n : net) (ms ms' : meta_store) : outcome alloc_error unit * meta_store :=
  match n with
  | NetOk => (Ok tt, ms')
  | NetLost => (Err ErrEtcd, ms)
  | NetReplyLost => (Err ErrEtcd, ms')
  end.
Definition SetStoreMeta (n : net) (store : Store) (ms : meta_store) : outcome alloc_error unit * meta_store :=
  save n ms (mkMetaStore (ms_cluster ms) (<[Store_ID store := store]> (ms_stores ms)) (ms_cells ms)).
Definition SetCellMeta (n : net) (cell : Cell) (ms : meta_store) : outcome alloc_error unit * meta_store :=
  save n ms (mkMetaStore (ms_cluster ms) (ms_stores ms) (<[Cell_ID cell := cell]> (ms_cells ms))).

(** The first server to create the cluster record also writes the first store
    and cells, in one transaction. *)
Definition SetClusterBootstrapped (n : net) (cluster : Cluster) (store : Store) (cells : list Cell) (ms : meta_store)
  : outcome alloc_error bool * meta_store :=
  let succeeded := bool_decide (ms_cluster ms = None) in
  let ms' := if succeeded
             then mkMetaStore (Some cluster) (<[Store_ID store := store]> (ms_stores ms))
                    (foldl (λ m c, <[Cell_ID c := c]> m) (ms_cells ms) cells)
             else ms in
  match n with
  | NetOk => (Ok succeeded, ms')
  | NetLost => (Err ErrEtcd, ms)
  | NetReplyLost => (Err ErrEtcd, ms')
  end.
Definition LoadClusterMeta (n : net) (ms : meta_store) : outcome alloc_error (option Cluster) :=
  match n with NetOk => Ok (ms_cluster ms) | _ => Err ErrEtcd end.

(** ** Paging through a key range *)
Definition endID : Z := two64 - 1.
Definition key_le {V} (a b : Z * V) : Prop := a.1 ≤ b.1.
#[export] Instance key_le_dec {V} (a b : Z * V) : Decision (key_le a b).
Proof. unfold key_le. apply _. Defined.
#[export] Instance key_le_trans {V} : Transitive (@key_le V).
Proof. intros a b c. unfold key_le. lia. Qed.
#[export] Instance key_le_total {V} : Total (@key_le V).
Proof. intros a b. unfold key_le. lia. Qed.
(** The pairs of a map in key order. *)
Definition sorted_kvs {V} (m : gmap Z V) : list (Z * V) := merge_sort key_le (map_to_list m).
(** [get(startKey, WithRange(endKey), WithLimit(limit))] *)
Definition etcd_range {V} (m : gmap Z V) (start end_ : Z) (limit : nat) : list (Z * V) :=
  take limit (filter (λ kv, start ≤ kv.1 < end_) (sorted_kvs m)).

(** The loop; [ok i] tells whether the i-th page request is answered, and
    [None] is running out of fuel. *)
Fixpoint load_loop {V S} (fuel : nat) (ok : nat → bool) (i : nat) (getid : V → Z) (limit : nat) (startID : Z)
    (m : gmap Z V) (do : S → V → S) (s : S) : option (outcome alloc_error unit * S) :=
  match fuel with
  | O => None
  | Datatypes.S fuel' =>
      if ok i then
        let kvs := etcd_range m startID endID limit in
        let s' := foldl (λ s kv, do s kv.2) s kvs in
        let startID' := foldl (λ _ kv, u64 (getid kv.2 + 1)) startID kvs in
        if decide (length kvs < limit)%nat then Some (Ok tt, s')
        else load_loop fuel' ok (Datatypes.S i) getid limit startID' m do s'
      else Some (Err ErrEtcd, s)
  end.
(** A page is needed per [limit] records, and one more. *)
Definition load_fuel {V} (m : gmap Z V) (limit : nat) : nat := Datatypes.S (size m / limit).
Definition LoadStoreMeta {S} (ok : nat → bool) (limit : nat) (ms : meta_store) (do : S → Store → S) (s : S)
  : option (outcome alloc_error unit * S) :=
  load_loop (load_fuel (ms_stores ms) limit) ok 0 Store_ID limit 0 (ms_stores ms) do s.
Definition LoadCellMeta {S} (ok : nat → bool) (limit : nat) (ms : meta_store) (do : S → Cell → S) (s : S)
  : option (outcome alloc_error unit * S) :=
  load_loop (load_fuel (ms_cells ms) limit) ok 0 Cell_ID limit 0 (ms_cells ms) do s.

(** ** Paging visits every record once, in order *)
Section paging.
Context {V : Type}.
Implicit Types m : gmap Z V.

Lemma sorted_kvs_perm m : sorted_kvs m ≡ₚ map_to_list m.
Proof. apply merge_sort_Permutation. Qed.
Lemma elem_of_sorted_kvs m k v : (k, v) ∈ sorted_kvs m ↔ m !! k = Some v.
Proof. by rewrite sorted_kvs_perm, elem_of_map_to_list. Qed.

Lemma sorted_kvs_lt m : StronglySorted (λ a b : Z * V, a.1 < b.1) (sorted_kvs m).
Proof.
  assert (StronglySorted key_le (sorted_kvs m)) as Hs
    by apply (StronglySorted_merge_sort key_le).
  assert (NoDup (sorted_kvs m).*1) as Hnd by (rewrite sorted_kvs_perm; apply NoDup_fst_map_to_list).
  induction Hs as [|kv l Hs IH Hall]; [constructor|]. rewrite fmap_cons, NoDup_cons in Hnd. destruct Hnd as [Hni Hnd].
  constructor; [auto|]. rewrite Forall_forall in Hall |- *. intros kv' Hin. specialize (Hall _ Hin). unfold key_le in Hall.
  assert (kv.1 ≠ kv'.1); [|lia]. intros Heq. apply Hni. rewrite Heq. by apply list_elem_of_fmap_2.
Qed.

Lemma filter_StronglySorted (P : Z * V → Prop) `{∀ x, Decision (P x)} (R : relation (Z * V)) l :
  StronglySorted R l → StronglySorted R (filter P l).
Proof.
  induction 1 as [|x l Hs IH Hall]; [constructor|]. rewrite filter_cons. case_decide; [|done].
  constructor; [done|]. rewrite Forall_forall in Hall |- *. intros y [_ Hy]%list_elem_of_filter. auto.
Qed.

(** Cutting a sorted list after its [n]-th pair is restricting it to larger keys. *)
Lemma filter_after l : StronglySorted (λ a b : Z * V, a.1 < b.1) l → ∀ pre kv post, l = pre ++ kv :: post →
  filter (λ x, kv.1 + 1 ≤ x.1) l = post.
Proof.
  intros Hs pre kv post ->. rewrite filter_app, filter_cons_False by lia.
  apply StronglySorted_app in Hs as (Hcross & _ & Hs). inversion Hs as [|? ? Hs' Hall]; subst.
  rewrite Forall_forall in Hall. rewrite list_filter_none, list_filter_all; [done|..]; apply Forall_forall; intros x Hx.
  - specialize (Hall _ Hx). simpl in Hall. lia.
  - specialize (Hcross x kv Hx ltac:(set_solver)). simpl in Hcross. lia.
Qed.

(** The records still to be visited from [start] on. *)
Definition rest m (start : Z) : list (Z * V) := filter (λ kv, start ≤ kv.1 < endID) (sorted_kvs m).

Lemma rest_after m start pre kv post : rest m start = pre ++ kv :: post → rest m (kv.1 + 1) = post.
Proof.
  intros Hr. assert (StronglySorted (λ a b : Z * V, a.1 < b.1) (rest m start)) as Hs
    by apply filter_StronglySorted, sorted_kvs_lt.
  rewrite <-(filter_after _ Hs _ _ _ Hr). unfold rest. rewrite list_filter_filter.
  assert (start ≤ kv.1) as Hle.
  { assert (kv ∈ rest m start) as Hin by (rewrite Hr; set_solver). apply list_elem_of_filter in Hin as [? _]. lia. }
  apply list_filter_iff. intros x. lia.
Qed.

Lemma foldl_last {X Y} (f : X → Y) (a : Y) l x : foldl (λ _ z, f z) a (l ++ [x]) = f x.
Proof. by rewrite foldl_app. Qed.

Lemma load_loop_rest {S} (getid : V → Z) (limit : nat) m (do : S → V → S) :
  (∀ k v, m !! k = Some v → getid v = k ∧ 0 ≤ k) → (0 < limit)%nat →
  ∀ fuel i start s, (length (rest m start) < fuel * limit)%nat →
  load_loop fuel (λ _, true) i getid limit start m do s = Some (Ok tt, foldl (λ s kv, do s kv.2) s (rest m start)).
Proof.
  intros Hm Hlim. induction fuel as [|fuel IH]; intros i start s Hlen; [lia|]. simpl.
  change (etcd_range m start endID limit) with (take limit (rest m start)).
  rewrite length_take. case_decide as Hd.
  { rewrite take_ge by lia. done. }
  destruct (rest m start) as [|kv0 l0] eqn:E0; [simpl in *; lia|]. rewrite <-E0 in *.
  assert (∃ pre kv post, rest m start = pre ++ kv :: post ∧ take limit (rest m start) = pre ++ [kv]) as (pre & kv & post & Hr & Ht).
  { destruct (take limit (rest m start)) as [|kv pre _] eqn:Hp using rev_ind.
    { apply (f_equal length) in Hp. rewrite length_take, E0 in Hp. simpl in Hp. lia. }
    exists pre, kv, (drop limit (rest m start)). split; [|done].
    rewrite <-(take_drop limit (rest m start)) at 1. rewrite Hp. by rewrite <-(assoc_L (++)). }
  rewrite Ht, !foldl_last.
  assert (m !! kv.1 = Some kv.2 ∧ kv.1 < endID) as [Hkv Hmax].
  { assert (kv ∈ rest m start) as Hin by (rewrite Hr; set_solver). destruct kv as [k v].
    apply list_elem_of_filter in Hin as [? Hin].
    simpl in *. split; [by apply elem_of_sorted_kvs|lia]. }
  destruct (Hm _ _ Hkv) as [-> Hpos]. rewrite u64_small by (unfold is_u64, endID in *; lia).
  rewrite IH; rewrite (rest_after m start pre kv post Hr).
  - rewrite Hr. rewrite (cons_middle kv pre post), (assoc_L (++)), !foldl_app. done.
  - apply (f_equal length) in Hr, Ht. rewrite length_app in Hr, Ht. rewrite length_take in Ht. simpl in *. lia.
Qed.
End paging.

(** Records are filed under their own ids, which fit 64 bits. *)
Definition meta_wf (ms : meta_store) : Prop :=
  (∀ k s, ms_stores ms !! k = Some s → Store_ID s = k ∧ 0 ≤ k) ∧
  (∀ k c, ms_cells ms !! k = Some c → Cell_ID c = k ∧ 0 ≤ k).

Lemma load_fuel_enough {V} (m : gmap Z V) limit : (0 < limit)%nat → (length (rest m 0) < load_fuel m limit * limit)%nat.
Proof.
  intros Hl. assert (length (rest m 0) ≤ size m)%nat as Hle.
  { unfold rest. etransitivity; [apply length_filter|]. by rewrite sorted_kvs_perm, length_map_to_list. }
  unfold load_fuel. pose proof (Nat.div_mod (size m) limit ltac:(lia)).
  pose proof (Nat.mod_upper_bound (size m) limit ltac:(lia)). nia.
Qed.

(** The records a complete load visits, in order. *)
Definition loaded {V} (m : gmap Z V) : list V := (rest m 0).*2.
Lemma elem_of_loaded {V} (m : gmap Z V) v :
  v ∈ loaded m ↔ ∃ k, m !! k = Some v ∧ 0 ≤ k < endID.
Proof.
  unfold loaded, rest. rewrite list_elem_of_fmap. split.
  - intros ([k v'] & -> & [Hk Hin]%list_elem_of_filter). rewrite elem_of_sorted_kvs in Hin. eauto.
  - intros (k & Hk & Hb). exists (k, v). split; [done|]. apply list_elem_of_filter. by rewrite elem_of_sorted_kvs.
Qed.

Lemma load_loop_loaded {V S} (getid : V → Z) (limit : nat) m (do : S → V → S) s :
  (∀ k v, m !! k = Some v → getid v = k ∧ 0 ≤ k) → (0 < limit)%nat →
  load_loop (load_fuel m limit) (λ _, true) 0 getid limit 0 m do s = Some (Ok tt, foldl do s (loaded m)).
Proof.
  intros Hm Hl. rewrite (load_loop_rest getid limit m do Hm Hl) by by apply load_fuel_enough.
  unfold loaded. do 2 f_equal. generalize (rest m 0). intros l. revert s. induction l as [|kv l IH]; intros s; simpl; auto.
Qed.

(** Records filed under their ids are visited in strictly increasing id order. *)
Lemma loaded_sorted {V} (m : gmap Z V) (getid : V → Z) :
  (∀ k v, m !! k = Some v → getid v = k ∧ 0 ≤ k) → StronglySorted Z.lt (getid <$> loaded m).
Proof.
  intros Hm. unfold loaded. rewrite <-list_fmap_compose. apply StronglySorted_fmap.
  assert (StronglySorted (λ a b : Z * V, a.1 < b.1) (rest m 0)) as Hr by apply filter_StronglySorted, sorted_kvs_lt.
  assert (Forall (λ kv, getid kv.2 = kv.1) (rest m 0)) as Hall.
  { apply Forall_forall. intros [k v] [_ Hin]%list_elem_of_filter. rewrite elem_of_sorted_kvs in Hin. by apply Hm. }
  induction Hr as [|kv l Hr IH Hlt]; [constructor|]. apply Forall_cons in Hall as [Hkv Hall]. constructor; [auto|].
  rewrite Forall_forall in Hlt, Hall |- *. intros x Hx. specialize (Hlt x Hx). simpl. rewrite Hkv, (Hall x Hx). done.
Qed.
Lemma loaded_ids_nodup {V} (m : gmap Z V) (getid : V → Z) :
  (∀ k v, m !! k = Some v → getid v = k ∧ 0 ≤ k) → NoDup (getid <$> loaded m).
Proof.
  intros Hm. pose proof (loaded_sorted m getid Hm) as Hs. induction Hs as [|x l Hs IH Hall]; constructor; [|done].
  intros Hx. rewrite Forall_forall in Hall. specialize (Hall _ Hx). lia.
Qed.
Lemma loaded_lookup {V} (m : gmap Z V) (getid : V → Z) x :
  (∀ k v, m !! k = Some v → getid v = k ∧ 0 ≤ k) →
  x ∈ loaded m ↔ m !! getid x = Some x ∧ getid x < endID.
Proof.
  intros Hm. rewrite elem_of_loaded. split.
  - intros (k & Hk & Hb). destruct (Hm _ _ Hk) as [-> _]. split; [done|lia].
  - intros [Hx Hb]. exists (getid x). destruct (Hm _ _ Hx) as [_ ?]. split; [done|lia].
Qed.

(** C35. Paging through the persisted records, with any positive page size and
    answered requests, terminates and hands every store and every cell whose id
    is below the maximal id to the callback exactly once, in id order. *)
Theorem load_meta_complete {S} (limit : nat) (ms : meta_store)
    (doS : S → Store → S) (doC : S → Cell → S) (s : S) :
  meta_wf ms → (0 < limit)%nat →
  LoadStoreMeta (λ _, true) limit ms doS s = Some (Ok tt, foldl doS s (loaded (ms_stores ms))) ∧
  LoadCellMeta (λ _, true) limit ms doC s = Some (Ok tt, foldl doC s (loaded (ms_cells ms))) ∧
  StronglySorted Z.lt (Store_ID <$> loaded (ms_stores ms)) ∧
  StronglySorted Z.lt (Cell_ID <$> loaded (ms_cells ms)) ∧
  (∀ x, x ∈ loaded (ms_stores ms) ↔ ms_stores ms !! Store_ID x = Some x ∧ Store_ID x < endID) ∧
  (∀ x, x ∈ loaded (ms_cells ms) ↔ ms_cells ms !! Cell_ID x = Some x ∧ Cell_ID x < endID).
Proof.
  intros [Hs Hc] Hl.
  split_and!; first [by apply load_loop_loaded | by apply loaded_sorted | intros x; by apply loaded_lookup].
Qed.

Definition wmeta : meta_store :=
  mkMetaStore None {[ 1 := mkStore 1 "a"%string [] UP "b"%string; 2 := mkStore 2 "c"%string [] UP "d"%string ]}
    {[ 7 := mkCell 7 [] [] (mkCellEpoch 1 1) [] ]}.
Lemma load_meta_complete_witness :
  LoadStoreMeta (λ _, true) 1 wmeta (λ l s, Store_ID s :: l) [] = Some (Ok tt, [2; 1]).
Proof.
  assert (meta_wf wmeta) as Hwf.
  { split; intros k x; unfold wmeta; cbn [ms_stores ms_cells].
    - intros [[<- <-]|[_ [<- <-]%lookup_singleton_Some]]%lookup_insert_Some; done.
    - intros [<- <-]%lookup_singleton_Some; done. }
  destruct (load_meta_complete 1 wmeta (λ l s, Store_ID s :: l) (λ l c, Cell_ID c :: l) [] Hwf ltac:(lia)) as [H _].
  rewrite H. vm_compute. reflexivity.
Defined.
