(* ===== verification/Cluster.v ===== *)
(** * The cell cluster of PD

    pkg/pdserver: cache.go, cluster.go, coordinator.go, scheduler.go and the
    handlers of api_handler.go.  One PD leader keeps the store and cell caches,
    the operator table, the schedulers, the id allocator, its persisted
    metadata and the events queued for the watchers; the requests are state
    transformers that can return an error or panic.  The handlers run under the
    cluster's mutex; [DeleteStore] does not take it, see [store_heartbeat_race]. *)

From S2P Require Import Prelude BTree Meta CellTree IdAlloc IdSource StoreCache CellCache Operators Float64 Scheduling MetaStore.

Inductive pd_error :=
  | errRPCReq | errStaleCell | errNotBootstrapped | errTombstoneStore | errPDStoreNotFound
  | ErrAlloc (e : alloc_error) | ErrMeta (e : alloc_error) | ErrStoreOp (e : store_error)
  | ErrInvalidStore | ErrDuplicatedAddress | ErrMissingLabel
  | ErrCellNotFound | ErrPeerNotFound | ErrInvalidEpoch | ErrInvalidSplit | ErrSchedulerLimit
  | ErrZeroStoreID | ErrZeroCellID | ErrPeerCount | ErrZeroPeerID | ErrCellStoreID | ErrListIndex.

(** What watchers are told. *)
Inductive WatchEvent :=
  | CellEvent (event : Z) (r : Range)
  | StoreEvent (event : Z) (s : Store).

(** A scheduler with the back-off of its controller. *)
Record scheduleController (S : Type) := mkController { scheduler : S; interval : Z }.
Arguments mkController {S} _ _.
Arguments scheduler {S} _.
Arguments interval {S} _.
Definition maxScheduleRetries : nat := 10.
Definition maxScheduleInterval : Z := 60 * 1000000000.
Definition minScheduleInterval : Z := 10 * 1000000.
Definition newScheduleController {S} (s : S) : scheduleController S := mkController s minScheduleInterval.
Definition GetInterval {S} (c : scheduleController S) : Z := interval c.

Record CellCluster (A T : Type) := mkCellCluster {
  running : bool;
  cluster_meta : option Cluster;
  sc : storeCache;
  cc : cellCache T;
  allocator : A;
  store_meta : meta_store;
  events : list WatchEvent;
  table : op_table;
  storeOpts : store_ops;
  leader_ctl : scheduleController balanceLeaderScheduler;
  cell_ctl : scheduleController balanceCellScheduler;
}.
Arguments mkCellCluster {A T} _ _ _ _ _ _ _ _ _ _ _.
Arguments running {A T} _.
Arguments cluster_meta {A T} _.
Arguments sc {A T} _.
Arguments cc {A T} _.
Arguments allocator {A T} _.
Arguments store_meta {A T} _.
Arguments events {A T} _.
Arguments table {A T} _.
Arguments storeOpts {A T} _.
Arguments leader_ctl {A T} _.
Arguments cell_ctl {A T} _.

(** ** The monad of the handlers *)
Definition M (S X : Type) := S → outcome pd_error X * S.
Definition mret {S X} (x : X) : M S X := λ s, (Ok x, s).
Definition mbind_ {S X Y} (m : M S X) (f : X → M S Y) : M S Y := λ s,
  match m s with
  | (Ok x, s') => f x s'
  | (Err e, s') => (Err e, s')
  | (Panic, s') => (Panic, s')
  end.
Definition throw {S X} (e : pd_error) : M S X := λ s, (Err e, s).
Definition mpanic {S X} : M S X := λ s, (Panic, s).
Definition get {S} : M S S := λ s, (Ok s, s).
Definition modify {S} (f : S → S) : M S unit := λ s, (Ok tt, f s).
(** A pure computation that may fail. *)
Definition lift {S X} (m : outcome pd_error X) : M S X := λ s, (m, s).

Declare Scope handler_scope.
Notation "'do!' x ':=' m 'in' k" := (mbind_ m (λ x, k))
  (at level 10, x pattern, m at level 100, k at level 200) : handler_scope.
Notation "m ';!' k" := (mbind_ m (λ _, k)) (at level 100, k at level 200) : handler_scope.
#[local] Open Scope handler_scope.

Section cluster.
Context {A T : Type} `{!IdSource A} `{OT : !OrderedTree CellItem Less T} `{!MapOrder}.
Context (StandardDeviation : list f64 → f64) (cfg : Cfg).
Abbreviation state := (CellCluster A T).
Abbreviation handler := (M state).

(** Field updates. *)
Definition set_running (b : bool) (s : state) : state :=
  mkCellCluster b (cluster_meta s) (sc s) (cc s) (allocator s) (store_meta s) (events s) (table s) (storeOpts s) (leader_ctl s) (cell_ctl s).
Definition set_cluster (c : option Cluster) (s : state) : state :=
  mkCellCluster (running s) c (sc s) (cc s) (allocator s) (store_meta s) (events s) (table s) (storeOpts s) (leader_ctl s) (cell_ctl s).
Definition set_sc (x : storeCache) (s : state) : state :=
  mkCellCluster (running s) (cluster_meta s) x (cc s) (allocator s) (store_meta s) (events s) (table s) (storeOpts s) (leader_ctl s) (cell_ctl s).
Definition set_cc (x : cellCache T) (s : state) : state :=
  mkCellCluster (running s) (cluster_meta s) (sc s) x (allocator s) (store_meta s) (events s) (table s) (storeOpts s) (leader_ctl s) (cell_ctl s).
Definition set_allocator (x : A) (s : state) : state :=
  mkCellCluster (running s) (cluster_meta s) (sc s) (cc s) x (store_meta s) (events s) (table s) (storeOpts s) (leader_ctl s) (cell_ctl s).
Definition set_meta (x : meta_store) (s : state) : state :=
  mkCellCluster (running s) (cluster_meta s) (sc s) (cc s) (allocator s) x (events s) (table s) (storeOpts s) (leader_ctl s) (cell_ctl s).
Definition set_table (x : op_table) (s : state) : state :=
  mkCellCluster (running s) (cluster_meta s) (sc s) (cc s) (allocator s) (store_meta s) (events s) x (storeOpts s) (leader_ctl s) (cell_ctl s).
Definition set_storeOpts (x : store_ops) (s : state) : state :=
  mkCellCluster (running s) (cluster_meta s) (sc s) (cc s) (allocator s) (store_meta s) (events s) (table s) x (leader_ctl s) (cell_ctl s).
Definition set_leader_ctl (x : scheduleController balanceLeaderScheduler) (s : state) : state :=
  mkCellCluster (running s) (cluster_meta s) (sc s) (cc s) (allocator s) (store_meta s) (events s) (table s) (storeOpts s) x (cell_ctl s).
Definition set_cell_ctl (x : scheduleController balanceCellScheduler) (s : state) : state :=
  mkCellCluster (running s) (cluster_meta s) (sc s) (cc s) (allocator s) (store_meta s) (events s) (table s) (storeOpts s) (leader_ctl s) x.
Definition notify (e : WatchEvent) (s : state) : state :=
  mkCellCluster (running s) (cluster_meta s) (sc s) (cc s) (allocator s) (store_meta s) (events s ++ [e]) (table s) (storeOpts s) (leader_ctl s) (cell_ctl s).

Definition newCellCluster (a : A) (ms : meta_store) : state :=
  mkCellCluster false None newStoreCache newCellCache a ms [] empty_table ∅
    (newScheduleController newBalanceLeaderScheduler) (newScheduleController newBalanceCellScheduler).

(** A write of the metadata store; its error is returned. *)
Definition save_meta {X} (f : meta_store → outcome alloc_error X * meta_store) : handler X := λ s,
  match f (store_meta s) with
  | (Ok x, ms) => (Ok x, set_meta ms s)
  | (Err e, ms) => (Err (ErrMeta e), set_meta ms s)
  | (Panic, ms) => (Panic, set_meta ms s)
  end.
Definition newID_h : handler Z := λ s,
  match next_id (allocator s) with
  | (Ok id, a) => (Ok id, set_allocator a s)
  | (Err e, a) => (Err (ErrAlloc e), set_allocator a s)
  | (Panic, a) => (Panic, set_allocator a s)
  end.

(** ** cache.go *)

(** A cell that is not cached, or a leader on an unknown store, panics. *)
Definition notifyChangedRange (id event : Z) : handler unit :=
  do! s := get in
  match getCell (cc s) id with
  | None => mpanic
  | Some cr =>
      match LeaderPeer cr with
      | None => modify (notify (CellEvent event (mkRange (CMeta cr) None)))
      | Some leader =>
          match getStore (sc s) (Peer_StoreID leader) with
          | None => mpanic
          | Some st => modify (notify (CellEvent event (mkRange (CMeta cr) (Some (SMeta st)))))
          end
      end
  end.

Definition notifyStoreRange (id : Z) : handler unit :=
  do! s := get in
  match getStore (sc s) id with
  | None => mret tt
  | Some store =>
      let et := match State (SMeta store) with
                | UP => EventStoreUp | Down => EventStoreDown | Tombstone => EventStoreTombstone
                end in
      modify (notify (StoreEvent et (SMeta store)))
  end.

Definition doSaveCellInfo (n : net) (source : CellInfo) : handler unit :=
  save_meta (SetCellMeta n (CMeta source)) ;!
  modify (λ s, set_cc (addOrUpdate (cc s) source) s).

Definition handleCellHeartbeat (n : net) (source : CellInfo) : handler unit :=
  do! s := get in
  match getCell (cc s) (Cell_ID (CMeta source)) with
  | None =>
      doSaveCellInfo n source ;!
      notifyChangedRange (Cell_ID (CMeta source)) EventCellCreated
  | Some current =>
      let currentEpoch := Epoch (CMeta current) in
      let sourceEpoch := Epoch (CMeta source) in
      if bool_decide (CellVer sourceEpoch < CellVer currentEpoch) ||
         bool_decide (ConfVer sourceEpoch < ConfVer currentEpoch)
      then throw errStaleCell
      else
        let rangeChanged := bool_decide (CellVer sourceEpoch > CellVer currentEpoch) in
        let peersChanged := bool_decide (ConfVer sourceEpoch > ConfVer currentEpoch) in
        if rangeChanged || peersChanged then
          doSaveCellInfo n source ;!
          if rangeChanged
          then notifyChangedRange (Cell_ID (CMeta source)) EventCellRangeChaned
          else notifyChangedRange (Cell_ID (CMeta source)) EventCellPeersChaned
        else
          do! leaderChanged := match LeaderPeer current with
            | None => mret true
            | Some cur => match LeaderPeer source with
                          | None => mpanic
                          | Some src => mret (bool_decide (Peer_ID cur ≠ Peer_ID src))
                          end
            end in
          modify (λ s, set_cc (addOrUpdate (cc s) source) s) ;!
          if leaderChanged : bool
          then notifyChangedRange (Cell_ID (CMeta source)) EventCellLeaderChanged
          else mret tt
  end.

(** ** coordinator.go *)

(** [op.Do] changes the operator of the table in place. *)
Definition drive_op (now : Z) (op : Operator) (target : CellInfo) : handler (option CellHeartbeatRsp * bool * Operator) :=
  do! (res, finished, op') := lift (Do now op target) in
  modify (λ s, set_table (mkOpTable (limiter (table s)) (<[GetCellID op := op']> (opts (table s)))) s) ;!
  mret (res, finished, op').
Definition removeOperator_h (op : Operator) : handler unit :=
  do! s := get in
  do! t := lift (removeOperator (table s) op) in
  modify (set_table t).
Definition addOperator_h (op : Operator) : handler bool :=
  do! s := get in
  do! (b, t) := lift (addOperator (table s) op) in
  modify (set_table t) ;! mret b.
Definition Check_h (now : Z) (target : CellInfo) : handler (option Operator) :=
  do! s := get in
  do! (op, a) := lift (Check cfg now [] (sc s) (allocator s) target) in
  modify (set_allocator a) ;! mret op.

(** The second half of [dispatch]: ask the replica checker. *)
Definition dispatch_check (now : Z) (target : CellInfo) : handler (option CellHeartbeatRsp) :=
  do! s := get in
  if decide (operatorCount (limiter (table s)) cellKind >= LimitScheduleReplica cfg) then mret None
  else
    do! op := Check_h now target in
    match op with
    | None => mret None
    | Some op =>
        do! added := addOperator_h op in
        if added : bool then do! (res, _, _) := drive_op now op target in mret res else mret None
    end.
Definition dispatch (now : Z) (target : CellInfo) : handler (option CellHeartbeatRsp) :=
  do! s := get in
  match getOperator (table s) (Cell_ID (CMeta target)) with
  | None => dispatch_check now target
  | Some op =>
      do! (res, finished, op') := drive_op now op target in
      if finished : bool then removeOperator_h op' ;! dispatch_check now target else mret res
  end.
Definition dispatchStore_h (target : StoreInfo) : handler (option StoreHeartbeatRsp) :=
  do! s := get in
  do! (res, m) := lift (dispatchStore (storeOpts s) target) in
  modify (set_storeOpts m) ;! mret res.

(** ** Schedulers: the controllers' back-off and one timer tick of [runScheduler] *)
Definition next_interval (i : Z) (scheduled : bool) : Z :=
  if scheduled then minScheduleInterval else minDuration (i * 2) maxScheduleInterval.

(** [scheduleController.Schedule] for the two schedulers. *)
Definition schedule_leader (now : Z) : handler (option Operator) :=
  do! s := get in
  do! (op, b) := lift (bl_Schedule StandardDeviation cfg now (scheduler (leader_ctl s)) (sc s) (cc s)) in
  modify (set_leader_ctl (mkController b (next_interval (interval (leader_ctl s)) (bool_decide (is_Some op))))) ;!
  mret op.
Definition schedule_cell (now : Z) : handler (option Operator) :=
  do! s := get in
  do! (op, b, a) := lift (bc_Schedule StandardDeviation cfg now (scheduler (cell_ctl s)) (sc s) (cc s) (allocator s)) in
  modify (λ s, set_cell_ctl (mkController b (next_interval (interval (cell_ctl s)) (bool_decide (is_Some op)))) (set_allocator a s)) ;!
  mret op.
Definition AllowSchedule_leader (s : state) : bool :=
  bool_decide (operatorCount (limiter (table s)) leaderKind < bl_GetResourceLimit cfg (scheduler (leader_ctl s))).
Definition AllowSchedule_cell (s : state) : bool :=
  bool_decide (operatorCount (limiter (table s)) cellKind < bc_GetResourceLimit cfg (scheduler (cell_ctl s))).

Fixpoint schedule_retry (n : nat) (schedule : handler (option Operator)) : handler unit :=
  match n with
  | O => mret tt
  | S n' =>
      do! op := schedule in
      match op with
      | None => schedule_retry n' schedule
      | Some op => do! added := addOperator_h op in if added : bool then mret tt else schedule_retry n' schedule
      end
  end.
Definition tick_leader (now : Z) : handler unit :=
  do! s := get in
  if AllowSchedule_leader s then schedule_retry maxScheduleRetries (schedule_leader now) else mret tt.
Definition tick_cell (now : Z) : handler unit :=
  do! s := get in
  if AllowSchedule_cell s then schedule_retry maxScheduleRetries (schedule_cell now) else mret tt.

(** ** cluster.go *)
Definition isClusterBootstrapped (s : state) : bool := running s.

Definition doCellHeartbeat (n : net) (now : Z) (cr : CellInfo) : handler CellHeartbeatRsp :=
  handleCellHeartbeat n cr ;!
  if decide (getPeers cr = []) then throw errRPCReq
  else
    do! s := get in
    match getCell (cc s) (Cell_ID (CMeta cr)) with
    | None => mpanic
    | Some target =>
        do! rsp := dispatch now target in
        mret (default emptyRsp rsp)
    end.

Record CellHeartbeatReq := mkCellHeartbeatReq {
  Req_Cell : Cell; Req_Leader : option Peer; Req_DownPeers : list PeerStats; Req_PendingPeers : list Peer }.
Definition cellHeartbeat (n : net) (now : Z) (req : CellHeartbeatReq) : handler CellHeartbeatRsp :=
  do! s := get in
  if negb (running s) then throw errNotBootstrapped
  else if bool_decide (Req_Leader req = None) && bool_decide (length (Peers (Req_Cell req)) ≠ 1%nat) then throw errRPCReq
  else if decide (Cell_ID (Req_Cell req) = ZeroID) then throw errRPCReq
  else
    let cr := newCellInfo (Req_Cell req) (Req_Leader req) in
    doCellHeartbeat n now (mkCellInfo (CMeta cr) (LeaderPeer cr) (Req_DownPeers req) (Req_PendingPeers req)).

(** A cluster that is not running panics here: the callers have checked it. *)
Definition checkStore (storeID : Z) : handler unit :=
  do! s := get in
  match getStore (sc s) storeID with
  | Some store => if isTombstone store then throw errTombstoneStore else mret tt
  | None => mret tt
  end.

(** The two halves of [doStoreHeartbeat]: the clone read from the cache, and
    its write back. *)
Definition heartbeat_store (now : Z) (stats : StoreStats) (cc : cellCache T) (store : StoreInfo) : outcome pd_error StoreInfo :=
  match Status store with
  | None => Panic
  | Some st =>
      Ok (mkStoreInfo (SMeta store)
            (Some (mkStoreStatus stats (u32 (Z.of_nat (getStoreLeaderCount cc (Stats_StoreID stats)))) now (blocked st))))
  end.
Definition doStoreHeartbeat (now : Z) (stats : StoreStats) : handler (option StoreHeartbeatRsp) :=
  do! s := get in
  let storeID := Stats_StoreID stats in
  match getStore (sc s) storeID with
  | None => throw errPDStoreNotFound
  | Some store =>
      do! store' := lift (heartbeat_store now stats (cc s) store) in
      modify (λ s, set_sc (updateStoreInfo (sc s) store') s) ;!
      do! s' := get in
      match getStore (sc s') storeID with
      | None => mpanic
      | Some target => dispatchStore_h target
      end
  end.
(** The response carries the index definitions, [listed] when the read of them
    succeeds (PDApi joins it with the definitions PD keeps). *)
Definition storeHeartbeat {X} (now : Z) (stats : option StoreStats) (listed : option X) : handler (StoreHeartbeatRsp * X) :=
  match stats with
  | None => throw errRPCReq
  | Some stats =>
      do! s := get in
      if negb (running s) then throw errNotBootstrapped
      else
        checkStore (Stats_StoreID stats) ;!
        do! rsp := doStoreHeartbeat now stats in
        match rsp, listed with
        | None, _ => mpanic
        | Some rsp, Some indices => mret (rsp, indices)
        | Some _, None => throw ErrListIndex
        end
  end.

(** The address check of [doPutStore]. *)
Definition check_address (store : Store) (s : StoreInfo) : outcome pd_error bool :=
  if isTombstone s then Ok true
  else if bool_decide (Store_ID (SMeta s) ≠ Store_ID store) && bool_decide (Address (SMeta s) = Address store)
  then Err ErrDuplicatedAddress
  else Ok true.
Definition put_store_info (old : option StoreInfo) (store : Store) : StoreInfo :=
  match old with
  | None => newStoreInfo store
  | Some old =>
      mkStoreInfo (mkStore (Store_ID (SMeta old)) (Address store) (Lables store) (State (SMeta old)) (ClientAddress (SMeta old)))
        (Status old)
  end.
Definition doPutStore (n : net) (store : Store) : handler unit :=
  if decide (Store_ID store = ZeroID) then throw ErrInvalidStore
  else
    do! s := get in
    lift (foreach_store (sc s) (check_address store)) ;!
    let old := put_store_info (getStore (sc s) (Store_ID store)) store in
    if decide (Exists (λ k, getLabelValue old k = EmptyString) (LabelsLocation cfg)) then throw ErrMissingLabel
    else
      save_meta (SetStoreMeta n (SMeta old)) ;!
      modify (λ s, set_sc (updateStoreInfo (sc s) old) s) ;!
      notifyStoreRange (Store_ID (SMeta old)).
Definition putStore (n : net) (store : Store) : handler unit :=
  do! s := get in
  if negb (running s) then throw errNotBootstrapped
  else checkStore (Store_ID store) ;! doPutStore n store.
Definition getStore_rpc (storeID : Z) : handler Store :=
  do! s := get in
  if negb (running s) then throw errNotBootstrapped
  else match getStore (sc s) storeID with None => throw errPDStoreNotFound | Some st => mret (SMeta st) end.
Definition listStore : handler (list Store) :=
  do! s := get in
  if negb (running s) then throw errNotBootstrapped
  else mret (SMeta <$> getStores (sc s)).

(** [doAskSplit]: one id for the new cell and one per peer. *)
Fixpoint alloc_peer_ids (n : nat) : handler (list Z) :=
  match n with
  | O => mret []
  | S n' => do! id := newID_h in do! ids := alloc_peer_ids n' in mret (id :: ids)
  end.
Definition doAskSplit (req : Cell) : handler (Z * list Z) :=
  do! s := get in
  match searchCell (cc s) (Start req) with
  | None => throw ErrCellNotFound
  | Some cr =>
      if bool_decide (CellVer (Epoch req) < CellVer (Epoch (CMeta cr))) ||
         bool_decide (ConfVer (Epoch req) < ConfVer (Epoch (CMeta cr)))
      then throw ErrInvalidEpoch
      else
        do! newCellID := newID_h in
        do! peerIDs := alloc_peer_ids (length (Peers req)) in
        mret (newCellID, peerIDs)
  end.
Definition askSplit (req : Cell) : handler (Z * list Z) :=
  do! s := get in if negb (running s) then throw errNotBootstrapped else doAskSplit req.

Definition checkSplitCell (left right : Cell) : outcome pd_error unit :=
  if bool_decide (End left ≠ Start right) then Err ErrInvalidSplit
  else if bool_decide (End right = []) || bltb (Start left) (End right) then Ok tt
  else Err ErrInvalidSplit.
Definition doReportSplit (left right : Cell) : handler unit := lift (checkSplitCell left right).
Definition reportSplit (left right : Cell) : handler unit :=
  do! s := get in if negb (running s) then throw errNotBootstrapped else doReportSplit left right.

Fixpoint last_ranges (sc : storeCache) (cells : list CellInfo) : outcome pd_error (list Range) :=
  match cells with
  | [] => Ok []
  | cr :: cells' =>
      match LeaderPeer cr with
      | None => last_ranges sc cells'
      | Some leader =>
          match getStore sc (Peer_StoreID leader) with
          | None => Panic
          | Some st => let! rs := last_ranges sc cells' in Ok (mkRange (CMeta cr) (Some (SMeta st)) :: rs)
          end
      end
  end.
Definition doGetLastRanges : handler (list Range) :=
  do! s := get in lift (last_ranges (sc s) (range_values (cells (cc s)))).
Definition getLastRanges : handler (list Range) :=
  do! s := get in if negb (running s) then throw errNotBootstrapped else doGetLastRanges.

(** *** Bootstrap and start *)
Definition batchLimit : nat := Z.to_nat 10000.
Fixpoint check_bootstrap_cells (store : Store) (cells : list Cell) : outcome pd_error unit :=
  match cells with
  | [] => Ok tt
  | cell :: cells' =>
      if decide (Cell_ID cell = ZeroID) then Err ErrZeroCellID
      else match Peers cell with
           | [p] => if decide (Peer_ID p = ZeroID) then Err ErrZeroPeerID
                    else if decide (Peer_StoreID p ≠ Store_ID store) then Err ErrCellStoreID
                    else check_bootstrap_cells store cells'
           | _ => Err ErrPeerCount
           end
  end.
Definition checkForBootstrap (store : Store) (cells : list Cell) : outcome pd_error Store :=
  if decide (Store_ID store = ZeroID) then Err ErrZeroStoreID
  else let! _ := check_bootstrap_cells store cells in Ok store.

Definition doBootstrap (n : net) (clusterID : Z) (store : Store) (cells : list Cell) : handler bool :=
  do! ok := save_meta (SetClusterBootstrapped n (mkCluster clusterID (LimitReplicas cfg)) store cells) in
  mret (negb ok).

(** [ok] answers the page requests; running out of fuel does not happen, see
    [load_meta_complete]. *)
Definition load_into {X} (r : option (outcome alloc_error unit * X)) (set : X → state → state) : handler unit := λ s,
  match r with
  | Some (Ok _, x) => (Ok tt, set x s)
  | Some (Err e, x) => (Err (ErrMeta e), set x s)
  | Some (Panic, x) => (Panic, set x s)
  | None => (Panic, s)
  end.
Definition start (n : net) (okS okC : nat → bool) : handler unit :=
  do! s := get in
  if running s then mret tt
  else match LoadClusterMeta n (store_meta s) with
       | Err e => throw (ErrMeta e)
       | Panic => mpanic
       | Ok None => mret tt
       | Ok (Some c) =>
           modify (set_cluster (Some c)) ;!
           load_into (LoadStoreMeta okS batchLimit (store_meta s) createStoreInfo (sc s)) set_sc ;!
           load_into (LoadCellMeta okC batchLimit (store_meta s) createAndAdd (cc s)) set_cc ;!
           modify (set_running true)
       end.
Definition bootstrapCluster (n1 n2 : net) (okS okC : nat → bool) (clusterID : Z) (store : Store) (cells : list Cell) : handler bool :=
  do! s := get in
  if running s then mret true
  else
    do! st := lift (checkForBootstrap store cells) in
    do! already := doBootstrap n1 clusterID st cells in
    start n2 okS okC ;! mret already.

(** ** api_handler.go *)
Definition DeleteStore (n : net) (id : Z) (force : bool) : handler unit :=
  do! s := get in
  if negb (running s) then throw errNotBootstrapped
  else
    do! store := lift (match (if force then setStoreTombstone (sc s) id force else setStoreOffline (sc s) id) with
                       | Ok r => Ok r | Err e => Err (ErrStoreOp e) | Panic => Panic end) in
    match store with
    | None => mret tt
    | Some store =>
        save_meta (SetStoreMeta n (SMeta store)) ;!
        modify (λ s, set_sc (updateStoreInfo (sc s) store) s) ;!
        notifyStoreRange id
    end.
Definition SetStoreLogLevel (targets : list Z) (level : Z) : handler unit :=
  do! s := get in
  if negb (running s) then throw errNotBootstrapped
  else modify (λ s, set_storeOpts (foldl (λ m id, (addStoreOperator m (newSetLogLevelOperator id level)).2) (storeOpts s) targets) s).
Definition TransferLeader (now : Z) (cellID toPeerID : Z) : handler unit :=
  do! s := get in
  if negb (running s) then throw errNotBootstrapped
  else match getCell (cc s) cellID with
       | None => throw ErrCellNotFound
       | Some cellInfo =>
           match getPeer cellInfo toPeerID with
           | None => throw ErrPeerNotFound
           | Some peer =>
               if negb (AllowSchedule_leader s) then throw ErrSchedulerLimit
               else
                 do! op := lift (newTransferLeaderAggregationOp now cellInfo peer) in
                 do! _ := addOperator_h op in
                 mret tt
           end
       end.
End cluster.
