(* ===== verification/ClusterProps.v ===== *)
(** * Properties of the cell cluster

    What the handlers of [Cluster] guarantee: the effect of a cell heartbeat on
    every branch; epochs and store states that never go back, in the cache or in
    the persisted metadata; fresh ids for a split; a start that rebuilds the
    caches; bounded operator counts and scheduler back-off. *)

From S2P Require Import Prelude BTree Meta CellTree IdAlloc IdSource StoreCache CellCache Operators Float64 Scheduling MetaStore Cluster.

Section respects.
Context {A T : Type}.
Abbreviation state := (CellCluster A T).
Abbreviation handler := (M state).

(** ** Relations that handlers respect

    [respects P m]: the state after [m], whatever its outcome, is related to
    the state before.  [P] is a preorder, so it composes. *)
Definition respects (P : relation state) {X} (m : handler X) : Prop := ∀ s, P s (m s).2.

Context (P : relation state) `{!PreOrder P}.
Lemma respects_bind {X Y} (m : handler X) (f : X → handler Y) :
  respects P m → (∀ x, respects P (f x)) → respects P (mbind_ m f).
Proof.
  intros Hm Hf s. specialize (Hm s). unfold mbind_. destruct (m s) as [[x|e|] s']; simpl in *; [|done..].
  etransitivity; [done|apply Hf].
Qed.
Lemma respects_get {X} (f : state → handler X) : (∀ s, P s (f s s).2) → respects P (mbind_ get f).
Proof. intros Hf s. apply Hf. Qed.
Lemma respects_read : respects P get.
Proof. intros s. reflexivity. Qed.
Lemma respects_pure {X} (o : outcome pd_error X) : respects P (lift o).
Proof. intros s. reflexivity. Qed.
Lemma respects_ret {X} (x : X) : respects P (mret x).
Proof. intros s. reflexivity. Qed.
Lemma respects_throw {X} e : respects P (@throw _ X e).
Proof. intros s. reflexivity. Qed.
Lemma respects_panic {X} : respects P (@mpanic _ X).
Proof. intros s. reflexivity. Qed.
Lemma respects_modify f : (∀ s, P s (f s)) → respects P (modify f).
Proof. intros Hf s. apply Hf. Qed.
End respects.

(** Splits a handler into its steps; leaves the state changes. *)
Ltac handler_step :=
  lazymatch goal with
  | |- respects _ get => apply respects_read; typeclasses eauto
  | |- respects _ (lift _) => apply respects_pure; typeclasses eauto
  | |- respects _ (mret _) => apply respects_ret; typeclasses eauto
  | |- respects _ (throw _) => apply respects_throw; typeclasses eauto
  | |- respects _ mpanic => apply respects_panic; typeclasses eauto
  | |- respects _ (modify _) => apply respects_modify; intros ?
  | |- respects _ (mbind_ _ _) => apply respects_bind; [typeclasses eauto..| |intros ?]
  | |- respects _ _ => case_match
  end.
Ltac handler_steps := repeat handler_step; try done.

Section props.
Context {A T : Type} `{!IdSource A} `{OT : !OrderedTree CellItem Less T} `{!MapOrder}.
Context (StandardDeviation : list f64 → f64) (cfg : Cfg).
Abbreviation state := (CellCluster A T).
Abbreviation handler := (M state).
Implicit Types s : state.

(** ** The effect of a cell heartbeat *)
Definition is_stale (current : option CellInfo) (source : CellInfo) : bool :=
  match current with
  | None => false
  | Some cur => bool_decide (CellVer (Epoch (CMeta source)) < CellVer (Epoch (CMeta cur))) ||
                bool_decide (ConfVer (Epoch (CMeta source)) < ConfVer (Epoch (CMeta cur)))
  end.
(** The event a heartbeat that is not stale announces. *)
Definition heartbeat_event (current : option CellInfo) (source : CellInfo) : option Z :=
  match current with
  | None => Some EventCellCreated
  | Some cur =>
      if decide (CellVer (Epoch (CMeta source)) > CellVer (Epoch (CMeta cur))) then Some EventCellRangeChaned
      else if decide (ConfVer (Epoch (CMeta source)) > ConfVer (Epoch (CMeta cur))) then Some EventCellPeersChaned
      else if decide (Peer_ID <$> LeaderPeer cur = Peer_ID <$> LeaderPeer source ∧ LeaderPeer cur ≠ None) then None
      else Some EventCellLeaderChanged
  end.
(** Whether the heartbeat is persisted. *)
Definition heartbeat_saved (current : option CellInfo) (source : CellInfo) : bool :=
  match current with
  | None => true
  | Some cur => bool_decide (CellVer (Epoch (CMeta source)) > CellVer (Epoch (CMeta cur))) ||
                bool_decide (ConfVer (Epoch (CMeta source)) > ConfVer (Epoch (CMeta cur)))
  end.

Definition leader_store s (source : CellInfo) : option Store :=
  LeaderPeer source ≫= λ l, SMeta <$> sc s !! Peer_StoreID l.

Lemma clone_cell_id c : clone_cell c = c.
Proof. by destruct c. Qed.
Lemma getCell_lookup (c : cellCache T) id : getCell c id = cells c !! id.
Proof. unfold getCell. destruct (cells c !! id); simpl; [by rewrite clone_cell_id|done]. Qed.

(** The leader, if one is reported, is on a store PD knows. *)
Definition leader_known s (source : CellInfo) : bool :=
  match LeaderPeer source with None => true | Some l => bool_decide (is_Some (sc s !! Peer_StoreID l)) end.
Lemma notifyChangedRange_cases s id ev c : cells (cc s) !! id = Some c →
  notifyChangedRange id ev s =
  if leader_known s c then (Ok tt, notify (CellEvent ev (mkRange (CMeta c) (leader_store s c))) s) else (Panic, s).
Proof.
  intros Hc. unfold notifyChangedRange, mbind_, get, leader_store, leader_known. rewrite getCell_lookup, Hc.
  destruct (LeaderPeer c) as [l|]; simpl; [|done]. rewrite getStore_lookup. by destruct (sc s !! Peer_StoreID l).
Qed.

Definition save_fails (n : net) : bool := match n with NetOk => false | _ => true end.
(** The metadata after a save that the network may lose. *)
Definition saved_cells (n : net) (c : Cell) (m : gmap Z Cell) : gmap Z Cell := match n with NetLost => m | _ => <[Cell_ID c := c]> m end.
(** What the cached cell of a heartbeat that only repeats an epoch must not have lost. *)
Definition leader_dropped (current : option CellInfo) (source : CellInfo) : bool :=
  negb (heartbeat_saved current source) && bool_decide (current ≫= LeaderPeer ≠ None) && bool_decide (LeaderPeer source = None).

(** C31. The effect of a cell heartbeat on every branch.  A stale epoch (either
    component below the cached one) is refused and changes nothing.  A heartbeat
    that is new or whose epoch advanced is persisted; when the write fails, whether
    or not it reached the store, the error is returned and nothing is cached.  One
    that only repeats the epoch panics when it has no leader although the cached
    cell has one.  Otherwise the cell replaces the cached one, stores and operators
    are untouched, and one event is queued: created, range changed, peers changed
    or leader changed, in this order of preference, or none when nothing changed;
    but when the reported leader is on an unknown store the announcement panics,
    after the cell was saved and cached. *)
Theorem handleCellHeartbeat_effect (n : net) (s : state) (source : CellInfo) :
  cache_inv (cc s) →
  let current := cells (cc s) !! getID source in
  let '(r, s') := handleCellHeartbeat n source s in
  if is_stale current source then r = Err errStaleCell ∧ s' = s
  else
    sc s' = sc s ∧ table s' = table s ∧ ms_stores (store_meta s') = ms_stores (store_meta s) ∧
    ms_cells (store_meta s') = (if heartbeat_saved current source then saved_cells n (CMeta source) (ms_cells (store_meta s)) else ms_cells (store_meta s)) ∧
    if heartbeat_saved current source && save_fails n then r = Err (ErrMeta ErrEtcd) ∧ cc s' = cc s ∧ events s' = events s
    else if leader_dropped current source then r = Panic ∧ cc s' = cc s ∧ events s' = events s
    else
      cc s' = addOrUpdate (cc s) source ∧
      match heartbeat_event current source with
      | None => r = Ok tt ∧ events s' = events s
      | Some ev =>
          if leader_known s source then r = Ok tt ∧ events s' = events s ++ [CellEvent ev (mkRange (CMeta source) (leader_store s source))]
          else r = Panic ∧ events s' = events s
      end.
Proof.
  intros Hinv. simpl. set (s1 := set_cc (addOrUpdate (cc s) source) s).
  set (s0 := set_meta (mkMetaStore (ms_cluster (store_meta s)) (ms_stores (store_meta s))
       (<[Cell_ID (CMeta source) := CMeta source]> (ms_cells (store_meta s)))) s).
  set (s2 := set_cc (addOrUpdate (cc s) source) s0).
  assert (doSaveCellInfo n source s = match n with NetOk => (Ok tt, s2) | NetLost => (Err (ErrMeta ErrEtcd), s) | NetReplyLost => (Err (ErrMeta ErrEtcd), s0) end) as Hsave
    by (destruct n; [done|by destruct s|done]).
  assert (cells (addOrUpdate (cc s) source) !! getID source = Some source) as Hself
    by (rewrite addOrUpdate_cells by done; apply lookup_insert_eq).
  pose proof (λ ev, notifyChangedRange_cases s2 (getID source) ev source Hself) as Hn2. pose proof (λ ev, notifyChangedRange_cases s1 (getID source) ev source Hself) as Hn1.
  change (leader_known s2 source) with (leader_known s source) in Hn2. change (leader_known s1 source) with (leader_known s source) in Hn1.
  assert (∀ ev, let '(r, s') := mbind_ (doSaveCellInfo n source) (λ _, notifyChangedRange (getID source) ev) s in
    sc s' = sc s ∧ table s' = table s ∧ ms_stores (store_meta s') = ms_stores (store_meta s) ∧
    ms_cells (store_meta s') = saved_cells n (CMeta source) (ms_cells (store_meta s)) ∧
    if save_fails n then r = Err (ErrMeta ErrEtcd) ∧ cc s' = cc s ∧ events s' = events s
    else cc s' = addOrUpdate (cc s) source ∧
      if leader_known s source then r = Ok tt ∧ events s' = events s ++ [CellEvent ev (mkRange (CMeta source) (leader_store s source))]
      else r = Panic ∧ events s' = events s) as Hsaved.
  { intros ev. unfold mbind_. rewrite Hsave. destruct n; [|by split_and!..]. rewrite Hn2. cbn [save_fails]. destruct (leader_known s source); by split_and!. }
  unfold handleCellHeartbeat. unfold mbind_ at 1. unfold get. rewrite getCell_lookup.
  change (Cell_ID (CMeta source)) with (getID source) in *. unfold leader_dropped.
  destruct (cells (cc s) !! getID source) as [cur|] eqn:Ecur; cbn [is_stale heartbeat_saved heartbeat_event negb andb]; [|apply Hsaved].
  destruct (_ || _) eqn:Est; [done|]. clear Est.
  destruct (bool_decide_reflect (CellVer (Epoch (CMeta source)) > CellVer (Epoch (CMeta cur)))) as [E1|E1]; cbn [orb negb andb].
  { rewrite decide_True by done. apply Hsaved. }
  rewrite decide_False by done.
  destruct (bool_decide_reflect (ConfVer (Epoch (CMeta source)) > ConfVer (Epoch (CMeta cur)))) as [E2|E2]; cbn [orb negb andb].
  { rewrite decide_True by done. apply Hsaved. }
  rewrite decide_False by done. cbn [mbind option_bind].
  destruct (LeaderPeer cur) as [lc|] eqn:Elc.
  - destruct (LeaderPeer source) as [ls|] eqn:Els; [|by split_and!]. cbn. unfold mbind_, mret, modify. fold s1.
    destruct (decide (Peer_ID lc = Peer_ID ls)) as [Heq|Hne].
    + rewrite bool_decide_false by (intros Hx; by apply Hx). rewrite decide_True by (simpl; split; [congruence|done]). by split_and!.
    + rewrite bool_decide_true by done. rewrite decide_False by (simpl; intros [[= ?] _]; done).
      rewrite Hn1. destruct (leader_known s source); by split_and!.
  - unfold mbind_, mret, modify. fold s1. rewrite Hn1, decide_False by (intros [_ ?]; done). cbn. destruct (leader_known s source); by split_and!.
Qed.

(** ** Starting from the persisted metadata *)
Definition meta_cells_valid (ms : meta_store) : Prop :=
  meta_wf ms ∧ (∀ k x, ms_stores ms !! k = Some x → k < endID) ∧
  (∀ k c, ms_cells ms !! k = Some c → k < endID ∧ valid_cell c).

Lemma fold_createStoreInfo l : ∀ m : storeCache,
  NoDup (Store_ID <$> l) → (∀ x, x ∈ l → m !! Store_ID x = None) →
  ∀ id st, foldl createStoreInfo m l !! id = Some st ↔
    m !! id = Some st ∨ ∃ x, x ∈ l ∧ Store_ID x = id ∧ st = newStoreInfo x.
Proof.
  induction l as [|x l IH]; intros m Hnd Hnone id st; simpl.
  { split; [by left|]. intros [?|(x & []%not_elem_of_nil & _)]; done. }
  rewrite fmap_cons, NoDup_cons in Hnd. destruct Hnd as [Hni Hnd].
  assert (createStoreInfo m x = <[Store_ID x := newStoreInfo x]> m) as ->
    by (unfold createStoreInfo; by rewrite (Hnone x) by set_solver).
  rewrite IH; [|done|].
  2:{ intros y Hy. rewrite lookup_insert_ne; [apply Hnone; set_solver|].
      intros Heq. apply Hni. rewrite Heq. by apply list_elem_of_fmap_2. }
  assert (m !! Store_ID x = None) as Hx by (apply Hnone; set_solver).
  rewrite lookup_insert_Some. setoid_rewrite elem_of_cons. split.
  - intros [[[<- <-]|[Hne Hm]]|(y & Hy & <- & ->)]; eauto 10.
  - intros [Hm|(y & [->|Hy] & <- & ->)]; [|by left; left|by right; eauto].
    left. right. split; [congruence|done].
Qed.

Lemma fold_createAndAdd l : ∀ c : cellCache T, cache_inv c → Forall valid_cell l →
  cache_inv (foldl createAndAdd c l) ∧
  cells (foldl createAndAdd c l) = foldl (λ m x, <[Cell_ID x := newCellInfo x None]> m) (cells c) l.
Proof.
  induction l as [|x l IH]; intros c Hinv Hval; simpl; [done|]. apply Forall_cons in Hval as [Hx Hl].
  destruct (IH (createAndAdd c x)) as [Hi Hc]; [by apply addOrUpdateWithoutLock_inv|done|].
  split; [done|]. rewrite Hc. f_equal. exact (addOrUpdate_cells c (newCellInfo x None) Hinv).
Qed.

Lemma fold_insert_cells l : ∀ m : gmap Z CellInfo, NoDup (Cell_ID <$> l) →
  ∀ id info, foldl (λ m x, <[Cell_ID x := newCellInfo x None]> m) m l !! id = Some info ↔
    (∃ x, x ∈ l ∧ Cell_ID x = id ∧ info = newCellInfo x None) ∨ (m !! id = Some info ∧ id ∉ (Cell_ID <$> l)).
Proof.
  induction l as [|x l IH]; intros m Hnd id info; simpl.
  { split; [intros ?; right; split; [done|]; apply not_elem_of_nil|].
    intros [(x & []%not_elem_of_nil & _)|[? _]]; done. }
  rewrite fmap_cons, NoDup_cons in Hnd. destruct Hnd as [Hni Hnd].
  rewrite IH by done. rewrite lookup_insert_Some. setoid_rewrite elem_of_cons. split.
  - intros [(y & Hy & <- & ->)|[[[<- <-]|[Hne Hm]] Hn]]; [eauto 10..|]. right. split; [done|]. intros [?|?]; auto.
  - intros [(y & [->|Hy] & <- & ->)|[Hm Hn]]; [right; auto|eauto|]. right. split; [right; split; auto|]. auto.
Qed.

Lemma start_state (a : A) (ms : meta_store) : meta_cells_valid ms → ms_cluster ms ≠ None →
  ∃ s', start NetOk (λ _, true) (λ _, true) (newCellCluster a ms) = (Ok tt, s') ∧
  running s' = true ∧ cluster_meta s' = ms_cluster ms ∧ store_meta s' = ms ∧ allocator s' = a ∧ cache_inv (cc s') ∧
  (∀ id st, sc s' !! id = Some st ↔ ∃ x, ms_stores ms !! id = Some x ∧ st = newStoreInfo x) ∧
  (∀ id info, cells (cc s') !! id = Some info ↔ ∃ c, ms_cells ms !! id = Some c ∧ info = newCellInfo c None) ∧
  events s' = [] ∧ table s' = empty_table.
Proof.
  intros (Hwf & Hs & Hc) Hcl. destruct (ms_cluster ms) as [cl|] eqn:Ecl; [|done]. pose proof Hwf as [Hws Hwc].
  assert (0 < batchLimit)%nat as Hb by (unfold batchLimit; lia).
  pose proof (load_loop_loaded Store_ID batchLimit (ms_stores ms) createStoreInfo (newStoreCache) Hws Hb) as HlS.
  pose proof (load_loop_loaded Cell_ID batchLimit (ms_cells ms) createAndAdd (newCellCache (T:=T)) Hwc Hb) as HlC.
  eexists. unfold start, mbind_, get, LoadClusterMeta, LoadStoreMeta, LoadCellMeta, load_into, modify, newCellCluster.
  cbn [running store_meta set_cluster sc cc]. rewrite Ecl, HlS. cbn [running store_meta set_cluster set_sc sc cc].
  rewrite HlC. split; [reflexivity|].
  cbn [running store_meta cluster_meta set_cluster set_sc set_cc set_running sc cc events table allocator].
  assert (∀ x, x ∈ loaded (ms_stores ms) ↔ ms_stores ms !! Store_ID x = Some x) as HinS.
  { intros x. rewrite (loaded_lookup _ Store_ID x Hws). split; [by intros [? _]|]. intros Hx. split; [done|by eapply Hs]. }
  assert (∀ x, x ∈ loaded (ms_cells ms) ↔ ms_cells ms !! Cell_ID x = Some x) as HinC.
  { intros x. rewrite (loaded_lookup _ Cell_ID x Hwc). split; [by intros [? _]|]. intros Hx. split; [done|by eapply Hc]. }
  assert (Forall valid_cell (loaded (ms_cells ms))) as Hval.
  { apply Forall_forall. intros x Hx%HinC. by apply (Hc _ _ Hx). }
  destruct (fold_createAndAdd _ newCellCache newCellCache_inv Hval) as [Hci Hcells].
  split_and!; try done.
  - intros id st. rewrite fold_createStoreInfo; [|by apply loaded_ids_nodup|done].
    unfold newStoreCache. rewrite lookup_empty. split.
    + intros [[=]|(x & Hx%HinS & <- & ->)]. eauto.
    + intros (x & Hx & ->). right. exists x. pose proof (proj1 (Hws _ _ Hx)) as Hid. rewrite HinS, Hid. auto.
  - intros id info. rewrite Hcells, fold_insert_cells by by apply loaded_ids_nodup. simpl. rewrite lookup_empty. split.
    + intros [(x & Hx%HinC & <- & ->)|[[=] _]]. eauto.
    + intros (c & Hx & ->). left. exists c. pose proof (proj1 (Hwc _ _ Hx)) as Hid. rewrite HinC, Hid. auto.
Qed.

(** Starting a PD server on the metadata of a bootstrapped cluster succeeds
    when the page requests are answered, and rebuilds the caches: exactly the
    persisted stores, with a fresh status, and exactly the persisted cells,
    without a leader, in a consistent cell cache; nothing is announced. *)
Theorem start_rebuilds_caches (a : A) (ms : meta_store) :
  meta_cells_valid ms → ms_cluster ms ≠ None →
  ∃ s', start NetOk (λ _, true) (λ _, true) (newCellCluster a ms) = (Ok tt, s') ∧
  running s' = true ∧ store_meta s' = ms ∧ cache_inv (cc s') ∧ events s' = [] ∧
  (∀ id, getStore (sc s') id = newStoreInfo <$> ms_stores ms !! id) ∧
  (∀ id, getCell (cc s') id = (λ c, newCellInfo c None) <$> ms_cells ms !! id).
Proof.
  intros Hm Hc. destruct (start_state a ms Hm Hc) as (s' & Hs & Hr & _ & Hms & _ & Hinv & Hsc & Hcc & He & _).
  exists s'. split_and!; try done; intros id.
  - rewrite getStore_lookup. apply option_eq. intros st. rewrite Hsc, fmap_Some. naive_solver.
  - rewrite getCell_lookup. apply option_eq. intros st. rewrite Hcc, fmap_Some. naive_solver.
Qed.

(** ** Histories of a PD leader *)
Inductive request :=
  | RCellHeartbeat (n : net) (now : Z) (req : CellHeartbeatReq)
  | RStoreHeartbeat (now : Z) (stats : option StoreStats) (listed : option unit)
  | RPutStore (n : net) (store : Store)
  | RDeleteStore (n : net) (id : Z) (force : bool)
  | RAskSplit (c : Cell)
  | RSetStoreLogLevel (targets : list Z) (level : Z)
  | RTransferLeader (now cellID toPeerID : Z)
  | RTickLeader (now : Z)
  | RTickCell (now : Z).
Definition serve (r : request) : handler unit :=
  match r with
  | RCellHeartbeat n now req => mbind_ (cellHeartbeat cfg n now req) (λ _, mret tt)
  | RStoreHeartbeat now stats listed => mbind_ (storeHeartbeat now stats listed) (λ _, mret tt)
  | RPutStore n store => putStore cfg n store
  | RDeleteStore n id force => DeleteStore n id force
  | RAskSplit c => mbind_ (askSplit c) (λ _, mret tt)
  | RSetStoreLogLevel targets level => SetStoreLogLevel targets level
  | RTransferLeader now c p => TransferLeader cfg now c p
  | RTickLeader now => tick_leader StandardDeviation cfg now
  | RTickCell now => tick_cell StandardDeviation cfg now
  end.
(** Stores report cells with a non-empty range; ids are below the maximal one. *)
Definition request_ok (r : request) : Prop :=
  match r with
  | RCellHeartbeat _ _ req => valid_cell (Req_Cell req) ∧ 0 ≤ Cell_ID (Req_Cell req) < endID
  | RPutStore _ store => 0 ≤ Store_ID store < endID
  | _ => True
  end.

(** PD servers that lead one after the other: the requests of a leader, and its
    replacement: a new server, with any allocator state, starts on what is
    persisted. *)
Inductive pd_step : state → state → Prop :=
  | pd_serve s r : request_ok r → pd_step s (serve r s).2
  | pd_restart s a s' : start NetOk (λ _, true) (λ _, true) (newCellCluster a (store_meta s)) = (Ok tt, s') →
      pd_step s s'.

Definition epoch_le (a b : CellEpoch) : Prop := CellVer a ≤ CellVer b ∧ ConfVer a ≤ ConfVer b.
Definition state_rank (st : StoreState) : Z := match st with UP => 0 | Down => 1 | Tombstone => 2 end.

(** *** One server

    [alone]: nobody else saves what this server has cached. *)
Section one_server.
Context (alone : Prop).
Record pd_inv (s : state) : Prop := {
  pi_cluster : ms_cluster (store_meta s) ≠ None;
  pi_meta : meta_cells_valid (store_meta s);
  pi_cells : cache_inv (cc s);
  pi_stores : store_cache_wf (sc s);
  pi_cells_persisted id c : cells (cc s) !! id = Some c →
    ∃ p, ms_cells (store_meta s) !! id = Some p ∧ (alone → epoch_le (Epoch (CMeta c)) (Epoch p));
  pi_stores_persisted id st : sc s !! id = Some st →
    ∃ p, ms_stores (store_meta s) !! id = Some p ∧ (alone → state_rank (State (SMeta st)) ≤ state_rank (State p));
}.
Definition meta_grows (ms ms' : meta_store) : Prop :=
  dom (ms_cells ms) ⊆ dom (ms_cells ms') ∧ dom (ms_stores ms) ⊆ dom (ms_stores ms').
Record pd_advance (s s' : state) : Prop := {
  pa_cells id c : cells (cc s) !! id = Some c →
    ∃ c', cells (cc s') !! id = Some c' ∧ epoch_le (Epoch (CMeta c)) (Epoch (CMeta c'));
  pa_stores id st : sc s !! id = Some st →
    ∃ st', sc s' !! id = Some st' ∧ state_rank (State (SMeta st)) ≤ state_rank (State (SMeta st'));
  pa_meta : meta_grows (store_meta s) (store_meta s');
}.
Definition pd_rel : relation state := λ s s', pd_inv s → pd_inv s' ∧ pd_advance s s'.

Lemma epoch_le_trans a b c : epoch_le a b → epoch_le b c → epoch_le a c.
Proof. unfold epoch_le. lia. Qed.
#[local] Instance pd_rel_preorder : PreOrder pd_rel.
Proof.
  split.
  - intros s Hs. split; [done|]. split; [intros id x Hx; eexists; (split; [done|]); unfold epoch_le; lia|intros id x Hx; eexists; (split; [done|]); lia|done].
  - intros s1 s2 s3 H12 H23 H1. destruct (H12 H1) as [H2 A12]. destruct (H23 H2) as [H3 A23]. split; [done|].
    split; [intros id x Hx..|destruct (pa_meta _ _ A12), (pa_meta _ _ A23); split; by etransitivity].
    + destruct (pa_cells _ _ A12 id x Hx) as (y & Hy & ?). destruct (pa_cells _ _ A23 id y Hy) as (z & Hz & ?).
      exists z. split; [done|]. by eapply epoch_le_trans.
    + destruct (pa_stores _ _ A12 id x Hx) as (y & Hy & ?). destruct (pa_stores _ _ A23 id y Hy) as (z & Hz & ?).
      exists z. split; [done|lia].
Qed.

(** Handlers that leave the caches and the metadata alone. *)
Definition keeps_data : relation state := λ s s', cc s' = cc s ∧ sc s' = sc s ∧ store_meta s' = store_meta s.
#[local] Instance keeps_data_preorder : PreOrder keeps_data.
Proof.
  split; [by intros s|]. intros s1 s2 s3 (E1 & E2 & E3) (F1 & F2 & F3). split_and!; congruence.
Qed.
Lemma keeps_data_rel s s' : keeps_data s s' → pd_rel s s'.
Proof.
  intros (Ec & Es & Em) Hinv. split.
  - destruct Hinv. split; rewrite ?Ec, ?Es, ?Em; done.
  - split; rewrite ?Ec, ?Es, ?Em; [intros id x Hx; eexists; (split; [done|]); unfold epoch_le; lia|intros id x Hx; eexists; (split; [done|]); lia|done].
Qed.
Lemma keeps_rel {X} (m : handler X) : respects keeps_data m → respects pd_rel m.
Proof. intros Hm s. apply keeps_data_rel, Hm. Qed.

Lemma newID_h_keeps : respects keeps_data newID_h.
Proof. intros s. unfold newID_h. by destruct (next_id (allocator s)) as [[] ?]. Qed.
Lemma alloc_peer_ids_keeps n : respects keeps_data (alloc_peer_ids n).
Proof. induction n; simpl; handler_steps. apply newID_h_keeps. Qed.
Lemma drive_op_keeps now op target : respects keeps_data (drive_op now op target).
Proof. unfold drive_op. handler_steps. Qed.
Lemma addOperator_h_keeps op : respects keeps_data (addOperator_h op).
Proof. unfold addOperator_h. handler_steps. Qed.
Lemma removeOperator_h_keeps op : respects keeps_data (removeOperator_h op).
Proof. unfold removeOperator_h. handler_steps. Qed.
#[local] Hint Resolve newID_h_keeps alloc_peer_ids_keeps drive_op_keeps addOperator_h_keeps removeOperator_h_keeps : core.
Lemma dispatch_check_keeps now target : respects keeps_data (dispatch_check cfg now target).
Proof. unfold dispatch_check, Check_h. handler_steps; auto. Qed.
Lemma dispatch_keeps now target : respects keeps_data (dispatch cfg now target).
Proof. unfold dispatch. handler_steps; auto using dispatch_check_keeps. Qed.
Lemma dispatchStore_h_keeps target : respects keeps_data (dispatchStore_h target).
Proof. unfold dispatchStore_h. handler_steps. Qed.
Lemma notifyChangedRange_keeps id ev : respects keeps_data (notifyChangedRange id ev).
Proof. unfold notifyChangedRange. handler_steps. Qed.
Lemma notifyStoreRange_keeps id : respects keeps_data (notifyStoreRange id).
Proof. unfold notifyStoreRange. handler_steps. Qed.
Lemma schedule_retry_keeps n m : respects keeps_data m → respects keeps_data (schedule_retry n m).
Proof. intros Hm. induction n as [|n IH]; simpl; handler_steps; auto. Qed.
Lemma ticks_keep now : respects keeps_data (tick_leader StandardDeviation cfg now) ∧
  respects keeps_data (tick_cell StandardDeviation cfg now).
Proof.
  split; [unfold tick_leader|unfold tick_cell]; handler_steps; apply schedule_retry_keeps;
    [unfold schedule_leader|unfold schedule_cell]; handler_steps.
Qed.
Lemma TransferLeader_keeps now c p : respects keeps_data (TransferLeader cfg now c p).
Proof. unfold TransferLeader. handler_steps; auto. Qed.
Lemma askSplit_keeps c : respects keeps_data (askSplit c).
Proof. unfold askSplit, doAskSplit. handler_steps; auto. Qed.
Lemma SetStoreLogLevel_keeps l v : respects keeps_data (SetStoreLogLevel l v).
Proof. unfold SetStoreLogLevel. handler_steps. Qed.

(** *** Writes of the metadata and of the caches *)
Definition put_cell_meta (c : Cell) (ms : meta_store) : meta_store :=
  mkMetaStore (ms_cluster ms) (ms_stores ms) (<[Cell_ID c := c]> (ms_cells ms)).
Definition put_store_meta (x : Store) (ms : meta_store) : meta_store :=
  mkMetaStore (ms_cluster ms) (<[Store_ID x := x]> (ms_stores ms)) (ms_cells ms).

(** The reported cell is not older than the cached one. *)
Definition not_older (c : Cell) (s : state) : Prop :=
  ∀ cur, cells (cc s) !! Cell_ID c = Some cur → epoch_le (Epoch (CMeta cur)) (Epoch c).

Lemma put_cell_meta_rel c s : valid_cell c → 0 ≤ Cell_ID c < endID → not_older c s →
  pd_rel s (set_meta (put_cell_meta c (store_meta s)) s).
Proof.
  intros Hv Hb Hold [Hcl ([Hws Hwc] & Hs & Hc) Hci Hsw Hcp Hsp]. split; [split; simpl; try done|].
  - split; [split; [done|]|split; [done|]]; intros k x; simpl; intros [[<- <-]|[_ Hx]]%lookup_insert_Some;
      [split; [done|lia]|by apply Hwc|split; [lia|done]|by eapply Hc].
  - intros id cur Hcur. destruct (decide (id = Cell_ID c)) as [->|Hne].
    + exists c. rewrite lookup_insert_eq. auto.
    + rewrite lookup_insert_ne by done. auto.
  - split; simpl; [intros id x Hx; eexists; (split; [done|]); unfold epoch_le; lia|intros id x Hx; eexists; (split; [done|]); lia|].
    split; simpl; [rewrite dom_insert_L; set_solver|done].
Qed.

Lemma addOrUpdate_rel (source : CellInfo) s : valid_cell (CMeta source) → not_older (CMeta source) s →
  (pd_inv s → ∃ p, ms_cells (store_meta s) !! getID source = Some p ∧ (alone → epoch_le (Epoch (CMeta source)) (Epoch p))) →
  pd_rel s (set_cc (addOrUpdate (cc s) source) s).
Proof.
  intros Hv Hold Hp Hinv. specialize (Hp Hinv). destruct Hinv as [Hcl Hm Hci Hsw Hcp Hsp].
  pose proof (addOrUpdate_cells (cc s) source Hci) as Hcells. split; split; simpl; try done.
  - by apply addOrUpdateWithoutLock_inv.
  - rewrite Hcells. intros id c [[<- <-]|[_ ?]]%lookup_insert_Some; auto.
  - rewrite Hcells. intros id c Hc. destruct (decide (getID source = id)) as [<-|Hne].
    + rewrite lookup_insert_eq. eexists; split; [done|]. by apply Hold.
    + rewrite lookup_insert_ne by done. eexists; split; [done|]. unfold epoch_le; lia.
  - intros id x Hx; eexists; (split; [done|]); lia.
Qed.

Lemma doSaveCellInfo_rel n source s : valid_cell (CMeta source) → 0 ≤ getID source < endID →
  not_older (CMeta source) s → pd_rel s (doSaveCellInfo n source s).2.
Proof.
  intros Hv Hb Hold. pose proof (put_cell_meta_rel (CMeta source) s Hv Hb Hold) as Hput.
  destruct n; simpl; [|by apply keeps_data_rel|exact Hput].
  etransitivity; [exact Hput|].
  apply (addOrUpdate_rel source (set_meta (put_cell_meta (CMeta source) (store_meta s)) s)); [done..|]. intros _.
  exists (CMeta source). simpl. rewrite lookup_insert_eq. split; [done|unfold epoch_le; lia].
Qed.

Lemma bind_rel {X Y} (m : handler X) (f : X → handler Y) s :
  pd_rel s (m s).2 → (∀ x, respects pd_rel (f x)) → pd_rel s (mbind_ m f s).2.
Proof.
  intros Hm Hf. unfold mbind_. destruct (m s) as [[x|e|] s']; simpl in *; [|done..].
  etransitivity; [done|apply Hf].
Qed.

Lemma handleCellHeartbeat_rel n source : valid_cell (CMeta source) → 0 ≤ getID source < endID →
  respects pd_rel (handleCellHeartbeat n source).
Proof.
  intros Hv Hb s. unfold handleCellHeartbeat. unfold mbind_ at 1. unfold get. rewrite getCell_lookup.
  destruct (cells (cc s) !! Cell_ID (CMeta source)) as [cur|] eqn:Ecur.
  2:{ apply bind_rel; [|intros _; apply keeps_rel, notifyChangedRange_keeps].
      apply doSaveCellInfo_rel; [done..|]. intros c Hc. congruence. }
  destruct (_ || _) eqn:Est; [done|]. apply orb_false_iff in Est as [E1%bool_decide_eq_false E2%bool_decide_eq_false].
  assert (not_older (CMeta source) s) as Hold.
  { intros c Hc. assert (c = cur) as -> by congruence. unfold epoch_le. lia. }
  destruct (_ || _) eqn:Enew.
  { apply bind_rel; [by apply doSaveCellInfo_rel|]. intros _. case_match; apply keeps_rel, notifyChangedRange_keeps. }
  apply orb_false_iff in Enew as [E3%bool_decide_eq_false E4%bool_decide_eq_false].
  assert (∀ changed : bool, pd_rel s (mbind_ (modify (λ s, set_cc (addOrUpdate (cc s) source) s))
    (λ _, if changed then notifyChangedRange (Cell_ID (CMeta source)) EventCellLeaderChanged else mret tt) s).2) as Hrest.
  { intros changed. apply bind_rel.
    - apply addOrUpdate_rel; [done..|]. intros Hinv. destruct (pi_cells_persisted _ Hinv _ _ Ecur) as (p & Hp & Hle).
      exists p. split; [done|]. intros Ho. specialize (Hle Ho). unfold epoch_le in *. lia.
    - intros _. destruct changed; [apply keeps_rel, notifyChangedRange_keeps|apply respects_ret, _]. }
  unfold mbind_ at 1. destruct (LeaderPeer cur) as [lc|]; [destruct (LeaderPeer source) as [ls|]; [|done]|]; apply Hrest.
Qed.

Lemma put_store_meta_rel x s : 0 ≤ Store_ID x < endID →
  (∀ st, sc s !! Store_ID x = Some st → state_rank (State (SMeta st)) ≤ state_rank (State x)) →
  pd_rel s (set_meta (put_store_meta x (store_meta s)) s).
Proof.
  intros Hb Hrank [Hcl ([Hws Hwc] & Hs & Hc) Hci Hsw Hcp Hsp]. split; [split; simpl; try done|].
  - split; [split; [|done]|split; [|done]]; intros k y; simpl; intros [[<- <-]|[_ Hy]]%lookup_insert_Some;
      [split; [done|lia]|by apply Hws|lia|by eapply Hs].
  - intros id st Hst. destruct (decide (id = Store_ID x)) as [->|Hne].
    + exists x. rewrite lookup_insert_eq. auto.
    + rewrite lookup_insert_ne by done. auto.
  - split; simpl; [intros id y Hy; eexists; (split; [done|]); unfold epoch_le; lia|intros id y Hy; eexists; (split; [done|]); lia|].
    split; simpl; [done|rewrite dom_insert_L; set_solver].
Qed.

Lemma updateStoreInfo_rel (st' : StoreInfo) s :
  (∀ st, sc s !! getStoreID st' = Some st → state_rank (State (SMeta st)) ≤ state_rank (State (SMeta st'))) →
  (pd_inv s → ∃ p, ms_stores (store_meta s) !! getStoreID st' = Some p ∧ (alone → state_rank (State (SMeta st')) ≤ state_rank (State p))) →
  pd_rel s (set_sc (updateStoreInfo (sc s) st') s).
Proof.
  intros Hrank Hp Hinv. specialize (Hp Hinv). destruct Hinv as [Hcl Hm Hci Hsw Hcp Hsp]. split; split; simpl; try done.
  - by apply updateStoreInfo_wf.
  - unfold updateStoreInfo. intros id c [[<- <-]|[_ ?]]%lookup_insert_Some; auto.
  - intros id x Hx; eexists; (split; [done|]); unfold epoch_le; lia.
  - unfold updateStoreInfo. intros id st Hst. destruct (decide (getStoreID st' = id)) as [<-|Hne].
    + rewrite lookup_insert_eq. eexists; split; [done|]. by apply Hrank.
    + rewrite lookup_insert_ne by done. eexists; split; [done|lia].
Qed.

(** Persisting a store, caching it and announcing it. *)
Lemma save_store_rel {X} n (st' : StoreInfo) (k : handler X) s : 0 ≤ getStoreID st' < endID →
  (∀ st, sc s !! getStoreID st' = Some st → state_rank (State (SMeta st)) ≤ state_rank (State (SMeta st'))) →
  respects keeps_data k →
  pd_rel s (mbind_ (save_meta (SetStoreMeta n (SMeta st'))) (λ _,
    mbind_ (modify (λ s, set_sc (updateStoreInfo (sc s) st') s)) (λ _, k)) s).2.
Proof.
  intros Hb Hrank Hk. pose proof (put_store_meta_rel (SMeta st') s Hb Hrank) as Hput.
  destruct n; [|by apply keeps_data_rel|exact Hput].
  set (s1 := set_meta (put_store_meta (SMeta st') (store_meta s)) s) in *.
  change (pd_rel s (k (set_sc (updateStoreInfo (sc s1) st') s1)).2).
  etransitivity; [exact Hput|]. etransitivity; [|apply (keeps_rel k Hk)].
  apply (updateStoreInfo_rel st' s1); [done|].
  intros _. exists (SMeta st'). simpl. unfold getStoreID. rewrite lookup_insert_eq. done.
Qed.

Lemma doPutStore_rel n store : 0 ≤ Store_ID store < endID → respects pd_rel (doPutStore cfg n store).
Proof.
  intros Hb. unfold doPutStore. case_decide; [apply respects_throw, _|]. intros s. unfold mbind_ at 1, get.
  unfold mbind_ at 1, lift. destruct (foreach_store _ _) as [[]| |]; [|done..].
  case_decide; [done|]. intros Hinv. revert Hinv.
  assert (getStoreID (put_store_info (getStore (sc s) (Store_ID store)) store) =
    default (Store_ID store) (Store_ID ∘ SMeta <$> sc s !! Store_ID store)) as Hid.
  { rewrite getStore_lookup. by destruct (sc s !! Store_ID store). }
  intros Hinv. assert (getStoreID (put_store_info (getStore (sc s) (Store_ID store)) store) = Store_ID store) as Hid'.
  { rewrite Hid. destruct (sc s !! Store_ID store) as [old|] eqn:Eo; [|done]. by apply (pi_stores _ Hinv) in Eo. }
  revert Hinv. apply save_store_rel; [lia| |apply notifyStoreRange_keeps].
  rewrite Hid'. intros st Hst. rewrite getStore_lookup, Hst. simpl. lia.
Qed.

Lemma doStoreHeartbeat_rel now stats : respects pd_rel (doStoreHeartbeat now stats).
Proof.
  intros s. unfold doStoreHeartbeat, mbind_ at 1, get at 1. rewrite getStore_lookup.
  destruct (sc s !! Stats_StoreID stats) as [st|] eqn:Est; [|done].
  unfold mbind_ at 1, lift, heartbeat_store. destruct (Status st) as [status|]; [|done].
  intros Hinv. pose proof (pi_stores _ Hinv _ _ Est) as Hid. revert Hinv. apply bind_rel.
  - apply updateStoreInfo_rel; unfold getStoreID in *; simpl; rewrite Hid.
    + intros st' Hst'. assert (st' = st) as -> by congruence. lia.
    + intros Hinv. by apply (pi_stores_persisted _ Hinv).
  - intros _. handler_steps. apply keeps_rel, dispatchStore_h_keeps.
Qed.

Lemma DeleteStore_rel n id force : respects pd_rel (DeleteStore n id force).
Proof.
  intros s. unfold DeleteStore, mbind_ at 1, get. case_match; [done|].
  unfold mbind_ at 1, lift. unfold setStoreTombstone, setStoreOffline.
  change (getStoreWithoutLock (sc s) id) with (getStore (sc s) id). rewrite getStore_lookup.
  destruct (sc s !! id) as [st|] eqn:Est; [|by destruct force].
  assert (∀ stt status, state_rank (State (SMeta st)) ≤ state_rank stt →
    pd_rel s (mbind_ (save_meta (SetStoreMeta n (SMeta (mkStoreInfo (set_state stt (SMeta st)) status)))) (λ _,
      mbind_ (modify (λ s, set_sc (updateStoreInfo (sc s) (mkStoreInfo (set_state stt (SMeta st)) status)) s))
        (λ _, notifyStoreRange id)) s).2) as Hsave.
  { intros stt status Hrank Hinv. pose proof (pi_stores _ Hinv _ _ Est) as Hid.
    destruct (pi_stores_persisted _ Hinv _ _ Est) as (p & Hp & _).
    destruct (pi_meta _ Hinv) as ([Hws _] & Hmax & _). pose proof (proj2 (Hws _ _ Hp)). pose proof (Hmax _ _ Hp).
    revert Hinv. apply save_store_rel; [unfold getStoreID in *; simpl; lia| |apply notifyStoreRange_keeps].
    unfold getStoreID in *; simpl. rewrite Hid. intros st' Hst'. assert (st' = st) as -> by congruence. done. }
  unfold isTombstone, isOffline, isUp. destruct force; simpl.
  - case_bool_decide; simpl; [done|]. rewrite andb_false_r. apply Hsave. destruct (State (SMeta st)); simpl; lia.
  - case_bool_decide; simpl; [done|]. case_bool_decide; simpl; [done|]. apply Hsave.
    destruct (State (SMeta st)); simpl; done || lia.
Qed.

Lemma serve_rel r : request_ok r → respects pd_rel (serve r).
Proof.
  destruct r as [n now req|now stats listed|n store|n id force|c|l v|now c p|now|now]; simpl; intros Hok.
  - unfold cellHeartbeat, doCellHeartbeat. handler_steps; [apply handleCellHeartbeat_rel; apply Hok|].
    apply keeps_rel, dispatch_keeps.
  - unfold storeHeartbeat, checkStore. handler_steps. apply doStoreHeartbeat_rel.
  - unfold putStore, checkStore. handler_steps. by apply doPutStore_rel.
  - apply DeleteStore_rel.
  - handler_steps. apply keeps_rel, askSplit_keeps.
  - apply keeps_rel, SetStoreLogLevel_keeps.
  - apply keeps_rel, TransferLeader_keeps.
  - apply keeps_rel, ticks_keep.
  - apply keeps_rel, ticks_keep.
Qed.

Lemma start_inv a ms s : meta_cells_valid ms → ms_cluster ms ≠ None →
  start NetOk (λ _, true) (λ _, true) (newCellCluster a ms) = (Ok tt, s) → pd_inv s.
Proof.
  intros Hm Hcl Hst. destruct (start_state a ms Hm Hcl) as (s1 & Hs1 & _ & _ & Hms & _ & Hci & Hsc & Hcc & _).
  rewrite Hs1 in Hst. injection Hst as <-. split; rewrite ?Hms; try done.
  - intros id st (x & Hx & ->)%Hsc. destruct Hm as [[Hws _] _]. by apply Hws.
  - intros id c (x & Hx & ->)%Hcc. eexists; split; [done|]. unfold epoch_le; simpl; lia.
  - intros id st (x & Hx & ->)%Hsc. eexists; split; [done|]. simpl; lia.
Qed.

Lemma restart_rel s a s' : alone → start NetOk (λ _, true) (λ _, true) (newCellCluster a (store_meta s)) = (Ok tt, s') →
  pd_rel s s'.
Proof.
  intros Ho Hst Hinv. destruct (start_state a (store_meta s) (pi_meta _ Hinv) (pi_cluster _ Hinv))
    as (s1 & Hs1 & _ & _ & Hms & _ & Hci & Hsc & Hcc & _).
  split; [by eapply start_inv, Hst; apply Hinv|].
  rewrite Hs1 in Hst. injection Hst as <-. destruct Hinv as [Hcl Hm _ _ Hcp Hsp]. split.
  - intros id c (p & Hp & Hle)%Hcp. exists (newCellInfo p None). split; [apply Hcc; eauto|by apply Hle].
  - intros id st (p & Hp & Hle)%Hsp. exists (newStoreInfo p). split; [apply Hsc; eauto|by apply Hle].
  - by rewrite Hms.
Qed.
End one_server.
#[local] Existing Instance keeps_data_preorder.
#[local] Existing Instance pd_rel_preorder.
#[local] Hint Resolve newID_h_keeps alloc_peer_ids_keeps drive_op_keeps addOperator_h_keeps removeOperator_h_keeps : core.


Lemma pd_steps_rel s s' : rtc pd_step s s' → pd_rel True s s'.
Proof.
  induction 1 as [s|s1 s2 s3 Hstep _ IH]; [apply pd_rel_preorder|]. etransitivity; [|exact IH].
  destruct Hstep as [s1 r Hok|s1 a s2 Hst]; [by apply serve_rel|by eapply restart_rel].
Qed.

(** *** Several servers

    A deposed leader may not know yet that it is, and what it saves is not
    guarded by its leadership ([save] of store.go): servers with caches of their
    own that serve requests in any order and share what is persisted. *)
Record pds := mkPDs { servers : list state; shared : meta_store }.
Inductive pds_step : pds → pds → Prop :=
  | pds_serve l ms i s r s' : l !! i = Some s → request_ok r → (serve r (set_meta ms s)).2 = s' →
      pds_step (mkPDs l ms) (mkPDs (<[i := s']> l) (store_meta s'))
  | pds_start l ms a s' : start NetOk (λ _, true) (λ _, true) (newCellCluster a ms) = (Ok tt, s') →
      pds_step (mkPDs l ms) (mkPDs (l ++ [s']) ms).
(** Each server knows only cells and stores that are persisted; which of both is
    newer is open. *)
Definition pds_inv (S : pds) : Prop := ∀ i s, servers S !! i = Some s → pd_inv False (set_meta (shared S) s).

Lemma pd_inv_shared ms ms' s s' : pd_inv False (set_meta ms s) → pd_inv False s' → ms' = store_meta s' → meta_grows ms ms' →
  pd_inv False (set_meta ms' s).
Proof.
  intros [A1 A2 A3 A4 A5 A6] [B1 B2 _ _ _ _] -> [Gc Gs]. split; simpl in *; try done.
  - intros id c (p & Hp & _)%A5. apply elem_of_dom_2, Gc, elem_of_dom in Hp as [p' Hp']. by exists p'.
  - intros id st (p & Hp & _)%A6. apply elem_of_dom_2, Gs, elem_of_dom in Hp as [p' Hp']. by exists p'.
Qed.
Lemma pds_step_inv S S' : servers S ≠ [] → pds_inv S → pds_step S S' → servers S' ≠ [] ∧ pds_inv S'.
Proof.
  intros Hne Hinv Hs. revert Hne Hinv. destruct Hs as [l ms i s r s' Hi Hok <-|l ms a s' Hst]; unfold pds_inv; cbn [servers shared]; intros Hne Hinv.
  - split; [intros E; apply Hne; apply (f_equal length) in E; rewrite length_insert in E; by destruct l|].
    destruct (serve_rel False r Hok _ (Hinv _ _ Hi)) as [Hs' [_ _ Hg]]. intros j sj [(<- & <- & _)|[Hne' Hj]]%list_lookup_insert_Some.
    + by destruct (serve r (set_meta ms s)).2.
    + eapply pd_inv_shared; [by eapply Hinv|exact Hs'|done|exact Hg].
  - split; [by destruct l|]. destruct l as [|s0 l]; [done|]. intros j sj [Hj|[_ Hj]]%lookup_app_Some; [by eapply Hinv|].
    apply list_lookup_singleton_Some in Hj as [_ <-]. pose proof (Hinv 0%nat s0 eq_refl) as H0.
    assert (pd_inv False s') as Hs' by (eapply start_inv, Hst; [exact (pi_meta _ _ H0)|exact (pi_cluster _ _ H0)]).
    assert (store_meta s' = ms) as <-; [|by destruct s'].
    destruct (start_state a ms (pi_meta _ _ H0) (pi_cluster _ _ H0)) as (s1 & Hs1 & _ & _ & Hms & _). rewrite Hs1 in Hst. by injection Hst as <-.
Qed.
Lemma pds_steps_inv S S' : servers S ≠ [] → pds_inv S → rtc pds_step S S' → pds_inv S'.
Proof.
  intros Hne Hinv Hr. revert Hne Hinv. induction Hr as [|S1 S2 S3 Hs _ IH]; [done|]. intros Hne Hinv.
  destruct (pds_step_inv _ _ Hne Hinv Hs). by apply IH.
Qed.

(** C15. Over any history of requests, with lost writes and lost replies of the
    metadata store: while PD servers lead one after the other, each replaced by
    one that starts on what is persisted, the epoch PD knows for a cell never
    goes back in either component, no cell is forgotten, and what is persisted is
    at least as new as what is cached.  Of servers that overlap, where deposed
    ones go on serving and saving, only the first half is left: no request makes
    the server that handles it forget a cell or go back to an older epoch of it. *)
Theorem cell_epochs_never_decrease :
  (∀ s s', pd_inv True s → rtc pd_step s s' →
     (∀ id c, getCell (cc s) id = Some c →
        ∃ c', getCell (cc s') id = Some c' ∧ epoch_le (Epoch (CMeta c)) (Epoch (CMeta c'))) ∧
     (∀ id c, getCell (cc s') id = Some c →
        ∃ p, ms_cells (store_meta s') !! id = Some p ∧ epoch_le (Epoch (CMeta c)) (Epoch p)) ∧
     cache_inv (cc s')) ∧
  (∀ S S' i s r, servers S ≠ [] → pds_inv S → rtc pds_step S S' → servers S' !! i = Some s → request_ok r →
     cache_inv (cc s) ∧
     ∀ id c, getCell (cc s) id = Some c →
       is_Some (ms_cells (shared S') !! id) ∧
       ∃ c', getCell (cc (serve r (set_meta (shared S') s)).2) id = Some c' ∧ epoch_le (Epoch (CMeta c)) (Epoch (CMeta c'))).
Proof.
  split.
  - intros s s' Hinv Hr. destruct (pd_steps_rel s s' Hr Hinv) as [Hinv' Hadv]. split_and!.
    + intros id c. setoid_rewrite getCell_lookup. apply (pa_cells _ _ Hadv).
    + intros id c. rewrite getCell_lookup. intros (p & Hp & Hle)%(pi_cells_persisted _ _ Hinv'). exists p. auto.
    + apply (pi_cells _ _ Hinv').
  - intros S S' i s r Hne Hinv Hr Hi Hok. pose proof (pds_steps_inv _ _ Hne Hinv Hr _ _ Hi) as Hs.
    split; [exact (pi_cells _ _ Hs)|]. intros id c. setoid_rewrite getCell_lookup. intros Hc. split.
    + destruct (pi_cells_persisted _ _ Hs id c Hc) as (p & Hp & _). by exists p.
    + exact (pa_cells _ _ (proj2 (serve_rel False r Hok _ Hs)) id c Hc).
Qed.

(** Over any such history a store's state only moves from up to down to
    tombstone, in the cache and across a replacement of the PD server: a
    tombstone stays a tombstone, and no store is forgotten. *)
Theorem store_states_never_go_back s s' :
  pd_inv True s → rtc pd_step s s' →
  ∀ id st, getStore (sc s) id = Some st →
    ∃ st', getStore (sc s') id = Some st' ∧ state_rank (State (SMeta st)) ≤ state_rank (State (SMeta st')) ∧
    (State (SMeta st) = Tombstone → State (SMeta st') = Tombstone).
Proof.
  intros Hinv Hr id st. setoid_rewrite getStore_lookup. intros Hst.
  destruct (pd_steps_rel s s' Hr Hinv) as [_ Hadv]. destruct (pa_stores _ _ Hadv _ _ Hst) as (st' & Hst' & Hle).
  exists st'. split_and!; [done..|]. intros Ht. rewrite Ht in Hle. by destruct (State (SMeta st')).
Qed.

(** ** The lost update of [DeleteStore]

    [DeleteStore] does not take the cluster's mutex, so it can run between the
    read and the write of [doStoreHeartbeat]. *)
Definition heartbeat_write (store' : StoreInfo) : handler unit :=
  modify (λ s, set_sc (updateStoreInfo (sc s) store') s).
Definition interleaved_heartbeat (now : Z) (stats : StoreStats) (other : handler unit) : handler unit :=
  mbind_ get (λ s,
    match getStore (sc s) (Stats_StoreID stats) with
    | None => throw errPDStoreNotFound
    | Some store => mbind_ (lift (heartbeat_store now stats (cc s) store)) (λ store',
        mbind_ other (λ _, heartbeat_write store'))
    end).

(** A store heartbeat that overlaps a forced [DeleteStore] of the same
    store undoes it in the cache: when both have succeeded the cached store is
    still up while the persisted one is a tombstone. *)
Theorem store_heartbeat_race s id st status stats now :
  running s = true → sc s !! id = Some st → getStoreID st = id → Status st = Some status → State (SMeta st) = UP →
  Stats_StoreID stats = id →
  let '(r, s') := interleaved_heartbeat now stats (DeleteStore NetOk id true) s in
  r = Ok tt ∧ (∃ st', getStore (sc s') id = Some st' ∧ State (SMeta st') = UP) ∧
  (∃ p, ms_stores (store_meta s') !! id = Some p ∧ State p = Tombstone).
Proof.
  intros Hrun Hst Hid Hstatus Hup Hstats. destruct st as [[sid addr labels stt client] st0].
  unfold getStoreID in Hid. simpl in Hid, Hstatus, Hup. subst sid stt st0.
  unfold interleaved_heartbeat, mbind_, get, lift, heartbeat_store.
  rewrite Hstats, getStore_lookup, Hst. cbn [Status]. unfold DeleteStore, mbind_, get, lift. rewrite Hrun. cbn [negb].
  unfold setStoreTombstone. change (getStoreWithoutLock (sc s) id) with (getStore (sc s) id).
  rewrite getStore_lookup, Hst. simpl. unfold notifyStoreRange, mbind_, get. rewrite getStore_lookup. simpl.
  unfold updateStoreInfo, getStoreID. simpl. rewrite lookup_insert_eq. simpl. split; [done|].
  setoid_rewrite getStore_lookup. simpl. unfold updateStoreInfo, getStoreID. simpl.
  rewrite !lookup_insert_eq. split; eexists; (split; [reflexivity|reflexivity]).
Qed.

(** ** Splits *)
Lemma alloc_peer_ids_run n : ∀ s,
  alloc_peer_ids n s =
  match next_ids n (allocator s) with
  | (Ok ids, a) => (Ok ids, set_allocator a s)
  | (Err e, a) => (Err (ErrAlloc e), set_allocator a s)
  | (Panic, a) => (Panic, set_allocator a s)
  end.
Proof.
  induction n as [|n IH]; intros s; simpl; [by destruct s|]. unfold mbind_, newID_h, mret.
  destruct (next_id (allocator s)) as [[id|e|] a1]; [|done..]. rewrite IH. simpl.
  by destruct (next_ids n a1) as [[ids|e|] a2].
Qed.

(** A split is granted exactly when the cell that owns the start key is
    known and not newer than the request; it gets one id for the new cell and
    one per peer, all different, non-zero and never handed out before.  A failed
    allocation is an error; nothing but the allocator changes. *)
Theorem askSplit_ids_fresh s (req : Cell) :
  ids_wf (allocator s) →
  let '(r, s') := doAskSplit req s in
  keeps_data s s' ∧ r ≠ Panic ∧
  match searchCell (cc s) (Start req) with
  | None => r = Err ErrCellNotFound
  | Some cr =>
      if is_stale (Some cr) (newCellInfo req None) then r = Err ErrInvalidEpoch ∧ s' = s
      else (∃ e, r = Err (ErrAlloc e)) ∨
           (∃ newCellID peerIDs, r = Ok (newCellID, peerIDs) ∧ length peerIDs = length (Peers req) ∧
              NoDup (newCellID :: peerIDs) ∧ (0 ∉ newCellID :: peerIDs) ∧
              ∀ id, id ∈ newCellID :: peerIDs → ¬ ids_used (allocator s) id ∧ ids_used (allocator s') id)
  end.
Proof.
  intros Hwf. pose proof (alloc_peer_ids_run (S (length (Peers req))) s) as Hrun.
  pose proof (next_ids_spec (S (length (Peers req))) (allocator s) Hwf) as Hspec.
  assert (∀ s' r, doAskSplit req s = (r, s') → keeps_data s s') as Hkeep.
  { intros s' r E. assert (respects keeps_data (doAskSplit req)) as Hk by (unfold doAskSplit; handler_steps; auto).
    specialize (Hk s). by rewrite E in Hk. }
  destruct (doAskSplit req s) as [r s'] eqn:Er. split; [by eapply Hkeep|]. clear Hkeep. revert Er.
  unfold doAskSplit, mbind_ at 1, get. destruct (searchCell (cc s) (Start req)) as [cr|]; [|by intros [= <- <-]].
  unfold is_stale. simpl (CMeta (newCellInfo req None)). destruct (_ || _); [by intros [= <- <-]|].
  cbn [alloc_peer_ids] in Hrun. unfold mbind_, mret in Hrun |- *. intros Er.
  destruct (next_ids (S (length (Peers req))) (allocator s)) as [rs a'].
  destruct Hspec as (_ & _ & Hnp & Hids).
  destruct (newID_h s) as [[id|e|] s1].
  - destruct (alloc_peer_ids (length (Peers req)) s1) as [[ids|e|] s2]; simplify_eq/=;
      destruct rs as [l|e'|]; simplify_eq/=; (split; [done|]); [|by left; eauto].
    right. destruct (Hids _ eq_refl) as (Hlen & Hnd & Hz & Hfresh). simpl in Hlen.
    exists id, ids. split_and!; [done|lia|done..].
  - simplify_eq/=. destruct rs; simplify_eq/=. split; [done|]. left; eauto.
  - simplify_eq/=. by destruct rs.
Qed.

(** ** Addresses of stores *)
Definition unique_address (c : storeCache) : Prop :=
  ∀ i j a b, c !! i = Some a → c !! j = Some b → isTombstone a = false → isTombstone b = false →
    Address (SMeta a) = Address (SMeta b) → i = j.
Definition addr_rel : relation state := λ s s',
  store_cache_wf (sc s) ∧ unique_address (sc s) → store_cache_wf (sc s') ∧ unique_address (sc s').
#[local] Instance addr_rel_preorder : PreOrder addr_rel.
Proof. split; [by intros s Hs|]. unfold addr_rel. intros s1 s2 s3; tauto. Qed.
Lemma keeps_addr {X} (m : handler X) : respects (λ s s', sc s' = sc s) m → respects addr_rel m.
Proof. intros Hm s. unfold addr_rel. by rewrite (Hm s). Qed.
#[local] Instance same_sc_preorder : PreOrder (λ s s' : state, sc s' = sc s).
Proof. split; [done|]. intros s1 s2 s3; congruence. Qed.
Lemma data_addr {X} (m : handler X) : respects keeps_data m → respects addr_rel m.
Proof. intros Hm. apply keeps_addr. intros s. by destruct (Hm s) as (_ & ? & _). Qed.

Lemma foreach_store_ok (c : storeCache) fn : (∀ st, fn st = Ok true ∨ ∃ e, fn st = Err e) →
  @foreach_store _ pd_error c fn = Ok tt → ∀ id st, c !! id = Some st → fn st = Ok true.
Proof.
  intros Hfn Hf id st Hst. assert (st ∈ range_values c) as Hin by (apply elem_of_range_values; eauto).
  unfold foreach_store in Hf. revert Hf Hin. generalize (range_values c). induction l as [|x l IH]; [set_solver|].
  intros Hf [->|Hin]%elem_of_cons; destruct (Hfn x) as [Hx|[e Hx]]; rewrite Hx in Hf; simpl in Hf; try done; auto.
Qed.

(** Replacing a store by one with its address that is not revived. *)
Lemma same_address_rel st st' s : sc s !! getStoreID st' = Some st → Address (SMeta st') = Address (SMeta st) →
  (isTombstone st = true → isTombstone st' = true) → addr_rel s (set_sc (updateStoreInfo (sc s) st') s).
Proof.
  intros Hst Ha Ht [Hwf Hu]. split; [by apply updateStoreInfo_wf|]. simpl. unfold updateStoreInfo.
  intros i j a b [[<- <-]|[_ Hi]]%lookup_insert_Some [[<- <-]|[_ Hj]]%lookup_insert_Some Hta Htb Heq; [done| | |by eapply Hu];
    (destruct (isTombstone st) eqn:E; [rewrite Ht in *; done|]).
  - rewrite Ha in Heq. by eapply (Hu _ _ _ _ Hst Hj).
  - rewrite Ha in Heq. by eapply (Hu _ _ _ _ Hi Hst).
Qed.

Lemma doPutStore_addr n store : respects addr_rel (doPutStore cfg n store).
Proof.
  unfold doPutStore. case_decide; [apply respects_throw, _|]. intros s. unfold mbind_ at 1, get at 1.
  unfold mbind_ at 1, lift. destruct (foreach_store _ _) as [[]| |] eqn:Ef; [|done..].
  case_decide; [done|]. set (st' := put_store_info _ _).
  assert (∀ id st, sc s !! id = Some st → isTombstone st = false → Store_ID (SMeta st) ≠ Store_ID store →
    Address (SMeta st) ≠ Address store) as Hchk.
  { intros id st Hst Ht Hne Heq.
    assert (check_address store st = Ok true) as Hc.
    { eapply foreach_store_ok; [|exact Ef|exact Hst]. intros x. unfold check_address.
      destruct (isTombstone x); [by left|]. destruct (_ && _); eauto. }
    unfold check_address in Hc. rewrite Ht, !bool_decide_true in Hc by done. done. }
  assert (addr_rel s (set_sc (updateStoreInfo (sc s) st') s)) as Hupd.
  { intros [Hwf Hu]. assert (getStoreID st' = Store_ID store ∧ Address (SMeta st') = Address store) as [Hid Ha].
    { subst st'. rewrite getStore_lookup. destruct (sc s !! Store_ID store) as [old|] eqn:Eo; [|done].
      simpl. split; [|done]. by apply Hwf in Eo. }
    split; [by apply updateStoreInfo_wf|]. simpl. unfold updateStoreInfo. rewrite Hid.
    intros i j a b [[<- <-]|[Hi1 Hi]]%lookup_insert_Some [[<- <-]|[Hj1 Hj]]%lookup_insert_Some Hta Htb Heq; [done| | |by eapply Hu].
    - exfalso. apply (Hchk j b Hj Htb); [|congruence]. pose proof (Hwf _ _ Hj) as <-. unfold getStoreID in *. congruence.
    - exfalso. apply (Hchk i a Hi Hta); [|congruence]. pose proof (Hwf _ _ Hi) as <-. unfold getStoreID in *. congruence. }
  assert (addr_rel s (notifyStoreRange (Store_ID (SMeta st')) (set_sc (updateStoreInfo (sc s) st') (set_meta (put_store_meta (SMeta st') (store_meta s)) s))).2) as Hn.
  { etransitivity; [|apply (data_addr _ (notifyStoreRange_keeps _))]. exact Hupd. }
  destruct n; [exact Hn|intros Hx; exact Hx..].
Qed.

Lemma doStoreHeartbeat_addr now stats : respects addr_rel (doStoreHeartbeat now stats).
Proof.
  intros s. unfold doStoreHeartbeat, mbind_ at 1, get at 1. rewrite getStore_lookup.
  destruct (sc s !! Stats_StoreID stats) as [st|] eqn:Est; [|done].
  unfold mbind_ at 1, lift, heartbeat_store. destruct (Status st) as [status|]; [|done].
  set (st' := mkStoreInfo _ _). intros [Hwf Hu]. pose proof (Hwf _ _ Est) as Hid.
  assert (addr_rel s (set_sc (updateStoreInfo (sc s) st') s)) as Hupd.
  { apply (same_address_rel st); [|done..]. unfold st', getStoreID in *; simpl. by rewrite Hid. }
  revert Hwf Hu. intros Hwf Hu. refine (transitivity (R:=addr_rel) Hupd _ (conj Hwf Hu)).
  match goal with |- addr_rel _ (mbind_ (modify ?f) ?k s).2 => change (addr_rel (f s) (k tt (f s)).2) end.
  apply (data_addr (mbind_ get _)). handler_steps. apply dispatchStore_h_keeps.
Qed.

Lemma DeleteStore_addr n id force : respects addr_rel (DeleteStore n id force).
Proof.
  intros s. unfold DeleteStore, mbind_ at 1, get. case_match; [done|].
  unfold mbind_ at 1, lift. unfold setStoreTombstone, setStoreOffline.
  change (getStoreWithoutLock (sc s) id) with (getStore (sc s) id). rewrite getStore_lookup.
  destruct (sc s !! id) as [st|] eqn:Est; [|by destruct force].
  assert (∀ stt status, (isTombstone st = true → stt = Tombstone) →
    addr_rel s (mbind_ (save_meta (SetStoreMeta n (SMeta (mkStoreInfo (set_state stt (SMeta st)) status)))) (λ _,
      mbind_ (modify (λ s, set_sc (updateStoreInfo (sc s) (mkStoreInfo (set_state stt (SMeta st)) status)) s))
        (λ _, notifyStoreRange id)) s).2) as Hsave.
  { intros stt status Ht [Hwf Hu]. pose proof (Hwf _ _ Est) as Hid. set (st' := mkStoreInfo _ status).
    assert (addr_rel s (set_sc (updateStoreInfo (sc s) st') s)) as Hupd.
    { apply (same_address_rel st); [unfold st', getStoreID in *; simpl; by rewrite Hid|done|].
      intros E. unfold isTombstone. simpl. by rewrite (Ht E). }
    destruct n; [|done|done].
    assert (addr_rel s (notifyStoreRange id (set_sc (updateStoreInfo (sc s) st') (set_meta (put_store_meta (SMeta st') (store_meta s)) s))).2) as Hn.
    { etransitivity; [|apply (data_addr _ (notifyStoreRange_keeps _))]. exact Hupd. }
    exact (Hn (conj Hwf Hu)). }
  destruct force; simpl.
  - destruct (isTombstone st) eqn:E; simpl; [done|]. rewrite andb_false_r. by apply Hsave.
  - destruct (isOffline st); simpl; [done|]. destruct (isTombstone st) eqn:E; simpl; [done|]. by apply Hsave.
Qed.

Lemma handleCellHeartbeat_addr n source : respects addr_rel (handleCellHeartbeat n source).
Proof.
  apply keeps_addr. unfold handleCellHeartbeat, doSaveCellInfo.
  assert (∀ id ev, respects (λ s s', sc s' = sc s) (notifyChangedRange id ev)) as Hn.
  { intros id ev s. by destruct (notifyChangedRange_keeps id ev s) as (_ & ? & _). }
  handler_steps; auto; intros s; unfold save_meta; destruct (SetCellMeta _ _ _) as [[] ?]; done.
Qed.

Lemma serve_addr r : respects addr_rel (serve r).
Proof.
  destruct r as [n now req|now stats listed|n store|n id force|c|l v|now c p|now|now]; simpl.
  - unfold cellHeartbeat, doCellHeartbeat. handler_steps; [apply handleCellHeartbeat_addr|apply data_addr, dispatch_keeps].
  - unfold storeHeartbeat, checkStore. handler_steps. apply doStoreHeartbeat_addr.
  - unfold putStore, checkStore. handler_steps. by apply doPutStore_addr.
  - apply DeleteStore_addr.
  - handler_steps. apply data_addr, askSplit_keeps.
  - apply data_addr, SetStoreLogLevel_keeps.
  - apply data_addr, TransferLeader_keeps.
  - apply data_addr, ticks_keep.
  - apply data_addr, ticks_keep.
Qed.

(** No sequence of requests makes two stores that are not tombstones share
    an address: every store that is put is checked against all of them. *)
Theorem store_addresses_unique s (rs : list request) :
  store_cache_wf (sc s) → unique_address (sc s) →
  unique_address (sc (foldl (λ s r, (serve r s).2) s rs)).
Proof.
  intros Hwf Hu. cut (store_cache_wf (sc (foldl (λ s r, (serve r s).2) s rs)) ∧
    unique_address (sc (foldl (λ s r, (serve r s).2) s rs))); [by intros [_ ?]|].
  revert s Hwf Hu. induction rs as [|r rs IH]; intros s Hwf Hu; simpl; [done|].
  destruct (serve_addr r s (conj Hwf Hu)). by apply IH.
Qed.

(** ** Bounded schedules *)
Definition leader_ops (t : op_table) : nat := size (ops_of leaderKind t).
Definition interval_ok {S} (c : scheduleController S) : Prop := minScheduleInterval ≤ interval c ≤ maxScheduleInterval.
Record sched_inv (s : state) : Prop := {
  si_table : table_ok (table s);
  si_leaders : Z.of_nat (leader_ops (table s)) ≤ LimitScheduleLeader cfg;
  si_leader_ctl : interval_ok (leader_ctl s);
  si_cell_ctl : interval_ok (cell_ctl s);
}.
Definition sched_rel : relation state := λ s s', sched_inv s → sched_inv s'.
#[local] Instance sched_rel_preorder : PreOrder sched_rel.
Proof. split; [by intros s Hs|]. unfold sched_rel. intros s1 s2 s3; tauto. Qed.

(** Handlers that leave the table and the controllers alone. *)
Definition keeps_sched : relation state := λ s s',
  table s' = table s ∧ leader_ctl s' = leader_ctl s ∧ cell_ctl s' = cell_ctl s.
#[local] Instance keeps_sched_preorder : PreOrder keeps_sched.
Proof. split; [by intros s|]. intros s1 s2 s3 (E1 & E2 & E3) (F1 & F2 & F3). split_and!; congruence. Qed.
Lemma keeps_sched_rel {X} (m : handler X) : respects keeps_sched m → respects sched_rel m.
Proof. intros Hm s [H1 H2 H3 H4]. destruct (Hm s) as (E1 & E2 & E3). split; by rewrite ?E1, ?E2, ?E3. Qed.

Lemma save_meta_sched {X} (f : meta_store → outcome alloc_error X * meta_store) : respects keeps_sched (save_meta f).
Proof. intros s. unfold save_meta. by destruct (f (store_meta s)) as [[] ?]. Qed.
Lemma newID_h_sched : respects keeps_sched newID_h.
Proof. intros s. unfold newID_h. by destruct (next_id (allocator s)) as [[] ?]. Qed.
Lemma notifyChangedRange_sched id ev : respects keeps_sched (notifyChangedRange id ev).
Proof. unfold notifyChangedRange. handler_steps. Qed.
Lemma notifyStoreRange_sched id : respects keeps_sched (notifyStoreRange id).
Proof. unfold notifyStoreRange. handler_steps. Qed.
#[local] Hint Resolve save_meta_sched newID_h_sched notifyChangedRange_sched notifyStoreRange_sched : core.

(** Operators that do not transfer leadership. *)
Lemma leader_ops_insert t op : opts t !! GetCellID op = None →
  leader_ops (mkOpTable (limiter t) (<[GetCellID op := op]> (opts t))) =
  ((if decide (kind_is leaderKind op) then 1 else 0) + leader_ops t)%nat.
Proof. apply ops_of_insert. Qed.

Lemma addOperator_leaders {E} t op b t' : @addOperator E t op = Ok (b, t') →
  (leader_ops t' ≤ (if decide (kind_is leaderKind op) then 1 else 0) + leader_ops t)%nat.
Proof.
  unfold addOperator. destruct (opts t !! GetCellID op) eqn:Eo; [intros [= _ <-]; lia|].
  destruct (limiter_add (limiter t) op); simpl; [|done..]. intros [= _ <-].
  pose proof (leader_ops_insert t op Eo) as Hl. unfold leader_ops, ops_of in *. simpl in *. lia.
Qed.

Lemma addOperator_h_rel op : op_wf op → ¬ kind_is leaderKind op → respects sched_rel (addOperator_h op).
Proof.
  intros Hwf Hk s [H1 H2 H3 H4]. unfold addOperator_h, mbind_, get, lift.
  destruct (addOperator (table s) op) as [[b t]| |] eqn:Ea; [|done..]. split; simpl; try done.
  - exact (addOperator_ok _ _ _ _ H1 Hwf Ea).
  - apply addOperator_leaders in Ea. rewrite decide_False in Ea by done. lia.
Qed.

Lemma update_leaders t id op op' : opts t !! id = Some op → (∀ k, kind_is k op' ↔ kind_is k op) →
  leader_ops (mkOpTable (limiter t) (<[id := op']> (opts t))) = leader_ops t.
Proof.
  intros Hop Hk. unfold leader_ops.
  pose proof (λ o, ops_of_insert leaderKind (mkOpTable (limiter t) (delete id (opts t))) id o (lookup_delete_eq _ _)) as Hs.
  simpl in Hs. setoid_rewrite insert_delete_eq in Hs. pose proof (Hs op) as Hs1. rewrite (Hs op').
  rewrite insert_id in Hs1 by done. unfold ops_of in Hs1 at 1; unfold ops_of at 2; simpl in *. rewrite Hs1.
  specialize (Hk leaderKind). destruct (decide (kind_is leaderKind op)), (decide (kind_is leaderKind op')); tauto.
Qed.

(** Driving the operator of a cell keeps the invariant, and the operator it
    leaves is the one in the table. *)
Lemma drive_op_inv now op target s : sched_inv s → getOperator (table s) (GetCellID op) = Some op →
  let '(r, s') := drive_op now op target s in
  sched_inv s' ∧ ∀ res fin op', r = Ok (res, fin, op') → getOperator (table s') (GetCellID op') = Some op'.
Proof.
  intros Hinv Hop. unfold drive_op, mbind_, lift, mret, modify. destruct (Do now op target) as [[[res fin] op']| |] eqn:Ed; [|done..].
  destruct (Do_keeps _ _ _ _ _ _ Ed) as (Hid & Hwf & Hk). destruct Hinv as [H1 H2 H3 H4]. split.
  - split; simpl; try done; [by eapply update_op_ok|]. by rewrite (update_leaders _ _ _ op' Hop Hk).
  - intros ? ? ? [= <- <- <-]. unfold getOperator; simpl. by rewrite Hid, lookup_insert_eq.
Qed.

Lemma removeOperator_h_inv op s : sched_inv s → getOperator (table s) (GetCellID op) = Some op →
  sched_inv (removeOperator_h op s).2.
Proof.
  intros Hinv Hop. pose proof Hinv as [H1 H2 H3 H4]. unfold removeOperator_h, mbind_, get, lift.
  destruct (removeOperator (table s) op) as [t| |] eqn:Er; [|done..]. split; simpl; try done.
  - by eapply removeOperator_ok.
  - unfold removeOperator in Er. destruct (limiter_remove _ _); simpl in Er; [|done..]. injection Er as <-.
    etransitivity; [|exact H2]. apply inj_le. unfold leader_ops, ops_of. simpl. apply map_subseteq_size.
    apply map_filter_subseteq_mono, delete_subseteq.
Qed.

(** The kinds of the operators that the checker and the schedulers build. *)
Definition cell_op (op : Operator) : Prop := op_wf op ∧ ¬ kind_is leaderKind op.
Lemma cell_op_agg now id p ops : cell_op (AggregationOp (mkAggregationOperator id now 0 0 (ChangePeerOp p :: ops))).
Proof. by split. Qed.
Lemma cell_op_sub p : cell_op (SubOp (ChangePeerOp p)).
Proof. by split. Qed.
#[local] Hint Resolve cell_op_agg cell_op_sub : core.

Lemma checkDownPeer_kind {E} now c id l op : @checkDownPeer E cfg now c id l = Ok (Some op) → cell_op op.
Proof.
  induction l as [|st l IH]; simpl; [done|]. destruct (getStore c _) as [s|]; [|intros [= <-]; auto].
  destruct (downTime now s); simpl; [|done..]. repeat case_decide; auto. intros [= <-]; auto.
Qed.
Lemma checkOfflinePeer_kind {E} now rf c (a a' : A) cell l op :
  @checkOfflinePeer A _ _ E cfg now rf c a cell l = Ok (Some op, a') → cell_op op.
Proof.
  induction l as [|p l IH]; simpl; [done|]. destruct (selectBestPeer _ _ _ _ _ _ _ _) as [[[[np|] sco] a1]| |]; simpl;
    destruct (getStore c _) as [s|]; try destruct (isUp s); auto; try done; intros [= <- _]; auto.
Qed.
Lemma Check_kind {E} now rf c (a a' : A) target op : @Check A _ _ E cfg now rf c a target = Ok (Some op, a') → cell_op op.
Proof.
  unfold Check. destruct (checkDownPeer _ _ _ _ _) as [[o|]| |] eqn:E1; simpl; [|..|done]; [|..|done].
  { intros [= <- _]. by eapply checkDownPeer_kind. }
  destruct (checkOfflinePeer _ _ _ _ _ _ _) as [[[o|] a1]| |] eqn:E2; simpl; try done.
  { intros [= <- _]. by eapply checkOfflinePeer_kind. }
  case_decide; [|case_decide].
  - destruct (selectBestPeer _ _ _ _ _ _ _ _) as [[[[np|] sco] a2]| |]; simpl; try done. intros [= <- _]; auto.
  - destruct (selectWorstPeer _ _ _ _ _ _) as [[[o|] sco]| |]; simpl; try done. intros [= <- _]; auto.
  - unfold checkBestReplacement. destruct (selectWorstPeer _ _ _ _ _ _) as [[[o|] sco]| |]; simpl; try done.
    destruct (selectBestReplacement _ _ _ _ _ _ _) as [[[[np|] sco'] a2]| |]; simpl; try done.
    destruct (fle _ _); [done|]. destruct (next_id a2) as [[id|e|] a3]; simpl; try done. intros [= <- _]; auto.
Qed.
Lemma bc_Schedule_kind {E} now b c (k : cellCache T) (a a' : A) op b' :
  @bc_Schedule A T _ _ E StandardDeviation cfg now b c k a = Ok (Some op, b', a') → cell_op op.
Proof.
  unfold bc_Schedule. destruct (scheduleRemovePeer _ _ _ _ _ _) as [[[cell [old|]]|]| |]; simpl; try done;
    case_decide; try done.
  destruct (bc_transferPeer _ _ _ _ _ _ _ _) as [[[[o|] b1] a1]| |] eqn:Et; simpl; try done. intros [= <- _ _].
  unfold bc_transferPeer in Et. destruct (getStore c _) as [src|]; [|done].
  destruct (newDistinctScoreFilter _ _ _); simpl in Et; [|done..].
  destruct (selectBestPeer _ _ _ _ _ _ _ _) as [[[[np|] sco] a2]| |]; simpl in Et; try done.
  destruct (getStore c (Peer_StoreID np)); [|done]. destruct (shouldBalance _ _ _) as [[]| |]; simpl in Et; try done.
  destruct (adjustBalanceLimit _ _ _); simpl in Et; try done. injection Et as <- _ _. auto.
Qed.
Lemma bl_Schedule_kind {E} now b c (k : cellCache T) op b' :
  @bl_Schedule T _ E StandardDeviation cfg now b c k = Ok (Some op, b') → op_wf op.
Proof.
  unfold bl_Schedule. destruct (scheduleTransferLeader _ _ _ _ _ _) as [[[cell p]|]| |]; simpl; try done.
  destruct (LeaderPeer cell); [|done]. destruct p; [|done]. destruct (getStore _ _); [|done]. destruct (getStore _ _); [|done].
  destruct (shouldBalance _ _ _) as [[]| |]; simpl; try done. destruct (adjustBalanceLimit _ _ _); simpl; try done.
  by intros [= <- _].
Qed.

Lemma addOperator_h_table op s b s' : addOperator_h op s = (Ok b, s') → cell_op op → sched_inv s →
  sched_inv s' ∧ (b = true → getOperator (table s') (GetCellID op) = Some op).
Proof.
  intros Ha [Hwf Hk] Hinv. pose proof (addOperator_h_rel op Hwf Hk s Hinv) as Hinv'. rewrite Ha in Hinv'. split; [done|].
  intros ->. unfold addOperator_h, mbind_, get, lift, modify, mret in Ha.
  destruct (addOperator (table s) op) as [[b t]| |] eqn:E; simplify_eq/=. unfold addOperator in E.
  destruct (opts (table s) !! GetCellID op); [done|]. destruct (limiter_add _ _); simpl in E; [|done..].
  injection E as <-. unfold getOperator; simpl. apply lookup_insert_eq.
Qed.

Lemma dispatch_check_sched now target : respects sched_rel (dispatch_check cfg now target).
Proof.
  intros s Hinv. unfold dispatch_check, mbind_ at 1, get at 1. case_decide; [done|].
  unfold Check_h, mbind_, get, lift, mret, modify.
  destruct (Check _ _ _ _ _ _) as [[[op|] a]| |] eqn:Ec; [|by destruct Hinv..]. apply Check_kind in Ec.
  set (s1 := set_allocator a s). assert (sched_inv s1) as Hinv1 by (by destruct Hinv).
  destruct (addOperator_h op s1) as [[b| |] s2] eqn:Ea.
  - destruct (addOperator_h_table op s1 b s2 Ea Ec Hinv1) as [Hinv2 Hop]. destruct b; [|done].
    pose proof (drive_op_inv now op target s2 Hinv2 (Hop eq_refl)) as Hd.
    destruct (drive_op now op target s2) as [[[[res fin] op']| |] s3]; by destruct Hd.
  - pose proof (addOperator_h_rel op (proj1 Ec) (proj2 Ec) s1 Hinv1) as Hr. by rewrite Ea in Hr.
  - pose proof (addOperator_h_rel op (proj1 Ec) (proj2 Ec) s1 Hinv1) as Hr. by rewrite Ea in Hr.
Qed.

Lemma dispatch_sched now target : respects sched_rel (dispatch cfg now target).
Proof.
  intros s Hinv. unfold dispatch. unfold mbind_ at 1, get at 1.
  destruct (getOperator (table s) (Cell_ID (CMeta target))) as [op|] eqn:Eo; [|by apply dispatch_check_sched].
  pose proof (proj2 (si_table _ Hinv) _ _ Eo) as [Hid _]. rewrite <-Hid in Eo.
  pose proof (drive_op_inv now op target s Hinv Eo) as Hd. unfold mbind_ at 1.
  destruct (drive_op now op target s) as [[[[res fin] op']| |] s1]; [|by destruct Hd..]. destruct Hd as [Hinv1 Hop'].
  destruct fin; [|done]. unfold mbind_. pose proof (removeOperator_h_inv op' s1 Hinv1 (Hop' _ _ _ eq_refl)) as Hinv2.
  destruct (removeOperator_h op' s1) as [[u| |] s2]; [|done..]. by apply dispatch_check_sched.
Qed.

Lemma next_interval_ok i b : minScheduleInterval ≤ i ≤ maxScheduleInterval →
  minScheduleInterval ≤ next_interval i b ≤ maxScheduleInterval.
Proof. unfold next_interval, minDuration, minScheduleInterval, maxScheduleInterval. destruct b; [lia|]. case_decide; lia. Qed.

(** One tick adds at most one operator, and a leader operator only below the limit. *)
Lemma schedule_leader_inv now s r s' : schedule_leader StandardDeviation cfg now s = (r, s') → sched_inv s →
  sched_inv s' ∧ table s' = table s ∧ ∀ op, r = Ok (Some op) → op_wf op.
Proof.
  intros E Hinv. pose proof Hinv as [H1 H2 H3 H4]. revert E. unfold schedule_leader, mbind_, get, lift, modify, mret.
  destruct (bl_Schedule _ _ _ _ _ _) as [[op b]| |] eqn:Eb; intros [= <- <-]; [|done..].
  split; [split; simpl; try done; by apply next_interval_ok|]. split; [done|].
  intros op' [= ->]. by eapply bl_Schedule_kind.
Qed.
Lemma retry_leader_sched now n : ∀ s, sched_inv s → Z.of_nat (leader_ops (table s)) < LimitScheduleLeader cfg →
  sched_inv (schedule_retry n (schedule_leader StandardDeviation cfg now) s).2.
Proof.
  induction n as [|n IH]; intros s Hinv Hlt; [done|]. cbn [schedule_retry]. unfold mbind_ at 1.
  destruct (schedule_leader StandardDeviation cfg now s) as [r s1] eqn:Es.
  destruct (schedule_leader_inv now s r s1 Es Hinv) as (Hinv1 & Ht & Hop).
  destruct r as [[op|]| |]; [|apply IH; [done|by rewrite Ht]|done..].
  unfold mbind_, addOperator_h, get, lift, modify, mret, mbind_. pose proof Hinv1 as [H1 H2 H3 H4].
  destruct (addOperator (table s1) op) as [[b t]| |] eqn:Ea; [|done..].
  assert (sched_inv (set_table t s1)) as Hinv2.
  { split; simpl; try done; [exact (addOperator_ok _ _ _ _ H1 (Hop op eq_refl) Ea)|].
    apply addOperator_leaders in Ea. rewrite Ht in Ea. case_decide; lia. }
  destruct b; [done|]. apply IH; [done|]. unfold addOperator in Ea.
  destruct (opts (table s1) !! _); [injection Ea as <-; simpl; by rewrite Ht|]. by destruct (limiter_add _ _).
Qed.
Lemma tick_leader_sched now : is_u64 (LimitScheduleLeader cfg) → respects sched_rel (tick_leader StandardDeviation cfg now).
Proof.
  intros Hu s Hinv. unfold tick_leader, mbind_ at 1, get at 1. destruct (AllowSchedule_leader cfg s) eqn:Ea; [|done].
  apply retry_leader_sched; [done|]. unfold AllowSchedule_leader in Ea. apply bool_decide_eq_true in Ea.
  pose proof Hinv as [[Hc _] H2 _ _]. rewrite Hc in Ea. unfold leader_ops in *. unfold is_u64 in Hu.
  rewrite u64_small in Ea by (unfold is_u64; lia). unfold bl_GetResourceLimit, minUint64 in Ea. case_decide; lia.
Qed.
Lemma schedule_cell_inv now s r s' : schedule_cell StandardDeviation cfg now s = (r, s') → sched_inv s →
  sched_inv s' ∧ ∀ op, r = Ok (Some op) → cell_op op.
Proof.
  intros E Hinv. pose proof Hinv as [H1 H2 H3 H4]. revert E. unfold schedule_cell, mbind_, get, lift, modify, mret.
  destruct (bc_Schedule _ _ _ _ _ _ _) as [[[op b] a]| |] eqn:Eb; intros [= <- <-]; [|done..].
  split; [split; simpl; try done; by apply next_interval_ok|]. intros op' [= ->]. by eapply bc_Schedule_kind.
Qed.
Lemma tick_cell_sched now : respects sched_rel (tick_cell StandardDeviation cfg now).
Proof.
  intros s Hinv. unfold tick_cell, mbind_ at 1, get at 1. destruct (AllowSchedule_cell cfg s); [|done]. revert s Hinv.
  induction maxScheduleRetries as [|n IH]; intros s Hinv; [done|]. cbn [schedule_retry]. unfold mbind_ at 1.
  destruct (schedule_cell StandardDeviation cfg now s) as [r s1] eqn:Es.
  destruct (schedule_cell_inv now s r s1 Es Hinv) as (Hinv1 & Hop).
  destruct r as [[op|]| |]; [|by apply IH|done..]. destruct (Hop op eq_refl) as [Hwf Hk]. unfold mbind_.
  pose proof (addOperator_h_rel op Hwf Hk s1 Hinv1) as Hinv2.
  destruct (addOperator_h op s1) as [[added| |] s2]; [|done..]. destruct added; [done|]. by apply IH.
Qed.

Lemma TransferLeader_sched now c p : is_u64 (LimitScheduleLeader cfg) → respects sched_rel (TransferLeader cfg now c p).
Proof.
  intros Hu s Hinv. unfold TransferLeader, mbind_ at 1, get at 1. case_match; [done|].
  destruct (getCell (cc s) c) as [info|]; [|done]. destruct (getPeer info p) as [peer|]; [|done].
  destruct (AllowSchedule_leader cfg s) eqn:Ea; [cbn [negb]|done].
  unfold newTransferLeaderAggregationOp, newAggregationOp, mbind_ at 1, lift. pose proof Hinv as [H1 H2 H3 H4].
  set (op := AggregationOp _). unfold mbind_, addOperator_h, mbind_, get, lift, modify, mret.
  destruct (addOperator (table s) op) as [[b t]| |] eqn:Ead; [|done..].
  unfold AllowSchedule_leader in Ea. apply bool_decide_eq_true in Ea.
  pose proof H1 as [Hc _]. rewrite Hc in Ea. unfold is_u64 in Hu. unfold leader_ops in H2.
  rewrite u64_small in Ea by (unfold is_u64; lia). unfold bl_GetResourceLimit, minUint64 in Ea.
  split; simpl; try done; [by apply (addOperator_ok _ op b t H1 ltac:(by subst op) Ead)|].
  apply addOperator_leaders in Ead. unfold leader_ops in *.
  repeat case_decide; lia.
Qed.

Lemma serve_sched r : is_u64 (LimitScheduleLeader cfg) → respects sched_rel (serve r).
Proof.
  intros Hu. destruct r as [n now req|now stats listed|n store|n id force|c|l v|now c p|now|now]; simpl.
  - unfold cellHeartbeat, doCellHeartbeat. handler_steps; [|apply dispatch_sched].
    apply keeps_sched_rel. unfold handleCellHeartbeat, doSaveCellInfo. handler_steps; auto.
  - apply keeps_sched_rel. unfold storeHeartbeat, checkStore, doStoreHeartbeat, dispatchStore_h. handler_steps.
  - apply keeps_sched_rel. unfold putStore, checkStore, doPutStore. handler_steps; auto.
  - apply keeps_sched_rel. unfold DeleteStore. handler_steps; auto.
  - apply keeps_sched_rel. unfold askSplit, doAskSplit. handler_steps; auto.
    induction (length (Peers c)); simpl; handler_steps; auto.
  - apply keeps_sched_rel. unfold SetStoreLogLevel. handler_steps.
  - by apply TransferLeader_sched.
  - by apply tick_leader_sched.
  - by apply tick_cell_sched.
Qed.

(** Over any sequence of requests and scheduler ticks there are never more
    leader transfers under way than the configured limit, the limiter's counts
    stay those of the operator table, and the interval of each scheduler stays
    between its minimum and its maximum. *)
Theorem schedules_bounded (a : A) (ms : meta_store) (rs : list request) :
  is_u64 (LimitScheduleLeader cfg) →
  let s := foldl (λ s r, (serve r s).2) (newCellCluster a ms) rs in
  Z.of_nat (size (ops_of leaderKind (table s))) ≤ LimitScheduleLeader cfg ∧
  (∀ k, operatorCount (limiter (table s)) k = u64 (Z.of_nat (size (ops_of k (table s))))) ∧
  minScheduleInterval ≤ GetInterval (leader_ctl s) ≤ maxScheduleInterval ∧
  minScheduleInterval ≤ GetInterval (cell_ctl s) ≤ maxScheduleInterval.
Proof.
  intros Hu. cut (sched_inv (foldl (λ s r, (serve r s).2) (newCellCluster a ms) rs)).
  { intros [[Hc _] Hl Hi1 Hi2]. split_and!; [done|done|apply Hi1..|apply Hi2|apply Hi2]. }
  assert (sched_inv (newCellCluster a ms)) as H0.
  { split; simpl; [apply empty_table_ok| |done..]. unfold leader_ops, ops_of. simpl. rewrite map_filter_empty, map_size_empty.
    unfold is_u64 in Hu. lia. }
  revert H0. generalize (newCellCluster (T:=T) a ms). induction rs as [|r rs IH]; intros s Hs; simpl; [done|].
  apply IH, (serve_sched r Hu s Hs).
Qed.
End props.

(** ** Witnesses *)
Definition wms : meta_store :=
  mkMetaStore (Some (mkCluster 1 3)) {[ 1 := mkStore 1 "a"%string [mkLabel "zone" "z1"] UP "b"%string ]}
    {[ 7 := mkCell 7 [] [] (mkCellEpoch 1 1) [mkPeer 70 1] ]}.
Lemma wms_valid : meta_cells_valid wms.
Proof.
  split_and!; [split|..]; unfold wms; cbn [ms_stores ms_cells];
    intros k x [<- <-]%lookup_singleton_Some; try done. split; [done|by left].
Qed.
Definition ws0 : CellCluster alloc_client (list CellItem) :=
  (start NetOk (λ _, true) (λ _, true) (newCellCluster wclient wms)).2.
Lemma ws0_inv (alone : Prop) : pd_inv alone ws0.
Proof.
  destruct (start_state (T:=list CellItem) wclient wms wms_valid) as (s & Hs & _); [done|].
  unfold ws0. rewrite Hs. by eapply start_inv, Hs; [apply wms_valid|].
Qed.
Definition wsource (conf ver : Z) : CellInfo :=
  mkCellInfo (mkCell 7 [] [] (mkCellEpoch conf ver) [mkPeer 70 1]) (Some (mkPeer 70 1)) [] [].
Definition whb_of (ver : Z) : request :=
  RCellHeartbeat NetOk 2000 (mkCellHeartbeatReq (CMeta (wsource 1 ver)) (LeaderPeer (wsource 1 ver)) [] []).
Definition whb : request := whb_of 2.
Definition wsd : list f64 → f64 := λ _, fzero.

Lemma handleCellHeartbeat_effect_witness :
  (handleCellHeartbeat NetOk (wsource 1 2) ws0).1 = Ok tt ∧
  events (handleCellHeartbeat NetOk (wsource 1 2) ws0).2 =
    [CellEvent EventCellRangeChaned (mkRange (CMeta (wsource 1 2)) (Some (mkStore 1 "a"%string [mkLabel "zone" "z1"] UP "b"%string)))].
Proof.
  pose proof (handleCellHeartbeat_effect NetOk ws0 (wsource 1 2) (pi_cells _ _ (ws0_inv True))) as Hh.
  destruct (handleCellHeartbeat NetOk (wsource 1 2) ws0) as [r s'] eqn:E.
  assert (cells (cc ws0) !! getID (wsource 1 2) = Some (newCellInfo (CMeta (wsource 1 1)) None)) as Hc by (vm_compute; reflexivity).
  cbv zeta in Hh. rewrite Hc in Hh.
  assert (leader_known ws0 (wsource 1 2) = true) as Hk by (vm_compute; reflexivity). rewrite Hk in Hh.
  destruct Hh as (_ & _ & _ & _ & _ & Hr & He).
  split; [exact Hr|]. simpl. rewrite He. vm_compute. reflexivity.
Defined.

Lemma start_rebuilds_caches_witness :
  ∃ s' : CellCluster alloc_client (list CellItem),
    start NetOk (λ _, true) (λ _, true) (newCellCluster wclient wms) = (Ok tt, s') ∧
    getCell (cc s') 7 = Some (newCellInfo (CMeta (wsource 1 1)) None).
Proof.
  destruct (start_rebuilds_caches (T:=list CellItem) wclient wms wms_valid) as (s' & Hs & _ & _ & _ & _ & _ & Hc); [done|].
  exists s'. split; [exact Hs|]. rewrite Hc. vm_compute. reflexivity.
Defined.

Lemma wstep : rtc (pd_step wsd wcfg) ws0 (serve wsd wcfg whb ws0).2.
Proof. apply rtc_once, pd_serve. split; [by left|done]. Qed.
Lemma cell_epochs_never_decrease_witness :
  ∃ c', getCell (cc (serve wsd wcfg whb ws0).2) 7 = Some c' ∧ epoch_le (mkCellEpoch 1 1) (Epoch (CMeta c')).
Proof.
  destruct (proj1 (cell_epochs_never_decrease wsd wcfg) ws0 _ (ws0_inv True) wstep) as [H _].
  apply (H 7 (newCellInfo (CMeta (wsource 1 1)) None)). vm_compute. reflexivity.
Defined.

(** Two servers have started on epoch 1 of a cell.  The second, the leader, saves
    epoch 3; the first, deposed, hears a late heartbeat of epoch 2, which is newer
    than what it has cached, and saves that over it: a server that starts then
    knows epoch 2 of a cell of which the leader knows epoch 3. *)
Definition wpds : pds := mkPDs [ws0; ws0] wms.
Definition known_version (id : Z) (s : CellCluster alloc_client (list CellItem)) : option Z := CellVer ∘ Epoch ∘ CMeta <$> getCell (cc s) id.
Theorem deposed_leader_overwrites_epochs : ∃ S1 S2 S3 leader third,
  rtc (pds_step wsd wcfg) wpds S1 ∧ rtc (pds_step wsd wcfg) S1 S2 ∧ pds_step wsd wcfg S2 S3 ∧
  CellVer ∘ Epoch <$> ms_cells (shared S1) !! 7 = Some 3 ∧ CellVer ∘ Epoch <$> ms_cells (shared S2) !! 7 = Some 2 ∧
  servers S3 !! 1%nat = Some leader ∧ known_version 7 leader = Some 3 ∧ servers S3 !! 2%nat = Some third ∧ known_version 7 third = Some 2.
Proof.
  set (a1 := (serve wsd wcfg (whb_of 3) (set_meta wms ws0)).2). set (b1 := (serve wsd wcfg (whb_of 2) (set_meta (store_meta a1) ws0)).2).
  set (c1 := (start NetOk (λ _, true) (λ _, true) (newCellCluster (T := list CellItem) wclient (store_meta b1))).2).
  exists (mkPDs [ws0; a1] (store_meta a1)), (mkPDs [b1; a1] (store_meta b1)), (mkPDs [b1; a1; c1] (store_meta b1)), a1, c1.
  split; [apply rtc_once; apply (pds_serve wsd wcfg [ws0; ws0] wms 1 ws0 (whb_of 3)); [done|split; [by left|done]|done]|].
  split; [apply rtc_once; apply (pds_serve wsd wcfg [ws0; a1] (store_meta a1) 0 ws0 (whb_of 2)); [done|split; [by left|done]|done]|].
  split; [apply (pds_start wsd wcfg [b1; a1] (store_meta b1) wclient); vm_compute; reflexivity|].
  split_and!; vm_compute; reflexivity.
Qed.
Lemma store_states_never_go_back_witness :
  ∃ st', getStore (sc (serve wsd wcfg whb ws0).2) 1 = Some st' ∧ 0 ≤ state_rank (State (SMeta st')).
Proof.
  destruct (store_states_never_go_back wsd wcfg ws0 _ (ws0_inv True) wstep 1
    (newStoreInfo (mkStore 1 "a"%string [mkLabel "zone" "z1"] UP "b"%string))) as (st' & H & Hle & _).
  { vm_compute. reflexivity. }
  exists st'. split; [exact H|exact Hle].
Defined.
Lemma store_heartbeat_race_witness :
  ∃ st' : StoreInfo, State (SMeta st') = UP ∧
    getStore (sc (interleaved_heartbeat 3000 (mkStoreStats 1 10 5 1 0 0 0 0 false 0 0 0) (DeleteStore NetOk 1 true) ws0).2) 1 = Some st'.
Proof.
  pose proof (store_heartbeat_race ws0 1 (newStoreInfo (mkStore 1 "a"%string [mkLabel "zone" "z1"] UP "b"%string)) newStoreStatus
    (mkStoreStats 1 10 5 1 0 0 0 0 false 0 0 0) 3000) as H.
  destruct (interleaved_heartbeat _ _ _ ws0) as [r s']. destruct H as (_ & (st' & H1 & H2) & _); try (vm_compute; reflexivity).
  exists st'. split; [exact H2|exact H1].
Defined.
Lemma askSplit_ids_fresh_witness :
  (doAskSplit (CMeta (wsource 1 1)) ws0).1 ≠ Panic.
Proof.
  assert (ids_wf (allocator ws0)) as Hwf.
  { replace (allocator ws0) with wclient by (vm_compute; reflexivity). exact wclient_wf. }
  pose proof (askSplit_ids_fresh ws0 (CMeta (wsource 1 1)) Hwf) as H.
  destruct (doAskSplit (CMeta (wsource 1 1)) ws0) as [r s']. destruct H as (_ & Hp & _). exact Hp.
Defined.
Lemma store_addresses_unique_witness :
  unique_address (sc (foldl (λ s r, (serve wsd wcfg r s).2) ws0 [whb; RDeleteStore NetOk 1 false])).
Proof.
  apply (store_addresses_unique wsd wcfg ws0 [whb; RDeleteStore NetOk 1 false]); [apply (ws0_inv True)|].
  assert (sc ws0 = {[ 1 := newStoreInfo (mkStore 1 "a"%string [mkLabel "zone" "z1"] UP "b"%string) ]}) as -> by (vm_compute; reflexivity).
  intros i j a b [<- _]%lookup_singleton_Some [<- _]%lookup_singleton_Some. done.
Defined.
Definition wrun_requests : CellCluster alloc_client (list CellItem) :=
  foldl (λ s r, (serve wsd wcfg r s).2) (newCellCluster wclient wms) [whb; RTickLeader 3000].
Lemma schedules_bounded_witness :
  Z.of_nat (size (ops_of leaderKind (table wrun_requests))) ≤ LimitScheduleLeader wcfg.
Proof.
  assert (is_u64 (LimitScheduleLeader wcfg)) as Hu by (vm_compute; split; congruence).
  unfold wrun_requests. destruct (schedules_bounded (T:=list CellItem) wsd wcfg wclient wms [whb; RTickLeader 3000] Hu) as [H _].
  exact H.
Defined.
