(* ===== verification/OffsetQueue.v ===== *)
(** * The offset queue PD keeps for each watcher

    [util.OffsetQueue] (pkg/util/queue_offset.go): items are appended at the
    end and get consecutive offsets from 0; a reader asks for everything after
    the offset it has, which also releases what it acknowledges.  The mutex
    makes each method atomic.  The queue refines the plain history of all items
    ever added: see [rep] and [offset_queue_refines_history]. *)

From S2P Require Import Prelude.

Record OffsetQueue (A : Type) := mkOffsetQueue {
  oq_start : Z;
  oq_end : Z;
  oq_items : list A;
}.
Arguments mkOffsetQueue {A} _ _ _.
Arguments oq_start {A} _.
Arguments oq_end {A} _.
Arguments oq_items {A} _.

Section offset_queue.
Context {A : Type}.
Implicit Types (q : OffsetQueue A) (h : list A) (x : A).

Definition NewOffsetQueue : OffsetQueue A := mkOffsetQueue 0 0 [].

Definition getMaxOffset0 (q : OffsetQueue A) : Z := if bool_decide (oq_end q = 0) then 0 else u64 (oq_end q - 1).
Definition GetMaxOffset (q : OffsetQueue A) : Z := getMaxOffset0 q.

Definition Add (x : A) (q : OffsetQueue A) : Z * OffsetQueue A :=
  let q' := mkOffsetQueue (oq_start q) (u64 (oq_end q + 1)) (oq_items q ++ [x]) in
  (getMaxOffset0 q', q').

(** The loop [for i := q.start; i < q.end; i++]: [i] is the offset of the head
    of [items]; offsets after [offset] are kept. *)
Fixpoint collect_after (offset i : Z) (items : list A) : list A :=
  match items with
  | [] => []
  | x :: items' =>
      (if bool_decide (i ≤ offset) then [] else [x]) ++ collect_after offset (i + 1) items'
  end.

Definition Get (offset : Z) (q : OffsetQueue A) : outcome unit (list A * Z * OffsetQueue A) :=
  let max := getMaxOffset0 q in
  if bool_decide (offset > max) then Panic
  else if bool_decide (offset < oq_start q) || (bool_decide (offset = oq_start q) && bool_decide (oq_start q = 0))
  then Ok (oq_items q, max, q)
  else
    let value := collect_after offset (oq_start q) (oq_items q) in
    let old := oq_start q in
    let start := u64 (offset + 1) in
    let items := if bool_decide (start < oq_end q) then drop (Z.to_nat (start - old)) (oq_items q) else [] in
    Ok (value, max, mkOffsetQueue start (oq_end q) items).

(** [q] holds the history [h] of all items added, less a released prefix. *)
Record rep (q : OffsetQueue A) (h : list A) : Prop := {
  rep_end : oq_end q = Z.of_nat (length h);
  rep_start : 0 ≤ oq_start q ≤ oq_end q;
  rep_items : oq_items q = drop (Z.to_nat (oq_start q)) h;
  rep_width : oq_end q < two64;
}.

Lemma rep_new : rep NewOffsetQueue [].
Proof. by split. Qed.

Lemma rep_max q h : rep q h → getMaxOffset0 q = Z.of_nat (length h - 1).
Proof.
  intros [He Hs _ Hw]. unfold getMaxOffset0. case_bool_decide as E; [lia|].
  rewrite u64_small by (unfold is_u64; lia). lia.
Qed.

Lemma rep_Add q h x : rep q h → Z.of_nat (length h) + 1 < two64 →
  (Add x q).1 = Z.of_nat (length h) ∧ rep (Add x q).2 (h ++ [x]).
Proof.
  intros [He Hs Hi Hw] Hlen.
  assert (rep (Add x q).2 (h ++ [x])) as Hrep.
  { unfold Add; cbn. rewrite u64_small by (unfold is_u64; lia).
    split; cbn; rewrite ?length_app; simpl; try lia. rewrite Hi, drop_app_le by lia. done. }
  split; [|done]. unfold Add at 1; cbn. fold (Add x q).
  change (getMaxOffset0 (Add x q).2 = Z.of_nat (length h)).
  rewrite (rep_max _ _ Hrep), length_app; simpl. lia.
Qed.

Lemma collect_after_drop offset i items : i ≤ offset + 1 →
  collect_after offset i items = drop (Z.to_nat (offset + 1 - i)) items.
Proof.
  revert i; induction items as [|x items IH]; intros i Hi; simpl; [by rewrite drop_nil|].
  case_bool_decide as E; simpl.
  - rewrite IH by lia.
    replace (Z.to_nat (offset + 1 - i)) with (S (Z.to_nat (offset + 1 - (i + 1)))) by lia. done.
  - assert (i = offset + 1) as -> by lia.
    replace (Z.to_nat (offset + 1 - (offset + 1))) with 0%nat by lia. simpl. f_equal.
    clear -E. assert (∀ j l, offset < j → collect_after offset j l = l) as Hall.
    { intros j l; revert j; induction l as [|y l IH]; intros j Hj; simpl; [done|].
      rewrite bool_decide_eq_false_2 by lia. simpl. f_equal. apply IH. lia. }
    apply Hall. lia.
Qed.

(** How many items of the history a reader at [offset] is not sent again. *)
Definition skipped (offset : Z) (q : OffsetQueue A) : Z :=
  if bool_decide (offset < oq_start q) || bool_decide (offset = 0) && bool_decide (oq_start q = 0)
  then oq_start q else offset + 1.

Lemma rep_Get q h offset : rep q h → 0 ≤ offset →
  match Get offset q with
  | Ok (value, max, q') =>
      offset ≤ max ∧ max = Z.of_nat (length h - 1) ∧
      value = drop (Z.to_nat (skipped offset q)) h ∧
      rep q' h ∧ oq_start q' = skipped offset q
  | Err _ => False
  | Panic => Z.of_nat (length h - 1) < offset
  end.
Proof.
  intros Hrep Hoff. pose proof (rep_max _ _ Hrep) as Hmax. destruct Hrep as [He Hs Hi Hw].
  unfold Get, skipped. rewrite Hmax.
  case_bool_decide as Hpanic; [lia|].
  destruct (bool_decide (offset < oq_start q) || bool_decide (offset = oq_start q) && bool_decide (oq_start q = 0)) eqn:E.
  - assert (bool_decide (offset < oq_start q) || bool_decide (offset = 0) && bool_decide (oq_start q = 0) = true) as ->.
    { repeat case_bool_decide; simpl in *; try done; lia. }
    split_and!; [lia|done|done|by split|done].
  - assert (oq_start q ≤ offset ∧ ¬ (offset = 0 ∧ oq_start q = 0)) as [Hle Hnz].
    { repeat case_bool_decide; simpl in *; try done; lia. }
    assert (bool_decide (offset < oq_start q) || bool_decide (offset = 0) && bool_decide (oq_start q = 0) = false) as ->.
    { repeat case_bool_decide; simpl in *; try done; lia. }
    rewrite collect_after_drop, u64_small by (unfold is_u64; lia).
    split_and!; [lia|done| | |done].
    + rewrite Hi, drop_drop. f_equal. lia.
    + clear E. split; cbn; [done|lia| |done]. case_bool_decide as Hend.
      * rewrite Hi, drop_drop. f_equal. lia.
      * rewrite drop_ge; [done|lia].
Qed.

(** The queues a program can reach, with the items added so far. *)
Inductive reaches : OffsetQueue A → list A → Prop :=
  | reaches_new : reaches NewOffsetQueue []
  | reaches_add x q h : reaches q h → reaches (Add x q).2 (h ++ [x])
  | reaches_get offset q h value max q' : reaches q h → 0 ≤ offset →
      Get offset q = Ok (value, max, q') → reaches q' h.

Lemma reaches_rep q h : reaches q h → Z.of_nat (length h) < two64 → rep q h.
Proof.
  induction 1 as [|x q h Hr IH|offset q h value max q' Hr IH Ho Hget]; intros Hlen.
  - apply rep_new.
  - rewrite length_app in Hlen; simpl in Hlen. apply rep_Add; [apply IH|]; lia.
  - pose proof (rep_Get q h offset (IH Hlen) Ho) as H. rewrite Hget in H. tauto.
Qed.

(** The offset queue refines the list of all items ever added.  [Add]
    returns the offset of the new item.  [Get offset] panics exactly when
    [offset] is beyond the last offset handed out; otherwise it returns the last
    offset and the items after [offset] (a reader at offset 0 of which nothing
    was released gets item 0 as well; a reader behind the released prefix gets
    everything that is left), and afterwards the queue holds exactly the items
    it returned. *)
Theorem offset_queue_refines_history q h :
  reaches q h → Z.of_nat (length h) + 1 < two64 →
  (∀ x, (Add x q).1 = Z.of_nat (length h)) ∧
  ∀ offset, 0 ≤ offset →
    match Get offset q with
    | Ok (value, max, q') =>
        offset ≤ max ∧ max = Z.of_nat (length h - 1) ∧ value = oq_items q' ∧
        (oq_start q ≤ offset → 0 < offset → value = drop (Z.to_nat (offset + 1)) h) ∧
        (offset = 0 → oq_start q = 0 → value = h) ∧
        (offset < oq_start q → value = drop (Z.to_nat (oq_start q)) h)
    | Err _ => False
    | Panic => Z.of_nat (length h - 1) < offset
    end.
Proof.
  intros Hr Hlen. apply reaches_rep in Hr as Hrep; [|lia]. split.
  { intros x. by apply rep_Add. }
  intros offset Ho. pose proof (rep_Get q h offset Hrep Ho) as H.
  destruct (Get offset q) as [[[value max] q']| |]; [|done..].
  destruct H as (H1 & H2 & -> & H4 & H5). unfold skipped in *.
  split_and!; [done|done|by rewrite (rep_items _ _ H4), H5|..].
  - intros H6 H7. rewrite (bool_decide_eq_false_2 (offset < _)), (bool_decide_eq_false_2 (offset = 0)) by lia. done.
  - intros -> ->. done.
  - intros H6. rewrite (bool_decide_eq_true_2 (offset < _)) by done. done.
Qed.
End offset_queue.
#[global] Arguments Add {A} x q : simpl never.
#[global] Arguments Get {A} offset q : simpl never.

Lemma offset_queue_refines_history_witness :
  let q := (Add 13 (Add 12 (Add 11 (Add 10 NewOffsetQueue).2).2).2).2 in
  (Add 14 q).1 = 4 ∧
  match Get 1 q with
  | Ok (value, max, q') => value = [12; 13] ∧ max = 3 ∧ oq_items q' = [12; 13]
  | _ => False
  end ∧ Get 4 q = Panic.
Proof.
  intros q. assert (reaches q [10; 11; 12; 13]) as Hr.
  { apply (reaches_add 13 _ [10; 11; 12]), (reaches_add 12 _ [10; 11]), (reaches_add 11 _ [10]), (reaches_add 10 _ []), reaches_new. }
  destruct (offset_queue_refines_history q _ Hr eq_refl) as [HAdd HGet]. split; [exact (HAdd 14)|].
  specialize (HGet 1 ltac:(lia)). vm_compute in HGet. vm_compute. tauto.
Defined.
