(* ===== verification/Queue.v ===== *)
(** * The blocking queue

    [util.Queue] (pkg/util/queue.go).  A reader that finds the queue empty
    leaves a semaphore in [waiters] and blocks; [Put] appends its items and
    hands the semaphores out, in order, until no item is left, waiting for each
    woken reader to take its share before it goes on.  A reader whose timer
    fires gives up; it may do so before [Put] reaches its semaphore (the
    semaphore then counts as [expired]) or after [Put] signalled it.  Each
    definition is one critical section of the queue's lock. *)

From S2P Require Import Prelude.

Inductive queue_error := ErrDisposed | ErrTimeout | ErrEmptyQueue.

(** A blocked reader: an identity and the number of items it asked for. *)
Record sema := mkSema { sema_id : nat; sema_number : Z }.
#[export] Instance sema_eq_dec : EqDecision sema.
Proof. solve_decision. Defined.

Record Queue (A : Type) := mkQueue {
  waiters : list sema;
  items : list A;
  disposed : bool;
}.
Arguments mkQueue {A} _ _ _.
Arguments waiters {A} _.
Arguments items {A} _.
Arguments disposed {A} _.

Section queue.
Context {A : Type}.
Implicit Types (q : Queue A) (xs : list A).

Definition New : Queue A := mkQueue [] [] false.

(** waiters.get, waiters.put, waiters.remove *)
Definition waiters_get (w : list sema) : option (sema * list sema) :=
  match w with [] => None | s :: w' => Some (s, w') end.
Definition waiters_put (s : sema) (w : list sema) : list sema := w ++ [s].
Definition waiters_remove (s : sema) (w : list sema) : list sema := filter (λ s', s' ≠ s) w.

(** items.get: the items taken and the items left. *)
Definition items_get (number : Z) (xs : list A) : list A * list A :=
  (take (Z.to_nat number) xs, drop (Z.to_nat number) xs).

(** The loop of [Put] over the semaphores.  [gone s] holds of a reader whose
    timer wins against the signal.  The result lists what each woken reader
    took. *)
Fixpoint wake (gone : sema → bool) (ws : list sema) (xs : list A) : list (sema * list A) * (list sema * list A) :=
  match ws with
  | [] => ([], ([], xs))
  | s :: ws' =>
      let '(taken, left') := if gone s then ([], xs) else items_get (sema_number s) xs in
      let given := if gone s then [] else [(s, taken)] in
      match left' with
      | [] => (given, (ws', []))
      | _ :: _ => let '(more, rest) := wake gone ws' left' in (given ++ more, rest)
      end
  end.

Definition signal (gone : sema → bool) (xs : list A) (q : Queue A) : list (sema * list A) * Queue A :=
  let '(given, (ws, left')) := wake gone (waiters q) xs in
  (given, mkQueue ws left' (disposed q)).

Definition Put (gone : sema → bool) (new : list A) (q : Queue A) : outcome queue_error (list (sema * list A)) * Queue A :=
  match new with
  | [] => (Ok [], q)
  | _ =>
      if disposed q then (Err ErrDisposed, q)
      else let '(given, q') := signal gone (items q ++ new) q in (Ok given, q')
  end.

(** Replace the first item equal to [x] under [cmp], or append it. *)
Fixpoint update_first (cmp : A → A → bool) (x : A) (xs : list A) : option (list A) :=
  match xs with
  | [] => None
  | y :: xs' => if cmp y x then Some (x :: xs') else cons y <$> update_first cmp x xs'
  end.
Definition put_or_update (cmp : A → A → bool) (x : A) (xs : list A) : list A :=
  match update_first cmp x xs with Some xs' => xs' | None => xs ++ [x] end.

Definition PutOrUpdate (gone : sema → bool) (cmp : A → A → bool) (x : A) (q : Queue A)
    : outcome queue_error (list (sema * list A)) * Queue A :=
  if disposed q then (Err ErrDisposed, q)
  else let '(given, q') := signal gone (put_or_update cmp x (items q)) q in (Ok given, q').

(** The first critical section of [Poll]: it returns items, or leaves the
    caller blocked on the semaphore [s]. *)
Inductive polled := Polled (xs : list A) | Blocked.
Definition Poll (s : sema) (q : Queue A) : outcome queue_error polled * Queue A :=
  if bool_decide (sema_number s < 1) then (Ok (Polled []), q)
  else if disposed q then (Err ErrDisposed, q)
  else match items q with
       | [] => (Ok Blocked, mkQueue (waiters_put s (waiters q)) [] false)
       | _ => let '(taken, left') := items_get (sema_number s) (items q) in
              (Ok (Polled taken), mkQueue (waiters q) left' false)
       end.
(** A reader that timed out removes its semaphore. *)
Definition Poll_timeout (s : sema) (q : Queue A) : outcome queue_error polled * Queue A :=
  (Err ErrTimeout, mkQueue (waiters_remove s (waiters q)) (items q) (disposed q)).

Definition Peek (q : Queue A) : outcome queue_error A :=
  if disposed q then Err ErrDisposed
  else match items q with [] => Err ErrEmptyQueue | x :: _ => Ok x end.
Definition Empty (q : Queue A) : bool := match items q with [] => true | _ => false end.
Definition Len (q : Queue A) : Z := Z.of_nat (length (items q)).
Definition Disposed (q : Queue A) : bool := disposed q.
Definition Dispose (q : Queue A) : list A * Queue A := (items q, mkQueue [] [] true).

(** ** Histories

    A history of the queue: what was put, what readers took, in order. *)
Inductive event := EPut (gone : sema → bool) (new : list A) | EPoll (s : sema) | ETimeout (s : sema).

Definition deliver (e : event) (q : Queue A) : list (sema * list A) * Queue A :=
  match e with
  | EPut gone new => match Put gone new q with (Ok given, q') => (given, q') | (_, q') => ([], q') end
  | EPoll s => match Poll s q with (Ok (Polled xs), q') => ([(s, xs)], q') | (_, q') => ([], q') end
  | ETimeout s => ([], (Poll_timeout s q).2)
  end.
Fixpoint run (es : list event) (q : Queue A) : list (sema * list A) * Queue A :=
  match es with
  | [] => ([], q)
  | e :: es' => let '(d, q') := deliver e q in let '(d', q'') := run es' q' in (d ++ d', q'')
  end.
Definition put_items (e : event) : list A := match e with EPut _ new => new | _ => [] end.
(** The semaphore a reader creates asks for at least one item. *)
Definition positive_waiters q : Prop := Forall (λ s, 1 ≤ sema_number s) (waiters q).
(** No reader sleeps while there are items. *)
Definition no_lost_wakeup q : Prop := waiters q = [] ∨ items q = [].

Lemma items_get_app number xs : (items_get number xs).1 ++ (items_get number xs).2 = xs.
Proof. apply take_drop. Qed.

Lemma wake_conserves gone ws xs given ws' left' : wake gone ws xs = (given, (ws', left')) →
  concat given.*2 ++ left' = xs ∧ (ws' = [] ∨ left' = []) ∧ ws' `suffix_of` ws.
Proof.
  revert xs given ws' left'; induction ws as [|s ws IH]; intros xs given ws' left'; simpl.
  { intros [= <- <- <-]. split_and!; [done|tauto|done]. }
  destruct (if gone s then _ else _) as [taken rest] eqn:Et.
  assert (taken ++ rest = xs ∧ (gone s = true → taken = [])) as [Hx Hg].
  { destruct (gone s); simplify_eq; [done|]. split; [|done].
    rewrite <-(items_get_app (sema_number s) xs), Et. done. }
  assert (concat (if gone s then [] else [(s, taken)]).*2 = taken) as Hc.
  { destruct (gone s); simpl; [by rewrite Hg|]. by rewrite app_nil_r. }
  destruct rest as [|x rest].
  - intros [= <- <- <-]. split_and!; [by rewrite Hc|tauto|by apply suffix_cons_r].
  - destruct (wake gone ws (x :: rest)) as [more [ws1 left1]] eqn:Ew.
    intros [= <- <- <-]. destruct (IH _ _ _ _ Ew) as (H1 & H2 & H3).
    split_and!; [|done|by apply suffix_cons_r].
    by rewrite fmap_app, concat_app, <-app_assoc, H1, Hc.
Qed.

Lemma signal_conserves gone xs q given q' : signal gone xs q = (given, q') →
  concat given.*2 ++ items q' = xs ∧ no_lost_wakeup q' ∧ waiters q' `suffix_of` waiters q ∧ disposed q' = disposed q.
Proof.
  unfold signal. destruct (wake _ _ _) as [g [ws left']] eqn:E. intros [= <- <-].
  apply wake_conserves in E as (H1 & H2 & H3). done.
Qed.

Lemma deliver_conserves e q d q' : no_lost_wakeup q → disposed q = false → deliver e q = (d, q') →
  concat d.*2 ++ items q' = items q ++ put_items e ∧ no_lost_wakeup q' ∧ disposed q' = false.
Proof.
  intros Hnl Hd. destruct e as [gone new|s|s]; simpl.
  - unfold Put. rewrite Hd. destruct new as [|x new]; [by intros [= <- <-]; rewrite app_nil_r|].
    destruct (signal _ _ _) as [given q1] eqn:E. intros [= <- <-].
    apply signal_conserves in E as (H1 & H2 & H3 & H4). by rewrite Hd in H4.
  - unfold Poll. rewrite Hd. case_bool_decide; [by intros [= <- <-]; rewrite app_nil_r|].
    destruct (items q) as [|x xs] eqn:Ei; intros [= <- <-].
    { split_and!; [done|by right|done]. }
    cbn [fmap list_fmap snd concat items put_items]. rewrite !app_nil_r, take_drop.
    split_and!; [done| |done]. left. destruct Hnl; [done|congruence].
  - intros [= <- <-]. simpl. rewrite app_nil_r. split_and!; [done| |done].
    destruct Hnl as [Hw|Hi]; [left|by right]. simpl. by rewrite Hw.
Qed.

Lemma run_conserves es q d q' : no_lost_wakeup q → disposed q = false → run es q = (d, q') →
  concat d.*2 ++ items q' = items q ++ concat (put_items <$> es) ∧ no_lost_wakeup q' ∧ disposed q' = false.
Proof.
  revert q d q'; induction es as [|e es IH]; intros q d q' Hnl Hd; simpl.
  { intros [= <- <-]. by rewrite app_nil_r. }
  destruct (deliver e q) as [d1 q1] eqn:E1, (run es q1) as [d2 q2] eqn:E2. intros [= <- <-].
  destruct (deliver_conserves _ _ _ _ Hnl Hd E1) as (H1 & H2 & H3).
  destruct (IH _ _ _ H2 H3 E2) as (H4 & H5 & H6). split_and!; [|done|done].
  by rewrite fmap_app, concat_app, <-app_assoc, H4, !app_assoc, H1.
Qed.

(** C32. The blocking queue loses, duplicates and reorders nothing, and loses no
    wake-up: over any history of puts, polls and timeouts, what the readers
    took followed by what is still queued is exactly what was put, in order,
    and a reader is only asleep in the queue while the queue is empty. *)
Theorem queue_fifo_no_lost_wakeup es d q :
  run es New = (d, q) →
  concat d.*2 ++ items q = concat (put_items <$> es) ∧ (waiters q ≠ [] → items q = []).
Proof.
  intros Hrun. destruct (run_conserves es New d q) as (H1 & H2 & _); [by left|done|done|].
  split; [done|]. by destruct H2.
Qed.
End queue.

Definition queue_demo : list (@event Z) :=
  let never _ := false in
  [EPoll (mkSema 1 2); EPoll (mkSema 2 1); EPut never [10; 11; 12; 13]; EPoll (mkSema 3 5); EPoll (mkSema 4 1)].

Lemma queue_fifo_no_lost_wakeup_witness :
  let '(d, q) := run queue_demo New in
  concat d.*2 ++ items q = [10; 11; 12; 13] ∧ (waiters q ≠ [] → items q = []) ∧
  d = [(mkSema 1 2, [10; 11]); (mkSema 2 1, [12]); (mkSema 3 5, [13])] ∧ waiters q = [mkSema 4 1].
Proof.
  destruct (run queue_demo New) as [d q] eqn:E.
  destruct (queue_fifo_no_lost_wakeup queue_demo d q E) as [H1 H2].
  split; [exact H1|]. split; [exact H2|]. vm_compute in E. injection E as <- <-. by split.
Defined.
