(* ===== verification/Watcher.v ===== *)
(** * Watching PD: the notifier and the watcher client

    pkg/pdserver/watcher.go (the server side: one [watcherState] per registered
    watcher, with the offset queue of its pending events, and the queue of
    notifications to send) and pkg/pd/watcher.go (the client side).  The server
    only tells a watcher the newest offset; the watcher then pulls the events
    after the offset it has.  Every method holds the notifier's lock, so each
    definition is one atomic step; the timer wheel and the connection pool are
    reduced to whether a timer is armed and whether a connection is kept.  An
    event is its code and a payload of type [B]. *)

From S2P Require Import Prelude Meta OffsetQueue Queue.

Record event (B : Type) := mkEvent { Event : Z; body : option B }.
Arguments mkEvent {B} _ _.
Arguments Event {B} _.
Arguments body {B} _.

Inductive watcher_mode := ready | paused.
#[export] Instance watcher_mode_eq_dec : EqDecision watcher_mode.
Proof. solve_decision. Defined.

Record notification := mkNotify { nt_watcher : string; nt_offset : Z }.
#[export] Instance notification_eq_dec : EqDecision notification.
Proof. solve_decision. Defined.

(** pdpb.Watcher *)
Record WatcherReg := mkReg { Addr : string; EventFlag : Z }.

Record watcherState (B : Type) := mkState {
  w_reg : WatcherReg;
  w_state : watcher_mode;
  hbTimeout : bool;
  w_q : OffsetQueue (event B);
  lastNotifyOffset : Z;
}.
Arguments mkState {B} _ _ _ _ _.
Arguments w_reg {B} _.
Arguments w_state {B} _.
Arguments hbTimeout {B} _.
Arguments w_q {B} _.
Arguments lastNotifyOffset {B} _.

Record watcherNotifier (B : Type) := mkNotifier {
  notifies : list notification;
  notifies_disposed : bool;
  pool : gset string;
  watchers : gmap string (watcherState B);
}.
Arguments mkNotifier {B} _ _ _ _.
Arguments notifies {B} _.
Arguments notifies_disposed {B} _.
Arguments pool {B} _.
Arguments watchers {B} _.

(** ** Server *)
Section server.
Context {B : Type}.
Implicit Types (st : watcherState B) (wn : watcherNotifier B) (e : event B).

Definition cmp (a b : notification) : bool := bool_decide (nt_watcher a = nt_watcher b).

Definition newWatcherState (w : WatcherReg) : watcherState B := mkState w ready false NewOffsetQueue 0.
Definition cancelTimeout (st : watcherState B) : watcherState B :=
  mkState (w_reg st) (w_state st) false (w_q st) (lastNotifyOffset st).
Definition reset (st : watcherState B) : watcherState B :=
  let st := cancelTimeout st in mkState (w_reg st) ready (hbTimeout st) NewOffsetQueue 0.
Definition pause_state (st : watcherState B) : watcherState B :=
  let st := reset st in mkState (w_reg st) paused (hbTimeout st) (w_q st) (lastNotifyOffset st).
Definition isReady (st : watcherState B) : bool := bool_decide (w_state st = ready).
Definition isPause (st : watcherState B) : bool := bool_decide (w_state st = paused).
Definition addNotify (e : event B) (st : watcherState B) : Z * watcherState B :=
  let '(offset, q) := Add e (w_q st) in
  (offset, mkState (w_reg st) (w_state st) (hbTimeout st) q (lastNotifyOffset st)).
Definition state_resetTimeout (st : watcherState B) : watcherState B :=
  let st := cancelTimeout st in mkState (w_reg st) (w_state st) true (w_q st) (lastNotifyOffset st).

Definition newWatcherNotifier : watcherNotifier B := mkNotifier [] false ∅ ∅.

Definition set_watcher (addr : string) (st : watcherState B) (wn : watcherNotifier B) : watcherNotifier B :=
  mkNotifier (notifies wn) (notifies_disposed wn) (pool wn) (<[addr := st]> (watchers wn)).
(** A put on the notification queue; the error of a disposed queue is dropped. *)
Definition enqueue (f : list notification → list notification) (wn : watcherNotifier B) : watcherNotifier B :=
  if notifies_disposed wn then wn
  else mkNotifier (f (notifies wn)) false (pool wn) (watchers wn).
Definition removeConn (addr : string) (wn : watcherNotifier B) : watcherNotifier B :=
  mkNotifier (notifies wn) (notifies_disposed wn) (pool wn ∖ {[addr]}) (watchers wn).

Definition notifyWithoutLock (st : watcherState B) (e : event B) (wn : watcherNotifier B) : watcherNotifier B :=
  if isReady st && MatchEvent (Event e) (EventFlag (w_reg st)) then
    let '(offset, st') := addNotify e st in
    enqueue (put_or_update cmp (mkNotify (Addr (w_reg st)) offset)) (set_watcher (Addr (w_reg st)) st' wn)
  else wn.
Definition notify_one (e : event B) (wn : watcherNotifier B) (addr : string) : watcherNotifier B :=
  match watchers wn !! addr with Some st => notifyWithoutLock st e wn | None => wn end.
(** [notify]; [order] is the order in which Go ranges over [watchers]. *)
Definition notify (order : list string) (e : event B) (wn : watcherNotifier B) : watcherNotifier B :=
  foldl (notify_one e) wn order.

Definition resetTimeout (addr : string) (wn : watcherNotifier B) : watcherNotifier B :=
  match watchers wn !! addr with
  | Some st => set_watcher addr (state_resetTimeout st) wn
  | None => wn
  end.

Definition emptyEvent : event B := mkEvent 0 None.
Definition initEvent : event B := mkEvent EventInit None.

Definition addWatcher (w : WatcherReg) (wn : watcherNotifier B) : watcherNotifier B :=
  let addr := Addr w in
  let wn := match watchers wn !! addr with
            | Some st => set_watcher addr (reset (cancelTimeout st)) wn
            | None => set_watcher addr (newWatcherState w) wn
            end in
  let wn := resetTimeout addr wn in
  let wn := notify_one emptyEvent wn addr in
  notify_one initEvent wn addr.

Definition removeWatcher (addr : string) (wn : watcherNotifier B) : watcherNotifier B :=
  removeConn addr (mkNotifier (notifies wn) (notifies_disposed wn) (pool wn) (delete addr (watchers wn))).

Definition pause (addr : string) (remove : bool) (wn : watcherNotifier B) : watcherNotifier B :=
  let wn := if remove then removeConn addr wn else wn in
  match watchers wn !! addr with
  | Some st => set_watcher addr (pause_state st) wn
  | None => wn
  end.
Definition watcherTimeout (addr : string) (wn : watcherNotifier B) : watcherNotifier B := pause addr true wn.

Definition resume (addr : string) (wn : watcherNotifier B) : bool * watcherNotifier B :=
  match watchers wn !! addr with
  | Some st =>
      let resumeFromPause := isPause st in
      let st' := if isPause st then mkState (w_reg st) ready (hbTimeout st) (w_q st) (lastNotifyOffset st) else st in
      (resumeFromPause, resetTimeout addr (set_watcher addr st' wn))
  | None => (false, wn)
  end.

Definition watcherHeartbeat (addr : string) (offset : Z) (wn : watcherNotifier B) : bool * watcherNotifier B :=
  let '(value, wn) := resume addr wn in
  match watchers wn !! addr with
  | Some st =>
      let max := GetMaxOffset (w_q st) in
      if negb value && bool_decide (offset < max)
      then (value, enqueue (λ xs, xs ++ [mkNotify addr max]) wn)
      else (value, wn)
  | None => (value, wn)
  end.

Definition allowNotify (addr : string) (wn : watcherNotifier B) : bool :=
  match watchers wn !! addr with Some st => isReady st | None => false end.

(** Go's [&&] binds tighter than [||]. *)
Definition allowSend (nt : notification) (wn : watcherNotifier B) : bool * watcherNotifier B :=
  match watchers wn !! nt_watcher nt with
  | Some st =>
      let allow := (isReady st && bool_decide (lastNotifyOffset st = 0)) || bool_decide (lastNotifyOffset st < nt_offset nt) in
      if allow
      then (true, set_watcher (nt_watcher nt) (mkState (w_reg st) (w_state st) (hbTimeout st) (w_q st) (nt_offset nt)) wn)
      else (false, wn)
  | None => (false, wn)
  end.

(** The body of the sending loop of [start], for one notification: whether it
    was sent.  [connected] and [written] say whether the connection pool and the
    write succeed. *)
Definition send_one (connected written : bool) (nt : notification) (wn : watcherNotifier B) : bool * watcherNotifier B :=
  if negb (allowNotify (nt_watcher nt) wn) then (false, wn)
  else let '(allow, wn) := allowSend nt wn in
       if negb allow then (false, wn)
       else if negb connected then (false, pause (nt_watcher nt) true wn)
       else let wn := mkNotifier (notifies wn) (notifies_disposed wn) ({[nt_watcher nt]} ∪ pool wn) (watchers wn) in
            if negb written then (false, pause (nt_watcher nt) true wn)
            else (true, wn).
Definition send_batch : nat := 64.

Definition stop (wn : watcherNotifier B) : watcherNotifier B :=
  mkNotifier [] true (pool wn) (watchers wn).

(** The answer to a pull: the newest offset and the events. *)
Definition sync (addr : string) (offset : Z) (wn : watcherNotifier B)
    : outcome unit (option (Z * list (event B)) * watcherNotifier B) :=
  match watchers wn !! addr with
  | Some st =>
      if isReady st then
        let! (items, max, q) := Get offset (w_q st) in
        Ok (Some (max, items), set_watcher addr (mkState (w_reg st) (w_state st) (hbTimeout st) q (lastNotifyOffset st)) wn)
      else Ok (None, wn)
  | None => Ok (None, wn)
  end.
End server.

(** ** Client *)
Record Watcher (B : Type) := mkWatcher {
  localOffset : Z;
  serverOffset : Z;
  syncing : bool;
  readyC : list (event B);
}.
Arguments mkWatcher {B} _ _ _ _.
Arguments localOffset {B} _.
Arguments serverOffset {B} _.
Arguments syncing {B} _.
Arguments readyC {B} _.

Section client.
Context {B : Type}.
Implicit Types (w : Watcher B).

(** [Watcher.reset]; [syncing] keeps its value. *)
Definition client_reset (w : Watcher B) : Watcher B := mkWatcher 0 0 (syncing w) [].
Definition resetLocalOffset (offset : Z) (w : Watcher B) : Watcher B :=
  mkWatcher offset (serverOffset w) (syncing w) (readyC w).
Definition resetServerOffset (offset : Z) (w : Watcher B) : Watcher B :=
  mkWatcher (localOffset w) offset (syncing w) (readyC w).
(** [doNotify]: the events handed to the reader of the channel, oldest first. *)
Definition doNotify (events : list (event B)) (w : Watcher B) : Watcher B :=
  mkWatcher (localOffset w) (serverOffset w) (syncing w) (readyC w ++ filter (λ e, Event e > 0) events).
(** [Watcher.sync] with a write that succeeds: the pull request sent, if any. *)
Definition client_sync (w : Watcher B) : option Z * Watcher B :=
  if syncing w then (None, w)
  else (Some (localOffset w), mkWatcher (localOffset w) (serverOffset w) true (readyC w)).

(** The message loop of [doConnection]. *)
Definition on_notify (offset : Z) (w : Watcher B) : option Z * Watcher B :=
  if bool_decide (offset = 0) || bool_decide (offset > localOffset w)
  then client_sync (resetServerOffset offset w)
  else (None, w).
Definition on_rsp (offset : Z) (events : list (event B)) (w : Watcher B) : option Z * Watcher B :=
  let w := mkWatcher (localOffset w) (serverOffset w) false (readyC w) in
  let w := doNotify events (resetLocalOffset offset w) in
  if bool_decide (localOffset w < serverOffset w) then client_sync w else (None, w).
(** A new connection from PD. *)
Definition on_connect (w : Watcher B) : Watcher B := resetLocalOffset 0 w.
(** The answer to a heartbeat. *)
Definition doHeartbeat (was_paused : bool) (w : Watcher B) : Watcher B :=
  if was_paused then doNotify [initEvent] (resetLocalOffset 0 w) else w.
End client.

(** ** A watch session

    The server, the batch of notifications its sending loop took, one watcher
    client at address [a], and the two directions of their connection.  A step
    is any operation of the server for any watcher, or a message handled by
    [a].  A session lasts from a registration of [a] until its connection breaks
    or [a] is registered again, paused (by its timeout or a failed send) or
    removed; what an interruption in the middle of a pull does to a watcher is
    [broken_pull_blocks_watcher]. *)
Inductive smsg (B : Type) := Notify (offset : Z) | Rsp (offset : Z) (events : list (event B)).
Arguments Notify {B} offset.
Arguments Rsp {B} offset events.

Record session (B : Type) := mkSession {
  s_wn : watcherNotifier B;
  s_batch : list notification;
  s_client : Watcher B;
  s2c : list (smsg B);
  c2s : list Z;
  (** the events queued for [a] so far *)
  s_hist : list (event B);
}.
Arguments mkSession {B} _ _ _ _ _ _.
Arguments s_wn {B} _.
Arguments s_batch {B} _.
Arguments s_client {B} _.
Arguments s2c {B} _.
Arguments c2s {B} _.
Arguments s_hist {B} _.

Section session.
Context {B : Type} (a : string) (flag : Z).
Implicit Types (wn : watcherNotifier B) (s : session B) (e : event B) (h : list (event B)).

Definition outbox (o : option Z) : list Z := match o with Some x => [x] | None => [] end.

(** Operations on watchers other than [a]. *)
Inductive other_op : watcherNotifier B → watcherNotifier B → Prop :=
  | oo_add w wn : Addr w ≠ a → other_op wn (addWatcher w wn)
  | oo_remove b wn : b ≠ a → other_op wn (removeWatcher b wn)
  | oo_pause b r wn : b ≠ a → other_op wn (pause b r wn)
  | oo_heartbeat b offset wn : b ≠ a → other_op wn (watcherHeartbeat b offset wn).2
  | oo_sync b offset wn r wn' : b ≠ a → sync b offset wn = Ok (r, wn') → other_op wn wn'.

Inductive session_step : session B → session B → Prop :=
  | ss_other wn wn' batch c m1 m2 h : other_op wn wn' →
      session_step (mkSession wn batch c m1 m2 h) (mkSession wn' batch c m1 m2 h)
  | ss_notify e order wn batch c m1 m2 h : order ≡ₚ elements (dom (watchers wn)) →
      session_step (mkSession wn batch c m1 m2 h)
        (mkSession (notify order e wn) batch c m1 m2 (if MatchEvent (Event e) flag then h ++ [e] else h))
  | ss_heartbeat offset wn batch c m1 m2 h :
      session_step (mkSession wn batch c m1 m2 h)
        (mkSession (watcherHeartbeat a offset wn).2 batch c m1 m2 h)
  | ss_poll wn c m1 m2 h :
      session_step (mkSession wn [] c m1 m2 h)
        (mkSession (mkNotifier (drop send_batch (notifies wn)) (notifies_disposed wn) (pool wn) (watchers wn))
           (take send_batch (notifies wn)) c m1 m2 h)
  | ss_send connected written nt batch wn wn' sent c m1 m2 h :
      send_one connected written nt wn = (sent, wn') →
      (nt_watcher nt = a → connected = true ∧ written = true) →
      session_step (mkSession wn (nt :: batch) c m1 m2 h)
        (mkSession wn' batch c (m1 ++ if sent && bool_decide (nt_watcher nt = a) then [Notify (nt_offset nt)] else []) m2 h)
  | ss_recv_notify offset wn batch c m1 m2 h :
      session_step (mkSession wn batch c (Notify offset :: m1) m2 h)
        (mkSession wn batch (on_notify offset c).2 m1 (m2 ++ outbox (on_notify offset c).1) h)
  | ss_recv_rsp offset events wn batch c m1 m2 h :
      session_step (mkSession wn batch c (Rsp offset events :: m1) m2 h)
        (mkSession wn batch (on_rsp offset events c).2 m1 (m2 ++ outbox (on_rsp offset events c).1) h)
  | ss_sync offset max events wn wn' batch c m1 m2 h :
      sync a offset wn = Ok (Some (max, events), wn') →
      session_step (mkSession wn batch c m1 (offset :: m2) h)
        (mkSession wn' batch c (m1 ++ [Rsp max events]) m2 h).

Definition session_run : session B → session B → Prop := rtc session_step.

(** A session begins when [a] registers, for the first time or again, with a
    server that has no notification left for it. *)
Definition session_start (wn : watcherNotifier B) : session B :=
  mkSession (addWatcher (mkReg a flag) wn) [] (mkWatcher 0 0 false []) [] []
    (emptyEvent :: if MatchEvent EventInit flag then [initEvent] else []).

(** The events a client passes on. *)
Definition real (h : list (event B)) : list (event B) := filter (λ e, Event e > 0) h.

Definition notifs (ms : list (smsg B)) : list Z :=
  omap (λ m, match m with Notify n => Some n | _ => None end) ms.
Definition rsps (ms : list (smsg B)) : list (Z * list (event B)) :=
  omap (λ m, match m with Rsp n es => Some (n, es) | _ => None end) ms.
Definition pending (wn : watcherNotifier B) (batch : list notification) (n : Z) : Prop :=
  mkNotify a n ∈ notifies wn ++ batch.
Definition last_offset (h : list (event B)) : Z := Z.of_nat (length h - 1).

(** The server's view of [a]. *)
Record server_inv (wn : watcherNotifier B) (batch : list notification) (last start : Z) (h : list (event B)) : Prop := {
  sv_live : notifies_disposed wn = false;
  sv_state : ∃ st, watchers wn !! a = Some st ∧ w_reg st = mkReg a flag ∧ w_state st = ready ∧
             rep (w_q st) h ∧ lastNotifyOffset st = last ∧ oq_start (w_q st) = start;
  sv_addr : ∀ b st, watchers wn !! b = Some st → Addr (w_reg st) = b;
  sv_bound n : pending wn batch n → 0 ≤ n ≤ last_offset h;
  sv_last : 0 ≤ last ≤ last_offset h;
  sv_pending : last < last_offset h → pending wn batch (last_offset h);
}.

(** What the client was handed, and where its pull stands. *)
Inductive pull_phase (h : list (event B)) (L : Z) : bool → list (Z * list (event B)) → list Z → Z → Prop :=
  | pp_idle start : start ≤ L + 1 → pull_phase h L false [] [] start
  | pp_asked start : start ≤ L + 1 → pull_phase h L true [] [L] start
  | pp_answered max es start : L ≤ max → max < Z.of_nat (length h) → start ≤ max + 1 →
      real es = real (drop (Z.to_nat (L + 1)) (take (Z.to_nat (max + 1)) h)) →
      pull_phase h L true [(max, es)] [] start.

Record session_inv (s : session B) (last start : Z) : Prop := {
  si_server : server_inv (s_wn s) (s_batch s) last start (s_hist s);
  si_first : head (s_hist s) = Some emptyEvent;
  si_local : 0 ≤ localOffset (s_client s) ≤ last_offset (s_hist s);
  si_delivered : readyC (s_client s) = real (take (Z.to_nat (localOffset (s_client s) + 1)) (s_hist s));
  si_phase : pull_phase (s_hist s) (localOffset (s_client s)) (syncing (s_client s)) (rsps (s2c s)) (c2s s) start;
  si_sorted : StronglySorted Z.le (serverOffset (s_client s) :: notifs (s2c s) ++ [last]);
  si_nonneg : 0 ≤ serverOffset (s_client s);
  si_awake : localOffset (s_client s) < last →
    last ∈ notifs (s2c s) ∨ serverOffset (s_client s) = last ∧ syncing (s_client s) = true;
}.

(** *** Operations for other watchers leave [a] alone *)
Lemma put_or_update_self (nt : notification) xs : nt ∈ put_or_update cmp nt xs.
Proof.
  unfold put_or_update. destruct (update_first cmp nt xs) as [ys|] eqn:E.
  - revert ys E; induction xs as [|y xs IH]; intros ys; simpl; [done|].
    destruct (cmp y nt); [intros [= <-]; left|]. intros (zs & Ez & ->)%fmap_Some. right. eauto.
  - apply elem_of_app. right. left.
Qed.

Lemma put_or_update_elem nt x xs :
  x ∈ put_or_update cmp nt xs → x = nt ∨ x ∈ xs.
Proof.
  unfold put_or_update. destruct (update_first cmp nt xs) as [ys|] eqn:E.
  - revert ys E; induction xs as [|y xs IH]; intros ys; simpl; [done|].
    destruct (cmp y nt); [intros [= <-]; rewrite !elem_of_cons; tauto|].
    intros (zs & Ez & ->)%fmap_Some. rewrite !elem_of_cons. naive_solver.
  - rewrite elem_of_app, list_elem_of_singleton. tauto.
Qed.

Lemma put_or_update_other nt x xs :
  nt_watcher x ≠ nt_watcher nt → x ∈ xs → x ∈ put_or_update cmp nt xs.
Proof.
  intros Hne. unfold put_or_update. destruct (update_first cmp nt xs) as [ys|] eqn:E.
  - revert ys E; induction xs as [|y xs IH]; intros ys; simpl; [done|].
    destruct (cmp y nt) eqn:Ec.
    + intros [= <-]. rewrite !elem_of_cons. unfold cmp in Ec. case_bool_decide; naive_solver.
    + intros (zs & Ez & ->)%fmap_Some. rewrite !elem_of_cons. naive_solver.
  - intros ?. apply elem_of_app. by left.
Qed.

Definition addr_ok (wn : watcherNotifier B) : Prop := ∀ b st, watchers wn !! b = Some st → Addr (w_reg st) = b.

Record frame (wn wn' : watcherNotifier B) : Prop := {
  fr_live : notifies_disposed wn' = notifies_disposed wn;
  fr_state : watchers wn' !! a = watchers wn !! a;
  fr_addr : addr_ok wn → addr_ok wn';
  fr_notifies n : mkNotify a n ∈ notifies wn' ↔ mkNotify a n ∈ notifies wn;
}.

#[local] Instance frame_preorder : PreOrder frame.
Proof.
  split; [by split|]. intros x y z [A1 A2 A3 A4] [B1 B2 B3 B4]. split; [congruence|congruence|auto|].
  intros n. by rewrite B4.
Qed.

Lemma frame_set_watcher b st wn : b ≠ a → Addr (w_reg st) = b → frame wn (set_watcher b st wn).
Proof.
  intros Hb Ha. split; simpl; [done|by rewrite lookup_insert_ne| |done].
  intros Hok c st'. cbn. intros [[-> ->]|[? ?]]%lookup_insert_Some; auto.
Qed.

Lemma frame_enqueue f wn :
  (∀ n xs, mkNotify a n ∈ f xs ↔ mkNotify a n ∈ xs) → frame wn (enqueue f wn).
Proof.
  intros Hf. unfold enqueue. destruct (notifies_disposed wn) eqn:E; [reflexivity|].
  split; [done|done|done|]. intros n. apply Hf.
Qed.

Lemma frame_notify_one e b wn : b ≠ a → addr_ok wn → frame wn (notify_one e wn b).
Proof.
  intros Hb Hok. unfold notify_one. destruct (watchers wn !! b) as [st|] eqn:E; [|reflexivity].
  unfold notifyWithoutLock. destruct (isReady st && _); [|reflexivity].
  apply Hok in E. unfold addNotify. destruct (Add e (w_q st)) as [offset q]. rewrite E.
  etransitivity; [by apply (frame_set_watcher b (mkState (w_reg st) (w_state st) (hbTimeout st) q (lastNotifyOffset st)))|].
  apply frame_enqueue. intros n xs. split.
  - intros [[=]|?]%put_or_update_elem; [congruence|done].
  - apply put_or_update_other. simpl. congruence.
Qed.

Lemma frame_notify e l wn : a ∉ l → addr_ok wn → frame wn (notify l e wn).
Proof.
  revert wn; induction l as [|b l IH]; intros wn Hl Hok; simpl; [reflexivity|].
  apply not_elem_of_cons in Hl as [Hb Hl].
  pose proof (frame_notify_one e b wn (not_eq_sym Hb) Hok) as Hf.
  etransitivity; [exact Hf|]. apply IH; [done|by apply Hf].
Qed.

Lemma frame_removeConn b wn : frame wn (removeConn b wn).
Proof. by split. Qed.

Lemma frame_resetTimeout b wn : b ≠ a → addr_ok wn → frame wn (resetTimeout b wn).
Proof.
  intros Hb Hok. unfold resetTimeout. destruct (watchers wn !! b) as [st|] eqn:E; [|reflexivity].
  apply frame_set_watcher; [done|]. by apply Hok in E.
Qed.

Lemma frame_pause b r wn : b ≠ a → addr_ok wn → frame wn (pause b r wn).
Proof.
  intros Hb Hok. unfold pause.
  assert (watchers (if r then removeConn b wn else wn) = watchers wn) as -> by by destruct r.
  transitivity (if r then removeConn b wn else wn); [destruct r; [apply frame_removeConn|reflexivity]|].
  destruct (watchers wn !! b) as [st|] eqn:E; [|reflexivity].
  apply frame_set_watcher; [done|]. by apply Hok in E.
Qed.

Lemma frame_other wn wn' : other_op wn wn' → addr_ok wn → frame wn wn'.
Proof.
  destruct 1 as [w wn Hb|b wn Hb|b r wn Hb|b offset wn Hb|b offset wn r wn' Hb Hs]; intros Hok.
  - unfold addWatcher. set (wn1 := match watchers wn !! Addr w with Some _ => _ | None => _ end).
    assert (frame wn wn1) as F1.
    { unfold wn1. destruct (watchers wn !! Addr w) eqn:E; apply frame_set_watcher; try done. by apply Hok in E. }
    assert (addr_ok wn1) as O1 by by apply F1.
    pose proof (frame_resetTimeout (Addr w) wn1 Hb O1) as F2. assert (addr_ok (resetTimeout (Addr w) wn1)) as O2 by by apply F2.
    pose proof (frame_notify_one emptyEvent (Addr w) _ Hb O2) as F3.
    assert (addr_ok (notify_one emptyEvent (resetTimeout (Addr w) wn1) (Addr w))) as O3 by by apply F3.
    pose proof (frame_notify_one initEvent (Addr w) _ Hb O3) as F4.
    etransitivity; [exact F1|]. etransitivity; [exact F2|]. etransitivity; [exact F3|exact F4].
  - unfold removeWatcher. etransitivity; [|apply frame_removeConn].
    split; simpl; [done|by rewrite lookup_delete_ne| |done].
    intros _ c st. cbn. intros [_ ?]%lookup_delete_Some. auto.
  - by apply frame_pause.
  - unfold watcherHeartbeat, resume. destruct (watchers wn !! b) as [st|] eqn:E; [|by rewrite E].
    pose proof (Hok _ _ E) as Hst.
    set (st' := if isPause st then _ else _). assert (Addr (w_reg st') = b) as Hst' by (unfold st'; by destruct (isPause st)).
    pose proof (frame_set_watcher b st' wn Hb Hst') as F1.
    assert (addr_ok (set_watcher b st' wn)) as O1 by by apply F1.
    pose proof (frame_resetTimeout b _ Hb O1) as F2.
    destruct (watchers (resetTimeout b (set_watcher b st' wn)) !! b) as [st1|]; [|by etransitivity].
    destruct (negb (isPause st) && _); [|by etransitivity]. simpl.
    etransitivity; [by etransitivity|]. apply frame_enqueue. intros n xs.
    rewrite elem_of_app, list_elem_of_singleton. naive_solver.
  - unfold sync in Hs. destruct (watchers wn !! b) as [st|] eqn:E; [|by simplify_eq/=].
    destruct (isReady st); [|by simplify_eq/=].
    destruct (Get offset (w_q st)) as [[[items max] q]| |]; simplify_eq/=.
    apply frame_set_watcher; [done|]. by apply Hok in E.
Qed.

(** *** Server steps *)
Lemma server_inv_frame wn wn' batch last start h :
  frame wn wn' → server_inv wn batch last start h → server_inv wn' batch last start h.
Proof.
  intros [F1 F2 F3 F4] [I1 I2 I3 I4 I5 I6]. unfold pending in *.
  split; [congruence|by rewrite F2|by apply F3| | done |].
  - intros n. unfold pending. rewrite elem_of_app, F4, <-elem_of_app. apply I4.
  - unfold pending. rewrite elem_of_app, F4, <-elem_of_app. apply I6.
Qed.

Lemma last_offset_snoc h e : h ≠ [] → last_offset (h ++ [e]) = last_offset h + 1.
Proof. unfold last_offset. rewrite length_app; simpl. destruct h; simpl; [done|lia]. Qed.

Lemma server_inv_notify_self e wn batch last start h : Z.of_nat (length h) + 1 < two64 →
  server_inv wn batch last start h →
  server_inv (notify_one e wn a) batch last start (if MatchEvent (Event e) flag then h ++ [e] else h).
Proof.
  intros Hlen [I1 I2 I3 I4 I5 I6]. destruct I2 as (st & Est & Ereg & Eready & Hrep & Elast & Estart).
  unfold notify_one, notifyWithoutLock, isReady. rewrite Est, Ereg, Eready.
  rewrite bool_decide_eq_true_2 by done. cbn [andb Addr EventFlag].
  destruct (MatchEvent (Event e) flag); [|split; eauto 10].
  unfold addNotify. destruct (rep_Add _ _ e Hrep Hlen) as [Eoff Hrep'].
  assert (oq_start (Add e (w_q st)).2 = start) as Estart' by done.
  destruct (Add e (w_q st)) as [offset q]; simpl in *. subst offset.
  unfold enqueue; simpl. rewrite I1.
  assert (Z.of_nat (length h) = last_offset (h ++ [e])) as Hoff.
  { unfold last_offset. rewrite length_app; simpl. lia. }
  rewrite Hoff. assert (last_offset h ≤ last_offset (h ++ [e])) as Hlast by (rewrite <-Hoff; unfold last_offset; lia).
  split; unfold pending in *; simpl; [done| | | |lia|].
  - eexists. rewrite lookup_insert_eq. split; [done|]. done.
  - intros b st'. rewrite lookup_insert_Some. intros [[<- <-]|[_ ?]]; [by simpl; rewrite Ereg|eauto].
  - intros n. rewrite elem_of_app. intros [[[=]|Hn]%put_or_update_elem|Hn].
    + subst. lia.
    + destruct (I4 n); [apply elem_of_app; by left|lia].
    + destruct (I4 n); [apply elem_of_app; by right|lia].
  - intros _. apply elem_of_app. left. apply put_or_update_self.
Qed.

Lemma server_inv_notify e order wn batch last start h : Z.of_nat (length h) + 1 < two64 →
  order ≡ₚ elements (dom (watchers wn)) → server_inv wn batch last start h →
  server_inv (notify order e wn) batch last start (if MatchEvent (Event e) flag then h ++ [e] else h).
Proof.
  intros Hlen Hperm I.
  assert (a ∈ order) as Hin.
  { rewrite Hperm, elem_of_elements, elem_of_dom. destruct (sv_state _ _ _ _ _ I) as (st & -> & _). eauto. }
  assert (NoDup order) as Hnd by (rewrite Hperm; apply NoDup_elements).
  apply list_elem_of_split in Hin as (l1 & l2 & ->).
  apply NoDup_app in Hnd as (_ & Hn1 & [Hn2 _]%NoDup_cons).
  unfold notify. rewrite foldl_app; simpl.
  assert (a ∉ l1) as Hl1 by (intros H; apply (Hn1 _ H); left).
  pose proof (frame_notify e l1 wn Hl1 (sv_addr _ _ _ _ _ I)) as F1.
  pose proof (server_inv_frame _ _ _ _ _ _ F1 I) as I1.
  pose proof (server_inv_notify_self e _ _ _ _ _ Hlen I1) as I2.
  eapply server_inv_frame; [|exact I2]. apply frame_notify; [done|]. exact (sv_addr _ _ _ _ _ I2).
Qed.

Lemma server_inv_heartbeat offset wn batch last start h :
  server_inv wn batch last start h → server_inv (watcherHeartbeat a offset wn).2 batch last start h.
Proof.
  intros [I1 I2 I3 I4 I5 I6]. destruct I2 as (st & Est & Ereg & Eready & Hrep & Elast & Estart).
  unfold watcherHeartbeat, resume, isPause. rewrite Est, Eready. simpl.
  unfold resetTimeout; simpl. rewrite lookup_insert_eq; simpl. rewrite lookup_insert_eq.
  assert (∀ xs, (∀ n, mkNotify a n ∈ xs ↔ mkNotify a n ∈ notifies wn ∨ n = last_offset h ∧ mkNotify a n ∈ xs) →
    (∀ n, mkNotify a n ∈ notifies wn → mkNotify a n ∈ xs) →
    server_inv (mkNotifier xs false (pool wn)
      (<[a:=state_resetTimeout st]> (<[a:=st]> (watchers wn)))) batch last start h) as Hinv.
  { intros xs Hxs Hsub. split; unfold pending in *; simpl; [done| | | |done|].
    - eexists. rewrite lookup_insert_eq. done.
    - intros b st'. rewrite !lookup_insert_Some. intros [[<- <-]|[? [[<- <-]|[? ?]]]]; simpl; [by rewrite Ereg|done|eauto].
    - intros n. rewrite elem_of_app, Hxs. intros [[Hn|[-> _]]|Hn]; [apply I4, elem_of_app; by left| |apply I4, elem_of_app; by right].
      unfold last_offset. lia.
    - intros Hl. specialize (I6 Hl). rewrite elem_of_app in *. destruct I6; [left; eauto|by right]. }
  unfold GetMaxOffset; simpl. rewrite (rep_max _ _ Hrep).
  case_bool_decide as Hoff; simpl.
  - unfold enqueue; simpl. rewrite I1. apply Hinv; intros n; rewrite elem_of_app, list_elem_of_singleton; unfold last_offset; naive_solver.
  - unfold set_watcher; simpl. rewrite I1. apply Hinv; naive_solver.
Qed.

Lemma server_inv_poll wn last start h : server_inv wn [] last start h →
  server_inv (mkNotifier (drop send_batch (notifies wn)) (notifies_disposed wn) (pool wn) (watchers wn))
    (take send_batch (notifies wn)) last start h.
Proof.
  intros [I1 I2 I3 I4 I5 I6].
  assert (∀ n, pending (mkNotifier (drop send_batch (notifies wn)) (notifies_disposed wn) (pool wn) (watchers wn))
    (take send_batch (notifies wn)) n ↔ pending wn [] n) as Hp.
  { intros n. unfold pending; cbn [notifies]. rewrite app_nil_r, elem_of_app, Logic.or_comm, <-elem_of_app, take_drop. done. }
  split; [done|done|done| |done|].
  - intros n. rewrite Hp. apply I4.
  - rewrite Hp. apply I6.
Qed.

Lemma server_inv_pop nt wn batch last start h :
  nt_watcher nt ≠ a ∨ nt_offset nt ≤ last → server_inv wn (nt :: batch) last start h → server_inv wn batch last start h.
Proof.
  intros Hnt [I1 I2 I3 I4 I5 I6]. unfold pending in *. split; [done|done|done| |done|].
  - intros n Hn. apply I4. unfold pending in Hn. rewrite elem_of_app, ?elem_of_cons in *. tauto.
  - intros Hl. specialize (I6 Hl). unfold pending. rewrite elem_of_app, ?elem_of_cons in *.
    destruct I6 as [?|[<-|?]]; [tauto| |tauto]. simpl in Hnt. destruct Hnt; [done|lia].
Qed.

Lemma send_one_other connected written nt wn sent wn' : nt_watcher nt ≠ a → addr_ok wn →
  send_one connected written nt wn = (sent, wn') → frame wn wn'.
Proof.
  intros Hb Hok. unfold send_one. destruct (negb (allowNotify _ _)); [by intros [= <- <-]|].
  destruct (allowSend nt wn) as [allow wn1] eqn:Ea.
  assert (frame wn wn1) as F1.
  { unfold allowSend in Ea. destruct (watchers wn !! nt_watcher nt) as [st|] eqn:E; [|by simplify_eq].
    destruct (_ || _); simplify_eq; [|done]. apply frame_set_watcher; [done|]. by apply Hok in E. }
  assert (addr_ok wn1) as O1 by by apply F1.
  destruct (negb allow); [by intros [= <- <-]|].
  destruct (negb connected); [intros [= <- <-]; etransitivity; [exact F1|by apply frame_pause]|].
  set (wn2 := mkNotifier _ _ _ _). assert (frame wn1 wn2) as F2 by by split.
  destruct (negb written); intros [= <- <-]; (etransitivity; [exact F1|]); [|done].
  etransitivity; [exact F2|]. apply frame_pause; [done|by apply F2].
Qed.

Lemma server_inv_send nt wn batch last start h sent wn' : nt_watcher nt = a →
  send_one true true nt wn = (sent, wn') → server_inv wn (nt :: batch) last start h →
  if sent then last ≤ nt_offset nt ∧ server_inv wn' batch (nt_offset nt) start h
  else wn' = wn ∧ server_inv wn' batch last start h.
Proof.
  intros Ha Hsend I. pose proof I as [I1 I2 I3 I4 I5 I6].
  destruct I2 as (st & Est & Ereg & Eready & Hrep & Elast & Estart).
  assert (0 ≤ nt_offset nt ≤ last_offset h) as Hb.
  { apply I4. unfold pending. apply elem_of_app. right. rewrite <-Ha. destruct nt; left. }
  revert Hsend. unfold send_one, allowNotify, allowSend, isReady. rewrite Ha, Est, Eready. simpl.
  rewrite Elast. destruct (bool_decide (last = 0) || bool_decide (last < nt_offset nt)) eqn:Eallow; simpl.
  - intros [= <- <-]. split; [repeat case_bool_decide; simpl in *; try done; lia|].
    split; unfold pending in *; simpl; [done| | | |lia|].
    + eexists. by rewrite lookup_insert_eq.
    + intros b st'. rewrite lookup_insert_Some. intros [[<- <-]|[_ ?]]; [by simpl; rewrite Ereg|eauto].
    + intros n Hn. apply I4. rewrite elem_of_app, ?elem_of_cons in *. tauto.
    + intros Hl. assert (last < last_offset h) as Hl'.
      { repeat case_bool_decide; simpl in *; try done; lia. }
      specialize (I6 Hl'). rewrite elem_of_app, ?elem_of_cons in *.
      destruct I6 as [?|[<-|?]]; [tauto| |tauto]. simpl in Hl. lia.
  - intros [= <- <-]. split; [done|]. apply (server_inv_pop nt); [|done]. right.
    repeat case_bool_decide; simpl in *; try done; lia.
Qed.

Lemma real_app h1 h2 : real (h1 ++ h2) = real h1 ++ real h2.
Proof. apply filter_app. Qed.

(** The answer to the pull of a client that has everything up to [L]. *)
Lemma sync_answer wn batch last start h L : head h = Some emptyEvent → 0 ≤ L ≤ last_offset h → start ≤ L + 1 →
  server_inv wn batch last start h →
  ∃ es wn' start', sync a L wn = Ok (Some (last_offset h, es), wn') ∧ start' ≤ L + 1 ∧
    server_inv wn' batch last start' h ∧ real es = real (drop (Z.to_nat (L + 1)) h).
Proof.
  intros Hhd HL Hstart [I1 I2 I3 I4 I5 I6].
  destruct I2 as (st & Est & Ereg & Eready & Hrep & Elast & Estart).
  unfold sync. rewrite Est. unfold isReady. rewrite (bool_decide_eq_true_2 (w_state st = ready) Eready).
  pose proof (rep_Get (w_q st) h L Hrep (proj1 HL)) as HG.
  destruct (Get L (w_q st)) as [[[es max] q]| |]; [|done|unfold last_offset in HL; lia].
  destruct HG as (_ & -> & -> & Hrep' & Hq). simpl.
  exists (drop (Z.to_nat (skipped L (w_q st))) h), (set_watcher a (mkState (w_reg st) (w_state st) (hbTimeout st) q (lastNotifyOffset st)) wn), (oq_start q).
  assert (skipped L (w_q st) = L + 1 ∨ skipped L (w_q st) = 0 ∧ L = 0) as Hskip.
  { unfold skipped. rewrite Estart. repeat case_bool_decide; simpl; try lia. }
  split; [done|]. split; [rewrite Hq; destruct Hskip; lia|]. split.
  - split; simpl; [done| | |exact I4|done|exact I6].
    + eexists. rewrite lookup_insert_eq. split; [done|]. split_and!; done.
    + intros b st'. rewrite lookup_insert_Some. intros [[<- <-]|[_ ?]]; [by simpl; rewrite Ereg|eauto].
  - destruct Hskip as [->|[-> ->]]; [done|]. destruct h as [|e h]; [done|]. simpl in Hhd. simplify_eq.
    replace (Z.to_nat (0 + 1)) with 1%nat by lia. simpl. unfold real. by rewrite filter_cons_False.
Qed.

(** *** The session invariant *)
Lemma sorted_extend (l : list Z) x y : StronglySorted Z.le (l ++ [x]) → x ≤ y →
  StronglySorted Z.le ((l ++ [y]) ++ [y]).
Proof.
  intros Hs Hxy.
  assert (Forall (λ z, z ≤ y) l) as Hl.
  { apply Forall_forall. intros z Hz. transitivity x; [|done].
    apply (StronglySorted_app_1_elem_of _ l [x] z x Hs); [done|left]. }
  apply StronglySorted_app_1_l in Hs.
  apply StronglySorted_snoc; [apply StronglySorted_snoc; done|].
  apply Forall_app. split; [done|by repeat constructor].
Qed.

Lemma pull_phase_grow h e L b rs c start :
  pull_phase h L b rs c start → pull_phase (h ++ [e]) L b rs c start.
Proof.
  destruct 1 as [start H|start H|max es start H1 H2 H3 H4]; [by constructor..|].
  constructor; [done|rewrite length_app; lia|done|]. by rewrite take_app_le by lia.
Qed.

Lemma session_inv_server s wn' batch' last start :
  session_inv s last start → server_inv wn' batch' last start (s_hist s) →
  session_inv (mkSession wn' batch' (s_client s) (s2c s) (c2s s) (s_hist s)) last start.
Proof. intros [? ? ? ? ? ? ? ?] ?. by split. Qed.

Lemma session_inv_grow wn wn' batch c m1 m2 h e last start :
  session_inv (mkSession wn batch c m1 m2 h) last start →
  server_inv wn' batch last start (h ++ [e]) →
  session_inv (mkSession wn' batch c m1 m2 (h ++ [e])) last start.
Proof.
  intros [J1 J2 J3 J4 J5 J6 J7 J8] I; simpl in *.
  assert (h ≠ []) as Hne by (intros ->; done).
  assert (length h ≠ 0)%nat as Hpos by (by intros ?%length_zero_iff_nil).
  pose proof (last_offset_snoc h e Hne) as Hl. unfold last_offset in *.
  split; simpl; [done| | | |by apply pull_phase_grow|done|done|done].
  - destruct h; [done|]. done.
  - unfold last_offset. lia.
  - rewrite J4, take_app_le by lia. done.
Qed.

Lemma session_inv_recv_notify offset wn batch c m1 m2 h last start :
  session_inv (mkSession wn batch c (Notify offset :: m1) m2 h) last start →
  session_inv (mkSession wn batch (on_notify offset c).2 m1 (m2 ++ outbox (on_notify offset c).1) h) last start.
Proof.
  intros [J1 J2 J3 J4 J5 J6 J7 J8]; simpl in *.
  apply StronglySorted_inv in J6 as [J6 Jle]. apply Forall_cons in Jle as [Jle1 Jle2].
  pose proof J6 as [J6' Jle3]%StronglySorted_inv. apply Forall_app in Jle3 as [_ Jle3].
  apply Forall_cons in Jle3 as [Jle3 _].
  unfold on_notify. destruct (bool_decide (offset = 0) || _) eqn:E.
  - unfold client_sync, resetServerOffset; simpl.
    destruct (syncing c) eqn:Esync; (split; simpl; [done|done|done|done| |done|lia|]).
    + by rewrite app_nil_r.
    + intros HL. destruct (J8 HL) as [[->|?]%elem_of_cons|[? _]]; [by right|by left|]. right. split; [lia|done].
    + inversion J5; subst. by apply pp_asked.
    + intros HL. destruct (J8 HL) as [[->|?]%elem_of_cons|[? _]]; [by right|by left|]. right. split; [lia|done].
  - split; simpl; [done|done|done|done|by rewrite app_nil_r| |done|].
    + constructor; [done|]. done.
    + intros HL. destruct (J8 HL) as [[->|?]%elem_of_cons|?]; [|by left|by right].
      exfalso. repeat case_bool_decide; simpl in *; try done; lia.
Qed.

Lemma session_inv_recv_rsp offset es wn batch c m1 m2 h last start :
  session_inv (mkSession wn batch c (Rsp offset es :: m1) m2 h) last start →
  session_inv (mkSession wn batch (on_rsp offset es c).2 m1 (m2 ++ outbox (on_rsp offset es c).1) h) last start.
Proof.
  intros [J1 J2 J3 J4 J5 J6 J7 J8]; simpl in *.
  inversion J5 as [| |max es' start' H1 H2 H3 H4]; subst. clear J5.
  assert (real (take (Z.to_nat (localOffset c + 1)) h) ++ real es = real (take (Z.to_nat (offset + 1)) h)) as Hdel.
  { rewrite H4, <-real_app. f_equal.
    rewrite <-(take_drop (Z.to_nat (localOffset c + 1)) (take (Z.to_nat (offset + 1)) h)) at 2.
    rewrite take_take. do 2 f_equal. lia. }
  unfold on_rsp, client_sync, doNotify, resetLocalOffset; simpl.
  change (filter (λ e : event B, Event e > 0) es) with (real es).
  case_bool_decide as E; (split; simpl; [done|done|unfold last_offset; lia|by rewrite J4| |done|done|]).
  - rewrite <-H6. by apply pp_asked.
  - intros HL. destruct J8 as [?|[? _]]; [lia|by left|by right].
  - rewrite <-H6. by apply pp_idle.
  - intros HL. destruct J8 as [?|[? _]]; [lia|by left|lia].
Qed.

Lemma session_inv_send connected written nt wn wn' sent batch c m1 m2 h last start :
  send_one connected written nt wn = (sent, wn') →
  (nt_watcher nt = a → connected = true ∧ written = true) →
  session_inv (mkSession wn (nt :: batch) c m1 m2 h) last start →
  ∃ last', session_inv (mkSession wn' batch c
    (m1 ++ if sent && bool_decide (nt_watcher nt = a) then [Notify (nt_offset nt)] else []) m2 h) last' start.
Proof.
  intros Hsend Hok J. pose proof J as [J1 J2 J3 J4 J5 J6 J7 J8]; simpl in *.
  destruct (decide (nt_watcher nt = a)) as [Ha|Hne].
  - destruct (Hok Ha) as [-> ->]. rewrite bool_decide_eq_true_2, andb_true_r by done.
    pose proof (server_inv_send _ _ _ _ _ _ _ _ Ha Hsend J1) as HI. destruct sent.
    + destruct HI as [Hle HI]. exists (nt_offset nt). split; simpl; [done|done|done|done| | |done|].
      * unfold rsps. rewrite omap_app, app_nil_r. done.
      * unfold notifs. rewrite omap_app. simpl.
        apply (sorted_extend (serverOffset c :: notifs m1) last); done.
      * intros _. left. unfold notifs. rewrite omap_app. apply elem_of_app. right. left.
    + destruct HI as [-> HI]. exists last. rewrite app_nil_r.
      apply (session_inv_server _ wn batch _ _ J HI).
  - exists last. rewrite bool_decide_eq_false_2, andb_false_r, app_nil_r by done.
    apply (session_inv_server _ wn' batch _ _ J). simpl. apply (server_inv_pop nt); [by left|].
    eapply server_inv_frame; [|exact J1]. eapply send_one_other; [done| |done].
    exact (sv_addr _ _ _ _ _ J1).
Qed.

Lemma session_inv_sync offset max es wn wn' batch c m1 m2 h last start :
  sync a offset wn = Ok (Some (max, es), wn') →
  session_inv (mkSession wn batch c m1 (offset :: m2) h) last start →
  ∃ start', session_inv (mkSession wn' batch c (m1 ++ [Rsp max es]) m2 h) last start'.
Proof.
  intros Hsync [J1 J2 J3 J4 J5 J6 J7 J8]; simpl in *.
  inversion J5 as [|start' H1|]; subst. clear J5.
  destruct (sync_answer _ _ _ _ _ _ J2 J3 H1 J1) as (es' & wn1 & start1 & Heq & Hle & HI & Hreal).
  assert (max = last_offset h ∧ es = es' ∧ wn' = wn1) as (-> & -> & ->) by (rewrite Heq in Hsync; by simplify_eq).
  exists start1. split; simpl; [done|done|done|done| | |done|].
  - unfold rsps in *. rewrite omap_app. simpl. rewrite <-H0, <-H. simpl.
    assert (0 < length h)%nat as Hpos by (destruct h; simpl; [done|lia]).
    unfold last_offset in *. apply pp_answered; [lia|lia|lia|].
    rewrite Hreal. rewrite (take_ge h) by lia. done.
  - unfold notifs in *. rewrite omap_app. simpl. by rewrite app_nil_r.
  - intros HL. unfold notifs in *. rewrite omap_app; simpl. rewrite app_nil_r. auto.
Qed.

Lemma session_inv_step s s' last start : session_inv s last start → session_step s s' →
  Z.of_nat (length (s_hist s')) + 1 < two64 → ∃ last' start', session_inv s' last' start'.
Proof.
  intros J Hstep; revert J. destruct Hstep as
    [wn wn' batch c m1 m2 h Hop|e order wn batch c m1 m2 h Hperm|offset wn batch c m1 m2 h|wn c m1 m2 h
    |connected written nt batch wn wn' sent c m1 m2 h Hsend Hok|offset wn batch c m1 m2 h
    |offset es wn batch c m1 m2 h|offset max es wn wn' batch c m1 m2 h Hsync]; intros J Hlen; simpl in Hlen;
    pose proof (si_server _ _ _ J) as I; simpl in I.
  - exists last, start. apply (session_inv_server _ wn' batch _ _ J). simpl.
    eapply server_inv_frame; [|exact I]. apply frame_other; [done|]. exact (sv_addr _ _ _ _ _ I).
  - exists last, start.
    assert (Z.of_nat (length h) + 1 < two64) as Hlen'.
    { destruct (MatchEvent _ _); [rewrite length_app in Hlen|]; lia. }
    pose proof (server_inv_notify e _ _ _ _ _ _ Hlen' Hperm I) as I'.
    destruct (MatchEvent (Event e) flag); [by eapply session_inv_grow|].
    apply (session_inv_server _ _ batch _ _ J I').
  - exists last, start. apply (session_inv_server _ _ batch _ _ J). by apply server_inv_heartbeat.
  - exists last, start. apply (session_inv_server _ _ _ _ _ J). by apply server_inv_poll.
  - destruct (session_inv_send _ _ _ _ _ _ _ _ _ _ _ _ _ Hsend Hok J) as [last' ?]. eauto.
  - exists last, start. by apply session_inv_recv_notify.
  - exists last, start. by apply session_inv_recv_rsp.
  - destruct (session_inv_sync _ _ _ _ _ _ _ _ _ _ _ _ Hsync J) as [start' ?]. eauto.
Qed.

Lemma session_step_hist s s' : session_step s s' → (length (s_hist s) ≤ length (s_hist s'))%nat.
Proof. destruct 1; simpl; try done. destruct (MatchEvent _ _); rewrite ?length_app; lia. Qed.

Lemma session_run_inv s s' : session_run s s' → (∃ last start, session_inv s last start) →
  Z.of_nat (length (s_hist s')) + 1 < two64 → ∃ last start, session_inv s' last start.
Proof.
  induction 1 as [|x y z Hxy Hyz IH]; intros (last & start & J) Hlen; [eauto|].
  apply IH; [|done]. apply (session_inv_step x y last start); [done..|].
  assert (length (s_hist y) ≤ length (s_hist z))%nat; [|lia].
  clear -Hyz. induction Hyz as [|u v w ?%session_step_hist]; lia.
Qed.

Lemma session_start_inv wn : addr_ok wn → notifies_disposed wn = false → (∀ st, watchers wn !! a = Some st → w_reg st = mkReg a flag) →
  (∀ n, mkNotify a n ∉ notifies wn) → ∃ last start, session_inv (session_start wn) last start.
Proof.
  intros Hok Hd Hnone Hno. exists 0, 0.
  set (st0 := newWatcherState (B := B) (mkReg a flag)). set (wn1 := set_watcher a (state_resetTimeout st0) (set_watcher a st0 wn)).
  assert (addWatcher (mkReg a flag) wn = notify_one initEvent (notify_one emptyEvent wn1 a) a) as Heq.
  { unfold addWatcher. cbn [Addr]. fold st0.
    assert (match watchers wn !! a with Some st => set_watcher a (reset (cancelTimeout st)) wn | None => set_watcher a st0 wn end = set_watcher a st0 wn) as ->.
    { destruct (watchers wn !! a) as [st|]; [|done]. do 2 f_equal. unfold reset, cancelTimeout; simpl. by rewrite (Hnone st eq_refl). }
    unfold resetTimeout; simpl. by rewrite lookup_insert_eq. }
  assert (server_inv wn1 [] 0 0 []) as I0.
  { split; unfold pending; simpl; [done| | | |done|done].
    - eexists. rewrite lookup_insert_eq. split_and!; [done..|apply rep_new|done|done].
    - intros b st. rewrite !lookup_insert_Some. intros [[<- <-]|[_ [[<- <-]|[_ ?]]]]; [done|done|by apply Hok].
    - intros n. rewrite app_nil_r. by intros ?%Hno. }
  pose proof (server_inv_notify_self emptyEvent _ _ _ _ [] eq_refl I0) as I1.
  pose proof (server_inv_notify_self initEvent _ _ _ _ [emptyEvent] eq_refl I1) as I2.
  unfold session_start. rewrite Heq. split; simpl; [|done|unfold last_offset; lia| | |repeat constructor; done|done|done].
  - simpl in I2. by destruct (MatchEvent EventInit flag).
  - unfold real. by rewrite filter_cons_False.
  - apply pp_idle. lia.
Qed.

End session.

Ltac session_go c := eapply rtc_l; [eapply c; try reflexivity; try (intros _; by split)|vm_compute].


(** ** Losing a connection in the middle of a pull *)
Section reconnect.
Context {B : Type}.

(** What can happen to a client whose pull will not be answered: PD connects
    again, sends notifications, answers heartbeats, or the watcher is
    restarted. *)
Inductive client_input := InConnect | InNotify (offset : Z) | InHeartbeat (was_paused : bool) | InRestart.
Definition client_step (i : client_input) (w : Watcher B) : option Z * Watcher B :=
  match i with
  | InConnect => (None, on_connect w)
  | InNotify offset => on_notify offset w
  | InHeartbeat p => (None, doHeartbeat p w)
  | InRestart => (None, client_reset w)
  end.
Fixpoint client_run (ins : list client_input) (w : Watcher B) : list Z * Watcher B :=
  match ins with
  | [] => ([], w)
  | i :: ins' =>
      let '(o, w') := client_step i w in
      let '(os, w'') := client_run ins' w' in (outbox o ++ os, w'')
  end.

(** A watcher whose connection breaks while a pull is outstanding never
    pulls again: [syncing] is only cleared by the answer to a pull, neither a
    new connection nor a restart clears it, so whatever notifications arrive
    from then on no pull request is sent. *)
Theorem broken_pull_blocks_watcher ins w : syncing w = true →
  (client_run ins w).1 = [] ∧ syncing (client_run ins w).2 = true.
Proof.
  revert w; induction ins as [|i ins IH]; intros w Hs; [done|].
  assert ((client_step i w).1 = None ∧ syncing (client_step i w).2 = true) as [H1 H2].
  { destruct i as [|offset|[]|]; try done. simpl. unfold on_notify, client_sync; simpl. rewrite Hs. by destruct (_ || _). }
  simpl. destruct (client_step i w) as [o w']; simpl in *. subst o. specialize (IH w' H2).
  by destruct (client_run ins w').
Qed.
End reconnect.

Lemma broken_pull_blocks_watcher_witness :
  let w := (on_notify 5 (mkWatcher (B:=Z) 0 0 false [])).2 in
  (on_notify 5 (mkWatcher (B:=Z) 0 0 false [])).1 = Some 0 ∧ (client_run [InConnect; InNotify 9; InRestart; InNotify 1] w).1 = [].
Proof.
  intros w. split; [reflexivity|].
  exact (proj1 (broken_pull_blocks_watcher [InConnect; InNotify 9; InRestart; InNotify 1] w eq_refl)).
Defined.

(** Go's precedence in [allowSend] lets a notification through for a watcher
    that was paused meanwhile, and the offset it records survives [resume]. *)
Lemma allowSend_when_paused {B} (wn : watcherNotifier B) nt st : watchers wn !! nt_watcher nt = Some st →
  0 < nt_offset nt → ∃ st', watchers (allowSend nt (pause (nt_watcher nt) true wn)).2 !! nt_watcher nt = Some st' ∧
    w_state st' = paused ∧ lastNotifyOffset st' = nt_offset nt.
Proof.
  intros Hst Hpos. unfold allowSend, pause; simpl. rewrite Hst; simpl. rewrite lookup_insert_eq; simpl.
  rewrite bool_decide_eq_true_2 by done. simpl. rewrite lookup_insert_eq. eauto.
Qed.
