(* ===== verification/KVTree.v ===== *)
(** * Key-value trees and the engine interface

    [util.KVTree] (pkg/util/kv_tree.go) is the ordered map behind the memory
    engines of pkg/storage; the stores only see the [Engine] interface of
    pkg/storage/driver.go.  The class [Engine] states what that interface
    promises, over the finite map an engine represents: point reads and writes,
    range deletion, [Seek] and [Scan] in key order.  Whether [Scan] includes the
    end key is left to the engine, because the implementations may differ; the
    memory engine, [KVTree], includes it.  The tree does not look into its
    values, so their type [V] is a parameter. *)

From Stdlib Require Import Sorted.
From S2P Require Import Prelude BTree.

(** The entries of a list of key-value pairs are sorted by key. *)
Definition keys_sorted {V} (l : list (bytes * V)) : Prop := StronglySorted blt l.*1.

(** [end_] bounds a range from above, inclusively or not. *)
Definition below_end (incl : bool) (key end_ : bytes) : Prop := if incl then ble key end_ else blt key end_.
#[export] Instance below_end_dec incl key end_ : Decision (below_end incl key end_).
Proof. unfold below_end. destruct incl; apply _. Defined.

Class Engine (V E : Type) := {
  eng_empty : E;
  eng_wf : E → Prop;
  eng_map : E → gmap bytes V;
  Engine_Set : bytes → V → E → E;
  Engine_Get : bytes → E → option V;
  Engine_Delete : bytes → E → E;
  Engine_RangeDelete : bytes → bytes → E → E;
  Engine_Seek : bytes → E → option (bytes * V);
  (** what [Scan start end] offers to its handler, until the handler stops it *)
  Engine_Scan : bytes → bytes → E → list (bytes * V);
  scan_includes_end : bool;
  eng_empty_wf : eng_wf eng_empty;
  eng_empty_map : eng_map eng_empty = ∅;
  eng_set_wf k v e : eng_wf e → eng_wf (Engine_Set k v e);
  eng_set_map k v e : eng_wf e → eng_map (Engine_Set k v e) = <[k := v]> (eng_map e);
  eng_get_map k e : eng_wf e → Engine_Get k e = eng_map e !! k;
  eng_delete_wf k e : eng_wf e → eng_wf (Engine_Delete k e);
  eng_delete_map k e : eng_wf e → eng_map (Engine_Delete k e) = delete k (eng_map e);
  eng_rangeDelete_wf s t e : eng_wf e → eng_wf (Engine_RangeDelete s t e);
  eng_rangeDelete_lookup s t e k : eng_wf e →
    eng_map (Engine_RangeDelete s t e) !! k =
    if decide (ble s k ∧ blt k t) then None else eng_map e !! k;
  eng_seek_spec k e : eng_wf e →
    match Engine_Seek k e with
    | Some (k', v) => eng_map e !! k' = Some v ∧ ble k k' ∧ ∀ k2, is_Some (eng_map e !! k2) → ble k k2 → ble k' k2
    | None => ∀ k2, is_Some (eng_map e !! k2) → blt k2 k
    end;
  eng_scan_elem s t e k v : eng_wf e →
    (k, v) ∈ Engine_Scan s t e ↔ eng_map e !! k = Some v ∧ ble s k ∧ below_end scan_includes_end k t;
  eng_scan_sorted s t e : eng_wf e → keys_sorted (Engine_Scan s t e);
}.

(** Write batches: the operations are applied in order. *)
Inductive batch_op (V : Type) := BSet (k : bytes) (v : V) | BDelete (k : bytes).
Arguments BSet {V} k v.
Arguments BDelete {V} k.
Abbreviation writeBatch V := (list (batch_op V)).

Section batches.
Context {V E : Type} `{!Engine V E}.

Definition write_op (e : E) (o : batch_op V) : E :=
  match o with BSet k v => Engine_Set k v e | BDelete k => Engine_Delete k e end.
Definition Write (wb : writeBatch V) (e : E) : E := foldl write_op e wb.

(** The same batch on the finite map. *)
Definition map_op (m : gmap bytes V) (o : batch_op V) : gmap bytes V :=
  match o with BSet k v => <[k := v]> m | BDelete k => delete k m end.
Definition map_write (wb : writeBatch V) (m : gmap bytes V) : gmap bytes V := foldl map_op m wb.

Lemma Write_wf wb e : eng_wf e → eng_wf (Write wb e).
Proof.
  revert e; induction wb as [|o wb IH]; intros e He; [done|]. simpl. apply IH.
  destruct o; simpl; auto using eng_set_wf, eng_delete_wf.
Qed.

Lemma Write_map wb e : eng_wf e → eng_map (Write wb e) = map_write wb (eng_map e).
Proof.
  revert e; induction wb as [|o wb IH]; intros e He; [done|]. simpl.
  destruct o; simpl; rewrite IH by auto using eng_set_wf, eng_delete_wf; by rewrite ?eng_set_map, ?eng_delete_map.
Qed.

Lemma map_write_app wb1 wb2 m : map_write (wb1 ++ wb2) m = map_write wb2 (map_write wb1 m).
Proof. apply foldl_app. Qed.
End batches.

(** ** util.KVTree *)
Record treeItem (V : Type) := mkTreeItem { ti_key : bytes; ti_value : V }.
Arguments mkTreeItem {V} _ _.
Arguments ti_key {V} _.
Arguments ti_value {V} _.

(** treeItem.Less and treeItem.Equals *)
Definition ti_less {V} (item other : treeItem V) : bool :=
  match bytes_compare (ti_key other) (ti_key item) with Gt => true | _ => false end.
Definition ti_equals {V} (item other : treeItem V) : bool :=
  match bytes_compare (ti_key other) (ti_key item) with Eq => true | _ => false end.

Lemma ti_less_blt {V} (x y : treeItem V) : ti_less x y = true ↔ blt (ti_key x) (ti_key y).
Proof.
  unfold ti_less, blt. rewrite (bytes_compare_antisym (ti_key y)).
  by destruct (bytes_compare (ti_key y) (ti_key x)).
Qed.
Lemma ti_less_false {V} (x y : treeItem V) : ti_less x y = false ↔ ble (ti_key y) (ti_key x).
Proof. unfold ti_less, ble. by destruct (bytes_compare (ti_key y) (ti_key x)). Qed.
Lemma ti_equals_key {V} (x y : treeItem V) : ti_equals x y = true ↔ ti_key x = ti_key y.
Proof.
  unfold ti_equals. destruct (bytes_compare (ti_key y) (ti_key x)) eqn:E.
  - apply bytes_compare_eq in E. by rewrite E.
  - split; [done|]. intros H. rewrite H, bytes_compare_refl in E. done.
  - split; [done|]. intros H. rewrite H, bytes_compare_refl in E. done.
Qed.

#[export] Instance ti_less_order V : LessOrder (@ti_less V).
Proof.
  split.
  - intros x. apply ti_less_false. border.
  - intros x y z. rewrite !ti_less_blt. intros. border.
  - intros x y z. rewrite !ti_less_blt. intros.
    destruct (decide (blt (ti_key x) (ti_key y))); [tauto|right; border].
Qed.

Section kv_tree.
Context {V T : Type} `{OT : !OrderedTree (treeItem V) ti_less T}.
(** [&treeItem{key: key}], a probe without a value: any value will do. *)
Context (nilValue : V).

Definition NewKVTree : T := ot_empty.
Definition Put (key : bytes) (value : V) (kv : T) : T := ot_replaceOrInsert (mkTreeItem key value) kv.
Definition Delete (key : bytes) (kv : T) : bool * T :=
  let '(r, kv') := ot_delete (mkTreeItem key nilValue) kv in
  (match r with Some _ => true | None => false end, kv').

(** The items of the callback that stops at the first key not below [end_]. *)
Definition items_below (incl : bool) (start end_ : bytes) (kv : T) : list (treeItem V) :=
  iterate (λ acc i, if bool_decide (below_end incl (ti_key i) end_) then (acc ++ [i], true) else (acc, false))
    [] (ascendGreaterOrEqual (mkTreeItem start nilValue) kv).

Definition RangeDelete (start end_ : bytes) (kv : T) : T := deleteAll (items_below false start end_ kv) kv.

(** The first item at or after [key]. *)
Definition first_from (key : bytes) (kv : T) : option (treeItem V) :=
  iterate (λ _ i, (Some i, false)) None (ascendGreaterOrEqual (mkTreeItem key nilValue) kv).
Definition Get (key : bytes) (kv : T) : option V :=
  match first_from key kv with
  | None => None
  | Some result => if ti_equals result (mkTreeItem key nilValue) then Some (ti_value result) else None
  end.
Definition Seek (key : bytes) (kv : T) : option (bytes * V) :=
  match first_from key kv with
  | None => None
  | Some result => Some (ti_key result, ti_value result)
  end.

(** [Scan]: [handler] has a state [S]; it says whether to go on, or fails. *)
Definition scan_range (incl : bool) (start end_ : bytes) (kv : T) : list (bytes * V) :=
  (λ i, (ti_key i, ti_value i)) <$> items_below incl start end_ kv.
Definition Scan_items : bytes → bytes → T → list (bytes * V) := scan_range true.
Fixpoint run_handler {S Er : Type} (handler : S → bytes → V → outcome Er (S * bool)) (s : S) (l : list (bytes * V))
    : outcome Er S :=
  match l with
  | [] => Ok s
  | (k, v) :: l' =>
      let! (s', c) := handler s k v in
      if c : bool then run_handler handler s' l' else Ok s'
  end.
Definition Scan {S Er : Type} (start end_ : bytes) (handler : S → bytes → V → outcome Er (S * bool)) (s : S) (kv : T)
    : outcome Er S := run_handler handler s (Scan_items start end_ kv).

(** ** The map a tree represents *)
Definition kv_pairs (kv : T) : list (bytes * V) := (λ i, (ti_key i, ti_value i)) <$> ot_items kv.
Definition kv_map (kv : T) : gmap bytes V := list_to_map (kv_pairs kv).

Lemma kv_pairs_sorted kv : ot_wf kv → keys_sorted (kv_pairs kv).
Proof.
  intros Hwf. unfold keys_sorted, kv_pairs. rewrite <-list_fmap_compose.
  apply StronglySorted_fmap. eapply StronglySorted_impl; [|apply ot_sorted, Hwf].
  intros x y. apply ti_less_blt.
Qed.

Lemma sorted_NoDup (l : list bytes) : StronglySorted blt l → NoDup l.
Proof.
  induction 1 as [|x l Hs IH HF]; constructor; [|done].
  intros Hin. rewrite Forall_forall in HF. by apply (blt_irrefl x), HF.
Qed.

Lemma kv_map_lookup kv k v : ot_wf kv → kv_map kv !! k = Some v ↔ mkTreeItem k v ∈ ot_items kv.
Proof.
  intros Hwf. unfold kv_map.
  rewrite <-elem_of_list_to_map by apply (sorted_NoDup _ (kv_pairs_sorted kv Hwf)).
  unfold kv_pairs. rewrite list_elem_of_fmap. split.
  - intros ([k' v'] & [= -> ->] & Hin). done.
  - intros Hin. by exists (mkTreeItem k v).
Qed.

Lemma kv_map_item kv i : ot_wf kv → i ∈ ot_items kv → kv_map kv !! ti_key i = Some (ti_value i).
Proof. intros Hwf. destruct i. by apply kv_map_lookup. Qed.

Lemma kv_map_ext kv m : ot_wf kv → (∀ k v, mkTreeItem k v ∈ ot_items kv ↔ m !! k = Some v) → kv_map kv = m.
Proof.
  intros Hwf Hm. apply map_eq. intros k. apply option_eq. intros v. by rewrite kv_map_lookup, Hm.
Qed.

Lemma kv_put_map k v kv : ot_wf kv → kv_map (Put k v kv) = <[k := v]> (kv_map kv).
Proof.
  intros Hwf. apply kv_map_ext; [by apply ot_insert_wf|]. intros k' v'. unfold Put.
  rewrite ot_insert_items, lookup_insert_Some, kv_map_lookup, !ti_less_blt by done. simpl.
  split.
  - intros [[= -> ->]|[Hin [H|H]]]; [tauto|right..]; (split; [|done]); intros ->; by apply blt_irrefl in H.
  - intros [[-> ->]|[Hne Hin]]; [by left|]. right. split; [done|]. destruct (blt_ne k k'); tauto.
Qed.

Lemma kv_delete_map k kv : ot_wf kv →
  kv_map (Delete k kv).2 = delete k (kv_map kv) ∧ ((Delete k kv).1 = true ↔ is_Some (kv_map kv !! k)).
Proof.
  intros Hwf. unfold Delete. set (p := mkTreeItem k nilValue).
  pose proof (ot_delete_wf p kv Hwf) as Hwf'. pose proof (λ y, ot_delete_items p kv y Hwf) as Hitems.
  pose proof (λ y, ot_delete_found p kv y Hwf) as Hfound.
  destruct (ot_delete p kv) as [r kv']; simpl in *. split.
  - apply kv_map_ext; [done|]. intros k' v'. rewrite Hitems, lookup_delete_Some, kv_map_lookup, !ti_less_blt by done. simpl.
    split.
    + intros [Hin [H|H]]; (split; [|done]); intros ->; by apply blt_irrefl in H.
    + intros [Hne Hin]. split; [done|]. destruct (blt_ne k k'); tauto.
  - destruct r as [[k' v']|]; split; try done.
    + intros _. destruct (Hfound (mkTreeItem k' v')) as [Hf _]. destruct Hf as (Hin & H1 & H2); [done|].
      rewrite !ti_less_false in H1, H2; simpl in H1, H2. assert (k' = k) as -> by border.
      exists v'. by apply kv_map_lookup.
    + intros [v Hv]. apply kv_map_lookup in Hv; [|done]. exfalso.
      destruct (Hfound (mkTreeItem k v)) as [_ Hf]. discriminate Hf. split; [done|].
      rewrite !ti_less_false. simpl. split; border.
Qed.

Lemma iterate_take_while (P : treeItem V → Prop) `{!∀ i, Decision (P i)} l acc :
  StronglySorted (λ x y, P y → P x) l →
  iterate (λ acc i, if bool_decide (P i) then (acc ++ [i], true) else (acc, false)) acc l = acc ++ filter P l.
Proof.
  intros Hl; revert acc; induction Hl as [|x l Hs IH HF]; intros acc; simpl; [by rewrite app_nil_r|].
  case_bool_decide as E.
  - rewrite IH, filter_cons_True by done. by rewrite <-app_assoc.
  - rewrite filter_cons_False by done. rewrite list_filter_none, app_nil_r; [done|].
    eapply Forall_impl; [exact HF|]. simpl. tauto.
Qed.

Lemma items_below_spec incl start end_ kv : ot_wf kv →
  items_below incl start end_ kv = filter (λ i, ble start (ti_key i) ∧ below_end incl (ti_key i) end_) (ot_items kv).
Proof.
  intros Hwf. unfold items_below, ascendGreaterOrEqual.
  rewrite (iterate_take_while (λ i, below_end incl (ti_key i) end_)); simpl.
  - rewrite list_filter_filter. apply list_filter_iff. intros i. rewrite ti_less_false. simpl. tauto.
  - apply StronglySorted_filter. eapply StronglySorted_impl; [|apply ot_sorted, Hwf].
    intros x y H%ti_less_blt. unfold below_end. destruct incl; intros; border.
Qed.

Lemma kv_rangeDelete_lookup s t kv k : ot_wf kv →
  kv_map (RangeDelete s t kv) !! k = if decide (ble s k ∧ blt k t) then None else kv_map kv !! k.
Proof.
  intros Hwf. apply option_eq. intros v. unfold RangeDelete.
  rewrite kv_map_lookup, deleteAll_items, items_below_spec, Forall_forall by auto using deleteAll_wf.
  setoid_rewrite list_elem_of_filter. setoid_rewrite ti_less_blt. simpl. rewrite <-kv_map_lookup by done. split.
  - intros [Hin HF]. destruct (decide _) as [Hr|]; [|done].
    destruct (HF (mkTreeItem k v)) as [H|H]; [|by apply blt_irrefl in H..].
    split; [done|]. by apply kv_map_lookup.
  - destruct (decide _) as [|Hr]; [done|]. intros Hin. split; [done|]. intros x [Hx Hxin].
    apply blt_ne. intros <-. done.
Qed.

Lemma first_from_spec k kv : ot_wf kv →
  match first_from k kv with
  | Some i => i ∈ ot_items kv ∧ ble k (ti_key i) ∧ ∀ j, j ∈ ot_items kv → ble k (ti_key j) → ble (ti_key i) (ti_key j)
  | None => ∀ j, j ∈ ot_items kv → blt (ti_key j) k
  end.
Proof.
  intros Hwf. unfold first_from, ascendGreaterOrEqual.
  assert (StronglySorted (λ x y, ti_less x y = true) (filter (λ y, ti_less y (mkTreeItem k nilValue) = false) (ot_items kv))) as Hs
    by (apply StronglySorted_filter, ot_sorted, Hwf).
  pose proof (λ j, list_elem_of_filter (λ y, ti_less y (mkTreeItem k nilValue) = false) (ot_items kv) j) as Hel.
  destruct (filter _ _) as [|i l]; simpl.
  - intros j Hj. specialize (Hel j). rewrite elem_of_nil in Hel. destruct (ti_less j (mkTreeItem k nilValue)) eqn:E; [|tauto].
    by apply ti_less_blt in E.
  - destruct (proj1 (Hel i)) as [H1 H2]; [left|].
    apply ti_less_false in H1; simpl in H1. split_and!; [done|done|].
    intros j Hj Hkj. assert (j ∈ i :: l) as [->|Hin]%elem_of_cons; [apply Hel; by rewrite ti_less_false|border|].
    pose proof (StronglySorted_head _ _ _ Hs j Hin) as H%ti_less_blt. border.
Qed.

Lemma kv_get_map k kv : ot_wf kv → Get k kv = kv_map kv !! k.
Proof.
  intros Hwf. unfold Get. pose proof (first_from_spec k kv Hwf) as H. destruct (first_from k kv) as [[k' v']|].
  - destruct H as (Hin & Hle & Hmin). destruct (ti_equals _ _) eqn:E.
    + apply ti_equals_key in E; simpl in E; subst. symmetry. by apply kv_map_lookup.
    + symmetry. apply eq_None_not_Some. intros [v Hv]. apply kv_map_lookup in Hv; [|done].
      assert (ble k' k) by (apply (Hmin _ Hv); simpl; border).
      assert (k' = k) as -> by (simpl in *; border).
      rewrite (proj2 (ti_equals_key (mkTreeItem k v') (mkTreeItem k nilValue))) in E; done.
  - symmetry. apply eq_None_not_Some. intros [v Hv]. apply kv_map_lookup in Hv; [|done].
    specialize (H _ Hv). simpl in H. by apply blt_irrefl in H.
Qed.

Lemma kv_seek_spec k kv : ot_wf kv →
  match Seek k kv with
  | Some (k', v) => kv_map kv !! k' = Some v ∧ ble k k' ∧ ∀ k2, is_Some (kv_map kv !! k2) → ble k k2 → ble k' k2
  | None => ∀ k2, is_Some (kv_map kv !! k2) → blt k2 k
  end.
Proof.
  intros Hwf. unfold Seek. pose proof (first_from_spec k kv Hwf) as H. destruct (first_from k kv) as [i|].
  - destruct H as (Hin & Hle & Hmin). split_and!; [by apply kv_map_item|done|].
    intros k2 [v Hv]. apply kv_map_lookup in Hv; [|done]. exact (Hmin _ Hv).
  - intros k2 [v Hv]. apply kv_map_lookup in Hv; [|done]. exact (H _ Hv).
Qed.

Lemma kv_scan_elem incl s t kv k v : ot_wf kv →
  (k, v) ∈ scan_range incl s t kv ↔ kv_map kv !! k = Some v ∧ ble s k ∧ below_end incl k t.
Proof.
  intros Hwf. unfold scan_range. rewrite list_elem_of_fmap, items_below_spec, kv_map_lookup by done.
  setoid_rewrite list_elem_of_filter. split.
  - intros ([k' v'] & [= -> ->] & [? ?] & ?). done.
  - intros (? & ? & ?). by exists (mkTreeItem k v).
Qed.

Lemma kv_scan_sorted incl s t kv : ot_wf kv → keys_sorted (scan_range incl s t kv).
Proof.
  intros Hwf. unfold keys_sorted, scan_range. rewrite <-list_fmap_compose, items_below_spec by done.
  apply StronglySorted_fmap, StronglySorted_filter. eapply StronglySorted_impl; [|apply ot_sorted, Hwf].
  intros x y. apply ti_less_blt.
Qed.

Lemma kv_empty_map : kv_map ot_empty = ∅.
Proof. apply kv_map_ext; [apply ot_empty_wf|]. intros k v. rewrite ot_empty_items, lookup_empty, elem_of_nil. done. Qed.

(** ** Programs over a tree *)
Inductive kv_op := OpPut (k : bytes) (v : V) | OpDelete (k : bytes) | OpRangeDelete (start end_ : bytes).
Definition kv_step (kv : T) (o : kv_op) : T :=
  match o with
  | OpPut k v => Put k v kv
  | OpDelete k => (Delete k kv).2
  | OpRangeDelete s t => RangeDelete s t kv
  end.
Definition map_step (m : gmap bytes V) (o : kv_op) : gmap bytes V :=
  match o with
  | OpPut k v => <[k := v]> m
  | OpDelete k => delete k m
  | OpRangeDelete s t => filter (λ kv, ¬ (ble s kv.1 ∧ blt kv.1 t)) m
  end.

Lemma kv_step_refines kv o : ot_wf kv → ot_wf (kv_step kv o) ∧ kv_map (kv_step kv o) = map_step (kv_map kv) o.
Proof.
  intros Hwf. destruct o as [k v|k|s t]; simpl.
  - split; [by apply ot_insert_wf|by apply kv_put_map].
  - split; [|by apply kv_delete_map]. unfold Delete. pose proof (ot_delete_wf (mkTreeItem k nilValue) kv Hwf). by destruct (ot_delete _ _).
  - split; [by apply deleteAll_wf|]. apply map_eq. intros k. rewrite kv_rangeDelete_lookup by done.
    apply option_eq. intros v. rewrite map_lookup_filter_Some. simpl. destruct (decide _); naive_solver.
Qed.

Lemma kv_run_refines ops kv : ot_wf kv →
  ot_wf (foldl kv_step kv ops) ∧ kv_map (foldl kv_step kv ops) = foldl map_step (kv_map kv) ops.
Proof.
  revert kv; induction ops as [|o ops IH]; intros kv Hwf; [done|]. simpl.
  destruct (kv_step_refines kv o Hwf) as [H1 <-]. by apply IH.
Qed.

(** C34. [KVTree] refines a finite map from byte strings: after any sequence of
    puts, deletes and range deletes of [[start, end)], the tree holds exactly
    the entries of the map those operations compute; [Get] is its lookup,
    [Delete] reports whether the key was there, [Seek] returns the entry with
    the least key at or after the argument, and [Scan] hands the entries with
    keys in [[start, end]] to its handler in increasing order of key. *)
Theorem kv_tree_refines_map ops :
  let kv := foldl kv_step NewKVTree ops in
  let m := foldl map_step ∅ ops in
  (∀ k, Get k kv = m !! k) ∧
  (∀ k, (Delete k kv).1 = true ↔ is_Some (m !! k)) ∧
  (∀ k, match Seek k kv with
        | Some (k', v) => m !! k' = Some v ∧ ble k k' ∧ ∀ k2, is_Some (m !! k2) → ble k k2 → ble k' k2
        | None => ∀ k2, is_Some (m !! k2) → blt k2 k
        end) ∧
  ∀ start end_, ∃ l,
    keys_sorted l ∧ (∀ k v, (k, v) ∈ l ↔ m !! k = Some v ∧ ble start k ∧ ble k end_) ∧
    ∀ (S Er : Type) (handler : S → bytes → V → outcome Er (S * bool)) s,
      Scan start end_ handler s kv = run_handler handler s l.
Proof.
  intros kv m. destruct (kv_run_refines ops NewKVTree ot_empty_wf) as [Hwf Hm]. fold kv in Hwf, Hm.
  unfold NewKVTree in Hm. rewrite kv_empty_map in Hm. fold m in Hm.
  split_and!.
  - intros k. by rewrite kv_get_map, Hm.
  - intros k. rewrite <-Hm. by apply kv_delete_map.
  - intros k. rewrite <-Hm. by apply kv_seek_spec.
  - intros start end_. exists (Scan_items start end_ kv). split_and!; [by apply kv_scan_sorted| |done].
    intros k v. rewrite <-Hm. by apply (kv_scan_elem true).
Qed.
End kv_tree.

(** An engine on a tree, with either kind of scan. *)
Program Definition kv_engine {V T} `{!OrderedTree (treeItem V) ti_less T} `{!Inhabited V} (incl : bool) : Engine V T := {|
  eng_empty := NewKVTree;
  eng_wf := ot_wf;
  eng_map := kv_map;
  Engine_Set := Put;
  Engine_Get := Get inhabitant;
  Engine_Delete k kv := (Delete inhabitant k kv).2;
  Engine_RangeDelete := RangeDelete inhabitant;
  Engine_Seek := Seek inhabitant;
  Engine_Scan := scan_range inhabitant incl;
  scan_includes_end := incl;
|}.
Next Obligation. intros. apply ot_empty_wf. Qed.
Next Obligation. intros. apply kv_empty_map. Qed.
Next Obligation. intros. by apply ot_insert_wf. Qed.
Next Obligation. intros. by apply kv_put_map. Qed.
Next Obligation. intros. by apply kv_get_map. Qed.
Next Obligation. intros V T OT IV incl k e He. unfold Delete. pose proof (ot_delete_wf (mkTreeItem k inhabitant) e He). by destruct (ot_delete _ _). Qed.
Next Obligation. intros. by apply kv_delete_map. Qed.
Next Obligation. intros. by apply deleteAll_wf. Qed.
Next Obligation. intros. by apply kv_rangeDelete_lookup. Qed.
Next Obligation. intros. by apply kv_seek_spec. Qed.
Next Obligation. intros. by apply kv_scan_elem. Qed.
Next Obligation. intros. by apply kv_scan_sorted. Qed.

(** The memory engine of pkg/storage/memory_engine_meta.go: its [Scan] is
    [KVTree.Scan]. *)
#[export] Instance memory_engine {V T} `{!OrderedTree (treeItem V) ti_less T} `{!Inhabited V} : Engine V T := kv_engine true.
