(* ===== verification/RaftTypes.v ===== *)
(** * Data of the replicated cells

    The messages a store persists and replicates: pkg/pb/mraft (apply and log
    states, the local state of a cell), pkg/pb/raftcmdpb (commands and
    responses), the raft entries, the error responses of
    pkg/raftstore/errors.go and the small helpers of pkg/raftstore/util.go and
    store_check.go.  Marshalled messages are kept decoded: a stored value is one
    of the messages the store writes, and unmarshalling a value of another kind
    is the [log.Fatalf] of [util.MustUnmarshal]. *)

From S2P Require Import Prelude Meta Keys.

(** ** pkg/pb/mraft *)
Record RaftTruncatedState := mkTruncated { Trunc_Index : Z; Trunc_Term : Z }.
Record RaftApplyState := mkApplyState { AppliedIndex : Z; TruncatedState : RaftTruncatedState }.
Record HardState := mkHardState { HS_Term : Z; HS_Vote : Z; HS_Commit : Z }.
Record RaftLocalState := mkRaftState { RS_HardState : HardState; LastIndex_ : Z }.
Inductive PeerState := Normal | Applying | PeerTombstone.
Record CellLocalState := mkLocalState { LS_State : PeerState; LS_Cell : Cell }.

#[export] Instance PeerState_eq_dec : EqDecision PeerState.
Proof. solve_decision. Defined.
#[export] Instance RaftTruncatedState_eq_dec : EqDecision RaftTruncatedState.
Proof. solve_decision. Defined.
#[export] Instance RaftApplyState_eq_dec : EqDecision RaftApplyState.
Proof. solve_decision. Defined.
#[export] Instance HardState_eq_dec : EqDecision HardState.
Proof. solve_decision. Defined.
#[export] Instance RaftLocalState_eq_dec : EqDecision RaftLocalState.
Proof. solve_decision. Defined.

Definition emptyApplyState : RaftApplyState := mkApplyState 0 (mkTruncated 0 0).
Definition emptyHardState : HardState := mkHardState 0 0 0.
Definition emptyRaftState : RaftLocalState := mkRaftState emptyHardState 0.

(** ** pkg/pb/raftcmdpb *)
Inductive AdminRequest :=
  | AChangePeer (changeType : ConfChangeType) (peer : Peer)
  | ASplit (splitKey : bytes) (newCellID : Z) (newPeerIDs : list Z)
  | ARaftLogGC (compactIndex compactTerm : Z)
  | ATransferLeader (peer : Peer)
  | AOther (type : Z).

Record Request := mkRequest {
  Req_UUID : bytes;
  Req_Type : Z;
  Req_Cmd : list bytes;
  Req_SessionID : Z;
}.

Record RaftRequestHeader := mkReqHeader {
  Hdr_CellId : Z;
  Hdr_Peer : Peer;
  Hdr_ReadQuorum : bool;
  Hdr_UUID : bytes;
  Hdr_CellEpoch : CellEpoch;
  Hdr_Term : Z;
}.
Record RaftCMDRequest := mkRaftCMD {
  Header : option RaftRequestHeader;
  Requests : list Request;
  AdminReq : option AdminRequest;
}.

(** ** pkg/pb/errorpb: the error of a response header *)
Inductive ErrorPb :=
  | NoError
  | StaleCommand
  | StaleEpoch (newCells : list Cell)
  | NotLeader (cellID : Z) (leader : Peer)
  | CellNotFound (cellID : Z)
  | KeyNotInCell (key : bytes) (cellID : Z)
  | StoreNotMatch
  | RaftEntryTooLarge (cellID size : Z)
  | OtherError.

(** The results a response carries, one field per kind of redis reply; a nil slice
    or pointer is [None].  Scores are the bits of a float64. *)
Record FVPair := mkFVPair { FV_Field : bytes; FV_Value : bytes }.
Record ScorePair := mkScorePair { SP_Score : Z; SP_Member : bytes }.
Record Document := mkDocument { Doc_Order : list Z; Doc_Key : bytes; Doc_FvPairs : list bytes }.
Record Reply := mkReply {
  ErrorResult : option bytes;
  ErrorResults : option (list bytes);
  StatusResult : option bytes;
  IntegerResult : option Z;
  BulkResult : option bytes;
  HasEmptyBulkResult : option bool;
  SliceArrayResult : option (list bytes);
  HasEmptySliceArrayResult : option bool;
  FvPairArrayResult : option (list FVPair);
  HasEmptyFVPairArrayResult : option bool;
  ScorePairArrayResult : option (list ScorePair);
  HasEmptyScorePairArrayResult : option bool;
  Withscores : option bool;
  DocArrayResult : option (list Document);
  HasEmptyDocArrayResult : option bool;
}.
Definition emptyReply : Reply :=
  mkReply None None None None None None None None None None None None None None None.
Record Response := mkResponse {
  Rsp_UUID : bytes;
  Rsp_SessionID : Z;
  Rsp_Type : Z;
  Rsp_Error : ErrorPb;
  Rsp_Reply : Reply;
}.
Definition emptyResponse : Response := mkResponse [] 0 0 NoError emptyReply.

Record RaftResponseHeader := mkRspHeader { RH_Error : ErrorPb; RH_UUID : option bytes; RH_CurrentTerm : Z }.
Inductive AdminResponse :=
  | RChangePeer (cell : Cell)
  | RSplit (left_ right_ : Cell)
  | RRaftLogGC
  | RTransferLeader.
Record RaftCMDResponse := mkRaftRsp {
  RspHeader : option RaftResponseHeader;
  Responses : list Response;
  AdminRsp : option AdminResponse;
}.
Definition emptyRaftRsp : RaftCMDResponse := mkRaftRsp None [] None.

(** ** raftpb *)
Record ConfChange := mkConfChange { CC_Type : ConfChangeType; CC_NodeID : Z; CC_Context : RaftCMDRequest }.
Inductive EntryData := DEmpty | DCommand (req : RaftCMDRequest) | DConfChange (cc : ConfChange).
Inductive EntryType := EntryNormal | EntryConfChange.
Record Entry := mkEntry { E_Term : Z; E_Index : Z; E_Type : EntryType; E_Data : EntryData }.

(** ** What a store keeps in its metadata engines *)
Record StoreIdent := mkStoreIdent { Ident_ClusterID : Z; Ident_StoreID : Z }.
Inductive value :=
  | VCellState (s : CellLocalState)
  | VRaftState (s : RaftLocalState)
  | VApplyState (s : RaftApplyState)
  | VEntry (e : Entry)
  | VRaw (b : bytes)
  | VStoreIdent (i : StoreIdent).
#[export] Instance value_inhabited : Inhabited value := populate (VRaw []).

(** ** pkg/raftstore/errors.go *)
(** [AcquireRaftResponseHeader] gives a header with a nil UUID, so [buildUUID],
    which only replaces a UUID that is set, leaves it nil. *)
Definition buildTerm (term : Z) (resp : RaftCMDResponse) : RaftCMDResponse :=
  match RspHeader resp with
  | None => resp
  | Some h => mkRaftRsp (Some (mkRspHeader (RH_Error h) (RH_UUID h) term)) (Responses resp) (AdminRsp resp)
  end.
Definition buildUUID (uuid : bytes) (resp : RaftCMDResponse) : RaftCMDResponse :=
  match RspHeader resp with
  | None => resp
  | Some h =>
      match RH_UUID h with
      | None => resp
      | Some _ => mkRaftRsp (Some (mkRspHeader (RH_Error h) (Some uuid) (RH_CurrentTerm h))) (Responses resp) (AdminRsp resp)
      end
  end.
Definition errorBaseResp (uuid : bytes) (currentTerm : Z) : RaftCMDResponse :=
  buildUUID uuid (buildTerm currentTerm (mkRaftRsp (Some (mkRspHeader NoError None 0)) [] None)).
Definition with_error (e : ErrorPb) (resp : RaftCMDResponse) : RaftCMDResponse :=
  match RspHeader resp with
  | None => resp
  | Some h => mkRaftRsp (Some (mkRspHeader e (RH_UUID h) (RH_CurrentTerm h))) (Responses resp) (AdminRsp resp)
  end.
Definition errorOtherCMDResp : RaftCMDResponse := with_error OtherError (errorBaseResp [] 0).
Definition errorPbResp (e : ErrorPb) (uuid : bytes) (currentTerm : Z) : RaftCMDResponse :=
  with_error e (errorBaseResp uuid currentTerm).
Definition errorStaleCMDResp (uuid : bytes) (currentTerm : Z) : RaftCMDResponse :=
  with_error StaleCommand (errorBaseResp uuid currentTerm).
Definition errorStaleEpochResp (uuid : bytes) (currentTerm : Z) (newCells : list Cell) : RaftCMDResponse :=
  with_error (StaleEpoch newCells) (errorBaseResp uuid currentTerm).

(** ** pkg/raftstore/util.go *)
Definition isEpochStale (epoch checkEpoch : CellEpoch) : bool :=
  bool_decide (CellVer epoch < CellVer checkEpoch) || bool_decide (ConfVer epoch < ConfVer checkEpoch).
Fixpoint find_peer (storeID : Z) (ps : list Peer) : option Peer :=
  match ps with
  | [] => None
  | p :: ps' => if bool_decide (Peer_StoreID p = storeID) then Some p else find_peer storeID ps'
  end.
Definition findPeer (c : Cell) (storeID : Z) : option Peer := find_peer storeID (Peers c).
Definition set_peers (ps : list Peer) (c : Cell) : Cell := mkCell (Cell_ID c) (Start c) (End c) (Epoch c) ps.
Definition set_epoch (e : CellEpoch) (c : Cell) : Cell := mkCell (Cell_ID c) (Start c) (End c) e (Peers c).
Definition removePeer (c : Cell) (storeID : Z) : Cell :=
  set_peers (filter (λ p, Peer_StoreID p ≠ storeID) (Peers c)) c.
Definition newPeer (peerID storeID : Z) : Peer := mkPeer peerID storeID.
Definition removedPeers (new old : Cell) : list Z :=
  Peer_ID <$> filter (λ o, ¬ Exists (λ n, Peer_ID n = Peer_ID o) (Peers new)) (Peers old).
(** [None] stands for the nil error. *)
Definition checkKeyInCell (key : bytes) (c : Cell) : option ErrorPb :=
  if bleb (Start c) key && (bool_decide (End c = []) || bltb key (End c)) then None
  else Some (KeyNotInCell key (Cell_ID c)).
Definition StalEpoch (target check : CellEpoch) : bool :=
  bool_decide (ConfVer target < ConfVer check) || bool_decide (CellVer target < CellVer check).
Definition newChangePeerRequest (t : ConfChangeType) (p : Peer) : AdminRequest := AChangePeer t p.
Definition newTransferLeaderRequest (p : Peer) : AdminRequest := ATransferLeader p.
Definition newCompactLogRequest (index term : Z) : AdminRequest := ARaftLogGC index term.

(** ** pkg/raftstore/store_check.go: [checkEpoch] *)
Definition checkEpoch (c : Cell) (req : RaftCMDRequest) : bool :=
  let '(checkVer, checkConfVer) :=
    match AdminReq req with
    | Some (ASplit _ _ _) => (true, false)
    | Some (AChangePeer _ _) => (false, true)
    | Some (ATransferLeader _) => (true, true)
    | Some _ => (false, false)
    | None => (true, false)
    end in
  if negb checkConfVer && negb checkVer then true
  else match Header req with
       | None => false
       | Some h =>
           let fromEpoch := Hdr_CellEpoch h in
           let lastestEpoch := Epoch c in
           negb ((checkConfVer && bool_decide (ConfVer fromEpoch < ConfVer lastestEpoch)) ||
                 (checkVer && bool_decide (CellVer fromEpoch < CellVer lastestEpoch)))
       end.

(** ** Lemmas *)
Lemma find_peer_Some storeID ps p : find_peer storeID ps = Some p → p ∈ ps ∧ Peer_StoreID p = storeID.
Proof.
  induction ps as [|q ps IH]; simpl; [done|]. case_bool_decide as E.
  - intros [= ->]. split; [left|done].
  - intros [? ?]%IH. split; [by right|done].
Qed.
Lemma find_peer_None storeID ps : find_peer storeID ps = None ↔ Forall (λ p, Peer_StoreID p ≠ storeID) ps.
Proof.
  induction ps as [|q ps IH]; simpl; [by rewrite Forall_nil|]. rewrite Forall_cons.
  case_bool_decide; [|naive_solver]. split; [done|]. intros [? _]. done.
Qed.

Lemma checkKeyInCell_None key c : checkKeyInCell key c = None ↔ in_cell key c.
Proof.
  unfold checkKeyInCell, in_cell.
  destruct (bleb_spec (Start c) key), (bltb_spec key (End c)), (bool_decide_reflect (End c = [])); simpl; split; try done; tauto.
Qed.
