(* ===== verification/RaftLog.v ===== *)
(** * The raft log of a cell peer

    [peerStorage] of pkg/raftstore/peer_storage.go and the storage half of
    raft_handle_do.go and peer_raft.go: how a peer loads its states, persists
    the entries, snapshots and hard states a raft [Ready] asks for, and serves
    the [raft.Storage] interface ([Entries], [Term], [FirstIndex], [LastIndex],
    [InitialState]).  The engine is any [Engine]; the marshalled size of an
    entry is the parameter [esize].  An I/O error of the engine ends the process
    ([log.Fatalf]), so the engine operations do not fail here. *)

From Stdlib Require Import Sorted.
From S2P Require Import Prelude Encoding Meta Keys BTree KVTree RaftTypes.

Definition raftInitLogTerm : Z := 5.
Definition raftInitLogIndex : Z := 5.

Inductive ps_error :=
  | ErrUnmarshal | ErrEntryLost (index : Z) | ErrLowGreaterHigh | ErrCompacted | ErrOutOfBound | ErrUnavailable
  | ErrCellNotMatch | ErrNotFound | ErrTruncateCompacted | ErrCompactNotApplied.

Record peerStorage := mkPeerStorage {
  ps_cell : Cell;
  lastTerm : Z;
  appliedIndexTerm : Z;
  lastReadyIndex : Z;
  lastCompactIndex : Z;
  raftState : RaftLocalState;
  applyState : RaftApplyState;
}.

Record Snapshot := mkSnapshot { Snap_Index : Z; Snap_Term : Z; Snap_Cell : Cell }.
(** What [ReadySince] hands over; an absent hard state is the empty one. *)
Record Ready := mkReady {
  rd_Entries : list Entry;
  rd_HardState : HardState;
  rd_Snapshot : option Snapshot;
}.

Record readyContext := mkReadyCtx {
  ctx_raftState : RaftLocalState;
  ctx_applyState : RaftApplyState;
  ctx_lastTerm : Z;
  ctx_wb : writeBatch value;
}.

(** Sortedness by positions, and weakened along the elements of the list. *)
Lemma StronglySorted_of_lookup {A} (R : A → A → Prop) l :
  (∀ i j x y, l !! i = Some x → l !! j = Some y → (i < j)%nat → R x y) → StronglySorted R l.
Proof.
  induction l as [|x l IH]; intros H; constructor.
  - apply IH. intros i j y z Hi Hj Hij. apply (H (S i) (S j)); [done|done|lia].
  - apply Forall_forall. intros y [j Hj]%list_elem_of_lookup. apply (H 0%nat (S j)); [done|done|lia].
Qed.
Lemma StronglySorted_impl_in {A} (R Q : A → A → Prop) l :
  (∀ x y, x ∈ l → y ∈ l → R x y → Q x y) → StronglySorted R l → StronglySorted Q l.
Proof.
  intros H Hs; revert H. induction Hs as [|x l Hs IH HF]; intros H; constructor.
  - apply IH. intros y z ? ?. apply H; by right.
  - rewrite Forall_forall in HF |- *. intros y Hy. apply H; [left|by right|auto].
Qed.

Section raft_log.
Context {E : Type} `{!Engine value E} (esize : Entry → Z).

(** ** Accessors *)
Definition isInitialized (ps : peerStorage) : bool := negb (bool_decide (Peers (ps_cell ps) = [])).
Definition getAppliedIndex (ps : peerStorage) : Z := AppliedIndex (applyState ps).
Definition getCommittedIndex (ps : peerStorage) : Z := HS_Commit (RS_HardState (raftState ps)).
Definition getTruncatedIndex (ps : peerStorage) : Z := Trunc_Index (TruncatedState (applyState ps)).
Definition getTruncatedTerm (ps : peerStorage) : Z := Trunc_Term (TruncatedState (applyState ps)).
Definition isApplyComplete (ps : peerStorage) : bool := bool_decide (getCommittedIndex ps = getAppliedIndex ps).
Definition LastIndex (ps : peerStorage) : Z := LastIndex_ (raftState ps).
Definition FirstIndex (ps : peerStorage) : Z := u64 (getTruncatedIndex ps + 1).

(** ** Loading *)
Definition initRaftState (c : Cell) (e : E) : outcome ps_error RaftLocalState :=
  match Engine_Get (getRaftStateKey (Cell_ID c)) e with
  | Some (VRaftState s) => Ok s
  | Some _ => Err ErrUnmarshal
  | None => Ok (if bool_decide (Peers c = []) then emptyRaftState else mkRaftState emptyHardState raftInitLogIndex)
  end.

Definition initApplyState (c : Cell) (e : E) : outcome ps_error RaftApplyState :=
  if bool_decide (Peers c = []) then Ok emptyApplyState
  else match Engine_Get (getApplyStateKey (Cell_ID c)) e with
       | Some (VApplyState s) => Ok s
       | Some _ => Err ErrUnmarshal
       | None => Ok (mkApplyState raftInitLogIndex (mkTruncated raftInitLogIndex raftInitLogTerm))
       end.

Definition initLastTerm (c : Cell) (rs : RaftLocalState) (st : RaftApplyState) (e : E) : outcome ps_error Z :=
  let lastIndex := LastIndex_ rs in
  if bool_decide (lastIndex = 0) then Ok lastIndex
  else if bool_decide (lastIndex = raftInitLogIndex) then Ok raftInitLogTerm
  else if bool_decide (lastIndex = Trunc_Index (TruncatedState st)) then Ok (Trunc_Term (TruncatedState st))
  else if bool_decide (lastIndex < raftInitLogIndex) then Panic
  else match Engine_Get (getRaftLogKey (Cell_ID c) lastIndex) e with
       | None => Err (ErrEntryLost lastIndex)
       | Some (VEntry s) => Ok (E_Term s)
       | Some _ => Err ErrUnmarshal
       end.

Definition newPeerStorage (c : Cell) (e : E) : outcome ps_error peerStorage :=
  let! rs := initRaftState c e in
  let! st := initApplyState c e in
  let! t := initLastTerm c rs st e in
  Ok (mkPeerStorage c t raftInitLogTerm (AppliedIndex st) 0 rs st).

(** ** raft.Storage *)
Definition checkRange (ps : peerStorage) (low high : Z) : outcome ps_error unit :=
  if bool_decide (low > high) then Err ErrLowGreaterHigh
  else if bool_decide (low ≤ getTruncatedIndex ps) then Err ErrCompacted
  else if bool_decide (high > u64 (LastIndex ps + 1)) then Err ErrOutOfBound
  else Ok tt.

Definition unmarshal_entry (v : value) (expectIndex : Z) : outcome ps_error Entry :=
  match v with
  | VEntry e => if bool_decide (E_Index e = expectIndex) then Ok e else Panic
  | _ => Err ErrUnmarshal
  end.

Definition loadLogEntry (ps : peerStorage) (index : Z) (e : E) : outcome ps_error Entry :=
  match Engine_Get (getRaftLogKey (Cell_ID (ps_cell ps)) index) e with
  | None => Err ErrNotFound
  | Some v => unmarshal_entry v index
  end.

(** The state of the closure [Entries] scans with. *)
Record entries_acc := mkAcc { ents : list Entry; nextIndex : Z; totalSize : Z; exceededMaxSize : bool }.
Definition entries_handler (maxSize : Z) (s : entries_acc) (key : bytes) (v : value) : outcome ps_error (entries_acc * bool) :=
  match v with
  | VEntry e =>
      if negb (bool_decide (E_Index e = nextIndex s)) then Ok (s, false)
      else
        let total := u64 (totalSize s + esize e) in
        let exceeded := bool_decide (total > maxSize) in
        let ents' := if negb exceeded || bool_decide (length (ents s) = 0%nat) then ents s ++ [e] else ents s in
        Ok (mkAcc ents' (u64 (nextIndex s + 1)) total exceeded, negb exceeded)
  | _ => Panic
  end.

Definition Entries (ps : peerStorage) (low high maxSize : Z) (e : E) : outcome ps_error (list Entry) :=
  let! _ := checkRange ps low high in
  if bool_decide (low = high) then Ok []
  else
    let startKey := getRaftLogKey (Cell_ID (ps_cell ps)) low in
    if bool_decide (u64 (low + 1) = high) then
      match Engine_Get startKey e with
      | None => Err ErrUnavailable
      | Some v => let! ent := unmarshal_entry v low in Ok [ent]
      end
    else
      let endKey := getRaftLogKey (Cell_ID (ps_cell ps)) high in
      let! acc := run_handler (entries_handler maxSize) (mkAcc [] low 0 false) (Engine_Scan startKey endKey e) in
      if bool_decide (Z.of_nat (length (ents acc)) = u64 (high - low)) || exceededMaxSize acc then Ok (ents acc)
      else Err ErrUnavailable.

Definition Term (ps : peerStorage) (idx : Z) (e : E) : outcome ps_error Z :=
  if bool_decide (idx = getTruncatedIndex ps) then Ok (getTruncatedTerm ps)
  else
    let! _ := checkRange ps idx (u64 (idx + 1)) in
    if bool_decide (getTruncatedTerm ps = lastTerm ps) || bool_decide (idx = LastIndex ps) then Ok (lastTerm ps)
    else match Engine_Get (getRaftLogKey (Cell_ID (ps_cell ps)) idx) e with
         | None => Err ErrUnavailable
         | Some v => let! ent := unmarshal_entry v idx in Ok (E_Term ent)
         end.

Definition InitialState (ps : peerStorage) : outcome ps_error (HardState * list Z) :=
  let hs := RS_HardState (raftState ps) in
  if bool_decide (HS_Commit hs = 0) && bool_decide (HS_Term hs = 0) && bool_decide (HS_Vote hs = 0)
  then if isInitialized ps then Panic else Ok (hs, [])
  else Ok (hs, Peer_ID <$> Peers (ps_cell ps)).

Definition validateSnap (ps : peerStorage) (snap : Snapshot) : bool :=
  if bool_decide (Snap_Index snap < getTruncatedIndex ps) then false
  else if bool_decide (ConfVer (Epoch (Snap_Cell snap)) < ConfVer (Epoch (ps_cell ps))) then false
  else true.

(** ** Persisting a [Ready] *)
Definition updatePeerState (c : Cell) (state : PeerState) (wb : writeBatch value) : writeBatch value :=
  wb ++ [BSet (getCellStateKey (Cell_ID c)) (VCellState (mkLocalState state c))].

Definition clearMeta (cellID : Z) (wb : writeBatch value) (e : E) : writeBatch value :=
  let wb := wb ++ ((λ kv, BDelete kv.1) <$> Engine_Scan (getCellMetaPrefix cellID) (getCellMetaPrefix (u64 (cellID + 1))) e) in
  wb ++ ((λ kv, BDelete kv.1) <$> Engine_Scan (getCellRaftPrefix cellID) (getCellRaftPrefix (u64 (cellID + 1))) e).

Definition set_lastIndex (i : Z) (rs : RaftLocalState) : RaftLocalState := mkRaftState (RS_HardState rs) i.

Definition doAppendSnapshot (ps : peerStorage) (snap : Snapshot) (e : E) (ctx : readyContext) : outcome ps_error readyContext :=
  if bool_decide (Cell_ID (Snap_Cell snap) ≠ Cell_ID (ps_cell ps)) then Err ErrCellNotMatch
  else
    let wb := if isInitialized ps then clearMeta (Cell_ID (ps_cell ps)) (ctx_wb ctx) e else ctx_wb ctx in
    let wb := updatePeerState (Snap_Cell snap) Applying wb in
    let lastIndex := Snap_Index snap in
    let term := Snap_Term snap in
    Ok (mkReadyCtx (set_lastIndex lastIndex (ctx_raftState ctx))
          (mkApplyState lastIndex (mkTruncated lastIndex term)) term wb).

Definition doAppendEntries (ps : peerStorage) (entries : list Entry) (ctx : readyContext) : readyContext :=
  match last entries with
  | None => ctx
  | Some le =>
      let id := Cell_ID (ps_cell ps) in
      let prevLastIndex := LastIndex_ (ctx_raftState ctx) in
      let lastIndex := E_Index le in
      let sets := (λ e, BSet (getRaftLogKey id (E_Index e)) (VEntry e)) <$> entries in
      let dels := (λ i, BDelete (getRaftLogKey id i)) <$> seqZ (lastIndex + 1) (prevLastIndex - lastIndex) in
      mkReadyCtx (set_lastIndex lastIndex (ctx_raftState ctx)) (ctx_applyState ctx) (E_Term le) (ctx_wb ctx ++ sets ++ dels)
  end.

Definition handleSaveRaftState (ps : peerStorage) (ctx : readyContext) : readyContext :=
  let tmp := ctx_raftState ctx in
  let origin := raftState ps in
  if bool_decide (LastIndex_ tmp ≠ LastIndex_ origin) || bool_decide (HS_Commit (RS_HardState tmp) ≠ HS_Commit (RS_HardState origin))
     || bool_decide (HS_Term (RS_HardState tmp) ≠ HS_Term (RS_HardState origin))
     || bool_decide (HS_Vote (RS_HardState tmp) ≠ HS_Vote (RS_HardState origin))
  then mkReadyCtx tmp (ctx_applyState ctx) (ctx_lastTerm ctx)
         (ctx_wb ctx ++ [BSet (getRaftStateKey (Cell_ID (ps_cell ps))) (VRaftState tmp)])
  else ctx.

Definition handleSaveApplyState (ps : peerStorage) (ctx : readyContext) : readyContext :=
  let tmp := ctx_applyState ctx in
  let origin := applyState ps in
  if bool_decide (AppliedIndex tmp ≠ AppliedIndex origin) || bool_decide (Trunc_Index (TruncatedState tmp) ≠ Trunc_Index (TruncatedState origin))
     || bool_decide (Trunc_Term (TruncatedState tmp) ≠ Trunc_Term (TruncatedState origin))
  then mkReadyCtx (ctx_raftState ctx) tmp (ctx_lastTerm ctx)
         (ctx_wb ctx ++ [BSet (getApplyStateKey (Cell_ID (ps_cell ps))) (VApplyState tmp)])
  else ctx.

Definition IsEmptyHardState (hs : HardState) : bool := bool_decide (hs = emptyHardState).

(** The storage part of [handleRaftReadyAppend]. *)
Definition handleRaftReadyAppend (ps : peerStorage) (rd : Ready) (e : E) : outcome ps_error (readyContext * E) :=
  let ctx := mkReadyCtx (raftState ps) (applyState ps) (lastTerm ps) [] in
  let! ctx := match rd_Snapshot rd with
              | Some snap => match doAppendSnapshot ps snap e ctx with Ok c => Ok c | _ => Panic end
              | None => Ok ctx
              end in
  let ctx := doAppendEntries ps (rd_Entries rd) ctx in
  let ctx := if bool_decide (LastIndex_ (ctx_raftState ctx) > 0) && negb (IsEmptyHardState (rd_HardState rd))
             then mkReadyCtx (mkRaftState (rd_HardState rd) (LastIndex_ (ctx_raftState ctx)))
                    (ctx_applyState ctx) (ctx_lastTerm ctx) (ctx_wb ctx)
             else ctx in
  let ctx := handleSaveApplyState ps (handleSaveRaftState ps ctx) in
  Ok (ctx, Write (ctx_wb ctx) e).

(** The assignments of [doApplySnap]. *)
Definition apply_ready (rd : Ready) (ctx : readyContext) (ps : peerStorage) : peerStorage :=
  let c := match rd_Snapshot rd with Some snap => Snap_Cell snap | None => ps_cell ps end in
  mkPeerStorage c (ctx_lastTerm ctx) (appliedIndexTerm ps) (lastReadyIndex ps) (lastCompactIndex ps)
    (ctx_raftState ctx) (ctx_applyState ctx).

(** [SaveCell] and [DeleteCell] of util.go, [writeInitialState]. *)
Definition initialRaftState : RaftLocalState := mkRaftState (mkHardState raftInitLogTerm 0 raftInitLogIndex) raftInitLogIndex.
Definition initialApplyState : RaftApplyState := mkApplyState raftInitLogIndex (mkTruncated raftInitLogIndex raftInitLogTerm).
Definition writeInitialState (cellID : Z) (wb : writeBatch value) : writeBatch value :=
  wb ++ [BSet (getRaftStateKey cellID) (VRaftState initialRaftState); BSet (getApplyStateKey cellID) (VApplyState initialApplyState)].
Definition SaveCell (c : Cell) (e : E) : E :=
  Write [BSet (getCellStateKey (Cell_ID c)) (VCellState (mkLocalState Normal c));
         BSet (getRaftStateKey (Cell_ID c)) (VRaftState initialRaftState);
         BSet (getApplyStateKey (Cell_ID c)) (VApplyState initialApplyState)] e.
Definition DeleteCell (id : Z) (wb : writeBatch value) : writeBatch value :=
  wb ++ [BDelete (getCellStateKey id); BDelete (getRaftStateKey id); BDelete (getApplyStateKey id)].

(** [compactRaftLog] *)
Definition compactRaftLog (st : RaftApplyState) (compactIndex compactTerm : Z) : outcome ps_error RaftApplyState :=
  if bool_decide (compactIndex ≤ Trunc_Index (TruncatedState st)) then Err ErrTruncateCompacted
  else if bool_decide (compactIndex > AppliedIndex st) then Err ErrCompactNotApplied
  else Ok (mkApplyState (AppliedIndex st) (mkTruncated compactIndex compactTerm)).

(** [doRaftLogGC]: delete the entries of [[startIndex, endIndex)]. *)
Definition doRaftLogGC (cellID startIndex endIndex : Z) (e : E) : outcome ps_error E :=
  let! firstIndex :=
    (if bool_decide (startIndex = 0) then
       match Engine_Seek (getRaftLogKey cellID 0) e with
       | None => Ok endIndex
       | Some (key, _) => match getRaftLogIndex key with Ok i => Ok i | Err _ => Err ErrNotFound | Panic => Panic end
       end
     else Ok startIndex) in
  if bool_decide (endIndex ≤ firstIndex) then Ok e
  else Ok (Write ((λ i, BDelete (getRaftLogKey cellID i)) <$> seqZ firstIndex (endIndex - firstIndex)) e).

(** ** The abstract log: a compacted prefix and the entries after it *)
Record alog := mkLog { base_index : Z; base_term : Z; log_entries : list Entry }.
Definition last_index (L : alog) : Z := base_index L + Z.of_nat (length (log_entries L)).
Definition last_term (L : alog) : Z := from_option E_Term (base_term L) (last (log_entries L)).
Definition log_at (L : alog) (i : Z) : option Entry :=
  if bool_decide (base_index L < i) then log_entries L !! Z.to_nat (i - base_index L - 1) else None.
Definition slice (L : alog) (low high : Z) : list Entry :=
  take (Z.to_nat (high - low)) (drop (Z.to_nat (low - base_index L - 1)) (log_entries L)).

(** Consecutive indices, terms that never decrease, indices below the top. *)
Record log_ok (L : alog) : Prop := {
  lo_base : 0 ≤ base_index L;
  lo_last : last_index L + 1 < two64;
  lo_index j ent : log_entries L !! j = Some ent → E_Index ent = base_index L + 1 + Z.of_nat j;
  lo_terms : StronglySorted Z.le (base_term L :: (E_Term <$> log_entries L));
}.

(** Every key of the engine is a key a store writes. *)
Definition store_keys_only (e : E) : Prop :=
  ∀ k, is_Some (eng_map e !! k) → ∃ sk, key_ok sk ∧ encode_key sk = k.

(** [ps] and the engine [e] represent the log [L]. *)
Record rep (ps : peerStorage) (e : E) (L : alog) : Prop := {
  rp_wf : eng_wf e;
  rp_keys : store_keys_only e;
  rp_id : is_u64 (Cell_ID (ps_cell ps));
  rp_log : log_ok L;
  rp_trunc : TruncatedState (applyState ps) = mkTruncated (base_index L) (base_term L);
  rp_last : LastIndex ps = last_index L;
  rp_term : lastTerm ps = last_term L;
  rp_entries i : base_index L < i → is_u64 i →
    eng_map e !! getRaftLogKey (Cell_ID (ps_cell ps)) i = VEntry <$> log_at L i;
}.

(** What [raft]'s [limitSize] keeps: the first entry, and as many more as fit. *)
Fixpoint fit (maxSize total : Z) (l : list Entry) : list Entry :=
  match l with
  | [] => []
  | e :: l' => if bool_decide (total + esize e > maxSize) then [] else e :: fit maxSize (total + esize e) l'
  end.
Definition limitSize (maxSize : Z) (l : list Entry) : list Entry :=
  match l with
  | [] => []
  | e :: l' => e :: if bool_decide (esize e > maxSize) then [] else fit maxSize (esize e) l'
  end.
Definition total_size (l : list Entry) : Z := foldr (λ e n, esize e + n) 0 l.

Lemma log_at_Some L i ent : log_at L i = Some ent → base_index L < i ≤ last_index L.
Proof.
  unfold log_at, last_index. case_bool_decide; [|done]. intros ?%lookup_lt_Some. lia.
Qed.
Lemma log_at_is_Some L i : base_index L < i ≤ last_index L → is_Some (log_at L i).
Proof.
  intros H. unfold log_at, last_index in *. rewrite bool_decide_eq_true_2 by lia. apply lookup_lt_is_Some_2. lia.
Qed.
Lemma log_at_index L i ent : log_ok L → log_at L i = Some ent → E_Index ent = i.
Proof.
  intros HL. unfold log_at. case_bool_decide; [|done]. intros ->%(lo_index _ HL). lia.
Qed.

Lemma last_lookup_term L : last_index L ≠ base_index L → log_at L (last_index L) = last (log_entries L).
Proof.
  intros H. unfold log_at, last_index in *. rewrite bool_decide_eq_true_2 by lia.
  rewrite last_lookup. f_equal. lia.
Qed.

(** Terms of the log lie between the term of the base and the last term. *)
Lemma log_terms_between L i ent : log_ok L → log_at L i = Some ent → base_term L ≤ E_Term ent ≤ last_term L.
Proof.
  intros HL Hat. pose proof (lo_terms _ HL) as Hs. unfold log_at in Hat. case_bool_decide; [|done].
  apply StronglySorted_inv in Hs as [Hs HF]. rewrite Forall_fmap, Forall_forall in HF. split.
  - apply HF. by eapply list_elem_of_lookup_2.
  - unfold last_term. destruct (last (log_entries L)) as [le|] eqn:El; simpl.
    + apply last_Some in El as [l' El]. rewrite El in Hs, Hat. rewrite fmap_app in Hs.
      apply lookup_app_Some in Hat as [Hat|[_ Hat]].
      * apply (StronglySorted_app_1_elem_of _ _ _ (E_Term ent) (E_Term le) Hs); [|left].
        apply list_elem_of_fmap_2. by eapply list_elem_of_lookup_2.
      * apply list_lookup_singleton_Some in Hat as [_ <-]. lia.
    + apply last_None in El. rewrite El in Hat. done.
Qed.

(** ** Reading *)
Lemma keys_sorted_ext (l1 l2 : list (bytes * value)) : keys_sorted l1 → keys_sorted l2 →
  (∀ k v, (k, v) ∈ l1 ↔ (k, v) ∈ l2) → l1 = l2.
Proof.
  unfold keys_sorted. intros H1 H2 Heq.
  assert (∀ l : list (bytes * value), StronglySorted blt l.*1 → StronglySorted (λ x y, blt x.1 y.1) l ∧ NoDup l) as Hs.
  { intros l. induction l as [|x l IH]; simpl; [split; constructor|].
    intros [Hs HF]%StronglySorted_inv. destruct (IH Hs) as [? ?]. rewrite Forall_fmap in HF.
    split; [by constructor|]. constructor; [|done]. intros Hin. rewrite Forall_forall in HF.
    by apply (blt_irrefl x.1), HF. }
  destruct (Hs l1 H1) as [S1 N1], (Hs l2 H2) as [S2 N2].
  apply (StronglySorted_unique_strong (λ x y, blt x.1 y.1)); [|done|done|].
  - intros x1 x2 _ _ H H'. exfalso. apply (blt_irrefl x1.1). border.
  - apply NoDup_Permutation; [done|done|]. intros [k v]. apply Heq.
Qed.

Definition log_pair (id : Z) (ent : Entry) : bytes * value := (getRaftLogKey id (E_Index ent), VEntry ent).

Lemma slice_lookup L low high j ent : log_ok L → base_index L < low →
  slice L low high !! j = Some ent → E_Index ent = low + Z.of_nat j ∧ low + Z.of_nat j < high ∧ log_at L (low + Z.of_nat j) = Some ent.
Proof.
  intros HL Hlow. unfold slice. rewrite lookup_take_Some, lookup_drop. intros [Hl Hj].
  pose proof (lo_index _ HL _ _ Hl) as Hi. split; [lia|]. split; [lia|].
  unfold log_at. rewrite bool_decide_eq_true_2 by lia. rewrite <-Hl. f_equal. lia.
Qed.

Lemma slice_elem L low high ent : log_ok L → base_index L < low →
  ent ∈ slice L low high ↔ low ≤ E_Index ent < high ∧ log_at L (E_Index ent) = Some ent.
Proof.
  intros HL Hlow. rewrite list_elem_of_lookup. split.
  - intros [j Hj]. destruct (slice_lookup _ _ _ _ _ HL Hlow Hj) as (-> & ? & ?). split; [lia|done].
  - intros [Hi Hat]. exists (Z.to_nat (E_Index ent - low)). unfold slice.
    rewrite lookup_take_Some, lookup_drop. split; [|lia].
    unfold log_at in Hat. rewrite bool_decide_eq_true_2 in Hat by lia. rewrite <-Hat. f_equal. lia.
Qed.

Lemma slice_length L low high : base_index L < low ≤ high → high ≤ last_index L + 1 →
  Z.of_nat (length (slice L low high)) = high - low.
Proof. unfold slice, last_index. intros H1 H2. rewrite length_take, length_drop. lia. Qed.

Lemma slice_sorted L low high : log_ok L → base_index L < low →
  StronglySorted (λ x y, E_Index x < E_Index y) (slice L low high).
Proof.
  intros HL Hlow. apply StronglySorted_of_lookup. intros i j x y Hi Hj Hij.
  destruct (slice_lookup _ _ _ _ _ HL Hlow Hi) as (-> & _), (slice_lookup _ _ _ _ _ HL Hlow Hj) as (-> & _). lia.
Qed.

(** The end of a scan of the log up to the key of [high]. *)
Definition scan_end (high : Z) : Z := if scan_includes_end then high + 1 else high.

Lemma log_key_below_end id n high : is_u64 n → is_u64 high →
  below_end scan_includes_end (getRaftLogKey id n) (getRaftLogKey id high) ↔ n < scan_end high.
Proof.
  intros Hn Hh. unfold below_end, scan_end. destruct scan_includes_end; [|by apply getRaftLogKey_lt].
  rewrite ble_lteq, (getRaftLogKey_lt id n high) by done. split; [|intros].
  - intros [?|Heq]; [lia|]. destruct (decide (high < n)) as [Hlt|]; [|lia].
    apply (getRaftLogKey_lt id) in Hlt; [|done..]. rewrite Heq in Hlt. by apply blt_irrefl in Hlt.
  - destruct (decide (n = high)) as [->|]; [by right|left; lia].
Qed.

Lemma scan_log ps e L low high : rep ps e L →
  base_index L < low → low < high → high ≤ last_index L + 1 →
  Engine_Scan (getRaftLogKey (Cell_ID (ps_cell ps)) low) (getRaftLogKey (Cell_ID (ps_cell ps)) high) e =
  log_pair (Cell_ID (ps_cell ps)) <$> slice L low (scan_end high).
Proof.
  intros R Hlow Hlh Hhigh. set (id := Cell_ID (ps_cell ps)).
  pose proof (rp_log _ _ _ R) as HL. pose proof (lo_base _ HL). pose proof (lo_last _ HL). pose proof (rp_id _ _ _ R) as Hid.
  assert (high ≤ scan_end high ≤ high + 1) as Hse by (unfold scan_end; destruct scan_includes_end; lia).
  assert (∀ i, low ≤ i ≤ high → is_u64 i) as Hu by (unfold is_u64; lia).
  apply keys_sorted_ext.
  - apply eng_scan_sorted, R.
  - unfold keys_sorted. rewrite <-list_fmap_compose. apply StronglySorted_fmap.
    eapply StronglySorted_impl_in; [|by apply slice_sorted]. simpl. intros x y [Hx _]%slice_elem [Hy _]%slice_elem Hxy; try done.
    apply getRaftLogKey_lt; [apply Hu; lia..|done].
  - intros k v. rewrite eng_scan_elem by apply R. rewrite list_elem_of_fmap. split.
    + intros (Hk & Hs & Ht). destruct (rp_keys _ _ _ R k) as (sk & Hok & <-); [eauto|].
      assert (∃ n, sk = KRaftLog id n) as [n ->].
      { assert (blt (encode_key sk) (getRaftLogKey id high) ∨ encode_key sk = getRaftLogKey id high) as [Hlt|Heq].
        { unfold below_end in Ht. destruct scan_includes_end; [by apply ble_lteq|by left]. }
        - by apply (store_key_between_logs id low high).
        - exists high. apply encode_key_injective; [done| |done]. split; [done|apply Hu; lia]. }
      simpl in *. destruct Hok as [_ Hn]. apply log_key_below_end in Ht; [|done|apply Hu; lia].
      assert (low ≤ n) as Hln.
      { destruct (decide (n < low)) as [Hlt|]; [|lia]. exfalso.
        apply (getRaftLogKey_lt id) in Hlt; [|done|apply Hu; lia]. fold id in Hs. border. }
      fold id in Hk. rewrite (rp_entries _ _ _ R) in Hk by (done || lia).
      apply fmap_Some in Hk as (ent & Hat & ->). exists ent. pose proof (log_at_index _ _ _ HL Hat) as Hi.
      unfold log_pair. rewrite Hi. split; [done|]. apply slice_elem; [done|done|]. rewrite Hi. split; [lia|done].
    + intros (ent & [= -> ->] & [Hi Hat]%slice_elem); [|done|done].
      fold id. rewrite (rp_entries _ _ _ R) by (lia || apply Hu; lia). rewrite Hat. split; [done|]. split.
      * destruct (decide (E_Index ent = low)) as [->|]; [border|].
        assert (blt (getRaftLogKey id low) (getRaftLogKey id (E_Index ent))); [|border].
        apply getRaftLogKey_lt; [apply Hu; lia..|lia].
      * apply log_key_below_end; [apply Hu; lia..|lia].
Qed.

Hypothesis esize_nonneg : ∀ ent, 0 ≤ esize ent.

Lemma total_size_nonneg l : 0 ≤ total_size l.
Proof. induction l as [|ent l IH]; simpl; [lia|]. pose proof (esize_nonneg ent). lia. Qed.

(** Entries numbered from [i] on. *)
Definition numbered (i : Z) (l : list Entry) : Prop := ∀ j ent, l !! j = Some ent → E_Index ent = i + Z.of_nat j.
Lemma numbered_cons i ent l : numbered i (ent :: l) ↔ E_Index ent = i ∧ numbered (i + 1) l.
Proof.
  unfold numbered. split.
  - intros H. split; [rewrite (H 0%nat ent) by done; lia|]. intros j x Hj. rewrite (H (S j) x) by done. lia.
  - intros [H1 H2] [|j] x Hj; simpl in Hj; simplify_eq; [lia|]. rewrite (H2 j x) by done. lia.
Qed.

Lemma run_entries_fit id maxSize l : ∀ acc next total,
  acc ≠ [] → numbered next l → 0 ≤ total ≤ maxSize → total + total_size l < two64 →
  0 ≤ next → next + Z.of_nat (length l) < two64 →
  ∃ next' total', run_handler (entries_handler maxSize) (mkAcc acc next total false) (log_pair id <$> l) =
    Ok (mkAcc (acc ++ fit maxSize total l) next' total' (bool_decide (length (fit maxSize total l) ≠ length l))).
Proof.
  induction l as [|ent l IH]; intros acc next total Hacc Hnum Htot Hsz Hn0 Hn; simpl in *.
  { exists next, total. by rewrite app_nil_r. }
  apply numbered_cons in Hnum as [Hi Hnum]. pose proof (esize_nonneg ent). pose proof (total_size_nonneg l).
  rewrite Hi, (bool_decide_eq_true_2 (next = next)) by done. simpl.
  rewrite u64_small by (unfold is_u64; lia).
  case_bool_decide as Hex; simpl.
  - rewrite (bool_decide_eq_false_2 (length acc = 0%nat)) by (by intros ?%length_zero_iff_nil). simpl.
    eexists _, _. rewrite app_nil_r. do 2 f_equal.
  - rewrite u64_small by (unfold is_u64; lia).
    destruct (IH (acc ++ [ent]) (next + 1) (total + esize ent)) as (n' & t' & Heq); [by destruct acc|done|lia|lia|lia|lia|].
    exists n', t'. etransitivity; [exact Heq|]. rewrite <-app_assoc. simpl. do 2 f_equal. apply bool_decide_ext. lia.
Qed.

Lemma fit_all maxSize l : ∀ total, total + total_size l ≤ maxSize → fit maxSize total l = l.
Proof.
  induction l as [|ent l IH]; intros total H; simpl in *; [done|]. pose proof (total_size_nonneg l).
  rewrite bool_decide_eq_false_2 by lia. f_equal. apply IH. lia.
Qed.

Lemma run_entries id maxSize next l :
  numbered next l → 0 ≤ maxSize → total_size l < two64 → 0 ≤ next → next + Z.of_nat (length l) < two64 →
  ∃ next' total' ex, run_handler (entries_handler maxSize) (mkAcc [] next 0 false) (log_pair id <$> l) =
    Ok (mkAcc (limitSize maxSize l) next' total' ex) ∧
    (length (limitSize maxSize l) ≠ length l → ex = true) ∧ (total_size l ≤ maxSize → ex = false ∧ limitSize maxSize l = l).
Proof.
  destruct l as [|ent l]; intros Hnum Hmax Hsz Hn0 Hn; simpl in *; [by eexists _, _, _|].
  apply numbered_cons in Hnum as [Hi Hnum]. pose proof (esize_nonneg ent). pose proof (total_size_nonneg l).
  rewrite Hi, (bool_decide_eq_true_2 (next = next)) by done. simpl.
  rewrite u64_small, Z.add_0_l by (unfold is_u64; lia). case_bool_decide as Hex; simpl.
  - eexists _, _, _. split; [reflexivity|]. split; [done|]. lia.
  - rewrite u64_small by (unfold is_u64; lia).
    destruct (run_entries_fit id maxSize l [ent] (next + 1) (esize ent)) as (n' & t' & Heq); [done|done|lia|lia|lia|lia|].
    eexists _, _, _. split; [exact Heq|]. split; [intros Hl; apply bool_decide_eq_true; lia|].
    intros Hfit. rewrite fit_all by lia. split; [apply bool_decide_eq_false; tauto|done].
Qed.

Lemma checkRange_spec ps L low high : log_ok L →
  TruncatedState (applyState ps) = mkTruncated (base_index L) (base_term L) → LastIndex ps = last_index L →
  checkRange ps low high =
  if bool_decide (low > high) then Err ErrLowGreaterHigh
  else if bool_decide (low ≤ base_index L) then Err ErrCompacted
  else if bool_decide (high > last_index L + 1) then Err ErrOutOfBound else Ok tt.
Proof.
  intros HL Ht Hl. unfold checkRange, getTruncatedIndex. rewrite Ht, Hl. simpl.
  pose proof (lo_base _ HL). pose proof (lo_last _ HL). rewrite u64_small; [done|].
  unfold is_u64, last_index in *. lia.
Qed.

Lemma get_log ps e L i : rep ps e L → base_index L < i → is_u64 i →
  Engine_Get (getRaftLogKey (Cell_ID (ps_cell ps)) i) e = VEntry <$> log_at L i.
Proof. intros R Hi Hu. rewrite eng_get_map by apply R. by apply R. Qed.

Lemma Term_spec ps e L i : rep ps e L → 0 ≤ i → i + 1 < two64 →
  Term ps i e =
  if bool_decide (i < base_index L) then Err ErrCompacted
  else if bool_decide (i > last_index L) then Err ErrOutOfBound
  else Ok (from_option E_Term (base_term L) (log_at L i)).
Proof.
  intros R Hi Hi'. pose proof (rp_log _ _ _ R) as HL. pose proof (lo_base _ HL). pose proof (lo_last _ HL).
  assert (base_index L ≤ last_index L) as Hbl by (unfold last_index; lia).
  unfold Term, getTruncatedIndex, getTruncatedTerm. rewrite (rp_trunc _ _ _ R). simpl.
  destruct (decide (i = base_index L)) as [->|Hne].
  { rewrite bool_decide_eq_true_2, !bool_decide_eq_false_2 by lia. unfold log_at. by rewrite bool_decide_eq_false_2 by lia. }
  rewrite bool_decide_eq_false_2 by done.
  rewrite (checkRange_spec ps L) by (done || apply R). rewrite u64_small by (unfold is_u64; lia).
  rewrite (bool_decide_eq_false_2 (i > i + 1)) by lia.
  rewrite (bool_decide_ext (i ≤ base_index L) (i < base_index L)), (bool_decide_ext (i + 1 > last_index L + 1) (i > last_index L)) by lia.
  case_bool_decide as H1; [done|]. case_bool_decide as H2; [done|]. simpl.
  destruct (log_at_is_Some L i) as [ent Hat]; [lia|]. rewrite Hat. simpl.
  pose proof (log_terms_between _ _ _ HL Hat) as Hb. rewrite (rp_term _ _ _ R), (rp_last _ _ _ R).
  destruct (bool_decide (base_term L = last_term L)) eqn:Eb; simpl.
  { apply bool_decide_eq_true in Eb. f_equal. lia. }
  clear Eb. case_bool_decide as Ei.
  - f_equal. subst i. rewrite last_lookup_term in Hat by lia. unfold last_term. by rewrite Hat.
  - rewrite (get_log ps e L) by (done || lia || (unfold is_u64; lia)). rewrite Hat. simpl.
    rewrite (log_at_index _ _ _ HL Hat), bool_decide_eq_true_2 by done. done.
Qed.

Lemma total_size_app l1 l2 : total_size (l1 ++ l2) = total_size l1 + total_size l2.
Proof. induction l1 as [|x l1 IH]; simpl; [lia|]. unfold total_size in *. simpl. lia. Qed.
Lemma fit_snoc maxSize x : ∀ l total, maxSize < total + total_size (l ++ [x]) → fit maxSize total (l ++ [x]) = fit maxSize total l.
Proof.
  induction l as [|y l IH]; intros total Hm; simpl in *; [by rewrite bool_decide_eq_true_2 by lia|].
  case_bool_decide; [done|]. f_equal. apply IH. lia.
Qed.
Lemma fit_shorter maxSize l : ∀ total, l ≠ [] → maxSize < total + total_size l → (length (fit maxSize total l) < length l)%nat.
Proof.
  induction l as [|y l IH]; intros total Hne Hm; simpl in *; [done|]. case_bool_decide; simpl; [lia|].
  destruct l as [|z l]; [simpl in Hm; lia|]. specialize (IH (total + esize y) ltac:(done)). simpl in *. lia.
Qed.
(** One entry too many is cut off when the size limit is exceeded with it. *)
Lemma limitSize_snoc maxSize x l : l ≠ [] → maxSize < total_size (l ++ [x]) →
  limitSize maxSize (l ++ [x]) = limitSize maxSize l ∧ length (limitSize maxSize (l ++ [x])) ≠ length (l ++ [x]).
Proof.
  intros Hne Hm. destruct l as [|y l]; [done|]. simpl in *. case_bool_decide.
  - split; [done|]. rewrite length_app. simpl. lia.
  - rewrite fit_snoc by lia. split; [done|]. pose proof (fit_shorter maxSize (l ++ [x]) (esize y) ltac:(by destruct l) Hm) as Hs.
    rewrite fit_snoc in Hs by lia. lia.
Qed.
Lemma slice_snoc L low high : base_index L < low ≤ high → high ≤ last_index L → ∃ ent, slice L low (high + 1) = slice L low high ++ [ent].
Proof.
  intros H1 H2. unfold slice, last_index in *. replace (Z.to_nat (high + 1 - low)) with (S (Z.to_nat (high - low))) by lia.
  destruct (drop (Z.to_nat (low - base_index L - 1)) (log_entries L) !! Z.to_nat (high - low)) as [ent|] eqn:Eat.
  - exists ent. by apply take_S_r.
  - apply lookup_ge_None in Eat. rewrite length_drop in Eat. lia.
Qed.
Lemma slice_past L low : base_index L < low → slice L low (last_index L + 1 + 1) = slice L low (last_index L + 1).
Proof. intros H. unfold slice, last_index. rewrite !take_ge; [done|rewrite length_drop; lia..]. Qed.

(** An engine whose [Scan] includes the end offers the entry after a range too. *)
Definition one_too_many (L : alog) (low high maxSize : Z) : bool :=
  @scan_includes_end value E _ && bool_decide (low + 1 < high) && bool_decide (high ≤ last_index L) && bool_decide (total_size (slice L low (high + 1)) ≤ maxSize).
Lemma Entries_spec ps e L low high maxSize : rep ps e L →
  0 ≤ low → 0 ≤ maxSize → total_size (slice L low (high + 1)) < two64 →
  Entries ps low high maxSize e =
  if bool_decide (low > high) then Err ErrLowGreaterHigh
  else if bool_decide (low ≤ base_index L) then Err ErrCompacted
  else if bool_decide (high > last_index L + 1) then Err ErrOutOfBound
  else if one_too_many L low high maxSize then Err ErrUnavailable
  else Ok (limitSize maxSize (slice L low high)).
Proof.
  intros R Hlow Hmax Hsz. pose proof (rp_log _ _ _ R) as HL. pose proof (lo_base _ HL). pose proof (lo_last _ HL).
  unfold Entries. rewrite (checkRange_spec ps L) by (done || apply R).
  case_bool_decide as H1; [done|]. case_bool_decide as H2; [done|]. case_bool_decide as H3; [done|]. simpl.
  pose proof (slice_length L low high ltac:(lia) ltac:(lia)) as Hlen. unfold one_too_many.
  case_bool_decide as E1.
  { subst high. rewrite (bool_decide_eq_false_2 (low + 1 < low)), andb_false_r by lia. replace (low - low) with 0 in Hlen by lia. destruct (slice L low low); [done|simpl in Hlen; lia]. }
  rewrite u64_small by (unfold is_u64; lia). case_bool_decide as E2.
  { rewrite (bool_decide_eq_false_2 (low + 1 < high)), andb_false_r by lia. destruct (log_at_is_Some L low) as [ent Hat]; [lia|].
    rewrite (get_log ps e L) by (done || lia || (unfold is_u64; lia)). rewrite Hat. simpl.
    rewrite (log_at_index _ _ _ HL Hat), bool_decide_eq_true_2 by done. simpl.
    assert (slice L low high = [ent]) as ->.
    { unfold log_at in Hat. rewrite bool_decide_eq_true_2 in Hat by lia. unfold slice.
      replace (Z.to_nat (high - low)) with 1%nat by lia.
      rewrite (drop_S _ _ _ Hat). done. }
    simpl. by destruct (bool_decide (esize ent > maxSize)). }
  rewrite (bool_decide_eq_true_2 (low + 1 < high)) by lia. rewrite (scan_log ps e L) by (done || lia).
  assert (∀ hi, (hi = high ∨ hi = high + 1) → numbered low (slice L low hi)) as Hnum by (intros hi _ j ent Hj; by eapply slice_lookup; [| |exact Hj]; [done|lia]).
  assert (total_size (slice L low high) ≤ total_size (slice L low (high + 1))) as Hle.
  { destruct (decide (high ≤ last_index L)) as [Hh|Hh].
    - destruct (slice_snoc L low high) as [ent ->]; [lia|done|]. rewrite total_size_app. pose proof (total_size_nonneg [ent]). lia.
    - replace high with (last_index L + 1) by lia. rewrite slice_past by lia. done. }
  assert (slice L low (scan_end high) = slice L low high ∧ (@scan_includes_end value E _ && true && bool_decide (high ≤ last_index L) = false) ∨
    scan_end high = high + 1 ∧ @scan_includes_end value E _ = true ∧ high ≤ last_index L) as [[Hsame Hno]|(Hse & Hinc & Hhl)].
  { unfold scan_end. destruct scan_includes_end; [|by left]. case_bool_decide; [by right|]. left. split; [|done].
    replace high with (last_index L + 1) by lia. apply slice_past. lia. }
  - rewrite Hsame, Hno. destruct (run_entries (Cell_ID (ps_cell ps)) maxSize low (slice L low high)) as (n' & t' & ex & Heq & Hex & _); try (done || lia); [by apply Hnum; left|].
    rewrite Heq. simpl. rewrite u64_small by (unfold is_u64; lia).
    destruct (decide (length (limitSize maxSize (slice L low high)) = length (slice L low high))) as [Hl|Hl].
    + rewrite bool_decide_eq_true_2 by lia. done.
    + rewrite Hex, orb_true_r by done. done.
  - rewrite Hse, Hinc, (bool_decide_eq_true_2 (high ≤ _)) by done. simpl. pose proof (slice_length L low (high + 1) ltac:(lia) ltac:(lia)) as Hlen'.
    destruct (run_entries (Cell_ID (ps_cell ps)) maxSize low (slice L low (high + 1))) as (n' & t' & ex & Heq & Hex & Hfit); try (done || lia); [by apply Hnum; right|].
    rewrite Heq. simpl. rewrite u64_small by (unfold is_u64; lia). destruct (bool_decide_reflect (total_size (slice L low (high + 1)) ≤ maxSize)) as [Hall|Hall].
    + destruct (Hfit Hall) as [-> ->]. by rewrite bool_decide_eq_false_2 by lia.
    + destruct (slice_snoc L low high) as [ent Hs]; [lia|done|]. rewrite Hs in Hex, Hall |- *.
      destruct (limitSize_snoc maxSize ent (slice L low high)) as [Hlim Hne]; [intros E0; rewrite E0 in Hlen; simpl in Hlen; lia|lia|].
      rewrite Hex, orb_true_r by done. by rewrite Hlim.
Qed.

(** ** Writing *)
Definition op_key (o : batch_op value) : bytes := match o with BSet k _ => k | BDelete k => k end.

Lemma map_write_other (wb : writeBatch value) (m : gmap bytes value) k : k ∉ (op_key <$> wb) → map_write wb m !! k = m !! k.
Proof.
  revert m; induction wb as [|o wb IH]; intros m Hk; [done|]. simpl in *. apply not_elem_of_cons in Hk as [Ho Hk].
  rewrite IH by done. destruct o; simpl in *; [by rewrite lookup_insert_ne|by rewrite lookup_delete_ne].
Qed.

Lemma map_write_keys (wb : writeBatch value) (m : gmap bytes value) k : is_Some (map_write wb m !! k) →
  is_Some (m !! k) ∨ ∃ v, BSet k v ∈ wb.
Proof.
  revert m; induction wb as [|o wb IH]; intros m Hk; [by left|]. simpl in Hk. apply IH in Hk as [Hk|[v Hv]].
  - destruct o as [k' v'|k']; simpl in Hk.
    + apply lookup_insert_is_Some' in Hk as [->|Hk]; [right|by left]. exists v'. left.
    + apply lookup_delete_is_Some in Hk as [_ Hk]. by left.
  - right. exists v. by right.
Qed.

Lemma map_write_deletes (ks : list bytes) (m : gmap bytes value) k :
  map_write (BDelete <$> ks) m !! k = if bool_decide (k ∈ ks) then None else m !! k.
Proof.
  revert m; induction ks as [|k' ks IH]; intros m; simpl; [done|]. rewrite IH.
  destruct (decide (k ∈ ks)) as [Hk|Hk].
  { rewrite !bool_decide_eq_true_2; [done|by right|done]. }
  rewrite (bool_decide_eq_false_2 (k ∈ ks)) by done. destruct (decide (k = k')) as [->|Hne].
  - rewrite bool_decide_eq_true_2 by left. by rewrite lookup_delete_eq.
  - rewrite bool_decide_eq_false_2 by (rewrite elem_of_cons; tauto). by rewrite lookup_delete_ne.
Qed.

Lemma map_write_delete_by {A} (f : A → bytes) (l : list A) (m : gmap bytes value) k :
  map_write ((λ x, BDelete (f x)) <$> l) m !! k = if bool_decide (k ∈ f <$> l) then None else m !! k.
Proof. by rewrite <-map_write_deletes, <-list_fmap_compose. Qed.

Lemma map_write_entries id l : ∀ (m : gmap bytes value) first i,
  is_u64 id → numbered first l → 0 ≤ first → first + Z.of_nat (length l) ≤ two64 → is_u64 i →
  map_write ((λ ent, BSet (getRaftLogKey id (E_Index ent)) (VEntry ent)) <$> l) m !! getRaftLogKey id i =
  if bool_decide (first ≤ i < first + Z.of_nat (length l)) then VEntry <$> l !! Z.to_nat (i - first)
  else m !! getRaftLogKey id i.
Proof.
  induction l as [|ent l IH]; intros m first i Hid Hnum H0 Hlen Hi; simpl.
  { by rewrite bool_decide_eq_false_2 by lia. }
  apply numbered_cons in Hnum as [He Hnum]. simpl in Hlen. rewrite (IH _ (first + 1)) by (done || lia). rewrite He.
  destruct (decide (i = first)) as [->|Hne].
  - rewrite (bool_decide_eq_false_2 (first + 1 ≤ first < _)), (bool_decide_eq_true_2 (first ≤ first < _)) by lia.
    rewrite lookup_insert_eq. by replace (Z.to_nat (first - first)) with 0%nat by lia.
  - rewrite (bool_decide_ext (first + 1 ≤ i < first + 1 + Z.of_nat (length l)) (first ≤ i < first + Z.of_nat (S (length l)))) by lia.
    case_bool_decide as Hb.
    + by replace (Z.to_nat (i - first)) with (S (Z.to_nat (i - (first + 1)))) by lia.
    + rewrite lookup_insert_ne; [done|]. intros [_ ?]%getRaftLogKey_inj; [lia|done|done| |done]. unfold is_u64. lia.
Qed.

(** What raft asks for in a [Ready], on the abstract log. *)
Definition append_log (L : alog) (l : list Entry) : alog :=
  match l with
  | [] => L
  | ent :: _ => mkLog (base_index L) (base_term L) (take (Z.to_nat (E_Index ent - base_index L - 1)) (log_entries L) ++ l)
  end.
Definition snapshot_log (L : alog) (rd : Ready) : alog :=
  match rd_Snapshot rd with Some s => mkLog (Snap_Index s) (Snap_Term s) [] | None => L end.
Definition ready_log (L : alog) (rd : Ready) : alog := append_log (snapshot_log L rd) (rd_Entries rd).

(** The log keys of a map above a base. *)
Definition log_map (id : Z) (m : gmap bytes value) (L : alog) : Prop :=
  ∀ i, base_index L < i → is_u64 i → m !! getRaftLogKey id i = VEntry <$> log_at L i.

Lemma append_last_index L ent l : base_index L < E_Index ent ≤ last_index L + 1 →
  last_index (append_log L (ent :: l)) = E_Index ent + Z.of_nat (length l).
Proof. unfold last_index, append_log; simpl. intros H. rewrite length_app, length_take. simpl. lia. Qed.

Lemma log_map_append id m L l :
  is_u64 id → log_map id m L → log_ok (append_log L l) → 0 ≤ base_index L → last_index L + 1 < two64 →
  (∀ ent, head l = Some ent → base_index L < E_Index ent ≤ last_index L + 1) →
  match last l with
  | None => log_map id m (append_log L l)
  | Some le =>
      log_map id (map_write (((λ e, BSet (getRaftLogKey id (E_Index e)) (VEntry e)) <$> l) ++
        ((λ i, BDelete (getRaftLogKey id i)) <$> seqZ (E_Index le + 1) (last_index L - E_Index le))) m) (append_log L l) ∧
      E_Index le = last_index (append_log L l) ∧ E_Term le = last_term (append_log L l)
  end.
Proof.
  intros Hid Hm HL' Hb Hlast Hhd. destruct l as [|ent l]; [done|]. specialize (Hhd ent eq_refl).
  destruct (last (ent :: l)) as [le|] eqn:Ele; [|by apply last_None in Ele].
  pose proof (append_last_index L ent l Hhd) as Hli.
  assert (numbered (E_Index ent) (ent :: l)) as Hnum.
  { intros j x Hj. pose proof (lo_index _ HL' (length (take (Z.to_nat (E_Index ent - base_index L - 1)) (log_entries L)) + j) x) as Hx.
    simpl in Hx. rewrite lookup_app_r, Nat.add_comm, Nat.add_sub in Hx by lia. rewrite (Hx Hj), length_take.
    unfold last_index in Hhd. lia. }
  assert (E_Index le = E_Index ent + Z.of_nat (length l)) as Hle.
  { rewrite last_lookup in Ele. apply Hnum in Ele. simpl in Ele. lia. }
  split_and!; [|lia|unfold last_term; simpl; by rewrite last_app_cons, Ele].
  intros i Hi Hu. pose proof (lo_last _ HL') as Hll. rewrite Hli in Hll. simpl in Hi.
  rewrite map_write_app, map_write_delete_by.
  rewrite (bool_decide_ext _ (last_index (append_log L (ent :: l)) < i ≤ last_index L)).
  2:{ rewrite list_elem_of_fmap. setoid_rewrite elem_of_seqZ. split.
      - intros (j & Hj & Hr). apply getRaftLogKey_inj in Hj as [_ ->]; [lia|done|done|done|unfold is_u64; lia].
      - intros ?. exists i. split; [done|lia]. }
  case_bool_decide as Hdel.
  { symmetry. destruct (log_at (append_log L (ent :: l)) i) eqn:Eat; [|done]. apply log_at_Some in Eat. lia. }
  rewrite (map_write_entries id (ent :: l) m (E_Index ent)) by (done || simpl; lia).
  unfold log_at at 1; cbn [append_log base_index log_entries]. rewrite (bool_decide_eq_true_2 (base_index L < i)) by lia.
  case_bool_decide as Hin.
  - rewrite lookup_app_r; rewrite length_take; unfold last_index in Hhd; [|lia]. do 2 f_equal. lia.
  - simpl in Hin. destruct (decide (i < E_Index ent)) as [Hlt|Hge].
    + rewrite Hm by done. unfold log_at. rewrite bool_decide_eq_true_2 by lia.
      rewrite lookup_app_l by (rewrite length_take; unfold last_index in Hhd; lia).
      rewrite lookup_take_lt by lia. done.
    + rewrite Hm by done. destruct (log_at L i) eqn:Eat; [apply log_at_Some in Eat; lia|].
      rewrite lookup_ge_None_2; [done|]. rewrite length_app, length_take. simpl. unfold last_index in Hhd. lia.
Qed.

(** [clearMeta] deletes every key under the cell's raft prefix. *)
Lemma clearMeta_raft_keys id e rest : eng_wf e → is_u64 id → id + 1 < two64 →
  map_write (clearMeta id [] e) (eng_map e) !! (cellRaftPrefixKey ++ PutUint64 id ++ rest) = None.
Proof.
  intros Hwf Hid Hid1. unfold clearMeta. simpl. rewrite map_write_app, !map_write_delete_by.
  case_bool_decide as Hin; [done|]. case_bool_decide as Hin'; [done|].
  apply eq_None_not_Some. intros [v Hv]. apply Hin. apply list_elem_of_fmap.
  exists (cellRaftPrefixKey ++ PutUint64 id ++ rest, v). split; [reflexivity|].
  apply eng_scan_elem; [done|]. split; [done|]. rewrite u64_small by (unfold is_u64 in *; lia). split.
  - unfold getCellRaftPrefix. apply ble_lteq. destruct rest as [|b rest]; [right; by rewrite app_nil_r|left].
    rewrite <-(app_nil_r (PutUint64 id)) at 1. rewrite !blt_app. done.
  - assert (blt (cellRaftPrefixKey ++ PutUint64 id ++ rest) (getCellRaftPrefix (id + 1))) as Hlt.
    { unfold getCellRaftPrefix. rewrite blt_app, <-(app_nil_r (PutUint64 (id + 1))).
      apply blt_app_prefix; [by rewrite !length_PutUint64|]. apply PutUint64_lt; [done|unfold is_u64 in *; lia|lia]. }
    unfold below_end. destruct scan_includes_end; border.
Qed.

Lemma clearMeta_sets id e k v : BSet k v ∉ clearMeta id [] e.
Proof. unfold clearMeta. simpl. rewrite elem_of_app, !list_elem_of_fmap. intros [(? & ? & _)|(? & ? & _)]; done. Qed.

(** The contract of raft for the [Ready] of a peer in state [ps] with log [L]. *)
Record ready_ok (ps : peerStorage) (L : alog) (rd : Ready) : Prop := {
  ro_log : log_ok (ready_log L rd);
  ro_head ent : head (rd_Entries rd) = Some ent →
    base_index (snapshot_log L rd) < E_Index ent ≤ last_index (snapshot_log L rd) + 1;
  ro_snap snap : rd_Snapshot rd = Some snap →
    Cell_ID (Snap_Cell snap) = Cell_ID (ps_cell ps) ∧ Cell_ID (ps_cell ps) + 1 < two64 ∧
    0 < Snap_Index snap ∧ Snap_Index snap + 1 < two64 ∧ AppliedIndex (applyState ps) ≠ Snap_Index snap ∧
    rd_HardState rd ≠ emptyHardState ∧ HS_Commit (rd_HardState rd) ≠ getCommittedIndex ps ∧
    (isInitialized ps = false → log_entries L = [] ∧ base_index L ≤ Snap_Index snap);
}.

(** The states a restart loads are the ones in memory. *)
Definition persisted (ps : peerStorage) (e : E) : Prop :=
  eng_map e !! getRaftStateKey (Cell_ID (ps_cell ps)) = Some (VRaftState (raftState ps)) ∧
  eng_map e !! getApplyStateKey (Cell_ID (ps_cell ps)) = Some (VApplyState (applyState ps)).

Definition snapshot_wb (ps : peerStorage) (rd : Ready) (e : E) : writeBatch value :=
  match rd_Snapshot rd with
  | None => []
  | Some snap => updatePeerState (Snap_Cell snap) Applying (if isInitialized ps then clearMeta (Cell_ID (ps_cell ps)) [] e else [])
  end.

Lemma log_key_ne_cellState id id' i : is_u64 id → is_u64 id' → is_u64 i → getRaftLogKey id i ≠ getCellStateKey id'.
Proof. intros ??? Heq. by assert (KRaftLog id i = KCellState id') by by apply encode_key_injective. Qed.
Lemma log_key_ne_raftState id id' i : is_u64 id → is_u64 id' → is_u64 i → getRaftLogKey id i ≠ getRaftStateKey id'.
Proof. intros ??? Heq. by assert (KRaftLog id i = KRaftState id') by by apply encode_key_injective. Qed.
Lemma log_key_ne_applyState id id' i : is_u64 id → is_u64 id' → is_u64 i → getRaftLogKey id i ≠ getApplyStateKey id'.
Proof. intros ??? Heq. by assert (KRaftLog id i = KApplyState id') by by apply encode_key_injective. Qed.

Lemma snapshot_wb_log ps e L rd : rep ps e L → ready_ok ps L rd →
  log_map (Cell_ID (ps_cell ps)) (map_write (snapshot_wb ps rd e) (eng_map e)) (snapshot_log L rd).
Proof.
  intros R Hok. pose proof (rp_id _ _ _ R) as Hid. unfold snapshot_wb, snapshot_log.
  destruct (rd_Snapshot rd) as [snap|] eqn:Es; [|intros i; apply R].
  destruct (ro_snap _ _ _ Hok snap Es) as (Hcell & Hid1 & Hs0 & Hs1 & _ & _ & _ & Hun).
  intros i Hi Hu. simpl in Hi. unfold updatePeerState. rewrite map_write_app. simpl.
  rewrite Hcell, lookup_insert_ne by (apply not_eq_sym; by apply log_key_ne_cellState).
  assert (log_at (mkLog (Snap_Index snap) (Snap_Term snap) []) i = None) as ->.
  { unfold log_at; simpl. by destruct (bool_decide _). }
  destruct (isInitialized ps) eqn:Ei.
  - unfold getRaftLogKey, getCellIDKey. by rewrite clearMeta_raft_keys by (done || apply R).
  - destruct (Hun eq_refl) as [Hnil Hb]. simpl. rewrite (rp_entries _ _ _ R) by (done || lia).
    unfold log_at. rewrite Hnil. by destruct (bool_decide _).
Qed.

(** The context after snapshot and entries were appended. *)
Definition appended (ps : peerStorage) (rd : Ready) (e : E) : readyContext :=
  let ctx := match rd_Snapshot rd with
             | Some snap => mkReadyCtx (set_lastIndex (Snap_Index snap) (raftState ps))
                 (mkApplyState (Snap_Index snap) (mkTruncated (Snap_Index snap) (Snap_Term snap))) (Snap_Term snap) (snapshot_wb ps rd e)
             | None => mkReadyCtx (raftState ps) (applyState ps) (lastTerm ps) []
             end in
  doAppendEntries ps (rd_Entries rd) ctx.

Lemma appended_spec ps e L rd : rep ps e L → ready_ok ps L rd →
  let ctx := appended ps rd e in
  LastIndex_ (ctx_raftState ctx) = last_index (ready_log L rd) ∧
  RS_HardState (ctx_raftState ctx) = RS_HardState (raftState ps) ∧
  ctx_lastTerm ctx = last_term (ready_log L rd) ∧
  TruncatedState (ctx_applyState ctx) = mkTruncated (base_index (ready_log L rd)) (base_term (ready_log L rd)) ∧
  log_map (Cell_ID (ps_cell ps)) (map_write (ctx_wb ctx) (eng_map e)) (ready_log L rd).
Proof.
  intros R Hok. pose proof (snapshot_wb_log ps e L rd R Hok) as Hm. set (L1 := snapshot_log L rd) in *.
  assert (∃ ctx1, appended ps rd e = doAppendEntries ps (rd_Entries rd) ctx1 ∧ ctx_wb ctx1 = snapshot_wb ps rd e ∧
    LastIndex_ (ctx_raftState ctx1) = last_index L1 ∧ RS_HardState (ctx_raftState ctx1) = RS_HardState (raftState ps) ∧
    ctx_lastTerm ctx1 = last_term L1 ∧ TruncatedState (ctx_applyState ctx1) = mkTruncated (base_index L1) (base_term L1))
    as (ctx1 & Ha & Hwb & Hli & Hhs & Hlt & Htr).
  { unfold appended, L1, snapshot_log, snapshot_wb in *. destruct (rd_Snapshot rd) as [snap|]; eexists; (split; [reflexivity|]); simpl.
    - split_and!; try done. unfold last_index; simpl. lia.
    - split_and!; try done; apply R. }
  assert (0 ≤ base_index L1 ∧ last_index L1 + 1 < two64) as [Hb1 Hl1].
  { unfold L1, snapshot_log. destruct (rd_Snapshot rd) as [snap|] eqn:Es.
    - destruct (ro_snap _ _ _ Hok snap Es) as (_ & _ & ? & ? & _). unfold last_index; simpl. lia.
    - destruct (rp_log _ _ _ R). split; lia. }
  pose proof (log_map_append (Cell_ID (ps_cell ps)) _ L1 (rd_Entries rd) (rp_id _ _ _ R) Hm (ro_log _ _ _ Hok) Hb1 Hl1 (ro_head _ _ _ Hok)) as Hap.
  simpl. rewrite Ha. unfold ready_log. fold L1. unfold doAppendEntries. destruct (last (rd_Entries rd)) as [le|] eqn:Ele.
  - destruct Hap as (Hap & Hle & Hlet). simpl. rewrite Hwb, Hli, map_write_app.
    split_and!; [done|done|done| |exact Hap].
    by destruct (rd_Entries rd).
  - apply last_None in Ele. rewrite Ele in *. simpl. rewrite Hwb. done.
Qed.

(** How the states are saved: both keys end up with the states of the context. *)
Definition set_hardState (rd : Ready) (ctx : readyContext) : readyContext :=
  if bool_decide (LastIndex_ (ctx_raftState ctx) > 0) && negb (IsEmptyHardState (rd_HardState rd))
  then mkReadyCtx (mkRaftState (rd_HardState rd) (LastIndex_ (ctx_raftState ctx))) (ctx_applyState ctx) (ctx_lastTerm ctx) (ctx_wb ctx)
  else ctx.

Lemma handleRaftReadyAppend_eq ps L rd e : ready_ok ps L rd →
  handleRaftReadyAppend ps rd e =
  let ctx := handleSaveApplyState ps (handleSaveRaftState ps (set_hardState rd (appended ps rd e))) in
  Ok (ctx, Write (ctx_wb ctx) e).
Proof.
  intros Hok. unfold handleRaftReadyAppend, appended, snapshot_wb. destruct (rd_Snapshot rd) as [snap|] eqn:Es; [|done].
  destruct (ro_snap _ _ _ Hok snap Es) as (Hc & _). unfold doAppendSnapshot. rewrite bool_decide_eq_false_2 by tauto. done.
Qed.

Lemma handleSave_spec ps ctx : let ctx' := handleSaveApplyState ps (handleSaveRaftState ps ctx) in
  ctx_raftState ctx' = ctx_raftState ctx ∧ ctx_applyState ctx' = ctx_applyState ctx ∧ ctx_lastTerm ctx' = ctx_lastTerm ctx ∧
  ∃ wb1 wb2, ctx_wb ctx' = ctx_wb ctx ++ wb1 ++ wb2 ∧
    (wb1 = [BSet (getRaftStateKey (Cell_ID (ps_cell ps))) (VRaftState (ctx_raftState ctx))] ∨ wb1 = [] ∧ ctx_raftState ctx = raftState ps) ∧
    (wb2 = [BSet (getApplyStateKey (Cell_ID (ps_cell ps))) (VApplyState (ctx_applyState ctx))] ∨ wb2 = [] ∧ ctx_applyState ctx = applyState ps).
Proof.
  assert (let c1 := handleSaveRaftState ps ctx in ctx_raftState c1 = ctx_raftState ctx ∧ ctx_applyState c1 = ctx_applyState ctx ∧
    ctx_lastTerm c1 = ctx_lastTerm ctx ∧ ∃ wb1, ctx_wb c1 = ctx_wb ctx ++ wb1 ∧
    (wb1 = [BSet (getRaftStateKey (Cell_ID (ps_cell ps))) (VRaftState (ctx_raftState ctx))] ∨ wb1 = [] ∧ ctx_raftState ctx = raftState ps))
    as (Hr1 & Ha1 & Ht1 & wb1 & Hw1 & Hc1).
  { unfold handleSaveRaftState. destruct (_ || _) eqn:Eb; simpl.
    - split_and!; try done. eexists. split; [done|]. by left.
    - split_and!; try done. exists []. rewrite app_nil_r. split; [done|]. right. split; [done|].
      destruct (ctx_raftState ctx) as [[t v c] l], (raftState ps) as [[t' v' c'] l']; simpl in *.
      repeat (apply orb_false_iff in Eb as [Eb ?]). rewrite !bool_decide_eq_false in *. do 2 f_equal; lia. }
  revert Hr1 Ha1 Ht1 Hw1. generalize (handleSaveRaftState ps ctx). intros c1 Hr1 Ha1 Ht1 Hw1. simpl.
  unfold handleSaveApplyState. destruct (_ || _) eqn:Eb; simpl.
  - rewrite Hr1, Ha1, Ht1. split_and!; try done. eexists wb1, _. rewrite Hw1, <-app_assoc. split_and!; [done|done|by left].
  - rewrite Hr1, Ha1, Ht1. split_and!; try done. exists wb1, []. rewrite Hw1, app_nil_r. split_and!; [done|done|right]. split; [done|].
    rewrite <-Ha1. destruct (ctx_applyState c1) as [a [t i]], (applyState ps) as [a' [t' i']]; simpl in *.
    repeat (apply orb_false_iff in Eb as [Eb ?]). rewrite !bool_decide_eq_false in *. do 2 f_equal; lia.
Qed.

Lemma ready_entries_u64 ps L rd ent : ready_ok ps L rd → ent ∈ rd_Entries rd → is_u64 (E_Index ent).
Proof.
  intros Hok Hin. destruct (rd_Entries rd) as [|x l] eqn:El; [by apply elem_of_nil in Hin|].
  pose proof (ro_log _ _ _ Hok) as HL. unfold ready_log in HL. rewrite El in HL.
  apply list_elem_of_lookup in Hin as [j Hj].
  pose proof (lo_index _ HL (length (take (Z.to_nat (E_Index x - base_index (snapshot_log L rd) - 1)) (log_entries (snapshot_log L rd))) + j) ent) as Hx.
  simpl in Hx. rewrite lookup_app_r, Nat.add_comm, Nat.add_sub in Hx by lia. specialize (Hx Hj).
  pose proof (lo_last _ HL) as Hl. unfold last_index in Hl; simpl in Hl. rewrite length_app in Hl.
  apply lookup_lt_Some in Hj. pose proof (lo_base _ HL) as Hb. simpl in Hb. unfold is_u64. lia.
Qed.

Lemma appended_sets ps e L rd k v : rep ps e L → ready_ok ps L rd →
  BSet k v ∈ ctx_wb (appended ps rd e) → ∃ sk, key_ok sk ∧ encode_key sk = k.
Proof.
  intros R Hok. pose proof (rp_id _ _ _ R) as Hid.
  assert (BSet k v ∈ snapshot_wb ps rd e → ∃ sk, key_ok sk ∧ encode_key sk = k) as Hsnap.
  { unfold snapshot_wb. destruct (rd_Snapshot rd) as [snap|] eqn:Es; [|by intros ?%elem_of_nil].
    destruct (ro_snap _ _ _ Hok snap Es) as (Hc & _). unfold updatePeerState.
    rewrite elem_of_app, list_elem_of_singleton. intros [Hin|[= -> ->]].
    - destruct (isInitialized ps); [by apply clearMeta_sets in Hin|by apply elem_of_nil in Hin].
    - exists (KCellState (Cell_ID (ps_cell ps))). rewrite Hc. done. }
  pose proof (λ ent, ready_entries_u64 ps L rd ent Hok) as Hu.
  unfold appended, doAppendEntries. destruct (last (rd_Entries rd)) as [le|]; destruct (rd_Snapshot rd); simpl.
  - rewrite !elem_of_app, !list_elem_of_fmap. intros [Hin|[(ent & [= -> ->] & Hin)|(? & ? & _)]]; [auto| |done].
    exists (KRaftLog (Cell_ID (ps_cell ps)) (E_Index ent)). split; [split; auto|done].
  - rewrite !elem_of_app, !list_elem_of_fmap. intros [(ent & [= -> ->] & Hin)|(? & ? & _)]; [|done].
    exists (KRaftLog (Cell_ID (ps_cell ps)) (E_Index ent)). split; [split; auto|done].
  - auto.
  - by intros ?%elem_of_nil.
Qed.

Lemma set_hardState_spec rd ctx : let c := set_hardState rd ctx in
  LastIndex_ (ctx_raftState c) = LastIndex_ (ctx_raftState ctx) ∧ ctx_applyState c = ctx_applyState ctx ∧
  ctx_lastTerm c = ctx_lastTerm ctx ∧ ctx_wb c = ctx_wb ctx.
Proof. unfold set_hardState. by destruct (_ && _). Qed.

Lemma ready_refines ps e L rd : rep ps e L → ready_ok ps L rd →
  ∃ ctx e', handleRaftReadyAppend ps rd e = Ok (ctx, e') ∧ rep (apply_ready rd ctx ps) e' (ready_log L rd).
Proof.
  intros R Hok. pose proof (rp_id _ _ _ R) as Hid. rewrite (handleRaftReadyAppend_eq ps L) by done.
  destruct (appended_spec ps e L rd R Hok) as (H1 & H2 & H3 & H4 & H5).
  pose proof (λ k v, appended_sets ps e L rd k v R Hok) as Hsets. set (c0 := appended ps rd e) in *.
  destruct (set_hardState_spec rd c0) as (S1 & S2 & S3 & S4). set (c1 := set_hardState rd c0) in *.
  destruct (handleSave_spec ps c1) as (Q1 & Q2 & Q3 & wb1 & wb2 & Q4 & Q5 & Q6). cbv zeta.
  set (c2 := handleSaveApplyState ps (handleSaveRaftState ps c1)) in *. eexists _, _. split; [done|].
  clearbody c2 c1 c0.
  assert (Cell_ID (ps_cell (apply_ready rd c2 ps)) = Cell_ID (ps_cell ps)) as Hcell.
  { unfold apply_ready; simpl. destruct (rd_Snapshot rd) as [snap|] eqn:Es; [|done]. by apply (ro_snap _ _ _ Hok). }
  split; rewrite ?Hcell; [exact (Write_wf _ _ (rp_wf _ _ _ R))| |done|exact (ro_log _ _ _ Hok)| | | |].
  - intros k. rewrite Write_map by exact (rp_wf _ _ _ R). intros [Hk|[v Hv]]%map_write_keys; [exact (rp_keys _ _ _ R _ Hk)|].
    rewrite Q4, S4, !elem_of_app in Hv. destruct Hv as [Hv|[Hv|Hv]]; [by eapply Hsets| |].
    + destruct Q5 as [->|[-> _]]; [|by apply elem_of_nil in Hv]. apply list_elem_of_singleton in Hv as [= -> _].
      by exists (KRaftState (Cell_ID (ps_cell ps))).
    + destruct Q6 as [->|[-> _]]; [|by apply elem_of_nil in Hv]. apply list_elem_of_singleton in Hv as [= -> _].
      by exists (KApplyState (Cell_ID (ps_cell ps))).
  - simpl. by rewrite Q2, S2.
  - unfold LastIndex; simpl. by rewrite Q1, S1.
  - simpl. by rewrite Q3, S3.
  - intros i Hi Hu. rewrite Write_map by exact (rp_wf _ _ _ R). rewrite Q4, S4, map_write_app. rewrite map_write_other; [by apply H5|].
    rewrite fmap_app, elem_of_app. intros [Hin|Hin].
    + destruct Q5 as [->|[-> _]]; [|by apply elem_of_nil in Hin]. apply list_elem_of_singleton in Hin. by eapply log_key_ne_raftState.
    + destruct Q6 as [->|[-> _]]; [|by apply elem_of_nil in Hin]. apply list_elem_of_singleton in Hin. by eapply log_key_ne_applyState.
Qed.

Lemma appended_applyState ps rd e : ctx_applyState (appended ps rd e) =
  match rd_Snapshot rd with
  | Some snap => mkApplyState (Snap_Index snap) (mkTruncated (Snap_Index snap) (Snap_Term snap))
  | None => applyState ps
  end.
Proof. unfold appended, doAppendEntries. by destruct (last (rd_Entries rd)), (rd_Snapshot rd). Qed.

Lemma ready_log_base L rd : base_index (ready_log L rd) = base_index (snapshot_log L rd).
Proof. unfold ready_log. by destruct (rd_Entries rd). Qed.

(** Without a snapshot a [Ready] only writes log keys before it saves the states. *)
Lemma appended_log_keys ps e L rd o : rep ps e L → ready_ok ps L rd → rd_Snapshot rd = None →
  o ∈ ctx_wb (appended ps rd e) → ∃ i, is_u64 i ∧ op_key o = getRaftLogKey (Cell_ID (ps_cell ps)) i.
Proof.
  intros R Hok Hs. pose proof (lo_base _ (rp_log _ _ _ R)). pose proof (lo_last _ (rp_log _ _ _ R)).
  unfold appended, doAppendEntries. rewrite Hs. destruct (last (rd_Entries rd)) as [le|] eqn:Ele; simpl; [|by intros ?%elem_of_nil].
  assert (le ∈ rd_Entries rd) as Hle by (apply last_Some in Ele as [l' ->]; apply elem_of_app; right; left).
  pose proof (ready_entries_u64 _ _ _ _ Hok Hle) as Hule.
  change (LastIndex_ (raftState ps)) with (LastIndex ps). rewrite (rp_last _ _ _ R).
  rewrite elem_of_app, !list_elem_of_fmap. intros [(ent & -> & Hin)|(i & -> & Hin%elem_of_seqZ)].
  - exists (E_Index ent). split; [by eapply ready_entries_u64|done].
  - exists i. split; [unfold is_u64 in *; lia|done].
Qed.

Lemma state_keys_ne id : is_u64 id → getRaftStateKey id ≠ getApplyStateKey id.
Proof. intros ? Heq. by assert (KRaftState id = KApplyState id) by by apply encode_key_injective. Qed.

Lemma ready_persists ps e L rd ctx e' : rep ps e L → ready_ok ps L rd → persisted ps e →
  handleRaftReadyAppend ps rd e = Ok (ctx, e') → persisted (apply_ready rd ctx ps) e'.
Proof.
  intros R Hok [Hp1 Hp2]. pose proof (rp_id _ _ _ R) as Hid. rewrite (handleRaftReadyAppend_eq ps L) by done.
  destruct (appended_spec ps e L rd R Hok) as (H1 & H2 & _). pose proof (appended_applyState ps rd e) as Has.
  pose proof (λ o, appended_log_keys ps e L rd o R Hok) as Hkeys. set (c0 := appended ps rd e) in *.
  destruct (set_hardState_spec rd c0) as (S1 & S2 & S3 & S4).
  assert (∀ snap, rd_Snapshot rd = Some snap → ctx_raftState (set_hardState rd c0) ≠ raftState ps ∧ ctx_applyState c0 ≠ applyState ps) as Hchg.
  { intros snap Es. destruct (ro_snap _ _ _ Hok snap Es) as (_ & _ & G1 & _ & G2 & G3 & G4 & _).
    rewrite Es in Has. split; [|rewrite Has; intros Heq; by rewrite <-Heq in G2].
    unfold set_hardState, IsEmptyHardState. rewrite (bool_decide_eq_true_2 (_ > 0)), (bool_decide_eq_false_2 (rd_HardState rd = _)); [|done|].
    - simpl. intros Heq. apply G4. unfold getCommittedIndex. by rewrite <-Heq.
    - rewrite H1. pose proof (ready_log_base L rd) as Hb. unfold snapshot_log in Hb. rewrite Es in Hb. simpl in Hb. unfold last_index. lia. }
  set (c1 := set_hardState rd c0) in *.
  destruct (handleSave_spec ps c1) as (Q1 & Q2 & Q3 & wb1 & wb2 & Q4 & Q5 & Q6). cbv zeta.
  set (c2 := handleSaveApplyState ps (handleSaveRaftState ps c1)) in *. clearbody c2 c1 c0. intros [= <- <-].
  assert (Cell_ID (ps_cell (apply_ready rd c2 ps)) = Cell_ID (ps_cell ps)) as Hcell.
  { unfold apply_ready; simpl. destruct (rd_Snapshot rd) as [snap|] eqn:Es; [|done]. by apply (ro_snap _ _ _ Hok). }
  unfold persisted. rewrite Hcell, Write_map, Q4, S4, !map_write_app by exact (rp_wf _ _ _ R). simpl. rewrite Q1, Q2.
  set (m0 := map_write (ctx_wb c0) (eng_map e)).
  assert (rd_Snapshot rd = None → ∀ k, (∀ i, is_u64 i → k ≠ getRaftLogKey (Cell_ID (ps_cell ps)) i) → m0 !! k = eng_map e !! k) as Hm0.
  { intros Es k Hk. apply map_write_other. rewrite list_elem_of_fmap. intros (o & -> & Ho).
    destruct (Hkeys o Es Ho) as (i & Hi & Heq). by apply (Hk i). }
  pose proof (state_keys_ne _ Hid) as Hne. split.
  - destruct Q6 as [->|[-> _]]; simpl; [rewrite lookup_insert_ne by done|];
      (destruct Q5 as [->|[-> Heq]]; simpl; [by rewrite lookup_insert_eq|]);
      (destruct (rd_Snapshot rd) as [snap|] eqn:Es; [by destruct (Hchg snap eq_refl)|]);
      rewrite Heq, Hm0; try done; intros i Hi; apply not_eq_sym; by apply log_key_ne_raftState.
  - destruct Q6 as [->|[-> Heq]]; simpl; [by rewrite lookup_insert_eq, S2|].
    destruct (rd_Snapshot rd) as [snap|] eqn:Es; [destruct (Hchg snap eq_refl) as [_ Hc]; by rewrite S2 in Heq|].
    assert (map_write wb1 m0 !! getApplyStateKey (Cell_ID (ps_cell ps)) = m0 !! getApplyStateKey (Cell_ID (ps_cell ps))) as ->.
    { destruct Q5 as [->|[-> _]]; simpl; [by rewrite lookup_insert_ne by done|done]. }
    rewrite Heq, Hm0; try done; intros i Hi; apply not_eq_sym; by apply log_key_ne_applyState.
Qed.

(** A restart from the engine finds the states and the last term again. *)
Lemma newPeerStorage_restores ps e L : rep ps e L → persisted ps e → isInitialized ps = true →
  raftInitLogIndex ≤ last_index L → (last_index L = raftInitLogIndex → last_term L = raftInitLogTerm) →
  newPeerStorage (ps_cell ps) e =
  Ok (mkPeerStorage (ps_cell ps) (lastTerm ps) raftInitLogTerm (getAppliedIndex ps) 0 (raftState ps) (applyState ps)).
Proof.
  intros R [Hp1 Hp2] Hinit Hlast Hterm. pose proof (rp_log _ _ _ R) as HL. pose proof (lo_last _ HL) as Hll.
  unfold newPeerStorage, initRaftState, initApplyState. rewrite !eng_get_map, Hp1, Hp2 by exact (rp_wf _ _ _ R).
  unfold isInitialized in Hinit. apply negb_true_iff in Hinit. rewrite Hinit. clear Hinit. simpl.
  unfold initLastTerm. change (LastIndex_ (raftState ps)) with (LastIndex ps).
  rewrite (rp_last _ _ _ R), (rp_trunc _ _ _ R), (rp_term _ _ _ R). simpl.
  unfold raftInitLogIndex, raftInitLogTerm in *.
  rewrite (bool_decide_eq_false_2 (last_index L = 0)) by lia.
  case_bool_decide as E1; [by rewrite Hterm|]. case_bool_decide as E2.
  { assert (log_entries L = []) as Hnil by (apply length_zero_iff_nil; unfold last_index in E2; lia).
    unfold last_term. by rewrite Hnil. }
  rewrite bool_decide_eq_false_2 by lia.
  rewrite (get_log ps e L) by (done || (unfold last_index in *; pose proof (lo_base _ HL); unfold is_u64; lia)).
  rewrite last_lookup_term by lia. unfold last_term. destruct (last (log_entries L)) as [le|] eqn:Ele; [done|].
  apply last_None in Ele. unfold last_index in E2. rewrite Ele in E2. simpl in E2. lia.
Qed.

(** ** Compaction *)
Definition compact_log (L : alog) (index term : Z) : alog :=
  mkLog index term (drop (Z.to_nat (index - base_index L)) (log_entries L)).

Lemma compact_log_at L index term i : base_index L ≤ index → index < i → log_at (compact_log L index term) i = log_at L i.
Proof.
  intros H1 H2. unfold log_at, compact_log; simpl. rewrite !bool_decide_eq_true_2 by lia.
  rewrite lookup_drop. f_equal. lia.
Qed.

Lemma compact_log_last L index term : base_index L < index ≤ last_index L → log_ok L →
  (∀ ent, log_at L index = Some ent → E_Term ent = term) →
  last_index (compact_log L index term) = last_index L ∧ last_term (compact_log L index term) = last_term L ∧ log_ok (compact_log L index term).
Proof.
  intros Hi HL Hterm. pose proof (lo_base _ HL). destruct (log_at_is_Some L index Hi) as [ent Hat]. pose proof (Hterm _ Hat) as Ht.
  assert (last_index (compact_log L index term) = last_index L) as Hli.
  { unfold last_index, compact_log in *; simpl. rewrite length_drop. lia. }
  unfold log_at in Hat. rewrite bool_decide_eq_true_2 in Hat by lia.
  assert (take (Z.to_nat (index - base_index L)) (log_entries L) = take (Z.to_nat (index - base_index L - 1)) (log_entries L) ++ [ent]) as Htk.
  { replace (Z.to_nat (index - base_index L)) with (S (Z.to_nat (index - base_index L - 1))) by lia. by apply take_S_r. }
  pose proof (take_drop (Z.to_nat (index - base_index L)) (log_entries L)) as Htd. rewrite Htk in Htd.
  split_and!; [done| |].
  - unfold last_term. rewrite <-Htd. simpl. set (d := drop _ _). destruct d as [|x d].
    + rewrite app_nil_r, last_snoc. simpl. lia.
    + rewrite last_app_cons. by destruct (last (x :: d)) eqn:El; [|apply last_None in El].
  - split; [simpl; lia|rewrite Hli; apply HL| |].
    + intros j x. simpl. rewrite lookup_drop. intros ->%(lo_index _ HL). lia.
    + simpl. pose proof (lo_terms _ HL) as Hs. rewrite <-Htd, !fmap_app in Hs. simpl in Hs.
      apply StronglySorted_inv in Hs as [Hs _]. rewrite <-app_assoc in Hs. apply StronglySorted_app_1_r in Hs. simpl in Hs. by rewrite Ht in Hs.
Qed.

Definition set_applyState (st : RaftApplyState) (ps : peerStorage) : peerStorage :=
  mkPeerStorage (ps_cell ps) (lastTerm ps) (appliedIndexTerm ps) (lastReadyIndex ps) (lastCompactIndex ps) (raftState ps) st.

Lemma rep_compact ps e L st index term : rep ps e L → TruncatedState st = mkTruncated index term →
  base_index L < index ≤ last_index L → (∀ ent, log_at L index = Some ent → E_Term ent = term) →
  rep (set_applyState st ps) e (compact_log L index term).
Proof.
  intros R Hst Hi Hterm. destruct (compact_log_last L index term Hi (rp_log _ _ _ R) Hterm) as (H1 & H2 & H3).
  split; simpl; try apply R; try done.
  - change (LastIndex (set_applyState st ps)) with (LastIndex ps). by rewrite H1, (rp_last _ _ _ R).
  - by rewrite H2, (rp_term _ _ _ R).
  - intros i Hi' Hu. rewrite (rp_entries _ _ _ R) by (done || lia). by rewrite compact_log_at by lia.
Qed.

(** Deleting entries up to the base changes nothing the log represents. *)
Lemma rep_gc ps e L is_ : rep ps e L → Forall (λ i, 0 ≤ i ≤ base_index L) is_ →
  rep ps (Write ((λ i, BDelete (getRaftLogKey (Cell_ID (ps_cell ps)) i)) <$> is_) e) L.
Proof.
  intros R His. rewrite Forall_forall in His. pose proof (rp_log _ _ _ R) as HL. pose proof (rp_id _ _ _ R) as Hid.
  split; try apply R.
  - apply Write_wf, R.
  - intros k. rewrite Write_map by exact (rp_wf _ _ _ R). rewrite map_write_delete_by. case_bool_decide; [by intros []|apply R].
  - intros i Hi Hu. rewrite Write_map by exact (rp_wf _ _ _ R). rewrite map_write_delete_by.
    rewrite bool_decide_eq_false_2; [by apply R|]. rewrite list_elem_of_fmap. intros (j & Hj & Hin%His).
    pose proof (lo_base _ HL). pose proof (lo_last _ HL). unfold last_index in *.
    apply getRaftLogKey_inj in Hj as [_ ->]; [lia|done|done|done|unfold is_u64; lia].
Qed.

(** ** A new cell starts with the empty log after index 5 *)
Lemma SaveCell_rep c : is_u64 (Cell_ID c) → Peers c ≠ [] →
  ∃ ps, newPeerStorage c (SaveCell c eng_empty) = Ok ps ∧ ps_cell ps = c ∧
    raftState ps = initialRaftState ∧ applyState ps = initialApplyState ∧
    rep ps (SaveCell c eng_empty) (mkLog raftInitLogIndex raftInitLogTerm []) ∧ persisted ps (SaveCell c eng_empty).
Proof.
  intros Hid Hp. set (e := SaveCell c eng_empty). set (id := Cell_ID c) in *.
  assert (eng_wf e) as Hwf by apply Write_wf, eng_empty_wf.
  assert (eng_map e = <[getApplyStateKey id := VApplyState initialApplyState]> (<[getRaftStateKey id := VRaftState initialRaftState]>
    (<[getCellStateKey id := VCellState (mkLocalState Normal c)]> ∅))) as Hm.
  { unfold e, SaveCell. rewrite Write_map, eng_empty_map by apply eng_empty_wf. done. }
  pose proof (state_keys_ne id Hid) as Hne.
  exists (mkPeerStorage c raftInitLogTerm raftInitLogTerm raftInitLogIndex 0 initialRaftState initialApplyState).
  split_and!; try done.
  - unfold newPeerStorage, initRaftState, initApplyState. fold id. rewrite !eng_get_map, Hm by done.
    rewrite lookup_insert_ne, !lookup_insert_eq by done. simpl. by rewrite bool_decide_eq_false_2.
  - split; try done; simpl.
    + intros k. rewrite Hm, !lookup_insert_is_Some', lookup_empty. intros [<-|[<-|[<-|[]%is_Some_None]]].
      * by exists (KApplyState id).
      * by exists (KRaftState id).
      * by exists (KCellState id).
    + split; simpl; [done|done|by intros|repeat constructor].
    + intros i Hi Hu. fold id. rewrite Hm, !lookup_insert_ne;
        [|apply not_eq_sym; by (apply log_key_ne_cellState || apply log_key_ne_raftState || apply log_key_ne_applyState)..].
      rewrite lookup_empty. unfold log_at; simpl. by destruct (bool_decide _).
  - split; simpl; fold id; rewrite Hm; [rewrite lookup_insert_ne by done|]; by rewrite lookup_insert_eq.
Qed.

(** C25. What raft reads from a peer's storage is the log: [FirstIndex] and
    [LastIndex] delimit it, [Term] gives the term of every index from the compacted
    base on, and [Entries] returns the requested slice cut to [maxSize] (never less
    than one entry); an index before the base is reported as compacted, one past the
    end as out of bounds, and no read panics.  The one exception is an engine whose
    [Scan] includes the end key, as the memory engine's does: there a request for
    two or more entries that ends inside the log fails, unless the size limit cuts
    it. *)
Theorem raft_storage_reads ps e L low high maxSize idx :
  rep ps e L →
  0 ≤ low → 0 ≤ maxSize → total_size (slice L low (high + 1)) < two64 → 0 ≤ idx → idx + 1 < two64 →
  FirstIndex ps = base_index L + 1 ∧ LastIndex ps = last_index L ∧
  Term ps idx e =
    (if bool_decide (idx < base_index L) then Err ErrCompacted
     else if bool_decide (idx > last_index L) then Err ErrOutOfBound
     else Ok (from_option E_Term (base_term L) (log_at L idx))) ∧
  Entries ps low high maxSize e =
    (if bool_decide (low > high) then Err ErrLowGreaterHigh
     else if bool_decide (low ≤ base_index L) then Err ErrCompacted
     else if bool_decide (high > last_index L + 1) then Err ErrOutOfBound
     else if one_too_many L low high maxSize then Err ErrUnavailable
     else Ok (limitSize maxSize (slice L low high))).
Proof.
  intros R Hlow Hmax Hsz Hi Hi'. pose proof (rp_log _ _ _ R) as HL.
  pose proof (lo_base _ HL). pose proof (lo_last _ HL). unfold last_index in *. split_and!.
  - unfold FirstIndex, getTruncatedIndex. rewrite (rp_trunc _ _ _ R). simpl. apply u64_small. unfold is_u64. lia.
  - exact (rp_last _ _ _ R).
  - by apply Term_spec.
  - by apply Entries_spec.
Qed.

(** On an engine whose [Scan] includes the end key, as the memory engine's
    does, [Entries] fails on every request for two or more entries that is not
    up to the end of the log, although all the entries are there. *)
Theorem inclusive_scan_breaks_Entries ps e L low high maxSize :
  rep ps e L → @scan_includes_end value E _ = true →
  base_index L < low → low + 1 < high → high ≤ last_index L → total_size (slice L low (high + 1)) ≤ maxSize → maxSize < two64 →
  Entries ps low high maxSize e = Err ErrUnavailable.
Proof.
  intros R Hincl Hlow Hlh Hhigh Hfit Hmax. pose proof (rp_log _ _ _ R) as HL. pose proof (lo_base _ HL). pose proof (lo_last _ HL).
  assert (scan_end high = high + 1) as Hse by (unfold scan_end; by rewrite Hincl).
  pose proof (total_size_nonneg (slice L low (high + 1))).
  pose proof (slice_length L low (high + 1) ltac:(lia) ltac:(lia)) as Hlen.
  unfold Entries. rewrite (checkRange_spec ps L) by (done || apply R).
  rewrite (bool_decide_eq_false_2 (low > high)), (bool_decide_eq_false_2 (low ≤ _)), (bool_decide_eq_false_2 (high > _)) by lia. simpl.
  rewrite u64_small by (unfold is_u64; lia). rewrite !bool_decide_eq_false_2 by lia.
  rewrite (scan_log ps e L) by (done || lia). rewrite Hse.
  destruct (run_entries (Cell_ID (ps_cell ps)) maxSize low (slice L low (high + 1))) as (n' & t' & ex & Heq & _ & Hex); try (done || lia).
  { intros j ent Hj. by eapply slice_lookup; [| |exact Hj]; [done|lia]. }
  destruct (Hex Hfit) as [-> Hl]. rewrite Heq, Hl. simpl. rewrite u64_small by (unfold is_u64; lia).
  by rewrite bool_decide_eq_false_2 by lia.
Qed.

(** C6. Persisting a [Ready] is atomic and durable: whatever raft hands over -
    entries that may overwrite an uncommitted suffix, a snapshot that replaces
    the log, a new hard state - the storage afterwards represents exactly the
    log raft asked for, and a peer restarted from the engine alone loads the
    same raft state, apply state, last term and log. *)
Theorem ready_is_durable ps e L rd :
  rep ps e L → ready_ok ps L rd → persisted ps e →
  ∃ ctx e', handleRaftReadyAppend ps rd e = Ok (ctx, e') ∧
    let ps' := apply_ready rd ctx ps in
    let L' := ready_log L rd in
    rep ps' e' L' ∧
    (isInitialized ps' = true → raftInitLogIndex ≤ last_index L' →
     (last_index L' = raftInitLogIndex → last_term L' = raftInitLogTerm) →
     ∃ ps'', newPeerStorage (ps_cell ps') e' = Ok ps'' ∧ raftState ps'' = raftState ps' ∧
       applyState ps'' = applyState ps' ∧ lastTerm ps'' = lastTerm ps' ∧ rep ps'' e' L').
Proof.
  intros R Hok Hp. destruct (ready_refines ps e L rd R Hok) as (ctx & e' & Heq & R').
  exists ctx, e'. split; [done|]. split; [done|]. intros Hinit Hlast Hterm.
  pose proof (ready_persists _ _ _ _ _ _ R Hok Hp Heq) as Hp'.
  eexists. split; [by apply (newPeerStorage_restores _ _ _ R')|]. split_and!; try done.
  destruct R' as [A1 A2 A3 A4 A5 A6 A7 A8]. by split.
Qed.

(** Compacting the log forgets exactly a prefix: after [compactRaftLog]
    accepted an index of the log with its term, and after any later
    [doRaftLogGC] up to that index (from whichever index it starts), the
    storage represents the log without the entries up to that index; every
    other entry, the last index and the last term are unchanged. *)
Theorem compaction_drops_prefix ps e L index term start e' st :
  rep ps e L → compactRaftLog (applyState ps) index term = Ok st →
  index ≤ last_index L → (∀ ent, log_at L index = Some ent → E_Term ent = term) → 0 ≤ start →
  doRaftLogGC (Cell_ID (ps_cell ps)) start (index + 1) e = Ok e' →
  AppliedIndex st = AppliedIndex (applyState ps) ∧
  rep (set_applyState st ps) e' (compact_log L index term) ∧
  (∀ i, index < i → log_at (compact_log L index term) i = log_at L i) ∧
  last_index (compact_log L index term) = last_index L ∧ last_term (compact_log L index term) = last_term L.
Proof.
  intros R Hc Hlast Hterm Hstart Hgc. unfold compactRaftLog in Hc. rewrite (rp_trunc _ _ _ R) in Hc. simpl in Hc.
  case_bool_decide as H1; [done|]. case_bool_decide as H2; [done|]. injection Hc as <-.
  assert (base_index L < index ≤ last_index L) as Hi by lia.
  pose proof (rep_compact ps e L _ index term R (eq_refl : TruncatedState (mkApplyState (AppliedIndex (applyState ps)) (mkTruncated index term)) = _) Hi Hterm) as R'.
  destruct (compact_log_last L index term Hi (rp_log _ _ _ R) Hterm) as (Hl1 & Hl2 & _).
  split; [done|]. split; [|split_and!; [|done|done]; intros i ?; apply compact_log_at; lia].
  unfold doRaftLogGC in Hgc.
  match type of Hgc with context [outcome_bind ?m _] => destruct m as [fi| |] eqn:Efi end; try done. simpl in Hgc.
  case_bool_decide as Hcmp; [by simplify_eq|]. injection Hgc as <-.
  apply (rep_gc (set_applyState (mkApplyState (AppliedIndex (applyState ps)) (mkTruncated index term)) ps)); [done|].
  apply Forall_forall. intros i Hin%elem_of_seqZ. simpl. split; [|lia].
  assert (0 ≤ fi) as Hfi; [|lia].
  case_bool_decide as Hs0; [|by simplify_eq]. destruct (Engine_Seek _ e) as [[key v]|].
  - destruct (getRaftLogIndex key) as [z| |] eqn:Eg; simplify_eq. eapply getRaftLogIndex_nonneg, Eg.
  - simplify_eq. pose proof (lo_base _ (rp_log _ _ _ R)). lia.
Qed.
End raft_log.

(** ** Concrete instances *)
Definition demo_cell : Cell := mkCell 7 [] [] (mkCellEpoch 1 1) [mkPeer 1 1; mkPeer 2 2; mkPeer 3 3].
Definition demo_entry (index term : Z) : Entry := mkEntry term index EntryNormal DEmpty.
Definition demo_ready : Ready := mkReady [demo_entry 6 5; demo_entry 7 6; demo_entry 8 6] (mkHardState 6 1 5) None.
Definition demo_log : alog := ready_log (mkLog raftInitLogIndex raftInitLogTerm []) demo_ready.
Abbreviation mem := (list (treeItem value)).

Section demo.
Context (incl : bool).
#[local] Instance demo_engine : Engine value mem := kv_engine incl.

Lemma demo_ready_ok (ps : peerStorage) : ready_ok ps (mkLog raftInitLogIndex raftInitLogTerm []) demo_ready.
Proof.
  split; [|intros ent [= <-]; vm_compute; split; congruence|done].
  split; [by vm_compute|by vm_compute| |].
  - intros [|[|[|j]]] ent; simpl; try (intros [= <-]; reflexivity).
  - vm_compute. repeat constructor; congruence.
Qed.

Lemma demo_rep : ∃ ps e, rep ps e demo_log ∧ persisted ps e ∧ ps_cell ps = demo_cell ∧ AppliedIndex (applyState ps) = 5.
Proof.
  destruct (SaveCell_rep demo_cell) as (ps & _ & Hc & _ & Ha & R & Hp); [by vm_compute|done|].
  destruct (ready_refines ps _ _ demo_ready R (demo_ready_ok ps)) as (ctx & e' & Heq & R').
  exists (apply_ready demo_ready ctx ps), e'. split; [exact R'|]. split; [exact (ready_persists _ _ _ _ _ _ R (demo_ready_ok ps) Hp Heq)|].
  split; [exact Hc|]. unfold handleRaftReadyAppend in Heq. simpl in Heq.
  pose proof (handleSave_spec ps (set_hardState demo_ready (appended ps demo_ready (SaveCell demo_cell eng_empty)))) as (_ & Has & _).
  injection Heq as <- _. simpl. cbn zeta in Has. etransitivity; [exact (f_equal AppliedIndex Has)|].
  rewrite (proj1 (proj2 (set_hardState_spec _ _))), appended_applyState. simpl. by rewrite Ha.
Qed.
End demo.

(** On the memory engine: to the end of the log, and to its middle. *)
Lemma raft_storage_reads_witness :
  ∃ ps (e : mem), rep (Engine0 := memory_engine) ps e demo_log ∧
    Term (Engine0 := memory_engine) ps 7 e = Ok 6 ∧
    Entries (Engine0 := memory_engine) (λ _, 10) ps 6 9 25 e = Ok [demo_entry 6 5; demo_entry 7 6] ∧
    Entries (Engine0 := memory_engine) (λ _, 10) ps 6 8 100 e = Err ErrUnavailable.
Proof.
  destruct (demo_rep true) as (ps & e & R & _). exists ps, e. split; [exact R|].
  destruct (raft_storage_reads (Engine0 := memory_engine) (λ _, 10) ltac:(intros; lia) ps e demo_log 6 9 25 7 R)
    as (_ & _ & HT & HE); [lia|lia|reflexivity|lia|reflexivity|].
  destruct (raft_storage_reads (Engine0 := memory_engine) (λ _, 10) ltac:(intros; lia) ps e demo_log 6 8 100 7 R)
    as (_ & _ & _ & HE2); [lia|lia|reflexivity|lia|reflexivity|].
  split; [rewrite HT; reflexivity|]. split; [rewrite HE; vm_compute; reflexivity|rewrite HE2; vm_compute; reflexivity].
Defined.

Lemma inclusive_scan_breaks_Entries_witness :
  ∃ ps (e : mem), rep (Engine0 := memory_engine) ps e demo_log ∧
    Entries (Engine0 := memory_engine) (λ _, 10) ps 6 8 1000 e = Err ErrUnavailable.
Proof.
  destruct (demo_rep true) as (ps & e & R & _). exists ps, e. split; [exact R|].
  apply (inclusive_scan_breaks_Entries (Engine0 := memory_engine) (λ _, 10) ltac:(intros; lia) ps e demo_log);
    [exact R|reflexivity|reflexivity|reflexivity|by vm_compute|by vm_compute|reflexivity].
Defined.

Lemma ready_is_durable_witness :
  ∃ ps (e : mem) ctx e', handleRaftReadyAppend (Engine0 := memory_engine) ps demo_ready e = Ok (ctx, e') ∧
    rep (Engine0 := memory_engine) (apply_ready demo_ready ctx ps) e' demo_log ∧ last_index demo_log = 8.
Proof.
  destruct (SaveCell_rep (Engine0 := memory_engine (T := mem)) demo_cell) as (ps & _ & _ & _ & _ & R & Hp); [by vm_compute|done|].
  destruct (ready_is_durable (Engine0 := memory_engine) ps _ _ demo_ready R (demo_ready_ok ps) Hp) as (ctx & e' & Heq & R' & _).
  exists ps, (SaveCell (Engine0 := memory_engine) demo_cell eng_empty), ctx, e'. split; [exact Heq|]. split; [exact R'|reflexivity].
Defined.

Lemma compaction_drops_prefix_witness :
  ∃ ps (e e' : mem), rep (Engine0 := memory_engine) ps e demo_log ∧
    rep (Engine0 := memory_engine) (set_applyState (mkApplyState 8 (mkTruncated 7 6)) ps) e' (mkLog 7 6 [demo_entry 8 6]).
Proof.
  destruct (demo_rep true) as (ps0 & e & R0 & _ & Hc & _).
  set (ps := set_applyState (mkApplyState 8 (mkTruncated 5 5)) ps0).
  assert (rep (Engine0 := memory_engine) ps e demo_log) as R.
  { destruct R0 as [A1 A2 A3 A4 A5 A6 A7 A8]. by split. }
  destruct (doRaftLogGC (Engine0 := memory_engine) (Cell_ID (ps_cell ps)) 6 8 e) as [e'| |] eqn:Egc; [|discriminate Egc|discriminate Egc].
  exists ps, e, e'. split; [exact R|].
  destruct (compaction_drops_prefix (Engine0 := memory_engine) ps e demo_log 7 6 6 e' (mkApplyState 8 (mkTruncated 7 6)) R)
    as (_ & R' & _); [reflexivity|by vm_compute| |lia|exact Egc|exact R'].
  intros ent Hent. vm_compute in Hent. by injection Hent as <-.
Defined.
