(* ===== verification/RaftApply.v ===== *)
(** * Applying committed entries

    pkg/raftstore/raft_apply.go and raft_apply_cmd.go: the apply delegate of a
    cell peer takes the entries raft committed, checks their epoch, executes
    admin commands (change peer, split, log compaction) and redis writes, saves
    the apply state, and answers the commands that are waiting.  The state
    around the delegate is the [world]: the metadata engines, the data engines
    (type [D], with the handler table [redisWriteHandles] of the store and the
    [MSet] of the key-value engine), the responses handed to callbacks, and the
    snapshots told to stop.  A released command keeps its place in
    [pendingChangePeerCMD] with a nil request, as the pooled Go object does.
    Metrics of admin commands, logging and the secondary index (whose errors
    are only logged) are left out. *)

From S2P Require Import Prelude Encoding Meta Keys BTree KVTree RaftTypes RaftLog.

Record cmd := mkCmd { c_req : option RaftCMDRequest; c_cb : option Z; c_term : Z }.

Record applyMetrics := mkMetrics {
  sizeDiffHint : Z;
  deleteKeysHint : Z;
  writtenBytes : Z;
  writtenKeys : Z;
}.
Definition emptyApplyMetrics : applyMetrics := mkMetrics 0 0 0 0.

(** The redis batch: keys and values set, oldest first. *)
Abbreviation redisBatch := (list (bytes * bytes)).

Record changePeer := mkChangePeerResult { cp_confChange : option ConfChange; cp_peer : Peer; cp_cell : Cell }.
Inductive execResult :=
  | RsChangePeer (r : changePeer)
  | RsSplit (left_ right_ : Cell)
  | RsRaftGC (state : RaftTruncatedState) (firstIndex : Z).

Record applyDelegate := mkDelegate {
  d_peerID : Z;
  d_cell : Cell;
  d_pendingRemove : bool;
  d_applyState : RaftApplyState;
  d_appliedIndexTerm : Z;
  d_term : Z;
  d_pendingCMDs : list cmd;
  d_pendingChangePeerCMD : option cmd;
}.

Record world (E D : Type) := mkWorld {
  w_engines : Z → E;
  w_data : D;
  w_responses : list (Z * RaftCMDResponse);
  w_removedSnaps : list Z;
}.
Arguments mkWorld {E D} _ _ _ _.
Arguments w_engines {E D} _.
Arguments w_data {E D} _.
Arguments w_responses {E D} _.
Arguments w_removedSnaps {E D} _.

(** The context of one entry. *)
Record applyContext := mkApplyCtx {
  a_wb : writeBatch value;
  a_rb : redisBatch;
  a_applyState : RaftApplyState;
  a_req : RaftCMDRequest;
  a_index : Z;
  a_term : Z;
  a_metrics : applyMetrics;
}.

Record asyncApplyResult := mkAsyncResult {
  ar_cellID : Z;
  ar_appliedIndexTerm : Z;
  ar_applyState : RaftApplyState;
  ar_result : option execResult;
  ar_metrics : applyMetrics;
}.

Section apply.
Context {E D : Type} `{!Engine value E}.
(** The handlers of the store: they see the cell id, the request, the batch,
    the metrics and the data. *)
Definition write_handle := Z → Request → redisBatch * applyMetrics * D → outcome unit (Response * (redisBatch * applyMetrics * D)).
Context (enginesMask : Z) (redisWriteHandles : Z → option write_handle) (MSet : Z → redisBatch → D → D).
Abbreviation worldED := (world E D).
Abbreviation res A := (outcome unit A).

(** ** Engines *)
Definition getDriver (id : Z) : Z := Z.land enginesMask id.
Definition engine_of (w : worldED) (id : Z) : E := w_engines w (getDriver id).
Definition driver_write (id : Z) (wb : writeBatch value) (w : worldED) : worldED :=
  mkWorld (λ i, if decide (i = getDriver id) then Write wb (w_engines w i) else w_engines w i)
    (w_data w) (w_responses w) (w_removedSnaps w).
Definition set_data (x : D) (w : worldED) : worldED :=
  mkWorld (w_engines w) x (w_responses w) (w_removedSnaps w).

(** ** cmd.go *)
Definition getUUID (c : cmd) : res bytes :=
  match c_req c with
  | Some req => match Header req with Some h => Ok (Hdr_UUID h) | None => Panic end
  | None => Panic
  end.
Definition respond_requests (reqs : list Request) (resp : RaftCMDResponse) : res RaftCMDResponse :=
  match reqs with
  | [] => Ok resp
  | _ =>
      let! rsps :=
        (if bool_decide (length reqs ≠ length (Responses resp)) then
           match RspHeader resp with
           | None => Panic
           | Some _ =>
               if negb (bool_decide (Responses resp = [])) then Panic
               else Ok ((λ r, mkResponse (Req_UUID r) (Req_SessionID r) 0 NoError emptyReply) <$> reqs)
           end
         else Ok (zip_with (λ r p, mkResponse (Req_UUID r) (Req_SessionID r) (Rsp_Type p) (Rsp_Error p) (Rsp_Reply p))
                    reqs (Responses resp))) in
      let rsps := match RspHeader resp with
                  | Some h => (λ p, mkResponse (Rsp_UUID p) (Rsp_SessionID p) (Rsp_Type p) (RH_Error h) (Rsp_Reply p)) <$> rsps
                  | None => rsps
                  end in
      Ok (mkRaftRsp (RspHeader resp) rsps (AdminRsp resp))
  end.
(** [cmd.resp]; the command is released afterwards. *)
Definition cmd_resp (c : cmd) (resp : RaftCMDResponse) (w : worldED) : res worldED :=
  match c_cb c with
  | None => Ok w
  | Some cb =>
      match c_req c with
      | None => Panic
      | Some req =>
          let! resp := respond_requests (Requests req) resp in
          Ok (mkWorld (w_engines w) (w_data w) (w_responses w ++ [(cb, resp)]) (w_removedSnaps w))
      end
  end.
Definition releasedCmd : cmd := mkCmd None None 0.
Definition respCellNotFound (c : cmd) (cellID : Z) (w : worldED) : res worldED :=
  let! uuid := getUUID c in
  cmd_resp c (errorPbResp (CellNotFound cellID) uuid (c_term c)) w.

(** ** The delegate *)
Definition set_pendingCMDs (cs : list cmd) (d : applyDelegate) : applyDelegate :=
  mkDelegate (d_peerID d) (d_cell d) (d_pendingRemove d) (d_applyState d) (d_appliedIndexTerm d) (d_term d) cs (d_pendingChangePeerCMD d).
Definition set_pendingChange (c : option cmd) (d : applyDelegate) : applyDelegate :=
  mkDelegate (d_peerID d) (d_cell d) (d_pendingRemove d) (d_applyState d) (d_appliedIndexTerm d) (d_term d) (d_pendingCMDs d) c.
Definition set_dcell (c : Cell) (d : applyDelegate) : applyDelegate :=
  mkDelegate (d_peerID d) c (d_pendingRemove d) (d_applyState d) (d_appliedIndexTerm d) (d_term d) (d_pendingCMDs d) (d_pendingChangePeerCMD d).
Definition setPendingRemove (d : applyDelegate) : applyDelegate :=
  mkDelegate (d_peerID d) (d_cell d) true (d_applyState d) (d_appliedIndexTerm d) (d_term d) (d_pendingCMDs d) (d_pendingChangePeerCMD d).
Definition set_applied (st : RaftApplyState) (term : Z) (d : applyDelegate) : applyDelegate :=
  mkDelegate (d_peerID d) (d_cell d) (d_pendingRemove d) st (d_appliedIndexTerm d) term (d_pendingCMDs d) (d_pendingChangePeerCMD d).

Definition notifyStaleCMD (d : applyDelegate) (c : cmd) (w : worldED) : res worldED :=
  let! uuid := getUUID c in cmd_resp c (errorStaleCMDResp uuid (d_term d)) w.
Definition notifyCellRemoved (d : applyDelegate) (c : cmd) (w : worldED) : res worldED :=
  respCellNotFound c (Cell_ID (d_cell d)) w.

Fixpoint notify_all (f : cmd → worldED → res worldED) (cs : list cmd) (w : worldED) : res worldED :=
  match cs with
  | [] => Ok w
  | c :: cs' => let! w := f c w in notify_all f cs' w
  end.

Definition clearAllCommandsAsStale (d : applyDelegate) (w : worldED) : res (applyDelegate * worldED) :=
  let! w := notify_all (notifyStaleCMD d) (d_pendingCMDs d) w in
  let! w := match d_pendingChangePeerCMD d with
            | Some c => notifyStaleCMD d c w
            | None => Ok w
            end in
  Ok (set_pendingChange None (set_pendingCMDs [] d), w).

Definition destroy (d : applyDelegate) (w : worldED) : res (applyDelegate * worldED) :=
  let! w := notify_all (notifyCellRemoved d) (d_pendingCMDs d) w in
  let! w := match d_pendingChangePeerCMD d with
            | Some c => match c_req c with Some _ => notifyCellRemoved d c w | None => Ok w end
            | None => Ok w
            end in
  Ok (set_pendingChange None (set_pendingCMDs [] d), w).

Definition popPendingCMD (raftLogEntryTerm : Z) (cs : list cmd) : option (cmd * list cmd) :=
  match cs with
  | [] => None
  | c :: cs' => if bool_decide (c_term c > raftLogEntryTerm) then None else Some (c, cs')
  end.

Definition isChangePeerCMD (req : RaftCMDRequest) : bool :=
  match AdminReq req with Some (AChangePeer _ _) => true | _ => false end.

Definition req_uuid (req : RaftCMDRequest) : res bytes :=
  match Header req with Some h => Ok (Hdr_UUID h) | None => Panic end.

(** The loop of [findCB] over the pending commands: commands that do not match
    are stale. *)
Fixpoint find_pending (d : applyDelegate) (term : Z) (uuid : bytes) (cs : list cmd) (w : worldED) : res (option cmd * list cmd * worldED) :=
  match cs with
  | [] => Ok (None, [], w)
  | c :: cs' =>
      if bool_decide (c_term c > term) then Ok (None, cs, w)
      else let! u := getUUID c in
           if bool_decide (u = uuid) then Ok (Some c, cs', w)
           else let! w := notifyStaleCMD d c w in find_pending d term uuid cs' w
  end.

Definition findCB (d : applyDelegate) (ctx : applyContext) (w : worldED) : res (option cmd * applyDelegate * worldED) :=
  if isChangePeerCMD (a_req ctx) then
    match d_pendingChangePeerCMD d with
    | None => Ok (None, d, w)
    | Some c =>
        match c_req c with
        | None => Ok (None, d, w)
        | Some _ =>
            let! uuid := req_uuid (a_req ctx) in
            let! u := getUUID c in
            if bool_decide (uuid = u) then Ok (Some c, d, w)
            else let! w := notifyStaleCMD d c w in Ok (None, set_pendingChange (Some releasedCmd) d, w)
        end
    end
  else
    match d_pendingCMDs d with
    | [] => Ok (None, d, w)
    | _ =>
        let! uuid := req_uuid (a_req ctx) in
        let! (c, cs, w) := find_pending d (a_term ctx) uuid (d_pendingCMDs d) w in
        Ok (c, set_pendingCMDs cs d, w)
    end.

(** ** Admin commands *)
Definition set_wb (wb : writeBatch value) (ctx : applyContext) : applyContext :=
  mkApplyCtx wb (a_rb ctx) (a_applyState ctx) (a_req ctx) (a_index ctx) (a_term ctx) (a_metrics ctx).
Definition set_actx_state (st : RaftApplyState) (ctx : applyContext) : applyContext :=
  mkApplyCtx (a_wb ctx) (a_rb ctx) st (a_req ctx) (a_index ctx) (a_term ctx) (a_metrics ctx).

Inductive admin_error := ErrMissingSplitKey | ErrOutdatedFormat | ErrCompact.
(** Response, result, or error, with the new delegate, context and world. *)
Abbreviation admin_out := (res (option RaftCMDResponse * option execResult * option admin_error * applyDelegate * applyContext * worldED)).

Definition adminRsp (r : AdminResponse) : RaftCMDResponse := mkRaftRsp None [] (Some r).

Definition doExecChangePeer (t : ConfChangeType) (peer : Peer) (d : applyDelegate) (ctx : applyContext) (w : worldED) : admin_out :=
  let exists_ := findPeer (d_cell d) (Peer_StoreID peer) in
  let ep := Epoch (d_cell d) in
  let d := set_dcell (set_epoch (mkCellEpoch (u64 (ConfVer ep + 1)) (CellVer ep)) (d_cell d)) d in
  let finish d w :=
    let state := if d_pendingRemove d then PeerTombstone else Normal in
    let ctx := set_wb (updatePeerState (d_cell d) state (a_wb ctx)) ctx in
    Ok (Some (adminRsp (RChangePeer (d_cell d))), Some (RsChangePeer (mkChangePeerResult None peer (d_cell d))), None, d, ctx, w) in
  match t with
  | AddNode =>
      match exists_ with
      | Some _ => Ok (None, None, None, d, ctx, w)
      | None => finish (set_dcell (set_peers (Peers (d_cell d) ++ [peer]) (d_cell d)) d) w
      end
  | RemoveNode =>
      match exists_ with
      | None => Ok (None, None, None, d, ctx, w)
      | Some _ =>
          let d := if bool_decide (d_peerID d = Peer_ID peer) then setPendingRemove d else d in
          let d := set_dcell (removePeer (d_cell d) (Peer_StoreID peer)) d in
          finish d (mkWorld (w_engines w) (w_data w) (w_responses w) (w_removedSnaps w ++ [Peer_ID peer]))
      end
  end.

Definition doExecSplit (splitKey : bytes) (newCellID : Z) (newPeerIDs : list Z) (d : applyDelegate) (ctx : applyContext) (w : worldED) : admin_out :=
  if bool_decide (splitKey = []) then Ok (None, None, Some ErrMissingSplitKey, d, ctx, w)
  else match getOriginKey splitKey with
  | Err _ | Panic => Panic
  | Ok key =>
      let c := d_cell d in
      if bltb key (Start c) then Ok (None, None, None, d, ctx, w)
      else match checkKeyInCell key c with
      | Some _ => Ok (None, None, None, d, ctx, w)
      | None =>
          if bool_decide (length newPeerIDs ≠ length (Peers c)) then Ok (None, None, None, d, ctx, w)
          else
            let ver := u64 (CellVer (Epoch c) + 1) in
            let newCell := mkCell newCellID key (End c) (mkCellEpoch (ConfVer (Epoch c)) ver)
                             (zip_with (λ id p, mkPeer id (Peer_StoreID p)) newPeerIDs (Peers c)) in
            let c' := mkCell (Cell_ID c) (Start c) key (mkCellEpoch (ConfVer (Epoch c)) ver) (Peers c) in
            let d := set_dcell c' d in
            let ctx := set_wb (updatePeerState c' Normal (a_wb ctx)) ctx in
            let wb := writeInitialState newCellID (updatePeerState newCell Normal []) in
            let w := driver_write newCellID wb w in
            Ok (Some (adminRsp (RSplit c' newCell)), Some (RsSplit c' newCell), None, d, ctx, w)
      end
  end.

Definition doExecRaftGC (compactIndex compactTerm : Z) (d : applyDelegate) (ctx : applyContext) (w : worldED) : admin_out :=
  let firstIndex := u64 (Trunc_Index (TruncatedState (a_applyState ctx)) + 1) in
  if bool_decide (compactIndex ≤ firstIndex) then Ok (None, None, None, d, ctx, w)
  else if bool_decide (compactTerm = 0) then Ok (None, None, Some ErrOutdatedFormat, d, ctx, w)
  else match compactRaftLog (a_applyState ctx) compactIndex compactTerm with
  | Ok st => Ok (Some (adminRsp RRaftLogGC), Some (RsRaftGC (TruncatedState st) firstIndex), None, d, set_actx_state st ctx, w)
  | _ => Ok (None, None, Some ErrCompact, d, ctx, w)
  end.

Definition execAdminRequest (a : AdminRequest) (d : applyDelegate) (ctx : applyContext) (w : worldED) : admin_out :=
  match a with
  | AChangePeer t peer => doExecChangePeer t peer d ctx w
  | ASplit k id ids => doExecSplit k id ids d ctx w
  | ARaftLogGC i t => doExecRaftGC i t d ctx w
  | _ => Ok (None, None, None, d, ctx, w)
  end.

(** ** Writes *)
Fixpoint exec_requests (cellID : Z) (reqs : list Request) (s : redisBatch * applyMetrics * D) (acc : list Response)
    : res (list Response * (redisBatch * applyMetrics * D)) :=
  match reqs with
  | [] => Ok (acc, s)
  | req :: reqs' =>
      match redisWriteHandles (Req_Type req) with
      | Some h => let! (rsp, s) := h cellID req s in exec_requests cellID reqs' s (acc ++ [rsp])
      | None => exec_requests cellID reqs' s acc
      end
  end.

Definition execWriteRequest (d : applyDelegate) (ctx : applyContext) (w : worldED) : res (RaftCMDResponse * applyContext * worldED) :=
  let cellID := match Header (a_req ctx) with Some h => Hdr_CellId h | None => 0 end in
  let! (rsps, (rb, ms, dt)) := exec_requests cellID (Requests (a_req ctx)) (a_rb ctx, a_metrics ctx, w_data w) [] in
  Ok (mkRaftRsp None rsps None,
      mkApplyCtx (a_wb ctx) rb (a_applyState ctx) (a_req ctx) (a_index ctx) (a_term ctx) ms, set_data dt w).

(** ** One command *)
Definition exec_cmd (d : applyDelegate) (ctx : applyContext) (w : worldED)
    : res (option RaftCMDResponse * option execResult * applyDelegate * applyContext * worldED) :=
  let! uuid := req_uuid (a_req ctx) in
  if negb (checkEpoch (d_cell d) (a_req ctx)) then
    Ok (Some (errorStaleEpochResp uuid (d_term d) [d_cell d]), None, d, ctx, w)
  else match AdminReq (a_req ctx) with
  | Some a =>
      let! (resp, result, err, d, ctx, w) := execAdminRequest a d ctx w in
      Ok (match err with
          | Some _ => Some (errorStaleEpochResp uuid (d_term d) [d_cell d])
          | None => resp
          end, result, d, ctx, w)
  | None => let! (resp, ctx, w) := execWriteRequest d ctx w in Ok (Some resp, None, d, ctx, w)
  end.

Definition release_pending (c : option cmd) (isChange : bool) (d : applyDelegate) : applyDelegate :=
  match c with
  | Some _ => if isChange then set_pendingChange (Some releasedCmd) d else d
  | None => d
  end.

Definition doApplyRaftCMD (d : applyDelegate) (ctx : applyContext) (w : worldED)
    : res (option execResult * applyDelegate * applyContext * worldED) :=
  if bool_decide (a_index ctx = 0) then Panic
  else
    let! (c, d, w) := findCB d ctx w in
    if d_pendingRemove d then Panic
    else
      let! (resp, result, d, ctx, w) := exec_cmd d ctx w in
      let w := match a_rb ctx with
               | [] => w
               | _ => set_data (MSet (Cell_ID (d_cell d)) (a_rb ctx) (w_data w)) w
               end in
      let st := mkApplyState (a_index ctx) (TruncatedState (a_applyState ctx)) in
      let wb := if d_pendingRemove d then a_wb ctx
                else a_wb ctx ++ [BSet (getApplyStateKey (Cell_ID (d_cell d))) (VApplyState st)] in
      let w := driver_write (Cell_ID (d_cell d)) wb w in
      let d := set_applied st (a_term ctx) d in
      let! uuid := req_uuid (a_req ctx) in
      let! (d, w) :=
        match c, resp with
        | Some c, Some resp =>
            let! w := cmd_resp c (buildUUID uuid (buildTerm (d_term d) resp)) w in
            Ok (release_pending (Some c) (isChangePeerCMD (a_req ctx)) d, w)
        | _, _ => Ok (d, w)
        end in
      Ok (result, d, ctx, w).

(** ** Committed entries *)
Fixpoint pop_stale (d : applyDelegate) (term : Z) (cs : list cmd) (w : worldED) : res (list cmd * worldED) :=
  match cs with
  | [] => Ok ([], w)
  | c :: cs' =>
      if bool_decide (c_term c > term) then Ok (cs, w)
      else let! w := notifyStaleCMD d c w in pop_stale d term cs' w
  end.

Definition newCtx (d : applyDelegate) (req : RaftCMDRequest) (entry : Entry) : applyContext :=
  mkApplyCtx [] [] (d_applyState d) req (E_Index entry) (E_Term entry) emptyApplyMetrics.

Definition applyEntry (entry : Entry) (d : applyDelegate) (w : worldED) : res (option execResult * applyMetrics * applyDelegate * worldED) :=
  match E_Data entry with
  | DCommand req =>
      let! (r, d, ctx, w) := doApplyRaftCMD d (newCtx d req entry) w in Ok (r, a_metrics ctx, d, w)
  | DConfChange _ => Panic
  | DEmpty =>
      let st := mkApplyState (E_Index entry) (TruncatedState (d_applyState d)) in
      let w := driver_write (Cell_ID (d_cell d)) [BSet (getApplyStateKey (Cell_ID (d_cell d))) (VApplyState st)] w in
      let d := mkDelegate (d_peerID d) (d_cell d) (d_pendingRemove d) st (E_Term entry) (d_term d) (d_pendingCMDs d) (d_pendingChangePeerCMD d) in
      if bool_decide (E_Term entry ≤ 0) then Panic
      else let! (cs, w) := pop_stale d (E_Term entry - 1) (d_pendingCMDs d) w in
           Ok (None, emptyApplyMetrics, set_pendingCMDs cs d, w)
  end.

Definition applyConfChange (entry : Entry) (d : applyDelegate) (w : worldED) : res (option execResult * applyMetrics * applyDelegate * worldED) :=
  match E_Data entry with
  | DConfChange cc =>
      let! (r, d, ctx, w) := doApplyRaftCMD d (newCtx d (CC_Context cc) entry) w in
      match r with
      | None => Ok (Some (RsChangePeer (mkChangePeerResult None (mkPeer 0 0) emptyCell)), a_metrics ctx, d, w)
      | Some (RsChangePeer r) => Ok (Some (RsChangePeer (mkChangePeerResult (Some cc) (cp_peer r) (cp_cell r))), a_metrics ctx, d, w)
      | Some _ => Panic
      end
  | _ => Panic
  end.

Definition apply_one (entry : Entry) (d : applyDelegate) (w : worldED) : res (option execResult * applyMetrics * applyDelegate * worldED) :=
  if bool_decide (u64 (AppliedIndex (d_applyState d) + 1) ≠ E_Index entry) then Panic
  else match E_Type entry with
       | EntryNormal => applyEntry entry d w
       | EntryConfChange => applyConfChange entry d w
       end.

Fixpoint applyCommittedEntries (entries : list Entry) (d : applyDelegate) (w : worldED) : res (list asyncApplyResult * applyDelegate * worldED) :=
  match entries with
  | [] => Ok ([], d, w)
  | entry :: entries' =>
      if d_pendingRemove d then Ok ([], d, w)
      else
        let! (r, ms, d, w) := apply_one entry d w in
        let a := mkAsyncResult (Cell_ID (d_cell d)) (d_appliedIndexTerm d) (d_applyState d) r ms in
        let! (rs, d, w) := applyCommittedEntries entries' d w in
        Ok (a :: rs, d, w)
  end.
End apply.
