(* ===== verification/ApplyProps.v ===== *)
(** * Properties of the apply path

    What a replica does with the entries raft commits (the definitions of
    RaftApply): replicas that start alike end alike, whatever commands their
    stores are waiting for; the apply state and the cell a store persists are
    the ones in memory, so that a restart continues with the next entry; a
    split divides the key range of a cell; and a membership change that
    changes nothing leaves the cell unable to change its members. *)

From S2P Require Import Prelude Encoding Meta Keys BTree KVTree RaftTypes RaftLog RaftApply.

Section apply_props.
Context {E D : Type} `{!Engine value E}.
Context (enginesMask : Z) (redisWriteHandles : Z → option (@write_handle D)) (MSet : Z → redisBatch → D → D).
Abbreviation worldED := (world E D).

(** ** Commands that can be answered *)

(** A request the store can answer: it carries a header, an admin command has
    no redis requests, and every redis request has a handler. *)
Definition answerable (req : RaftCMDRequest) : Prop :=
  is_Some (Header req) ∧
  match AdminReq req with
  | Some _ => Requests req = []
  | None => Forall (λ r, is_Some (redisWriteHandles (Req_Type r))) (Requests req)
  end.

Definition uuid_of (req : RaftCMDRequest) : option bytes := Hdr_UUID <$> Header req.

(** A waiting command that has not been released carries a header, and when it
    has the UUID of one of the requests [rs] it is that request. *)
Definition waiting_ok (rs : list RaftCMDRequest) (c : cmd) : Prop :=
  ∃ req, c_req c = Some req ∧ is_Some (Header req) ∧ ∀ r, r ∈ rs → uuid_of r = uuid_of req → req = r.
Definition pending_ok (rs : list RaftCMDRequest) (d : applyDelegate) : Prop :=
  Forall (waiting_ok rs) (d_pendingCMDs d) ∧
  ∀ c, d_pendingChangePeerCMD d = Some c → c_req c = None ∨ waiting_ok rs c.

(** A response that [cmd.resp] can spread over the requests. *)
Definition fits (req : RaftCMDRequest) (resp : RaftCMDResponse) : Prop :=
  length (Requests req) = length (Responses resp) ∨ (is_Some (RspHeader resp) ∧ Responses resp = []).

(** Two worlds that differ in the responses only. *)
Definition same_stores (w1 w2 : worldED) : Prop :=
  w_engines w1 = w_engines w2 ∧ w_data w1 = w_data w2 ∧ w_removedSnaps w1 = w_removedSnaps w2.
#[export] Instance same_stores_equiv : Equivalence same_stores.
Proof. unfold same_stores. split; [by intros ?|by intros ?? (? & ? & ?)|intros ??? (? & ? & ?) (? & ? & ?); by split_and!; etrans]. Qed.

Lemma respond_requests_ok reqs resp : length reqs = length (Responses resp) ∨ (is_Some (RspHeader resp) ∧ Responses resp = []) →
  ∃ r, respond_requests reqs resp = Ok r.
Proof.
  intros H. destruct reqs as [|q reqs]; [by eexists|]. unfold respond_requests.
  case_bool_decide as El; simpl; [|by eexists].
  destruct H as [?|[[h Hh] Hr]]; [done|]. rewrite Hh, Hr. simpl. by eexists.
Qed.

Lemma cmd_resp_ok c req resp (w : worldED) : c_req c = Some req → fits req resp →
  ∃ w', cmd_resp c resp w = Ok w' ∧ same_stores w' w.
Proof.
  intros Hreq Hfit. unfold cmd_resp. destruct (c_cb c); [|by exists w]. rewrite Hreq.
  destruct (respond_requests_ok (Requests req) resp Hfit) as [r ->]. simpl. by eexists.
Qed.

Lemma notifyStaleCMD_ok d rs c (w : worldED) : waiting_ok rs c → ∃ w', notifyStaleCMD d c w = Ok w' ∧ same_stores w' w.
Proof.
  intros (req & Hreq & [h Hh] & _). unfold notifyStaleCMD, getUUID. rewrite Hreq, Hh. simpl.
  apply (cmd_resp_ok c req); [done|]. right. by split; [eexists|].
Qed.

(** ** Finding the command an entry answers *)
Lemma find_pending_ok d term r rs cs (w : worldED) : r ∈ rs → is_Some (Header r) → Forall (waiting_ok rs) cs →
  ∃ c cs' w', find_pending d term (from_option id [] (uuid_of r)) cs w = Ok (c, cs', w') ∧
    same_stores w' w ∧ Forall (waiting_ok rs) cs' ∧ (∀ x, c = Some x → c_req x = Some r).
Proof.
  intros Hr [hr Hhr] HF. revert w. induction HF as [|c cs Hc HF IH]; intros w; simpl; [by eexists _, _, _|].
  case_bool_decide; [by eexists _, _, _; split_and!; [| |constructor|]|].
  pose proof Hc as (req & Hreq & [h Hh] & Huniq). unfold getUUID at 1. rewrite Hreq, Hh. simpl. case_bool_decide as Eu.
  - eexists _, _, _. split_and!; [done|done|done|]. intros x [= <-]. rewrite Hreq. f_equal. apply Huniq; [done|].
    unfold uuid_of in *. rewrite Hh, Hhr in *. simpl in *. by rewrite Eu.
  - destruct (notifyStaleCMD_ok d rs c w Hc) as (w1 & -> & Hw1). simpl.
    destruct (IH w1) as (x & cs' & w2 & -> & ? & ? & ?). eexists _, _, _. split_and!; [done|by etrans|done..].
Qed.

(** What [findCB] may change of the delegate. *)
Definition same_replica (d1 d2 : applyDelegate) : Prop :=
  d_peerID d1 = d_peerID d2 ∧ d_cell d1 = d_cell d2 ∧ d_pendingRemove d1 = d_pendingRemove d2 ∧ d_applyState d1 = d_applyState d2 ∧
  d_appliedIndexTerm d1 = d_appliedIndexTerm d2 ∧ d_term d1 = d_term d2.
#[local] Instance same_replica_equiv : Equivalence same_replica.
Proof.
  unfold same_replica. split; [by intros ?|by intros ?? (? & ? & ? & ? & ? & ?)|].
  intros ??? (? & ? & ? & ? & ? & ?) (? & ? & ? & ? & ? & ?); by split_and!; etrans.
Qed.

Lemma findCB_ok d ctx rs (w : worldED) : a_req ctx ∈ rs → is_Some (Header (a_req ctx)) → pending_ok rs d →
  ∃ c d' w', findCB d ctx w = Ok (c, d', w') ∧ same_replica d' d ∧ same_stores w' w ∧ pending_ok rs d' ∧
    (∀ x, c = Some x → c_req x = Some (a_req ctx)).
Proof.
  intros Hin [h Hh] Hpo. pose proof Hpo as [Hp Hch]. unfold findCB. destruct (isChangePeerCMD (a_req ctx)) eqn:Eq.
  - destruct (d_pendingChangePeerCMD d) as [c|] eqn:Ec; [|by eexists _, _, _].
    destruct (c_req c) as [q|] eqn:Eqc; [|by eexists _, _, _].
    destruct (Hch c eq_refl) as [?|Hc]; [congruence|]. pose proof Hc as (req & Hreq & [hc Hhc] & Huniq).
    unfold req_uuid, getUUID. rewrite Hh, Hreq, Hhc. simpl. case_bool_decide as Eu.
    + eexists _, _, _. split_and!; [done|done|done|done|]. intros x [= <-]. rewrite Hreq. f_equal.
      apply Huniq; [done|]. unfold uuid_of. rewrite Hh, Hhc. simpl. by rewrite Eu.
    + destruct (notifyStaleCMD_ok d rs c w Hc) as (w1 & -> & ?). simpl. eexists _, _, _.
      split_and!; [done|done|done| |done]. split; [done|]. intros x [= <-]. by left.
  - destruct (d_pendingCMDs d) as [|c cs] eqn:Ecs; [by eexists _, _, _|].
    unfold req_uuid. rewrite Hh. cbn [outcome_bind].
    destruct (find_pending_ok d (a_term ctx) (a_req ctx) rs (c :: cs) w Hin) as (x & cs' & w' & Hf & Hw & HF & Hx); [by eexists|done|].
    unfold uuid_of in Hf. rewrite Hh in Hf. cbn [fmap option_fmap option_map from_option id] in Hf.
    rewrite Hf. cbn [outcome_bind]. eexists _, _, _. by split_and!.
Qed.

(** ** Executing a command *)

(** Two replicas of a cell that have applied the same entries. *)
Definition alike (d1 d2 : applyDelegate) : Prop :=
  d_cell d1 = d_cell d2 ∧ d_applyState d1 = d_applyState d2 ∧ d_appliedIndexTerm d1 = d_appliedIndexTerm d2.
Definition ctx_alike (c1 c2 : applyContext) : Prop :=
  a_rb c1 = a_rb c2 ∧ a_applyState c1 = a_applyState c2 ∧ a_req c1 = a_req c2 ∧ a_index c1 = a_index c2 ∧
  a_term c1 = a_term c2 ∧ a_metrics c1 = a_metrics c2.
Definition same_pending (d1 d2 : applyDelegate) : Prop :=
  d_pendingCMDs d1 = d_pendingCMDs d2 ∧ d_pendingChangePeerCMD d1 = d_pendingChangePeerCMD d2.

Lemma same_replica_alike d1 d1' d2 : same_replica d1' d1 → alike d1 d2 → alike d1' d2.
Proof. intros (_ & H1 & _ & H2 & H3 & _) (G1 & G2 & G3). split_and!; congruence. Qed.

Lemma pending_ok_same rs d1 d2 : same_pending d1 d2 → pending_ok rs d2 → pending_ok rs d1.
Proof. intros [H1 H2]. unfold pending_ok. by rewrite H1, H2. Qed.

(** An admin command gives the same result on replicas that are alike. *)
Lemma execAdminRequest_alike a d1 d2 ctx1 ctx2 (w1 w2 : worldED) resp r err d2' ctx2' w2' :
  alike d1 d2 → ctx_alike ctx1 ctx2 → w_data w1 = w_data w2 →
  execAdminRequest enginesMask a d2 ctx2 w2 = Ok (resp, r, err, d2', ctx2', w2') →
  ∃ d1' ctx1' w1', execAdminRequest enginesMask a d1 ctx1 w1 = Ok (resp, r, err, d1', ctx1', w1') ∧
    alike d1' d2' ∧ ctx_alike ctx1' ctx2' ∧ w_data w1' = w_data w2' ∧ same_pending d1' d1 ∧ a_req ctx1' = a_req ctx1 ∧
    (∀ x, resp = Some x → Responses x = []).
Proof.
  destruct d1 as [p1 c1 b1 s1 i1 t1 q1 n1], d2 as [p2 c2 b2 s2 i2 t2 q2 n2],
    ctx1 as [wb1 rb1 st1 rq1 ix1 tm1 ms1], ctx2 as [wb2 rb2 st2 rq2 ix2 tm2 ms2].
  intros (? & ? & ?) (? & ? & ? & ? & ? & ?) Hw; simpl in *; subst.
  destruct a; simpl; try (intros [= <- <- <- <- <- <-]; by eexists _, _, _).
  - unfold doExecChangePeer; simpl. destruct changeType, (findPeer c2 (Peer_StoreID peer));
      try (intros [= <- <- <- <- <- <-]; by eexists _, _, _).
    + intros [= <- <- <- <- <- <-]. eexists _, _, _. split; [done|]. split_and!; try done. by intros x [= <-].
    + destruct (bool_decide (p1 = _)), (bool_decide (p2 = _)); intros [= <- <- <- <- <- <-]; eexists _, _, _;
        (split; [done|]); split_and!; try done; by intros x [= <-].
  - unfold doExecSplit; simpl. case_bool_decide; [intros [= <- <- <- <- <- <-]; by eexists _, _, _|].
    destruct (getOriginKey splitKey) as [key| |]; try done.
    destruct (bltb key (Start c2)); [intros [= <- <- <- <- <- <-]; by eexists _, _, _|].
    destruct (checkKeyInCell key c2); [intros [= <- <- <- <- <- <-]; by eexists _, _, _|].
    case_bool_decide; intros [= <- <- <- <- <- <-]; eexists _, _, _; (split; [done|]); split_and!; try done.
    by intros x [= <-].
  - unfold doExecRaftGC; simpl. case_bool_decide; [intros [= <- <- <- <- <- <-]; by eexists _, _, _|].
    case_bool_decide; [intros [= <- <- <- <- <- <-]; by eexists _, _, _|].
    destruct (compactRaftLog _ _ _); intros [= <- <- <- <- <- <-]; eexists _, _, _; (split; [done|]); split_and!; try done.
    by intros x [= <-].
Qed.

Lemma exec_requests_length id reqs : ∀ s acc rsps s', Forall (λ r, is_Some (redisWriteHandles (Req_Type r))) reqs →
  exec_requests redisWriteHandles id reqs s acc = Ok (rsps, s') → length rsps = (length acc + length reqs)%nat.
Proof.
  induction reqs as [|q reqs IH]; intros s acc rsps s' HF; simpl; [intros [= <- <-]; lia|].
  apply Forall_cons in HF as [[h Hh] HF]. rewrite Hh. destruct (h id q s) as [[rsp s1]| |]; try done. simpl.
  intros H%IH; [|done]. rewrite length_app in H. simpl in H. lia.
Qed.

Lemma exec_cmd_alike d1 d2 ctx1 ctx2 (w1 w2 : worldED) resp2 r d2' ctx2' w2' :
  alike d1 d2 → ctx_alike ctx1 ctx2 → w_data w1 = w_data w2 → answerable (a_req ctx1) →
  exec_cmd enginesMask redisWriteHandles d2 ctx2 w2 = Ok (resp2, r, d2', ctx2', w2') →
  ∃ resp1 d1' ctx1' w1', exec_cmd enginesMask redisWriteHandles d1 ctx1 w1 = Ok (resp1, r, d1', ctx1', w1') ∧
    alike d1' d2' ∧ ctx_alike ctx1' ctx2' ∧ w_data w1' = w_data w2' ∧ same_pending d1' d1 ∧ a_req ctx1' = a_req ctx1 ∧
    (∀ x, resp1 = Some x → fits (a_req ctx1) x).
Proof.
  intros Hd Hc Hw [[h Hh] Hans]. pose proof Hd as (Ecell & _). pose proof Hc as (Hrb & Hst & Hreq & Hix & Htm & Hms).
  unfold exec_cmd, req_uuid. rewrite <-Hreq, Hh, <-Ecell. cbn [outcome_bind].
  destruct (checkEpoch (d_cell d1) (a_req ctx1)); cbn [negb].
  2: { intros [= <- <- <- <- <-]. eexists _, _, _, _. split; [done|]. split_and!; try done.
       intros x [= <-]. right. by split; [eexists|]. }
  destruct (AdminReq (a_req ctx1)) as [a|].
  - destruct (execAdminRequest enginesMask a d2 ctx2 w2) as [[[[[[rp r'] err] d'] ctx'] w']| |] eqn:Ex; try done. cbn [outcome_bind].
    intros [= <- <- <- <- <-].
    destruct (execAdminRequest_alike a d1 d2 ctx1 ctx2 w1 w2 _ _ _ _ _ _ Hd Hc Hw Ex) as (d1' & ctx1' & w1' & -> & ? & ? & ? & ? & ? & Hrp).
    cbn [outcome_bind]. eexists _, _, _, _. split; [done|]. split_and!; try done.
    destruct err as [er|]; intros x; [intros [= <-]; right; by split; [eexists|]|]. intros Hx%Hrp. left. by rewrite Hans, Hx.
  - unfold execWriteRequest. rewrite <-Hreq, <-Hrb, <-Hms, <-Hw. 
    destruct (exec_requests _ _ _ _ _) as [[rsps [[rb ms] dt]]| |] eqn:Ex; try done. cbn [outcome_bind].
    intros [= <- <- <- <- <-]. eexists _, _, _, _. split; [done|]. split_and!; try done.
    intros x [= <-]. left. simpl. by rewrite (exec_requests_length _ _ _ _ _ _ Hans Ex).
Qed.

(** Answering commands touches neither the replica nor the stores. *)
Lemma cmd_resp_frame c resp (w w' : worldED) : cmd_resp c resp w = Ok w' → same_stores w' w.
Proof.
  unfold cmd_resp. destruct (c_cb c); [|by intros [= <-]]. destruct (c_req c) as [q|]; [|done].
  destruct (respond_requests _ _); try done. simpl. by intros [= <-].
Qed.
Lemma notifyStaleCMD_frame d c (w w' : worldED) : notifyStaleCMD d c w = Ok w' → same_stores w' w.
Proof. unfold notifyStaleCMD. destruct (getUUID c); try done. simpl. apply cmd_resp_frame. Qed.
Lemma find_pending_frame d term uuid cs : ∀ (w w' : worldED) c cs',
  find_pending d term uuid cs w = Ok (c, cs', w') → same_stores w' w.
Proof.
  induction cs as [|x cs IH]; intros w w' c cs'; simpl; [by intros [= <- <- <-]|].
  case_bool_decide; [by intros [= <- <- <-]|]. destruct (getUUID x); try done. simpl.
  case_bool_decide; [by intros [= <- <- <-]|]. destruct (notifyStaleCMD d x w) eqn:En; try done. simpl.
  intros Hf%IH. etrans; [done|]. by apply notifyStaleCMD_frame in En.
Qed.
Lemma findCB_frame d ctx (w w' : worldED) c d' : findCB d ctx w = Ok (c, d', w') → same_replica d' d ∧ same_stores w' w.
Proof.
  unfold findCB. destruct (isChangePeerCMD _).
  - destruct (d_pendingChangePeerCMD d) as [x|]; [|by intros [= <- <- <-]].
    destruct (c_req x) as [q|]; [|by intros [= <- <- <-]]. destruct (req_uuid _); try done. simpl.
    destruct (getUUID x); try done. simpl. case_bool_decide; [by intros [= <- <- <-]|].
    destruct (notifyStaleCMD d x w) eqn:En; try done. simpl. intros [= <- <- <-]. by apply notifyStaleCMD_frame in En.
  - destruct (d_pendingCMDs d) as [|x cs]; [by intros [= <- <- <-]|]. destruct (req_uuid _); try done. cbn [outcome_bind].
    destruct (find_pending _ _ _ _ _) as [[[y cs'] w1]| |] eqn:Ef; try done. cbn [outcome_bind]. intros [= <- <- <-].
    by apply find_pending_frame in Ef.
Qed.

(** The last part of [doApplyRaftCMD]: saving what was applied. *)
Definition commit (d : applyDelegate) (ctx : applyContext) (w : worldED) : applyDelegate * worldED :=
  let w := match a_rb ctx with [] => w | _ => set_data (MSet (Cell_ID (d_cell d)) (a_rb ctx) (w_data w)) w end in
  let st := mkApplyState (a_index ctx) (TruncatedState (a_applyState ctx)) in
  let wb := if d_pendingRemove d then a_wb ctx
            else a_wb ctx ++ [BSet (getApplyStateKey (Cell_ID (d_cell d))) (VApplyState st)] in
  (set_applied st (a_term ctx) d, driver_write enginesMask (Cell_ID (d_cell d)) wb w).

Lemma doApplyRaftCMD_inv d ctx (w : worldED) r d' ctx' w' :
  doApplyRaftCMD enginesMask redisWriteHandles MSet d ctx w = Ok (r, d', ctx', w') →
  ∃ c d0 w0 resp d1 w1, findCB d ctx w = Ok (c, d0, w0) ∧ a_index ctx ≠ 0 ∧ d_pendingRemove d0 = false ∧
    exec_cmd enginesMask redisWriteHandles d0 ctx w0 = Ok (resp, r, d1, ctx', w1) ∧
    same_replica d' (commit d1 ctx' w1).1 ∧ same_stores w' (commit d1 ctx' w1).2.
Proof.
  unfold doApplyRaftCMD. case_bool_decide as Ei; [done|].
  destruct (findCB d ctx w) as [[[c d0] w0]| |]; try done. cbn [outcome_bind].
  destruct (d_pendingRemove d0) eqn:Ep; [done|].
  destruct (exec_cmd _ _ d0 ctx w0) as [[[[[resp r'] d1] ctx1] w1]| |] eqn:Ex; try done. cbn [outcome_bind]. cbv zeta.
  destruct (req_uuid (a_req ctx1)) as [uuid| |]; try done. cbn [outcome_bind]. intros H.
  assert (ctx' = ctx1) as ->.
  { destruct c as [c|], resp as [resp|]; try (by injection H as <- <- <- <-).
    destruct (cmd_resp c _ _); try done. by injection H as <- <- <- <-. }
  exists c, d0, w0, resp, d1, w1. unfold commit. cbv zeta. cbn [fst snd].
  set (d2 := set_applied _ _ d1) in *. set (w2 := driver_write _ _ _ _) in *. clearbody d2 w2.
  destruct c as [c|], resp as [resp|]; try (injection H as <- <- <-; by split_and!).
  destruct (cmd_resp c _ w2) as [w3| |] eqn:Er; try done. cbn [outcome_bind] in H. injection H as <- <- <-.
  apply cmd_resp_frame in Er. unfold release_pending. by destruct (isChangePeerCMD (a_req ctx1)).
Qed.

Lemma commit_alike d1 d2 ctx1 ctx2 (w1 w2 : worldED) : alike d1 d2 → ctx_alike ctx1 ctx2 → w_data w1 = w_data w2 →
  alike (commit d1 ctx1 w1).1 (commit d2 ctx2 w2).1 ∧ w_data (commit d1 ctx1 w1).2 = w_data (commit d2 ctx2 w2).2.
Proof.
  intros (H1 & H2 & H3) (G1 & G2 & G3 & G4 & _) Hw. unfold commit; simpl. rewrite <-G1, <-G2, <-G4, <-H1. split; [by split_and!|].
  destruct (a_rb ctx1); simpl; [done|]. by rewrite Hw.
Qed.

Lemma doApplyRaftCMD_alike rs d1 d2 ctx (w1 w2 : worldED) r d2' ctx2' w2' :
  alike d1 d2 → w_data w1 = w_data w2 → d_pendingRemove d1 = false →
  a_req ctx ∈ rs → answerable (a_req ctx) → pending_ok rs d1 →
  doApplyRaftCMD enginesMask redisWriteHandles MSet d2 ctx w2 = Ok (r, d2', ctx2', w2') →
  ∃ d1' ctx1' w1', doApplyRaftCMD enginesMask redisWriteHandles MSet d1 ctx w1 = Ok (r, d1', ctx1', w1') ∧
    alike d1' d2' ∧ a_metrics ctx1' = a_metrics ctx2' ∧ w_data w1' = w_data w2' ∧ pending_ok rs d1'.
Proof.
  intros Hd Hw Hrm Hin Hans Hpend (c2 & e2 & v2 & resp2 & f2 & x2 & Hf2 & Hix & Hrm2 & Hx2 & Hd2' & Hw2')%doApplyRaftCMD_inv.
  apply findCB_frame in Hf2 as [He2 Hv2].
  destruct (findCB_ok d1 ctx rs w1 Hin (proj1 Hans) Hpend) as (c1 & e1 & v1 & Hf1 & He1 & Hv1 & Hpend1 & Hc1).
  assert (alike e1 e2) as Hee.
  { destruct He1 as (_ & ? & _ & ? & ? & _), He2 as (_ & ? & _ & ? & ? & _), Hd as (? & ? & ?). split_and!; congruence. }
  assert (w_data v1 = w_data v2) as Hvv by (destruct Hv1 as (_ & -> & _), Hv2 as (_ & -> & _); done).
  destruct (exec_cmd_alike e1 e2 ctx ctx v1 v2 _ _ _ _ _ Hee ltac:(by split_and!) Hvv Hans Hx2)
    as (resp1 & f1 & ctx1 & x1 & Hx1 & Hff & Hcc & Hxx & Hpe & Hreq & Hfit).
  destruct (commit_alike f1 f2 ctx1 ctx2' x1 x2 Hff Hcc Hxx) as [Hg Hy].
  assert (pending_ok rs (commit f1 ctx1 x1).1) as Hpend2 by (apply (pending_ok_same rs _ e1); [|done]; exact Hpe).
  unfold doApplyRaftCMD. rewrite bool_decide_eq_false_2, Hf1 by done. cbn [outcome_bind].
  destruct He1 as (_ & _ & -> & _). rewrite Hrm, Hx1. cbn [outcome_bind]. cbv zeta.
  unfold commit in Hg, Hy, Hpend2, Hd2', Hw2'. cbn [fst snd] in Hg, Hy, Hpend2, Hd2', Hw2'.
  set (g1 := set_applied _ _ f1) in *. set (y1 := driver_write _ (Cell_ID (d_cell f1)) _ _) in *.
  set (g2 := set_applied _ _ f2) in *. set (y2 := driver_write _ (Cell_ID (d_cell f2)) _ _) in *. clearbody g1 g2 y1 y2.
  destruct Hans as [[h Hh] _]. unfold req_uuid at 1. rewrite Hreq, Hh. cbn [outcome_bind].
  assert (alike g1 d2' ∧ w_data y1 = w_data w2') as [Hgd Hyw].
  { destruct Hd2' as (_ & E1 & _ & E2 & E3 & _), Hw2' as (_ & E4 & _), Hg as (? & ? & ?). split; [|congruence]. split_and!; congruence. }
  assert (a_metrics ctx1 = a_metrics ctx2') as Hms by apply Hcc.
  destruct c1 as [c1|], resp1 as [resp1|]; try (by eexists _, _, _; split_and!).
  destruct (cmd_resp_ok c1 (a_req ctx) (buildUUID (Hdr_UUID h) (buildTerm (d_term g1) resp1)) y1) as (y & -> & _ & Hy1 & _).
  { by apply Hc1. }
  { destruct (Hfit resp1 eq_refl) as [Hl|[[hd Hhd] Hl]]; unfold fits, buildUUID, buildTerm.
    - left. rewrite Hl. destruct (RspHeader resp1) as [hd|] eqn:Ehd; [|by rewrite Ehd]. simpl. by destruct (RH_UUID hd).
    - right. rewrite Hhd. simpl. destruct (RH_UUID hd); simpl; by split; [eexists|]. }
  cbn [outcome_bind]. eexists _, _, _. split; [done|]. unfold release_pending.
  destruct (isChangePeerCMD (a_req ctx)); split_and!; try done; try congruence.
  all: try apply Hgd. split; [apply Hpend2|]. intros x [= <-]. by left.
Qed.

(** ** Applying entries *)
Definition entry_requests (es : list Entry) : list RaftCMDRequest :=
  es ≫= λ e, match E_Data e with DCommand r => [r] | DConfChange cc => [CC_Context cc] | DEmpty => [] end.

Lemma pop_stale_ok d term rs cs : ∀ w : worldED, Forall (waiting_ok rs) cs →
  ∃ cs' w', pop_stale d term cs w = Ok (cs', w') ∧ same_stores w' w ∧ Forall (waiting_ok rs) cs'.
Proof.
  induction cs as [|c cs IH]; intros w HF; simpl; [by eexists _, _|].
  case_bool_decide; [by eexists _, _|]. apply Forall_cons in HF as [Hc HF].
  destruct (notifyStaleCMD_ok d rs c w Hc) as (w1 & -> & ?). simpl.
  destruct (IH w1 HF) as (cs' & w' & -> & ? & ?). eexists _, _. split_and!; [done|by etrans|done].
Qed.
Lemma pop_stale_frame d term cs : ∀ (w w' : worldED) cs', pop_stale d term cs w = Ok (cs', w') → same_stores w' w.
Proof.
  induction cs as [|c cs IH]; intros w w' cs'; simpl; [by intros [= <- <-]|].
  case_bool_decide; [by intros [= <- <-]|]. destruct (notifyStaleCMD d c w) eqn:En; try done. simpl.
  intros Hp%IH. etrans; [done|]. by apply notifyStaleCMD_frame in En.
Qed.

Lemma apply_one_alike rs d1 d2 entry (w1 w2 : worldED) r ms d2' w2' :
  alike d1 d2 → w_data w1 = w_data w2 → d_pendingRemove d1 = false →
  Forall answerable (entry_requests [entry]) → entry_requests [entry] ⊆ rs → pending_ok rs d1 →
  apply_one enginesMask redisWriteHandles MSet entry d2 w2 = Ok (r, ms, d2', w2') →
  ∃ d1' w1', apply_one enginesMask redisWriteHandles MSet entry d1 w1 = Ok (r, ms, d1', w1') ∧
    alike d1' d2' ∧ w_data w1' = w_data w2' ∧ pending_ok rs d1'.
Proof.
  intros Hd Hw Hrm Hans Hsub Hpend. pose proof Hd as (Hcell & Hst & Hterm). unfold apply_one. rewrite <-Hst.
  case_bool_decide; [done|]. unfold entry_requests in *. simpl in Hans, Hsub. rewrite app_nil_r in Hans, Hsub.
  assert (∀ q r0 d0 ctx0 w0, E_Data entry = DCommand q ∨ (∃ cc, E_Data entry = DConfChange cc ∧ CC_Context cc = q) →
    doApplyRaftCMD enginesMask redisWriteHandles MSet d2 (newCtx d2 q entry) w2 = Ok (r0, d0, ctx0, w0) →
    ∃ d1' ctx1' w1', doApplyRaftCMD enginesMask redisWriteHandles MSet d1 (newCtx d1 q entry) w1 = Ok (r0, d1', ctx1', w1') ∧
      alike d1' d0 ∧ a_metrics ctx1' = a_metrics ctx0 ∧ w_data w1' = w_data w0 ∧ pending_ok rs d1') as Hcmd.
  { intros q r0 d0 ctx0 w0 Hq Hdo. assert (newCtx d1 q entry = newCtx d2 q entry) as -> by (unfold newCtx; by rewrite Hst).
    assert (q ∈ rs ∧ answerable q) as [? ?].
    { destruct Hq as [Hq|(cc & Hq & <-)]; rewrite Hq in Hans, Hsub; rewrite Forall_singleton in Hans; (split; [apply Hsub; by left|done]). }
    by apply (doApplyRaftCMD_alike rs d1 d2 (newCtx d2 q entry) w1 w2 r0 d0 ctx0 w0). }
  destruct (E_Type entry); [unfold applyEntry|unfold applyConfChange]; destruct (E_Data entry) as [|q|cc] eqn:Ed; try done.
  - cbv zeta. cbn [d_pendingCMDs]. case_bool_decide; [done|]. destruct (@pop_stale E D _ _ (d_pendingCMDs d2) _) as [[cs2 v2]| |] eqn:Ep2; try done. cbn [outcome_bind].
    apply pop_stale_frame in Ep2 as (_ & Hv2 & _). intros [= <- <- <- <-]. destruct Hpend as [Hp Hch].
    destruct (pop_stale_ok (mkDelegate (d_peerID d1) (d_cell d1) (d_pendingRemove d1) (mkApplyState (E_Index entry) (TruncatedState (d_applyState d1)))
      (E_Term entry) (d_term d1) (d_pendingCMDs d1) (d_pendingChangePeerCMD d1)) (E_Term entry - 1) rs (d_pendingCMDs d1)
      (driver_write enginesMask (Cell_ID (d_cell d1)) [BSet (getApplyStateKey (Cell_ID (d_cell d1)))
        (VApplyState (mkApplyState (E_Index entry) (TruncatedState (d_applyState d1))))] w1) Hp) as (cs1 & v1 & -> & (_ & Hv1 & _) & ?).
    cbn [outcome_bind]. eexists _, _. split; [done|]. split_and!; try done; simpl; [by rewrite Hst|by rewrite Hv1, Hv2].
  - destruct (doApplyRaftCMD _ _ _ d2 _ w2) as [[[[r0 d0] ctx0] w0]| |] eqn:Eq; try done. cbn [outcome_bind]. intros [= <- <- <- <-].
    destruct (Hcmd q _ _ _ _ (or_introl eq_refl) Eq) as (d1' & ctx1' & w1' & -> & ? & Hms & ? & ?).
    cbn [outcome_bind]. rewrite Hms. by eexists _, _.
  - destruct (doApplyRaftCMD _ _ _ d2 _ w2) as [[[[r0 d0] ctx0] w0]| |] eqn:Eq; try done. cbn [outcome_bind].
    destruct (Hcmd (CC_Context cc) _ _ _ _ (or_intror (ex_intro _ cc (conj eq_refl eq_refl))) Eq) as (d1' & ctx1' & w1' & -> & ? & Hms & ? & ?).
    cbn [outcome_bind]. rewrite Hms. destruct r0 as [[cp| |]|]; try done; intros [= <- <- <- <-]; by eexists _, _.
Qed.

(** A replica that is removed stays removed. *)
Lemma applyCommittedEntries_removed es d (w : worldED) : d_pendingRemove d = true →
  applyCommittedEntries enginesMask redisWriteHandles MSet es d w = Ok ([], d, w).
Proof. destruct es; simpl; [done|]. by intros ->. Qed.

(** C4. Replicas agree.  Two replicas of a cell that are alike (same cell,
    same apply state, same data), whatever their peer ids and whatever commands
    they wait for, apply the same committed entries to the same results: if one
    applies all of them and stays in the cell, the other does not panic, reports
    the same results for the same prefix of the entries and is again alike after
    it, and the prefix is all of them unless it was removed from the cell by the
    last entry of the prefix. *)
Theorem replicas_agree es d1 d2 (w1 w2 : worldED) rs2 d2' w2' :
  alike d1 d2 → w_data w1 = w_data w2 → d_pendingRemove d1 = false →
  Forall answerable (entry_requests es) → pending_ok (entry_requests es) d1 →
  applyCommittedEntries enginesMask redisWriteHandles MSet es d2 w2 = Ok (rs2, d2', w2') → d_pendingRemove d2' = false →
  ∃ es1 rs1 d1' w1' d2'' w2'',
    es1 `prefix_of` es ∧
    applyCommittedEntries enginesMask redisWriteHandles MSet es d1 w1 = Ok (rs1, d1', w1') ∧
    applyCommittedEntries enginesMask redisWriteHandles MSet es1 d2 w2 = Ok (rs1, d2'', w2'') ∧
    alike d1' d2'' ∧ w_data w1' = w_data w2'' ∧ rs1 `prefix_of` rs2 ∧
    (d_pendingRemove d1' = false → es1 = es ∧ rs1 = rs2).
Proof.
  intros Hd Hw Hrm Hans Hpend. assert (entry_requests es ⊆ entry_requests es) as Hsub by done. revert Hsub Hpend.
  generalize (entry_requests es) at 2 3. intros rs Hsub Hpend.
  revert d1 d2 w1 w2 rs2 Hd Hw Hrm Hpend. induction es as [|entry es IH]; intros d1 d2 w1 w2 rs2 Hd Hw Hrm Hpend; simpl.
  { intros [= <- <- <-] _. by eexists [], [], _, _, _, _. }
  destruct (d_pendingRemove d2) eqn:Hrm2; [intros [= <- <- <-]; congruence|]. rewrite Hrm.
  destruct (apply_one _ _ _ entry d2 w2) as [[[[r ms] e2] v2]| |] eqn:E2; try done. cbn [outcome_bind].
  destruct (applyCommittedEntries _ _ _ es e2 v2) as [[[rs' f2] x2]| |] eqn:Es2; try done. cbn [outcome_bind].
  intros [= <- <- <-] Hrm2'.
  change (entry :: es) with ([entry] ++ es) in Hans, Hsub. unfold entry_requests in Hans, Hsub.
  rewrite bind_app in Hans, Hsub. apply Forall_app in Hans as [Hans1 Hans2].
  destruct (apply_one_alike rs d1 d2 entry w1 w2 r ms e2 v2) as (e1 & v1 & -> & He & Hv & Hpend1); try done.
  { intros q Hq. apply Hsub, elem_of_app. by left. }
  cbn [outcome_bind]. pose proof He as (-> & -> & ->). destruct (d_pendingRemove e1) eqn:Hrm1.
  - rewrite applyCommittedEntries_removed by done. cbn [outcome_bind].
    eexists [entry], _, _, _, _, _. split_and!; [by apply prefix_cons, prefix_nil|done| |done|done|by apply prefix_cons, prefix_nil|congruence].
    simpl. by rewrite Hrm2, E2.
  - destruct (IH Hans2) with (d1 := e1) (d2 := e2) (w1 := v1) (w2 := v2) (rs2 := rs')
      as (es1 & rs1 & d1' & w1' & d2'' & w2'' & Hpre & -> & Hrun & ? & ? & ? & Hall); try done.
    { intros q Hq. apply Hsub, elem_of_app. by right. }
    cbn [outcome_bind]. eexists (entry :: es1), _, _, _, _, _. split_and!; [by apply prefix_cons|done| |done|done|by apply prefix_cons|].
    + simpl. rewrite Hrm2, E2. cbn [outcome_bind]. by rewrite Hrun.
    + intros Hf. by destruct (Hall Hf) as [-> ->].
Qed.

(** ** What is persisted *)
Abbreviation engine_of := (engine_of enginesMask).
Definition engines_wf (w : worldED) : Prop := ∀ i, eng_wf (w_engines w i).
Definition cell_saved (s : PeerState) (c : Cell) (w : worldED) : Prop :=
  eng_map (engine_of w (Cell_ID c)) !! getCellStateKey (Cell_ID c) = Some (VCellState (mkLocalState s c)).
Definition applied_saved (d : applyDelegate) (w : worldED) : Prop :=
  eng_map (engine_of w (Cell_ID (d_cell d))) !! getApplyStateKey (Cell_ID (d_cell d)) = Some (VApplyState (d_applyState d)).
(** What a restart loads is what the delegate has in memory. *)
Definition saved (d : applyDelegate) (w : worldED) : Prop := cell_saved Normal (d_cell d) w ∧ applied_saved d w.

(** A membership change that does not change the members. *)
Definition noop_change (c : Cell) (t : ConfChangeType) (p : Peer) : bool :=
  match t, findPeer c (Peer_StoreID p) with
  | AddNode, Some _ | RemoveNode, None => true
  | _, _ => false
  end.
Definition bump_confVer (c : Cell) : Cell :=
  set_epoch (mkCellEpoch (u64 (ConfVer (Epoch c) + 1)) (CellVer (Epoch c))) c.
Definition noop_request (c : Cell) (req : RaftCMDRequest) : bool :=
  match AdminReq req with
  | Some (AChangePeer t p) => noop_change c t p && checkEpoch c req
  | _ => false
  end.

Lemma cell_ne_apply_key id : is_u64 id → getCellStateKey id ≠ getApplyStateKey id.
Proof. intros ? Heq. by assert (KCellState id = KApplyState id) by by apply encode_key_injective. Qed.

Lemma driver_write_wf id wb (w : worldED) : engines_wf w → engines_wf (driver_write enginesMask id wb w).
Proof. intros Hwf i. simpl. case_decide; [by apply Write_wf|done]. Qed.
Lemma driver_write_engine id wb (w : worldED) : engines_wf w →
  eng_map (engine_of (driver_write enginesMask id wb w) id) = map_write wb (eng_map (engine_of w id)).
Proof. intros Hwf. unfold RaftApply.engine_of; simpl. rewrite decide_True by done. apply Write_map, Hwf. Qed.

(** What executing a command leaves in the write batch and in the engines. *)
Record executed (d d' : applyDelegate) (ctx ctx' : applyContext) (w w' : worldED) : Prop := {
  ex_id : Cell_ID (d_cell d') = Cell_ID (d_cell d);
  ex_wf : engines_wf w';
  ex_cell :
    (a_wb ctx' = [] ∧ d_pendingRemove d' = false ∧ w_engines w' = w_engines w ∧
     d_cell d' = if noop_request (d_cell d) (a_req ctx) then bump_confVer (d_cell d) else d_cell d) ∨
    noop_request (d_cell d) (a_req ctx) = false ∧
    a_wb ctx' = [BSet (getCellStateKey (Cell_ID (d_cell d')))
                   (VCellState (mkLocalState (if d_pendingRemove d' then PeerTombstone else Normal) (d_cell d')))];
  ex_index : a_index ctx' = a_index ctx;
}.

Lemma execAdminRequest_executed a d ctx (w : worldED) resp r err d' ctx' w' :
  AdminReq (a_req ctx) = Some a → checkEpoch (d_cell d) (a_req ctx) = true →
  engines_wf w → d_pendingRemove d = false → a_wb ctx = [] →
  execAdminRequest enginesMask a d ctx w = Ok (resp, r, err, d', ctx', w') → executed d d' ctx ctx' w w'.
Proof.
  intros Ha Hep Hwf Hrm Hwb.
  assert (noop_request (d_cell d) (a_req ctx) = match a with AChangePeer t p => noop_change (d_cell d) t p | _ => false end) as Hno.
  { unfold noop_request. rewrite Ha. destruct a; rewrite ?Hep, ?andb_true_r; done. }
  destruct a; simpl in Hno |- *; try (intros [= <- <- <- <- <- <-]; split; [done|done|left; by rewrite Hno|done]).
  - unfold noop_change in Hno. unfold doExecChangePeer. destruct changeType, (findPeer _ _) as [q|];
      intros [= <- <- <- <- <- <-]; try (split; [done|done|left; by rewrite Hno|done]).
    + split; [done|done|right; simpl; by rewrite ?Hwb, ?Hrm|done].
    + destruct (bool_decide _); (split; [done|done|right; simpl; by rewrite ?Hwb, ?Hrm|done]).
  - assert (executed d d ctx ctx w w) as Hsame by (split; [done|done|left; by rewrite Hno|done]).
    unfold doExecSplit. case_bool_decide; [by intros [= <- <- <- <- <- <-]|].
    destruct (getOriginKey splitKey) as [key| |]; try done.
    destruct (bltb key _); [by intros [= <- <- <- <- <- <-]|].
    destruct (checkKeyInCell key _); [by intros [= <- <- <- <- <- <-]|].
    case_bool_decide; [by intros [= <- <- <- <- <- <-]|]. cbv zeta. intros [= <- <- <- <- <- <-].
    split; [done|by apply driver_write_wf|right; simpl; by rewrite ?Hwb, ?Hrm|done].
  - unfold doExecRaftGC. case_bool_decide; [intros [= <- <- <- <- <- <-]; split; [done|done|left; by rewrite Hno|done]|].
    case_bool_decide; [intros [= <- <- <- <- <- <-]; split; [done|done|left; by rewrite Hno|done]|].
    destruct (compactRaftLog _ _ _); intros [= <- <- <- <- <- <-]; (split; [done|done|left; by rewrite Hno|done]).
Qed.

Lemma exec_cmd_executed d ctx (w : worldED) resp r d' ctx' w' :
  engines_wf w → d_pendingRemove d = false → a_wb ctx = [] →
  exec_cmd enginesMask redisWriteHandles d ctx w = Ok (resp, r, d', ctx', w') → executed d d' ctx ctx' w w'.
Proof.
  intros Hwf Hrm Hwb. unfold exec_cmd. destruct (req_uuid _) as [uuid| |]; try done. cbn [outcome_bind].
  destruct (checkEpoch _ _) eqn:Hep; cbn [negb].
  2: { intros [= <- <- <- <- <-]. split; [done|done|left; split_and!; [done|done|done|]|done].
       unfold noop_request. rewrite Hep. destruct (AdminReq (a_req ctx)) as [[]|]; rewrite ?andb_false_r; done. }
  destruct (AdminReq _) as [a|] eqn:Ha.
  - destruct (execAdminRequest _ _ _ _ _) as [[[[[[rp r'] err] d1] ctx1] w1]| |] eqn:Ex; try done. cbn [outcome_bind].
    intros [= <- <- <- <- <-]. by apply (execAdminRequest_executed a d ctx w rp r' err).
  - unfold execWriteRequest. destruct (exec_requests _ _ _ _ _) as [[rsps [[rb ms] dt]]| |]; try done. cbn [outcome_bind].
    intros [= <- <- <- <- <-]. split; [done|done|left; split_and!; [done|done|done|]|done]. unfold noop_request. by rewrite Ha.
Qed.

(** One step: the applied index moves to the entry and what is in memory is
    saved, unless the entry is a membership change without effect. *)
Record stepped (d d' : applyDelegate) (req : option RaftCMDRequest) (index : Z) (w w' : worldED) : Prop := {
  st_id : Cell_ID (d_cell d') = Cell_ID (d_cell d);
  st_wf : engines_wf w';
  st_index : AppliedIndex (d_applyState d') = index;
  st_saved : d_pendingRemove d' = false → applied_saved d' w' ∧
    if from_option (noop_request (d_cell d)) false req then d_cell d' = bump_confVer (d_cell d) ∧ cell_saved Normal (d_cell d) w'
    else cell_saved Normal (d_cell d') w';
  st_removed : d_pendingRemove d' = true → cell_saved PeerTombstone (d_cell d') w';
}.

Lemma doApplyRaftCMD_stepped d ctx (w : worldED) r d' ctx' w' :
  engines_wf w → is_u64 (Cell_ID (d_cell d)) → cell_saved Normal (d_cell d) w → a_wb ctx = [] →
  doApplyRaftCMD enginesMask redisWriteHandles MSet d ctx w = Ok (r, d', ctx', w') →
  stepped d d' (Some (a_req ctx)) (a_index ctx) w w'.
Proof.
  intros Hwf Hid Hcell Hwb (c & d0 & w0 & resp & d1 & w1 & Hf & Hix & Hrm & Hx & Hd' & Hw')%doApplyRaftCMD_inv.
  apply findCB_frame in Hf as [(_ & Hc0 & _ & Hs0 & _) (Hw0 & _)].
  assert (engines_wf w0) as Hwf0 by (intros i; rewrite Hw0; apply Hwf).
  apply exec_cmd_executed in Hx as [X1 X2 X3 X4]; [|done..]. rewrite Hc0 in X1, X3.
  destruct Hd' as (_ & G1 & G2 & G3 & _), Hw' as (W1 & _). unfold commit in G1, G2, G3, W1. cbn in G1, G2, G3, W1.
  assert (∀ w2, w_engines w2 = w_engines w1 → engines_wf w2) as Hwf2 by (intros w2 Heq i; rewrite Heq; apply X2).
  set (w2 := match a_rb ctx' with [] => w1 | _ => set_data _ w1 end) in W1.
  assert (w_engines w2 = w_engines w1) as Hw2 by (unfold w2; by destruct (a_rb ctx')).
  specialize (Hwf2 w2 Hw2). clearbody w2. set (id := Cell_ID (d_cell d)) in *.
  assert (eng_map (engine_of w' id) = map_write (if d_pendingRemove d1 then a_wb ctx' else a_wb ctx' ++
    [BSet (getApplyStateKey id) (VApplyState (d_applyState d'))]) (eng_map (engine_of w2 id))) as Hmap.
  { rewrite <-driver_write_engine by done. unfold RaftApply.engine_of at 1. rewrite W1, G3, X1. done. }
  assert (engine_of w2 id = RaftApply.engine_of enginesMask w1 id) as Hew2 by (unfold RaftApply.engine_of; by rewrite Hw2).
  pose proof (cell_ne_apply_key id Hid) as Hne.
  split; rewrite ?G1, ?G2, ?G3, ?X4; try done.
  - intros i. rewrite W1. apply (driver_write_wf (Cell_ID (d_cell d1)) _ w2 Hwf2).
  - intros Hrm1. rewrite Hrm1, map_write_app in Hmap. unfold applied_saved, cell_saved. rewrite !G1, !X1. fold id. rewrite Hmap. simpl.
    split; [by rewrite lookup_insert_eq|]. rewrite lookup_insert_ne by done.
    destruct X3 as [(-> & _ & He & Hcase)|[-> Hwb']]; simpl.
    + assert (engine_of w2 id = RaftApply.engine_of enginesMask w id) as -> by (rewrite Hew2; unfold RaftApply.engine_of; by rewrite He, Hw0).
      rewrite Hcase. by destruct (noop_request _ _).
    + rewrite Hwb', Hrm1, X1. simpl. by rewrite lookup_insert_eq.
  - intros Hrm1. rewrite Hrm1 in Hmap. unfold cell_saved. rewrite X1. fold id. rewrite Hmap.
    destruct X3 as [(_ & ? & _)|[_ ->]]; [congruence|]. rewrite Hrm1, X1. simpl. by rewrite lookup_insert_eq.
Qed.

Lemma apply_one_stepped entry d (w : worldED) r ms d' w' :
  engines_wf w → is_u64 (Cell_ID (d_cell d)) → cell_saved Normal (d_cell d) w → d_pendingRemove d = false →
  apply_one enginesMask redisWriteHandles MSet entry d w = Ok (r, ms, d', w') →
  stepped d d' (head (entry_requests [entry])) (E_Index entry) w w' ∧ E_Index entry = u64 (AppliedIndex (d_applyState d) + 1).
Proof.
  intros Hwf Hid Hcell Hrm. unfold apply_one. case_bool_decide as Ei; [done|]. intros H. split; [|by destruct (decide (E_Index entry = u64 (AppliedIndex (d_applyState d) + 1)))].
  unfold entry_requests. simpl. rewrite app_nil_r. revert H.
  destruct (E_Type entry); [unfold applyEntry|unfold applyConfChange]; destruct (E_Data entry) as [|q|cc] eqn:Ed; try done.
  - cbv zeta. cbn [d_pendingCMDs]. case_bool_decide; [done|].
    destruct (@pop_stale E D _ _ (d_pendingCMDs d) _) as [[cs v]| |] eqn:Ep; try done. cbn [outcome_bind].
    apply pop_stale_frame in Ep as (Hv & _ & _). intros [= <- <- <- <-]. pose proof (cell_ne_apply_key _ Hid) as Hne.
    assert (eng_map (engine_of v (Cell_ID (d_cell d))) = <[getApplyStateKey (Cell_ID (d_cell d)) :=
      VApplyState (mkApplyState (E_Index entry) (TruncatedState (d_applyState d)))]> (eng_map (engine_of w (Cell_ID (d_cell d))))) as Hmap.
    { unfold RaftApply.engine_of at 1. rewrite Hv. apply driver_write_engine, Hwf. }
    split; simpl; [done| |done| |congruence].
    + intros i. rewrite Hv. by apply driver_write_wf.
    + intros _. unfold applied_saved, cell_saved. simpl. rewrite Hmap, lookup_insert_eq, lookup_insert_ne by done. done.
  - destruct (doApplyRaftCMD _ _ _ d _ w) as [[[[r0 d0] ctx0] w0]| |] eqn:Eq; try done. cbn [outcome_bind]. intros [= <- <- <- <-].
    by apply (doApplyRaftCMD_stepped d (newCtx d q entry) w) in Eq.
  - destruct (doApplyRaftCMD _ _ _ d _ w) as [[[[r0 d0] ctx0] w0]| |] eqn:Eq; try done. cbn [outcome_bind].
    apply (doApplyRaftCMD_stepped d (newCtx d (CC_Context cc) entry) w) in Eq; [|done..].
    destruct r0 as [[cp| |]|]; try done; by intros [= <- <- <- <-].
Qed.

(** ** No entry stops the apply loop *)

(** The entries raft hands over: consecutive indexes, a positive term on empty
    entries, membership changes in their own kind of entry, and requests that
    can be answered. *)
Definition entry_ok (entry : Entry) : Prop :=
  Forall answerable (entry_requests [entry]) ∧
  match E_Type entry, E_Data entry with
  | EntryNormal, DEmpty => 0 < E_Term entry
  | EntryNormal, DCommand _ => True
  | EntryConfChange, DConfChange cc => isChangePeerCMD (CC_Context cc) = true
  | _, _ => False
  end.
Fixpoint entries_ok (index : Z) (es : list Entry) : Prop :=
  match es with
  | [] => True
  | entry :: es' => E_Index entry = index ∧ entry_ok entry ∧ entries_ok (index + 1) es'
  end.
(** The redis handlers return. *)
Definition handlers_return : Prop :=
  ∀ t h id req s, redisWriteHandles t = Some h → ∃ out, h id req s = Ok out.

Lemma exec_requests_total id reqs : handlers_return → ∀ s acc, ∃ out, exec_requests redisWriteHandles id reqs s acc = Ok out.
Proof.
  intros Hh. induction reqs as [|q reqs IH]; intros s acc; simpl; [by eexists|].
  destruct (redisWriteHandles (Req_Type q)) as [h|] eqn:Eh; [|apply IH].
  destruct (Hh _ _ id q s Eh) as [[rsp s'] ->]. apply IH.
Qed.

Lemma getOriginKey_total k : k ≠ [] → ∃ key, getOriginKey k = Ok key.
Proof. intros Hk. unfold getOriginKey. rewrite decide_True by (destruct k; simpl in *; [done|lia]). by eexists. Qed.

Lemma exec_cmd_total d ctx (w : worldED) : handlers_return → is_Some (Header (a_req ctx)) →
  ∃ out, exec_cmd enginesMask redisWriteHandles d ctx w = Ok out.
Proof.
  intros Hh [h Hhd]. unfold exec_cmd, req_uuid. rewrite Hhd. cbn [outcome_bind].
  destruct (checkEpoch _ _); cbn [negb]; [|by eexists]. destruct (AdminReq _) as [a|].
  - assert (∃ out, execAdminRequest enginesMask a d ctx w = Ok out) as [[[[[[rp r] err] d1] ctx1] w1] ->]; [|by eexists].
    destruct a; simpl; try (by eexists).
    + unfold doExecChangePeer. destruct changeType, (findPeer _ _); by eexists.
    + unfold doExecSplit. case_bool_decide as Ek; [by eexists|]. destruct (getOriginKey_total _ Ek) as [key ->].
      repeat case_match; by eexists.
    + unfold doExecRaftGC. repeat case_match; by eexists.
  - unfold execWriteRequest. destruct (exec_requests_total (match Header (a_req ctx) with Some h => Hdr_CellId h | None => 0 end)
      (Requests (a_req ctx)) Hh (a_rb ctx, a_metrics ctx, w_data w) []) as [[rsps [[rb ms] dt]] ->]. by eexists.
Qed.

Lemma exec_cmd_change_result d ctx (w : worldED) resp r d' ctx' w' : isChangePeerCMD (a_req ctx) = true →
  exec_cmd enginesMask redisWriteHandles d ctx w = Ok (resp, r, d', ctx', w') → r = None ∨ ∃ cp, r = Some (RsChangePeer cp).
Proof.
  unfold exec_cmd, isChangePeerCMD. destruct (req_uuid _) as [u| |]; try done. cbn [outcome_bind].
  destruct (AdminReq (a_req ctx)) as [[t p| | | |]|]; try done. intros _.
  destruct (checkEpoch _ _); cbn [negb]; [|intros [= <- <- <- <- <-]; by left].
  unfold execAdminRequest, doExecChangePeer. destruct t, (findPeer _ _); intros [= <- <- <- <- <-]; (by left) || (right; by eexists).
Qed.

Lemma doApplyRaftCMD_total rs d ctx (w : worldED) : handlers_return → d_pendingRemove d = false → a_index ctx ≠ 0 →
  a_req ctx ∈ rs → answerable (a_req ctx) → pending_ok rs d →
  ∃ r d' ctx' w', doApplyRaftCMD enginesMask redisWriteHandles MSet d ctx w = Ok (r, d', ctx', w') ∧ pending_ok rs d'.
Proof.
  intros Hh Hrm Hix Hin Hans Hpend.
  assert (∃ r d2' ctx2' w2', doApplyRaftCMD enginesMask redisWriteHandles MSet (set_pendingChange None (set_pendingCMDs [] d)) ctx w = Ok (r, d2', ctx2', w2'))
    as (r & d2' & ctx2' & w2' & Hrun).
  { unfold doApplyRaftCMD. rewrite bool_decide_eq_false_2 by done. unfold findCB. cbn [d_pendingCMDs d_pendingChangePeerCMD set_pendingChange set_pendingCMDs].
    replace (if isChangePeerCMD (a_req ctx) then _ else _) with
      (Ok (None, set_pendingChange None (set_pendingCMDs [] d), w) : outcome unit (option cmd * applyDelegate * worldED)) by by destruct (isChangePeerCMD _).
    cbn [outcome_bind d_pendingRemove set_pendingChange set_pendingCMDs]. rewrite Hrm.
    destruct (exec_cmd_total (set_pendingChange None (set_pendingCMDs [] d)) ctx w Hh (proj1 Hans)) as [[[[[resp r] d1] ctx1] w1] Hx].
    destruct (exec_cmd_alike _ _ ctx ctx w w _ _ _ _ _ ltac:(by split_and!) ltac:(by split_and!) eq_refl Hans Hx)
      as (? & ? & ? & ? & Hx' & _ & _ & _ & _ & Hreq & _). unfold set_pendingChange, set_pendingCMDs in Hx, Hx'. cbn in Hx, Hx'. rewrite Hx in Hx'. injection Hx' as <- <- <- <-.
    unfold set_pendingChange, set_pendingCMDs. cbn. rewrite Hx. cbn [outcome_bind]. cbv zeta. destruct Hans as [[hd Hhd] _].
    unfold req_uuid. rewrite Hreq, Hhd. cbn [outcome_bind]. by eexists _, _, _, _. }
  destruct (doApplyRaftCMD_alike rs d (set_pendingChange None (set_pendingCMDs [] d)) ctx w w _ _ _ _ ltac:(by split_and!) eq_refl Hrm Hin Hans Hpend Hrun)
    as (d1' & ctx1' & w1' & ? & _ & _ & _ & ?). by eexists _, _, _, _.
Qed.

Lemma doApplyRaftCMD_change_result d ctx (w : worldED) r d' ctx' w' : isChangePeerCMD (a_req ctx) = true →
  doApplyRaftCMD enginesMask redisWriteHandles MSet d ctx w = Ok (r, d', ctx', w') → r = None ∨ ∃ cp, r = Some (RsChangePeer cp).
Proof. intros Hc (? & ? & ? & ? & ? & ? & _ & _ & _ & Hx & _)%doApplyRaftCMD_inv. by apply exec_cmd_change_result in Hx. Qed.

Lemma apply_one_total rs entry d (w : worldED) : handlers_return → d_pendingRemove d = false →
  E_Index entry = u64 (AppliedIndex (d_applyState d) + 1) → E_Index entry ≠ 0 → entry_ok entry →
  entry_requests [entry] ⊆ rs → pending_ok rs d →
  ∃ r ms d' w', apply_one enginesMask redisWriteHandles MSet entry d w = Ok (r, ms, d', w') ∧ pending_ok rs d'.
Proof.
  intros Hh Hrm Hix Hnz [Hans Hkind] Hsub Hpend. unfold apply_one. rewrite bool_decide_eq_false_2 by (by intros []).
  unfold entry_requests in *. simpl in Hans, Hsub. rewrite app_nil_r in Hans, Hsub.
  assert (∀ q, q ∈ rs → answerable q → ∃ r d' ctx' w', doApplyRaftCMD enginesMask redisWriteHandles MSet d (newCtx d q entry) w = Ok (r, d', ctx', w') ∧ pending_ok rs d') as Hcmd.
  { intros q Hq Ha. by apply (doApplyRaftCMD_total rs d (newCtx d q entry) w). }
  destruct (E_Type entry); [unfold applyEntry|unfold applyConfChange]; destruct (E_Data entry) as [|q|cc] eqn:Ed; try done.
  - cbv zeta. cbn [d_pendingCMDs]. rewrite bool_decide_eq_false_2 by lia. destruct Hpend as [Hp Hch].
    edestruct (pop_stale_ok) as (cs & v & -> & _ & Hcs); [exact Hp|]. cbn [outcome_bind]. eexists _, _, _, _. split; [done|]. by split.
  - rewrite Forall_singleton in Hans. destruct (Hcmd q) as (r & d' & ctx' & w' & -> & ?); [apply Hsub; by left|done|]. by eexists _, _, _, _.
  - rewrite Forall_singleton in Hans. destruct (Hcmd (CC_Context cc)) as (r & d' & ctx' & w' & Hrun & ?); [apply Hsub; by left|done|].
    rewrite Hrun. cbn [outcome_bind]. apply doApplyRaftCMD_change_result in Hrun as [-> | [cp ->]]; [by eexists _, _, _, _..|done].
Qed.

(** Every membership change of a run that passes its epoch check changes the
    members. *)
Fixpoint effective (es : list Entry) (d : applyDelegate) (w : worldED) : bool :=
  match es with
  | [] => true
  | entry :: es' =>
      if d_pendingRemove d then true
      else negb (from_option (noop_request (d_cell d)) false (head (entry_requests [entry]))) &&
           match apply_one enginesMask redisWriteHandles MSet entry d w with
           | Ok (_, _, d', w') => effective es' d' w'
           | _ => true
           end
  end.

(** C5. Applied entries are durable.  A replica whose cell and apply state are
    saved applies every well-formed run of committed entries without panic.
    Afterwards the applied index has advanced by the number of entries applied;
    a replica that is still in the cell has applied all of them, and what is
    saved, which is what a restart loads, is what it has in memory (as long as
    every membership change that was accepted did change the members: C40); a
    replica that was removed is saved as a tombstone. *)
Theorem applied_entries_durable es d (w : worldED) :
  handlers_return → engines_wf w → is_u64 (Cell_ID (d_cell d)) → saved d w → d_pendingRemove d = false →
  0 ≤ AppliedIndex (d_applyState d) → AppliedIndex (d_applyState d) + Z.of_nat (length es) < two64 →
  entries_ok (AppliedIndex (d_applyState d) + 1) es → pending_ok (entry_requests es) d → effective es d w = true →
  ∃ rs d' w', applyCommittedEntries enginesMask redisWriteHandles MSet es d w = Ok (rs, d', w') ∧
    Cell_ID (d_cell d') = Cell_ID (d_cell d) ∧
    AppliedIndex (d_applyState d') = AppliedIndex (d_applyState d) + Z.of_nat (length rs) ∧
    if d_pendingRemove d' then cell_saved PeerTombstone (d_cell d') w'
    else length rs = length es ∧ saved d' w' ∧
         (Peers (d_cell d') ≠ [] → initApplyState (d_cell d') (engine_of w' (Cell_ID (d_cell d'))) = Ok (d_applyState d')).
Proof.
  intros Hh Hwf Hid Hs Hrm H0 Hb Hok Hpend. assert (entry_requests es ⊆ entry_requests es) as Hsub by done. revert Hsub Hpend.
  generalize (entry_requests es) at 2 3. intros rs0 Hsub Hpend.
  revert d w Hwf Hid Hs Hrm H0 Hb Hok Hpend. induction es as [|entry es IH]; intros d w Hwf Hid Hs Hrm H0 Hb Hok Hpend Heff.
  { eexists [], d, w. rewrite Hrm. split_and!; try done; [simpl; lia|]. intros Hp. unfold initApplyState.
    rewrite bool_decide_eq_false_2 by done. rewrite eng_get_map by apply Hwf. by rewrite (proj2 Hs). }
  simpl in Hok, Hb. cbn [effective] in Heff. destruct Hok as (Hix & Hent & Hok). simpl. rewrite Hrm in *.
  change (entry :: es) with ([entry] ++ es) in Hsub. unfold entry_requests in Hsub. rewrite bind_app in Hsub.
  apply andb_true_iff in Heff as [Hno Heff].
  destruct (apply_one_total rs0 entry d w) as (r & ms & d1 & w1 & Hone & Hpend1); try done.
  { rewrite u64_small; [done|unfold is_u64; lia]. }
  { lia. }
  { intros q Hq. apply Hsub, elem_of_app. by left. }
  rewrite Hone in Heff |- *. cbn [outcome_bind]. apply apply_one_stepped in Hone as [[S1 S2 S3 S4 S5] _]; [|done|done|apply Hs|done].
  rewrite <-S1 in Hid |- *. destruct (d_pendingRemove d1) eqn:Hrm1.
  - rewrite applyCommittedEntries_removed by done. cbn [outcome_bind]. eexists _, _, _. split; [done|]. rewrite Hrm1.
    split_and!; [done|simpl; lia|by apply S5].
  - destruct (S4 eq_refl) as [Happ Hcell]. apply negb_true_iff in Hno. rewrite Hno in Hcell.
    assert (saved d1 w1) as Hsv by by split.
    destruct (IH) with (d := d1) (w := w1) as (rs & d' & w' & -> & HC & HA & HR); try done; try lia.
    { intros q Hq. apply Hsub, elem_of_app. by right. }
    { by rewrite S3, Hix. }
    cbn [outcome_bind]. eexists _, _, _. split; [done|]. rewrite HC. split_and!; [done|simpl; lia|].
    destruct (d_pendingRemove d'); [done|]. destruct HR as (HL & HR). split; [simpl; by rewrite HL|]. by rewrite <-HC.
Qed.

(** ** Membership changes *)
Definition changed_cell (c : Cell) (t : ConfChangeType) (p : Peer) : Cell :=
  if noop_change c t p then bump_confVer c
  else match t with
       | AddNode => set_peers (Peers c ++ [p]) (bump_confVer c)
       | RemoveNode => removePeer (bump_confVer c) (Peer_StoreID p)
       end.

Lemma doApplyRaftCMD_change d ctx (w : worldED) r d' ctx' w' t p : AdminReq (a_req ctx) = Some (AChangePeer t p) →
  doApplyRaftCMD enginesMask redisWriteHandles MSet d ctx w = Ok (r, d', ctx', w') →
  if checkEpoch (d_cell d) (a_req ctx) then
    d_cell d' = changed_cell (d_cell d) t p ∧ (noop_change (d_cell d) t p = true → r = None ∧ d_pendingRemove d' = d_pendingRemove d)
  else d_cell d' = d_cell d ∧ r = None.
Proof.
  intros Ha (c & d0 & w0 & resp & d1 & w1 & Hf & _ & _ & Hx & (_ & Hd' & Hrm' & _) & _)%doApplyRaftCMD_inv.
  apply findCB_frame in Hf as [(_ & Hc & Hrm & _) _]. rewrite Hd', Hrm'. unfold commit. cbn [fst set_applied d_cell d_pendingRemove].
  revert Hx. unfold exec_cmd. destruct (req_uuid _) as [u| |]; try done. cbn [outcome_bind]. rewrite Hc, Ha.
  destruct (checkEpoch _ _); cbn [negb]; [|by intros [= <- <- <- <- <-]].
  unfold execAdminRequest, doExecChangePeer, changed_cell, noop_change. rewrite Hc.
  destruct t, (findPeer _ _); intros [= <- <- <- <- <-]; cbn; rewrite ?Hc; try done. by destruct (bool_decide _).
Qed.

(** The epoch check of a membership change. *)
Lemma checkEpoch_change c req h t p : AdminReq req = Some (AChangePeer t p) → Header req = Some h →
  checkEpoch c req = bool_decide (ConfVer (Epoch c) ≤ ConfVer (Hdr_CellEpoch h)).
Proof.
  intros Ha Hh. unfold checkEpoch. rewrite Ha, Hh. simpl. rewrite orb_false_r.
  repeat case_bool_decide; (done || lia).
Qed.

Definition conf_entry (term index : Z) (t : ConfChangeType) (nodeID : Z) (req : RaftCMDRequest) : Entry :=
  mkEntry term index EntryConfChange (DConfChange (mkConfChange t nodeID req)).

(** A membership change as a store proposes it, stamped with an epoch. *)
Definition change_request (q : RaftCMDRequest) (t : ConfChangeType) (p : Peer) (ep : CellEpoch) : Prop :=
  AdminReq q = Some (AChangePeer t p) ∧ Requests q = [] ∧ ∃ h, Header q = Some h ∧ Hdr_CellEpoch h = ep.

Lemma apply_one_change rs d (w : worldED) term nodeID req t p ep : handlers_return → d_pendingRemove d = false →
  0 ≤ AppliedIndex (d_applyState d) → AppliedIndex (d_applyState d) + 1 < two64 →
  change_request req t p ep → req ∈ rs → pending_ok rs d →
  ∃ r ms d' w', apply_one enginesMask redisWriteHandles MSet (conf_entry term (AppliedIndex (d_applyState d) + 1) t nodeID req) d w =
      Ok (Some (RsChangePeer r), ms, d', w') ∧ pending_ok rs d' ∧
    if bool_decide (ConfVer (Epoch (d_cell d)) ≤ ConfVer ep) then
      d_cell d' = changed_cell (d_cell d) t p ∧ (noop_change (d_cell d) t p = true → cp_confChange r = None ∧ d_pendingRemove d' = false)
    else d_cell d' = d_cell d ∧ cp_confChange r = None.
Proof.
  intros Hh Hrm H0 H1 (Ha & Hr & h & Hhd & <-) Hin Hpend. set (entry := conf_entry _ _ _ _ _).
  assert (answerable req) as Hans by (split; [by eexists|by rewrite Ha]).
  destruct (apply_one_total rs entry d w) as (r & ms & d' & w' & Hone & Hp'); try done.
  { simpl. by rewrite u64_small by (unfold is_u64; lia). }
  { simpl. lia. }
  { split; [by apply Forall_singleton|]. simpl. unfold isChangePeerCMD. by rewrite Ha. }
  { by intros q ->%list_elem_of_singleton. }
  revert Hone. unfold apply_one. case_bool_decide; [done|]. cbn [E_Type entry conf_entry]. unfold applyConfChange. cbn [E_Data entry conf_entry CC_Context].
  destruct (doApplyRaftCMD _ _ _ d _ w) as [[[[r0 d0] ctx0] w0]| |] eqn:Eq; try done. cbn [outcome_bind]. intros Hone.
  pose proof Eq as Hchg. apply (doApplyRaftCMD_change _ _ _ _ _ _ _ t p) in Hchg; [|done]. cbn [a_req newCtx] in Hchg.
  rewrite (checkEpoch_change _ _ h t p) in Hchg by done.
  apply doApplyRaftCMD_change_result in Eq; [|simpl; unfold isChangePeerCMD; by rewrite Ha].
  destruct (bool_decide (ConfVer _ ≤ _)); destruct Eq as [-> | [cp ->]], Hchg as [? Hn]; injection Hone as <- <- <- <-; eexists _, _, _, _;
    (split; [done|]); (split; [done|]); try done.
  - split; [done|]. intros Hq. split; [done|]. rewrite <-Hrm. by apply Hn.
  - split; [done|]. intros Hq. by destruct (Hn Hq).
Qed.

Lemma changed_cell_ne c t p : noop_change c t p = false → Peers (changed_cell c t p) ≠ Peers c.
Proof.
  unfold changed_cell. intros Hn. rewrite Hn. revert Hn. unfold noop_change, findPeer. destruct t.
  - intros _ Heq%(f_equal length). simpl in Heq. rewrite length_app in Heq. simpl in Heq. lia.
  - destruct (find_peer _ _) as [q|] eqn:Ef; [|done]. intros _ Heq. simpl in Heq. apply find_peer_Some in Ef as [Hin Hs].
    rewrite <-Heq in Hin. apply list_elem_of_filter in Hin as [? _]. done.
Qed.

(** C40. A membership change without effect (adding a peer to a store that has
    one, removing one from a store that has none) that passes the epoch check
    wedges the cell and makes replicas diverge.  The delegate counts it in
    [ConfVer], but neither the saved cell nor the result for the peer's storage
    does.  Proposals are stamped with the epoch of the storage, so every later
    membership change is refused by this replica; a replica that restarted in
    between, from what was saved, accepts it, and the two disagree about the
    members of the cell. *)
Theorem noop_change_wedges d dr (w wr : worldED) term1 term2 node1 node2 q1 t1 p1 q2 t2 p2 :
  handlers_return → engines_wf w → is_u64 (Cell_ID (d_cell d)) → cell_saved Normal (d_cell d) w → d_pendingRemove d = false →
  0 ≤ AppliedIndex (d_applyState d) → AppliedIndex (d_applyState d) + 2 < two64 →
  0 ≤ ConfVer (Epoch (d_cell d)) → ConfVer (Epoch (d_cell d)) + 1 < two64 →
  change_request q1 t1 p1 (Epoch (d_cell d)) → noop_change (d_cell d) t1 p1 = true →
  change_request q2 t2 p2 (Epoch (d_cell d)) → noop_change (d_cell d) t2 p2 = false → pending_ok [q1; q2] d →
  ∃ r1 ms1 d1 w1 r2 ms2 d2 w2,
    apply_one enginesMask redisWriteHandles MSet (conf_entry term1 (AppliedIndex (d_applyState d) + 1) t1 node1 q1) d w = Ok (Some (RsChangePeer r1), ms1, d1, w1) ∧
    cp_confChange r1 = None ∧ d_cell d1 = bump_confVer (d_cell d) ∧ cell_saved Normal (d_cell d) w1 ∧
    apply_one enginesMask redisWriteHandles MSet (conf_entry term2 (AppliedIndex (d_applyState d) + 2) t2 node2 q2) d1 w1 = Ok (Some (RsChangePeer r2), ms2, d2, w2) ∧
    cp_confChange r2 = None ∧ Peers (d_cell d2) = Peers (d_cell d) ∧
    (d_cell dr = d_cell d → d_applyState dr = d_applyState d1 → d_pendingRemove dr = false → pending_ok [q2] dr →
     ∃ r3 ms3 d3 w3,
       apply_one enginesMask redisWriteHandles MSet (conf_entry term2 (AppliedIndex (d_applyState d) + 2) t2 node2 q2) dr wr = Ok (Some (RsChangePeer r3), ms3, d3, w3) ∧
       Peers (d_cell d3) ≠ Peers (d_cell d)).
Proof.
  intros Hh Hwf Hid Hsv Hrm Hi0 Hi2 Hcv0 Hcv Hq1 Hn1 Hq2 Hn2 Hpend.
  destruct (apply_one_change [q1; q2] d w term1 node1 q1 t1 p1 (Epoch (d_cell d))) as (r1 & ms1 & d1 & w1 & Hone & Hp1 & Hc1); try done; [lia|by left|].
  rewrite bool_decide_eq_true_2 in Hc1 by lia. destruct Hc1 as [Hc1 Hc1']. destruct (Hc1' Hn1) as [Hcc1 Hrm1].
  unfold changed_cell in Hc1. rewrite Hn1 in Hc1. pose proof Hq1 as (Ha1 & _ & h1 & Hh1 & He1).
  pose proof Hone as Hst. apply apply_one_stepped in Hst as [[S1 S2 S3 S4 _] _]; [|done..]. simpl in S3.
  destruct (S4 Hrm1) as [_ Hsv1]. simpl in Hsv1.
  assert (noop_request (d_cell d) q1 = true) as Hnr.
  { unfold noop_request. rewrite Ha1, Hn1, (checkEpoch_change _ _ h1 t1 p1), He1 by done. by apply bool_decide_eq_true_2. }
  rewrite Hnr in Hsv1. destruct Hsv1 as [_ Hsv1].
  destruct (apply_one_change [q1; q2] d1 w1 term2 node2 q2 t2 p2 (Epoch (d_cell d))) as (r2 & ms2 & d2 & w2 & Htwo & _ & Hc2);
    try done; [lia|lia|by right; left|].
  rewrite Hc1 in Hc2. simpl in Hc2. rewrite u64_small, bool_decide_eq_false_2 in Hc2 by (unfold is_u64; lia).
  destruct Hc2 as [Hc2 Hcc2]. rewrite S3 in Htwo. replace (_ + 1 + 1) with (AppliedIndex (d_applyState d) + 2) in Htwo by lia.
  eexists r1, ms1, d1, w1, r2, ms2, d2, w2. split_and!; try done; [by rewrite Hc2|].
  intros Hcr Har Hrmr Hpr.
  destruct (apply_one_change [q2] dr wr term2 node2 q2 t2 p2 (Epoch (d_cell d))) as (r3 & ms3 & d3 & w3 & Hthree & _ & Hc3);
    try done; [rewrite Har; lia|rewrite Har; lia|by left|].
  rewrite Hcr, bool_decide_eq_true_2 in Hc3 by lia. destruct Hc3 as [Hc3 _]. rewrite Har, S3 in Hthree.
  replace (_ + 1 + 1) with (AppliedIndex (d_applyState d) + 2) in Hthree by lia.
  eexists _, _, _, _. split; [done|]. rewrite Hc3. by apply changed_cell_ne.
Qed.

(** ** Splits *)
Definition split_left (c : Cell) (key : bytes) : Cell :=
  mkCell (Cell_ID c) (Start c) key (mkCellEpoch (ConfVer (Epoch c)) (u64 (CellVer (Epoch c) + 1))) (Peers c).
Definition split_right (c : Cell) (key : bytes) (id : Z) (peerIDs : list Z) : Cell :=
  mkCell id key (End c) (mkCellEpoch (ConfVer (Epoch c)) (u64 (CellVer (Epoch c) + 1)))
    (zip_with (λ i p, mkPeer i (Peer_StoreID p)) peerIDs (Peers c)).

(** A split request stamped with an epoch that is not stale. *)
Definition split_request (q : RaftCMDRequest) (c : Cell) (key : bytes) (id : Z) (peerIDs : list Z) : Prop :=
  AdminReq q = Some (ASplit (getDataKey key) id peerIDs) ∧ Requests q = [] ∧
  ∃ h, Header q = Some h ∧ CellVer (Epoch c) ≤ CellVer (Hdr_CellEpoch h).

Lemma getOriginKey_getDataKey key : getOriginKey (getDataKey key) = Ok key.
Proof. unfold getOriginKey, getDataKey. rewrite decide_True by (rewrite length_app; lia). by rewrite drop_app_length. Qed.

Lemma split_ranges c key id peerIDs : in_cell key c → key ≠ [] →
  (∀ k, in_cell k c ↔ in_cell k (split_left c key) ∨ in_cell k (split_right c key id peerIDs)) ∧
  (∀ k, in_cell k (split_left c key) → in_cell k (split_right c key id peerIDs) → False).
Proof.
  intros [Hs He] Hne. unfold in_cell; simpl. split; intros k.
  - split.
    + intros [H1 H2]. destruct (decide (blt k key)); [by left; split; [|right]|]. right. split; [border|done].
    + intros [[H1 [?|H2]]|[H1 H2]]; [done| |]; (split; [|]); try border; [|done]. destruct He; [by left|]. right. border.
  - intros [_ [?|H1]] [H2 _]; [done|]. border.
Qed.

Lemma exec_split d ctx (w : worldED) key id peerIDs : split_request (a_req ctx) (d_cell d) key id peerIDs →
  in_cell key (d_cell d) → length peerIDs = length (Peers (d_cell d)) →
  ∃ resp, exec_cmd enginesMask redisWriteHandles d ctx w =
    Ok (Some resp, Some (RsSplit (split_left (d_cell d) key) (split_right (d_cell d) key id peerIDs)), set_dcell (split_left (d_cell d) key) d,
        set_wb (updatePeerState (split_left (d_cell d) key) Normal (a_wb ctx)) ctx,
        driver_write enginesMask id (writeInitialState id (updatePeerState (split_right (d_cell d) key id peerIDs) Normal [])) w).
Proof.
  intros (Ha & Hr & h & Hh & Hep) Hin Hlen. unfold exec_cmd, req_uuid. rewrite Hh. cbn [outcome_bind].
  assert (checkEpoch (d_cell d) (a_req ctx) = true) as ->.
  { unfold checkEpoch. rewrite Ha, Hh. simpl. rewrite bool_decide_eq_false_2 by lia. done. }
  cbn [negb]. rewrite Ha. unfold execAdminRequest, doExecSplit.
  rewrite bool_decide_eq_false_2 by done. rewrite getOriginKey_getDataKey.
  destruct (bltb_spec key (Start (d_cell d))) as [Hlt|_]; [destruct Hin; border|].
  rewrite (proj2 (checkKeyInCell_None _ _) Hin). rewrite bool_decide_eq_false_2 by (intros Hx; exact (Hx Hlen)).
  eexists. reflexivity.
Qed.

Lemma driver_write_other id id' wb (w : worldED) k : engines_wf w → k ∉ (op_key <$> wb) →
  eng_map (engine_of (driver_write enginesMask id' wb w) id) !! k = eng_map (engine_of w id) !! k.
Proof.
  intros Hwf Hk. unfold RaftApply.engine_of. simpl. case_decide as Eq; [|done]. rewrite Write_map by apply Hwf. by rewrite map_write_other.
Qed.

(** The state keys of another cell. *)
Definition state_keys (id : Z) : list bytes := [getCellStateKey id; getRaftStateKey id; getApplyStateKey id].
Lemma state_keys_disjoint (id id' : Z) k : is_u64 id → is_u64 id' → id ≠ id' → k ∈ state_keys id → k ∉ state_keys id'.
Proof.
  intros H1 H2 Hne Hk Hk'. unfold state_keys in *.
  assert (∀ i, k ∈ state_keys i → ∃ sk, k = encode_key sk ∧ (sk = KCellState i ∨ sk = KRaftState i ∨ sk = KApplyState i)) as Hsk.
  { intros i Hi. unfold state_keys in Hi. rewrite !elem_of_cons, elem_of_nil in Hi. destruct Hi as [-> |[-> |[-> |[]]]];
      [exists (KCellState i)|exists (KRaftState i)|exists (KApplyState i)]; (split; [done|auto]). }
  apply Hsk in Hk as (s1 & -> & Hs1). apply Hsk in Hk' as (s2 & Heq & Hs2).
  apply encode_key_injective in Heq; naive_solver.
Qed.

Lemma zip_with_stores ids ps : length ids = length ps →
  Peer_StoreID <$> zip_with (λ i p, mkPeer i (Peer_StoreID p)) ids ps = Peer_StoreID <$> ps.
Proof. revert ps; induction ids as [|i ids IH]; intros [|p ps]; simpl; try done. intros [= H]. by rewrite IH. Qed.

Lemma newPeerStorage_initial c (e : E) : eng_wf e → Peers c ≠ [] →
  eng_map e !! getRaftStateKey (Cell_ID c) = Some (VRaftState initialRaftState) →
  eng_map e !! getApplyStateKey (Cell_ID c) = Some (VApplyState initialApplyState) →
  newPeerStorage c e = Ok (mkPeerStorage c raftInitLogTerm raftInitLogTerm raftInitLogIndex 0 initialRaftState initialApplyState).
Proof.
  intros Hwf Hp H1 H2. unfold newPeerStorage, initRaftState, initApplyState. rewrite !eng_get_map, H1, H2 by done. simpl.
  by rewrite bool_decide_eq_false_2.
Qed.

(** What the engines hold after a committed split. *)
Lemma apply_one_split d (w : worldED) term q key id peerIDs r ms d' w' :
  let c := d_cell d in
  let left_ := split_left c key in
  let right_ := split_right c key id peerIDs in
  d_pendingRemove d = false → split_request q c key id peerIDs → in_cell key c → length peerIDs = length (Peers c) →
  apply_one enginesMask redisWriteHandles MSet (mkEntry term (AppliedIndex (d_applyState d) + 1) EntryNormal (DCommand q)) d w = Ok (r, ms, d', w') →
  r = Some (RsSplit left_ right_) ∧ d_cell d' = left_ ∧ d_pendingRemove d' = false ∧ w_data w' = w_data w ∧
  w_engines w' = w_engines (driver_write enginesMask (Cell_ID c) ([BSet (getCellStateKey (Cell_ID c)) (VCellState (mkLocalState Normal left_))] ++
      [BSet (getApplyStateKey (Cell_ID c)) (VApplyState (d_applyState d'))])
      (driver_write enginesMask id (writeInitialState id (updatePeerState right_ Normal [])) w)).
Proof.
  intros c left_ right_ Hrm Hq Hin Hlen. set (entry := mkEntry _ _ _ _).
  unfold apply_one. case_bool_decide; [done|]. cbn [E_Type entry]. unfold applyEntry. cbn [E_Data entry].
  destruct (doApplyRaftCMD _ _ _ d _ w) as [[[[r0 d0] ctx0] w0]| |] eqn:Eq; try done. cbn [outcome_bind]. intros [= <- <- <- <-].
  apply doApplyRaftCMD_inv in Eq as (x & d1 & w1 & resp & d2 & w2 & Hf & _ & _ & Hx & (_ & G1 & G2 & G3 & _) & (G4 & G5 & _)).
  apply findCB_frame in Hf as [(_ & F1 & F2 & _) (F3 & F4 & _)].
  destruct (exec_split d1 (newCtx d q entry) w1 key id peerIDs) as [resp' Hx']; [by rewrite F1|by rewrite F1|by rewrite F1|].
  rewrite Hx' in Hx. injection Hx as _ <- <- <- <-. rewrite F1 in *. unfold commit in G1, G2, G3, G4, G5. cbn in G1, G2, G3, G4, G5.
  rewrite F2, Hrm in G4. split_and!; [done|done|by rewrite G2, F2|by rewrite G5, F4|]. rewrite G4, G3, F3. done.
Qed.

(** A split at the empty key, which a cell without lower bound accepts, does
    not divide it: the old cell ends up with every key. *)
Lemma split_at_empty_key c id peerIDs k : Start c = [] → in_cell k (split_left c []) ∧ (in_cell k c → in_cell k (split_right c [] id peerIDs)).
Proof. intros Hs. unfold in_cell; simpl. rewrite Hs. split; [split; [apply nil_ble|by left]|]. intros [_ H]. split; [apply nil_ble|done]. Qed.

(** C9. A split divides a cell.  A committed split at a non-empty key of the
    cell, with one new peer id per peer and an epoch that is not stale, never
    fails: the old cell keeps the keys before the split key and the new cell
    gets the others, no key belongs to both and none is lost; both get the same,
    larger cell version, so that writes routed by the old range are refused; the
    new cell has one peer on each store of the old one, in order, with the new
    ids.  The data is not touched, both cells are saved, and the storage of the
    new cell can be opened with the initial raft and apply states. *)
Theorem split_divides_cell rs d (w : worldED) term q key id peerIDs :
  let c := d_cell d in
  let left_ := split_left c key in
  let right_ := split_right c key id peerIDs in
  handlers_return → engines_wf w → is_u64 (Cell_ID c) → is_u64 id → id ≠ Cell_ID c → cell_saved Normal c w → d_pendingRemove d = false →
  0 ≤ AppliedIndex (d_applyState d) → AppliedIndex (d_applyState d) + 1 < two64 → is_u64 (CellVer (Epoch c) + 1) →
  split_request q c key id peerIDs → in_cell key c → key ≠ [] → Peers c ≠ [] → length peerIDs = length (Peers c) →
  q ∈ rs → pending_ok rs d →
  ∃ ms d' w',
    apply_one enginesMask redisWriteHandles MSet (mkEntry term (AppliedIndex (d_applyState d) + 1) EntryNormal (DCommand q)) d w =
      Ok (Some (RsSplit left_ right_), ms, d', w') ∧
    d_cell d' = left_ ∧ w_data w' = w_data w ∧
    (∀ k, in_cell k c ↔ in_cell k left_ ∨ in_cell k right_) ∧ (∀ k, in_cell k left_ → in_cell k right_ → False) ∧
    Peer_ID <$> Peers right_ = peerIDs ∧ Peer_StoreID <$> Peers right_ = Peer_StoreID <$> Peers c ∧
    (∀ req h, AdminReq req = None → Header req = Some h → CellVer (Hdr_CellEpoch h) ≤ CellVer (Epoch c) →
       checkEpoch left_ req = false ∧ checkEpoch right_ req = false) ∧
    saved d' w' ∧ cell_saved Normal right_ w' ∧
    newPeerStorage right_ (engine_of w' id) =
      Ok (mkPeerStorage right_ raftInitLogTerm raftInitLogTerm raftInitLogIndex 0 initialRaftState initialApplyState).
Proof.
  intros c left_ right_ Hh Hwf Hid Hnid Hne Hsv Hrm Hi0 Hi1 Hver Hq Hin Hkey Hpeers Hlen Hrs Hpend.
  pose proof Hq as (Ha & Hr & h & Hhd & Hep). set (entry := mkEntry _ _ _ _).
  assert (answerable q) as Hans by (split; [by eexists|by rewrite Ha]).
  destruct (apply_one_total rs entry d w) as (r & ms & d' & w' & Hone & Hp'); try done.
  { simpl. by rewrite u64_small by (unfold is_u64; lia). }
  { simpl. lia. }
  { split; [by apply Forall_singleton|done]. }
  { by intros x ->%list_elem_of_singleton. }
  pose proof Hone as Hst. apply apply_one_stepped in Hst as [[S1 S2 S3 S4 _] _]; [|done..].
  assert (noop_request (d_cell d) q = false) as Hno by (unfold noop_request; by rewrite Ha).
  simpl in S4. rewrite Hno in S4.
  apply (apply_one_split d w term q key id peerIDs) in Hone as Hsp; [|done..]. destruct Hsp as (-> & Hcell & Hrm' & Hdata & Heng).
  fold c in Heng. fold left_ in Hcell, Heng. fold right_ in Heng.
  assert (∀ k, k ∈ state_keys id →
    eng_map (engine_of w' id) !! k = map_write (writeInitialState id (updatePeerState right_ Normal [])) (eng_map (engine_of w id)) !! k) as Hmap.
  { intros k Hk. unfold RaftApply.engine_of at 1. rewrite Heng. rewrite <-driver_write_engine by done.
    apply driver_write_other; [by apply driver_write_wf|]. pose proof (state_keys_disjoint id (Cell_ID c) k Hnid Hid Hne Hk) as Hd.
    unfold state_keys in Hd. rewrite !not_elem_of_cons in Hd. simpl. rewrite !not_elem_of_cons. split_and!; try apply Hd. }
  unfold writeInitialState, updatePeerState in Hmap. simpl in Hmap.
  pose proof (state_keys_ne id Hnid) as Hk1. pose proof (cell_ne_apply_key id Hnid) as Hk2.
  assert (getCellStateKey id ≠ getRaftStateKey id) as Hk3.
  { intros Heq. by assert (KCellState id = KRaftState id) by by apply encode_key_injective. }
  destruct (split_ranges c key id peerIDs Hin Hkey) as [HR1 HR2]. destruct (S4 Hrm') as [Happ Hcs].
  exists ms, d', w'. split_and!; try done.
  - simpl. rewrite fmap_zip_with_l; [done|done|by rewrite Hlen].
  - by apply zip_with_stores.
  - intros req hd Ha' Hh' Hv. unfold checkEpoch. rewrite Ha', Hh'. simpl. rewrite u64_small by done.
    by rewrite bool_decide_eq_true_2 by lia.
  - unfold cell_saved. simpl. rewrite Hmap by (by left). by rewrite lookup_insert_ne, lookup_insert_ne, lookup_insert_eq.
  - apply newPeerStorage_initial; [apply S2| | |]; change (Cell_ID right_) with id.
    + intros Heq%(f_equal length). simpl in Heq. rewrite length_zip_with, Hlen in Heq. destruct (Peers c); [done|simpl in *; lia].
    + rewrite Hmap by (by right; left). by rewrite lookup_insert_ne, lookup_insert_eq.
    + rewrite Hmap by (by right; right; left). by rewrite lookup_insert_eq.
Qed.
End apply_props.

(** ** Concrete instances: a store of lists of pairs with one redis command *)
Definition demo_data : Type := list (bytes * bytes).
Definition demo_set : @write_handle demo_data := λ _ req s,
  match Req_Cmd req with
  | [_; key; value_] => Ok (emptyResponse, (s.1.1 ++ [(key, value_)], s.1.2, s.2))
  | _ => Ok (emptyResponse, s)
  end.
Definition demo_handles (t : Z) : option (@write_handle demo_data) := if bool_decide (t = 1) then Some demo_set else None.
Definition demo_MSet (_ : Z) (rb : redisBatch) (d : demo_data) : demo_data := d ++ rb.
Definition demo_header (uuid : bytes) : RaftRequestHeader := mkReqHeader 7 (mkPeer 1 1) true uuid (mkCellEpoch 1 1) 5.
Definition demo_write : RaftCMDRequest := mkRaftCMD (Some (demo_header [x01])) [mkRequest [x0a] 1 [[x73]; [x61]; [x31]] 1] None.
Definition demo_change (uuid : bytes) (t : ConfChangeType) (p : Peer) : RaftCMDRequest :=
  mkRaftCMD (Some (demo_header uuid)) [] (Some (AChangePeer t p)).
Definition demo_split : RaftCMDRequest := mkRaftCMD (Some (demo_header [x03])) [] (Some (ASplit (getDataKey [x6d]) 8 [21; 22; 23])).
Definition demo_delegate (peerID : Z) (cs : list cmd) : applyDelegate := mkDelegate peerID demo_cell false initialApplyState 5 5 cs None.
Definition demo_world : world mem demo_data := mkWorld (λ _, SaveCell (Engine0 := memory_engine) demo_cell eng_empty) [] [] [].
Definition demo_entries : list Entry :=
  [mkEntry 5 6 EntryNormal (DCommand demo_write); conf_entry 5 7 RemoveNode 3 (demo_change [x02] RemoveNode (mkPeer 3 3));
   demo_entry 8 6; mkEntry 6 9 EntryNormal (DCommand demo_write)].
Abbreviation demo_apply := (applyCommittedEntries (Engine0 := memory_engine (T := mem)) 0 demo_handles demo_MSet).

Lemma demo_handlers : handlers_return demo_handles.
Proof.
  intros t h id req s. unfold demo_handles. case_bool_decide; [|done]. intros [= <-]. unfold demo_set.
  destruct (Req_Cmd req) as [|? [|? [|? [|]]]]; by eexists.
Qed.
Lemma demo_answerable q : q ∈ [demo_write; demo_split; demo_change [x02] RemoveNode (mkPeer 3 3)] → answerable demo_handles q.
Proof.
  rewrite !elem_of_cons, elem_of_nil. intros [-> |[-> |[-> |[]]]]; (split; [by eexists|simpl; try done]).
  apply Forall_singleton. by eexists.
Qed.
Lemma demo_entries_ok : entries_ok demo_handles 6 demo_entries.
Proof.
  pose proof demo_answerable as Ha. cbn [entries_ok demo_entries].
  split; [reflexivity|]. split; [split; [apply Forall_singleton, Ha; by left|done]|].
  split; [reflexivity|]. split; [split; [apply Forall_singleton, Ha; by right; right; left|done]|].
  split; [reflexivity|]. split; [split; [constructor|by vm_compute]|].
  split; [reflexivity|]. split; [split; [apply Forall_singleton, Ha; by left|done]|done].
Qed.
Lemma demo_pending rs : Forall (λ r, uuid_of r = Some [x01] → r = demo_write) rs → pending_ok rs (demo_delegate 1 [mkCmd (Some demo_write) (Some 9) 5]).
Proof.
  intros Hrs. split; [|by intros c]. apply Forall_singleton. exists demo_write. split; [done|]. split; [by eexists|].
  intros r Hr Hu. rewrite Forall_forall in Hrs. symmetry. by apply Hrs.
Qed.
Lemma demo_wf : engines_wf (Engine0 := memory_engine) demo_world.
Proof. intros i. apply (Write_wf (Engine0 := memory_engine)), (eng_empty_wf (Engine := memory_engine (T := mem))). Qed.
Lemma demo_saved cs : saved (Engine0 := memory_engine) 0 (demo_delegate 1 cs) demo_world.
Proof. split; reflexivity. Qed.

(** Evaluating one observation of a run. *)
Definition observe {A B} (f : A → B) (o : outcome unit A) : option B := match o with Ok a => Some (f a) | _ => None end.
Lemma observe_Ok {A B} (f : A → B) o b : observe f o = Some b → ∃ a, o = Ok a ∧ f a = b.
Proof. destruct o; simpl; try done. intros [= <-]. by eexists. Qed.

(** The first replica waits for the write and answers it; the second follows. *)
Lemma replicas_agree_witness :
  ∃ rs d1' w1', demo_apply demo_entries (demo_delegate 1 [mkCmd (Some demo_write) (Some 9) 5]) demo_world = Ok (rs, d1', w1') ∧
    w_data w1' = [([x61], [x31]); ([x61], [x31])] ∧ Peer_ID <$> Peers (d_cell d1') = [1; 2] ∧ length (w_responses w1') = 1%nat.
Proof.
  assert (observe (λ o, d_pendingRemove o.1.2) (demo_apply demo_entries (demo_delegate 2 []) demo_world) = Some false) as H2 by (vm_compute; reflexivity).
  apply observe_Ok in H2 as ([[rs2 d2'] w2'] & E2 & Hrm2).
  destruct (replicas_agree (Engine0 := memory_engine (T := mem)) 0 demo_handles demo_MSet demo_entries
    (demo_delegate 1 [mkCmd (Some demo_write) (Some 9) 5]) (demo_delegate 2 []) demo_world demo_world rs2 d2' w2')
    as (es1 & rs1 & d1' & w1' & d2'' & w2'' & _ & Hrun & _); [by split_and!|reflexivity|reflexivity| | |exact E2|exact Hrm2|].
  - rewrite Forall_forall. intros q Hq. apply demo_answerable. unfold demo_entries, entry_requests in Hq. simpl in Hq.
    rewrite !elem_of_cons, elem_of_nil in *. destruct Hq as [-> |[-> |[-> |[]]]]; auto.
  - apply demo_pending. unfold demo_entries, entry_requests. simpl. repeat constructor; done.
  - exists rs1, d1', w1'. split; [exact Hrun|].
    assert (observe (λ o, (w_data o.2, Peer_ID <$> Peers (d_cell o.1.2), length (w_responses o.2)))
      (demo_apply demo_entries (demo_delegate 1 [mkCmd (Some demo_write) (Some 9) 5]) demo_world) =
      Some ([([x61], [x31]); ([x61], [x31])], [1; 2], 1%nat)) as H by (vm_compute; reflexivity).
    rewrite Hrun in H. injection H as H1 H2 H3. split_and!; [exact H1|exact H2|exact H3].
Defined.

(** The same run is saved; the removed peer stops at the entry that removes it. *)
Lemma applied_entries_durable_witness :
  ∃ rs d' w', demo_apply demo_entries (demo_delegate 1 [mkCmd (Some demo_write) (Some 9) 5]) demo_world = Ok (rs, d', w') ∧
    saved (Engine0 := memory_engine (T := mem)) 0 d' w' ∧ AppliedIndex (d_applyState d') = 9.
Proof.
  assert (effective (Engine0 := memory_engine (T := mem)) 0 demo_handles demo_MSet demo_entries
    (demo_delegate 1 [mkCmd (Some demo_write) (Some 9) 5]) demo_world = true) as Heff by (vm_compute; reflexivity).
  destruct (applied_entries_durable (Engine0 := memory_engine (T := mem)) 0 demo_handles demo_MSet demo_entries
    (demo_delegate 1 [mkCmd (Some demo_write) (Some 9) 5]) demo_world) as (rs & d' & w' & Hrun & _ & Hidx & Hs);
    [exact demo_handlers|exact demo_wf|split; done|apply demo_saved|reflexivity|done|done| | |exact Heff|].
  - exact demo_entries_ok.
  - apply demo_pending. unfold demo_entries, entry_requests. simpl. repeat constructor; done.
  - assert (observe (λ o, d_pendingRemove o.1.2) (demo_apply demo_entries (demo_delegate 1 [mkCmd (Some demo_write) (Some 9) 5]) demo_world) = Some false)
      as Hrm by (vm_compute; reflexivity).
    rewrite Hrun in Hrm. injection Hrm as Hrm. simpl in Hrm. rewrite Hrm in Hs. destruct Hs as (Hl & Hs & _).
    exists rs, d', w'. split; [exact Hrun|]. split; [exact Hs|]. rewrite Hidx, Hl. reflexivity.
Defined.

(** Store 2 already has a peer; peer 3 can no longer be removed. *)
Lemma noop_change_wedges_witness :
  ∃ r1 ms1 d1 w1, apply_one (Engine0 := memory_engine (T := mem)) 0 demo_handles demo_MSet
      (conf_entry 5 6 AddNode 9 (demo_change [x04] AddNode (mkPeer 9 2))) (demo_delegate 1 []) demo_world = Ok (Some (RsChangePeer r1), ms1, d1, w1) ∧
    ConfVer (Epoch (d_cell d1)) = 2 ∧ cell_saved (Engine0 := memory_engine (T := mem)) 0 Normal demo_cell w1.
Proof.
  destruct (noop_change_wedges (Engine0 := memory_engine (T := mem)) 0 demo_handles demo_MSet (demo_delegate 1 []) (demo_delegate 2 []) demo_world demo_world
    5 5 9 3 (demo_change [x04] AddNode (mkPeer 9 2)) AddNode (mkPeer 9 2) (demo_change [x02] RemoveNode (mkPeer 3 3)) RemoveNode (mkPeer 3 3))
    as (r1 & ms1 & d1 & w1 & r2 & ms2 & d2 & w2 & Hone & _ & Hc & Hsv & _);
    [exact demo_handlers|exact demo_wf|split; done|apply (demo_saved [])|reflexivity|done|done|done|done
    |split_and!; [done|done|by eexists]|reflexivity|split_and!; [done|done|by eexists]|reflexivity|split; [constructor|by intros c]|].
  exists r1, ms1, d1, w1. split; [exact Hone|]. split; [rewrite Hc; reflexivity|exact Hsv].
Defined.

(** Cell 7 is split at "m" into cells 7 and 8. *)
Lemma split_divides_cell_witness :
  ∃ ms d' w', apply_one (Engine0 := memory_engine (T := mem)) 0 demo_handles demo_MSet
      (mkEntry 5 6 EntryNormal (DCommand demo_split)) (demo_delegate 1 []) demo_world =
      Ok (Some (RsSplit (mkCell 7 [] [x6d] (mkCellEpoch 1 2) (Peers demo_cell)) (mkCell 8 [x6d] [] (mkCellEpoch 1 2) [mkPeer 21 1; mkPeer 22 2; mkPeer 23 3])), ms, d', w') ∧
    saved (Engine0 := memory_engine (T := mem)) 0 d' w'.
Proof.
  destruct (split_divides_cell (Engine0 := memory_engine (T := mem)) 0 demo_handles demo_MSet [demo_split] (demo_delegate 1 []) demo_world 5 demo_split [x6d] 8 [21; 22; 23])
    as (ms & d' & w' & Hone & _ & _ & _ & _ & _ & _ & _ & Hsv & _);
    [exact demo_handlers|exact demo_wf|split; done|split; done|done|apply (demo_saved [])|reflexivity|done|done|split; done
    |split_and!; [done|done|by eexists]|split; [apply nil_ble|by left]|done|done|reflexivity|by left|split; [constructor|by intros c]|].
  exists ms, d', w'. split; [exact Hone|exact Hsv].
Defined.
