(* ===== verification/RedisTable.v ===== *)
(** * Command tables

    The command types of pkg/pb/raftcmdpb, the tables a store fills in
    [initRedisHandle] (pkg/raftstore/redis.go) with the commands it executes as
    writes and as reads, and the table of the redis server in front of it
    ([init] of pkg/server/redis_server.go) with the commands it lets through. *)

From S2P Require Import Prelude.

Inductive CMDType :=
  | CInvalid | CRaftError | CSnap | CPing | CDel | CSet | CGet | CMSet | CMGet | CIncrby | CDecrby | CGetSet
  | CAppend | CSetnx | CStrLen | CIncr | CDecr | CSetRange | CMSetNX | CHSet | CHGet | CHDel | CHExists
  | CHKeys | CHVals | CHGetAll | CHLen | CHMGet | CHMSet | CHSetNX | CHStrLen | CHIncrBy | CHScanGet
  | CLIndex | CLInsert | CLLEN | CLPop | CLPush | CLPushX | CLRange | CLRem | CLSet | CLTrim | CRPop
  | CRPopLPush | CRPush | CRPushX | CSAdd | CSCard | CSRem | CSMembers | CSIsMember | CSPop | CZAdd | CZCard
  | CZCount | CZIncrBy | CZLexCount | CZRange | CZRangeByLex | CZRangeByScore | CZRank | CZRem
  | CZRemRangeByLex | CZRemRangeByRank | CZRemRangeByScore | CZScore | CLock | CUnlock | CLockable.
#[export] Instance CMDType_eq_dec : EqDecision CMDType.
Proof. solve_decision. Defined.

Definition cmd_code (t : CMDType) : Z :=
  match t with
  | CInvalid => 0 | CRaftError => 1 | CSnap => 2 | CPing => 100 | CDel => 101 | CSet => 200 | CGet => 201
  | CMSet => 202 | CMGet => 203 | CIncrby => 204 | CDecrby => 205 | CGetSet => 206 | CAppend => 207
  | CSetnx => 208 | CStrLen => 209 | CIncr => 210 | CDecr => 211 | CSetRange => 212 | CMSetNX => 213
  | CHSet => 300 | CHGet => 301 | CHDel => 302 | CHExists => 303 | CHKeys => 304 | CHVals => 305
  | CHGetAll => 306 | CHLen => 307 | CHMGet => 308 | CHMSet => 309 | CHSetNX => 310 | CHStrLen => 311
  | CHIncrBy => 312 | CHScanGet => 313 | CLIndex => 400 | CLInsert => 401 | CLLEN => 402 | CLPop => 403
  | CLPush => 404 | CLPushX => 405 | CLRange => 406 | CLRem => 407 | CLSet => 408 | CLTrim => 409
  | CRPop => 410 | CRPopLPush => 411 | CRPush => 412 | CRPushX => 413 | CSAdd => 500 | CSCard => 501
  | CSRem => 502 | CSMembers => 503 | CSIsMember => 504 | CSPop => 505 | CZAdd => 600 | CZCard => 601
  | CZCount => 602 | CZIncrBy => 603 | CZLexCount => 604 | CZRange => 605 | CZRangeByLex => 606
  | CZRangeByScore => 607 | CZRank => 608 | CZRem => 609 | CZRemRangeByLex => 611 | CZRemRangeByRank => 612
  | CZRemRangeByScore => 613 | CZScore => 614 | CLock => 700 | CUnlock => 701 | CLockable => 702
  end.

Definition redisWriteTypes : list CMDType :=
  [CSet; CIncrby; CIncr; CDecrby; CDecr; CGetSet; CAppend; CSetnx; CHSet; CHDel; CHMSet; CHSetNX; CHIncrBy;
   CLInsert; CLPop; CLPush; CLPushX; CLRem; CLSet; CLTrim; CRPop; CRPush; CRPushX; CSAdd; CSRem; CZAdd;
   CZIncrBy; CZRem; CZRemRangeByLex; CZRemRangeByRank; CZRemRangeByScore; CLock; CUnlock].
Definition redisReadTypes : list CMDType :=
  [CGet; CStrLen; CHGet; CHExists; CHKeys; CHVals; CHGetAll; CHScanGet; CHLen; CHMGet; CHStrLen; CLIndex;
   CLLEN; CLRange; CSCard; CSIsMember; CSMembers; CZCard; CZCount; CZLexCount; CZRange; CZRangeByLex;
   CZRangeByScore; CZRank; CZScore; CLockable].
Definition serverTypes : list CMDType :=
  [CDel; CSet; CGet; CIncrby; CIncr; CDecrby; CDecr; CGetSet; CAppend; CSetnx; CStrLen; CHSet; CHDel;
   CHExists; CHGet; CHGetAll; CHIncrBy; CHKeys; CHLen; CHMGet; CHMSet; CHSetNX; CHStrLen; CHVals; CLIndex;
   CLInsert; CLLEN; CLPop; CLPush; CLPushX; CLRange; CLRem; CLSet; CLTrim; CRPop; CRPush; CRPushX; CSAdd;
   CSCard; CSRem; CSMembers; CSIsMember; CSPop; CZAdd; CZCard; CZCount; CZIncrBy; CZLexCount; CZRange;
   CZRangeByLex; CZRangeByScore; CZRank; CZRem; CZRemRangeByLex; CZRemRangeByRank; CZRemRangeByScore;
   CZScore; CLock; CUnlock; CLockable].
Definition isWriteType (t : Z) : bool := bool_decide (t ∈ cmd_code <$> redisWriteTypes).
Definition isReadType (t : Z) : bool := bool_decide (t ∈ cmd_code <$> redisReadTypes).

(** No command is both a read and a write. *)
Lemma read_write_disjoint t : isReadType t = true → isWriteType t = false.
Proof.
  unfold isReadType. rewrite bool_decide_eq_true. intros Hr.
  assert (Forall (λ t, isWriteType t = false) (cmd_code <$> redisReadTypes)) as HF by (apply (bool_decide_unpack _); vm_compute; exact I).
  rewrite Forall_forall in HF. by apply HF.
Qed.

(** The commands the server lets through although no store executes them. *)
Definition unhandled : list CMDType :=
  filter (λ t, isWriteType (cmd_code t) = false ∧ isReadType (cmd_code t) = false) serverTypes.
Lemma unhandled_commands : unhandled = [CDel; CSPop].
Proof. vm_compute. reflexivity. Qed.

(** Commands have different numbers. *)
Lemma cmd_code_inj t t' : cmd_code t = cmd_code t' → t = t'.
Proof.
  intros Heq. pose (all := [CInvalid; CRaftError; CSnap; CPing; CMSet; CMGet; CSetRange; CMSetNX; CRPopLPush] ++ serverTypes ++ redisReadTypes).
  assert (∀ t, snd <$> list_find (λ c, cmd_code c = cmd_code t) all = Some t) as Hinv by (intros []; vm_compute; reflexivity).
  apply (inj Some). rewrite <-(Hinv t), <-(Hinv t'). by rewrite Heq.
Qed.
