(* ===== verification/Propose.v ===== *)
(** * The request path of a cell peer

    pkg/raftstore/propose_batch.go, the proposing half of peer_raft.go and
    cmd.go, and the read index queue of raft_handle_do.go: requests that arrive
    at a peer are batched into commands, a command is answered at once, handed
    to raft (and then waits in the apply delegate), or waits until raft confirms
    that a read may be served.  The raft library appears as what [rn.Status()]
    reports and as the answers of its calls ([raft_answer]). *)

From S2P Require Import Prelude Encoding Meta Keys BTree KVTree RaftTypes RaftLog RaftApply.

(** ** What raft reports *)
Inductive ProgressState := ProgressStateProbe | ProgressStateReplicate | ProgressStateSnapshot.
#[export] Instance ProgressState_eq_dec : EqDecision ProgressState.
Proof. solve_decision. Defined.
Record Progress := mkProgress { Match : Z; P_State : ProgressState }.
Record RaftStatus := mkStatus { isLeader_ : bool; Status_Term : Z; Lead : Z; Status_Progress : gmap Z Progress; rn_LastIndex : Z }.

(** The answer of [rn.Propose] or [rn.ReadIndex]: an error, the proposal was
    dropped (the next index did not move), or it was taken; and, when a command was taken, the answer of the
    runner to the job that hands it to the apply delegate, which a runner that stops refuses ([RTakenNoJob]). *)
Inductive raft_answer := RErr | RDropped | RTaken | RTakenNoJob.

(** ** Batches *)
Record reqCtx := mkReqCtx { rc_admin : option AdminRequest; rc_req : option Request; rc_cb : option Z }.
Inductive batch_type := TRead | TWrite | TAdmin.
#[export] Instance batch_type_eq_dec : EqDecision batch_type.
Proof. solve_decision. Defined.
Record proposeBatch := mkBatch { lastType : batch_type; cmds : list cmd }.
Definition newBatch : proposeBatch := mkBatch TRead [].

Record Cfg := mkCfg {
  BatchSizeProposal : Z;
  LimitRaftEntryBytes : Z;
  ThresholdCompact : Z;
  LimitCompactCount : Z;
  LimitCompactBytes : Z;
  LimitCompactLag : Z;
}.
Definition transferLeaderAllowLogLag : Z := 10.

(** ** A cell peer *)
Record PeerReplicate := mkPR {
  pr_cellID : Z;
  pr_peer : Peer;
  pr_ps : peerStorage;
  pr_rn : RaftStatus;
  pr_batch : proposeBatch;
  pr_reads : list cmd;
  pr_readyCnt : Z;
  pr_raftLogSizeHint : Z;
  (** [writtenKeys], [writtenBytes], [sizeDiffHint] and [deleteKeysHint] *)
  pr_counters : applyMetrics;
}.
Definition pr_getCell (pr : PeerReplicate) : Cell := ps_cell (pr_ps pr).
Definition pr_isLeader (pr : PeerReplicate) : bool := isLeader_ (pr_rn pr).
Definition getCurrentTerm (pr : PeerReplicate) : Z := Status_Term (pr_rn pr).
Definition set_batch (b : proposeBatch) (pr : PeerReplicate) : PeerReplicate :=
  mkPR (pr_cellID pr) (pr_peer pr) (pr_ps pr) (pr_rn pr) b (pr_reads pr) (pr_readyCnt pr) (pr_raftLogSizeHint pr) (pr_counters pr).
Definition set_reads (l : list cmd) (n : Z) (pr : PeerReplicate) : PeerReplicate :=
  mkPR (pr_cellID pr) (pr_peer pr) (pr_ps pr) (pr_rn pr) (pr_batch pr) l n (pr_raftLogSizeHint pr) (pr_counters pr).
Definition set_ps (ps : peerStorage) (pr : PeerReplicate) : PeerReplicate :=
  mkPR (pr_cellID pr) (pr_peer pr) ps (pr_rn pr) (pr_batch pr) (pr_reads pr) (pr_readyCnt pr) (pr_raftLogSizeHint pr) (pr_counters pr).

Definition set_counters (m : applyMetrics) (pr : PeerReplicate) : PeerReplicate :=
  mkPR (pr_cellID pr) (pr_peer pr) (pr_ps pr) (pr_rn pr) (pr_batch pr) (pr_reads pr) (pr_readyCnt pr) (pr_raftLogSizeHint pr) m.

(** Where a command goes: [startProposeJob] hands it to the apply delegate,
    [rn.TransferLeader] asks raft to move the leader. *)
Inductive effect :=
  | EProposeJob (c : cmd) (isConfChange : bool)
  | ETransferLeader (peerID : Z).

Section propose.
Context {E D : Type} (cfg : Cfg) (storeID : Z).
(** The handlers of the store and what it knows of peers and cells. *)
Definition read_handle := Z → Request → D → outcome unit Response.
Context (redisReadHandles : Z → option read_handle) (redisWriteHandles : Z → option (@write_handle D)).
Context (getPeer : Z → Peer) (validateCell : RaftCMDRequest → option ErrorPb) (marshal_size : RaftCMDRequest → Z).
Abbreviation worldED := (world E D).
Abbreviation res A := (outcome unit A).

Definition isRead (r : Request) : bool := bool_decide (is_Some (redisReadHandles (Req_Type r))).
Definition isWrite (r : Request) : bool := bool_decide (is_Some (redisWriteHandles (Req_Type r))).

Definition getType (c : reqCtx) : res batch_type :=
  match rc_admin c, rc_req c with
  | Some _, _ => Ok TAdmin
  | None, Some r => Ok (if isWrite r then TWrite else TRead)
  | None, None => Panic
  end.

(** [req.Cmd[1] = getDataKey0(req.Cmd[1])] *)
Definition use_data_key (r : Request) : res Request :=
  match Req_Cmd r with
  | name :: key :: args => Ok (mkRequest (Req_UUID r) (Req_Type r) (name :: getDataKey key :: args) (Req_SessionID r))
  | _ => Panic
  end.

Definition isFull (lastSize : nat) : bool := bool_decide (BatchSizeProposal cfg = Z.of_nat lastSize).

(** A new command for the batch, stamped with the epoch of the cell. *)
Definition new_cmd (c : Cell) (peer : Peer) (uuid : bytes) (admin : option AdminRequest) (reqs : list Request) (cb : option Z) : cmd :=
  mkCmd (Some (mkRaftCMD (Some (mkReqHeader (Cell_ID c) peer true uuid (Epoch c) 0)) reqs admin)) cb 0.
Definition add_request (r : Request) (c : cmd) : cmd :=
  match c_req c with
  | Some q => mkCmd (Some (mkRaftCMD (Header q) (Requests q ++ [r]) (AdminReq q))) (c_cb c) (c_term c)
  | None => c
  end.

(** [uuid] is what [uuid.NewV4] returns when a new command is made. *)
Definition push (c : Cell) (peer : Peer) (uuid : bytes) (rc : reqCtx) (b : proposeBatch) : res proposeBatch :=
  let! tp := getType rc in
  match rc_admin rc with
  | Some a => Ok (mkBatch tp (cmds b ++ [new_cmd c peer uuid (Some a) [] (rc_cb rc)]))
  | None =>
      match rc_req rc with
      | None => Panic
      | Some r =>
          let! r := use_data_key r in
          match last (cmds b) with
          | Some l =>
              if bool_decide (lastType b ≠ tp) then Ok (mkBatch tp (cmds b ++ [new_cmd c peer uuid None [r] (rc_cb rc)]))
              else match c_req l with
              | None => Panic
              | Some q =>
                  if isFull (length (Requests q)) then Ok (mkBatch tp (cmds b ++ [new_cmd c peer uuid None [r] (rc_cb rc)]))
                  else Ok (mkBatch tp (removelast (cmds b) ++ [add_request r l]))
              end
          | None => Ok (mkBatch tp (cmds b ++ [new_cmd c peer uuid None [r] (rc_cb rc)]))
          end
      end
  end.

Fixpoint push_all (c : Cell) (peer : Peer) (l : list (reqCtx * bytes)) (b : proposeBatch) : res proposeBatch :=
  match l with
  | [] => Ok b
  | (rc, uuid) :: l' => let! b := push c peer uuid rc b in push_all c peer l' b
  end.

(** ** Answers *)
Definition respOtherError (c : cmd) (w : worldED) : res worldED := cmd_resp c errorOtherCMDResp w.
Definition respNotLeader (c : cmd) (cellID : Z) (leader : Peer) (w : worldED) : res worldED :=
  let! uuid := getUUID c in cmd_resp c (errorPbResp (NotLeader cellID leader) uuid (c_term c)) w.
Definition respLargeRaftEntrySize (c : cmd) (cellID size : Z) (w : worldED) : res worldED :=
  let! uuid := getUUID c in cmd_resp c (errorPbResp (RaftEntryTooLarge cellID size) uuid (c_term c)) w.

(** ** Reads *)
Fixpoint read_requests (cellID : Z) (reqs : list Request) (data : D) : res (list Response) :=
  match reqs with
  | [] => Ok []
  | r :: reqs' =>
      match redisReadHandles (Req_Type r) with
      | Some h => let! rsp := h cellID r data in let! rsps := read_requests cellID reqs' data in Ok (rsp :: rsps)
      | None => read_requests cellID reqs' data
      end
  end.
Definition doExecReadCmd (pr : PeerReplicate) (c : cmd) (w : worldED) : res worldED :=
  match c_req c with
  | None => Panic
  | Some q => let! rsps := read_requests (pr_cellID pr) (Requests q) (w_data w) in cmd_resp c (mkRaftRsp None rsps None) w
  end.

Definition execReadLocal (pr : PeerReplicate) (c : cmd) (w : worldED) : res (PeerReplicate * worldED) :=
  let! w := doExecReadCmd pr c w in Ok (pr, w).

Definition execReadIndex (ans : raft_answer) (pr : PeerReplicate) (c : cmd) (w : worldED) : res (PeerReplicate * worldED) :=
  if negb (pr_isLeader pr) then
    let! w := respNotLeader c (pr_cellID pr) (getPeer (Lead (pr_rn pr))) w in Ok (pr, w)
  else match ans with
  | RTaken | RTakenNoJob => Ok (set_reads (pr_reads pr ++ [c]) (pr_readyCnt pr) pr, w)
  | _ => let! w := respNotLeader c (pr_cellID pr) (getPeer (Lead (pr_rn pr))) w in Ok (pr, w)
  end.

(** ** Proposals *)
Inductive requestPolicy := readLocal | readIndex | proposeNormal_ | proposeTransferLeader_ | proposeChange.

Definition validateStoreID (req : RaftCMDRequest) : bool :=
  match Header req with Some h => bool_decide (Peer_StoreID (Hdr_Peer h) = storeID) | None => true end.

(** The error of [validateCell] is tested through the variable of the previous
    check, which is nil here. *)
Definition checkProposal (pr : PeerReplicate) (c : cmd) (w : worldED) : res (option cmd * worldED) :=
  match c_req c with
  | None => Panic
  | Some q =>
      match Header q with
      | None => let! w := cmd_resp c errorOtherCMDResp w in Ok (None, w)
      | Some h =>
          if bool_decide (Hdr_UUID h = []) then let! w := cmd_resp c errorOtherCMDResp w in Ok (None, w)
          else
            let err := negb (validateStoreID q) in
            if err then let! w := respOtherError c w in Ok (None, w)
            else
              let pe := validateCell q in
              if err then
                let! w := match pe with
                          | Some e => cmd_resp c (errorPbResp e (Hdr_UUID h) (getCurrentTerm pr)) w
                          | None => Panic
                          end in Ok (None, w)
              else Ok (Some (mkCmd (c_req c) (c_cb c) (getCurrentTerm pr)), w)
      end
  end.

Definition getHandlePolicy (req : RaftCMDRequest) : option requestPolicy :=
  match AdminReq req with
  | Some (AChangePeer _ _) => Some proposeChange
  | Some (ATransferLeader _) => Some proposeTransferLeader_
  | Some _ => Some proposeNormal_
  | None =>
      let '(r, wr) := foldl (λ _ q, (isRead q, isWrite q)) (false, false) (Requests req) in
      if (r : bool) && (wr : bool) then None
      else if (wr : bool) then Some proposeNormal_
      else match Header req with
           | Some h => if negb (Hdr_ReadQuorum h) then Some readLocal else Some readIndex
           | None => Some readIndex
           end
  end.

Definition proposeNormal (ans : raft_answer) (pr : PeerReplicate) (c : cmd) (q : RaftCMDRequest) (w : worldED) : res (bool * worldED) :=
  if negb (pr_isLeader pr) then
    let! w := respNotLeader c (pr_cellID pr) (getPeer (Lead (pr_rn pr))) w in Ok (false, w)
  else if bool_decide (marshal_size q > LimitRaftEntryBytes cfg) then
    let! w := respLargeRaftEntrySize c (pr_cellID pr) (marshal_size q) w in Ok (false, w)
  else match ans with
  | RErr => let! w := cmd_resp c errorOtherCMDResp w in Ok (false, w)
  | RDropped => let! w := respNotLeader c (pr_cellID pr) (getPeer (Lead (pr_rn pr))) w in Ok (false, w)
  | RTaken | RTakenNoJob => Ok (true, w)
  end.

Definition isTransferLeaderAllowed (pr : PeerReplicate) (newLeader : Peer) : bool :=
  match Status_Progress (pr_rn pr) !! Peer_ID newLeader with
  | None => false
  | Some p =>
      if bool_decide (map_Exists (λ _ q, P_State q = ProgressStateSnapshot) (Status_Progress (pr_rn pr))) then false
      else bool_decide (LastIndex (pr_ps pr) ≤ u64 (Match p + transferLeaderAllowLogLag))
  end.

Definition proposeTransferLeader (peer : Peer) (pr : PeerReplicate) (c : cmd) (w : worldED) : res (list effect * worldED) :=
  let out := if isTransferLeaderAllowed pr peer then [ETransferLeader (Peer_ID peer)] else [] in
  let! w := cmd_resp c (adminRsp RTransferLeader) w in
  Ok (out, w).

Definition countHealthyNode (pr : PeerReplicate) : nat :=
  size (filter (λ kv, getTruncatedIndex (pr_ps pr) ≤ Match kv.2) (Status_Progress (pr_rn pr))).

(** [true] when the change may be proposed. *)
Definition checkConfChange (pr : PeerReplicate) (t : ConfChangeType) (peer : Peer) : bool :=
  let progress := Status_Progress (pr_rn pr) in
  let total := size progress in
  let enough total := bool_decide (total / 2 + 1 ≤ countHealthyNode pr)%nat in
  if bool_decide (total = 1%nat) then true
  else match t with
  | AddNode => enough (if bool_decide (is_Some (progress !! Peer_ID peer)) then total else S total)
  | RemoveNode => if bool_decide (is_Some (progress !! Peer_ID peer)) then enough (total - 1)%nat else true
  end.

Definition proposeConfChange (ans : raft_answer) (t : ConfChangeType) (peer : Peer) (pr : PeerReplicate) (c : cmd) (w : worldED) : res (bool * worldED) :=
  if negb (checkConfChange pr t peer) then let! w := respOtherError c w in Ok (false, w)
  else match ans with
  | RErr => let! w := respOtherError c w in Ok (false, w)
  | RDropped => let! w := respNotLeader c (pr_cellID pr) (getPeer (Lead (pr_rn pr))) w in Ok (false, w)
  | RTaken | RTakenNoJob => Ok (true, w)
  end.

(** [startProposeJob], and the error that is answered when it fails. *)
Definition startProposeJob (ans : raft_answer) (c : cmd) (isConfChange doPropose : bool) (w : worldED) : res (list effect * worldED) :=
  if negb doPropose then Ok ([], w)
  else match ans with
       | RTakenNoJob => let! w := respOtherError c w in Ok ([], w)
       | _ => Ok ([EProposeJob c isConfChange], w)
       end.

Definition propose (ans : raft_answer) (pr : PeerReplicate) (c : cmd) (w : worldED) : res (PeerReplicate * list effect * worldED) :=
  let! (checked, w) := checkProposal pr c w in
  match checked with
  | None => Ok (pr, [], w)
  | Some c =>
      match c_req c with
      | None => Panic
      | Some q =>
          match getHandlePolicy q with
          | None => let! w := cmd_resp c errorOtherCMDResp w in Ok (pr, [], w)
          | Some readLocal => let! (pr, w) := execReadLocal pr c w in Ok (pr, [], w)
          | Some readIndex => let! (pr, w) := execReadIndex ans pr c w in Ok (pr, [], w)
          | Some proposeNormal_ => let! (go, w) := proposeNormal ans pr c q w in let! (out, w) := startProposeJob ans c false go w in Ok (pr, out, w)
          | Some proposeTransferLeader_ =>
              match AdminReq q with
              | Some (ATransferLeader p) => let! (out, w) := proposeTransferLeader p pr c w in Ok (pr, out, w)
              | _ => Panic
              end
          | Some proposeChange =>
              match AdminReq q with
              | Some (AChangePeer t p) => let! (go, w) := proposeConfChange ans t p pr c w in let! (out, w) := startProposeJob ans c true go w in Ok (pr, out, w)
              | _ => Panic
              end
          end
      end
  end.

(** The answers of raft, one per command. *)
Fixpoint propose_all (answers : list raft_answer) (cs : list cmd) (pr : PeerReplicate) (w : worldED) : res (PeerReplicate * list effect * worldED) :=
  match cs with
  | [] => Ok (pr, [], w)
  | c :: cs' =>
      let! (pr, out, w) := propose (default RErr (head answers)) pr c w in
      let! (pr, outs, w) := propose_all (tail answers) cs' pr w in
      Ok (pr, out ++ outs, w)
  end.

Definition handleRequest (answers : list raft_answer) (reqs : list (reqCtx * bytes)) (pr : PeerReplicate) (w : worldED)
    : res (PeerReplicate * list effect * worldED) :=
  let! b := push_all (pr_getCell pr) (pr_peer pr) reqs (pr_batch pr) in
  propose_all answers (cmds b) (set_batch (mkBatch (lastType b) []) pr) w.

(** ** Reads that raft confirmed *)
Definition readyToHandleRead (pr : PeerReplicate) : bool := bool_decide (appliedIndexTerm (pr_ps pr) = getCurrentTerm pr).

Fixpoint apply_read_states (states : list bytes) (pr : PeerReplicate) (w : worldED) : res (PeerReplicate * worldED) :=
  match states with
  | [] => Ok (pr, w)
  | ctx :: states' =>
      match pr_reads pr with
      | [] => Panic
      | c :: reads =>
          let! uuid := getUUID c in
          if bool_decide (ctx ≠ uuid) then Panic
          else let! w := doExecReadCmd pr c w in
               apply_read_states states' (set_reads reads (pr_readyCnt pr) pr) w
      end
  end.

Fixpoint resp_stale (term : Z) (cs : list cmd) (w : worldED) : res worldED :=
  match cs with
  | [] => Ok w
  | c :: cs' => let! uuid := getUUID c in
                let! w := cmd_resp c (errorStaleCMDResp uuid term) w in resp_stale term cs' w
  end.

(** The loop [for i := 0; i < batch.size(); i++ { batch.pop() }]: the size shrinks
    while [i] grows, so only the first half of the commands is popped. *)
Fixpoint pop_batch (fuel i : nat) (cs : list cmd) : list cmd :=
  match fuel with
  | O => []
  | S fuel' => if bool_decide (i < length cs)%nat then take 1 cs ++ pop_batch fuel' (S i) (drop 1 cs) else []
  end.

(** [softLeader] is the role in [rd.SoftState], when the Ready has one. *)
Definition doApplyReads (readStates : list bytes) (softLeader : option bool) (pr : PeerReplicate) (w : worldED) : res (PeerReplicate * worldED) :=
  let! (pr, w) :=
    (if readyToHandleRead pr then apply_read_states readStates pr w
     else Ok (set_reads (pr_reads pr) (pr_readyCnt pr + Z.of_nat (length readStates)) pr, w)) in
  match softLeader with
  | Some false =>
      let! w := resp_stale (getCurrentTerm pr) (pr_reads pr) w in
      let pr := set_reads [] 0 pr in
      let! w := resp_stale (getCurrentTerm pr) (pop_batch (length (cmds (pr_batch pr))) 0 (cmds (pr_batch pr))) w in
      Ok (set_batch newBatch pr, w)
  | _ => Ok (pr, w)
  end.

Fixpoint exec_ready_reads (n : nat) (pr : PeerReplicate) (w : worldED) : res (PeerReplicate * worldED) :=
  match n with
  | O => Ok (pr, w)
  | S n' =>
      match pr_reads pr with
      | [] => Panic
      | c :: reads => let! w := doExecReadCmd pr c w in exec_ready_reads n' (set_reads reads (pr_readyCnt pr) pr) w
      end
  end.

(** The counters of a peer after a result: a split starts the hints anew. *)
Definition add_counters (isSplit : bool) (m c : applyMetrics) : applyMetrics :=
  mkMetrics (if isSplit then sizeDiffHint m else u64 (sizeDiffHint c + sizeDiffHint m))
    (if isSplit then deleteKeysHint m else u64 (deleteKeysHint c + deleteKeysHint m))
    (u64 (writtenBytes c + writtenBytes m)) (u64 (writtenKeys c + writtenKeys m)).
Definition hasSplitExecResult (r : asyncApplyResult) : bool := match ar_result r with Some (RsSplit _ _) => true | _ => false end.

(** [doPostApply]: the storage learns what was applied, and reads that waited
    for it are served. *)
Definition doPostApply (isApplyingSnap : bool) (r : asyncApplyResult) (pr : PeerReplicate) (w : worldED) : res (PeerReplicate * worldED) :=
  if isApplyingSnap then Panic
  else
    let ps := pr_ps pr in
    let pr := set_ps (mkPeerStorage (ps_cell ps) (lastTerm ps) (ar_appliedIndexTerm r) (lastReadyIndex ps) (lastCompactIndex ps) (raftState ps) (ar_applyState r)) pr in
    let pr := set_counters (add_counters (hasSplitExecResult r) (ar_metrics r) (pr_counters pr)) pr in
    if bool_decide (0 < pr_readyCnt pr) && readyToHandleRead pr then
      let! (pr, w) := exec_ready_reads (Z.to_nat (pr_readyCnt pr)) pr w in
      Ok (set_reads (pr_reads pr) 0 pr, w)
    else Ok (pr, w).

(** ** Log compaction *)
Context `{!MapOrder}.
Definition lower_match (r : Z) (p : Progress) : Z :=
  let r := if bool_decide (r = 0) then Match p else r in
  if bool_decide (Match p < r) then Match p else r.
Definition replicated_index (progress : gmap Z Progress) : Z := foldl lower_match 0 (range_values progress).

(** The compact index [handleCheckCompact] proposes, if any. *)
Definition handleCheckCompact (pr : PeerReplicate) : res (option Z) :=
  let replicatedIdx := replicated_index (Status_Progress (pr_rn pr)) in
  if bool_decide (0 < replicatedIdx) && bool_decide (rn_LastIndex (pr_rn pr) < replicatedIdx) then Panic
  else
    let appliedIdx := getAppliedIndex (pr_ps pr) in
    let firstIdx := FirstIndex (pr_ps pr) in
    if bool_decide (replicatedIdx < firstIdx) || bool_decide (u64 (replicatedIdx - firstIdx) ≤ ThresholdCompact cfg) then Ok None
    else
      let compactIdx :=
        if bool_decide (firstIdx < appliedIdx) && bool_decide (LimitCompactCount cfg ≤ u64 (appliedIdx - firstIdx)) then appliedIdx
        else if bool_decide (LimitCompactBytes cfg ≤ pr_raftLogSizeHint pr) then appliedIdx
        else replicatedIdx in
      if bool_decide (compactIdx = 0) then Panic
      else
        let compactIdx :=
          if bool_decide (replicatedIdx < compactIdx) && bool_decide (u64 (compactIdx - replicatedIdx) ≤ LimitCompactLag cfg) then replicatedIdx
          else compactIdx in
        let compactIdx := u64 (compactIdx - 1) in
        if bool_decide (compactIdx < firstIdx) then Ok None else Ok (Some compactIdx).
End propose.
