(* ===== verification/ProposeProps.v ===== *)
(** * Properties of the request path

    Batching keeps the requests of a peer and their order; every command meets
    exactly one fate (answered, handed to raft, waiting as a read); reads are
    served in the order raft confirms them; commands without a handler stop the
    store; and what the checks before a membership change or a log compaction
    guarantee. *)

From S2P Require Import Prelude Encoding Meta Keys BTree KVTree RaftTypes RaftLog RaftApply ApplyProps RedisTable Propose.

Section batches.
Context {E D : Type} (cfg : Cfg).
Context (redisReadHandles : Z → option (@read_handle D)) (redisWriteHandles : Z → option (@write_handle D)).
Abbreviation isWrite := (isWrite redisWriteHandles).
Abbreviation push := (push cfg redisWriteHandles).
Abbreviation push_all := (push_all cfg redisWriteHandles).

(** What a request context asks for, as it is put into a command: redis requests
    carry the data key. *)
Definition item : Type := AdminRequest + Request.
Definition encoded (r : Request) : Request :=
  match Req_Cmd r with
  | name :: key :: args => mkRequest (Req_UUID r) (Req_Type r) (name :: getDataKey key :: args) (Req_SessionID r)
  | _ => r
  end.
Definition item_of (rc : reqCtx) : option item :=
  match rc_admin rc with Some a => Some (inl a) | None => (λ r, inr (encoded r)) <$> rc_req rc end.
Definition well_formed (rc : reqCtx) : Prop :=
  match rc_admin rc, rc_req rc with
  | Some _, _ => True
  | None, Some r => (2 ≤ length (Req_Cmd r))%nat
  | None, None => False
  end.

Definition contents (c : cmd) : list item :=
  match c_req c with
  | Some q => match AdminReq q with Some a => [inl a] | None => inr <$> Requests q end
  | None => []
  end.
Definition cmd_uuid (c : cmd) : bytes := from_option id [] (c_req c ≫= uuid_of).

(** A command as a batch makes it: stamped with the cell, the peer and the epoch;
    an admin request alone, or redis requests that are all writes or all not,
    at most [BatchSizeProposal] of them. *)
Definition has_type (tp : batch_type) (q : RaftCMDRequest) : Prop :=
  match tp with
  | TAdmin => is_Some (AdminReq q) ∧ Requests q = []
  | TWrite => AdminReq q = None ∧ Requests q ≠ [] ∧ Forall (λ r, isWrite r = true) (Requests q)
  | TRead => AdminReq q = None ∧ Requests q ≠ [] ∧ Forall (λ r, isWrite r = false) (Requests q)
  end.
Definition bounded (q : RaftCMDRequest) : Prop :=
  1 ≤ BatchSizeProposal cfg → Z.of_nat (length (Requests q)) ≤ BatchSizeProposal cfg.
Definition cmd_ok (c : Cell) (peer : Peer) (x : cmd) : Prop :=
  ∃ q uuid tp, c_req x = Some q ∧ Header q = Some (mkReqHeader (Cell_ID c) peer true uuid (Epoch c) 0) ∧ c_term x = 0 ∧ has_type tp q ∧ bounded q.

Record batch_inv (c : Cell) (peer : Peer) (b : proposeBatch) (items : list item) (uuids : list bytes) : Prop := {
  bi_items : mjoin (contents <$> cmds b) = items;
  bi_cmds : Forall (cmd_ok c peer) (cmds b);
  bi_last : ∀ l q, last (cmds b) = Some l → c_req l = Some q → has_type (lastType b) q;
  bi_uuids : (cmd_uuid <$> cmds b) `sublist_of` uuids;
}.

(** A new command at the end of the batch. *)
Lemma batch_inv_new c peer b items uuids uuid x q tp it : batch_inv c peer b items uuids →
  c_req x = Some q → Header q = Some (mkReqHeader (Cell_ID c) peer true uuid (Epoch c) 0) → c_term x = 0 → has_type tp q → bounded q →
  contents x = [it] → batch_inv c peer (mkBatch tp (cmds b ++ [x])) (items ++ [it]) (uuids ++ [uuid]).
Proof.
  intros [H1 H2 H3 H4] Hq Hh Ht Htp Hb Hc. split; simpl.
  - rewrite fmap_app, join_app. simpl. by rewrite H1, Hc.
  - apply Forall_app. split; [done|]. apply Forall_singleton. by exists q, uuid, tp.
  - intros l q'. rewrite last_snoc. intros [= <-] Hq'. by simplify_eq.
  - rewrite fmap_app. apply sublist_app; [done|]. simpl. unfold cmd_uuid. rewrite Hq. simpl. unfold uuid_of. rewrite Hh. done.
Qed.

(** A request added to the last command. *)
Lemma batch_inv_add c peer b items uuids uuid l q r tp : batch_inv c peer b items uuids → last (cmds b) = Some l → c_req l = Some q →
  lastType b = tp → tp ≠ TAdmin → isWrite r = bool_decide (tp = TWrite) →
  isFull cfg (length (Requests q)) = false →
  batch_inv c peer (mkBatch tp (removelast (cmds b) ++ [add_request r l])) (items ++ [inr r]) (uuids ++ [uuid]).
Proof.
  intros [H1 H2 H3 H4] Hl Hq Htp Hna Hw Hfull.
  destruct (cmds b) as [|x0 xs] using rev_ind; [done|]. clear IHxs. rewrite last_snoc in Hl. injection Hl as ->.
  rewrite removelast_last. pose proof (H3 l q ltac:(by rewrite last_snoc) Hq) as Hty. rewrite Htp in Hty.
  rewrite Forall_app, Forall_singleton in H2. destruct H2 as [H2 (q' & uuid' & tp' & Hq' & Hh & Ht & Hty' & Hb)]. rewrite Hq in Hq'. injection Hq' as <-.
  set (q2 := mkRaftCMD (Header q) (Requests q ++ [r]) (AdminReq q)).
  assert (c_req (add_request r l) = Some q2) as Hq2 by (unfold add_request; by rewrite Hq).
  assert (AdminReq q = None ∧ Forall (λ r, isWrite r = bool_decide (tp = TWrite)) (Requests q ++ [r])) as [Hadm Hall].
  { rewrite Forall_app, Forall_singleton, Hw. destruct tp; simpl in Hty; [| |done]; by destruct Hty as (? & _ & ?). }
  assert (has_type tp q2) as Hty2.
  { destruct tp; simpl; [| |done]; (split_and!; [done|by destruct (Requests q)|done]). }
  split; simpl.
  - rewrite fmap_app, join_app in H1 |- *. simpl in H1 |- *. rewrite <-H1, !app_nil_r, <-app_assoc. f_equal.
    unfold contents. rewrite Hq2, Hq. simpl. by rewrite Hadm, fmap_app.
  - apply Forall_app. split; [done|]. apply Forall_singleton. exists q2, uuid', tp. split_and!; try done.
    + unfold add_request. by rewrite Hq.
    + intros Hbs. specialize (Hb Hbs). unfold isFull in Hfull. apply bool_decide_eq_false in Hfull. simpl. rewrite length_app. simpl. lia.
  - intros l' q'. rewrite last_snoc. intros [= <-]. rewrite Hq2. by intros [= <-].
  - rewrite fmap_app in H4 |- *. simpl in H4 |- *. assert (cmd_uuid (add_request r l) = cmd_uuid l) as ->.
    { unfold cmd_uuid. rewrite Hq2, Hq. done. }
    by apply sublist_inserts_r.
Qed.

Lemma push_ok c peer b items uuids rc it uuid : batch_inv c peer b items uuids → well_formed rc → item_of rc = Some it →
  ∃ b', push c peer uuid rc b = Ok b' ∧ batch_inv c peer b' (items ++ [it]) (uuids ++ [uuid]).
Proof.
  intros Hb Hwf Hit. unfold Propose.push, getType. unfold well_formed in Hwf. unfold item_of in Hit.
  destruct (rc_admin rc) as [a|] eqn:Ea; simpl.
  { injection Hit as <-. eexists. split; [done|]. eapply batch_inv_new; try done; try (by split; [eexists|]). intros ?. simpl. lia. }
  destruct (rc_req rc) as [r|] eqn:Er; [|done]. injection Hit as <-. simpl. unfold use_data_key.
  destruct (Req_Cmd r) as [|name [|key args]] eqn:Ecmd; simpl in Hwf; [lia|lia|]. cbn [outcome_bind].
  set (r' := mkRequest _ _ _ _). set (tp := if isWrite r then TWrite else TRead).
  assert (encoded r = r') as -> by (unfold encoded; by rewrite Ecmd).
  assert (isWrite r' = bool_decide (tp = TWrite)) as Hw.
  { unfold tp. change (isWrite r') with (isWrite r). by destruct (isWrite r). }
  assert (tp ≠ TAdmin) as Hna by (unfold tp; by destruct (isWrite r)).
  assert (∃ b', Ok (E := unit) (mkBatch tp (cmds b ++ [new_cmd c peer uuid None [r'] (rc_cb rc)])) = Ok b' ∧
    batch_inv c peer b' (items ++ [inr r']) (uuids ++ [uuid])) as Hnew.
  { eexists. split; [done|]. eapply batch_inv_new; try done.
    - destruct tp; simpl; [| |done]; (split_and!; [done|done|]); apply Forall_singleton; by rewrite Hw.
    - intros ?. simpl. lia. }
  destruct (last (cmds b)) as [l|] eqn:El; [|exact Hnew]. destruct (bool_decide_reflect (lastType b ≠ tp)) as [Et|Et]; [exact Hnew|].
  destruct (c_req l) as [q|] eqn:Eq.
  2: { destruct Hb as [_ H2 _ _]. rewrite Forall_forall in H2. destruct (H2 l) as (? & ? & ? & ? & _); [by apply last_Some_elem_of|congruence]. }
  destruct (isFull cfg (length (Requests q))) eqn:Efull; [exact Hnew|]. eexists. split; [done|].
  eapply batch_inv_add; try done. by destruct (decide (lastType b = tp)).
Qed.

Lemma push_all_ok c peer l : ∀ b items uuids, batch_inv c peer b items uuids → Forall (λ p, well_formed p.1) l →
  ∃ b', push_all c peer l b = Ok b' ∧ batch_inv c peer b' (items ++ omap (λ p, item_of p.1) l) (uuids ++ l.*2).
Proof.
  induction l as [|[rc uuid] l IH]; intros b items uuids Hb HF; simpl.
  { exists b. by rewrite !app_nil_r. }
  apply Forall_cons in HF as [Hwf HF]. simpl in Hwf.
  assert (is_Some (item_of rc)) as [it Hit] by (unfold item_of, well_formed in *; destruct (rc_admin rc); [by eexists|destruct (rc_req rc); [by eexists|done]]).
  destruct (push_ok c peer b items uuids rc it uuid Hb Hwf Hit) as (b1 & -> & Hb1). cbn [outcome_bind].
  destruct (IH b1 _ _ Hb1 HF) as (b2 & -> & Hb2). exists b2. split; [done|]. rewrite Hit. simpl. by rewrite <-!app_assoc in Hb2.
Qed.

Lemma batch_inv_empty c peer tp : batch_inv c peer (mkBatch tp []) [] [].
Proof. by split. Qed.
End batches.

#[local] Lemma Ok_inv {X Y : Type} (x y : Y) : Ok (E := X) x = Ok y → x = y.
Proof. by intros [=]. Qed.

(** ** The fate of a command *)
Section fates.
Context {E D : Type} (cfg : Cfg) (storeID : Z).
Context (redisReadHandles : Z → option (@read_handle D)) (redisWriteHandles : Z → option (@write_handle D)).
Context (getPeer : Z → Peer) (validateCell : RaftCMDRequest → option ErrorPb) (marshal_size : RaftCMDRequest → Z).
Abbreviation worldED := (world E D).
Abbreviation propose := (propose cfg storeID redisReadHandles redisWriteHandles getPeer validateCell marshal_size).
Abbreviation cmd_ok := (cmd_ok cfg redisWriteHandles).

(** The response of a command reaches its callback, one response per request in
    the order of the requests. *)
Definition answer_for (c : cmd) (r : Z * RaftCMDResponse) : Prop :=
  c_cb c = Some r.1 ∧ ∀ q, c_req c = Some q → Rsp_SessionID <$> Responses r.2 = Req_SessionID <$> Requests q.
Definition answered (c : cmd) (w w' : worldED) : Prop :=
  same_stores w' w ∧
  match c_cb c with
  | None => w_responses w' = w_responses w
  | Some _ => ∃ r, w_responses w' = w_responses w ++ [r] ∧ answer_for c r
  end.

Lemma respond_sessions reqs resp rsp : respond_requests reqs resp = Ok rsp → reqs ≠ [] ∨ Responses resp = [] →
  Rsp_SessionID <$> Responses rsp = Req_SessionID <$> reqs.
Proof.
  unfold respond_requests. destruct reqs as [|q reqs]; [intros [= <-] [?|Hr]; [done|by rewrite Hr]|]. intros H _. revert H.
  assert (∀ (rs : list Request) ps, length rs = length ps →
    Rsp_SessionID <$> zip_with (λ r p, mkResponse (Req_UUID r) (Req_SessionID r) (Rsp_Type p) (Rsp_Error p) (Rsp_Reply p)) rs ps = Req_SessionID <$> rs) as Hzip.
  { induction rs as [|r rs IH]; intros [|p ps]; simpl; try done. intros [= Hl]. by rewrite IH. }
  assert (∀ e (ps : list Response), Rsp_SessionID <$> ((λ p, mkResponse (Rsp_UUID p) (Rsp_SessionID p) (Rsp_Type p) e (Rsp_Reply p)) <$> ps) = Rsp_SessionID <$> ps) as Herr.
  { intros e ps. by rewrite <-list_fmap_compose. }
  destruct (bool_decide_reflect (length (q :: reqs) ≠ length (Responses resp))) as [El|El].
  - destruct (RspHeader resp) as [h|]; [|done]. destruct (negb _); [done|]. cbn [outcome_bind]. intros <-%Ok_inv. cbn [Responses].
    rewrite Herr, <-list_fmap_compose. done.
  - cbn [outcome_bind]. intros <-%Ok_inv. cbn [Responses]. apply dec_stable in El.
    destruct (RspHeader resp); rewrite ?Herr; by apply Hzip.
Qed.

Lemma cmd_resp_answered c q resp (w : worldED) : c_req c = Some q → fits q resp → (Requests q = [] → Responses resp = []) →
  ∃ w', cmd_resp c resp w = Ok w' ∧ answered c w w'.
Proof.
  intros Hq Hfit Hnil. unfold cmd_resp, answered. destruct (c_cb c) as [cb|] eqn:Ecb; [|by exists w]. rewrite Hq.
  destruct (respond_requests_ok (Requests q) resp Hfit) as [r Hr]. rewrite Hr. cbn [outcome_bind].
  eexists. split; [done|]. split; [done|]. exists (cb, r). split; [done|]. split; [done|]. rewrite Hq. intros q' [= <-]. simpl.
  apply (respond_sessions _ _ _ Hr). destruct (Requests q); [right; by apply Hnil|by left].
Qed.

(** An error response can always be given. *)
Lemma error_answered c q e (w : worldED) : c_req c = Some q → is_Some (RspHeader e) → Responses e = [] →
  ∃ w', cmd_resp c e w = Ok w' ∧ answered c w w'.
Proof. intros Hq Hh Hr. apply (cmd_resp_answered c q); [done|right; by split|done]. Qed.

Definition stamped (pr : PeerReplicate) (c : cmd) : cmd := mkCmd (c_req c) (c_cb c) (getCurrentTerm pr).
(** [FAbandoned]: raft has taken the command, but nobody waits for it, and the client is told of an error. *)
Inductive fate := FAnswered | FProposed | FReading | FAbandoned.
#[local] Instance fate_eq_dec : EqDecision fate.
Proof. solve_decision. Defined.

Definition jobs (out : list effect) : list cmd := omap (λ e, match e with EProposeJob c _ => Some c | _ => None end) out.

(** The fate [f] of the command [c] in one step of [propose]. *)
Definition meets (f : fate) (c : cmd) (pr pr' : PeerReplicate) (out : list effect) (w w' : worldED) : Prop :=
  match f with
  | FAnswered | FAbandoned => pr' = pr ∧ jobs out = [] ∧ answered c w w'
  | FProposed => pr' = pr ∧ jobs out = [stamped pr c] ∧ w' = w
  | FReading => pr' = set_reads (pr_reads pr ++ [stamped pr c]) (pr_readyCnt pr) pr ∧ jobs out = [] ∧ w' = w
  end.

(** A command is abandoned only when the runner refused its job, and handed to the apply delegate only when it did not. *)
Definition fate_of (ans : raft_answer) (f : fate) : Prop :=
  match f with FAnswered => True | FProposed => ans = RTaken | FReading => ans = RTaken ∨ ans = RTakenNoJob | FAbandoned => ans = RTakenNoJob end.

(** The policies of the commands that batches make. *)
Lemma policy_of tp q c peer uuid : has_type redisWriteHandles tp q → (∃ e, Header q = Some (mkReqHeader c peer true uuid e 0)) →
  getHandlePolicy redisReadHandles redisWriteHandles q ∈
    match tp with
    | TRead => [Some readIndex]
    | TWrite => [None; Some proposeNormal_]
    | TAdmin => match AdminReq q with
                | Some (AChangePeer _ _) => [Some proposeChange]
                | Some (ATransferLeader _) => [Some proposeTransferLeader_]
                | _ => [Some proposeNormal_]
                end
    end.
Proof.
  intros Hty [e He].
  unfold getHandlePolicy. rewrite He. cbn [Hdr_ReadQuorum negb].
  destruct tp; simpl in Hty.
  1, 2: destruct Hty as (-> & Hne & Hall); destruct (Requests q) as [|r0 rs _] using rev_ind; [done|];
    rewrite Forall_app, Forall_singleton in Hall; rewrite foldl_snoc; simpl; rewrite (proj2 Hall); destruct (isRead redisReadHandles r0); simpl; set_solver.
  destruct Hty as [[a ->] _]. destruct a; set_solver.
Qed.

Lemma propose_meets ans pr c peer x (w : worldED) : cmd_ok c peer x → Peer_StoreID peer = storeID → cmd_uuid x ≠ [] →
  ∃ f pr' out w', propose ans pr x w = Ok (pr', out, w') ∧ meets f x pr pr' out w w' ∧ fate_of ans f.
Proof.
  intros (q & uuid & tp & Hq & Hh & Ht & Hty & _) Hst Hu. unfold cmd_uuid in Hu. rewrite Hq in Hu. simpl in Hu. unfold uuid_of in Hu. rewrite Hh in Hu. simpl in Hu.
  unfold Propose.propose, checkProposal. rewrite Hq, Hh. simpl. rewrite bool_decide_eq_false_2 by done.
  unfold validateStoreID. rewrite Hh. simpl. rewrite bool_decide_eq_true_2 by done. simpl.
  change (mkCmd (Some q) (c_cb x) (getCurrentTerm pr)) with (mkCmd (Some q) (c_cb x) (getCurrentTerm pr)).
  rewrite <-Hq. fold (stamped pr x). set (sx := stamped pr x).
  assert (c_req sx = Some q) as Hsq by done.
  assert (getUUID sx = Ok uuid) as Hsu by (unfold getUUID; rewrite Hsq, Hh; done).
  assert (∀ e, is_Some (RspHeader e) → Responses e = [] → ∃ w', cmd_resp sx e w = Ok w' ∧ answered x w w') as Herr.
  { intros e He Hr. destruct (error_answered sx q e w Hsq He Hr) as (w' & ? & ?). exists w'. done. }
  assert (∃ w', respNotLeader sx (pr_cellID pr) (getPeer (Lead (pr_rn pr))) w = Ok w' ∧ answered x w w') as (wn & Hwn & Han).
  { unfold respNotLeader. rewrite Hsu. simpl. apply Herr; [by eexists|done]. }
  assert (∃ w', cmd_resp sx errorOtherCMDResp w = Ok w' ∧ answered x w w') as (wo & Hwo & Hao) by (apply Herr; [by eexists|done]).
  assert (∃ f pr' out w', Ok (pr, @nil effect, wn) = Ok (E := unit) (pr', out, w') ∧ meets f x pr pr' out w w' ∧ fate_of ans f) as Hnl by (by exists FAnswered, pr, [], wn).
  assert (∃ f pr' out w', Ok (pr, @nil effect, wo) = Ok (E := unit) (pr', out, w') ∧ meets f x pr pr' out w w' ∧ fate_of ans f) as Hot by (by exists FAnswered, pr, [], wo).
  assert (∀ b, ans = RTaken ∨ ans = RTakenNoJob → ∃ f pr' out w', (let! (out, w) := startProposeJob ans sx b true w in Ok (pr, out, w)) = Ok (E := unit) (pr', out, w') ∧ meets f x pr pr' out w w' ∧ fate_of ans f) as Hgo.
  { intros b [-> | ->]; [by exists FProposed, pr, [EProposeJob sx b], w|]. unfold startProposeJob, respOtherError. cbn [negb]. rewrite Hwo. by exists FAbandoned, pr, [], wo. }
  assert (∃ f pr' out w', (let! (go, w) := proposeNormal cfg getPeer marshal_size ans pr sx q w in let! (out, w) := startProposeJob ans sx false go w in Ok (pr, out, w)) = Ok (pr', out, w') ∧ meets f x pr pr' out w w' ∧ fate_of ans f) as Hnormal.
  { unfold proposeNormal. destruct (negb _); [by rewrite Hwn|]. case_bool_decide.
    - unfold respLargeRaftEntrySize. rewrite Hsu. cbn [outcome_bind].
      destruct (Herr (errorPbResp (RaftEntryTooLarge (pr_cellID pr) (marshal_size q)) uuid (c_term sx))) as (wl & -> & Hal); [by eexists|done|].
      by exists FAnswered, pr, [], wl.
    - destruct ans; [by rewrite Hwo|by rewrite Hwn|apply Hgo; by left|apply Hgo; by right]. }
  pose proof (policy_of tp q (Cell_ID c) peer uuid Hty (ex_intro _ _ Hh)) as Hpol. destruct tp.
  - apply list_elem_of_singleton in Hpol as ->. unfold execReadIndex. destruct (negb _); [by rewrite Hwn|].
    destruct ans; [by rewrite Hwn|by rewrite Hwn|eexists FReading, _, [], w; split; [done|split; [done|by left]]|eexists FReading, _, [], w; split; [done|split; [done|by right]]].
  - apply elem_of_cons in Hpol as [-> | ->%list_elem_of_singleton]; [by rewrite Hwo|apply Hnormal].
  - destruct Hty as [[a Ha] Hnil]. rewrite Ha in Hpol |- *. destruct a as [t p| | |p|]; apply list_elem_of_singleton in Hpol as ->; try apply Hnormal.
    + unfold proposeConfChange, respOtherError. destruct (negb _); [by rewrite Hwo|]. destruct ans; [by rewrite Hwo|by rewrite Hwn|apply Hgo; by left|apply Hgo; by right].
    + unfold proposeTransferLeader. destruct (cmd_resp_answered sx q (adminRsp RTransferLeader) w Hsq) as (wt & -> & Hat); [left; by rewrite Hnil|done|].
      exists FAnswered, pr. do 2 eexists. split; [done|]. split; [|done]. split_and!; [done|by destruct (isTransferLeaderAllowed pr p)|done].
Qed.

Lemma jobs_app o1 o2 : jobs (o1 ++ o2) = jobs o1 ++ jobs o2.
Proof. apply omap_app. Qed.

(** The commands that met the fate [f], and those that were answered. *)
Definition met (f : fate) (cs : list cmd) (fs : list fate) : list cmd := (filter (λ p, p.2 = f) (zip cs fs)).*1.
Definition is_answered (f : fate) : Prop := f = FAnswered ∨ f = FAbandoned.
#[local] Instance is_answered_dec f : Decision (is_answered f).
Proof. unfold is_answered. apply _. Defined.
Definition met_answer (cs : list cmd) (fs : list fate) : list cmd := (filter (λ p, is_answered p.2) (zip cs fs)).*1.
Definition with_callback (cs : list cmd) : list cmd := filter (λ c, is_Some (c_cb c)) cs.

(** The state after the commands [cs] met the fates [fs]. *)
Record settled (answers : list raft_answer) (cs : list cmd) (fs : list fate) (pr pr' : PeerReplicate) (out : list effect) (w w' : worldED) : Prop := {
  se_length : length fs = length cs;
  se_fates i f : fs !! i = Some f → fate_of (default RErr (answers !! i)) f;
  se_peer : pr' = set_reads (pr_reads pr ++ (stamped pr <$> met FReading cs fs)) (pr_readyCnt pr) pr;
  se_jobs : jobs out = stamped pr <$> met FProposed cs fs;
  se_stores : same_stores w' w;
  se_responses : ∃ new, w_responses w' = w_responses w ++ new ∧ Forall2 answer_for (with_callback (met_answer cs fs)) new;
}.

Lemma settled_cons answers f fs c cs pr pr1 pr2 o1 o2 (w w1 w2 : worldED) : meets f c pr pr1 o1 w w1 → fate_of (default RErr (head answers)) f → settled (tail answers) cs fs pr1 pr2 o2 w1 w2 →
  settled answers (c :: cs) (f :: fs) pr pr2 (o1 ++ o2) w w2.
Proof.
  intros Hm Hf [H1 HF H2 H3 H4 (new & H5 & H6)].
  assert (∀ g, met g (c :: cs) (f :: fs) = (if decide (f = g) then [c] else []) ++ met g cs fs) as Hmet.
  { intros g. unfold met. simpl. rewrite filter_cons. simpl. by destruct (decide (f = g)). }
  assert (met_answer (c :: cs) (f :: fs) = (if decide (is_answered f) then [c] else []) ++ met_answer cs fs) as Hans.
  { unfold met_answer. simpl. rewrite filter_cons. simpl. by destruct (decide (is_answered f)). }
  assert (∀ i g, (f :: fs) !! i = Some g → fate_of (default RErr (answers !! i)) g) as HF'.
  { intros [|i] g; simpl; [intros [= <-]; by destruct answers|]. intros Hi. destruct answers as [|a answers]; [exact (HF i g Hi)|exact (HF i g Hi)]. }
  assert (is_answered f → settled answers (c :: cs) (f :: fs) pr pr2 (o1 ++ o2) w w2) as Hanswered.
  { intros Ha. assert (pr1 = pr ∧ jobs o1 = [] ∧ answered c w w1) as (-> & Ho & Hw) by (by destruct Ha; subst f). destruct Hw as [Hs Hw].
    assert (f ≠ FReading ∧ f ≠ FProposed) as [Hr Hp] by (by destruct Ha; subst f).
    split; rewrite ?Hmet, ?Hans; cbn [length]; [lia|done|by rewrite decide_False|rewrite decide_False by done; by rewrite jobs_app, Ho, H3|by etrans|].
    rewrite decide_True by done. cbn [app]. unfold with_callback. rewrite filter_cons. destruct (c_cb c) as [cb|] eqn:Ecb.
    + destruct Hw as (r & Hw & Hr'). rewrite decide_True by (by eexists). exists (r :: new). rewrite H5, Hw, <-app_assoc. split; [done|]. by constructor.
    + rewrite decide_False by (by intros [? ?]). exists new. by rewrite H5, Hw. }
  destruct f; [apply Hanswered; by left| | |apply Hanswered; by right]; destruct Hm as (-> & Ho & ->).
  - split; rewrite ?Hmet, ?Hans; cbn [length]; [lia|done|done|by rewrite jobs_app, Ho, H3|done|]. rewrite decide_False by (by intros [?|?]). by exists new.
  - split; rewrite ?Hmet, ?Hans; cbn [length]; [lia|done| |by rewrite jobs_app, Ho, H3|done|rewrite decide_False by (by intros [?|?]); by exists new].
    rewrite H2. unfold set_reads. simpl. by rewrite <-app_assoc.
Qed.

Lemma propose_all_settled c peer cs : Peer_StoreID peer = storeID → Forall (cmd_ok c peer) cs → Forall (λ x, cmd_uuid x ≠ []) cs →
  ∀ answers pr (w : worldED), ∃ fs pr' out w',
    propose_all cfg storeID redisReadHandles redisWriteHandles getPeer validateCell marshal_size answers cs pr w = Ok (pr', out, w') ∧
    settled answers cs fs pr pr' out w w'.
Proof.
  intros Hst. induction 1 as [|x cs Hx _ IH]; intros Hu answers pr w; simpl.
  { exists [], pr, [], w. split; [done|]. split; [done|done| |done|done|by exists []; rewrite app_nil_r]. simpl. rewrite app_nil_r. by destruct pr. }
  apply Forall_cons in Hu as [Hux Hu].
  destruct (propose_meets (default RErr (head answers)) pr c peer x w Hx Hst Hux) as (f & pr1 & o1 & w1 & -> & Hm & Hf). cbn [outcome_bind].
  destruct (IH Hu (tail answers) pr1 w1) as (fs & pr2 & o2 & w2 & -> & Hs). cbn [outcome_bind].
  exists (f :: fs), pr2, (o1 ++ o2), w2. split; [done|]. by eapply settled_cons.
Qed.
End fates.

(** ** Requests that arrive at a peer *)
Section requests.
Context {E D : Type} (cfg : Cfg) (storeID : Z).
Context (redisReadHandles : Z → option (@read_handle D)) (redisWriteHandles : Z → option (@write_handle D)).
Context (getPeer : Z → Peer) (validateCell : RaftCMDRequest → option ErrorPb) (marshal_size : RaftCMDRequest → Z).

(** C7. Requests that arrive at a peer are never lost, duplicated or reordered:
    they are packed, in order, into commands stamped with the cell's epoch, each
    an admin request alone or redis requests of one kind within the batch limit;
    and each command meets exactly one fate: it is answered at once (one response
    per request, in the order of the requests, to its callback), handed to raft
    and to the apply delegate with the current term, waits as a read, or, only when the runner of the store stops and refuses
    the job for the apply delegate, is handed to raft, abandoned and answered with an error.  Whatever
    raft answers, the peer does not panic and the batch is empty afterwards. *)
Theorem requests_meet_one_fate answers reqs pr (w : world E D) :
  cmds (pr_batch pr) = [] → Forall (λ p, well_formed p.1 ∧ p.2 ≠ []) reqs → Peer_StoreID (pr_peer pr) = storeID →
  ∃ cs fs pr' out w' new,
    handleRequest cfg storeID redisReadHandles redisWriteHandles getPeer validateCell marshal_size answers reqs pr w = Ok (pr', out, w') ∧
    mjoin (contents <$> cs) = omap (λ p, item_of p.1) reqs ∧
    Forall (cmd_ok cfg redisWriteHandles (pr_getCell pr) (pr_peer pr)) cs ∧ length fs = length cs ∧ (∀ i f, fs !! i = Some f → fate_of (default RErr (answers !! i)) f) ∧
    cmds (pr_batch pr') = [] ∧
    jobs out = stamped pr <$> met FProposed cs fs ∧
    pr_reads pr' = pr_reads pr ++ (stamped pr <$> met FReading cs fs) ∧
    same_stores w' w ∧ w_responses w' = w_responses w ++ new ∧
    Forall2 answer_for (with_callback (met_answer cs fs)) new.
Proof.
  intros Hb HF Hst. unfold handleRequest. destruct (pr_batch pr) as [tp cs0] eqn:Eb. simpl in Hb. subst cs0.
  assert (Forall (λ p, well_formed p.1) reqs ∧ Forall (λ u, u ≠ []) reqs.*2) as [Hwf Hu].
  { rewrite Forall_fmap. apply Forall_and. exact HF. }
  destruct (push_all_ok cfg redisWriteHandles (pr_getCell pr) (pr_peer pr) reqs _ _ _ (batch_inv_empty cfg redisWriteHandles _ _ tp) Hwf) as (b & -> & [H1 H2 _ H4]).
  cbn [outcome_bind]. simpl in H1, H4.
  assert (Forall (λ x, cmd_uuid x ≠ []) (cmds b)) as Hcu.
  { apply Forall_forall. intros x Hx. apply (proj1 (Forall_forall _ _) Hu). eapply elem_of_sublist; [|exact H4]. by apply list_elem_of_fmap_2. }
  destruct (propose_all_settled cfg storeID redisReadHandles redisWriteHandles getPeer validateCell marshal_size
    (pr_getCell pr) (pr_peer pr) (cmds b) Hst H2 Hcu answers (set_batch (mkBatch (lastType b) []) pr) w)
    as (fs & pr' & out & w' & -> & [S1 SF S2 S3 S4 (new & S5 & S6)]).
  exists (cmds b), fs, pr', out, w', new. rewrite S2. split_and!; done.
Qed.
End requests.

(** ** Commands without a handler *)
Section unhandled_commands.
Context {E D : Type} (cfg : Cfg) (storeID : Z).
Context (redisReadHandles : Z → option (@read_handle D)) (redisWriteHandles : Z → option (@write_handle D)).
Context (getPeer : Z → Peer) (validateCell : RaftCMDRequest → option ErrorPb) (marshal_size : RaftCMDRequest → Z).

(** The redis server lets DEL and SPOP through, but no store has a handler
    for them.  Such a request is taken for a read: the leader of the cell passes
    it to raft, and when raft confirms the read the store has no response for it
    and stops ("requests and response count not match"). *)
Theorem unhandled_command_stops_store t pr r cb uuid lead (w : world E D) :
  t ∈ serverTypes → isReadType (cmd_code t) = false → isWriteType (cmd_code t) = false →
  (∀ n, is_Some (redisReadHandles n) ↔ isReadType n = true) → (∀ n, is_Some (redisWriteHandles n) ↔ isWriteType n = true) →
  Req_Type r = cmd_code t → (2 ≤ length (Req_Cmd r))%nat → uuid ≠ [] →
  cmds (pr_batch pr) = [] → pr_reads pr = [] → pr_isLeader pr = true → Peer_StoreID (pr_peer pr) = storeID → readyToHandleRead pr = true →
  (t = CDel ∨ t = CSPop) ∧
  ∃ pr', handleRequest cfg storeID redisReadHandles redisWriteHandles getPeer validateCell marshal_size [RTaken] [(mkReqCtx None (Some r) (Some cb), uuid)] pr w = Ok (pr', [], w) ∧
    doApplyReads redisReadHandles [uuid] lead pr' w = Panic.
Proof.
  intros Hs Hr Hw HR HW Ht Hc Hu Hb Hrd Hl Hst Hrdy. split.
  { assert (t ∈ unhandled) as Hin by (unfold unhandled; by apply list_elem_of_filter).
    rewrite unhandled_commands, !elem_of_cons, elem_of_nil in Hin. naive_solver. }
  assert (redisReadHandles (Req_Type r) = None ∧ redisWriteHandles (Req_Type r) = None) as [HnR HnW].
  { rewrite !eq_None_not_Some, HR, HW, Ht, Hr, Hw. done. }
  assert (isRead redisReadHandles r = false ∧ isWrite redisWriteHandles r = false) as [HiR HiW].
  { unfold isRead, isWrite. rewrite HnR, HnW. done. }
  unfold handleRequest. destruct (pr_batch pr) as [tp cs] eqn:Eb. simpl in Hb. subst cs.
  unfold push_all, push. cbn [getType rc_admin rc_req outcome_bind]. rewrite HiW. unfold use_data_key.
  destruct (Req_Cmd r) as [|name [|key args]] eqn:Ecmd; simpl in Hc; [lia|lia|]. cbn [outcome_bind last cmds app].
  set (r' := mkRequest _ _ _ _). set (x := new_cmd _ _ _ _ _ _). set (pr1 := set_batch _ _).
  unfold propose_all, propose, checkProposal, validateStoreID. cbn [c_req x new_cmd Header Hdr_UUID Hdr_Peer]. rewrite (bool_decide_eq_false_2 (uuid = [])) by done.
  rewrite (bool_decide_eq_true_2 (Peer_StoreID (pr_peer pr) = storeID)) by done. cbn [negb outcome_bind c_req].
  unfold getHandlePolicy. cbn [AdminReq Requests foldl Header Hdr_ReadQuorum negb].
  replace (isRead redisReadHandles r') with false by done. replace (isWrite redisWriteHandles r') with false by done. cbn [andb].
  unfold execReadIndex. change (pr_isLeader pr1) with (pr_isLeader pr). rewrite Hl. cbn [negb head default outcome_bind app tail].
  eexists. split; [done|]. unfold doApplyReads. change (readyToHandleRead _) with (readyToHandleRead pr). rewrite Hrdy.
  cbn [apply_read_states pr_reads set_reads]. change (pr_reads pr1) with (pr_reads pr). rewrite Hrd. cbn [app getUUID c_req Header outcome_bind Hdr_UUID].
  rewrite bool_decide_eq_false_2 by (intros H; by apply H). unfold doExecReadCmd. cbn [c_req Requests read_requests].
  change (Req_Type r') with (Req_Type r). rewrite HnR. reflexivity.
Qed.
End unhandled_commands.

(** ** Membership changes and log compaction *)
Definition quorum (n : nat) : nat := (n / 2 + 1)%nat.
Definition healthy (truncated : Z) (m : gmap Z Progress) : nat := size (filter (λ kv, truncated ≤ Match kv.2) m).
Definition progress_after (t : ConfChangeType) (peer : Peer) (m : gmap Z Progress) : gmap Z Progress :=
  match t with
  | AddNode => if bool_decide (is_Some (m !! Peer_ID peer)) then m else <[Peer_ID peer := mkProgress 0 ProgressStateProbe]> m
  | RemoveNode => delete (Peer_ID peer) m
  end.
(** The removed node counts as healthy before the change. *)
Definition removed_healthy (truncated : Z) (t : ConfChangeType) (peer : Peer) (m : gmap Z Progress) : nat :=
  match t, m !! Peer_ID peer with
  | RemoveNode, Some p => if bool_decide (truncated ≤ Match p) then 1%nat else 0%nat
  | _, _ => 0%nat
  end.

Lemma False_iff_l (P Q : Prop) : ¬ P → (P ∨ Q) ↔ Q.
Proof. tauto. Qed.
Lemma healthy_delete k p tr (m : gmap Z Progress) : m !! k = Some p →
  healthy tr m = (healthy tr (delete k m) + if bool_decide (tr ≤ Match p)%Z then 1 else 0)%nat.
Proof.
  intros Hk. unfold healthy. rewrite <-(insert_delete_id m k p) at 1 by done. case_bool_decide as H.
  - rewrite map_filter_insert_True by done. rewrite map_size_insert_None; [lia|]. rewrite map_lookup_filter, lookup_delete_eq. done.
  - rewrite map_filter_insert_False by done. rewrite delete_delete_eq. lia.
Qed.
Lemma healthy_insert k p tr (m : gmap Z Progress) : m !! k = None → ~ tr ≤ Match p → healthy tr (<[k := p]> m) = healthy tr m.
Proof. intros Hk H. unfold healthy. rewrite map_filter_insert_False by done. by rewrite delete_id. Qed.

(** C36. Which membership changes the leader lets through.  A cell of one member
    accepts any change, and so does the removal of a member the leader does not
    know.  Otherwise a change goes through exactly when the members after the
    change that the log can still reach, counted together with the member being
    removed, are a quorum of the new membership.  So an addition to a cell of
    several members, or the removal of a member that lags behind the truncated
    log, never leaves fewer than a quorum of healthy members; removing a healthy
    member may leave one too few.  (The log is truncated at a positive index: it
    starts at 5.) *)
Theorem conf_change_keeps_quorum pr t peer (m := Status_Progress (pr_rn pr)) (tr := getTruncatedIndex (pr_ps pr)) :
  0 < tr →
  checkConfChange pr t peer = true ↔
  size m = 1%nat ∨
  (t = RemoveNode ∧ m !! Peer_ID peer = None) ∨
  (quorum (size (progress_after t peer m)) ≤ healthy tr (progress_after t peer m) + removed_healthy tr t peer m)%nat.
Proof.
  intros Htr. unfold checkConfChange, countHealthyNode. fold m tr. case_bool_decide as Hsz; [by split; [left|]|].
  rewrite (False_iff_l (size m = 1%nat)) by done.
  fold (healthy tr m). unfold progress_after, removed_healthy, quorum. destruct t.
  - rewrite Nat.add_0_r. rewrite (False_iff_l (AddNode = RemoveNode ∧ _)) by (by intros [? _]).
    destruct (bool_decide_reflect (is_Some (m !! Peer_ID peer))) as [H|H]; [by rewrite bool_decide_eq_true|].
    apply eq_None_not_Some in H. rewrite map_size_insert_None, healthy_insert by (done || simpl; lia). by rewrite bool_decide_eq_true.
  - destruct (m !! Peer_ID peer) as [p|] eqn:Hp.
    + rewrite (False_iff_l (RemoveNode = RemoveNode ∧ _)) by (by intros [_ ?]). rewrite (bool_decide_eq_true_2 (is_Some _)) by (by eexists).
      rewrite bool_decide_eq_true, map_size_delete_Some by (by eexists). rewrite (healthy_delete (Peer_ID peer) p tr m Hp).
      replace (Nat.pred (size m)) with (size m - 1)%nat by lia. done.
    + rewrite (bool_decide_eq_false_2 (is_Some _)) by (intros [? ?]; discriminate). split; [intros _; left|]; done.
Qed.

Section compaction.
Context (cfg : Cfg) `{!MapOrder}.

Lemma lower_match_fold l : ∀ r, 0 < r → Forall (λ p, 0 < Match p) l →
  let r' := foldl lower_match r l in
  r' ≤ r ∧ Forall (λ p, r' ≤ Match p) l ∧ (r' = r ∨ ∃ p, p ∈ l ∧ r' = Match p).
Proof.
  induction l as [|p l IH]; intros r Hr HF; simpl; [by auto with lia|]. apply Forall_cons in HF as [Hp HF].
  assert (0 < lower_match r p ∧ lower_match r p ≤ r ∧ lower_match r p ≤ Match p ∧ (lower_match r p = r ∨ lower_match r p = Match p)) as (Ha & Hb & Hc & Hr1).
  { unfold lower_match. rewrite (bool_decide_eq_false_2 (r = 0)) by lia. case_bool_decide; lia. }
  destruct (IH (lower_match r p)) as (H1 & H2 & H3); [done|done|]. split_and!; [lia|constructor; [lia|done]|].
  destruct H3 as [-> |(p' & ? & ->)]; [|right; exists p'; split; [by right|done]].
  destruct Hr1 as [-> | ->]; [by left|]. right. exists p. split; [left|done].
Qed.

(** The least of what the members of a non-empty list have acknowledged, when
    each has acknowledged something. *)
Lemma lower_match_least l : l ≠ [] → Forall (λ p, 0 < Match p) l →
  (∃ p, p ∈ l ∧ foldl lower_match 0 l = Match p) ∧ Forall (λ p, foldl lower_match 0 l ≤ Match p) l.
Proof.
  intros Hne HF. destruct l as [|p l]; [done|]. apply Forall_cons in HF as [Hp HF]. cbn [foldl].
  assert (lower_match 0 p = Match p) as -> by (unfold lower_match; simpl; case_bool_decide; lia).
  destruct (lower_match_fold l (Match p) Hp HF) as (H1 & H2 & H3). split; [|by constructor].
  destruct H3 as [-> |(p' & Hp' & ->)]; [exists p; split; [left|done]|exists p'; split; [by right|done]].
Qed.

(** A member that has acknowledged nothing hides what was seen before it: the
    result is the least of the members after it in the iteration order. *)
Lemma zero_match_hides r p l : 0 ≤ r → Match p = 0 → foldl lower_match r (p :: l) = foldl lower_match 0 l.
Proof.
  intros Hr Hp. cbn [foldl]. f_equal. unfold lower_match. rewrite Hp. destruct (bool_decide_reflect (r = 0)); subst; simpl; [done|].
  case_bool_decide; [done|lia].
Qed.
Lemma lower_match_nonneg l : ∀ r, 0 ≤ r → Forall (λ p, 0 ≤ Match p) l → 0 ≤ foldl lower_match r l.
Proof.
  induction l as [|p l IH]; intros r Hr HF; simpl; [done|]. apply Forall_cons in HF as [Hp HF]. apply IH; [|done].
  unfold lower_match. repeat case_bool_decide; lia.
Qed.

(** The members as the loop sees them: those up to the last one that has
    acknowledged nothing are hidden, the others are counted. *)
Definition hides (hidden : list Progress) : Prop := hidden = [] ∨ ∃ p, last hidden = Some p ∧ Match p = 0.
Lemma split_hidden l : Forall (λ p, 0 ≤ Match p) l →
  ∃ hidden counted, l = hidden ++ counted ∧ hides hidden ∧ Forall (λ p, 0 < Match p) counted ∧ foldl lower_match 0 l = foldl lower_match 0 counted.
Proof.
  induction l as [|p l IH] using rev_ind; intros HF; [exists [], []; split_and!; [done|by left|done|done]|].
  apply Forall_app in HF as [HF Hp]. rewrite Forall_singleton in Hp. destruct (decide (Match p = 0)) as [H0|H0].
  - exists (l ++ [p]), []. rewrite app_nil_r. split_and!; [done|right; exists p; by rewrite last_snoc|done|].
    rewrite foldl_app, zero_match_hides; [done|by apply lower_match_nonneg|done].
  - destruct (IH HF) as (hidden & counted & -> & Hh & Hc & Hf). exists hidden, (counted ++ [p]). rewrite <-app_assoc. split_and!; [done|done| |].
    + apply Forall_app. split; [done|]. constructor; [lia|constructor].
    + rewrite app_assoc, !(foldl_app _ _ [p]), Hf. done.
Qed.

(** C37. Log compaction as the leader proposes it, whatever order Go's map
    iteration has.  The members up to the last one that has acknowledged nothing
    (a new member, or any follower after an election) are hidden by it; when none
    is counted nothing is compacted.  Otherwise the index is a stored log index,
    and the log after it still holds everything the counted members have not
    acknowledged, except that one which lags behind the applied index by more than
    [LimitCompactLag] is left to a snapshot.  The check itself never panics. *)
Theorem compaction_respects_members pr (m := Status_Progress (pr_rn pr)) (ps := pr_ps pr) :
  map_Forall (λ _ p, 0 ≤ Match p ≤ rn_LastIndex (pr_rn pr)) m → is_u64 (rn_LastIndex (pr_rn pr)) →
  0 ≤ getTruncatedIndex ps < two64 - 1 → 0 < getAppliedIndex ps < two64 →
  ∃ hidden counted o, range_values m = hidden ++ counted ∧ hides hidden ∧ Forall (λ p, 0 < Match p) counted ∧
    handleCheckCompact cfg pr = Ok o ∧
    ∀ c, o = Some c → counted ≠ [] ∧ FirstIndex ps ≤ c ∧
      (Forall (λ p, c < Match p) counted ∨
       c + 1 = getAppliedIndex ps ∧ ∃ p, p ∈ counted ∧ Match p + LimitCompactLag cfg < getAppliedIndex ps).
Proof.
  intros Hm [_ Hlast] Htr Happ.
  assert (Forall (λ p, 0 ≤ Match p ≤ rn_LastIndex (pr_rn pr)) (range_values m)) as HF.
  { apply Forall_forall. intros p [k Hk]%elem_of_range_values. by apply (Hm k p). }
  destruct (split_hidden (range_values m)) as (hidden & counted & Hl & Hh & Hc & Hrep); [eapply Forall_impl; [exact HF|intros; simpl in *; lia]|].
  exists hidden, counted. unfold handleCheckCompact. fold m ps. unfold replicated_index. rewrite Hrep.
  set (rep := foldl lower_match 0 counted) in *. cbn zeta.
  assert (FirstIndex ps = getTruncatedIndex ps + 1) as Hfirst by (unfold FirstIndex; rewrite u64_small; unfold is_u64; lia).
  destruct (decide (counted = [])) as [Hnil|Hne].
  { exists None. assert (rep = 0) as -> by (unfold rep; by rewrite Hnil). rewrite (bool_decide_eq_true_2 (0 < FirstIndex ps)) by lia. done. }
  destruct (lower_match_least counted Hne Hc) as [(p0 & Hp0 & Hr0) Hmin]. fold rep in Hr0, Hmin.
  assert (0 < rep ≤ rn_LastIndex (pr_rn pr)) as Hrl.
  { rewrite Hr0. rewrite Forall_forall in Hc, HF. split; [by apply Hc|]. apply (HF p0). rewrite Hl. apply elem_of_app. by right. }
  rewrite (bool_decide_eq_false_2 (rn_LastIndex (pr_rn pr) < rep)) by lia. rewrite andb_false_r.
  destruct (_ || _) eqn:Eskip; [by exists None|]. apply orb_false_iff in Eskip as [E1%bool_decide_eq_false E2%bool_decide_eq_false].
  set (app := getAppliedIndex ps) in *. match goal with |- context [bool_decide (?x = 0)] => set (c0 := x) end.
  assert (c0 = app ∨ c0 = rep) as Hc0 by (unfold c0; repeat case_match; auto).
  rewrite (bool_decide_eq_false_2 (c0 = 0)) by lia.
  match goal with |- context [u64 (?x - 1)] => set (c1 := x) end.
  assert (c1 ≤ rep ∨ (c1 = app ∧ rep + LimitCompactLag cfg < app)) as Hc1.
  { unfold c1. destruct (bool_decide_reflect (rep < c0)); simpl; [|lia]. rewrite u64_small by (unfold is_u64; lia). case_bool_decide; [lia|]. right. lia. }
  assert (0 < c1 < two64) as Hc1' by (unfold c1; case_match; lia).
  rewrite u64_small by (unfold is_u64; lia). case_bool_decide as Elt; [by exists None|]. eexists. split_and!; [done|done|done|done|]. intros c [= <-].
  split; [done|]. split; [lia|]. destruct Hc1 as [Hc1|[Hc1 Hlag]].
  - left. eapply Forall_impl; [exact Hmin|]. intros; simpl in *; lia.
  - right. split; [lia|]. exists p0. split; [done|lia].
Qed.

(** When every member has acknowledged something, all of them are counted. *)
Lemma nobody_hidden (m : gmap Z Progress) hidden counted : map_Forall (λ _ p, 0 < Match p) m →
  range_values m = hidden ++ counted → hides hidden → counted = range_values m.
Proof.
  intros Hm Hl [-> |(p & Hp & H0)]; [done|]. assert (p ∈ range_values m) as [k Hk]%elem_of_range_values.
  { rewrite Hl. apply elem_of_app. left. apply last_Some in Hp as [l' ->]. apply elem_of_app. right. by left. }
  specialize (Hm k p Hk). simpl in Hm. lia.
Qed.
End compaction.

(** ** The theorems at concrete inputs *)
Definition sample_write : @write_handle unit := λ _ _ s, Ok (emptyResponse, s).
Definition sample_writes (t : Z) : option (@write_handle unit) := if isWriteType t then Some sample_write else None.
Definition sample_reads (t : Z) : option (@read_handle unit) := if isReadType t then Some (λ _ _ _, Ok emptyResponse) else None.
Definition sample_cfg : Cfg := mkCfg 2 1000 1 100 10000 3.
Definition sample_peer : Peer := mkPeer 1 1.
Definition sample_cell : Cell := mkCell 7 [] [] (mkCellEpoch 1 1) [mkPeer 1 1; mkPeer 2 2; mkPeer 3 3].
Definition sample_storage : peerStorage := mkPeerStorage sample_cell 5 5 20 0 (mkRaftState (mkHardState 5 1 18) 20) (mkApplyState 18 (mkTruncated 6 5)).
Definition sample_progress : gmap Z Progress :=
  {[ 1 := mkProgress 20 ProgressStateReplicate; 2 := mkProgress 12 ProgressStateReplicate; 3 := mkProgress 2 ProgressStateSnapshot ]}.
Definition sample_status : RaftStatus := mkStatus true 5 1 sample_progress 20.
Definition sample_pr : PeerReplicate := mkPR 7 sample_peer sample_storage sample_status newBatch [] 0 0 emptyApplyMetrics.
Definition sample_world : world unit unit := mkWorld (λ _, tt) tt [] [].
Definition sample_set (key : bytes) (session : Z) : reqCtx := mkReqCtx None (Some (mkRequest [] 200 [[x73]; key; [x31]] session)) (Some 4).
Definition sample_get (session : Z) : reqCtx := mkReqCtx None (Some (mkRequest [] 201 [[x67]; [x61]] session)) (Some 4).
Definition sample_requests : list (reqCtx * bytes) :=
  [(sample_set [x61] 1, [x01]); (sample_set [x62] 2, [x02]); (sample_set [x63] 3, [x03]); (sample_get 4, [x04]);
   (mkReqCtx (Some (AChangePeer AddNode (mkPeer 4 4))) None None, [x05])].

(** Three writes make two commands (the batch size is 2), then a read and a
    membership change; raft drops the second command. *)
Lemma requests_meet_one_fate_witness :
  ∃ pr' out w', handleRequest sample_cfg 1 sample_reads sample_writes (λ _, sample_peer) (λ _, None) (λ _, 10)
      [RTaken; RDropped; RTaken; RTaken] sample_requests sample_pr sample_world = Ok (pr', out, w') ∧
    cmds (pr_batch pr') = [] ∧ length (jobs out) = 1%nat ∧ length (pr_reads pr') = 1%nat ∧ length (w_responses w') = 1%nat.
Proof.
  destruct (requests_meet_one_fate sample_cfg 1 sample_reads sample_writes (λ _, sample_peer) (λ _, None) (λ _, 10)
    [RTaken; RDropped; RTaken; RTaken] sample_requests sample_pr sample_world)
    as (cs & fs & pr' & out & w' & new & Hrun & _ & _ & _ & _ & Hb & _); [done| |done|].
  { unfold sample_requests. rewrite !Forall_cons, Forall_nil. unfold well_formed. simpl. split_and!; done || lia. }
  exists pr', out, w'. split; [exact Hrun|]. split; [exact Hb|].
  assert (observe (λ o, (length (jobs o.1.2), length (pr_reads o.1.1), length (w_responses o.2)))
    (handleRequest sample_cfg 1 sample_reads sample_writes (λ _, sample_peer) (λ _, None) (λ _, 10)
      [RTaken; RDropped; RTaken; RTaken] sample_requests sample_pr sample_world) = Some (1%nat, 1%nat, 1%nat)) as H by (vm_compute; reflexivity).
  rewrite Hrun in H. injection H as H1 H2 H3. split_and!; [exact H1|exact H2|exact H3].
Defined.

(** SPOP at the leader. *)
Lemma unhandled_command_stops_store_witness :
  ∃ pr', handleRequest sample_cfg 1 sample_reads sample_writes (λ _, sample_peer) (λ _, None) (λ _, 10)
      [RTaken] [(mkReqCtx None (Some (mkRequest [] 505 [[x73]; [x61]] 1)) (Some 4), [x01])] sample_pr sample_world = Ok (pr', [], sample_world) ∧
    doApplyReads sample_reads [[x01]] None pr' sample_world = Panic.
Proof.
  destruct (unhandled_command_stops_store sample_cfg 1 sample_reads sample_writes (λ _, sample_peer) (λ _, None) (λ _, 10)
    CSPop sample_pr (mkRequest [] 505 [[x73]; [x61]] 1) 4 [x01] None sample_world) as [_ H]; try (vm_compute; reflexivity); try done.
  - apply (bool_decide_unpack _). vm_compute. exact I.
  - intros n. unfold sample_reads. destruct (isReadType n); split; try done.
  - intros n. unfold sample_writes. destruct (isWriteType n); split; try done.
Defined.

(** Members 1 and 2 are healthy, 3 waits for a snapshot: removing 2 is let
    through although it leaves one healthy member of two. *)
Lemma conf_change_keeps_quorum_witness :
  checkConfChange sample_pr RemoveNode (mkPeer 2 2) = true ∧
  healthy 6 (progress_after RemoveNode (mkPeer 2 2) sample_progress) = 1%nat ∧ quorum (size (progress_after RemoveNode (mkPeer 2 2) sample_progress)) = 2%nat.
Proof.
  split; [|split; vm_compute; reflexivity].
  apply (conf_change_keeps_quorum sample_pr RemoveNode (mkPeer 2 2)); [vm_compute; reflexivity|]. right. right. vm_compute. lia.
Defined.

(** Member 3 left out, the log is compacted up to what member 2 has. *)
Definition sample_pr2 : PeerReplicate :=
  mkPR 7 sample_peer sample_storage (mkStatus true 5 1 (delete 3 sample_progress) 20) newBatch [] 0 0 emptyApplyMetrics.
Lemma compaction_respects_members_witness :
  handleCheckCompact sample_cfg sample_pr2 = Ok (Some 11) ∧ 7 ≤ 11.
Proof.
  assert (handleCheckCompact sample_cfg sample_pr2 = Ok (Some 11)) as H by (vm_compute; reflexivity).
  split; [exact H|].
  destruct (compaction_respects_members sample_cfg sample_pr2) as (hidden & counted & o & _ & _ & _ & Ho & Hc); [|by vm_compute|by vm_compute|by vm_compute|].
  - apply map_Forall_to_list. vm_compute. repeat constructor; discriminate.
  - rewrite Ho in H. injection H as ->. apply (Hc 11). reflexivity.
Defined.
