(* ===== verification/Reply.v ===== *)
(** * Replies to redis clients

    pkg/redis/resp.go and [doResp] of the sessions of the redis server and of the
    proxy (pkg/server/session.go, pkg/proxy/session.go), which write the results a
    response carries.  [replied] says that a client reads exactly one reply; the
    lemmas give it for every kind of result the stores produce. *)

From S2P Require Import Prelude Encoding Strconv Goetty Resp RaftTypes.

(** The text of a float64, of strconv; it has neither line ends nor NUL length. *)
Class FloatText := {
  FormatFloat64ToBytes : Z → bytes;
  StrFloat64 : bytes → Z * option numError;
  FormatFloat_ok f : ok_arg (FormatFloat64ToBytes f);
}.

(** ** pkg/redis/resp.go *)
Definition WriteFVPairArray (lst : list FVPair) : bytes :=
  x2a :: match lst with
         | [] => NullArray ++ Delims
         | _ => Itoa (length lst * 2) ++ Delims ++ concat ((λ p, WriteBulk (FV_Field p) ++ WriteBulk (FV_Value p)) <$> lst)
         end.
Definition WriteDoc (d : Document) : bytes :=
  x2a :: [x33] ++ Delims ++
  x2a :: match Doc_Order d with
         | [] => NullArray ++ Delims
         | orders => Itoa (length orders) ++ Delims ++ concat ((λ o, WriteInteger (i64 o)) <$> orders)
         end ++
  WriteBulk (Doc_Key d) ++ WriteSliceArray (Doc_FvPairs d).
Definition WriteDocArray (lst : list Document) : bytes :=
  x2a :: match lst with
         | [] => NullArray ++ Delims
         | _ => Itoa (length lst) ++ Delims ++ concat (WriteDoc <$> lst)
         end.

Section float_text.
Context `{!FloatText}.
Definition WriteScorePairArray (lst : list ScorePair) (withScores : bool) : bytes :=
  x2a :: match lst with
         | [] => NullArray ++ Delims
         | _ =>
             Itoa (if withScores then length lst * 2 else length lst) ++ Delims ++
             concat ((λ p, WriteBulk (SP_Member p) ++ (if withScores then WriteBulk (FormatFloat64ToBytes (SP_Score p)) else [])) <$> lst)
         end.

(** ** doResp *)
(** A result is written when it is there or known to be empty. *)
Definition present {A} (result : option A) (hasEmpty : option bool) : bool := bool_decide (is_Some result) || bool_decide (is_Some hasEmpty).
Definition doResp (r : Reply) : res bytes :=
  let errs := match ErrorResult r with Some e => WriteError (Some e) | None => [] end ++
              match ErrorResults r with Some es => concat ((λ e, WriteError (Some e)) <$> es) | None => [] end in
  let bulk := if present (BulkResult r) (HasEmptyBulkResult r) then WriteBulk (default [] (BulkResult r)) else [] in
  let fvs := if present (FvPairArrayResult r) (HasEmptyFVPairArrayResult r) then WriteFVPairArray (default [] (FvPairArrayResult r)) else [] in
  let int := match IntegerResult r with Some n => WriteInteger n | None => [] end in
  let! scores := (if present (ScorePairArrayResult r) (HasEmptyScorePairArrayResult r) then
                    match Withscores r with
                    | None => Panic
                    | Some w => Ok (WriteScorePairArray (default [] (ScorePairArrayResult r)) w)
                    end
                  else Ok []) in
  let slices := if present (SliceArrayResult r) (HasEmptySliceArrayResult r) then WriteSliceArray (default [] (SliceArrayResult r)) else [] in
  let status := match StatusResult r with Some s => WriteStatus s | None => [] end in
  let docs := if present (DocArrayResult r) (HasEmptyDocArrayResult r) then WriteDocArray (default [] (DocArrayResult r)) else [] in
  Ok (errs ++ bulk ++ fvs ++ int ++ scores ++ slices ++ status ++ docs).

(** ** The replies of the handlers *)
Definition error_reply (e : bytes) : Reply := mkReply (Some e) None None None None None None None None None None None None None None.
Definition errors_reply (es : list bytes) : Reply := mkReply None (Some es) None None None None None None None None None None None None None.
Definition status_reply (s : bytes) : Reply := mkReply None None (Some s) None None None None None None None None None None None None.
Definition integer_reply (n : Z) : Reply := mkReply None None None (Some n) None None None None None None None None None None None.
Definition bulk_reply (v : option bytes) (has : option bool) : Reply := mkReply None None None None v has None None None None None None None None None.
Definition slices_reply (v : option (list bytes)) (has : option bool) : Reply := mkReply None None None None None None v has None None None None None None None.
Definition fvs_reply (v : option (list FVPair)) (has : option bool) : Reply := mkReply None None None None None None None None v has None None None None None.
Definition scores_reply (v : option (list ScorePair)) (has withScores : option bool) : Reply := mkReply None None None None None None None None None None v has withScores None None.

(** A client reads exactly one reply. *)
Definition replied (r : Reply) : Prop := ∃ d w v, doResp r = Ok w ∧ reads d w v.
Definition ok_list {A} (l : list A) : Prop := Z.of_nat (length l) * 2 < two63.

Lemma replied_error e : no_LF e → replied (error_reply e).
Proof. intros He. eexists 1%nat, _, _. split; [done|]. simpl. rewrite !app_nil_r. by apply (reads_error e). Qed.
Lemma replied_status s : no_LF s → replied (status_reply s).
Proof. intros He. eexists 1%nat, _, _. split; [done|]. simpl. rewrite !app_nil_r. by apply (reads_status s). Qed.
Lemma replied_integer n : replied (integer_reply n).
Proof. eexists 1%nat, _, _. split; [done|]. simpl. rewrite !app_nil_r. apply (reads_integer n). Qed.
Lemma replied_bulk v has : present v has = true → ok_arg (default [] v) → replied (bulk_reply v has).
Proof.
  intros Hp Hv. eexists 1%nat, _, _. split; [unfold doResp; simpl; by rewrite Hp|]. simpl. rewrite !app_nil_r. by apply reads_bulk.
Qed.
Lemma replied_slices v has : present v has = true → ok_list (default [] v) → Forall ok_arg (default [] v) → replied (slices_reply v has).
Proof.
  intros Hp Hl Hv. eexists 2%nat, _, _. split; [unfold doResp; simpl; by rewrite Hp|]. simpl. rewrite !app_nil_r. apply reads_slice_array; [|done].
  unfold ok_list in Hl. lia.
Qed.
(** Pairs are written one after the other. *)
Lemma pairs_concat {A} (f g : A → bytes) (l : list A) : concat ((λ p, f p ++ g p) <$> l) = concat (l ≫= λ p, [f p; g p]) ∧
  length (l ≫= λ p, [f p; g p]) = (length l * 2)%nat.
Proof. induction l as [|p l [IH1 IH2]]; [done|]. rewrite fmap_cons, bind_cons. cbn [concat app length Nat.mul]. rewrite IH1, IH2, <-(assoc_L (++)). done. Qed.
Lemma reads_pairs {A} (f g : A → bytes) (l : list A) : Forall (λ p, ok_arg (f p) ∧ ok_arg (g p)) l →
  Forall2 (reads 1) (l ≫= λ p, [WriteBulk (f p); WriteBulk (g p)]) (l ≫= λ p, [bulk_value (f p); bulk_value (g p)]).
Proof. induction 1 as [|p l [? ?] Hl IH]; simpl; [constructor|]. repeat constructor; [by apply reads_bulk..|done]. Qed.
Lemma reads_fvs l : ok_list l → Forall (λ p, ok_arg (FV_Field p) ∧ ok_arg (FV_Value p)) l →
  reads 2 (WriteFVPairArray l) (ArrayResp (l ≫= λ p, [bulk_value (FV_Field p); bulk_value (FV_Value p)])).
Proof.
  intros Hl Hv. unfold WriteFVPairArray. destruct l as [|p l]; [intros fuel b rest Hd; apply reads_empty_array; lia|]. revert Hl Hv. generalize (p :: l). clear p l.
  intros l Hl Hv. unfold ok_list in Hl. destruct (pairs_concat (λ p, WriteBulk (FV_Field p)) (λ p, WriteBulk (FV_Value p)) l) as [-> <-].
  apply reads_array; [|by apply reads_pairs]. rewrite (proj2 (pairs_concat _ _ _)). lia.
Qed.
Lemma reads_scores l withScores : ok_list l → Forall (λ p, ok_arg (SP_Member p)) l → ∃ v, reads 2 (WriteScorePairArray l withScores) v.
Proof.
  intros Hl Hv. unfold WriteScorePairArray. destruct l as [|p l]; [eexists; intros fuel b rest Hd; apply reads_empty_array; lia|].
  revert Hl Hv. generalize (p :: l). clear p l. intros l Hl Hv. unfold ok_list in Hl. destruct withScores.
  - exists (ArrayResp (l ≫= λ p, [bulk_value (SP_Member p); bulk_value (FormatFloat64ToBytes (SP_Score p))])).
    destruct (pairs_concat (λ p, WriteBulk (SP_Member p)) (λ p, WriteBulk (FormatFloat64ToBytes (SP_Score p))) l) as [-> <-].
    apply reads_array; [rewrite (proj2 (pairs_concat _ _ _)); lia|]. apply reads_pairs. eapply Forall_impl; [exact Hv|]. intros q Hq. split; [done|apply FormatFloat_ok].
  - exists (ArrayResp ((λ p, bulk_value (SP_Member p)) <$> l)).
    rewrite (list_fmap_ext (λ p, WriteBulk (SP_Member p) ++ []) (λ p, WriteBulk (SP_Member p)) l) by (intros; by rewrite app_nil_r).
    rewrite <-(length_fmap (λ p, WriteBulk (SP_Member p)) l). apply reads_array; [rewrite length_fmap; lia|].
    apply Forall2_reads. eapply Forall_impl; [exact Hv|]. intros q Hq. by apply reads_bulk.
Qed.
Lemma replied_fvs v has : present v has = true → ok_list (default [] v) →
  Forall (λ p, ok_arg (FV_Field p) ∧ ok_arg (FV_Value p)) (default [] v) → replied (fvs_reply v has).
Proof.
  intros Hp Hl Hv. pose proof (reads_fvs _ Hl Hv) as Hr. eexists 2%nat, _, _. split; [|exact Hr]. unfold doResp, fvs_reply. cbn -[WriteFVPairArray].
  by rewrite Hp, !app_nil_r.
Qed.
Lemma replied_scores v has withScores : present v has = true → ok_list (default [] v) → Forall (λ p, ok_arg (SP_Member p)) (default [] v) →
  replied (scores_reply v has (Some withScores)).
Proof.
  intros Hp Hl Hv. destruct (reads_scores _ withScores Hl Hv) as (u & Hr). eexists 2%nat, _, _. split; [|exact Hr]. unfold doResp, scores_reply.
  cbn -[WriteScorePairArray]. rewrite Hp. cbn -[WriteScorePairArray]. by rewrite !app_nil_r.
Qed.

(** Nothing is written for a result that is nil without being known to be empty, *)
Lemma nil_bulk_unanswered : doResp (bulk_reply None None) = Ok [].
Proof. done. Qed.
(** and scores without the flag that says whether to write them end the writer. *)
Lemma scores_without_flag v : doResp (scores_reply v (Some true) None) = Panic.
Proof. unfold doResp. simpl. unfold present. by rewrite (bool_decide_eq_true_2 (is_Some (Some true))), orb_true_r. Qed.
End float_text.
