(* ===== verification/RedisExec.v ===== *)
(** * Executing redis commands

    The handlers of a store (pkg/raftstore/redis_kv.go, redis_hash.go,
    redis_list.go, redis_set.go, redis_zset.go, redis_lock.go, registered in
    redis.go) over the engines of pkg/storage/driver.go, which are classes: the
    engines behind nemo are C++.  pkg/storage/memory_engine_kv.go, the engine for
    keys and values in memory, is an instance.  An engine operation gives its
    result or the text of its error, and the engine afterwards. *)

From S2P Require Import Prelude Encoding Strconv Goetty Resp RaftTypes KVTree RaftLog RaftApply RedisTable Propose Reply.

(** The texts of the errors of strconv, which quote the input. *)
Class ErrorText := {
  ParseIntError : bytes → numError → bytes;
  ParseFloatError : bytes → numError → bytes;
  ParseIntError_line s e : no_LF (ParseIntError s e);
  ParseFloatError_line s e : no_LF (ParseFloatError s e);
}.

(** ** pkg/storage/driver.go *)
Definition result (A : Type) : Type := bytes + A.
Definition op (S A : Type) : Type := S → result A * S.
Class KVEngine (S : Type) := {
  KV_MSet : list (bytes * bytes) → op S unit;
  KV_Get : bytes → S → result (option bytes);
  KV_IncrBy : bytes → Z → op S Z;
  KV_DecrBy : bytes → Z → op S Z;
  KV_GetSet : bytes → bytes → op S (option bytes);
  KV_Append : bytes → bytes → op S Z;
  KV_SetNX : bytes → bytes → op S Z;
  KV_StrLen : bytes → S → result Z;
}.
Class HashEngine (S : Type) := {
  HSet : bytes → bytes → bytes → op S Z;
  HGet : bytes → bytes → S → result (option bytes);
  HDel : bytes → list bytes → op S Z;
  HExists : bytes → bytes → S → result bool;
  HKeys : bytes → S → result (option (list bytes));
  HVals : bytes → S → result (option (list bytes));
  HGetAll : bytes → S → result (option (list FVPair));
  HScanGet : bytes → bytes → Z → S → result (option (list FVPair));
  HLen : bytes → S → result Z;
  HMGet : bytes → list bytes → S → option (list bytes) * list bytes;
  HMSet : bytes → list bytes → list bytes → op S unit;
  HSetNX : bytes → bytes → bytes → op S Z;
  HStrLen : bytes → bytes → S → result Z;
  HIncrBy : bytes → bytes → Z → op S bytes;
  (** The values are those of the fields asked for, one each. *)
  HMGet_length k fs e vs : (HMGet k fs e).1 = Some vs → (length vs <= length fs)%nat;
}.
Class SetEngine (S : Type) := {
  SAdd : bytes → list bytes → op S Z;
  SRem : bytes → list bytes → op S Z;
  SCard : bytes → S → result Z;
  SMembers : bytes → S → result (option (list bytes));
  SIsMember : bytes → bytes → S → result Z;
  SPop : bytes → op S (option bytes);
}.
Class ZSetEngine (S : Type) := {
  ZAdd : bytes → Z → bytes → op S Z;
  ZCard : bytes → S → result Z;
  ZCount : bytes → bytes → bytes → S → result Z;
  ZIncrBy : bytes → bytes → Z → op S (option bytes);
  ZLexCount : bytes → bytes → bytes → S → result Z;
  ZRange : bytes → Z → Z → S → result (option (list ScorePair));
  ZRangeByLex : bytes → bytes → bytes → S → result (option (list bytes));
  ZRangeByScore : bytes → bytes → bytes → S → result (option (list ScorePair));
  ZRank : bytes → bytes → S → result Z;
  ZRem : bytes → list bytes → op S Z;
  ZRemRangeByLex : bytes → bytes → bytes → op S Z;
  ZRemRangeByRank : bytes → Z → Z → op S Z;
  ZRemRangeByScore : bytes → bytes → bytes → op S Z;
  ZScore : bytes → bytes → S → result (option bytes);
}.
Class ListEngine (S : Type) := {
  LIndex : bytes → Z → S → result (option bytes);
  LInsert : bytes → Z → bytes → bytes → op S Z;
  LLen : bytes → S → result Z;
  LPop : bytes → op S (option bytes);
  LPush : bytes → list bytes → op S Z;
  LPushX : bytes → bytes → op S Z;
  LRange : bytes → Z → Z → S → result (option (list bytes));
  LRem : bytes → Z → bytes → op S Z;
  LSet : bytes → Z → bytes → op S unit;
  LTrim : bytes → Z → Z → op S unit;
  RPop : bytes → op S (option bytes);
  RPush : bytes → list bytes → op S Z;
  RPushX : bytes → bytes → op S Z;
}.

(** ** Answers and metrics *)
Definition ErrInvalidCommandResp : bytes := [x69; x6e; x76; x61; x6c; x69; x64; x20; x63; x6f; x6d; x6d; x61; x6e; x64].
Definition OKStatusResp : bytes := [x4f; x4b].
Definition response (r : Reply) : Response := mkResponse [] 0 0 NoError r.
Definition len (b : bytes) : Z := Z.of_nat (length b).
Definition lens (l : list bytes) : Z := foldl (λ n b, u64 (n + len b)) 0 l.
Definition written (keys size : Z) (m : applyMetrics) : applyMetrics :=
  mkMetrics (u64 (sizeDiffHint m + size)) (deleteKeysHint m) (u64 (writtenBytes m + size)) (u64 (writtenKeys m + keys)).
Definition add_size (size : Z) (m : applyMetrics) : applyMetrics :=
  mkMetrics (u64 (sizeDiffHint m + size)) (deleteKeysHint m) (writtenBytes m) (writtenKeys m).
Definition sub_size (size : Z) (m : applyMetrics) : applyMetrics :=
  mkMetrics (u64 (sizeDiffHint m - size)) (deleteKeysHint m) (writtenBytes m) (writtenKeys m).
Definition add_deleted (m : applyMetrics) : applyMetrics :=
  mkMetrics (sizeDiffHint m) (u64 (deleteKeysHint m + 1)) (writtenBytes m) (writtenKeys m).

Section exec.
Context {S : Type} `{!FloatText, !ErrorText} (enginesMask : Z).
(** The data of a store: its engines, chosen by the id of the cell. *)
Abbreviation D := (Z → S).
Abbreviation wstate := (redisBatch * applyMetrics * D)%type.
Abbreviation wres := (outcome unit (Response * wstate)).
Abbreviation rres := (outcome unit Response).
Definition getEngine (id : Z) (d : D) : S := d (Z.land enginesMask id).
Definition set_engine (id : Z) (e : S) (d : D) : D := λ i, if decide (i = Z.land enginesMask id) then e else d i.

(** The arguments of a command; [cmd.Args()] of no command panics. *)
Definition args_of {A} (req : Request) (k : list bytes → outcome unit A) : outcome unit A :=
  match Req_Cmd req with [] => Panic | _ :: args => k args end.
Definition wreply (r : Reply) (s : wstate) : wres := Ok (response r, s).
Definition winvalid (s : wstate) : wres := wreply (error_reply ErrInvalidCommandResp) s.
Definition rreply (r : Reply) : rres := Ok (response r).
Definition rinvalid : rres := rreply (error_reply ErrInvalidCommandResp).
(** A call of an engine: its error is the answer. *)
Definition wcall {A} (id : Z) (o : op S A) (s : wstate) (k : A → wstate → wres) : wres :=
  let '(rb, ms, d) := s in
  let '(r, e) := o (getEngine id d) in
  match r with
  | inl err => wreply (error_reply err) (rb, ms, set_engine id e d)
  | inr a => k a (rb, ms, set_engine id e d)
  end.
Definition rcall {A} (id : Z) (q : S → result A) (d : D) (k : A → rres) : rres :=
  match q (getEngine id d) with inl err => rreply (error_reply err) | inr a => k a end.
Definition with_metrics (f : applyMetrics → applyMetrics) (s : wstate) : wstate := let '(rb, ms, d) := s in (rb, f ms, d).
Definition wint (n : Z) (s : wstate) : wres := wreply (integer_reply n) s.
Definition wok (s : wstate) : wres := wreply (status_reply OKStatusResp) s.
Definition rint (n : Z) : rres := rreply (integer_reply n).
Definition has : option bool := Some true.
(** A number among the arguments; an error of strconv is the answer. *)
Definition wnum (a : bytes) (s : wstate) (k : Z → wres) : wres :=
  match StrInt64 a with (_, Some e) => wreply (error_reply (ParseIntError a e)) s | (n, None) => k n end.
Definition rnum (a : bytes) (k : Z → rres) : rres :=
  match StrInt64 a with (_, Some e) => rreply (error_reply (ParseIntError a e)) | (n, None) => k n end.
Definition wfloat (a : bytes) (s : wstate) (k : Z → wres) : wres :=
  match StrFloat64 a with (_, Some e) => wreply (error_reply (ParseFloatError a e)) s | (f, None) => k f end.

(** ** redis_kv.go *)
Section kv.
Context `{!KVEngine S}.
Definition execKVSet (id : Z) (req : Request) (s : wstate) : wres :=
  args_of req (λ args,
    match args with
    | [k; v] =>
        let '(rb, ms, d) := s in
        wok (rb ++ [(k, v)], written 1 (len k + len v) ms, d)
    | _ => winvalid s
    end).
Definition execKVGet (id : Z) (req : Request) (d : D) : rres :=
  args_of req (λ args, match args with [k] => rcall id (KV_Get k) d (λ v, rreply (bulk_reply v None)) | _ => rinvalid end).
Definition execKVStrLen (id : Z) (req : Request) (d : D) : rres :=
  args_of req (λ args, match args with [k] => rcall id (KV_StrLen k) d rint | _ => rinvalid end).
Definition execKVIncrBy (id : Z) (req : Request) (s : wstate) : wres :=
  args_of req (λ args,
    match args with
    | [k; a] => match StrInt64 a with (_, Some _) => winvalid s | (n, None) => wcall id (KV_IncrBy k n) s wint end
    | _ => winvalid s
    end).
Definition execKVIncr (id : Z) (req : Request) (s : wstate) : wres :=
  args_of req (λ args, match args with [k] => wcall id (KV_IncrBy k 1) s wint | _ => winvalid s end).
Definition execKVDecrby (id : Z) (req : Request) (s : wstate) : wres :=
  args_of req (λ args,
    match args with
    | [k; a] => match StrInt64 a with (_, Some _) => winvalid s | (n, None) => wcall id (KV_DecrBy k n) s wint end
    | _ => winvalid s
    end).
Definition execKVDecr (id : Z) (req : Request) (s : wstate) : wres :=
  args_of req (λ args, match args with [k] => wcall id (KV_DecrBy k 1) s wint | _ => winvalid s end).
Definition execKVGetSet (id : Z) (req : Request) (s : wstate) : wres :=
  args_of req (λ args,
    match args with [k; v] => wcall id (KV_GetSet k v) s (λ old s, wreply (bulk_reply old None) s) | _ => winvalid s end).
Definition execKVAppend (id : Z) (req : Request) (s : wstate) : wres :=
  args_of req (λ args,
    match args with
    | [k; v] => wcall id (KV_Append k v) s (λ n s, wint n (with_metrics (written 0 (len v)) s))
    | _ => winvalid s
    end).
Definition execKVSetNX (id : Z) (req : Request) (s : wstate) : wres :=
  args_of req (λ args,
    match args with
    | [k; v] =>
        wcall id (KV_SetNX k v) s (λ n s,
          wint n (if bool_decide (0 < n) then with_metrics (written 1 (len k + len v)) s else s))
    | _ => winvalid s
    end).
End kv.

(** ** redis_hash.go and redis_lock.go *)
Section hash.
Context `{!HashEngine S}.
Definition execHSet (id : Z) (req : Request) (s : wstate) : wres :=
  args_of req (λ args,
    match args with
    | [k; f; v] =>
        wcall id (HSet k f v) s (λ n s, wint n (if bool_decide (0 < n) then with_metrics (written 1 (len f + len v)) s else s))
    | _ => winvalid s
    end).
Definition execHDel (id : Z) (req : Request) (s : wstate) : wres :=
  args_of req (λ args,
    match args with
    | k :: f :: fs =>
        wcall id (HDel k (f :: fs)) s (λ n s, wint n (if bool_decide (0 < n) then with_metrics (sub_size (lens (f :: fs))) s else s))
    | _ => winvalid s
    end).
(** Fields and values alternate. *)
Fixpoint field_values (kvs : list bytes) : list bytes * list bytes :=
  match kvs with
  | f :: v :: kvs' => let '(fs, vs) := field_values kvs' in (f :: fs, v :: vs)
  | _ => ([], [])
  end.
Definition execHMSet (id : Z) (req : Request) (s : wstate) : wres :=
  args_of req (λ args,
    let l := length args in
    match args with
    | k :: kvs =>
        if bool_decide (l < 3)%nat || Nat.even l then winvalid s
        else
          let '(fields, values) := field_values kvs in
          wcall id (HMSet k fields values) s (λ _ s, wok (with_metrics (written 1 (lens kvs)) s))
    | [] => winvalid s
    end).
Definition execHSetNX (id : Z) (req : Request) (s : wstate) : wres :=
  args_of req (λ args,
    match args with
    | [k; f; v] =>
        wcall id (HSetNX k f v) s (λ n s, wint n (if bool_decide (0 < n) then with_metrics (written 0 (len f + len v)) s else s))
    | _ => winvalid s
    end).
Definition execHIncrBy (id : Z) (req : Request) (s : wstate) : wres :=
  args_of req (λ args,
    match args with
    | [k; f; a] => wnum a s (λ n, wcall id (HIncrBy k f n) s (λ v s, wnum v s (λ n, wint n s)))
    | _ => winvalid s
    end).
Definition execHGet (id : Z) (req : Request) (d : D) : rres :=
  args_of req (λ args, match args with [k; f] => rcall id (HGet k f) d (λ v, rreply (bulk_reply v has)) | _ => rinvalid end).
Definition execHExists (id : Z) (req : Request) (d : D) : rres :=
  args_of req (λ args, match args with [k; f] => rcall id (HExists k f) d (λ b, rint (if (b : bool) then 1 else 0)) | _ => rinvalid end).
Definition execHKeys (id : Z) (req : Request) (d : D) : rres :=
  args_of req (λ args, match args with [k] => rcall id (HKeys k) d (λ v, rreply (slices_reply v has)) | _ => rinvalid end).
Definition execHVals (id : Z) (req : Request) (d : D) : rres :=
  args_of req (λ args, match args with [k] => rcall id (HVals k) d (λ v, rreply (slices_reply v has)) | _ => rinvalid end).
Definition execHGetAll (id : Z) (req : Request) (d : D) : rres :=
  args_of req (λ args, match args with [k] => rcall id (HGetAll k) d (λ v, rreply (fvs_reply v has)) | _ => rinvalid end).
Definition execHScanGet (id : Z) (req : Request) (d : D) : rres :=
  args_of req (λ args,
    match args with [k; start; a] => rnum a (λ n, rcall id (HScanGet k start n) d (λ v, rreply (fvs_reply v has))) | _ => rinvalid end).
Definition execHLen (id : Z) (req : Request) (d : D) : rres :=
  args_of req (λ args, match args with [k] => rcall id (HLen k) d rint | _ => rinvalid end).
Definition execHMGet (id : Z) (req : Request) (d : D) : rres :=
  args_of req (λ args,
    match args with
    | k :: f :: fs =>
        let '(value, errs) := HMGet k (f :: fs) (getEngine id d) in
        match errs with [] => rreply (slices_reply value has) | _ => rreply (errors_reply errs) end
    | _ => rinvalid
    end).
Definition execHStrLen (id : Z) (req : Request) (d : D) : rres :=
  args_of req (λ args, match args with [k; f] => rcall id (HStrLen k f) d rint | _ => rinvalid end).

Definition already_locked : bytes :=
  [x20; x61; x6c; x72; x65; x61; x64; x79; x20; x6c; x6f; x63; x6b; x65; x64; x20; x62; x79; x20].
(** The first value of another target, with its key: [keys[idx]] out of range panics. *)
Fixpoint first_conflict (target : bytes) (keys values : list bytes) : outcome unit (option (bytes * bytes)) :=
  match values with
  | [] => Ok None
  | v :: values' =>
      if bool_decide (0 < length v)%nat && negb (bool_decide (v = target)) then
        match keys with [] => Panic | k :: _ => Ok (Some (k, v)) end
      else first_conflict target (tail keys) values'
  end.
Lemma first_conflict_returns t values : ∀ keys, (length values <= length keys)%nat → ∃ c, first_conflict t keys values = Ok c.
Proof.
  induction values as [|v values IH]; intros keys Hl; [by eexists|]. destruct keys as [|k keys]; simpl in *; [lia|].
  destruct (_ && _); [by eexists|]. apply IH. lia.
Qed.
Definition execLock (id : Z) (req : Request) (s : wstate) : wres :=
  args_of req (λ args,
    match args with
    | resource :: target :: k :: ks =>
        let keys := k :: ks in
        let '(rb, ms, d) := s in
        let '(values, errs) := HMGet resource keys (getEngine id d) in
        match errs with
        | e :: _ => wreply (error_reply e) s
        | [] =>
            let! conflict := first_conflict target keys (default [] values) in
            match conflict with
            | Some (key, v) => wreply (status_reply (key ++ already_locked ++ v)) s
            | None =>
                let '(r, e) := HMSet resource keys (replicate (length keys) target) (getEngine id d) in
                let s := (rb, ms, set_engine id e d) in
                match r with inl err => wreply (status_reply err) s | inr _ => wok s end
            end
        end
    | _ => winvalid s
    end).
Definition execLockable (id : Z) (req : Request) (d : D) : rres :=
  args_of req (λ args,
    match args with
    | resource :: target :: k :: ks =>
        let keys := k :: ks in
        let '(values, errs) := HMGet resource keys (getEngine id d) in
        match errs with
        | e :: _ => rreply (error_reply e)
        | [] =>
            let! conflict := first_conflict target keys (default [] values) in
            match conflict with
            | Some (key, v) => rreply (status_reply (key ++ already_locked ++ v))
            | None => rreply (status_reply OKStatusResp)
            end
        end
    | _ => rinvalid
    end).
Definition execUnlock (id : Z) (req : Request) (s : wstate) : wres :=
  args_of req (λ args,
    match args with resource :: k :: ks => wcall id (HDel resource (k :: ks)) s (λ _ s, wok s) | _ => winvalid s end).
End hash.

(** ** redis_list.go *)
Section lists.
Context `{!ListEngine S}.
(** After a push: a new list counts as a key. *)
Definition pushed (k : bytes) (size value : Z) (s : wstate) : wstate :=
  if bool_decide (0 < value) then
    if bool_decide (value = 1) then with_metrics (written 1 (u64 (size + len k))) s else with_metrics (written 0 size) s
  else s.
Definition execLIndex (id : Z) (req : Request) (d : D) : rres :=
  args_of req (λ args,
    match args with [k; a] => rnum a (λ n, rcall id (LIndex k n) d (λ v, rreply (bulk_reply v has))) | _ => rinvalid end).
Definition execLLEN (id : Z) (req : Request) (d : D) : rres :=
  args_of req (λ args, match args with [k] => rcall id (LLen k) d rint | _ => rinvalid end).
Definition execLRange (id : Z) (req : Request) (d : D) : rres :=
  args_of req (λ args,
    match args with
    | [k; a; b] => rnum a (λ i, rnum b (λ j, rcall id (LRange k i j) d (λ v, rreply (slices_reply v has))))
    | _ => rinvalid
    end).
(** The test for an empty list inside the test for a positive length never holds. *)
Definition execLInsert (id : Z) (req : Request) (s : wstate) : wres :=
  args_of req (λ args,
    match args with
    | [k; a; pivot; v] =>
        wnum a s (λ pos, wcall id (LInsert k pos pivot v) s (λ n s,
          wint n (if bool_decide (0 < n) then
                    if bool_decide (n = 0) then with_metrics (written 1 (u64 (len v + len k))) s else with_metrics (written 0 (len v)) s
                  else s)))
    | _ => winvalid s
    end).
Definition execLPop (id : Z) (req : Request) (s : wstate) : wres :=
  args_of req (λ args,
    match args with
    | [k] => wcall id (LPop k) s (λ v s, wreply (bulk_reply v has) (with_metrics (sub_size (len (default [] v))) s))
    | _ => winvalid s
    end).
Definition execLPush (id : Z) (req : Request) (s : wstate) : wres :=
  args_of req (λ args,
    match args with k :: v :: vs => wcall id (LPush k (v :: vs)) s (λ n s, wint n (pushed k (lens (v :: vs)) n s)) | _ => winvalid s end).
Definition execLPushX (id : Z) (req : Request) (s : wstate) : wres :=
  args_of req (λ args, match args with [k; v] => wcall id (LPushX k v) s (λ n s, wint n (pushed k (len v) n s)) | _ => winvalid s end).
(** The size of what is removed is added. *)
Definition execLRem (id : Z) (req : Request) (s : wstate) : wres :=
  args_of req (λ args,
    match args with
    | [k; a; v] =>
        wnum a s (λ count, wcall id (LRem k count v) s (λ n s,
          wint n (if bool_decide (0 < n) then with_metrics (add_size (u64 (len v * u64 n))) s else s)))
    | _ => winvalid s
    end).
Definition execLSet (id : Z) (req : Request) (s : wstate) : wres :=
  args_of req (λ args, match args with [k; a; v] => wnum a s (λ i, wcall id (LSet k i v) s (λ _ s, wok s)) | _ => winvalid s end).
Definition execLTrim (id : Z) (req : Request) (s : wstate) : wres :=
  args_of req (λ args,
    match args with [k; a; b] => wnum a s (λ i, wnum b s (λ j, wcall id (LTrim k i j) s (λ _ s, wok s))) | _ => winvalid s end).
Definition execRPop (id : Z) (req : Request) (s : wstate) : wres :=
  args_of req (λ args,
    match args with
    | [k] => wcall id (RPop k) s (λ v s, wreply (bulk_reply v has) (with_metrics (sub_size (len (default [] v))) s))
    | _ => winvalid s
    end).
Definition execRPush (id : Z) (req : Request) (s : wstate) : wres :=
  args_of req (λ args,
    match args with k :: v :: vs => wcall id (RPush k (v :: vs)) s (λ n s, wint n (pushed k (lens (v :: vs)) n s)) | _ => winvalid s end).
Definition execRPushX (id : Z) (req : Request) (s : wstate) : wres :=
  args_of req (λ args, match args with [k; v] => wcall id (RPushX k v) s (λ n s, wint n (pushed k (len v) n s)) | _ => winvalid s end).
End lists.

(** ** redis_set.go *)
Section sets.
Context `{!SetEngine S}.
Definition execSAdd (id : Z) (req : Request) (s : wstate) : wres :=
  args_of req (λ args,
    match args with k :: v :: vs => wcall id (SAdd k (v :: vs)) s (λ n s, wint n (pushed k (lens (v :: vs)) n s)) | _ => winvalid s end).
(** Nothing removed counts as a deleted key. *)
Definition execSRem (id : Z) (req : Request) (s : wstate) : wres :=
  args_of req (λ args,
    match args with
    | k :: v :: vs =>
        wcall id (SRem k (v :: vs)) s (λ n s,
          let s := if bool_decide (n = 0) then with_metrics add_deleted s else s in
          wint n (with_metrics (sub_size (lens (v :: vs))) s))
    | _ => winvalid s
    end).
Definition execSCard (id : Z) (req : Request) (d : D) : rres :=
  args_of req (λ args, match args with [k] => rcall id (SCard k) d rint | _ => rinvalid end).
Definition execSMembers (id : Z) (req : Request) (d : D) : rres :=
  args_of req (λ args, match args with [k] => rcall id (SMembers k) d (λ v, rreply (slices_reply v has)) | _ => rinvalid end).
Definition execSIsMember (id : Z) (req : Request) (d : D) : rres :=
  args_of req (λ args, match args with [k; m] => rcall id (SIsMember k m) d rint | _ => rinvalid end).
(** It has the type of a read and changes the engine; no table names it. *)
Definition execSPop (id : Z) (req : Request) (d : D) : outcome unit (Response * D) :=
  args_of req (λ args,
    match args with
    | [k] =>
        let '(r, e) := SPop k (getEngine id d) in
        Ok (response match r with inl err => error_reply err | inr v => bulk_reply v has end, set_engine id e d)
    | _ => Ok (response (error_reply ErrInvalidCommandResp), d)
    end).
End sets.

(** ** redis_zset.go *)
Section zsets.
Context `{!ZSetEngine S}.
Definition execZAdd (id : Z) (req : Request) (s : wstate) : wres :=
  args_of req (λ args,
    match args with
    | [k; a; m] => wfloat a s (λ score, wcall id (ZAdd k score m) s (λ n s, wint n (pushed k (u64 (len m + len a)) n s)))
    | _ => winvalid s
    end).
Definition execZCard (id : Z) (req : Request) (d : D) : rres :=
  args_of req (λ args, match args with [k] => rcall id (ZCard k) d rint | _ => rinvalid end).
Definition execZCount (id : Z) (req : Request) (d : D) : rres :=
  args_of req (λ args, match args with [k; lo; hi] => rcall id (ZCount k lo hi) d rint | _ => rinvalid end).
Definition execZIncrBy (id : Z) (req : Request) (s : wstate) : wres :=
  args_of req (λ args,
    match args with
    | [k; m; a] => wfloat a s (λ by_, wcall id (ZIncrBy k m by_) s (λ v s, wreply (bulk_reply v has) s))
    | _ => winvalid s
    end).
Definition execZLexCount (id : Z) (req : Request) (d : D) : rres :=
  args_of req (λ args, match args with [k; lo; hi] => rcall id (ZLexCount k lo hi) d rint | _ => rinvalid end).
Definition execZRange (id : Z) (req : Request) (d : D) : rres :=
  args_of req (λ args,
    match args with
    | k :: a :: b :: rest =>
        rnum a (λ start, rnum b (λ stop,
          let withScores := bool_decide (length args = 4%nat) in
          rcall id (ZRange k start stop) d (λ v, rreply (scores_reply v (Some withScores) (Some withScores)))))
    | _ => rinvalid
    end).
Definition execZRangeByLex (id : Z) (req : Request) (d : D) : rres :=
  args_of req (λ args,
    match args with [k; lo; hi] => rcall id (ZRangeByLex k lo hi) d (λ v, rreply (slices_reply v has)) | _ => rinvalid end).
Definition execZRangeByScore (id : Z) (req : Request) (d : D) : rres :=
  args_of req (λ args,
    match args with k :: lo :: hi :: _ => rcall id (ZRangeByScore k lo hi) d (λ v, rreply (scores_reply v has None)) | _ => rinvalid end).
Definition execZRank (id : Z) (req : Request) (d : D) : rres :=
  args_of req (λ args,
    match args with
    | [k; m] => rcall id (ZRank k m) d (λ n, if bool_decide (n < 0) then rreply (bulk_reply None has) else rint n)
    | _ => rinvalid
    end).
Definition execZRem (id : Z) (req : Request) (s : wstate) : wres :=
  args_of req (λ args,
    match args with
    | k :: m :: ms =>
        wcall id (ZRem k (m :: ms)) s (λ n s, wint n (if bool_decide (0 < n) then with_metrics (sub_size (lens (m :: ms))) s else s))
    | _ => winvalid s
    end).
Definition execZRemRangeByLex (id : Z) (req : Request) (s : wstate) : wres :=
  args_of req (λ args, match args with [k; lo; hi] => wcall id (ZRemRangeByLex k lo hi) s wint | _ => winvalid s end).
Definition execZRemRangeByRank (id : Z) (req : Request) (s : wstate) : wres :=
  args_of req (λ args,
    match args with [k; a; b] => wnum a s (λ i, wnum b s (λ j, wcall id (ZRemRangeByRank k i j) s wint)) | _ => winvalid s end).
Definition execZRemRangeByScore (id : Z) (req : Request) (s : wstate) : wres :=
  args_of req (λ args, match args with [k; lo; hi] => wcall id (ZRemRangeByScore k lo hi) s wint | _ => winvalid s end).
Definition execZScore (id : Z) (req : Request) (d : D) : rres :=
  args_of req (λ args, match args with [k; m] => rcall id (ZScore k m) d (λ v, rreply (bulk_reply v has)) | _ => rinvalid end).
End zsets.

(** ** redis.go *)
Section handles.
Context `{!KVEngine S, !HashEngine S, !ListEngine S, !SetEngine S, !ZSetEngine S}.
Definition write_exec (t : CMDType) : option (@write_handle D) :=
  match t with
  | CSet => Some execKVSet | CIncrby => Some execKVIncrBy | CIncr => Some execKVIncr | CDecrby => Some execKVDecrby
  | CDecr => Some execKVDecr | CGetSet => Some execKVGetSet | CAppend => Some execKVAppend | CSetnx => Some execKVSetNX
  | CHSet => Some execHSet | CHDel => Some execHDel | CHMSet => Some execHMSet | CHSetNX => Some execHSetNX | CHIncrBy => Some execHIncrBy
  | CLInsert => Some execLInsert | CLPop => Some execLPop | CLPush => Some execLPush | CLPushX => Some execLPushX | CLRem => Some execLRem
  | CLSet => Some execLSet | CLTrim => Some execLTrim | CRPop => Some execRPop | CRPush => Some execRPush | CRPushX => Some execRPushX
  | CSAdd => Some execSAdd | CSRem => Some execSRem | CZAdd => Some execZAdd | CZIncrBy => Some execZIncrBy | CZRem => Some execZRem
  | CZRemRangeByLex => Some execZRemRangeByLex | CZRemRangeByRank => Some execZRemRangeByRank | CZRemRangeByScore => Some execZRemRangeByScore
  | CLock => Some execLock | CUnlock => Some execUnlock
  | _ => None
  end.
Definition read_exec (t : CMDType) : option (@read_handle D) :=
  match t with
  | CGet => Some execKVGet | CStrLen => Some execKVStrLen | CHGet => Some execHGet | CHExists => Some execHExists | CHKeys => Some execHKeys
  | CHVals => Some execHVals | CHGetAll => Some execHGetAll | CHScanGet => Some execHScanGet | CHLen => Some execHLen | CHMGet => Some execHMGet
  | CHStrLen => Some execHStrLen | CLIndex => Some execLIndex | CLLEN => Some execLLEN | CLRange => Some execLRange | CSCard => Some execSCard
  | CSIsMember => Some execSIsMember | CSMembers => Some execSMembers | CZCard => Some execZCard | CZCount => Some execZCount
  | CZLexCount => Some execZLexCount | CZRange => Some execZRange | CZRangeByLex => Some execZRangeByLex | CZRangeByScore => Some execZRangeByScore
  | CZRank => Some execZRank | CZScore => Some execZScore | CLockable => Some execLockable
  | _ => None
  end.
(** The tables, by the number of the command. *)
Definition redisWriteHandles (t : Z) : option (@write_handle D) := list_find (λ c, cmd_code c = t) redisWriteTypes ≫= λ p, write_exec p.2.
Definition redisReadHandles (t : Z) : option (@read_handle D) := list_find (λ c, cmd_code c = t) redisReadTypes ≫= λ p, read_exec p.2.
End handles.
End exec.

(** The batch of a command is written to the engine of its cell. *)
Definition store_MSet {S} `{!KVEngine S} (enginesMask : Z) (id : Z) (rb : redisBatch) (d : Z → S) : Z → S :=
  set_engine enginesMask id (KV_MSet rb (getEngine enginesMask id d)).2 d.

(** ** memory_engine_kv.go *)
Section memory.
Context {E : Type} `{!Engine bytes E}.
Definition memory_MSet (kvs : list (bytes * bytes)) (e : E) : E := foldl (λ e '(k, v), Engine_Set k v e) e kvs.
(** A stored value that is not a number counts as what strconv returns with its
    error. *)
Definition memory_IncrBy (k : bytes) (incrment : Z) (e : E) : Z * E :=
  let value := match Engine_Get k e with Some (c :: v) => (StrInt64 (c :: v)).1 | _ => 0 end in
  let value := i64 (value + incrment) in
  (value, Engine_Set k (FormatInt64ToBytes value) e).
#[export] Instance memoryKVEngine : KVEngine E := {|
  KV_MSet kvs e := (inr (), memory_MSet kvs e);
  KV_Get k e := inr (Engine_Get k e);
  KV_IncrBy k n e := let '(v, e) := memory_IncrBy k n e in (inr v, e);
  KV_DecrBy _ _ e := (inr 0, e);
  KV_GetSet _ _ e := (inr None, e);
  KV_Append _ _ e := (inr 0, e);
  KV_SetNX _ _ e := (inr 0, e);
  KV_StrLen _ _ := inr 0;
|}.
End memory.
