(* ===== verification/RedisProps.v ===== *)
(** * Properties of the redis commands

    Every command is answered, with one reply except in four cases
    ([handlers_answer]); locks exclude ([lock_excludes_others]); a write that is
    batched does not see, and undoes, a later one that is not
    ([batched_set_undoes_incr]). *)

From S2P Require Import Prelude Encoding Strconv Goetty Resp Meta Keys BTree RaftTypes KVTree RaftLog RaftApply RedisTable Propose Reply RedisExec.

(** ** Every command is answered *)
(** Texts are one line and sizes can be written. *)
Record writable (r : Reply) : Prop := {
  wr_error : default True (no_LF <$> ErrorResult r);
  wr_status : default True (no_LF <$> StatusResult r);
  wr_bulk : ok_arg (default [] (BulkResult r));
  wr_slices : ok_list (default [] (SliceArrayResult r)) ∧ Forall ok_arg (default [] (SliceArrayResult r));
  wr_fvs : ok_list (default [] (FvPairArrayResult r)) ∧ Forall (λ p, ok_arg (FV_Field p) ∧ ok_arg (FV_Value p)) (default [] (FvPairArrayResult r));
  wr_scores : ok_list (default [] (ScorePairArrayResult r)) ∧ Forall (λ p, ok_arg (SP_Member p)) (default [] (ScorePairArrayResult r));
}.
(** How the answer of a command reaches the client. *)
Definition answered `{!FloatText} (t : CMDType) (r : Reply) : Prop :=
  replied r ∨
  ((t = CGet ∨ t = CGetSet) ∧ doResp r = Ok []) ∨
  (t = CHMGet ∧ ∃ es, es ≠ [] ∧ r = errors_reply es) ∨
  (t = CZRangeByScore ∧ doResp r = Panic).

Section answers.
Context {S : Type} `{!FloatText, !ErrorText} `{!KVEngine S, !HashEngine S, !ListEngine S, !SetEngine S, !ZSetEngine S} (mask : Z).
Abbreviation D := (Z → S).

Definition wanswers (t : CMDType) (o : outcome unit (Response * (redisBatch * applyMetrics * D))) : Prop :=
  ∃ rsp s', o = Ok (rsp, s') ∧ (writable (Rsp_Reply rsp) → answered t (Rsp_Reply rsp)).
Definition ranswers (t : CMDType) (o : outcome unit Response) : Prop :=
  ∃ rsp, o = Ok rsp ∧ (writable (Rsp_Reply rsp) → answered t (Rsp_Reply rsp)).

Lemma answered_reply t r : (writable r → answered t r) → ∀ s, wanswers t (wreply r s).
Proof. intros Hr s. by exists (response r), s. Qed.
Lemma ranswered_reply t r : (writable r → answered t r) → ranswers t (rreply r).
Proof. intros Hr. by exists (response r). Qed.
Lemma an_error t e : writable (error_reply e) → answered t (error_reply e).
Proof. intros [He _ _ _ _ _]. left. by apply replied_error. Qed.
Lemma an_status t e : writable (status_reply e) → answered t (status_reply e).
Proof. intros [_ He _ _ _ _]. left. by apply replied_status. Qed.
Lemma an_integer t n : writable (integer_reply n) → answered t (integer_reply n).
Proof. intros _. left. apply replied_integer. Qed.
Lemma an_bulk t v : writable (bulk_reply v has) → answered t (bulk_reply v has).
Proof. intros [_ _ Hv _ _ _]. left. apply replied_bulk; [|done]. unfold present. apply orb_true_r. Qed.
Lemma an_slices t v : writable (slices_reply v has) → answered t (slices_reply v has).
Proof. intros [_ _ _ [??] _ _]. left. apply replied_slices; [|done..]. unfold present. apply orb_true_r. Qed.
Lemma an_fvs t v : writable (fvs_reply v has) → answered t (fvs_reply v has).
Proof. intros [_ _ _ _ [??] _]. left. apply replied_fvs; [|done..]. unfold present. apply orb_true_r. Qed.
Lemma an_scores t v w : writable (scores_reply v (Some w) (Some w)) → answered t (scores_reply v (Some w) (Some w)).
Proof. intros [_ _ _ _ _ [??]]. left. apply replied_scores; [|done..]. unfold present. apply orb_true_r. Qed.
(** Without the flag for empty results a nil one is not answered. *)
Lemma an_nil_bulk t v : t = CGet ∨ t = CGetSet → writable (bulk_reply v None) → answered t (bulk_reply v None).
Proof.
  intros Ht [_ _ Hv _ _ _]. destruct v as [v|]; [left; by apply replied_bulk|]. right; left. split; [done|apply nil_bulk_unanswered].
Qed.
Lemma an_range_by_score v : writable (scores_reply v has None) → answered CZRangeByScore (scores_reply v has None).
Proof. intros _. right; right; right. split; [done|apply scores_without_flag]. Qed.
Lemma an_hmget_errors e es : writable (errors_reply (e :: es)) → answered CHMGet (errors_reply (e :: es)).
Proof. intros _. right; right; left. split; [done|]. by exists (e :: es). Qed.

Lemma wcall_answers {A} t id (o : op S A) s k : (∀ a s, wanswers t (k a s)) → wanswers t (wcall mask id o s k).
Proof.
  intros Hk. unfold wcall. destruct s as [[rb ms] d]. destruct (o (getEngine mask id d)) as [[err|a] e]; [|apply Hk]. apply answered_reply, an_error.
Qed.
Lemma rcall_answers {A} t id (q : S → result A) (d : D) k : (∀ a, ranswers t (k a)) → ranswers t (rcall mask id q d k).
Proof. intros Hk. unfold rcall. destruct (q _) as [err|a]; [|apply Hk]. apply ranswered_reply, an_error. Qed.
Lemma wnum_answers t a s k : (∀ n, wanswers t (k n)) → wanswers t (wnum a s k).
Proof. intros Hk. unfold wnum. destruct (StrInt64 a) as [n [e|]]; [|apply Hk]. apply answered_reply, an_error. Qed.
Lemma rnum_answers t a k : (∀ n, ranswers t (k n)) → ranswers t (rnum a k).
Proof. intros Hk. unfold rnum. destruct (StrInt64 a) as [n [e|]]; [|apply Hk]. apply ranswered_reply, an_error. Qed.
Lemma wfloat_answers t a s k : (∀ n, wanswers t (k n)) → wanswers t (wfloat a s k).
Proof. intros Hk. unfold wfloat. destruct (StrFloat64 a) as [n [e|]]; [|apply Hk]. apply answered_reply, an_error. Qed.
End answers.

Lemma HMGet_returns {S : Type} `{!HashEngine S} k fs (e : S) : ∃ vs errs, HMGet k fs e = (vs, errs) ∧ (length (default [] vs) <= length fs)%nat.
Proof.
  destruct (HMGet k fs e) as [vs errs] eqn:Hg. exists vs, errs. split; [done|]. destruct vs as [vs|]; cbn; [|lia]. apply (HMGet_length k fs e). by rewrite Hg.
Qed.

Create HintDb redis_answers.
#[export] Hint Resolve an_error an_status an_integer an_bulk an_slices an_fvs an_scores an_range_by_score an_hmget_errors : redis_answers.
#[export] Hint Extern 2 (answered _ (bulk_reply _ None)) => apply an_nil_bulk : redis_answers.
(** One step through a handler: an answer, a call, or a case of the arguments. *)
Ltac answer :=
  lazymatch goal with
  | |- wanswers _ (wreply _ _) => apply answered_reply; intros; auto with redis_answers
  | |- ranswers _ (rreply _) => apply ranswered_reply; intros; auto with redis_answers
  | |- wanswers _ (wcall _ _ _ _ _) => apply wcall_answers; intros
  | |- ranswers _ (rcall _ _ _ _ _) => apply rcall_answers; intros
  | |- wanswers _ (wnum _ _ _) => apply wnum_answers; intros
  | |- ranswers _ (rnum _ _) => apply rnum_answers; intros
  | |- wanswers _ (wfloat _ _ _) => apply wfloat_answers; intros
  | |- wanswers _ (let '(_, _) := HMGet ?k ?fs ?e in _) => destruct (HMGet_returns k fs e) as (? & ? & -> & ?)
  | |- ranswers _ (let '(_, _) := HMGet ?k ?fs ?e in _) => destruct (HMGet_returns k fs e) as (? & ? & -> & ?)
  | Hl : (length (default [] ?vs) <= length ?ks)%nat |- wanswers _ (outcome_bind (first_conflict ?t ?ks (default [] ?vs)) _) => destruct (first_conflict_returns t _ _ Hl) as [? ->]; cbn [outcome_bind]
  | Hl : (length (default [] ?vs) <= length ?ks)%nat |- ranswers _ (outcome_bind (first_conflict ?t ?ks (default [] ?vs)) _) => destruct (first_conflict_returns t _ _ Hl) as [? ->]; cbn [outcome_bind]
  | |- wanswers _ (match ?x with _ => _ end) => destruct x
  | |- ranswers _ (match ?x with _ => _ end) => destruct x
  | |- _ => progress unfold winvalid, wint, wok, rint, rinvalid; cbv beta zeta
  end.

Ltac head_of t := lazymatch t with ?f _ => head_of f | _ => t end.
Ltac open_handler :=
  lazymatch goal with |- _ ?t ?e => let h := head_of e in unfold h, args_of end.

Section answer_all.
Context {S : Type} `{!FloatText, !ErrorText} `{!KVEngine S, !HashEngine S, !ListEngine S, !SetEngine S, !ZSetEngine S} (mask : Z).
Abbreviation D := (Z → S).

Lemma write_answers t h id req (s : redisBatch * applyMetrics * D) : write_exec mask t = Some h → Req_Cmd req ≠ [] → wanswers t (h id req s).
Proof.
  intros Hh Hc. destruct (Req_Cmd req) as [|c args] eqn:Hreq; [done|]. clear Hc.
  destruct t; simpl in Hh; try discriminate Hh; injection Hh as <-;
    open_handler; rewrite Hreq; cbv beta zeta; repeat answer.
Qed.
Lemma read_answers t h id req (d : D) : read_exec mask t = Some h → Req_Cmd req ≠ [] → ranswers t (h id req d).
Proof.
  intros Hh Hc. destruct (Req_Cmd req) as [|c args] eqn:Hreq; [done|]. clear Hc.
  destruct t; simpl in Hh; try discriminate Hh; injection Hh as <-;
    open_handler; rewrite Hreq; cbv beta zeta; repeat answer.
Qed.

Lemma redisWriteHandles_exec t h : redisWriteHandles (S := S) mask (cmd_code t) = Some h → write_exec mask t = Some h.
Proof.
  unfold redisWriteHandles. destruct (list_find _ _) as [[i c]|] eqn:Hf; [|done]. simpl. apply list_find_Some in Hf as (_ & Hc & _).
  by apply cmd_code_inj in Hc as ->.
Qed.
Lemma redisReadHandles_exec t h : redisReadHandles (S := S) mask (cmd_code t) = Some h → read_exec mask t = Some h.
Proof.
  unfold redisReadHandles. destruct (list_find _ _) as [[i c]|] eqn:Hf; [|done]. simpl. apply list_find_Some in Hf as (_ & Hc & _).
  by apply cmd_code_inj in Hc as ->.
Qed.
(** The tables hold the commands [isRead] and [isWrite] look for. *)
Lemma handles_types {A} (f : CMDType → option A) types n : Forall (λ c, is_Some (f c)) types →
  is_Some (list_find (λ c, cmd_code c = n) types ≫= λ p, f p.2) ↔ bool_decide (n ∈ cmd_code <$> types) = true.
Proof.
  intros Hall. rewrite bool_decide_eq_true. rewrite Forall_forall in Hall. destruct (list_find _ _) as [[i c]|] eqn:Hf.
  - apply list_find_Some in Hf as (Hi & Hc & _). apply list_elem_of_lookup_2 in Hi. split; [|intros _; by apply Hall].
    intros _. apply list_elem_of_fmap. eauto.
  - split; [by intros []|]. intros (c & -> & Hin)%list_elem_of_fmap. exfalso. apply list_find_None in Hf. rewrite Forall_forall in Hf. by apply (Hf c).
Qed.
Lemma redisReadHandles_types n : is_Some (redisReadHandles (S := S) mask n) ↔ isReadType n = true.
Proof. apply handles_types. repeat constructor; eauto. Qed.
Lemma redisWriteHandles_types n : is_Some (redisWriteHandles (S := S) mask n) ↔ isWriteType n = true.
Proof. apply handles_types. repeat constructor; eauto. Qed.

(** C26. Every command a store executes is answered and none stops the store: a
    handler of the tables returns a response for any arguments and any state, and
    a client reads that response as exactly one reply, provided its texts are one
    line and its sizes can be written, with four exceptions: nothing is written
    for GET and GETSET when the engine gives no value, HMGET writes one error per
    failed field, and writing the answer of ZRANGEBYSCORE panics. *)
Theorem handlers_answer id req : Req_Cmd req ≠ [] →
  (∀ t h (s : redisBatch * applyMetrics * D), redisWriteHandles mask (cmd_code t) = Some h →
     ∃ rsp s', h id req s = Ok (rsp, s') ∧ (writable (Rsp_Reply rsp) → answered t (Rsp_Reply rsp))) ∧
  (∀ t h (d : D), redisReadHandles mask (cmd_code t) = Some h →
     ∃ rsp, h id req d = Ok rsp ∧ (writable (Rsp_Reply rsp) → answered t (Rsp_Reply rsp))).
Proof.
  intros Hc. split; intros t h x Hh.
  - apply write_answers; [by apply redisWriteHandles_exec|done].
  - apply read_answers; [by apply redisReadHandles_exec|done].
Qed.
End answer_all.

(** ** Locks *)
(** What the hash engine promises, over the fields it represents. *)
Class HashLaws (S : Type) `{!HashEngine S} := {
  hash_fields : S → bytes → gmap bytes bytes;
  hash_HMGet k fs e : HMGet k fs e = (Some ((λ f, default [] (hash_fields e k !! f)) <$> fs), []);
  hash_HMSet k fs vs e : length fs = length vs → ∃ e', HMSet k fs vs e = (inr (), e') ∧ ∀ k' f,
    hash_fields e' k' !! f = if decide (k' = k) then foldl (λ m '(f, v), <[f := v]> m) (hash_fields e k) (zip fs vs) !! f else hash_fields e k' !! f;
  hash_HDel k fs e : ∃ n e', HDel k fs e = (inr n, e') ∧ ∀ k' f,
    hash_fields e' k' !! f = if decide (k' = k ∧ f ∈ fs) then None else hash_fields e k' !! f;
}.

Inductive lock_cmd := LLock (resource target k : bytes) (ks : list bytes) | LUnlock (resource k : bytes) (ks : list bytes).
Definition lock_request (c : lock_cmd) : Request :=
  match c with
  | LLock r t k ks => mkRequest [] (cmd_code CLock) ([] :: r :: t :: k :: ks) 0
  | LUnlock r k ks => mkRequest [] (cmd_code CUnlock) ([] :: r :: k :: ks) 0
  end.

Section locks.
Context {S : Type} `{!HashEngine S, !HashLaws S} (mask : Z).
Abbreviation D := (Z → S).
Abbreviation wstate := (redisBatch * applyMetrics * D)%type.
Definition exec_lock (id : Z) (c : lock_cmd) (s : wstate) : outcome unit (Response * wstate) :=
  match c with LLock _ _ _ _ => execLock mask id (lock_request c) s | LUnlock _ _ _ => execUnlock mask id (lock_request c) s end.
(** Commands on any cells, one after the other. *)
Fixpoint run_locks (cs : list (Z * lock_cmd)) (s : wstate) : outcome unit wstate :=
  match cs with
  | [] => Ok s
  | (id, c) :: cs' => let! (_, s) := exec_lock id c s in run_locks cs' s
  end.
(** The holder of a key; the empty string when there is none. *)
Definition held (e : S) (r k : bytes) : bytes := default [] (hash_fields e r !! k).
Definition unlocks (c : lock_cmd) (r k : bytes) : Prop := match c with LUnlock r' k' ks => r' = r ∧ k ∈ k' :: ks | _ => False end.

Lemma set_all_lookup t fs : ∀ (m : gmap bytes bytes) f,
  foldl (λ m '(f, v), <[f := v]> m) m (zip fs (replicate (length fs) t)) !! f = if decide (f ∈ fs) then Some t else m !! f.
Proof.
  induction fs as [|g fs IH]; intros m f; simpl; [done|]. rewrite IH. destruct (decide (f ∈ fs)).
  - by rewrite decide_True by (by right).
  - destruct (decide (f = g)) as [->|]; [rewrite lookup_insert_eq, decide_True; [done|left]|]. rewrite lookup_insert_ne by done.
    rewrite decide_False; [done|]. by intros [?|?]%elem_of_cons.
Qed.
Lemma first_conflict_None t ks e r : first_conflict t ks ((λ f, default [] (hash_fields e r !! f)) <$> ks) = Ok None → ∀ k, k ∈ ks → held e r k = [] ∨ held e r k = t.
Proof.
  unfold held. induction ks as [|k ks IH]; intros Hn k' Hin; [by apply not_elem_of_nil in Hin|]. simpl in Hn.
  destruct (bool_decide _ && _) eqn:Hb in Hn; [done|]. apply elem_of_cons in Hin as [->|Hin]; [|by apply IH].
  apply andb_false_iff in Hb as [Hb|Hb]; [apply bool_decide_eq_false in Hb; left; by apply length_zero_iff_nil; lia|].
  right. apply negb_false_iff, bool_decide_eq_true in Hb. done.
Qed.
Lemma first_conflict_Some t ks e r k : k ∈ ks → held e r k ≠ [] → held e r k ≠ t →
  ∃ key v, first_conflict t ks ((λ f, default [] (hash_fields e r !! f)) <$> ks) = Ok (Some (key, v)).
Proof.
  intros Hin H0 Ht. destruct (first_conflict_returns t ((λ f, default [] (hash_fields e r !! f)) <$> ks) ks) as [[[key v]|] E]; [by rewrite length_fmap|eauto|].
  by destruct (first_conflict_None t ks e r E k Hin).
Qed.

Lemma getEngine_set id e (d : D) : getEngine mask id (set_engine mask id e d) = e.
Proof. unfold getEngine, set_engine. by rewrite decide_True. Qed.
(** LOCK gives every key to the target, or nothing when another one holds a key. *)
Lemma Lock_cases id r t k ks rb ms (d : D) :
  let e := getEngine mask id d in
  (∃ key v, exec_lock id (LLock r t k ks) (rb, ms, d) = Ok (response (status_reply (key ++ already_locked ++ v)), (rb, ms, d))) ∨
  (∃ e', exec_lock id (LLock r t k ks) (rb, ms, d) = Ok (response (status_reply OKStatusResp), (rb, ms, set_engine mask id e' d)) ∧
     (∀ k', k' ∈ k :: ks → held e r k' = [] ∨ held e r k' = t) ∧
     ∀ r' k', held e' r' k' = if decide (r' = r ∧ k' ∈ k :: ks) then t else held e r' k').
Proof.
  cbv zeta. set (e := getEngine mask id d). unfold exec_lock, execLock, lock_request, args_of, Req_Cmd. fold e. rewrite hash_HMGet.
  cbn [default from_option Datatypes.id]. destruct (first_conflict_returns t ((λ f, default [] (hash_fields e r !! f)) <$> k :: ks) (k :: ks)) as [[[key v]|] Hc];
    [by rewrite length_fmap|rewrite Hc; left; by exists key, v|]. rewrite Hc. right. cbn [outcome_bind].
  destruct (hash_HMSet r (k :: ks) (replicate (length (k :: ks)) t) e) as (e' & Hset & Hf); [by rewrite length_replicate|].
  rewrite Hset. exists e'. split; [done|]. split; [exact (first_conflict_None t (k :: ks) e r Hc)|].
  intros r' k'. unfold held. rewrite Hf. destruct (decide (r' = r)) as [->|]; [|rewrite decide_False by tauto; done].
  rewrite set_all_lookup. destruct (decide (k' ∈ k :: ks)); [by rewrite decide_True|by rewrite decide_False by tauto].
Qed.
Lemma Unlock_spec id r k ks rb ms (d : D) : ∃ e',
  exec_lock id (LUnlock r k ks) (rb, ms, d) = Ok (response (status_reply OKStatusResp), (rb, ms, set_engine mask id e' d)) ∧
  ∀ r' k', held e' r' k' = if decide (r' = r ∧ k' ∈ k :: ks) then [] else held (getEngine mask id d) r' k'.
Proof.
  unfold exec_lock, execUnlock, lock_request, args_of, Req_Cmd, wcall. destruct (hash_HDel r (k :: ks) (getEngine mask id d)) as (n & e' & -> & Hf).
  exists e'. split; [done|]. intros r' k'. unfold held. rewrite Hf. by destruct (decide _).
Qed.
(** A key that is held stays with its holder until it is unlocked. *)
Lemma held_preserved id0 r0 k0 t0 id c rb ms (d : D) : t0 ≠ [] → held (getEngine mask id0 d) r0 k0 = t0 → ¬ unlocks c r0 k0 →
  ∃ rsp d', exec_lock id c (rb, ms, d) = Ok (rsp, (rb, ms, d')) ∧ held (getEngine mask id0 d') r0 k0 = t0.
Proof.
  intros Ht Hh Hu. assert (∀ e', (getEngine mask id0 d = getEngine mask id d → held e' r0 k0 = t0) → held (getEngine mask id0 (set_engine mask id e' d)) r0 k0 = t0) as Hset.
  { intros e' He. unfold getEngine, set_engine in *. destruct (decide (Z.land mask id0 = Z.land mask id)) as [Heq|]; [|done]. apply He. by rewrite Heq. }
  destruct c as [r t k ks|r k ks].
  - destruct (Lock_cases id r t k ks rb ms d) as [(key & v & ->)|(e' & -> & Hfree & He')]; [eauto|].
    eexists _, _. split; [done|]. apply Hset. intros Heq. rewrite He'. destruct (decide _) as [[<- Hin]|]; [|by rewrite <-Heq].
    destruct (Hfree k0 Hin) as [H0|H0]; rewrite <-Heq, Hh in H0; [done|]. done.
  - destruct (Unlock_spec id r k ks rb ms d) as (e' & -> & He'). eexists _, _. split; [done|]. apply Hset. intros Heq. rewrite He'.
    destruct (decide _) as [[<- Hin]|]; [by destruct Hu|by rewrite <-Heq].
Qed.
Lemma run_held id0 r0 k0 t0 cs : ∀ rb ms (d : D) s', t0 ≠ [] → held (getEngine mask id0 d) r0 k0 = t0 → Forall (λ '(_, c), ¬ unlocks c r0 k0) cs →
  run_locks cs (rb, ms, d) = Ok s' → ∃ d', s' = (rb, ms, d') ∧ held (getEngine mask id0 d') r0 k0 = t0.
Proof.
  induction cs as [|[id c] cs IH]; intros rb ms d s' Ht Hh Hall Hrun; simpl in Hrun; [injection Hrun as <-; eauto|].
  inversion_clear Hall as [|?? Hc Hall']. destruct (held_preserved id0 r0 k0 t0 id c rb ms d Ht Hh Hc) as (rsp & d' & He & Hh'). rewrite He in Hrun. simpl in Hrun. eauto.
Qed.

(** C27. Locks exclude: once LOCK has granted a key of a resource to a target (that
    is not the empty string), then after any sequence of LOCK and UNLOCK commands,
    on any cells and by anyone, none of which unlocks the key, a LOCK of it by
    another target is refused with "already locked" and changes nothing. *)
Theorem lock_excludes_others id r t k ks s s1 cs s2 t' k' ks' key : t ≠ [] →
  exec_lock id (LLock r t k ks) s = Ok (response (status_reply OKStatusResp), s1) →
  Forall (λ '(_, c), ¬ unlocks c r key) cs → run_locks cs s1 = Ok s2 →
  key ∈ k :: ks → key ∈ k' :: ks' → t' ≠ t →
  ∃ key' holder, exec_lock id (LLock r t' k' ks') s2 = Ok (response (status_reply (key' ++ already_locked ++ holder)), s2).
Proof.
  intros Ht Hg Hall Hrun Hin Hin' Hne. destruct s as [[rb ms] d].
  destruct (Lock_cases id r t k ks rb ms d) as [(x & v & He)|(e' & He & _ & Hh)]; rewrite He in Hg.
  { injection Hg as Hx _. apply (f_equal length) in Hx. rewrite !length_app in Hx. simpl in Hx. lia. }
  injection Hg as <-. destruct (run_held id r key t cs rb ms (set_engine mask id e' d) s2 Ht) as (d2 & -> & Hh2); [|done|done|].
  { rewrite getEngine_set, Hh. by rewrite decide_True. }
  destruct (Lock_cases id r t' k' ks' rb ms d2) as [?|(e2 & _ & Hfree & _)]; [done|].
  destruct (Hfree key Hin') as [H0|H0]; rewrite Hh2 in H0; congruence.
Qed.
End locks.

(** ** Batched writes *)
Section batched.
Context {E S : Type} `{!Engine value E} `{!Engine bytes S, !HashEngine S, !ListEngine S, !SetEngine S, !ZSetEngine S} `{!FloatText, !ErrorText} (mask : Z).

(** SET is batched until the end of a raft command, INCR is executed at once:
    when both are in one command, in this order and for the same key, INCR counts
    from the value before the SET and its increment is lost.  The command applies
    without an error, the client of SET is told OK, the client of INCR gets one
    more than the old number, and the value that stays is that of the SET. *)
Theorem batched_set_undoes_incr x k v y u1 u2 sid1 sid2 h cb t d ctx (w : world E (Z → S)) :
  let req := mkRaftCMD (Some h) [mkRequest u1 (cmd_code CSet) [x; k; v] sid1; mkRequest u2 (cmd_code CIncr) [y; k] sid2] None in
  let cell := Cell_ID (d_cell d) in
  a_req ctx = req → a_rb ctx = [] → a_index ctx ≠ 0 → Hdr_CellId h = cell → checkEpoch (d_cell d) req = true → d_pendingRemove d = false →
  d_pendingCMDs d = [mkCmd (Some req) (Some cb) t] → t ≤ a_term ctx → eng_wf (getEngine mask cell (w_data w)) →
  ∃ d' ctx' w' r1 r2,
    doApplyRaftCMD mask (redisWriteHandles mask) (store_MSet mask) d ctx w = Ok (None, d', ctx', w') ∧
    w_responses w' = w_responses w ++ [(cb, mkRaftRsp None [r1; r2] None)] ∧
    StatusResult (Rsp_Reply r1) = Some OKStatusResp ∧
    IntegerResult (Rsp_Reply r2) = Some (memory_IncrBy k 1 (getEngine mask cell (w_data w))).1 ∧
    KV_Get k (getEngine mask cell (w_data w')) = inr (Some v).
Proof.
  cbv zeta. set (req := mkRaftCMD _ _ _). intros Hreq Hrb Hidx Hcell Hep Hrm Hpend Ht Hwf.
  unfold doApplyRaftCMD. rewrite bool_decide_eq_false_2 by done. unfold findCB. rewrite Hreq. cbn [isChangePeerCMD AdminReq req].
  rewrite Hpend. cbn [req_uuid Header req outcome_bind find_pending c_term]. rewrite bool_decide_eq_false_2 by lia.
  cbn [getUUID c_req Header req outcome_bind]. rewrite bool_decide_eq_true_2 by done. cbn [outcome_bind]. simpl d_pendingRemove. rewrite Hrm.
  unfold exec_cmd. rewrite Hreq. cbn [req_uuid Header req outcome_bind]. simpl d_cell. fold req. rewrite Hep. cbn [negb AdminReq req].
  unfold execWriteRequest. rewrite Hreq, Hrb. cbn [Header req Requests]. rewrite Hcell.
  cbn [exec_requests Req_Type].
  replace (redisWriteHandles (S := S) mask (cmd_code CSet)) with (Some (execKVSet (S := S) : @write_handle (Z → S))) by reflexivity.
  replace (redisWriteHandles (S := S) mask (cmd_code CIncr)) with (Some (execKVIncr (S := S) mask : @write_handle (Z → S))) by reflexivity.
  unfold execKVSet, execKVIncr, args_of, Req_Cmd, wok, wcall, wreply. cbn [outcome_bind app KV_IncrBy memoryKVEngine].
  destruct (memory_IncrBy k 1 _) as [n e'] eqn:Hinc. cbn [outcome_bind app].
  assert (eng_wf e') as Hwf' by (unfold memory_IncrBy in Hinc; injection Hinc as <- <-; by apply eng_set_wf).
  cbn -[store_MSet driver_write getApplyStateKey set_engine].
  eexists _, _, _, _, _. split; [reflexivity|]. split_and!; [reflexivity|reflexivity|reflexivity|].
  cbn -[set_engine getEngine]. unfold store_MSet, getEngine, set_engine. rewrite !decide_True by done. cbn. f_equal.
  rewrite eng_get_map, eng_set_map by auto using eng_set_wf. by rewrite lookup_insert_eq.
Qed.
End batched.

(** ** Concrete instances *)
(** Texts of numbers that say nothing, engines that hold nothing. *)
#[local] Instance sample_floats : FloatText := {| FormatFloat64ToBytes _ := [x30]; StrFloat64 _ := (0, None); FormatFloat_ok _ := eq_refl |}.
Lemma sample_line : no_LF [].
Proof. by intros ?%not_elem_of_nil. Qed.
#[local] Instance sample_errors : ErrorText :=
  {| ParseIntError _ _ := []; ParseFloatError _ _ := []; ParseIntError_line _ _ := sample_line; ParseFloatError_line _ _ := sample_line |}.
Section idle.
Context {S : Type}.
Definition idle_hash : HashEngine S := {|
  HSet _ _ _ e := (inr 0, e); HGet _ _ _ := inr None; HDel _ _ e := (inr 0, e); HExists _ _ _ := inr false; HKeys _ _ := inr None; HVals _ _ := inr None;
  HGetAll _ _ := inr None; HScanGet _ _ _ _ := inr None; HLen _ _ := inr 0; HMGet _ fs _ := (Some (replicate (length fs) []), []); HMSet _ _ _ e := (inr (), e);
  HSetNX _ _ _ e := (inr 0, e); HStrLen _ _ _ := inr 0; HIncrBy _ _ _ e := (inr [x30], e);
  HMGet_length _ fs _ _ := ltac:(intros [= <-]; by rewrite length_replicate) |}.
Definition idle_list : ListEngine S := {|
  LIndex _ _ _ := inr None; LInsert _ _ _ _ e := (inr 0, e); LLen _ _ := inr 0; LPop _ e := (inr None, e); LPush _ _ e := (inr 0, e); LPushX _ _ e := (inr 0, e);
  LRange _ _ _ _ := inr None; LRem _ _ _ e := (inr 0, e); LSet _ _ _ e := (inr (), e); LTrim _ _ _ e := (inr (), e); RPop _ e := (inr None, e);
  RPush _ _ e := (inr 0, e); RPushX _ _ e := (inr 0, e) |}.
Definition idle_set : SetEngine S := {|
  SAdd _ _ e := (inr 0, e); SRem _ _ e := (inr 0, e); SCard _ _ := inr 0; SMembers _ _ := inr None; SIsMember _ _ _ := inr 0; SPop _ e := (inr None, e) |}.
Definition idle_zset : ZSetEngine S := {|
  ZAdd _ _ _ e := (inr 0, e); ZCard _ _ := inr 0; ZCount _ _ _ _ := inr 0; ZIncrBy _ _ _ e := (inr None, e); ZLexCount _ _ _ _ := inr 0; ZRange _ _ _ _ := inr None;
  ZRangeByLex _ _ _ _ := inr None; ZRangeByScore _ _ _ _ := inr None; ZRank _ _ _ := inr 0; ZRem _ _ e := (inr 0, e); ZRemRangeByLex _ _ _ e := (inr 0, e);
  ZRemRangeByRank _ _ _ e := (inr 0, e); ZRemRangeByScore _ _ _ e := (inr 0, e); ZScore _ _ _ := inr None |}.
End idle.

(** Hashes as maps of maps. *)
Abbreviation hashes := (gmap bytes (gmap bytes bytes)).
Definition fields_of (e : hashes) (k : bytes) : gmap bytes bytes := default ∅ (e !! k).
#[local] Instance map_hash : HashEngine hashes := {|
  HSet _ _ _ e := (inr 0, e); HGet k f e := inr (fields_of e k !! f); HDel k fs e := (inr 0, <[k := foldr delete (fields_of e k) fs]> e); HExists k f e := inr false;
  HKeys _ _ := inr None; HVals _ _ := inr None; HGetAll _ _ := inr None; HScanGet _ _ _ _ := inr None; HLen _ _ := inr 0;
  HMGet k fs e := (Some ((λ f, default [] (fields_of e k !! f)) <$> fs), []);
  HMSet k fs vs e := (inr (), <[k := foldl (λ m '(f, v), <[f := v]> m) (fields_of e k) (zip fs vs)]> e);
  HSetNX _ _ _ e := (inr 0, e); HStrLen _ _ _ := inr 0; HIncrBy _ _ _ e := (inr [x30], e);
  HMGet_length _ fs _ _ := ltac:(intros [= <-]; by rewrite length_fmap) |}.
Lemma delete_all_lookup (fs : list bytes) (m : gmap bytes bytes) f : foldr delete m fs !! f = if decide (f ∈ fs) then None else m !! f.
Proof.
  induction fs as [|g fs IH]; simpl; [done|]. destruct (decide (f = g)) as [->|]; [by rewrite lookup_delete_eq, decide_True by left|].
  rewrite lookup_delete_ne, IH by done. destruct (decide (f ∈ fs)); [by rewrite decide_True by (by right)|]. rewrite decide_False; [done|]. by intros [?|?]%elem_of_cons.
Qed.
#[local] Instance map_hash_laws : HashLaws hashes.
Proof.
  refine {| hash_fields := fields_of |}.
  - done.
  - intros k fs vs e _. eexists. split; [done|]. intros k' f. unfold fields_of. destruct (decide (k' = k)) as [->|]; [by rewrite lookup_insert_eq|by rewrite lookup_insert_ne].
  - intros k fs e. eexists _, _. split; [done|]. intros k' f. unfold fields_of. destruct (decide (k' = k)) as [->|].
    + rewrite lookup_insert_eq. simpl. rewrite delete_all_lookup. destruct (decide (f ∈ fs)); [by rewrite decide_True|by rewrite decide_False by tauto].
    + rewrite lookup_insert_ne by done. by rewrite decide_False by tauto.
Defined.

(** a locks k1 and k2; b is refused k2 after c took k3 and k1 was unlocked. *)
Definition lock_history : list (Z * lock_cmd) := [(7, LLock [x72] [x63] [x33] []); (7, LUnlock [x72] [x31] [])].
Definition lock_start : redisBatch * applyMetrics * (Z → hashes) := ([], emptyApplyMetrics, λ _, ∅).
Lemma lock_excludes_others_witness : ∃ s1 s2,
  exec_lock 0 7 (LLock [x72] [x61] [x31] [[x32]]) lock_start = Ok (response (status_reply OKStatusResp), s1) ∧ run_locks 0 lock_history s1 = Ok s2 ∧
  ∃ key' holder, exec_lock 0 7 (LLock [x72] [x62] [x32] []) s2 = Ok (response (status_reply (key' ++ already_locked ++ holder)), s2).
Proof.
  eexists _, _. split; [reflexivity|]. split; [reflexivity|].
  eapply (lock_excludes_others (S := hashes) 0 7 [x72] [x61] [x31] [[x32]] lock_start _ lock_history _ [x62] [x32] [] [x32]); [done|reflexivity| |reflexivity|..].
  - repeat constructor; simpl; [tauto|]. intros [_ Hin]. apply list_elem_of_singleton in Hin. done.
  - right; left.
  - left.
  - done.
Defined.

(** GET and SET of a store with the memory engine. *)
Abbreviation tree := (list (treeItem bytes)).
#[local] Instance tree_engine : Engine bytes tree := memory_engine.
#[local] Existing Instances idle_hash idle_list idle_set idle_zset.
Definition sample_get : Request := mkRequest [] (cmd_code CGet) [[x67]; [x6b]] 1.
Lemma handlers_answer_witness : ∃ h rsp, redisReadHandles (S := tree) 0 (cmd_code CGet) = Some h ∧ h 7 sample_get (λ _, eng_empty) = Ok rsp ∧
  (writable (Rsp_Reply rsp) → answered CGet (Rsp_Reply rsp)).
Proof.
  eexists. destruct (proj2 (handlers_answer (S := tree) 0 7 sample_get ltac:(done)) CGet _ (λ _, eng_empty) eq_refl) as (rsp & Hrsp & Ha).
  exists rsp. split; [reflexivity|]. split; [exact Hrsp|exact Ha].
Defined.

Definition sample_cell : Cell := mkCell 7 [] [] (mkCellEpoch 1 1) [mkPeer 1 1].
Definition sample_header : RaftRequestHeader := mkReqHeader 7 (mkPeer 1 1) true [x01] (mkCellEpoch 1 1) 5.
Definition sample_writes : RaftCMDRequest :=
  mkRaftCMD (Some sample_header) [mkRequest [] (cmd_code CSet) [[x73]; [x6b]; [x35]] 1; mkRequest [] (cmd_code CIncr) [[x69]; [x6b]] 1] None.
Definition sample_delegate : applyDelegate := mkDelegate 1 sample_cell false emptyApplyState 5 5 [mkCmd (Some sample_writes) (Some 3) 5] None.
Definition sample_ctx : applyContext := mkApplyCtx [] [] emptyApplyState sample_writes 6 5 emptyApplyMetrics.
Definition sample_world : world mem (Z → tree) := mkWorld (λ _, eng_empty (Engine := memory_engine (T := mem))) (λ _, eng_empty) [] [].
Lemma batched_set_undoes_incr_witness : ∃ d' ctx' w',
  doApplyRaftCMD (Engine0 := memory_engine (T := mem)) 0 (redisWriteHandles 0) (store_MSet 0) sample_delegate sample_ctx sample_world = Ok (None, d', ctx', w') ∧
  KV_Get [x6b] (getEngine 0 7 (w_data w')) = inr (Some [x35]).
Proof.
  destruct (batched_set_undoes_incr (S := tree) (Engine0 := memory_engine (T := mem)) 0 [x73] [x6b] [x35] [x69] [] [] 1 1 sample_header 3 5 sample_delegate sample_ctx sample_world)
    as (d' & ctx' & w' & _ & _ & Ha & _ & _ & _ & Hk); try reflexivity; try done; [apply eng_empty_wf|].
  exists d', ctx', w'. split; [exact Ha|exact Hk].
Defined.
