(* ===== verification/Proxy.v ===== *)
(** * The proxy

    pkg/proxy: the connection of a client (session.go, [doConnection]), commands
    over several keys (aggregation.go), the queues of the workers and of requests
    that wait for a newer view of the cluster (proxy.go), connections to stores
    (conn.go) and the table of requests that wait for a response (routing.go, in
    Routing).  A request is shared by queues, backends and the table, a session by
    the requests of its client: both live in heaps and are passed as pointers.
    Every definition is what one goroutine does between two waits.  The answers
    of the network and of PD are arguments.  A panic ends the process, except in
    the goroutine that reads a client, where the network library recovers.
    [px_done] is a history variable: the requests whose [done] or [errorDone] was
    called. *)

From S2P Require Import Prelude Encoding Meta BTree CellTree Queue Strconv Goetty Resp Codec RaftTypes RedisTable Reply Routing.

Abbreviation res A := (outcome unit A).

(** ** Requests *)
Definition spointer : Type := nat.
Definition rpointer : Type := nat.
(** A request and the message it is sent as; [raftReq] is never nil.  A ping has
    no session. *)
Record req := mkReq {
  rq_rs : option spointer;
  rq_uuid : bytes;
  rq_cmd : Command;
  rq_epoch : Z;
  rq_retries : Z;
}.
Definition newReqUUID (id : bytes) (cmd : Command) (rs : spointer) : req := mkReq (Some rs) id cmd 0 0.
Definition pingReq : req := mkReq None [] [[x70; x69; x6e; x67]] 0 0.
Definition set_epoch (e : Z) (r : req) : req := mkReq (rq_rs r) (rq_uuid r) (rq_cmd r) e (rq_retries r).
Definition add_retry (r : req) : req := mkReq (rq_rs r) (rq_uuid r) (rq_cmd r) (rq_epoch r) (rq_retries r + 1).
Definition raftReq (r : req) : Request := mkRequest (rq_uuid r) 0 (rq_cmd r) 0.

(** ** aggregation.go *)
Inductive mergeFn := MGetMerge | MSetMerge.
Record aggregationReq := mkAgg { ag_reply : Z; ag_parts : list (option Response); ag_merge : mergeFn }.
Definition newAggregationReq (n : nat) (f : mergeFn) : aggregationReq := mkAgg (Z.of_nat n) (replicate n None) f.
Definition addPart (index : Z) (rsp : Response) (a : aggregationReq) : res (bool * aggregationReq) :=
  if bool_decide (0 ≤ index < Z.of_nat (length (ag_parts a))) then
    let reply := ag_reply a - 1 in
    Ok (bool_decide (reply = 0), mkAgg reply (<[Z.to_nat index := Some rsp]> (ag_parts a)) (ag_merge a))
  else Panic.
(** Parts that are nil are dereferenced. *)
Fixpoint all_parts (l : list (option Response)) : res (list Response) :=
  match l with
  | [] => Ok []
  | None :: _ => Panic
  | Some r :: l' => let! rs := all_parts l' in Ok (r :: rs)
  end.
Definition plain_response (r : Reply) : Response := mkResponse [] 0 0 NoError r.
Definition doMGetMerge (rsps : list (option Response)) : res Response :=
  let! rsps := all_parts rsps in
  Ok (plain_response (slices_reply (Some ((λ r, default [] (BulkResult (Rsp_Reply r))) <$> rsps)) None)).
Fixpoint mset_merge (rsps : list (option Response)) (value : option Response) : res (option Response) :=
  match rsps with
  | [] => Ok value
  | None :: _ => Panic
  | Some rsp :: rsps' =>
      match ErrorResult (Rsp_Reply rsp) with
      | Some (_ :: _) => Ok (Some rsp)
      | _ => mset_merge rsps' (Some rsp)
      end
  end.
(** The response of no part is nil, which the writer dereferences. *)
Definition doMSetMerge (rsps : list (option Response)) : res Response :=
  let! v := mset_merge rsps None in match v with Some r => Ok r | None => Panic end.
Definition merge (a : aggregationReq) : res Response :=
  match ag_merge a with MGetMerge => doMGetMerge (ag_parts a) | MSetMerge => doMSetMerge (ag_parts a) end.

Definition sep : byte := x23.
Definition isAggregationPart (id : bytes) : bool := bool_decide (16 < length id)%nat.
(** bytes.Split at every separator. *)
Fixpoint Split (l : bytes) : list bytes :=
  match l with
  | [] => [[]]
  | c :: l' =>
      let rest := Split l' in
      if bool_decide (c = sep) then [] :: rest
      else match rest with [] => [[c]] | w :: ws => (c :: w) :: ws end
  end.
Definition parseStrInt64 (data : bytes) : Z := (ParseInt data).1.
Definition parseAggregationPart (id : bytes) : res (bytes * Z) :=
  match Split id with
  | d0 :: d1 :: _ => Ok (d0, parseStrInt64 d1)
  | _ => Panic
  end.
(** [bytes.Join([][]byte{id, []byte(fmt.Sprintf("%d", idx))}, sep)] *)
Definition part_uuid (id : bytes) (idx : nat) : bytes := id ++ [sep] ++ Itoa idx.
Definition cmdSet : bytes := [x53; x45; x54].
Definition cmdGet : bytes := [x47; x45; x54].

(** ** session.go *)
Record redisSession := mkRSession {
  ps_resps : Queue Response;
  ps_aggregations : gmap bytes aggregationReq;
  ps_connected : bool;
  ps_out : bytes;
}.
Definition newSession : redisSession := mkRSession New ∅ true [].
Definition set_resps (q : Queue Response) (s : redisSession) : redisSession := mkRSession q (ps_aggregations s) (ps_connected s) (ps_out s).
Definition set_aggregations (m : gmap bytes aggregationReq) (s : redisSession) : redisSession := mkRSession (ps_resps s) m (ps_connected s) (ps_out s).
Definition session_close (s : redisSession) : redisSession := set_resps (Dispose (ps_resps s)).2 s.
Definition addAggregation (id : bytes) (a : aggregationReq) (s : redisSession) : redisSession := set_aggregations (<[id := a]> (ps_aggregations s)) s.
Definition put_resp (rsp : Response) (s : redisSession) : redisSession := set_resps (Put (λ _, false) [rsp] (ps_resps s)).2 s.
Definition session_resp (rsp : Response) (s : redisSession) : res redisSession :=
  if negb (isAggregationPart (Rsp_UUID rsp)) then Ok (put_resp rsp s)
  else
    let! (id, index) := parseAggregationPart (Rsp_UUID rsp) in
    match ps_aggregations s !! id with
    | None => Ok s
    | Some a =>
        let! (complete, a) := addPart index rsp a in
        let s := set_aggregations (<[id := a]> (ps_aggregations s)) s in
        if complete then let! rsp := merge a in Ok (put_resp rsp s) else Ok s
    end.
Definition errorResp (err : bytes) (s : redisSession) : res redisSession := session_resp (plain_response (error_reply err)) s.
Definition batch : Z := 64.
Section writer.
Context `{!FloatText}.
Fixpoint write_all (rsps : list Response) : outcome buf_error bytes :=
  match rsps with
  | [] => Ok []
  | r :: rsps' => let! w := doResp (Rsp_Reply r) in let! ws := write_all rsps' in Ok (w ++ ws)
  end.
(** One turn of [writeLoop] of a session, which nothing recovers from a panic. *)
Definition session_writeLoop (s : redisSession) : res redisSession :=
  match Poll (mkSema 0 batch) (ps_resps s) with
  | (Ok (Polled rsps), q) =>
      if ps_connected s then
        match write_all rsps with
        | Ok w => Ok (mkRSession q (ps_aggregations s) true (ps_out s ++ w))
        | _ => Panic
        end
      else Ok (set_resps q s)
  | (Ok Blocked, _) => Ok s
  | (_, q) => Ok (set_resps q s)
  end.
End writer.

(** ** The proxy *)
(** A backend; [bc_sent] are the messages written to the store. *)
Record backend := mkBackend { bc_connected : bool; bc_reqs : Queue rpointer; bc_sent : list Request }.
Record RedisProxy (T : Type) := mkProxy {
  px_ranges : T;
  px_stores : gmap Z Store;
  px_cellLeaderAddrs : gmap Z string;
  px_bcs : gmap string backend;
  px_routing : list (gmap bytes rpointer);
  px_syncEpoch : Z;
  px_reqs : list (Queue rpointer);
  px_retries : Queue rpointer;
  px_bcAddrs : list string;
  px_rrNext : Z;
  px_sessions : gmap spointer redisSession;
  px_heap : gmap rpointer req;
  px_done : list rpointer;
}.
Arguments mkProxy {T}.
Arguments px_ranges {T} _.
Arguments px_stores {T} _.
Arguments px_cellLeaderAddrs {T} _.
Arguments px_bcs {T} _.
Arguments px_routing {T} _.
Arguments px_syncEpoch {T} _.
Arguments px_reqs {T} _.
Arguments px_retries {T} _.
Arguments px_bcAddrs {T} _.
Arguments px_rrNext {T} _.
Arguments px_sessions {T} _.
Arguments px_heap {T} _.
Arguments px_done {T} _.

(** *** Configuration *)
(** [WorkerCount] and [SupportCMDs] of Cfg; [px_hashed] says that [initKeyConvert]
    found more than one initial cell. *)
Record Cfg := mkCfg { WorkerCount : Z; SupportCMDs : list bytes; px_hashed : bool }.
Definition initKeyConvert (InitCellCount : Z) : bool := bool_decide (1 < InitCellCount).

Section proxy.
Context {T : Type} `{OT : !OrderedTree CellItem Less T} (cfg : Cfg).
Abbreviation proxy := (RedisProxy T).
Definition keyConvertFun (key : bytes) (do : bytes → Cell) : Cell := (if px_hashed cfg then Uint64Convert else NoConvert) key do.
Definition supportCmds (cmd : bytes) : bool := bool_decide (cmd ∈ SupportCMDs cfg).
Definition initQueues : list (Queue rpointer) := replicate (Z.to_nat (WorkerCount cfg)) New.
Definition NewRedisProxy : proxy :=
  mkProxy NewCellTree ∅ ∅ ∅ newRouting 0 initQueues New [] 0 ∅ ∅ [].

Definition set_view (t : T) (st : gmap Z Store) (leaders : gmap Z string) (epoch : Z) (p : proxy) : proxy :=
  mkProxy t st leaders (px_bcs p) (px_routing p) epoch (px_reqs p) (px_retries p) (px_bcAddrs p) (px_rrNext p) (px_sessions p) (px_heap p) (px_done p).
Definition set_bcs (bcs : gmap string backend) (addrs : list string) (p : proxy) : proxy :=
  mkProxy (px_ranges p) (px_stores p) (px_cellLeaderAddrs p) bcs (px_routing p) (px_syncEpoch p) (px_reqs p) (px_retries p) addrs (px_rrNext p) (px_sessions p) (px_heap p) (px_done p).
Definition set_routing (r : list (gmap bytes rpointer)) (p : proxy) : proxy :=
  mkProxy (px_ranges p) (px_stores p) (px_cellLeaderAddrs p) (px_bcs p) r (px_syncEpoch p) (px_reqs p) (px_retries p) (px_bcAddrs p) (px_rrNext p) (px_sessions p) (px_heap p) (px_done p).
Definition set_reqs (q : list (Queue rpointer)) (p : proxy) : proxy :=
  mkProxy (px_ranges p) (px_stores p) (px_cellLeaderAddrs p) (px_bcs p) (px_routing p) (px_syncEpoch p) q (px_retries p) (px_bcAddrs p) (px_rrNext p) (px_sessions p) (px_heap p) (px_done p).
Definition set_retries (q : Queue rpointer) (p : proxy) : proxy :=
  mkProxy (px_ranges p) (px_stores p) (px_cellLeaderAddrs p) (px_bcs p) (px_routing p) (px_syncEpoch p) (px_reqs p) q (px_bcAddrs p) (px_rrNext p) (px_sessions p) (px_heap p) (px_done p).
Definition set_rrNext (n : Z) (p : proxy) : proxy :=
  mkProxy (px_ranges p) (px_stores p) (px_cellLeaderAddrs p) (px_bcs p) (px_routing p) (px_syncEpoch p) (px_reqs p) (px_retries p) (px_bcAddrs p) n (px_sessions p) (px_heap p) (px_done p).
Definition set_sessions (m : gmap spointer redisSession) (p : proxy) : proxy :=
  mkProxy (px_ranges p) (px_stores p) (px_cellLeaderAddrs p) (px_bcs p) (px_routing p) (px_syncEpoch p) (px_reqs p) (px_retries p) (px_bcAddrs p) (px_rrNext p) m (px_heap p) (px_done p).
Definition set_heap (m : gmap rpointer req) (p : proxy) : proxy :=
  mkProxy (px_ranges p) (px_stores p) (px_cellLeaderAddrs p) (px_bcs p) (px_routing p) (px_syncEpoch p) (px_reqs p) (px_retries p) (px_bcAddrs p) (px_rrNext p) (px_sessions p) m (px_done p).
Definition add_done (r : rpointer) (p : proxy) : proxy :=
  mkProxy (px_ranges p) (px_stores p) (px_cellLeaderAddrs p) (px_bcs p) (px_routing p) (px_syncEpoch p) (px_reqs p) (px_retries p) (px_bcAddrs p) (px_rrNext p) (px_sessions p) (px_heap p) (px_done p ++ [r]).
Definition update_req (f : req → req) (r : rpointer) (p : proxy) : proxy := set_heap (alter f r (px_heap p)) p.
Definition getSyncEpoch (p : proxy) : Z := px_syncEpoch p.

(** A pointer that dangles panics, as a nil pointer would. *)
Definition with_req {A} (r : rpointer) (p : proxy) (k : req → res A) : res A := match px_heap p !! r with Some q => k q | None => Panic end.
Definition with_session (f : redisSession → res redisSession) (s : spointer) (p : proxy) : res proxy :=
  match px_sessions p !! s with
  | None => Panic
  | Some rs => let! rs := f rs in Ok (set_sessions (<[s := rs]> (px_sessions p)) p)
  end.
(** [r.done] and [r.errorDone] *)
Definition req_done (r : rpointer) (rsp : Response) (p : proxy) : res proxy :=
  with_req r p (λ q, match rq_rs q with None => Ok p | Some s => let! p := with_session (session_resp rsp) s p in Ok (add_done r p) end).
Definition req_errorDone (r : rpointer) (err : bytes) (p : proxy) : res proxy :=
  with_req r p (λ q, match rq_rs q with None => Ok p | Some s => let! p := with_session (errorResp err) s p in Ok (add_done r p) end).

(** *** What PD tells *)
Definition doRefreshRange (r : Range) (p : proxy) : proxy :=
  let leader := default (mkStore 0 EmptyString [] UP EmptyString) (LeaderStore r) in
  set_view (Update (px_ranges p) (Range_Cell r)) (<[Store_ID leader := leader]> (px_stores p))
    (<[Cell_ID (Range_Cell r) := ClientAddress leader]> (px_cellLeaderAddrs p)) (px_syncEpoch p) p.
Definition bump_epoch (p : proxy) : proxy := set_view (px_ranges p) (px_stores p) (px_cellLeaderAddrs p) (u64 (px_syncEpoch p + 1)) p.
Definition refreshRange (r : Range) (p : proxy) : proxy := bump_epoch (doRefreshRange r p).
Definition clean (p : proxy) : proxy := set_view (px_ranges p) ∅ (px_cellLeaderAddrs p) (px_syncEpoch p) p.
(** [rsp] are the ranges of [GetLastRanges]; without them the process stops.  The
    epoch cannot have moved since it was read in the same turn. *)
Definition refreshRanges (rsp : option (list Range)) (p : proxy) : res proxy :=
  match rsp with
  | None => Panic
  | Some rs => Ok (bump_epoch (foldl (λ p r, doRefreshRange r p) (clean p) rs))
  end.
Definition string_leb (a b : string) : Prop := ble (String.list_byte_of_string a) (String.list_byte_of_string b).
#[export] Instance string_leb_dec a b : Decision (string_leb a b) := ble_dec _ _.
Definition sort_strings (l : list string) : list string := merge_sort string_leb l.
(** An error of [ListStore] is logged, and the nil response dereferenced. *)
Definition refreshStores (rsp : option (list Store)) (p : proxy) : res proxy :=
  match rsp with
  | None => Panic
  | Some stores => Ok (set_bcs (px_bcs p) (sort_strings (ClientAddress <$> stores)) p)
  end.
(** The loop of [initWatcher]; events carry the range of a cell. *)
Inductive watch_event := WInit (ranges : option (list Range)) (stores : option (list Store)) | WCell (r : Range) | WStore.
Definition on_watch_event (e : watch_event) (p : proxy) : res proxy :=
  match e with
  | WInit ranges stores => let! p := refreshRanges ranges p in refreshStores stores p
  | WCell r => Ok (refreshRange r p)
  | WStore => Ok p
  end.

(** *** Queues *)
Definition put_retries (r : rpointer) (p : proxy) : proxy := set_retries (Put (λ _, false) [r] (px_retries p)).2 p.
Definition retry (r : rpointer) (p : proxy) : proxy := put_retries r (update_req add_retry r p).
Definition put_reqs (index : Z) (r : rpointer) (p : proxy) : res proxy :=
  match px_reqs p !! Z.to_nat index with
  | Some q => Ok (set_reqs (<[Z.to_nat index := (Put (λ _, false) [r] q).2]> (px_reqs p)) p)
  | None => Panic
  end.
Definition addToForward (r : rpointer) (p : proxy) : res proxy :=
  with_req r p (λ q,
    let p := if bool_decide (rq_retries q = 0) then update_req (set_epoch (getSyncEpoch p)) r p else p in
    match rq_cmd q !! 1%nat with
    | None => put_reqs 0 r p
    | Some key =>
        let c := Search (px_ranges p) key in
        put_reqs (Z.land (u64 (WorkerCount cfg - 1)) (Cell_ID c)) r p
    end).

(** *** Choosing a store *)
Definition search (p : proxy) (value : bytes) : Cell := Search (px_ranges p) value.
Definition getLeaderStoreAddr (key : bytes) (p : proxy) : string * Z :=
  let cell := keyConvertFun key (search p) in
  (default EmptyString (px_cellLeaderAddrs p !! Cell_ID cell), Cell_ID cell).
(** The first cell; there may be none. *)
Definition getRandomStoreAddr (p : proxy) : res string :=
  match Ascend (px_ranges p) (λ (_ : option Cell) cell, (Some cell, false)) None with
  | None => Panic
  | Some target => Ok (default EmptyString (px_cellLeaderAddrs p !! Cell_ID target))
  end.
Definition getRRStoreAddr (p : proxy) : res (string * proxy) :=
  let total := Z.of_nat (length (px_bcAddrs p)) in
  if bool_decide (total = 0) then Ok (EmptyString, p)
  else
    let next := i64 (px_rrNext p + 1) in
    let idx := i64 (next - 1) in
    let idx := if bool_decide (total ≤ idx) then Z.rem idx total else idx in
    if bool_decide (idx < 0) then Panic
    else match px_bcAddrs p !! Z.to_nat idx with Some target => Ok (target, set_rrNext next p) | None => Panic end.

(** *** conn.go *)
Definition put_backend (addr : string) (b : backend) (p : proxy) : proxy := set_bcs (<[addr := b]> (px_bcs p)) (px_bcAddrs p) p.
Definition createConn (addr : string) (p : proxy) : backend * proxy :=
  match px_bcs p !! addr with
  | Some b => (b, p)
  | None =>
      let b := mkBackend false New [] in
      let bcs := <[addr := b]> (px_bcs p) in
      (b, set_bcs bcs (sort_strings (elements (dom bcs))) p)
  end.
Definition getConnLocked (addr : string) (p : proxy) : backend * proxy :=
  match px_bcs p !! addr with Some b => (b, p) | None => createConn addr p end.
(** [ok] is the answer of the network to [Connect]. *)
Definition checkConnect (ok : bool) (addr : string) (b : backend) (p : proxy) : bool * proxy :=
  if bc_connected b then (true, p)
  else if ok then (true, put_backend addr (mkBackend true (bc_reqs b) (bc_sent b)) p)
  else (false, p).
Definition getConn (ok : bool) (addr : string) (p : proxy) : bool * proxy :=
  let '(b, p) := getConnLocked addr p in checkConnect ok addr b p.
Definition addReq (addr : string) (r : rpointer) (p : proxy) : res (bool * proxy) :=
  match px_bcs p !! addr with
  | None => Panic
  | Some b =>
      if bc_connected b then
        match Put (λ _, false) [r] (bc_reqs b) with
        | (Ok _, q) => Ok (true, put_backend addr (mkBackend true q (bc_sent b)) p)
        | (_, _) => Ok (false, p)
        end
      else Ok (false, p)
  end.
Definition no_error {A} (o : outcome unit A) : res A := match o with Ok a => Ok a | _ => Panic end.
(** Whether the request is with the backend. *)
Definition forwardTo (ok : bool) (addr : string) (r : rpointer) (p : proxy) : res (bool * proxy) :=
  let '(connected, p) := getConn ok addr p in
  if connected then
    let p := update_req (set_epoch (getSyncEpoch p)) r p in
    with_req r p (λ q,
      let! p := match rq_rs q with
                | None => Ok p
                | Some _ => let! rt := routing_put (rq_uuid q) r (px_routing p) in Ok (set_routing rt p)
                end in
      let! (added, p) := addReq addr r p in
      if added then Ok (true, p)
      else let! (_, rt) := routing_delete (rq_uuid q) (px_routing p) in Ok (false, set_routing rt p))
  else Ok (false, p).

(** *** Workers *)
Definition query : bytes := [x71; x75; x65; x72; x79].
(** The store a request goes to. *)
Definition choose_target (cmd : Command) (p : proxy) : res (string * proxy) :=
  match cmd with
  | name :: key :: _ =>
      if bool_decide (ToLower name = query) then getRRStoreAddr p
      else Ok ((getLeaderStoreAddr key p).1, p)
  | _ => let! a := getRandomStoreAddr p in Ok (a, p)
  end.
Definition handleReq (ok : bool) (r : rpointer) (p : proxy) : res proxy :=
  with_req r p (λ q,
    if bool_decide (0 < rq_retries q) && bool_decide (getSyncEpoch p ≤ rq_epoch q) then Ok (put_retries r p)
    else
      let! (target, p) := choose_target (rq_cmd q) p in
      if bool_decide (target = EmptyString) then
        (* the message of the log quotes the key, even where there is none *)
        match rq_cmd q !! 1%nat with None => Panic | Some _ => Ok (retry r p) end
      else
        let! (forwarded, p) := forwardTo ok target r p in
        if forwarded then Ok p else Ok (retry r p)).
(** A turn of the worker of queue [index]; [oks] are the answers to [Connect]. *)
Fixpoint handle_all (oks : list bool) (rs : list rpointer) (p : proxy) : res proxy :=
  match rs with
  | [] => Ok p
  | r :: rs' => let! p := handleReq (default false (head oks)) r p in handle_all (tail oks) rs' p
  end.
Definition worker_turn (index : nat) (oks : list bool) (p : proxy) : res proxy :=
  match px_reqs p !! index with
  | None => Ok p
  | Some q =>
      match Poll (mkSema 0 batch) q with
      | (Ok (Polled rs), q') => handle_all oks rs (set_reqs (<[index := q']> (px_reqs p)) p)
      | _ => Ok p
      end
  end.
Fixpoint retry_all (rs : list rpointer) (p : proxy) : res proxy :=
  match rs with
  | [] => Ok p
  | r :: rs' =>
      let! p := with_req r p (λ q, if bool_decide (rq_epoch q < getSyncEpoch p) then addToForward r p else Ok (put_retries r p)) in
      retry_all rs' p
  end.
Definition retry_turn (p : proxy) : res proxy :=
  match Poll (mkSema 0 batch) (px_retries p) with
  | (Ok (Polled rs), q') => retry_all rs (set_retries q' p)
  | _ => Ok p
  end.
(** A ping for [target]; [r] is its request. *)
Definition ping (ok : bool) (target : string) (r : rpointer) (p : proxy) : res proxy :=
  if bool_decide (target = EmptyString) then Ok p
  else let! (_, p) := forwardTo ok target r (set_heap (<[r := pingReq]> (px_heap p)) p) in Ok p.

(** *** Backends *)
Definition onResp (rsp : Response) (p : proxy) : res proxy :=
  let! (r, rt) := routing_delete (Rsp_UUID rsp) (px_routing p) in
  let p := set_routing rt p in
  match r with
  | Some r => if bool_decide (Rsp_Type rsp = cmd_code CRaftError) then Ok (retry r p) else req_done r rsp p
  | None => Ok p
  end.
(** A value of [readLoop]; a read that fails closes the connection. *)
Definition backend_read (addr : string) (v : option Response) (p : proxy) : res proxy :=
  match v with
  | Some rsp => if bool_decide (Rsp_UUID rsp = []) then Ok p else onResp rsp p
  | None => match px_bcs p !! addr with Some b => Ok (put_backend addr (mkBackend false (bc_reqs b) (bc_sent b)) p) | None => Ok p end
  end.
Fixpoint error_all (rs : list rpointer) (err : bytes) (p : proxy) : res proxy :=
  match rs with [] => Ok p | r :: rs' => let! p := req_errorDone r err p in error_all rs' err p end.
(** A turn of [writeLoop]: [failed] is the error of [Flush]. *)
Definition backend_write (addr : string) (failed : option bytes) (p : proxy) : res proxy :=
  match px_bcs p !! addr with
  | None => Ok p
  | Some b =>
      match Poll (mkSema 0 batch) (bc_reqs b) with
      | (Ok (Polled rs), q) =>
          match failed with
          | None => Ok (put_backend addr (mkBackend (bc_connected b) q (bc_sent b ++ (raftReq <$> omap (λ r, px_heap p !! r) rs))) p)
          | Some err => error_all rs err (put_backend addr (mkBackend (bc_connected b) q (bc_sent b)) p)
          end
      | _ => Ok p
      end
  end.
(** [close(true)], at the end of the proxy. *)
Definition backend_close (addr : string) (errConnect : bytes) (p : proxy) : res proxy :=
  match px_bcs p !! addr with
  | None => Ok p
  | Some b => let '(rs, q) := Dispose (bc_reqs b) in error_all rs errConnect (put_backend addr (mkBackend false q (bc_sent b)) p)
  end.

(** *** Commands of clients *)
(** The requests of the parts, at fresh pointers from [r] on. *)
Fixpoint forward_parts (id : bytes) (cmds : list Command) (idx : nat) (s : spointer) (r : rpointer) (p : proxy) : res proxy :=
  match cmds with
  | [] => Ok p
  | cmd :: cmds' =>
      let! p := addToForward r (set_heap (<[r := newReqUUID (part_uuid id idx) cmd s]> (px_heap p)) p) in
      forward_parts id cmds' (S idx) s (S r) p
  end.
Definition aggregate (id : bytes) (cmds : list Command) (f : mergeFn) (s : spointer) (r : rpointer) (p : proxy) : res proxy :=
  let! p := with_session (λ rs, Ok (addAggregation id (newAggregationReq (length cmds) f) rs)) s p in
  forward_parts id cmds 0 s r p.
(** Whether the command was handled, or the text of its error. *)
Definition doMGet (id : bytes) (s : spointer) (args : list bytes) (r : rpointer) (p : proxy) : res (bool * proxy) :=
  if bool_decide (length args < 2)%nat then Ok (false, p)
  else let! p := aggregate id ((λ key, [cmdGet; key]) <$> args) MGetMerge s r p in Ok (true, p).
Fixpoint pairs (args : list bytes) : list (bytes * bytes) :=
  match args with a :: b :: args' => (a, b) :: pairs args' | _ => [] end.
Definition doMSet (id : bytes) (s : spointer) (args : list bytes) (r : rpointer) (p : proxy) : outcome bytes (bool * proxy) :=
  if bool_decide (length args < 2)%nat then Ok (false, p)
  else if negb (Nat.even (length args)) then Err (String.list_byte_of_string "error args count: " ++ Itoa (length args))
  else match aggregate id ((λ '(k, v), [cmdSet; k; v]) <$> pairs args) MSetMerge s r p with Ok p => Ok (true, p) | _ => Panic end.
Definition mget : bytes := [x6d; x67; x65; x74].
Definition mset : bytes := [x6d; x73; x65; x74].
Definition notSupport (cmd : bytes) : bytes := String.list_byte_of_string "command not support: " ++ cmd.
(** The body of the loop of [doConnection]: [id] is a fresh UUID, the pointers from
    [r] on are free. *)
Definition on_command (s : spointer) (cmd : Command) (id : bytes) (r : rpointer) (p : proxy) : res proxy :=
  match cmd with
  | [] => Panic
  | name :: args =>
      let cmdStr := ToLower name in
      if negb (supportCmds cmdStr) then with_session (errorResp (notSupport cmdStr)) s p
      else
        let! handled := (if bool_decide (cmdStr = mget) then let! x := doMGet id s args r p in Ok (inr x)
                         else if bool_decide (cmdStr = mset) then
                           match doMSet id s args r p with Ok x => Ok (inr x) | Err e => Ok (inl e) | Panic => Panic end
                         else Ok (inr (false, p))) in
        match handled with
        | inl e => with_session (errorResp e) s p
        | inr (true, p) => Ok p
        | inr (false, p) => addToForward r (set_heap (<[r := newReqUUID id cmd s]> (px_heap p)) p)
        end
  end.
Definition client_connect (s : spointer) (p : proxy) : proxy := set_sessions (<[s := newSession]> (px_sessions p)) p.
Definition client_disconnect (s : spointer) (p : proxy) : res proxy := with_session (λ rs, Ok (session_close rs)) s p.
Section write.
Context `{!FloatText}.
Definition client_write (s : spointer) (p : proxy) : res proxy := with_session session_writeLoop s p.
End write.
End proxy.
