(* ===== verification/ProxyProps.v ===== *)
(** * Theorems about the proxy

    Commands over several keys: their parts are answered once, in the order of
    the keys, whatever the order the stores answer in, unless the id of the
    command happens to contain the separator of its parts, and then never.
    Requests are neither lost nor duplicated by the queues.  Replies of a
    connection may be swapped, and a reply of ZRANGEBYSCORE stops the proxy. *)

From S2P Require Import Prelude Encoding Meta BTree CellTree KVTree RaftTypes RaftLog RaftApply RedisTable Propose Strconv Goetty Resp Codec Reply RedisExec Queue Routing Proxy.

(** ** Commands over several keys *)
(** *** The names of the parts *)
Lemma Split_app (a b : bytes) : sep ∉ a → Split (a ++ sep :: b) = a :: Split b.
Proof.
  induction a as [|c a IH]; intros Hn; cbn [app Split]; [by rewrite bool_decide_eq_true_2|]. apply not_elem_of_cons in Hn as [Hc Hn].
  rewrite bool_decide_eq_false_2 by done. by rewrite IH.
Qed.
Lemma Split_none (a : bytes) : sep ∉ a → Split a = [a].
Proof.
  induction a as [|c a IH]; intros Hn; cbn [Split]; [done|]. apply not_elem_of_cons in Hn as [Hc Hn].
  rewrite bool_decide_eq_false_2 by done. by rewrite IH.
Qed.
Lemma Itoa_no_sep i : sep ∉ Itoa i.
Proof.
  unfold Itoa, FormatInt64ToBytes. rewrite bool_decide_eq_false_2 by lia. destruct (uint_text_spec (Z.of_nat i) ltac:(lia)) as (Hd & _).
  intros Hin. rewrite Forall_forall in Hd. destruct (Hd _ Hin) as [Hlo _]. vm_compute in Hlo. done.
Qed.
Lemma Itoa_nonempty i : Itoa i ≠ [].
Proof. unfold Itoa, FormatInt64ToBytes. rewrite bool_decide_eq_false_2 by lia. by destruct (uint_text_spec (Z.of_nat i) ltac:(lia)) as (_ & ? & _). Qed.
Lemma part_is_part id i : length id = 16%nat → isAggregationPart (part_uuid id i) = true.
Proof. intros Hl. unfold isAggregationPart, part_uuid. apply bool_decide_eq_true_2. rewrite !length_app, Hl. simpl. lia. Qed.
Lemma parse_part id i : sep ∉ id → Z.of_nat i < two63 → parseAggregationPart (part_uuid id i) = Ok (id, Z.of_nat i).
Proof.
  intros Hs Hi. unfold parseAggregationPart, part_uuid. cbn [app]. rewrite Split_app by done. rewrite Split_none by apply Itoa_no_sep.
  unfold parseStrInt64, Itoa. rewrite parse_format; [done|]. unfold is_i64, two63 in *. lia.
Qed.
(** An id that contains the separator is cut short. *)
Lemma parse_part_cut id i : sep ∈ id → ∃ d n, parseAggregationPart (part_uuid id i) = Ok (d, n) ∧ (length d < length id)%nat.
Proof.
  intros Hs. assert (∃ d rest, id = d ++ sep :: rest ∧ sep ∉ d) as (d & rest & -> & Hd).
  { clear i. induction id as [|c id IH]; [by apply elem_of_nil in Hs|]. destruct (decide (c = sep)) as [->|Hc]; [exists [], id; split; [done|apply not_elem_of_nil]|].
    apply elem_of_cons in Hs as [Hs|Hs]; [done|]. destruct (IH Hs) as (d & rest & -> & Hd). exists (c :: d), rest. split; [done|]. by apply not_elem_of_cons. }
  unfold parseAggregationPart, part_uuid. rewrite <-(assoc_L (++)). cbn [app]. rewrite Split_app by done.
  destruct (Split (rest ++ sep :: Itoa i)) as [|w ws] eqn:Hsp.
  - exfalso. revert Hsp. generalize (rest ++ sep :: Itoa i). intros [|c l]; [done|]. cbn [Split]. case_bool_decide; [done|]. by destruct (Split l).
  - exists d, (parseStrInt64 w). split; [done|]. rewrite length_app. simpl. lia.
Qed.

(** *** Parts in any order *)
Definition open_queue {A} (q : Queue A) : Prop := disposed q = false ∧ waiters q = [].
Fixpoint session_resps (rsps : list Response) (s : redisSession) : res redisSession :=
  match rsps with [] => Ok s | r :: rsps' => let! s := session_resp r s in session_resps rsps' s end.
Definition fill (ps : list (option Response)) (prs : list (nat * Response)) : list (option Response) :=
  foldl (λ ps p, <[p.1 := Some p.2]> ps) ps prs.
Lemma length_fill prs : ∀ ps, length (fill ps prs) = length ps.
Proof. induction prs as [|[i r] prs IH]; intros ps; [done|]. cbn [fill foldl]. unfold fill in IH. by rewrite IH, length_insert. Qed.
Lemma lookup_fill prs : ∀ ps i, NoDup prs.*1 → (i < length ps)%nat →
  fill ps prs !! i = match list_find (λ p, p.1 = i) prs with Some (_, (_, r)) => Some (Some r) | None => ps !! i end.
Proof.
  induction prs as [|[j r] prs IH]; intros ps i Hnd Hi; [done|]. rewrite fmap_cons in Hnd. apply NoDup_cons in Hnd as [Hj Hnd].
  cbn [fill foldl]. fold (fill (<[j := Some r]> ps) prs). rewrite IH by (by rewrite ?length_insert). cbn [list_find fst snd].
  destruct (decide (j = i)) as [->|Hne].
  - replace (list_find (λ p, p.1 = i) prs) with (@None (nat * (nat * Response))); [by rewrite list_lookup_insert_eq|]. symmetry. apply list_find_None, Forall_forall. intros [k r'] Hin Hk. simpl in Hk. subst k.
    apply Hj. apply list_elem_of_fmap. by exists (i, r').
  - rewrite list_lookup_insert_ne by done. by destruct (list_find _ prs) as [[k [i' r']]|].
Qed.

Lemma put_resp_items r s : open_queue (ps_resps s) → put_resp r s = set_resps (mkQueue [] (items (ps_resps s) ++ [r]) false) s.
Proof. intros [Hd Hw]. unfold put_resp, Put, signal. rewrite Hd, Hw. done. Qed.

(** The last part completes the command, and no other does. *)
Lemma parts_complete id f prs : ∀ ps s, sep ∉ id → length id = 16%nat → prs ≠ [] → Forall (λ p, Z.of_nat p.1 < two63 ∧ (p.1 < length ps)%nat ∧ Rsp_UUID p.2 = part_uuid id p.1) prs →
  ps_aggregations s !! id = Some (mkAgg (Z.of_nat (length prs)) ps f) → open_queue (ps_resps s) →
  session_resps prs.*2 s = (let! m := merge (mkAgg 0 (fill ps prs) f) in
    Ok (mkRSession (mkQueue [] (items (ps_resps s) ++ [m]) false) (<[id := mkAgg 0 (fill ps prs) f]> (ps_aggregations s)) (ps_connected s) (ps_out s))).
Proof.
  induction prs as [|[i r] prs IH]; intros ps s Hsep Hlen Hne HF Hagg Hq; [done|]. inversion_clear HF as [|?? (Hi & Hil & Hu) HF']. cbn [fst snd] in Hi, Hil, Hu.
  rewrite fmap_cons. cbn [session_resps snd fill foldl fst]. unfold session_resp at 1. rewrite Hu, part_is_part, parse_part by done. cbn [negb outcome_bind].
  rewrite Hagg. unfold addPart. cbn [ag_parts ag_reply ag_merge length]. rewrite (bool_decide_eq_true_2 (0 ≤ Z.of_nat i < _)) by lia.
  cbn [outcome_bind]. rewrite Nat2Z.id. fold (fill (<[i := Some r]> ps) prs). destruct prs as [|p prs].
  - rewrite bool_decide_eq_true_2 by (simpl; lia). change (Z.of_nat 1 - 1) with 0. unfold fill. cbn [foldl]. destruct (merge _) as [m| |]; cbn [outcome_bind]; [|done|done].
    rewrite put_resp_items by done. done.
  - rewrite bool_decide_eq_false_2 by (simpl; lia). cbn [outcome_bind].
    replace (Z.of_nat (S (length (p :: prs))) - 1) with (Z.of_nat (length (p :: prs))) by (simpl; lia).
    rewrite (IH (<[i := Some r]> ps)); [|done|done|done| |cbn [ps_aggregations set_aggregations]; by rewrite lookup_insert_eq|done].
    + cbn [ps_aggregations set_aggregations ps_resps ps_connected ps_out]. destruct (merge _); cbn [outcome_bind]; [|done|done]. by rewrite insert_insert_eq.
    + eapply Forall_impl; [exact HF'|]. intros [j r'] (? & ? & ?). by rewrite length_insert.
Qed.

(** All parts, one for each key: [rs] are the responses in the order of the keys. *)
Lemma fill_all n prs : NoDup prs.*1 → prs.*1 ≡ₚ seq 0 n → ∃ rs, fill (replicate n None) prs = Some <$> rs ∧ length rs = n ∧
  ∀ i r, rs !! i = Some r → (i, r) ∈ prs.
Proof.
  intros Hnd Hp.
  assert (∀ i, (i < n)%nat → ∃ r, fill (replicate n None) prs !! i = Some (Some r) ∧ (i, r) ∈ prs) as Hall.
  { intros i Hi. rewrite lookup_fill by (by rewrite ?length_replicate). assert (i ∈ prs.*1) as Hin by (rewrite Hp; apply elem_of_seq; lia).
    apply list_elem_of_fmap in Hin as ([j r] & Hj & Hin). simpl in Hj. subst j.
    destruct (list_find (λ p, p.1 = i) prs) as [[k [j r']]|] eqn:Hf.
    - apply list_find_Some in Hf as (Hk & Hj & _). simpl in Hj. subst j. exists r'. split; [done|]. by eapply list_elem_of_lookup_2.
    - apply list_find_None in Hf. rewrite Forall_forall in Hf. by destruct (Hf _ Hin). }
  exists ((λ x, default emptyResponse x) <$> fill (replicate n None) prs). rewrite length_fmap, length_fill, length_replicate. split_and!; [|done|].
  - apply list_eq. intros i. rewrite !list_lookup_fmap. destruct (decide (i < n)%nat) as [Hi|Hi].
    + destruct (Hall i Hi) as (r & -> & _). done.
    + rewrite !lookup_ge_None_2 by (rewrite length_fill, length_replicate; lia). done.
  - intros i r. rewrite list_lookup_fmap. destruct (decide (i < n)%nat) as [Hi|Hi].
    + destruct (Hall i Hi) as (r' & -> & Hin). by intros [= <-].
    + rewrite lookup_ge_None_2 by (rewrite length_fill, length_replicate; lia). done.
Qed.
(** The responses to the parts, in any order, with the number of their part. *)
Lemma number_parts id n rsps : (Rsp_UUID <$> rsps) ≡ₚ (part_uuid id <$> seq 0 n) →
  ∃ prs, rsps = prs.*2 ∧ prs.*1 ≡ₚ seq 0 n ∧ Forall (λ p, Rsp_UUID p.2 = part_uuid id p.1) prs.
Proof.
  intros Hp. apply Permutation_map_inv in Hp as (idxs & Heq & Hperm). exists (zip idxs rsps).
  assert (length idxs = length rsps) as Hl by (apply (f_equal length) in Heq; by rewrite !length_fmap in Heq).
  rewrite fst_zip, snd_zip by lia. split_and!; [done|done|]. clear Hperm. revert idxs Heq Hl.
  induction rsps as [|r rsps IH]; intros [|i idxs] Heq Hl; [constructor|done|done|]. injection Heq as Hi Heq. constructor; [done|]. apply IH; [done|by injection Hl].
Qed.
Lemma parts_any_order id f n rsps s : sep ∉ id → length id = 16%nat → (0 < n)%nat → Z.of_nat n < two63 →
  (Rsp_UUID <$> rsps) ≡ₚ (part_uuid id <$> seq 0 n) → ps_aggregations s !! id = Some (newAggregationReq n f) → open_queue (ps_resps s) →
  ∃ rs, length rs = n ∧ (∀ i r, rs !! i = Some r → r ∈ rsps ∧ Rsp_UUID r = part_uuid id i) ∧
    session_resps rsps s = (let! m := merge (mkAgg 0 (Some <$> rs) f) in
      Ok (mkRSession (mkQueue [] (items (ps_resps s) ++ [m]) false) (<[id := mkAgg 0 (Some <$> rs) f]> (ps_aggregations s)) (ps_connected s) (ps_out s))).
Proof.
  intros Hsep Hlen Hn Hn63 (prs & -> & Hp & HF)%number_parts Hagg Hq.
  assert (NoDup prs.*1) as Hnd by (rewrite Hp; apply NoDup_seq).
  destruct (fill_all n prs Hnd Hp) as (rs & Hfill & Hrs & Hin). exists rs.
  assert (length prs = n) as Hlp by (rewrite <-(length_fmap fst), Hp; apply length_seq).
  split_and!; [done| |].
  - intros i r Hi%Hin. split; [apply list_elem_of_fmap; by exists (i, r)|]. rewrite Forall_forall in HF. exact (HF _ Hi).
  - rewrite <-Hfill. apply parts_complete; [done|done| | |by rewrite Hlp|done].
    + intros ->. simpl in Hlp. lia.
    + rewrite Forall_forall in *. intros [i r] Hi. simpl. assert (i ∈ prs.*1) as Hii by (apply list_elem_of_fmap; by exists (i, r)).
      rewrite Hp, elem_of_seq in Hii. rewrite length_replicate. split_and!; [lia|lia|exact (HF _ Hi)].
Qed.
Lemma all_parts_Some rs : all_parts (Some <$> rs) = Ok rs.
Proof. induction rs as [|r rs IH]; [done|]. rewrite fmap_cons. cbn [all_parts]. by rewrite IH. Qed.

(** ** Where requests are *)
Definition occ (r : rpointer) (l : list rpointer) : nat := length (filter (r =.) l).
Lemma occ_app r l k : occ r (l ++ k) = (occ r l + occ r k)%nat.
Proof. unfold occ. by rewrite filter_app, length_app. Qed.
Lemma occ_cons r x l : occ r (x :: l) = ((if decide (r = x) then 1 else 0) + occ r l)%nat.
Proof. unfold occ. rewrite filter_cons. by destruct (decide (r = x)). Qed.
Lemma occ_nil r : occ r [] = 0%nat.
Proof. done. Qed.
Lemma occ_concat_insert {A} (f : A → list rpointer) r (l : list A) i x y : l !! i = Some x →
  (occ r (concat (f <$> <[i := y]> l)) + occ r (f x) = occ r (concat (f <$> l)) + occ r (f y))%nat.
Proof.
  revert i. induction l as [|z l IH]; intros [|i] Hi; [done|done| |].
  - injection Hi as ->. change (<[0%nat := y]> (x :: l)) with (y :: l). rewrite !fmap_cons. cbn [concat]. rewrite !occ_app. lia.
  - change (<[S i := y]> (z :: l)) with (z :: <[i := y]> l). rewrite !fmap_cons. cbn [concat]. rewrite !occ_app. specialize (IH i Hi). lia.
Qed.

Section places.
Context {T : Type} `{OT : !OrderedTree CellItem Less T} (cfg : Cfg).
Abbreviation proxy := (RedisProxy T).
Implicit Types (p : proxy) (r : rpointer) (q : req).

(** Pings are not tracked: they have no client. *)
Definition tracked p r : Prop := ∃ q, px_heap p !! r = Some q ∧ is_Some (rq_rs q).
Definition due p r : nat := match px_heap p !! r with Some q => match rq_rs q with Some _ => 1 | None => 0 end | None => 0 end.
Lemma due_tracked p r : tracked p r → due p r = 1%nat.
Proof. intros (q & Hq & [s Hs]). unfold due. by rewrite Hq, Hs. Qed.
(** Whether the request waits for a response, *)
Definition awaiting p r : nat :=
  match px_heap p !! r with Some q => if decide (routed (px_routing p) (rq_uuid q) = Some r) then 1 else 0 | None => 0 end.
(** and at how many places it is: the queue of a worker, the queue of retries, the
    table of requests that wait, or done. *)
Definition place p r : nat :=
  (occ r (concat (items <$> px_reqs p)) + occ r (items (px_retries p)) + awaiting p r + occ r (px_done p))%nat.
Record proxy_wf p : Prop := {
  pw_workers : length (px_reqs p) = Z.to_nat (WorkerCount cfg);
  pw_queues : Forall open_queue (px_reqs p);
  pw_retries : open_queue (px_retries p);
  pw_routing : routing_wf (px_routing p);
  pw_routed u r : routed (px_routing p) u = Some r → ∃ q, px_heap p !! r = Some q ∧ rq_uuid q = u ∧ is_Some (rq_rs q);
  pw_uuids r1 r2 q1 q2 : px_heap p !! r1 = Some q1 → px_heap p !! r2 = Some q2 → is_Some (rq_rs q1) → is_Some (rq_rs q2) →
    rq_uuid q1 = rq_uuid q2 → r1 = r2;
  pw_nonempty r q : px_heap p !! r = Some q → is_Some (rq_rs q) → rq_uuid q ≠ [];
}.
(** [owed] are the requests a goroutine has taken and not yet put anywhere, [fs] those whose client was told that they could not be
    written: they stay in the table, so that a store that got them all the same may answer them again. *)
Record kept (fs : list rpointer) p (owed : list rpointer) : Prop := {
  iv_wf : proxy_wf p;
  iv_place r : (place p r + occ r owed)%nat = (due p r + occ r fs)%nat ∧ (occ r fs ≤ occ r (px_done p))%nat;
}.
Arguments iv_wf {fs} _ _ _.
Arguments iv_place {fs} _ _ _.
Section healthy.
Context {fs : list rpointer}.
Abbreviation inv := (kept fs).

(** What the places depend on. *)
Definition same_places p p' : Prop :=
  px_reqs p' = px_reqs p ∧ px_retries p' = px_retries p ∧ px_routing p' = px_routing p ∧ px_heap p' = px_heap p ∧ px_done p' = px_done p.
Lemma inv_same p p' owed : same_places p p' → inv p owed → inv p' owed.
Proof.
  intros (H1 & H2 & H3 & H4 & H5) [Hw Hp]. destruct Hw as [W1 W2 W3 W4 W5 W6 W7]. split.
  - split; rewrite ?H1, ?H2, ?H3, ?H4; done.
  - intros r. specialize (Hp r). unfold place, awaiting, due in *. by rewrite H1, H2, H3, H4, H5.
Qed.
Lemma same_view t st l e p : same_places p (set_view t st l e p). Proof. done. Qed.
Lemma same_bcs b a p : same_places p (set_bcs b a p). Proof. done. Qed.
Lemma same_rrNext n p : same_places p (set_rrNext n p). Proof. done. Qed.
Lemma same_sessions m p : same_places p (set_sessions m p). Proof. done. Qed.
Lemma same_refl p : same_places p p. Proof. done. Qed.
Lemma same_trans p1 p2 p3 : same_places p1 p2 → same_places p2 p3 → same_places p1 p3.
Proof. intros (?&?&?&?&?) (?&?&?&?&?). split_and!; congruence. Qed.

(** *** Moving one request *)
Lemma put_open {A} (x : A) (qu : Queue A) : open_queue qu → (Put (λ _, false) [x] qu).2 = mkQueue [] (items qu ++ [x]) false.
Proof. intros [Hd Hw]. unfold Put, signal. rewrite Hd, Hw. done. Qed.
Lemma poll_open {A} b (qu : Queue A) xs qu' : open_queue qu → Poll (mkSema 0 b) qu = (Ok (Polled xs), qu') → items qu = xs ++ items qu' ∧ open_queue qu'.
Proof.
  intros [Hd Hw]. unfold Poll. case_bool_decide as Hb; [intros [= <- <-]; done|]. rewrite Hd. destruct (items qu) as [|y l] eqn:Hi; [done|].
  cbn [items_get]. intros [= <- <-]. cbn [items]. split; [by rewrite take_drop|done].
Qed.
Lemma put_retries_inv r owed p : inv p (r :: owed) → inv (put_retries r p) owed.
Proof.
  intros [[W1 W2 W3 W4 W5 W6 W7] Hp]. split.
  - split; try done. unfold put_retries. cbn [px_retries set_retries]. by rewrite put_open.
  - intros r'. specialize (Hp r'). rewrite occ_cons in Hp. unfold place, awaiting, put_retries in *. cbn [px_retries set_retries px_reqs px_heap px_routing px_done] in *.
    rewrite put_open by done. cbn [items]. rewrite occ_app, occ_cons, occ_nil. unfold due in *. cbn [px_heap set_retries]. lia.
Qed.
Lemma put_reqs_inv i r owed p p' : inv p (r :: owed) → put_reqs i r p = Ok p' → inv p' owed ∧ px_heap p' = px_heap p ∧ px_sessions p' = px_sessions p.
Proof.
  intros [[W1 W2 W3 W4 W5 W6 W7] Hp] Heq. unfold put_reqs in Heq. destruct (px_reqs p !! Z.to_nat i) as [qu|] eqn:Hq; [|done].
  pose proof (Forall_lookup_1 _ _ _ _ W2 Hq) as Hqu. rewrite put_open in Heq by done. injection Heq as <-. split_and!; [|done|done]. split.
  - split; try done; cbn [px_reqs set_reqs]; [by rewrite length_insert|]. by apply Forall_insert.
  - intros r'. specialize (Hp r'). rewrite occ_cons in Hp. unfold place, awaiting in *. cbn [px_retries set_reqs px_reqs px_heap px_routing px_done] in *.
    pose proof (occ_concat_insert items r' (px_reqs p) (Z.to_nat i) qu (mkQueue [] (items qu ++ [r]) false) Hq) as Ho.
    cbn [items] in Ho. rewrite occ_app, occ_cons, occ_nil in Ho. unfold due in *. cbn [px_heap set_reqs]. lia.
Qed.
(** Changes of a request that keep its id and client. *)
Lemma update_req_inv f r owed p : (∀ q, rq_uuid (f q) = rq_uuid q ∧ rq_rs (f q) = rq_rs q) → inv p owed → inv (update_req f r p) owed.
Proof.
  intros Hf [[W1 W2 W3 W4 W5 W6 W7] Hp].
  assert (∀ r', ∃ g, px_heap (update_req f r p) !! r' = g <$> px_heap p !! r' ∧ ∀ q, rq_uuid (g q) = rq_uuid q ∧ rq_rs (g q) = rq_rs q) as Hh.
  { intros r'. unfold update_req. cbn [px_heap set_heap]. destruct (decide (r = r')) as [->|Hne].
    - exists f. by rewrite lookup_alter_eq.
    - exists (λ q, q). rewrite lookup_alter_ne by done. by destruct (px_heap p !! r'). }
  split.
  - split; [done..| | |].
    + intros u r' Hr. destruct (W5 u r' Hr) as (q & Hq & Hu & Hs). destruct (Hh r') as (g & Hg & Hgs). exists (g q). rewrite Hg, Hq. destruct (Hgs q) as [-> ->]. done.
    + intros r1 r2 q1 q2. destruct (Hh r1) as (g1 & -> & Hg1), (Hh r2) as (g2 & -> & Hg2).
      intros (a & Ha & ->)%fmap_Some (b & Hb & ->)%fmap_Some. destruct (Hg1 a) as [-> ->], (Hg2 b) as [-> ->]. by apply W6.
    + intros r' q. destruct (Hh r') as (g & -> & Hg). intros (a & Ha & ->)%fmap_Some. destruct (Hg a) as [-> ->]. by apply (W7 r').
  - intros r'. specialize (Hp r'). destruct (Hh r') as (g & Hg & Hgs).
    assert (awaiting (update_req f r p) r' = awaiting p r') as Ha.
    { unfold awaiting. rewrite Hg. destruct (px_heap p !! r') as [q|]; [|done]. cbn [fmap option_fmap option_map]. destruct (Hgs q) as [-> _]. done. }
    assert (due (update_req f r p) r' = due p r') as Ht.
    { unfold due. rewrite Hg. destruct (px_heap p !! r') as [q|]; [|done]. cbn [fmap option_fmap option_map]. by destruct (Hgs q) as [_ ->]. }
    unfold place in *. rewrite Ha, Ht. exact Hp.
Qed.
Lemma retry_inv r owed p : inv p (r :: owed) → inv (retry r p) owed.
Proof. intros Hi. apply put_retries_inv. apply update_req_inv; [done|exact Hi]. Qed.
(** An owed request waits nowhere. *)
Lemma owed_not_routed p r owed q : inv p (r :: owed) → px_heap p !! r = Some q → is_Some (rq_rs q) → routed (px_routing p) (rq_uuid q) = None.
Proof.
  intros [Hw Hp] Hq Hs. specialize (Hp r). rewrite occ_cons, decide_True, due_tracked in Hp by (done || by exists q).
  unfold place, awaiting in Hp. rewrite Hq in Hp. destruct (routed (px_routing p) (rq_uuid q)) as [r'|] eqn:Hr; [|done].
  destruct (pw_routed _ Hw _ _ Hr) as (q' & Hq' & Hu & Hs'). rewrite (pw_uuids _ Hw r' r q' q Hq' Hq Hs' Hs Hu) in *.
  rewrite decide_True in Hp by done. lia.
Qed.
Lemma routing_put_inv p r owed q rt : inv p (r :: owed) → px_heap p !! r = Some q → is_Some (rq_rs q) →
  routing_put (rq_uuid q) r (px_routing p) = Ok rt → inv (set_routing rt p) owed ∧ routed rt (rq_uuid q) = Some r.
Proof.
  intros Hi Hq Hs Hput. pose proof (owed_not_routed p r owed q Hi Hq Hs) as Hnone. destruct Hi as [[W1 W2 W3 W4 W5 W6 W7] Hp].
  destruct (routing_put_spec (px_routing p) (rq_uuid q) r W4) as (rt' & Hput' & Hwf & Hr). rewrite Hput in Hput'. injection Hput' as <-.
  split; [|by rewrite Hr, decide_True]. split.
  - split; [done..| |done|done]. intros u r'. cbn [px_routing set_routing px_heap]. rewrite Hr. case_decide as Hu; [|by apply W5]. intros [= <-]. exists q. by rewrite Hu.
  - intros r'. specialize (Hp r'). rewrite occ_cons in Hp. change (due (set_routing rt p) r') with (due p r').
    unfold place, awaiting in *. cbn [px_reqs px_retries px_done px_heap px_routing set_routing] in *.
    destruct (decide (r' = r)) as [->|Hne] in Hp.
    + rewrite Hq in *. rewrite Hr, (decide_True (P := rq_uuid q = rq_uuid q)) by done. rewrite decide_True by done. rewrite Hnone in Hp.
      rewrite (decide_False (P := None = Some r)) in Hp by done. lia.
    + destruct (px_heap p !! r') as [q'|] eqn:Hq'; [|lia]. rewrite Hr. destruct (decide (rq_uuid q' = rq_uuid q)) as [Hu|Hu]; [|lia].
      rewrite Hu, Hnone in Hp. rewrite (decide_False (P := Some r = Some r')) by congruence. rewrite (decide_False (P := None = Some r')) in Hp by done. lia.
Qed.
(** A response or a failed write takes a request off the table. *)
Lemma routing_delete_inv p u owed o rt : inv p owed → routing_delete u (px_routing p) = Ok (o, rt) →
  o = routed (px_routing p) u ∧ match o with Some r => inv (set_routing rt p) (r :: owed) ∧ tracked p r | None => inv (set_routing rt p) owed end.
Proof.
  intros [[W1 W2 W3 W4 W5 W6 W7] Hp] Hd. destruct (routing_delete_spec (px_routing p) u W4) as (rt' & Hd' & Hwf & Hr). rewrite Hd in Hd'. injection Hd' as -> <-.
  split; [done|].
  assert (proxy_wf (set_routing rt p)) as Hw.
  { split; [done..| |done|done]. intros u' r'. cbn [px_routing set_routing px_heap]. rewrite Hr. case_decide; [done|]. by apply W5. }
  assert (∀ r', (awaiting p r' = awaiting (set_routing rt p) r' + (if decide (routed (px_routing p) u = Some r') then 1 else 0))%nat) as Ha.
  { intros r'. unfold awaiting. cbn [px_heap px_routing set_routing]. destruct (px_heap p !! r') as [q'|] eqn:Hq'.
    - rewrite Hr. destruct (decide (rq_uuid q' = u)) as [<-|Hu].
      + rewrite (decide_False (P := None = Some r')) by done. lia.
      + rewrite (decide_False (P := routed (px_routing p) u = Some r')); [lia|]. intros Hru. destruct (W5 _ _ Hru) as (q & Hq & Hqu & _). congruence.
    - rewrite decide_False; [done|]. intros Hru. destruct (W5 _ _ Hru) as (q & Hq & _). congruence. }
  destruct (routed (px_routing p) u) as [r|] eqn:Hru.
  - split; [|destruct (W5 _ _ Hru) as (q & ? & _ & ?); by exists q]. split; [done|]. intros r'. specialize (Hp r'). specialize (Ha r').
    change (due (set_routing rt p) r') with (due p r'). rewrite occ_cons. unfold place in *. cbn [px_reqs px_retries px_done set_routing] in *.
    destruct (decide (r' = r)) as [->|Hne]; [rewrite (decide_True (P := Some r = Some r)) in Ha by done|rewrite (decide_False (P := Some r = Some r')) in Ha by congruence]; lia.
  - split; [done|]. intros r'. specialize (Hp r'). specialize (Ha r'). change (due (set_routing rt p) r') with (due p r').
    rewrite (decide_False (P := None = Some r')) in Ha by done. unfold place in *. cbn [px_reqs px_retries px_done set_routing] in *. lia.
Qed.
Lemma add_done_inv r owed p : inv p (r :: owed) → inv (add_done r p) owed.
Proof.
  intros [Hw Hp]. split; [by destruct Hw|]. intros r'. specialize (Hp r'). rewrite occ_cons in Hp. change (due (add_done r p) r') with (due p r').
  unfold place in *. change (awaiting (add_done r p) r') with (awaiting p r'). cbn [px_reqs px_retries px_done add_done] in *. rewrite occ_app, occ_cons, occ_nil. lia.
Qed.
(** New requests. *)
Lemma new_req_inv r q owed p : px_heap p !! r = None → is_Some (rq_rs q) → rq_uuid q ≠ [] →
  (∀ r' q', px_heap p !! r' = Some q' → is_Some (rq_rs q') → rq_uuid q' ≠ rq_uuid q) → inv p owed → inv (set_heap (<[r := q]> (px_heap p)) p) (r :: owed).
Proof.
  intros Hn Hs Hne Hu [[W1 W2 W3 W4 W5 W6 W7] Hp]. split.
  - split; [done..| | |].
    + intros u r' Hr. destruct (W5 u r' Hr) as (q' & Hq' & ?). exists q'. cbn [px_heap set_heap]. rewrite lookup_insert_ne by congruence. done.
    + intros r1 r2 q1 q2. cbn [px_heap set_heap]. rewrite !lookup_insert.
      destruct (decide (r = r1)) as [<-|H1], (decide (r = r2)) as [<-|H2]; intros E1 E2 S1 S2 Heq; simplify_eq; [done| | |by eapply W6].
      * by destruct (Hu _ _ E2 S2).
      * by destruct (Hu _ _ E1 S1).
    + intros r' q'. cbn [px_heap set_heap]. rewrite lookup_insert. case_decide; [intros [= <-]; done|by apply W7].
  - intros r'. specialize (Hp r'). rewrite occ_cons.
    assert (awaiting (set_heap (<[r := q]> (px_heap p)) p) r' = awaiting p r') as Ha.
    { unfold awaiting. cbn [px_heap set_heap px_routing]. rewrite lookup_insert. case_decide as Hd; [|done]. subst r'. rewrite Hn.
      rewrite decide_False; [done|]. intros Hr. destruct (W5 _ _ Hr) as (q' & Hq' & _). congruence. }
    unfold place in *. rewrite Ha. cbn [px_reqs px_retries px_done set_heap]. unfold due in *. cbn [px_heap set_heap].
    destruct (decide (r' = r)) as [->|Hne'].
    + rewrite lookup_insert_eq. rewrite Hn in Hp. destruct Hs as [x ->]. lia.
    + rewrite lookup_insert_ne by done. lia.
Qed.

(** *** The handlers *)
Lemma owed_tracked p r owed : inv p (r :: owed) → tracked p r.
Proof.
  intros [_ Hp]. specialize (Hp r). rewrite occ_cons, decide_True in Hp by done. unfold due, place in Hp.
  destruct (px_heap p !! r) as [q|] eqn:Hq; [|lia]. destruct (rq_rs q) as [x|] eqn:Hs; [|lia]. exists q. split; [done|]. rewrite Hs. eauto.
Qed.
Lemma choose_target_same cmd p a p' : choose_target cfg cmd p = Ok (a, p') → same_places p p'.
Proof.
  assert (∀ p' a, (let! a := getRandomStoreAddr p in Ok (a, p)) = Ok (a, p') → same_places p p') as Hrand
    by (intros ?? Heq; destruct (getRandomStoreAddr p); [|done..]; by injection Heq as _ <-).
  unfold choose_target. destruct cmd as [|name [|key cmd]]; [apply Hrand..|]. case_bool_decide; [|by intros [= _ <-]].
  unfold getRRStoreAddr. case_bool_decide; [by intros [= _ <-]|]. case_bool_decide; [done|]. destruct (px_bcAddrs p !! _); [|done]. by intros [= _ <-].
Qed.
Lemma getConn_same ok addr p : same_places p (getConn ok addr p).2.
Proof.
  unfold getConn, getConnLocked, createConn, checkConnect. destruct (px_bcs p !! addr) as [b|]; cbn [bc_connected]; [destruct (bc_connected b)|]; by destruct ok.
Qed.
Lemma addReq_same addr r p b p' : addReq addr r p = Ok (b, p') → same_places p p'.
Proof.
  unfold addReq. destruct (px_bcs p !! addr) as [bc|]; [|done]. destruct (bc_connected bc); [|by intros [= _ <-]].
  destruct (Put _ _ _) as [[]?]; by intros [= _ <-].
Qed.
Lemma forwardTo_inv ok addr r owed p b p' : inv p (r :: owed) → forwardTo ok addr r p = Ok (b, p') → inv p' (if b then owed else r :: owed).
Proof.
  intros Hi. unfold forwardTo. pose proof (getConn_same ok addr p) as Hs. destruct (getConn ok addr p) as [c p1]. cbn [snd] in Hs.
  apply (inv_same _ _ _ Hs) in Hi. destruct c; [|by intros [= <- <-]].
  apply (update_req_inv (set_epoch (getSyncEpoch p1)) r) in Hi; [|done]. revert Hi. generalize (update_req (set_epoch (getSyncEpoch p1)) r p1). clear p p1 Hs. intros p Hi.
  destruct (owed_tracked _ _ _ Hi) as (q & Hq & Hrs). unfold with_req. rewrite Hq. destruct (rq_rs q) as [s|] eqn:Hs; [|by destruct Hrs].
  assert (is_Some (rq_rs q)) as Hsome by (rewrite Hs; eauto).
  destruct (routing_put (rq_uuid q) r (px_routing p)) as [rt| |] eqn:Hput; cbn [outcome_bind]; [|done|done].
  destruct (routing_put_inv p r owed q rt Hi Hq Hsome Hput) as [Hi' Hr].
  destruct (addReq addr r (set_routing rt p)) as [[added p2]| |] eqn:Ha; cbn [outcome_bind]; [|done|done].
  pose proof (addReq_same _ _ _ _ _ Ha) as Hsm. apply (inv_same _ _ _ Hsm) in Hi'. destruct added; [by intros [= <- <-]|].
  destruct (routing_delete (rq_uuid q) (px_routing p2)) as [[o rt2]| |] eqn:Hd; cbn [outcome_bind]; [|done|done]. intros [= <- <-].
  destruct (routing_delete_inv _ _ _ _ _ Hi' Hd) as [Ho Hi2]. destruct Hsm as (_ & _ & Hrt & _). rewrite Hrt in Ho. cbn [px_routing set_routing] in Ho. rewrite Hr in Ho. subst o. exact (proj1 Hi2).
Qed.
Lemma handleReq_inv ok r owed p p' : inv p (r :: owed) → handleReq cfg ok r p = Ok p' → inv p' owed.
Proof.
  intros Hi. unfold handleReq, with_req. destruct (px_heap p !! r) as [q|] eqn:Hq; [|done]. destruct (_ && _); [intros [= <-]; by apply put_retries_inv|].
  destruct (choose_target cfg (rq_cmd q) p) as [[target p1]| |] eqn:Hc; cbn [outcome_bind]; [|done|done]. apply choose_target_same in Hc.
  apply (inv_same _ _ _ Hc) in Hi. case_bool_decide; [case_match; [|done]; intros [= <-]; by apply retry_inv|].
  destruct (forwardTo ok target r p1) as [[b p2]| |] eqn:Hf; cbn [outcome_bind]; [|done|done]. apply (forwardTo_inv _ _ _ owed) in Hf; [|done].
  destruct b; intros [= <-]; [done|]. by apply retry_inv.
Qed.
Lemma handle_all_inv rs : ∀ oks owed p p', inv p (rs ++ owed) → handle_all cfg oks rs p = Ok p' → inv p' owed.
Proof.
  induction rs as [|r rs IH]; intros oks owed p p' Hi; cbn [handle_all]; [by intros [= <-]|].
  destruct (handleReq cfg _ r p) as [p1| |] eqn:Hh; cbn [outcome_bind]; [|done|done]. apply IH. by eapply handleReq_inv.
Qed.
(** A batch taken from a queue is owed. *)
Lemma take_worker_inv index qu rs qu' p : inv p [] → px_reqs p !! index = Some qu → Poll (mkSema 0 batch) qu = (Ok (Polled rs), qu') →
  inv (set_reqs (<[index := qu']> (px_reqs p)) p) (rs ++ []).
Proof.
  intros [[W1 W2 W3 W4 W5 W6 W7] Hp] Hq Hpoll. destruct (poll_open _ _ _ _ (Forall_lookup_1 _ _ _ _ W2 Hq) Hpoll) as [Hit Hop]. split.
  - split; try done; cbn [px_reqs set_reqs]; [by rewrite length_insert|]. by apply Forall_insert.
  - intros r. specialize (Hp r). rewrite app_nil_r. change (due (set_reqs (<[index := qu']> (px_reqs p)) p) r) with (due p r). rewrite occ_nil in Hp.
    unfold place in *. change (awaiting (set_reqs (<[index := qu']> (px_reqs p)) p) r) with (awaiting p r). cbn [px_reqs px_retries px_done set_reqs].
    pose proof (occ_concat_insert items r (px_reqs p) index qu qu' Hq) as Ho. rewrite Hit, occ_app in Ho. lia.
Qed.
Lemma worker_turn_inv index oks p p' : inv p [] → worker_turn cfg index oks p = Ok p' → inv p' [].
Proof.
  intros Hi. unfold worker_turn. destruct (px_reqs p !! index) as [qu|] eqn:Hq; [|by intros [= <-]].
  destruct (Poll _ qu) as [[[rs|]| |] qu'] eqn:Hp; try (by intros [= <-]). apply handle_all_inv. by eapply take_worker_inv.
Qed.
Lemma addToForward_inv r owed p p' : inv p (r :: owed) → addToForward cfg r p = Ok p' → inv p' owed ∧
  px_sessions p' = px_sessions p ∧ ∃ f, (∀ q, rq_uuid (f q) = rq_uuid q ∧ rq_rs (f q) = rq_rs q ∧ rq_cmd (f q) = rq_cmd q) ∧ px_heap p' = alter f r (px_heap p).
Proof.
  intros Hi. unfold addToForward, with_req. destruct (px_heap p !! r) as [q|] eqn:Hq; [|done].
  set (p1 := if bool_decide (rq_retries q = 0) then _ else p).
  assert (inv p1 (r :: owed) ∧ px_sessions p1 = px_sessions p ∧ ∃ f, (∀ q, rq_uuid (f q) = rq_uuid q ∧ rq_rs (f q) = rq_rs q ∧ rq_cmd (f q) = rq_cmd q) ∧ px_heap p1 = alter f r (px_heap p)) as (Hi1 & Hs1 & f & Hf & Hh1).
  { subst p1. case_bool_decide; split_and!; [by apply update_req_inv|done|by exists (set_epoch (getSyncEpoch p))|done|done|].
    exists (λ q, q). split; [done|]. symmetry. by apply alter_id. }
  clearbody p1. intros Hput. assert (∃ i, put_reqs i r p1 = Ok p') as [i Hput'] by (revert Hput; case_match; eauto).
  destruct (put_reqs_inv _ _ _ _ _ Hi1 Hput') as (Hi2 & Hh2 & Hs2). split_and!; [done|congruence|]. exists f. split; [done|congruence].
Qed.
Lemma retry_all_inv rs : ∀ owed p p', inv p (rs ++ owed) → retry_all cfg rs p = Ok p' → inv p' owed.
Proof.
  induction rs as [|r rs IH]; intros owed p p' Hi; cbn [retry_all]; [by intros [= <-]|]. unfold with_req. destruct (px_heap p !! r) as [q|]; cbn [outcome_bind]; [|done].
  case_bool_decide; cbn [outcome_bind]; [|apply IH; by apply put_retries_inv].
  destruct (addToForward cfg r p) as [p1| |] eqn:Ha; cbn [outcome_bind]; [|done|done]. apply IH. by apply (addToForward_inv r (rs ++ owed)) in Ha as [? _].
Qed.
Lemma retry_turn_inv p p' : inv p [] → retry_turn cfg p = Ok p' → inv p' [].
Proof.
  intros Hi. unfold retry_turn. destruct (Poll _ (px_retries p)) as [[[rs|]| |] qu'] eqn:Hpoll; try (by intros [= <-]). apply retry_all_inv.
  destruct Hi as [[W1 W2 W3 W4 W5 W6 W7] Hp]. destruct (poll_open _ _ _ _ W3 Hpoll) as [Hit Hop]. split; [by split|].
  intros r. specialize (Hp r). rewrite app_nil_r. change (due (set_retries qu' p) r) with (due p r). rewrite occ_nil in Hp.
  unfold place in *. change (awaiting (set_retries qu' p) r) with (awaiting p r). cbn [px_reqs px_retries px_done set_retries]. rewrite Hit, occ_app in Hp. lia.
Qed.
Lemma with_session_same f s p p' : with_session f s p = Ok p' → same_places p p'.
Proof. unfold with_session. destruct (px_sessions p !! s) as [rs|]; [|done]. destruct (f rs); cbn [outcome_bind]; [|done|done]. by intros [= <-]. Qed.
Lemma onResp_inv rsp p p' : inv p [] → onResp rsp p = Ok p' → inv p' [].
Proof.
  intros Hi. unfold onResp. destruct (routing_delete _ _) as [[o rt]| |] eqn:Hd; cbn [outcome_bind]; [|done|done].
  destruct (routing_delete_inv _ _ _ _ _ Hi Hd) as [_ Ho]. destruct o as [r|]; [|by intros [= <-]]. destruct Ho as [Hi' Ht].
  case_bool_decide; [intros [= <-]; by apply retry_inv|]. unfold req_done, with_req. cbn [px_heap set_routing].
  destruct Ht as (q & Hq & [s Hs]). rewrite Hq, Hs. destruct (with_session _ s _) as [p1| |] eqn:Hw; cbn [outcome_bind]; [|done|done]. intros [= <-].
  apply add_done_inv. apply with_session_same in Hw. by apply (inv_same _ _ _ Hw).
Qed.
Lemma backend_read_inv addr v p p' : inv p [] → backend_read addr v p = Ok p' → inv p' [].
Proof.
  intros Hi. destruct v as [rsp|]; cbn [backend_read]; [case_bool_decide; [by intros [= <-]|by apply onResp_inv]|].
  destruct (px_bcs p !! addr); intros [= <-]; [|done]. by apply (inv_same p).
Qed.
Lemma backend_write_inv addr p p' : inv p [] → backend_write addr None p = Ok p' → inv p' [].
Proof.
  intros Hi. unfold backend_write. destruct (px_bcs p !! addr) as [b|]; [|by intros [= <-]]. destruct (Poll _ _) as [[[rs|]| |] q']; intros [= <-]; [|done..].
  by apply (inv_same p).
Qed.
Lemma watch_same e p p' : on_watch_event e p = Ok p' → same_places p p'.
Proof.
  destruct e as [ranges stores|r|]; cbn [on_watch_event]; [|by intros [= <-]..]. unfold refreshRanges, refreshStores. destruct ranges as [rs|]; cbn [outcome_bind]; [|done].
  destruct stores; [|done]. intros [= <-]. eapply same_trans; [|apply same_bcs]. eapply same_trans; [|apply same_view].
  assert (∀ p1 : proxy, same_places p p1 → same_places p (foldl (λ p (rg : Range), doRefreshRange rg p) p1 rs)) as Hf.
  { clear. induction rs as [|rg rs IH]; intros p1 Hs; [done|]. cbn [foldl]. apply IH. eapply same_trans; [exact Hs|apply same_view]. }
  apply Hf. apply same_view.
Qed.

(** *** Commands of clients *)
Definition fresh_id (id : bytes) p : Prop := length id = 16%nat ∧ ∀ r q, px_heap p !! r = Some q → take 16 (rq_uuid q) ≠ id.
Definition free_from r p : Prop := ∀ k, (r ≤ k)%nat → px_heap p !! k = None.
(** The requests of a command that are there are its first [idx] parts. *)
Definition first_parts (id : bytes) (idx : nat) p : Prop :=
  ∀ k q, px_heap p !! k = Some q → take 16 (rq_uuid q) = id → ∃ j, (j < idx)%nat ∧ rq_uuid q = part_uuid id j.
Lemma take_part id i : length id = 16%nat → take 16 (part_uuid id i) = id.
Proof. intros Hl. unfold part_uuid. by rewrite take_app_length' by done. Qed.
Lemma part_uuid_inj id i j : part_uuid id i = part_uuid id j → i = j.
Proof.
  unfold part_uuid. intros Heq. apply app_inv_head in Heq. cbn [app] in Heq. injection Heq as Heq. unfold Itoa, FormatInt64ToBytes in Heq.
  rewrite !bool_decide_eq_false_2 in Heq by lia. pose proof (proj2 (proj2 (uint_text_spec (Z.of_nat i) ltac:(lia)))) as Hi.
  pose proof (proj2 (proj2 (uint_text_spec (Z.of_nat j) ltac:(lia)))) as Hj. rewrite Heq in Hi. lia.
Qed.
Lemma land_range a b : 0 ≤ a → 0 ≤ Z.land a b ≤ a.
Proof.
  intros Ha. split; [apply Z.land_nonneg; by left|]. assert (a = Z.ldiff a b + Z.land a b) as Heq.
  { rewrite Z.add_nocarry_lxor, Z.lxor_lor, Z.lor_ldiff_and; [done|..]; apply Z.bits_inj'; intros n Hn; rewrite ?Z.land_spec, ?Z.ldiff_spec, ?Z.land_spec, Z.bits_0;
      by destruct (Z.testbit a n), (Z.testbit b n). }
  assert (0 ≤ Z.ldiff a b) by (apply Z.ldiff_nonneg; by left). lia.
Qed.
(** With at least one worker, every request finds a queue. *)
Lemma addToForward_ok r p q : 1 ≤ WorkerCount cfg < two64 → length (px_reqs p) = Z.to_nat (WorkerCount cfg) → px_heap p !! r = Some q →
  ∃ p', addToForward cfg r p = Ok p'.
Proof.
  intros Hwc Hl Hq. unfold addToForward, with_req. rewrite Hq. set (p1 := if bool_decide (rq_retries q = 0) then _ else p).
  assert (px_reqs p1 = px_reqs p) as Hr by (subst p1; by case_bool_decide). clearbody p1.
  assert (∀ i, 0 ≤ i < WorkerCount cfg → ∃ p', put_reqs i r p1 = Ok p') as Hput.
  { intros i Hi. unfold put_reqs. rewrite Hr. destruct (lookup_lt_is_Some_2 (px_reqs p) (Z.to_nat i)) as [qu ->]; [lia|]. eauto. }
  destruct (rq_cmd q !! 1%nat : option bytes) as [key|]; [|apply Hput; lia]. apply Hput. rewrite u64_small by (unfold is_u64; lia).
  pose proof (land_range (WorkerCount cfg - 1) (Cell_ID (Search (px_ranges p1) key)) ltac:(lia)). lia.
Qed.
Lemma new_part_inv id idx cmd s r p p' : length id = 16%nat → free_from r p → first_parts id idx p → inv p [] →
  addToForward cfg r (set_heap (<[r := newReqUUID (part_uuid id idx) cmd s]> (px_heap p)) p) = Ok p' →
  inv p' [] ∧ px_sessions p' = px_sessions p ∧ free_from (S r) p' ∧ first_parts id (S idx) p' ∧
  (∃ q, px_heap p' !! r = Some q ∧ rq_uuid q = part_uuid id idx ∧ rq_cmd q = cmd ∧ rq_rs q = Some s) ∧ (∀ k, (k < r)%nat → px_heap p' !! k = px_heap p !! k).
Proof.
  intros Hl Hfree Hfirst Hi Ha. set (p1 := set_heap (<[r := newReqUUID (part_uuid id idx) cmd s]> (px_heap p)) p) in *.
  assert (inv p1 [r]) as Hi1.
  { apply new_req_inv; [by apply Hfree|by eexists|by destruct id| |done]. intros r' q' Hq' _ Heq.
    destruct (Hfirst _ _ Hq') as (j & Hj & Hju); [rewrite Heq; by apply take_part|]. rewrite Heq in Hju. apply part_uuid_inj in Hju. lia. }
  destruct (addToForward_inv _ _ _ _ Hi1 Ha) as (Hi2 & Hs2 & f & Hf & Hh). split_and!; [done|done| | | |].
  - intros k Hk. rewrite Hh, lookup_alter_ne by lia. cbn [px_heap set_heap p1]. rewrite lookup_insert_ne by lia. apply Hfree. lia.
  - intros k q. rewrite Hh. destruct (decide (r = k)) as [<-|Hne].
    + rewrite lookup_alter_eq. cbn [px_heap set_heap p1]. rewrite lookup_insert_eq. intros [= <-] _. exists idx. split; [lia|]. by rewrite (proj1 (Hf _)).
    + rewrite lookup_alter_ne by done. cbn [px_heap set_heap p1]. rewrite lookup_insert_ne by done. intros Hq Ht. destruct (Hfirst _ _ Hq Ht) as (j & ? & ?). exists j. split; [lia|done].
  - rewrite Hh, lookup_alter_eq. cbn [px_heap set_heap p1]. rewrite lookup_insert_eq. eexists. split; [done|]. destruct (Hf (newReqUUID (part_uuid id idx) cmd s)) as (-> & -> & ->). done.
  - intros k Hk. rewrite Hh, lookup_alter_ne by lia. cbn [px_heap set_heap p1]. by rewrite lookup_insert_ne by lia.
Qed.
Lemma forward_parts_inv id cmds : ∀ idx s r p p', length id = 16%nat → free_from r p → first_parts id idx p → inv p [] → forward_parts cfg id cmds idx s r p = Ok p' →
  inv p' [] ∧ px_sessions p' = px_sessions p ∧ (∀ k, (k < r)%nat → px_heap p' !! k = px_heap p !! k) ∧
  (∀ i cmd, cmds !! i = Some cmd → ∃ q, px_heap p' !! (r + i)%nat = Some q ∧ rq_uuid q = part_uuid id (idx + i) ∧ rq_cmd q = cmd ∧ rq_rs q = Some s).
Proof.
  induction cmds as [|cmd cmds IH]; intros idx s r p p' Hl Hfree Hfirst Hi; cbn [forward_parts].
  { intros [= <-]. split_and!; done. }
  destruct (addToForward cfg r _) as [p1| |] eqn:Ha; cbn [outcome_bind]; [|done|done]. intros Hfp.
  destruct (new_part_inv _ _ _ _ _ _ _ Hl Hfree Hfirst Hi Ha) as (Hi1 & Hs1 & Hfree1 & Hfirst1 & (q & Hq & Hqs) & Hlow1).
  destruct (IH (S idx) s (S r) p1 p' Hl Hfree1 Hfirst1 Hi1 Hfp) as (Hi2 & Hs2 & Hlow2 & Hall). split_and!; [done|congruence| |].
  - intros k Hk. rewrite Hlow2, Hlow1 by lia. done.
  - intros [|i] c Hc; [injection Hc as <-; rewrite !Nat.add_0_r; exists q; split; [rewrite Hlow2 by lia; done|done]|].
    destruct (Hall i c Hc) as (q' & Hq' & Hqs'). exists q'. replace (r + S i)%nat with (S r + i)%nat by lia. replace (idx + S i)%nat with (S idx + i)%nat by lia. done.
Qed.
Lemma forward_parts_ok id cmds : ∀ idx s r p, 1 ≤ WorkerCount cfg < two64 → length id = 16%nat → free_from r p → first_parts id idx p → inv p [] →
  ∃ p', forward_parts cfg id cmds idx s r p = Ok p'.
Proof.
  induction cmds as [|cmd cmds IH]; intros idx s r p Hwc Hl Hfree Hfirst Hi; cbn [forward_parts]; [eauto|].
  destruct (addToForward_ok r (set_heap (<[r := newReqUUID (part_uuid id idx) cmd s]> (px_heap p)) p) (newReqUUID (part_uuid id idx) cmd s)) as [p1 Hp1];
    [done|apply (pw_workers _ (iv_wf _ _ Hi))|cbn [px_heap set_heap]; by rewrite lookup_insert_eq|]. rewrite Hp1. cbn [outcome_bind].
  destruct (new_part_inv _ _ _ _ _ _ _ Hl Hfree Hfirst Hi Hp1) as (? & _ & ? & ? & _). by apply IH.
Qed.
Lemma fresh_first id p : fresh_id id p → first_parts id 0 p.
Proof. intros [_ Hf] k q Hq Ht. by destruct (Hf k q Hq). Qed.
Lemma aggregate_inv id cmds f s r p p' : fresh_id id p → free_from r p → inv p [] → aggregate cfg id cmds f s r p = Ok p' → inv p' [].
Proof.
  intros Hid Hfree Hi. unfold aggregate. destruct (with_session _ s p) as [p1| |] eqn:Hw; cbn [outcome_bind]; [|done|done]. apply with_session_same in Hw.
  pose proof (inv_same _ _ _ Hw Hi) as Hi1. destruct Hw as (_ & _ & _ & Hh & _). intros Hf.
  eapply forward_parts_inv in Hf as [? _]; [done|exact (proj1 Hid)|intros k Hk; rewrite Hh; by apply Hfree| |done].
  apply fresh_first. destruct Hid as [? Hid]. split; [done|]. by rewrite Hh.
Qed.
Lemma on_command_inv s cmd id r p p' : fresh_id id p → free_from r p → inv p [] → on_command cfg s cmd id r p = Ok p' → inv p' [].
Proof.
  intros Hid Hfree Hi. unfold on_command. destruct cmd as [|name args]; [done|]. destruct (negb _); [intros Hw; apply with_session_same in Hw; by apply (inv_same _ _ _ Hw)|].
  assert (∀ p', addToForward cfg r (set_heap (<[r := newReqUUID id (name :: args) s]> (px_heap p)) p) = Ok p' → inv p' []) as Hplain.
  { intros p2 Ha. refine (proj1 (addToForward_inv _ _ _ _ _ Ha)). destruct Hid as [Hl Hid]. apply new_req_inv; [by apply Hfree|by eexists|by destruct id| |done].
    intros r' q' Hq' _ Heq. cbn [rq_uuid newReqUUID] in Heq. apply (Hid _ _ Hq'). rewrite Heq. rewrite take_ge by lia. done. }
  case_bool_decide; [|case_bool_decide].
  - unfold doMGet. case_bool_decide; cbn [outcome_bind]; [apply Hplain|]. destruct (aggregate cfg _ _ _ _ _ _) as [p1| |] eqn:Ha; cbn [outcome_bind]; [|done|done].
    intros [= <-]. by eapply aggregate_inv.
  - unfold doMSet. case_bool_decide; cbn [outcome_bind]; [apply Hplain|]. destruct (negb _); cbn [outcome_bind]; [intros Hw; apply with_session_same in Hw; by apply (inv_same _ _ _ Hw)|].
    destruct (aggregate cfg _ _ _ _ _ _) as [p1| |] eqn:Ha; cbn [outcome_bind]; [|done|done]. intros [= <-]. by eapply aggregate_inv.
  - cbn [outcome_bind]. apply Hplain.
Qed.

(** *** Histories *)
Lemma ping_req_inv r owed p : px_heap p !! r = None → inv p owed → inv (set_heap (<[r := pingReq]> (px_heap p)) p) owed.
Proof.
  intros Hn [[W1 W2 W3 W4 W5 W6 W7] Hp]. split.
  - split; [done..| | |].
    + intros u r' Hr. destruct (W5 u r' Hr) as (q' & Hq' & ?). exists q'. cbn [px_heap set_heap]. rewrite lookup_insert_ne by congruence. done.
    + intros r1 r2 q1 q2. cbn [px_heap set_heap]. rewrite !lookup_insert. repeat case_decide; intros E1 E2 S1 S2 Heq; simplify_eq; [done|by destruct S1|by destruct S2|by eapply W6].
    + intros r' q'. cbn [px_heap set_heap]. rewrite lookup_insert. case_decide; [intros [= <-] [x Hx]; done|by apply W7].
  - intros r'. specialize (Hp r'). unfold place, awaiting, due in *. cbn [px_heap set_heap px_reqs px_retries px_done px_routing].
    destruct (decide (r = r')) as [<-|Hne]; [|by rewrite lookup_insert_ne]. rewrite lookup_insert_eq. rewrite Hn in Hp. cbn [rq_uuid rq_rs pingReq].
    rewrite decide_False; [done|]. intros Hr. destruct (W5 _ _ Hr) as (q' & Hq' & _). congruence.
Qed.
Lemma ping_inv ok target r p p' : free_from r p → inv p [] → ping ok target r p = Ok p' → inv p' [].
Proof.
  intros Hfree Hi. unfold ping. case_bool_decide; [by intros [= <-]|]. apply (ping_req_inv r) in Hi; [|by apply Hfree]. set (p1 := set_heap _ p) in *.
  assert (px_heap p1 !! r = Some pingReq) as Hq by (cbn [px_heap set_heap p1]; by rewrite lookup_insert_eq). clearbody p1. clear p Hfree. unfold forwardTo.
  pose proof (getConn_same ok target p1) as Hs. destruct (getConn ok target p1) as [c p2]. cbn [snd] in Hs. apply (inv_same _ _ _ Hs) in Hi.
  destruct c; cbn [outcome_bind]; [|by intros [= <-]]. apply (update_req_inv (set_epoch (getSyncEpoch p2)) r) in Hi; [|done].
  assert (px_heap (update_req (set_epoch (getSyncEpoch p2)) r p2) !! r = Some (set_epoch (getSyncEpoch p2) pingReq)) as Hq2.
  { unfold update_req. cbn [px_heap set_heap]. destruct Hs as (_ & _ & _ & -> & _). by rewrite lookup_alter_eq, Hq. }
  revert Hi Hq2. generalize (update_req (set_epoch (getSyncEpoch p2)) r p2). generalize (getSyncEpoch p2). clear. intros e p Hi Hq. unfold with_req. rewrite Hq. cbn [rq_rs set_epoch pingReq outcome_bind].
  destruct (addReq target r p) as [[added p2]| |] eqn:Ha; cbn [outcome_bind]; [|done|done]. apply addReq_same in Ha. apply (inv_same _ _ _ Ha) in Hi.
  destruct added; cbn [outcome_bind]; [by intros [= <-]|]. destruct (routing_delete _ _) as [[o rt]| |] eqn:Hd; cbn [outcome_bind]; [|done|done]. intros [= <-].
  destruct (routing_delete_inv _ _ _ _ _ Hi Hd) as [Ho Hi']. destruct o as [r'|]; [|done]. exfalso. destruct Hi as [Hw _]. symmetry in Ho.
  destruct (pw_routed _ Hw _ _ Ho) as (q & Hq' & Hu & Hrs). by apply (pw_nonempty _ Hw _ _ Hq' Hrs).
Qed.
(** What happens to a proxy, but for writes to stores that fail: clients come, send
    commands and go, PD announces changes, workers, retries, pings, stores answer
    or break the connection, writers write. *)
Inductive proxy_step `{!FloatText} : proxy → proxy → Prop :=
  | ps_connect s p : px_sessions p !! s = None → proxy_step p (client_connect s p)
  | ps_command s cmd id r p p' : fresh_id id p → free_from r p → on_command cfg s cmd id r p = Ok p' → proxy_step p p'
  | ps_disconnect s p p' : client_disconnect s p = Ok p' → proxy_step p p'
  | ps_client_write s p p' : client_write s p = Ok p' → proxy_step p p'
  | ps_watch e p p' : on_watch_event e p = Ok p' → proxy_step p p'
  | ps_worker index oks p p' : worker_turn cfg index oks p = Ok p' → proxy_step p p'
  | ps_retry p p' : retry_turn cfg p = Ok p' → proxy_step p p'
  | ps_ping ok target r p p' : free_from r p → ping ok target r p = Ok p' → proxy_step p p'
  | ps_read addr v p p' : backend_read addr v p = Ok p' → proxy_step p p'
  | ps_write addr p p' : backend_write addr None p = Ok p' → proxy_step p p'.
Lemma proxy_step_inv `{!FloatText} p p' : proxy_step p p' → inv p [] → inv p' [].
Proof.
  intros Hs Hi. destruct Hs as [s p|s cmd id r p p' Hid Hf Hc|s p p' Hc|s p p' Hc|e p p' Hc|index oks p p' Hc|p p' Hc|ok target r p p' Hf Hc|addr v p p' Hc|addr p p' Hc].
  - by apply (inv_same p).
  - by eapply on_command_inv.
  - apply with_session_same in Hc. by apply (inv_same p).
  - apply with_session_same in Hc. by apply (inv_same p).
  - apply watch_same in Hc. by apply (inv_same p).
  - by eapply worker_turn_inv.
  - by eapply retry_turn_inv.
  - by eapply ping_inv.
  - by eapply backend_read_inv.
  - by eapply backend_write_inv.
Qed.
End healthy.

(** A flush that fails, and [close(true)], answer the requests they take from the queue of a backend and leave them in the table. *)
Lemma error_all_kept rs err : ∀ fs p p', kept fs p [] → error_all rs err p = Ok p' → ∃ gs, px_done p' = px_done p ++ gs ∧ kept (fs ++ gs) p' [].
Proof.
  induction rs as [|r rs IH]; intros fs p p' Hi; cbn [error_all]; [intros [= <-]; exists []; by rewrite !app_nil_r|]. unfold req_errorDone, with_req.
  destruct (px_heap p !! r) as [q|] eqn:Hq; [|done]. destruct (rq_rs q) as [s|] eqn:Hs; cbn [outcome_bind]; [|by apply IH].
  destruct (with_session (errorResp err) s p) as [p1| |] eqn:Hw; cbn [outcome_bind]; [|done..]. apply with_session_same in Hw as Hsm. intros He.
  assert (kept (fs ++ [r]) (add_done r p1) []) as Hi1.
  { apply (inv_same p p1) in Hi; [|done]. destruct Hi as [Hwf Hp]. split; [by destruct Hwf|]. intros r'. specialize (Hp r'). unfold place in *. change (awaiting (add_done r p1) r') with (awaiting p1 r'). change (due (add_done r p1) r') with (due p1 r').
    cbn [px_reqs px_retries px_done add_done] in *. rewrite !occ_app. lia. }
  destruct (IH _ _ _ Hi1 He) as (gs & Hd & Hk). exists (r :: gs). destruct Hsm as (_ & _ & _ & _ & Hdone). rewrite Hd. cbn [px_done add_done]. rewrite Hdone, <-!(assoc_L (++)) in *. done.
Qed.
Lemma backend_write_failed addr err fs p p' : kept fs p [] → backend_write addr (Some err) p = Ok p' → ∃ gs, px_done p' = px_done p ++ gs ∧ kept (fs ++ gs) p' [].
Proof.
  intros Hi. assert (∃ gs, px_done p = px_done p ++ gs ∧ kept (fs ++ gs) p []) as Hsame by (exists []; by rewrite !app_nil_r). unfold backend_write.
  destruct (px_bcs p !! addr) as [b|]; [|by intros [= <-]]. destruct (Poll _ _) as [[[rs|]| |] qu]; try by intros [= <-]. intros He. eapply error_all_kept in He; [exact He|]. by apply (inv_same p).
Qed.
Lemma backend_close_kept addr err fs p p' : kept fs p [] → backend_close addr err p = Ok p' → ∃ gs, px_done p' = px_done p ++ gs ∧ kept (fs ++ gs) p' [].
Proof.
  intros Hi. unfold backend_close. destruct (px_bcs p !! addr) as [b|]; [|intros [= <-]; exists []; by rewrite !app_nil_r]. destruct (Dispose _) as [rs qu]. intros He. eapply error_all_kept in He; [exact He|]. by apply (inv_same p).
Qed.
(** The histories of a proxy; the list has the requests that were answered because they could not be written. *)
Inductive proxy_run `{!FloatText} : proxy → list rpointer → Prop :=
  | run_new : proxy_run (NewRedisProxy cfg) []
  | run_step p fs p' : proxy_run p fs → proxy_step p p' → proxy_run p' fs
  | run_write_failed addr err p fs p' gs : proxy_run p fs → backend_write addr (Some err) p = Ok p' → px_done p' = px_done p ++ gs → proxy_run p' (fs ++ gs)
  | run_close addr err p fs p' gs : proxy_run p fs → backend_close addr err p = Ok p' → px_done p' = px_done p ++ gs → proxy_run p' (fs ++ gs).
Lemma new_proxy_inv : kept [] (NewRedisProxy cfg) [].
Proof.
  assert (∀ n, concat (items <$> replicate n (New (A := rpointer))) = []) as Hnil by (induction n as [|n IH]; [done|]; exact IH).
  split.
  - split; cbn [NewRedisProxy px_reqs px_retries px_routing px_heap]; [apply length_replicate|by apply Forall_replicate|done|apply newRouting_spec| |done|done].
    intros u r. by rewrite (proj2 newRouting_spec).
  - intros r. unfold place, awaiting, due. cbn [NewRedisProxy px_reqs px_retries px_routing px_heap px_done]. unfold initQueues. rewrite Hnil, lookup_empty. done.
Qed.
Lemma reachable_inv `{!FloatText} p : rtc proxy_step (NewRedisProxy cfg) p → kept [] p [].
Proof.
  intros Hr. assert (kept [] (NewRedisProxy cfg) []) as Hi by apply new_proxy_inv. induction Hr as [|a b c Hs _ IH]; [done|]. apply IH. by eapply proxy_step_inv.
Qed.

Lemma run_kept `{!FloatText} p fs : proxy_run p fs → kept fs p [].
Proof.
  induction 1 as [|p fs p' _ IH Hs|addr err p fs p' gs _ IH Hw Hd|addr err p fs p' gs _ IH Hw Hd]; [apply new_proxy_inv|by eapply proxy_step_inv|..].
  - destruct (backend_write_failed addr err fs p p' IH Hw) as (gs' & Hd' & Hk). rewrite Hd in Hd'. by apply app_inv_head in Hd' as ->.
  - destruct (backend_close_kept addr err fs p p' IH Hw) as (gs' & Hd' & Hk). rewrite Hd in Hd'. by apply app_inv_head in Hd' as ->.
Qed.

Lemma rtc_run `{!FloatText} p p' fs : proxy_run p fs → rtc proxy_step p p' → proxy_run p' fs.
Proof. intros Hr Hs. induction Hs as [|p1 p2 p3 Hs _ IH]; [done|]. apply IH. by eapply run_step. Qed.


(** *** MGET *)
Lemma mget_run s rs name args id r p : 1 ≤ WorkerCount cfg < two64 → kept [] p [] → px_sessions p !! s = Some rs → ToLower name = mget → supportCmds cfg mget = true →
  (2 ≤ length args)%nat → fresh_id id p → free_from r p →
  ∃ p', on_command cfg s (name :: args) id r p = Ok p' ∧ px_sessions p' !! s = Some (addAggregation id (newAggregationReq (length args) MGetMerge) rs) ∧
    ∀ i key, args !! i = Some key → ∃ q, px_heap p' !! (r + i)%nat = Some q ∧ rq_cmd q = [cmdGet; key] ∧ rq_uuid q = part_uuid id i ∧ rq_rs q = Some s.
Proof.
  intros Hwc Hi Hs Hname Hsup Hlen Hid Hfree. unfold on_command. rewrite Hname, Hsup, bool_decide_eq_true_2 by done. cbn [negb]. unfold doMGet, aggregate, with_session.
  rewrite bool_decide_eq_false_2 by lia. rewrite Hs. cbn [outcome_bind]. rewrite length_fmap. set (p1 := set_sessions _ p).
  assert (kept [] p1 []) as Hi1 by (by apply (inv_same p)). assert (first_parts id 0 p1) as Hfp by exact (fresh_first id p Hid). destruct Hid as [Hl _].
  destruct (forward_parts_ok id ((λ key, [cmdGet; key]) <$> args) 0 s r p1 Hwc Hl Hfree Hfp Hi1) as [p' Hp']. rewrite Hp'. cbn [outcome_bind].
  destruct (forward_parts_inv id _ 0 s r p1 p' Hl Hfree Hfp Hi1 Hp') as (_ & Hss & _ & Hall). exists p'. split_and!; [done|rewrite Hss; cbn [px_sessions set_sessions p1]; by rewrite lookup_insert_eq|].
  intros i key Hk. destruct (Hall i [cmdGet; key]) as (q & ? & ? & ? & ?); [by rewrite list_lookup_fmap, Hk|]. by exists q.
Qed.

(** MGET of several keys is answered once, in the order of the keys: the
    command becomes one GET per key, and in whatever order the stores answer
    them, the client gets a single reply, after the last answer, whose i-th value
    is the value of the i-th key. *)
Theorem mget_in_key_order `{!FloatText} p s rs name args id r rsps :
  1 ≤ WorkerCount cfg < two64 → rtc proxy_step (NewRedisProxy cfg) p → px_sessions p !! s = Some rs → open_queue (ps_resps rs) →
  ToLower name = mget → supportCmds cfg mget = true → (2 ≤ length args)%nat → Z.of_nat (length args) < two63 →
  fresh_id id p → free_from r p → sep ∉ id → (Rsp_UUID <$> rsps) ≡ₚ (part_uuid id <$> seq 0 (length args)) →
  ∃ p' rs1 rs2 vals, on_command cfg s (name :: args) id r p = Ok p' ∧ px_sessions p' !! s = Some rs1 ∧
    (∀ i key, args !! i = Some key →
      ∃ q, px_heap p' !! (r + i)%nat = Some q ∧ rq_cmd q = [cmdGet; key] ∧ rq_uuid q = part_uuid id i ∧ rq_rs q = Some s) ∧
    session_resps rsps rs1 = Ok rs2 ∧ items (ps_resps rs2) = items (ps_resps rs) ++ [plain_response (slices_reply (Some vals) None)] ∧
    length vals = length args ∧
    ∀ i v, vals !! i = Some v → ∃ rsp, rsp ∈ rsps ∧ Rsp_UUID rsp = part_uuid id i ∧ v = default [] (BulkResult (Rsp_Reply rsp)).
Proof.
  intros Hwc Hi%reachable_inv Hs Hq Hname Hsup Hlen H63 Hid Hfree Hsep Hperm.
  destruct (mget_run s rs name args id r p Hwc Hi Hs Hname Hsup Hlen Hid Hfree) as (p' & Hrun & Hs' & Hall).
  destruct (parts_any_order id MGetMerge (length args) rsps (addAggregation id (newAggregationReq (length args) MGetMerge) rs)) as (parts & Hlp & Hparts & Hresp);
    [done|exact (proj1 Hid)|lia|done|done|cbn [ps_aggregations addAggregation set_aggregations]; by rewrite lookup_insert_eq|done|].
  unfold merge, doMGetMerge in Hresp. cbn [ag_merge ag_parts] in Hresp. rewrite all_parts_Some in Hresp. cbn [outcome_bind] in Hresp.
  eexists p', _, _, _. split_and!; [exact Hrun|exact Hs'|exact Hall|exact Hresp|reflexivity|by rewrite length_fmap|].
  intros i v. rewrite list_lookup_fmap. intros (rsp & Hrsp & ->)%fmap_Some. destruct (Hparts _ _ Hrsp). by exists rsp.
Qed.

(** An MGET can wait for ever: the parts of a command are told apart by a
    suffix behind a separator, and the id of the command, sixteen random bytes,
    may contain the separator itself.  Then every answer of a store is dropped, and
    the client gets no reply. *)
Theorem mget_hangs `{!FloatText} p s rs name args id r rsps :
  1 ≤ WorkerCount cfg < two64 → rtc proxy_step (NewRedisProxy cfg) p → px_sessions p !! s = Some rs →
  (∀ k, is_Some (ps_aggregations rs !! k) → length k = 16%nat) →
  ToLower name = mget → supportCmds cfg mget = true → (2 ≤ length args)%nat →
  fresh_id id p → free_from r p → sep ∈ id → Forall (λ rsp, ∃ i, Rsp_UUID rsp = part_uuid id i) rsps →
  ∃ p' rs1, on_command cfg s (name :: args) id r p = Ok p' ∧ px_sessions p' !! s = Some rs1 ∧ ps_resps rs1 = ps_resps rs ∧ session_resps rsps rs1 = Ok rs1.
Proof.
  intros Hwc Hi%reachable_inv Hs Hkeys Hname Hsup Hlen Hid Hfree Hsep HF.
  destruct (mget_run s rs name args id r p Hwc Hi Hs Hname Hsup Hlen Hid Hfree) as (p' & Hrun & Hs' & _).
  eexists p', _. split_and!; [exact Hrun|exact Hs'|done|]. clear - Hkeys HF Hsep Hid. induction HF as [|rsp rsps [i Hu] HF IH]; [done|]. cbn [session_resps].
  destruct (parse_part_cut id i Hsep) as (d & n & Hparse & Hd). destruct Hid as [Hl _]. unfold session_resp at 1. rewrite Hu, part_is_part, Hparse by done. cbn [negb outcome_bind].
  assert (ps_aggregations rs !! d = None) as Hnone by (apply eq_None_not_Some; intros Hk%Hkeys; lia).
  cbn [ps_aggregations addAggregation set_aggregations]. rewrite lookup_insert_ne, Hnone by (intros ->; lia). exact IH.
Qed.

(** *** The order of replies *)
Fixpoint onResps (rsps : list Response) p : res proxy :=
  match rsps with [] => Ok p | rsp :: rsps' => let! p := onResp rsp p in onResps rsps' p end.
(** The response answers a request of session [s] that is no part. *)
Definition answers (s : spointer) p (rsp : Response) : Prop :=
  Rsp_Type rsp ≠ cmd_code CRaftError ∧ length (Rsp_UUID rsp) = 16%nat ∧
  ∃ r q, routed (px_routing p) (Rsp_UUID rsp) = Some r ∧ px_heap p !! r = Some q ∧ rq_rs q = Some s.
Lemma onResp_answers s p rs rsp : kept [] p [] → px_sessions p !! s = Some rs → open_queue (ps_resps rs) → answers s p rsp →
  ∃ p' rs', onResp rsp p = Ok p' ∧ kept [] p' [] ∧ px_sessions p' !! s = Some rs' ∧ open_queue (ps_resps rs') ∧ items (ps_resps rs') = items (ps_resps rs) ++ [rsp] ∧
    px_heap p' = px_heap p ∧ ∀ u, u ≠ Rsp_UUID rsp → routed (px_routing p') u = routed (px_routing p) u.
Proof.
  intros Hi Hs Hq (Ht & Hl & r & q & Hr & Hh & Hrs). pose proof Hi as [Hw _].
  destruct (routing_delete_spec (px_routing p) (Rsp_UUID rsp) (pw_routing _ Hw)) as (rt & Hd & _ & Hrt). rewrite Hr in Hd.
  assert (∃ p', onResp rsp p = Ok p' ∧ p' = add_done r (set_sessions (<[s := put_resp rsp rs]> (px_sessions p)) (set_routing rt p))) as (p' & Hon & Hp').
  { unfold onResp. rewrite Hd. cbn [outcome_bind]. rewrite bool_decide_eq_false_2 by done. unfold req_done, with_req. cbn [px_heap set_routing]. rewrite Hh, Hrs.
    unfold with_session. cbn [px_sessions set_routing]. rewrite Hs. unfold session_resp, isAggregationPart. rewrite bool_decide_eq_false_2 by lia. cbn [negb outcome_bind]. eauto. }
  exists p', (put_resp rsp rs). rewrite put_resp_items in * by done. split_and!; [done|by eapply onResp_inv|subst p'; cbn; by rewrite lookup_insert_eq|done|done|by subst p'|].
  subst p'. intros u Hu. cbn [px_routing add_done set_sessions set_routing]. by rewrite Hrt, decide_False.
Qed.
(** Replies of a connection are written in the order in which the stores
    answer, whatever the order of its commands: the requests of one session go to
    several workers and stores, and nothing puts the answers back in order, so
    that a client that does not wait for a reply before it sends the next command
    takes one reply for the other. *)
Theorem replies_in_arrival_order `{!FloatText} p s rs rsps :
  rtc proxy_step (NewRedisProxy cfg) p → px_sessions p !! s = Some rs → open_queue (ps_resps rs) →
  Forall (answers s p) rsps → NoDup (Rsp_UUID <$> rsps) →
  ∃ p' rs', onResps rsps p = Ok p' ∧ px_sessions p' !! s = Some rs' ∧ items (ps_resps rs') = items (ps_resps rs) ++ rsps.
Proof.
  intros Hi%reachable_inv. revert p rs Hi. induction rsps as [|rsp rsps IH]; intros p rs Hi Hs Hq HF Hnd; cbn [onResps].
  { exists p, rs. by rewrite app_nil_r. }
  inversion_clear HF as [|?? Ha HF']. rewrite fmap_cons in Hnd. apply NoDup_cons in Hnd as [Hn Hnd].
  destruct (onResp_answers s p rs rsp Hi Hs Hq Ha) as (p1 & rs1 & -> & Hi1 & Hs1 & Hq1 & Hit1 & Hh1 & Hr1). cbn [outcome_bind].
  destruct (IH p1 rs1 Hi1 Hs1 Hq1) as (p' & rs' & -> & Hs' & Hit'); [|done|exists p', rs'; by rewrite Hit', Hit1, <-(assoc_L (++))].
  rewrite Forall_forall in *. intros x Hx. destruct (HF' x Hx) as (? & ? & r & q & Hr & Hh & ?). split_and!; [done..|]. exists r, q. rewrite Hh1, Hr1; [done|].
  intros Heq. apply Hn. rewrite <-Heq. apply list_elem_of_fmap. by exists x.
Qed.
End places.

(** ** ZRANGEBYSCORE *)
Section writer_panic.
Context `{!FloatText, !ErrorText} {S : Type} `{!ZSetEngine S} (enginesMask : Z).
Lemma doResp_no_error r e : doResp r ≠ Err e.
Proof. unfold doResp. case_match; [case_match|]; done. Qed.
Lemma write_all_panic rsps rsp : rsp ∈ rsps → doResp (Rsp_Reply rsp) = Panic → write_all rsps = Panic.
Proof.
  intros Hin Hp. induction rsps as [|r rsps IH]; [by apply elem_of_nil in Hin|]. cbn [write_all]. apply elem_of_cons in Hin as [<-|Hin]; [by rewrite Hp|].
  rewrite IH by done. destruct (doResp (Rsp_Reply r)) as [w|e|] eqn:Hr; [done| |done]. by destruct (doResp_no_error _ _ Hr).
Qed.
(** A successful ZRANGEBYSCORE stops the proxy: the store answers without
    saying whether scores are to be written, the writer of the session
    dereferences the missing flag, and nothing recovers that goroutine. *)
Theorem zrangebyscore_stops_proxy {T : Type} (p : RedisProxy T) s rs cell (req : Request) (d : Z → S) rsp :
  execZRangeByScore enginesMask cell req d = Ok rsp → ErrorResult (Rsp_Reply rsp) = None →
  px_sessions p !! s = Some rs → ps_connected rs = true → disposed (ps_resps rs) = false → rsp ∈ take (Z.to_nat batch) (items (ps_resps rs)) →
  client_write s p = Panic.
Proof.
  intros Hex Herr Hs Hc Hd Hin.
  assert (doResp (Rsp_Reply rsp) = Panic) as Hpanic.
  { unfold execZRangeByScore, args_of, rcall, rinvalid, rreply in Hex. destruct (Req_Cmd req) as [|n [|k [|lo [|hi args]]]]; try done; try (by injection Hex as <-).
    destruct (ZRangeByScore k lo hi _) as [err|v]; injection Hex as <-; [done|]. apply scores_without_flag. }
  unfold client_write, with_session. rewrite Hs. unfold session_writeLoop, Poll. cbn [sema_number]. rewrite bool_decide_eq_false_2 by (unfold batch; lia). rewrite Hd.
  destruct (items (ps_resps rs)) as [|x l]; [by apply elem_of_nil in Hin|]. unfold items_get. rewrite Hc. by rewrite (write_all_panic _ _ Hin Hpanic).
Qed.
End writer_panic.

(** ** A proxy with one client and two cells *)
#[local] Instance sample_floats : FloatText.
Proof. refine {| FormatFloat64ToBytes _ := []; StrFloat64 _ := (0, None) |}. intros _. done. Defined.
#[local] Instance sample_errors : ErrorText.
Proof. refine {| ParseIntError _ _ := []; ParseFloatError _ _ := [] |}; intros _ _; apply not_elem_of_nil. Defined.
Abbreviation sample := (RedisProxy (list CellItem)).
Definition get : bytes := [x67; x65; x74].
Definition sample_cfg : Cfg := mkCfg 2 [get; mget] false.
Definition sample_range (id : Z) (start end_ : bytes) (addr : string) : Range :=
  mkRange (mkCell id start end_ (mkCellEpoch 1 1) []) (Some (mkStore id addr [] UP addr)).
Definition force {A} (d : A) (o : res A) : A := match o with Ok a => a | _ => d end.
Lemma force_ok {A} (d : A) (o : res A) : match o with Ok _ => true | _ => false end = true → o = Ok (force d o).
Proof. by destruct o. Qed.
Definition sample0 : sample := NewRedisProxy sample_cfg.
Definition sample1 : sample := force sample0 (on_watch_event (WCell (sample_range 1 [] [x6d] "s1")) sample0).
Definition sample2 : sample := force sample0 (on_watch_event (WCell (sample_range 2 [x6d] [] "s2")) sample1).
Definition sample3 : sample := client_connect 0%nat sample2.
(** Two commands of the client, for a key of each cell. *)
Definition id1 : bytes := replicate 16 x01.
Definition id2 : bytes := replicate 16 x02.
Definition sample4 : sample := force sample0 (on_command sample_cfg 0%nat [get; [x61]] id1 0%nat sample3).
Definition sample5 : sample := force sample0 (on_command sample_cfg 0%nat [get; [x7a]] id2 1%nat sample4).
(** The workers send them. *)
Definition sample6 : sample := force sample0 (worker_turn sample_cfg 1%nat [true] sample5).
Definition sample7 : sample := force sample0 (worker_turn sample_cfg 0%nat [true] sample6).

Lemma check_fresh (id : bytes) (p : sample) :
  bool_decide (length id = 16%nat ∧ map_Forall (λ _ q, take 16 (rq_uuid q) ≠ id) (px_heap p)) = true → fresh_id id p.
Proof. intros [Hl Hf]%bool_decide_eq_true. done. Qed.
Lemma check_free (r : nat) (p : sample) : bool_decide (map_Forall (λ k _, (k < r)%nat) (px_heap p)) = true → free_from r p.
Proof. intros Hf%bool_decide_eq_true k Hk. destruct (px_heap p !! k) eqn:Hq; [|done]. apply Hf in Hq. simpl in Hq. lia. Qed.
Lemma sample3_reachable : rtc (proxy_step sample_cfg) sample0 sample3.
Proof.
  eapply rtc_l; [apply (ps_watch sample_cfg (WCell (sample_range 1 [] [x6d] "s1"))), (force_ok sample0); reflexivity|].
  eapply rtc_l; [apply (ps_watch sample_cfg (WCell (sample_range 2 [x6d] [] "s2"))), (force_ok sample0); reflexivity|].
  apply rtc_once, ps_connect. reflexivity.
Qed.
Lemma sample4_reachable : rtc (proxy_step sample_cfg) sample0 sample4.
Proof.
  eapply rtc_r; [apply sample3_reachable|]. apply (ps_command sample_cfg 0%nat [get; [x61]] id1 0%nat);
    [apply check_fresh; vm_compute; reflexivity|apply check_free; vm_compute; reflexivity|apply (force_ok sample0); vm_compute; reflexivity].
Qed.
Lemma sample7_reachable : rtc (proxy_step sample_cfg) sample0 sample7.
Proof.
  eapply rtc_r; [eapply rtc_r; [eapply rtc_r; [apply sample4_reachable|]|]|].
  - apply (ps_command sample_cfg 0%nat [get; [x7a]] id2 1%nat);
      [apply check_fresh; vm_compute; reflexivity|apply check_free; vm_compute; reflexivity|apply (force_ok sample0); vm_compute; reflexivity].
  - apply (ps_worker sample_cfg 1%nat [true]), (force_ok sample0). vm_compute. reflexivity.
  - apply (ps_worker sample_cfg 0%nat [true]), (force_ok sample0). vm_compute. reflexivity.
Qed.

(** The first request cannot be written. *)
Definition sample8 : RedisProxy (list CellItem) := force sample0 (backend_write "s1" (Some [x65]) sample7).
Lemma sample8_run : proxy_run sample_cfg sample8 [0%nat].
Proof.
  apply (run_write_failed sample_cfg "s1"%string [x65] sample7 [] sample8 [0%nat]); [eapply rtc_run; [apply run_new|apply sample7_reachable]|apply (force_ok sample0); vm_compute; reflexivity|vm_compute; reflexivity].
Qed.
(** The stores answer the second key first. *)
Definition value_response (uuid v : bytes) : Response := mkResponse uuid 0 201 NoError (bulk_reply (Some v) None).
Lemma mget_in_key_order_witness :
  ∃ p' rs1 rs2 vals, on_command sample_cfg 0%nat [mget; [x61]; [x7a]] id1 0%nat sample3 = Ok p' ∧ px_sessions p' !! 0%nat = Some rs1 ∧
    session_resps [value_response (part_uuid id1 1) [x32]; value_response (part_uuid id1 0) [x31]] rs1 = Ok rs2 ∧
    items (ps_resps rs2) = [plain_response (slices_reply (Some vals) None)] ∧ length vals = 2%nat.
Proof.
  destruct (mget_in_key_order sample_cfg sample3 0%nat newSession mget [[x61]; [x7a]] id1 0%nat
    [value_response (part_uuid id1 1) [x32]; value_response (part_uuid id1 0) [x31]]) as (p' & rs1 & rs2 & vals & H1 & H2 & _ & H3 & H4 & H5 & _);
    [done|apply sample3_reachable|reflexivity|done|reflexivity|reflexivity|simpl; lia|simpl; unfold two63; lia|apply check_fresh; vm_compute; reflexivity
    |apply check_free; vm_compute; reflexivity|apply (bool_decide_unpack _); vm_compute; exact I|apply perm_swap|].
  exists p', rs1, rs2, vals. split_and!; [exact H1|exact H2|exact H3|exact H4|exact H5].
Defined.
Definition bad_id : bytes := x23 :: replicate 15 x01.
Lemma mget_hangs_witness :
  ∃ p' rs1, on_command sample_cfg 0%nat [mget; [x61]; [x7a]] bad_id 0%nat sample3 = Ok p' ∧ px_sessions p' !! 0%nat = Some rs1 ∧ items (ps_resps rs1) = [] ∧
    session_resps [value_response (part_uuid bad_id 0) [x31]; value_response (part_uuid bad_id 1) [x32]] rs1 = Ok rs1.
Proof.
  destruct (mget_hangs sample_cfg sample3 0%nat newSession mget [[x61]; [x7a]] bad_id 0%nat
    [value_response (part_uuid bad_id 0) [x31]; value_response (part_uuid bad_id 1) [x32]]) as (p' & rs1 & H1 & H2 & H3 & H4);
    [done|apply sample3_reachable|reflexivity|intros k [a Ha]; cbn [ps_aggregations newSession] in Ha; by rewrite lookup_empty in Ha|reflexivity|reflexivity|simpl; lia|apply check_fresh; vm_compute; reflexivity
    |apply check_free; vm_compute; reflexivity|apply (bool_decide_unpack _); vm_compute; exact I|apply Forall_cons; split; [by exists 0%nat|apply Forall_singleton; by exists 1%nat]|].
  exists p', rs1. rewrite H3. split_and!; [exact H1|exact H2|reflexivity|exact H4].
Defined.
(** The client asked for [a] first and gets the value of [z] first. *)
Lemma replies_in_arrival_order_witness :
  ∃ p' rs', onResps [value_response id2 [x32]; value_response id1 [x31]] sample7 = Ok p' ∧ px_sessions p' !! 0%nat = Some rs' ∧
    items (ps_resps rs') = [value_response id2 [x32]; value_response id1 [x31]].
Proof.
  destruct (replies_in_arrival_order sample_cfg sample7 0%nat newSession [value_response id2 [x32]; value_response id1 [x31]]) as (p' & rs' & H1 & H2 & H3);
    [apply sample7_reachable|vm_compute; reflexivity|done| |apply (bool_decide_unpack _); vm_compute; exact I|].
  - apply Forall_cons; split; [|apply Forall_singleton]; (split_and!; [done|reflexivity|eexists _, _; split_and!; vm_compute; reflexivity]).
  - exists p', rs'. split_and!; [exact H1|exact H2|exact H3].
Defined.
#[local] Instance one_zset : ZSetEngine unit := {|
  ZAdd _ _ _ s := (inr 0, s); ZCard _ _ := inr 0; ZCount _ _ _ _ := inr 0; ZIncrBy _ _ _ s := (inr None, s); ZLexCount _ _ _ _ := inr 0;
  ZRange _ _ _ _ := inr None; ZRangeByLex _ _ _ _ := inr None; ZRangeByScore _ _ _ _ := inr (Some [mkScorePair 0 [x61]]); ZRank _ _ _ := inr 0;
  ZRem _ _ s := (inr 0, s); ZRemRangeByLex _ _ _ s := (inr 0, s); ZRemRangeByRank _ _ _ s := (inr 0, s); ZRemRangeByScore _ _ _ s := (inr 0, s); ZScore _ _ _ := inr None |}.
Definition scores_answer : Response := response (scores_reply (Some [mkScorePair 0 [x61]]) has None).
Definition sample_scores : sample := set_sessions {[0%nat := put_resp scores_answer newSession]} sample3.
Lemma zrangebyscore_stops_proxy_witness : client_write 0%nat sample_scores = Panic.
Proof.
  apply (zrangebyscore_stops_proxy (S := unit) 0 sample_scores 0%nat (put_resp scores_answer newSession) 1 (mkRequest [] 607 [[x7a]; [x6b]; [x30]; [x31]] 0) (λ _, tt) scores_answer);
    [reflexivity|reflexivity|reflexivity|reflexivity|reflexivity|]. vm_compute. apply elem_of_cons. left. reflexivity.
Defined.
