(* ===== verification/Store.v ===== *)
(** * A store and its cells

    pkg/raftstore/store.go, store_check.go, the store half of raft_handle_do.go,
    peer.go and peer_job.go, and the jobs of pkg/util/task.go: how a store keeps
    its cell replicates, the tree of key ranges that routes requests, the apply
    delegates, pending snapshots and dropped votes; how it answers raft messages,
    creates, splits and destroys replicates, and how it starts from what is
    persisted.  The raft library is the record [RaftLib]; messages that leave the
    store, jobs for its workers and notifications are a trace of [effect]s and a
    queue of [job]s.  Logging, metrics and timers are left out. *)

From S2P Require Import Prelude Encoding Strconv Meta Keys BTree CellTree KVTree RaftTypes RaftLog RaftApply Propose.

(** ** pkg/util/task.go: the states of a job *)
Inductive JobState := Pending | Running | Cancelling | Cancelled | Finished | Failed.
#[export] Instance JobState_eq_dec : EqDecision JobState.
Proof. solve_decision. Defined.
Definition IsNotComplete (s : JobState) : bool :=
  bool_decide (s = Pending) || bool_decide (s = Running) || bool_decide (s = Cancelling).
Definition Cancel (s : JobState) : JobState := if bool_decide (s = Pending) then Cancelling else s.
Definition IsCancelled (s : JobState) : bool := bool_decide (s = Cancelled).
(** What the worker makes of a job it takes, and of the error it returns. *)
Definition job_start (s : JobState) : JobState * bool :=
  match s with Pending => (Running, true) | Cancelling => (Cancelled, false) | s => (s, false) end.
Inductive job_error := ErrJobCancelled | ErrJobFailed.
Definition job_end (s : JobState) (err : option job_error) : JobState :=
  match err with
  | Some ErrJobCancelled => Cancelled
  | Some ErrJobFailed => Failed
  | None => if bool_decide (s = Cancelling) then Cancelled else Finished
  end.

(** ** Messages *)
Inductive MessageType := MsgVote | MsgHeartbeat | MsgOther (t : Z).
#[export] Instance MessageType_eq_dec : EqDecision MessageType.
Proof. solve_decision. Defined.
Record SnapHeader := mkSnapHeader {
  SH_Cell : Cell; SH_FromPeer : Peer; SH_ToPeer : Peer; SH_Term : Z; SH_Index : Z;
}.
(** The data of the snapshot of a message: none, undecodable, or its header. *)
Inductive snap_data := NoSnap | BadSnap | SnapData (h : SnapHeader).
Record Message := mkMessage { M_Type : MessageType; M_Commit : Z; M_Snapshot : snap_data }.
Record RaftMessage := mkRaftMessage {
  RM_CellID : Z;
  RM_FromPeer : Peer;
  RM_ToPeer : Peer;
  RM_CellEpoch : CellEpoch;
  RM_IsTombstone : bool;
  RM_Start : bytes;
  RM_End : bytes;
  RM_Message : Message;
}.
Definition emptyMessage : Message := mkMessage (MsgOther 0) 0 NoSnap.
Inductive SnapAck := AckAccept | AckReject | AckReceived.
#[export] Instance SnapAck_eq_dec : EqDecision SnapAck.
Proof. solve_decision. Defined.

(** ** The state of a store *)
(** A replicate of the store, with the job that applies its snapshot. *)
Record replicate := mkReplicate { r_pr : PeerReplicate; r_snapJob : option JobState }.
Definition r_ps (r : replicate) : peerStorage := pr_ps (r_pr r).
Definition r_cell (r : replicate) : Cell := ps_cell (r_ps r).
Definition set_rpr (pr : PeerReplicate) (r : replicate) : replicate := mkReplicate pr (r_snapJob r).
Definition setCell (c : Cell) (r : replicate) : replicate :=
  let ps := r_ps r in
  set_rpr (set_ps (mkPeerStorage c (lastTerm ps) (appliedIndexTerm ps) (lastReadyIndex ps) (lastCompactIndex ps) (raftState ps) (applyState ps)) (r_pr r)) r.

Inductive job :=
  | JDestroy (cellID : Z) (peer : Peer)
  | JRegistration (cellID : Z) (d : applyDelegate)
  | JApplySnap (cellID : Z)
  | JClearData (engineID : Z) (startKey endKey : bytes)
  | JRaftLogGC (cellID startIndex endIndex : Z).

(** What leaves the store: messages to other stores, raft messages and requests
    for the event loop of a replicate, queries for the query loop (Query), calls of PD and of the snapshot manager,
    notes for the indexer. *)
Inductive store_effect :=
  | SSendRaft (m : RaftMessage)
  | SSendAck (h : SnapHeader) (ack : SnapAck)
  | SSendAsk (h : SnapHeader)
  | SStep (cellID : Z) (m : Message)
  | SHeartbeat (cellID : Z)
  | SReportSplit (left_ right_ : Cell)
  | SCampaign (cellID : Z)
  | SRemoveSending (peerID : Z)
  | SAskSplit (cell : Cell) (peer : Peer) (splitKey : bytes)
  | SReceiveSnap (h : SnapHeader) (last : bool)
  | SCleanSnap (h : SnapHeader)
  | SIndexSplit (left_ right_ : Z)
  | SIndexRebuild (cell : Cell)
  | SIndexDestroy (cell : Cell)
  | SRequest (cellID : Z) (req : Request) (cb : Z)
  | SQuery (req : Request) (cb : Z).

Record Store (E D T : Type) := mkStore {
  s_id : Z;
  s_replicatesMap : gmap Z replicate;
  s_keyRanges : T;
  s_peerCache : gmap Z Peer;
  s_delegates : gmap Z applyDelegate;
  s_pendingSnapshots : gmap Z SnapHeader;
  s_droppedVoteMsgs : gmap Z Message;
  s_jobs : list job;
  s_effects : list store_effect;
  s_world : world E D;
}.
Arguments mkStore {E D T}.
Arguments s_id {E D T} _.
Arguments s_replicatesMap {E D T} _.
Arguments s_keyRanges {E D T} _.
Arguments s_peerCache {E D T} _.
Arguments s_delegates {E D T} _.
Arguments s_pendingSnapshots {E D T} _.
Arguments s_droppedVoteMsgs {E D T} _.
Arguments s_jobs {E D T} _.
Arguments s_effects {E D T} _.
Arguments s_world {E D T} _.

(** ** The raft library *)
Record RaftLib := mkRaftLib {
  NewRawNode : Z → Z → HardState → list Z → peerStorage → option RaftStatus;
  Campaign : RaftStatus → option RaftStatus;
  ApplyConfChange : option ConfChange → RaftStatus → RaftStatus;
}.

(** ** The data engines: [RangeDelete] of a driver *)
Class DataEngines (V D : Type) := {
  RangeDelete : Z → bytes → bytes → D → D;
  data_map : D → Z → gmap bytes V;
  RangeDelete_lookup i s t d j k :
    data_map (RangeDelete i s t d) j !! k = if decide (j = i ∧ ble s k ∧ blt k t) then None else data_map d j !! k;
}.

Section store.
Context {E D T V : Type} `{!Engine value E} `{OT : !OrderedTree CellItem Less T} `{!DataEngines V D}.
Context (enginesMask : Z) (raft : RaftLib).
Abbreviation storeE := (Store E D T).
Abbreviation res A := (outcome unit A).

(** [log.Fatalf] on an error. *)
Definition must {X A} (o : outcome X A) : res A := match o with Ok a => Ok a | _ => Panic end.

Definition set_replicates (m : gmap Z replicate) (s : storeE) : storeE :=
  mkStore (s_id s) m (s_keyRanges s) (s_peerCache s) (s_delegates s) (s_pendingSnapshots s) (s_droppedVoteMsgs s) (s_jobs s) (s_effects s) (s_world s).
Definition set_keyRanges (t : T) (s : storeE) : storeE :=
  mkStore (s_id s) (s_replicatesMap s) t (s_peerCache s) (s_delegates s) (s_pendingSnapshots s) (s_droppedVoteMsgs s) (s_jobs s) (s_effects s) (s_world s).
Definition set_peerCache (m : gmap Z Peer) (s : storeE) : storeE :=
  mkStore (s_id s) (s_replicatesMap s) (s_keyRanges s) m (s_delegates s) (s_pendingSnapshots s) (s_droppedVoteMsgs s) (s_jobs s) (s_effects s) (s_world s).
Definition set_delegates (m : gmap Z applyDelegate) (s : storeE) : storeE :=
  mkStore (s_id s) (s_replicatesMap s) (s_keyRanges s) (s_peerCache s) m (s_pendingSnapshots s) (s_droppedVoteMsgs s) (s_jobs s) (s_effects s) (s_world s).
Definition set_pending (m : gmap Z SnapHeader) (s : storeE) : storeE :=
  mkStore (s_id s) (s_replicatesMap s) (s_keyRanges s) (s_peerCache s) (s_delegates s) m (s_droppedVoteMsgs s) (s_jobs s) (s_effects s) (s_world s).
Definition set_dropped (m : gmap Z Message) (s : storeE) : storeE :=
  mkStore (s_id s) (s_replicatesMap s) (s_keyRanges s) (s_peerCache s) (s_delegates s) (s_pendingSnapshots s) m (s_jobs s) (s_effects s) (s_world s).
Definition add_job (j : job) (s : storeE) : storeE :=
  mkStore (s_id s) (s_replicatesMap s) (s_keyRanges s) (s_peerCache s) (s_delegates s) (s_pendingSnapshots s) (s_droppedVoteMsgs s) (s_jobs s ++ [j]) (s_effects s) (s_world s).
Definition set_jobs (l : list job) (s : storeE) : storeE :=
  mkStore (s_id s) (s_replicatesMap s) (s_keyRanges s) (s_peerCache s) (s_delegates s) (s_pendingSnapshots s) (s_droppedVoteMsgs s) l (s_effects s) (s_world s).
Definition emit (e : store_effect) (s : storeE) : storeE :=
  mkStore (s_id s) (s_replicatesMap s) (s_keyRanges s) (s_peerCache s) (s_delegates s) (s_pendingSnapshots s) (s_droppedVoteMsgs s) (s_jobs s) (s_effects s ++ [e]) (s_world s).
Definition set_world (w : world E D) (s : storeE) : storeE :=
  mkStore (s_id s) (s_replicatesMap s) (s_keyRanges s) (s_peerCache s) (s_delegates s) (s_pendingSnapshots s) (s_droppedVoteMsgs s) (s_jobs s) (s_effects s) w.

Definition put_replicate (id : Z) (r : replicate) (s : storeE) : storeE := set_replicates (<[id := r]> (s_replicatesMap s)) s.
Definition getPeerReplicate (s : storeE) (id : Z) : option replicate := s_replicatesMap s !! id.
Definition addPeerToCache (p : Peer) (s : storeE) : storeE := set_peerCache (<[Peer_ID p := p]> (s_peerCache s)) s.
Definition cache_peers (ps : list Peer) (s : storeE) : storeE := foldl (λ s p, addPeerToCache p s) s ps.
Definition emptyPeer : Peer := mkPeer 0 0.
Definition getPeer (s : storeE) (id : Z) : Peer := default emptyPeer (s_peerCache s !! id).
Definition store_engine (s : storeE) (id : Z) : E := engine_of enginesMask (s_world s) id.

(** ** Routing *)
Definition searchCell (s : storeE) (key : bytes) : Cell := Search (s_keyRanges s) key.
(** [keyConvertFun] is [NoConvert] or looks the cell up by a hash of the key. *)
Definition getTargetCell (keyConvertFun : bytes → bytes) (s : storeE) (key : bytes) : option replicate :=
  let c := searchCell s (keyConvertFun key) in
  if bool_decide (Cell_ID c = 0) then None else getPeerReplicate s (Cell_ID c).

(** [OnProxyReq]: a query is converted and put on the channel of the query loop, or refused when
    [convertToQueryReq] (Query) fails; [queryable] says whether it succeeds.  [req.Cmd[0]] or
    [req.Cmd[1]] out of range panics.  A request for a key of no cell is answered with an error (whose
    fresh UUID [buildUUID] leaves out). *)
Definition query_cmd : bytes := [x71; x75; x65; x72; x79].
Definition respStoreNotMatch (req : Request) (cb : Z) (s : storeE) : storeE :=
  let rsp := errorPbResp StoreNotMatch [] 0 in
  let rsp := mkRaftRsp (RspHeader rsp) [mkResponse (Req_UUID req) (Req_SessionID req) 0 NoError emptyReply] (AdminRsp rsp) in
  let w := s_world s in
  set_world (mkWorld (w_engines w) (w_data w) (w_responses w ++ [(cb, rsp)]) (w_removedSnaps w)) s.
Definition OnProxyReq (keyConvertFun : bytes → bytes) (queryable : Request → bool) (req : Request) (cb : Z) (s : storeE) : res storeE :=
  match Req_Cmd req with
  | [] => Panic
  | name :: args =>
      if bool_decide (ToLower name = query_cmd) then if queryable req then Ok (emit (SQuery req cb) s) else Err tt
      else match args with
           | [] => Panic
           | key :: _ =>
               match getTargetCell keyConvertFun s key with
               | None => Ok (respStoreNotMatch req cb s)
               | Some r => Ok (emit (SRequest (pr_cellID (r_pr r)) req cb) s)
               end
           end
  end.

(** [OnRedisCommand]: [cmd.Args()[0]] out of range panics, and [errStoreNotMatch]
    is its only error.  [uuid] is the fresh id of the request. *)
Definition OnRedisCommand (keyConvertFun : bytes → bytes) (uuid : bytes) (sessionID cmdType : Z) (cmd : list bytes) (cb : Z) (s : storeE)
    : res (bytes * storeE) :=
  match cmd !! 1%nat with
  | None => Panic
  | Some key =>
      match getTargetCell keyConvertFun s key with
      | None => Err tt
      | Some r => Ok (uuid, emit (SRequest (pr_cellID (r_pr r)) (mkRequest uuid cmdType cmd sessionID) cb) s)
      end
  end.

(** ** Creating replicates *)
Inductive create_error := ErrNoPeer | ErrInvalidPeerID | ErrStorage (e : ps_error) | ErrRaft.
Definition lift_ps {A} (o : outcome ps_error A) : outcome create_error A :=
  match o with Ok a => Ok a | Err e => Err (ErrStorage e) | Panic => Panic end.

(** [raft.NewRawNode] asks the storage for its initial state first. *)
Definition newPeerReplicate (s : storeE) (c : Cell) (peerID : Z) : outcome create_error replicate :=
  if bool_decide (peerID = 0) then Err ErrInvalidPeerID
  else
    let! ps := lift_ps (newPeerStorage c (store_engine s (Cell_ID c))) in
    let! (hs, nodes) := lift_ps (InitialState ps) in
    match NewRawNode raft peerID (getAppliedIndex ps) hs nodes ps with
    | None => Err ErrRaft
    | Some rn =>
        let! rn := match Peers c with
                   | [p] => if bool_decide (Peer_StoreID p = s_id s)
                            then match Campaign raft rn with Some rn => Ok rn | None => Err ErrRaft end else Ok rn
                   | _ => Ok rn
                   end in
        Ok (mkReplicate (mkPR (Cell_ID c) (newPeer peerID (s_id s)) ps rn newBatch [] 0 0 emptyApplyMetrics) None)
    end.
Definition createPeerReplicate (s : storeE) (c : Cell) : outcome create_error replicate :=
  match findPeer c (s_id s) with
  | None => Err ErrNoPeer
  | Some p => newPeerReplicate s c (Peer_ID p)
  end.
Definition doReplicate (s : storeE) (msg : RaftMessage) (peerID : Z) : outcome create_error replicate :=
  newPeerReplicate s (mkCell (RM_CellID msg) (RM_Start msg) (RM_End msg) (RM_CellEpoch msg) []) peerID.

Definition delegate_of (r : replicate) : applyDelegate :=
  mkDelegate (Peer_ID (pr_peer (r_pr r))) (r_cell r) false (applyState (r_ps r)) (appliedIndexTerm (r_ps r)) (getCurrentTerm (r_pr r)) [] None.
Definition startRegistrationJob (r : replicate) (s : storeE) : storeE := add_job (JRegistration (pr_cellID (r_pr r)) (delegate_of r)) s.

(** ** Snapshots that are being applied *)
Definition isApplyingSnap (r : replicate) : bool := match r_snapJob r with Some j => IsNotComplete j | None => false end.
(** Cancelling asks a pending job to stop; the answer says whether it has. *)
Definition cancelApplyingSnapJob (r : replicate) : replicate * bool :=
  match r_snapJob r with
  | None => (r, true)
  | Some j =>
      let r := mkReplicate (r_pr r) (Some (Cancel j)) in
      if IsCancelled (Cancel j) then (r, true) else (r, negb (isApplyingSnap r))
  end.
Definition startApplyingSnapJob (r : replicate) (s : storeE) : replicate * storeE :=
  (mkReplicate (r_pr r) (Some Pending), add_job (JApplySnap (pr_cellID (r_pr r))) s).

(** ** Pending snapshots and dropped votes *)
Fixpoint overlaps_pending (hs : list SnapHeader) (c : Cell) : outcome encoding_error bool :=
  match hs with
  | [] => Ok false
  | h :: hs' =>
      let! o := HasOverlap (SH_Cell h) c in
      if o && negb (bool_decide (Cell_ID (SH_Cell h) = Cell_ID c)) then Ok true else overlaps_pending hs' c
  end.
Context `{!MapOrder}.
Definition hasOverlapInPendingSnapshots (s : storeE) (c : Cell) : res bool := must (overlaps_pending (range_values (s_pendingSnapshots s)) c).
Definition addPendingSnapshot (h : SnapHeader) (s : storeE) : res (bool * storeE) :=
  let! o := hasOverlapInPendingSnapshots s (SH_Cell h) in
  if (o : bool) then Ok (false, s) else Ok (true, set_pending (<[Cell_ID (SH_Cell h) := h]> (s_pendingSnapshots s)) s).
Definition removePendingSnapshot (id : Z) (s : storeE) : storeE := set_pending (delete id (s_pendingSnapshots s)) s.
Definition cacheDroppedVoteMsg (id : Z) (m : Message) (s : storeE) : storeE :=
  if bool_decide (M_Type m = MsgVote) then set_dropped (<[id := m]> (s_droppedVoteMsgs s)) s else s.
Definition removeDroppedVoteMsg (id : Z) (s : storeE) : option Message * storeE :=
  (s_droppedVoteMsgs s !! id, set_dropped (delete id (s_droppedVoteMsgs s)) s).

(** ** Destroying replicates *)
(** [PeerReplicate.destroy]: the metadata of the cell makes room for a tombstone;
    the data is deleted by a job. *)
Definition clearData (r : replicate) (s : storeE) : res storeE :=
  let c := r_cell r in
  let! startKey := must (encStartKey c) in
  let! endKey := must (encEndKey c) in
  Ok (add_job (JClearData (Cell_ID c) startKey endKey) s).
Definition destroy_replicate (r : replicate) (s : storeE) : res storeE :=
  let id := pr_cellID (r_pr r) in
  let s := (removeDroppedVoteMsg id (removePendingSnapshot id s)).2 in
  let wb := clearMeta id [] (store_engine s id) in
  let wb := updatePeerState (r_cell r) PeerTombstone wb in
  let s := set_world (driver_write enginesMask id wb (s_world s)) s in
  if isInitialized (r_ps r) then clearData r s else Ok s.

Definition destroyPeer (cellID : Z) (target : Peer) (async : bool) (s : storeE) : res storeE :=
  if negb async then
    match s_replicatesMap s !! cellID with
    | None => Panic
    | Some r =>
        let s := set_replicates (delete cellID (s_replicatesMap s)) s in
        if isApplyingSnap r then Panic
        else
          let! s := destroy_replicate r s in
          let! s := (if isInitialized (r_ps r) then
                       let '(removed, t) := Remove (s_keyRanges s) (r_cell r) in
                       if (removed : bool) then Ok (set_keyRanges t s) else Panic
                     else Ok s) in
          Ok (emit (SIndexDestroy (r_cell r)) s)
    end
  else Ok (add_job (JDestroy cellID target) s).

(** ** Raft messages *)
Definition isRaftMsgValid (msg : RaftMessage) (s : storeE) : bool := bool_decide (Peer_StoreID (RM_ToPeer msg) = s_id s).

Definition handleGCPeerMsg (msg : RaftMessage) (s : storeE) : res storeE :=
  match s_replicatesMap s !! RM_CellID msg with
  | None => Ok s
  | Some r =>
      if isEpochStale (Epoch (r_cell r)) (RM_CellEpoch msg) then destroyPeer (RM_CellID msg) (RM_ToPeer msg) (isInitialized (r_ps r)) s
      else Ok s
  end.

Definition handleStaleMsg (msg : RaftMessage) (currEpoch : CellEpoch) (needGC : bool) (s : storeE) : storeE :=
  if negb needGC then s
  else emit (SSendRaft (mkRaftMessage (RM_CellID msg) (RM_ToPeer msg) (RM_FromPeer msg) currEpoch true [] [] emptyMessage)) s.

(** [None] when there is no state, [Err] when the value is not a cell state. *)
Definition loadCellLocalState (s : storeE) (id : Z) : outcome unit (option CellLocalState) :=
  match Engine_Get (getCellStateKey id) (store_engine s id) with
  | None => Ok None
  | Some (VCellState st) => Ok (Some st)
  | Some _ => Err tt
  end.

(** Whether the message is stale; [Err] stands for the error of the source, with
    the store as it is left. *)
Inductive msg_verdict := MStale | MFresh | MError.
#[local] Instance msg_verdict_eq_dec : EqDecision msg_verdict.
Proof. solve_decision. Defined.
Definition isMsgStale (msg : RaftMessage) (s : storeE) : res (msg_verdict * storeE) :=
  let id := RM_CellID msg in
  let fromEpoch := RM_CellEpoch msg in
  let isVoteMsg := bool_decide (M_Type (RM_Message msg) = MsgVote) in
  let fromStoreID := Peer_StoreID (RM_FromPeer msg) in
  match getPeerReplicate s id with
  | Some r =>
      let c := r_cell r in
      if isEpochStale fromEpoch (Epoch c) && bool_decide (findPeer c fromStoreID = None)
      then Ok (MStale, handleStaleMsg msg (Epoch c) isVoteMsg s) else Ok (MFresh, s)
  | None =>
      match loadCellLocalState s id with
      | Panic => Panic
      | Err _ => Ok (MError, s)
      | Ok None => Ok (MFresh, s)
      | Ok (Some st) =>
          if negb (bool_decide (LS_State st = PeerTombstone)) then Ok (MError, cacheDroppedVoteMsg id (RM_Message msg) s)
          else
            let cellEpoch := Epoch (LS_Cell st) in
            if isEpochStale fromEpoch cellEpoch then
              let notExist := bool_decide (findPeer (LS_Cell st) fromStoreID = None) in
              Ok (MStale, handleStaleMsg msg cellEpoch (isVoteMsg && notExist) s)
            else if bool_decide (ConfVer fromEpoch = ConfVer cellEpoch) then Ok (MError, s)
            else Ok (MFresh, s)
      end
  end.

Definition invalidIndex : Z := 0.
(** The new replicate: its cell is known to have the two peers of the message. *)
Definition add_peers (r : replicate) (msg : RaftMessage) : replicate :=
  setCell (set_peers (Peers (r_cell r) ++ [RM_ToPeer msg; RM_FromPeer msg]) (r_cell r)) r.
Definition create_for (cellID : Z) (msg : RaftMessage) (s : storeE) : res (bool * storeE) :=
  let m := RM_Message msg in
  if negb (bool_decide (M_Type m = MsgVote)) &&
     (negb (bool_decide (M_Type m = MsgHeartbeat)) || negb (bool_decide (M_Commit m = invalidIndex))) then Ok (false, s)
  else
    let item := Search (s_keyRanges s) (RM_Start msg) in
    let! overlapped := (if bool_decide (0 < Cell_ID item) then
                          let! start := must (encStartKey item) in Ok (bltb start (getDataEndKey (RM_End msg)))
                        else Ok false) in
    if (overlapped : bool) then
      Ok (false, match getPeerReplicate s (Cell_ID item) with Some _ => cacheDroppedVoteMsg cellID m s | None => s end)
    else match doReplicate s msg (Peer_ID (RM_ToPeer msg)) with
    | Panic => Panic
    | Err _ => Ok (false, s)
    | Ok r =>
        let r := add_peers r msg in
        let s := set_keyRanges (Update (s_keyRanges s) (r_cell r)) s in
        let s := put_replicate cellID r s in
        Ok (true, addPeerToCache (RM_ToPeer msg) (addPeerToCache (RM_FromPeer msg) s))
    end.

Definition tryToCreatePeerReplicate (cellID : Z) (msg : RaftMessage) (s : storeE) : res (bool * storeE) :=
  let target := RM_ToPeer msg in
  match getPeerReplicate s cellID with
  | None => create_for cellID msg s
  | Some r =>
      let peer := pr_peer (r_pr r) in
      if bool_decide (Peer_ID peer < Peer_ID target) then
        let '(r, cancelled) := if isApplyingSnap r then cancelApplyingSnapJob r else (r, true) in
        let s := put_replicate cellID r s in
        if negb cancelled then Ok (false, s)
        else
          let asyncRemove := isInitialized (r_ps r) in
          if bool_decide (0 < Peer_ID peer) then
            let! s := destroyPeer cellID peer asyncRemove s in
            if asyncRemove then Ok (false, s) else create_for cellID msg s
          else Ok (true, s)
      else if bool_decide (Peer_ID target < Peer_ID peer) then Ok (false, s)
      else Ok (true, s)
  end.

Definition set_peers_of (h : SnapHeader) (from to : Peer) : SnapHeader := mkSnapHeader (SH_Cell h) from to (SH_Term h) (SH_Index h).
Inductive snap_verdict := SnapOk | SnapRefused | SnapError.
Definition checkSnapshot (msg : RaftMessage) (s : storeE) : res (snap_verdict * storeE) :=
  match M_Snapshot (RM_Message msg) with
  | NoSnap => Ok (SnapOk, s)
  | BadSnap => Ok (SnapError, s)
  | SnapData h =>
      match getPeerReplicate s (RM_CellID msg) with
      | None => Panic
      | Some r =>
          if isInitialized (r_ps r) then Ok (SnapOk, s)
          else
            let h := set_peers_of h (RM_ToPeer msg) (RM_FromPeer msg) in
            let reject := Ok (SnapRefused, emit (SSendAck h AckReject) s) in
            let snapCell := SH_Cell h in
            if negb (bool_decide (Exists (λ p, Peer_ID p = Peer_ID (RM_ToPeer msg)) (Peers snapCell))) then reject
            else
              let item := Search (s_keyRanges s) (Start snapCell) in
              let! overlapped := (if bool_decide (0 < Cell_ID item) then
                                    match getPeerReplicate s (Cell_ID item) with
                                    | None => Panic
                                    | Some x =>
                                        let! start := must (encStartKey (r_cell x)) in
                                        let! end_ := must (encEndKey snapCell) in Ok (bltb start end_)
                                    end
                                  else Ok false) in
              if (overlapped : bool) then reject
              else
                let! (added, s) := addPendingSnapshot h s in
                if (added : bool) then Ok (SnapOk, s) else Ok (SnapRefused, emit (SSendAck h AckReject) s)
      end
  end.

Definition onRaftMessage (msg : RaftMessage) (s : storeE) : res storeE :=
  if negb (isRaftMsgValid msg s) then Ok s
  else if RM_IsTombstone msg then handleGCPeerMsg msg s
  else
    let! (v, s) := isMsgStale msg s in
    match v with
    | MStale | MError => Ok s
    | MFresh =>
        let! (ok, s) := tryToCreatePeerReplicate (RM_CellID msg) msg s in
        if negb (ok : bool) then Ok s
        else
          let! (v, s) := checkSnapshot msg s in
          match v with
          | SnapRefused | SnapError => Ok s
          | SnapOk =>
              let s := addPeerToCache (RM_FromPeer msg) s in
              match getPeerReplicate s (RM_CellID msg) with
              | None => Panic
              | Some r => Ok (emit (SStep (pr_cellID (r_pr r)) (RM_Message msg)) s)
              end
          end
    end.

(** ** Snapshot messages *)
Definition onSnapshotAsk (h : SnapHeader) (s : storeE) : storeE :=
  let id := Cell_ID (SH_Cell h) in
  let pending := default (mkSnapHeader emptyCell emptyPeer emptyPeer 0 0) (s_pendingSnapshots s !! id) in
  let reply := set_peers_of h (SH_ToPeer h) (SH_FromPeer h) in
  let ack :=
    match getPeerReplicate s id with
    | None => AckReject
    | Some r =>
        if isEpochStale (Epoch (SH_Cell h)) (Epoch (r_cell r)) then AckReject
        else if isEpochStale (Epoch (SH_Cell h)) (Epoch (SH_Cell pending)) then AckReject
        else if bool_decide (SH_Term h < SH_Term pending) || bool_decide (SH_Index h < SH_Index pending) then AckReject
        else AckAccept
    end in
  emit (SSendAck reply ack) s.
(** [sendingEpoch] is what the transport has of a snapshot it is sending. *)
Definition onSnapshotAck (sendingEpoch : Z → option CellEpoch) (h : SnapHeader) (ack : SnapAck) (s : storeE) : storeE :=
  match ack with
  | AckReject => emit (SCleanSnap h) (emit (SRemoveSending (Peer_ID (SH_FromPeer h))) s)
  | AckAccept =>
      match sendingEpoch (Peer_ID (SH_FromPeer h)) with
      | None => s
      | Some e => if isEpochStale (Epoch (SH_Cell h)) e then s else emit (SSendAsk (set_peers_of h (SH_ToPeer h) (SH_FromPeer h))) s
      end
  | AckReceived => emit (SCleanSnap h) s
  end.
Definition onSnapshotChunk (h : SnapHeader) (last : bool) (s : storeE) : storeE :=
  let s := emit (SReceiveSnap h last) s in
  if last then emit (SSendAck (set_peers_of h (SH_ToPeer h) (SH_FromPeer h)) AckReceived) s else s.

(** ** The result of a split check *)
Definition onSplitCheckResult (cellID : Z) (splitKey : bytes) (epoch : CellEpoch) (s : storeE) : storeE :=
  if bool_decide (splitKey = []) then s
  else match s_replicatesMap s !! cellID with
  | None => s
  | Some r =>
      if negb (pr_isLeader (r_pr r)) then s
      else if bool_decide (CellVer (Epoch (r_cell r)) ≠ CellVer epoch) then s
      else emit (SAskSplit (r_cell r) (pr_peer (r_pr r)) splitKey) s
  end.

(** ** What was applied *)
Definition update_rn (f : RaftStatus → RaftStatus) (r : replicate) : replicate :=
  let pr := r_pr r in
  set_rpr (mkPR (pr_cellID pr) (pr_peer pr) (pr_ps pr) (f (pr_rn pr)) (pr_batch pr) (pr_reads pr) (pr_readyCnt pr) (pr_raftLogSizeHint pr) (pr_counters pr)) r.

Definition doApplyConfChange (cellID : Z) (cp : changePeer) (s : storeE) : res storeE :=
  match s_replicatesMap s !! cellID with
  | None => Panic
  | Some r =>
      let r := update_rn (ApplyConfChange raft (cp_confChange cp)) r in
      let s := put_replicate cellID r s in
      match cp_confChange cp with
      | None => Ok s
      | Some cc =>
          if bool_decide (CC_NodeID cc = 0) then Ok s
          else
            let r := setCell (cp_cell cp) r in
            let s := put_replicate cellID r s in
            let s := if pr_isLeader (r_pr r) then emit (SHeartbeat cellID) s else s in
            match CC_Type cc with
            | AddNode => Ok (addPeerToCache (cp_peer cp) s)
            | RemoveNode =>
                let s := set_peerCache (delete (Peer_ID (cp_peer cp)) (s_peerCache s)) s in
                if bool_decide (Peer_StoreID (cp_peer cp) = s_id s) then
                  if bool_decide (Peer_ID (cp_peer cp) = Peer_ID (pr_peer (r_pr r))) then destroyPeer cellID (cp_peer cp) false s
                  else Panic
                else Ok s
            end
      end
  end.

(** The end of [doApplySplit]: the leader campaigns for the new cell and reports
    to PD, a follower hands a vote it dropped earlier to the new replicate. *)
Definition announce_split (leader : bool) (cellID : Z) (left_ right_ : Cell) (s : storeE) : storeE :=
  let newCellID := Cell_ID right_ in
  let s := if leader && bool_decide (1 < length (Peers right_))%nat then emit (SCampaign newCellID) s else s in
  let s := if leader then emit (SReportSplit left_ right_) (emit (SHeartbeat cellID) s)
           else match removeDroppedVoteMsg newCellID s with
                | (Some vote, s) => emit (SStep newCellID vote) s
                | (None, s) => s
                end in
  emit (SIndexSplit (Cell_ID left_) (Cell_ID right_)) s.

(** [doApplySplit] holds no lock across its stages: requests, which the store serves on
    other goroutines, see the store between any two of them ([split_windows] of StoreProps).
    The first stage gives the replicate its new cell, caches the peers and creates the new
    replicate, which is due for a split check at once (its size hint is
    [ThresholdSplitCheckBytes]); the tree then takes the two ranges one by one, and the last
    stage registers the new replicate. *)
Definition split_prepare (threshold cellID : Z) (left_ right_ : Cell) (s : storeE) : res (bool * replicate * storeE) :=
  match s_replicatesMap s !! cellID with
  | None => Panic
  | Some r =>
      let r := setCell left_ r in
      let s := put_replicate cellID r s in
      let s := cache_peers (Peers right_) s in
      let! s := match s_replicatesMap s !! Cell_ID right_ with
                | None => Ok s
                | Some newPR => if isInitialized (r_ps newPR) then Panic else Ok (cache_peers (Peers right_) s)
                end in
      let! newPR := must (createPeerReplicate s right_) in
      Ok (pr_isLeader (r_pr r), set_rpr (set_counters (mkMetrics threshold 0 0 0) (r_pr newPR)) newPR, s)
  end.
Definition update_range (c : Cell) (s : storeE) : storeE := set_keyRanges (Update (s_keyRanges s) c) s.
Definition split_publish (leader : bool) (newPR : replicate) (cellID : Z) (left_ right_ : Cell) (s : storeE) : storeE :=
  let s := startRegistrationJob newPR s in
  announce_split leader cellID left_ right_ (put_replicate (pr_cellID (r_pr newPR)) newPR s).
Definition doApplySplit (threshold cellID : Z) (left_ right_ : Cell) (s : storeE) : res storeE :=
  let! (leader, newPR, s) := split_prepare threshold cellID left_ right_ s in
  let s := update_range left_ s in
  let s := update_range right_ s in
  Ok (split_publish leader newPR cellID left_ right_ s).

(** The division is Go's, on [uint64]. *)
Definition doApplyRaftLogGC (cellID : Z) (st : RaftTruncatedState) (firstIndex : Z) (s : storeE) : res storeE :=
  match s_replicatesMap s !! cellID with
  | None => Ok s
  | Some r =>
      let pr := r_pr r in
      let ps := r_ps r in
      let total := u64 (lastReadyIndex ps - firstIndex) in
      let remain := u64 (lastReadyIndex ps - Trunc_Index st - 1) in
      if bool_decide (total = 0) then Panic
      else
        let hint := u64 (pr_raftLogSizeHint pr * remain) / total in
        let startIndex := lastCompactIndex ps in
        let endIndex := u64 (Trunc_Index st + 1) in
        let ps := mkPeerStorage (ps_cell ps) (lastTerm ps) (appliedIndexTerm ps) (lastReadyIndex ps) endIndex (raftState ps) (applyState ps) in
        let pr := mkPR (pr_cellID pr) (pr_peer pr) ps (pr_rn pr) (pr_batch pr) (pr_reads pr) (pr_readyCnt pr) hint (pr_counters pr) in
        Ok (add_job (JRaftLogGC cellID startIndex endIndex) (put_replicate cellID (set_rpr pr r) s))
  end.

Definition doPostApplyResult (threshold : Z) (a : asyncApplyResult) (s : storeE) : res storeE :=
  match ar_result a with
  | Some (RsChangePeer cp) => doApplyConfChange (ar_cellID a) cp s
  | Some (RsSplit l r) => doApplySplit threshold (ar_cellID a) l r s
  | Some (RsRaftGC st firstIndex) => doApplyRaftLogGC (ar_cellID a) st firstIndex s
  | None => Ok s
  end.

(** ** A snapshot in a [Ready]: [doApplySnap] and [updateKeyRange] *)
(** [clearExtraData] compares the range of the cell with itself, so it starts no
    job; the range must be known. *)
Definition clearExtraData (c newCell : Cell) (s : storeE) : res storeE :=
  let! oldStart := must (encStartKey c) in
  let! oldEnd := must (encEndKey c) in
  let! newStart := must (encStartKey newCell) in
  let! newEnd := must (encEndKey newCell) in
  let s := if bltb oldStart newStart then add_job (JClearData (Cell_ID newCell) oldStart newStart) s else s in
  Ok (if bltb newEnd oldEnd then add_job (JClearData (Cell_ID newCell) newEnd oldEnd) s else s).
(** The replicate after the [Ready], and the previous and new cell when the
    [Ready] has a snapshot. *)
Definition doApplySnap (rd : Ready) (ctx : readyContext) (r : replicate) (s : storeE) : res (replicate * option (Cell * Cell) * storeE) :=
  let prevCell := r_cell r in
  let r := set_rpr (set_ps (apply_ready (mkReady (rd_Entries rd) (rd_HardState rd) None) ctx (r_ps r)) (r_pr r)) r in
  match rd_Snapshot rd with
  | None => Ok (r, None, s)
  | Some snap =>
      let! s := (if isInitialized (r_ps r) then clearExtraData prevCell prevCell s else Ok s) in
      let '(r, s) := startApplyingSnapJob r s in
      let s := foldl (λ s p, emit (SRemoveSending p) s) s (removedPeers (Snap_Cell snap) prevCell) in
      Ok (setCell (Snap_Cell snap) r, Some (prevCell, Snap_Cell snap), s)
  end.
Definition updateKeyRange (prevCell c : Cell) (s : storeE) : res storeE :=
  if bool_decide (0 < length (Peers prevCell))%nat then
    let '(removed, t) := Remove (s_keyRanges s) prevCell in
    if (removed : bool) then Ok (set_keyRanges (Update t c) s) else Panic
  else Ok (set_keyRanges (Update (s_keyRanges s) c) s).
Definition set_sizeHint (n : Z) (r : replicate) : replicate :=
  let pr := r_pr r in
  set_rpr (mkPR (pr_cellID pr) (pr_peer pr) (pr_ps pr) (pr_rn pr) (pr_batch pr) (pr_reads pr) (pr_readyCnt pr) n (pr_counters pr)) r.
Definition set_lastReady (i : Z) (r : replicate) : replicate :=
  let ps := r_ps r in
  set_rpr (set_ps (mkPeerStorage (ps_cell ps) (lastTerm ps) (appliedIndexTerm ps) i (lastCompactIndex ps) (raftState ps) (applyState ps)) (r_pr r)) r.
(** [handleRaftReadyApply] for a [Ready] with a snapshot: nothing is committed
    while it is applied.  Messages and read states are left out. *)
Definition apply_snap_ready (cellID : Z) (rd : Ready) (ctx : readyContext) (s : storeE) : res storeE :=
  match s_replicatesMap s !! cellID, rd_Snapshot rd with
  | Some r, Some _ =>
      let! (r, changed, s) := doApplySnap rd ctx (set_sizeHint 0 r) s in
      let s := startRegistrationJob r s in
      let r := if isApplyingSnap r then set_lastReady (getTruncatedIndex (r_ps r)) r else r in
      let s := put_replicate cellID r s in
      match changed with
      | None => Ok s
      | Some (prevCell, c) => updateKeyRange prevCell c s
      end
  | _, _ => Ok s
  end.

(** ** Jobs *)
Definition doRegistrationJob (cellID : Z) (d : applyDelegate) (s : storeE) : res storeE :=
  let id := Cell_ID (d_cell d) in
  let old := s_delegates s !! id in
  let s := set_delegates (<[id := d]> (s_delegates s)) s in
  match old with
  | None => Ok s
  | Some o =>
      if bool_decide (d_peerID o ≠ d_peerID d) then Panic
      else
        let o := mkDelegate (d_peerID o) (d_cell o) (d_pendingRemove o) (d_applyState o) (d_appliedIndexTerm o) (d_term d) (d_pendingCMDs o) (d_pendingChangePeerCMD o) in
        let! (_, w) := clearAllCommandsAsStale o (s_world s) in Ok (set_world w s)
  end.
Definition doDestroy (cellID : Z) (peer : Peer) (s : storeE) : res storeE :=
  let d := s_delegates s !! cellID in
  let s := set_delegates (delete cellID (s_delegates s)) s in
  match d with
  | Some d => let! (_, w) := destroy d (s_world s) in destroyPeer cellID peer false (set_world w s)
  | None => destroyPeer cellID peer false s
  end.

Definition set_data_engine (f : D → D) (s : storeE) : storeE := set_world (set_data (f (w_data (s_world s))) (s_world s)) s.
(** The data a snapshot brings is the snapshot manager's ([Apply]). *)
Context (snap_Apply : Cell → Z → Z → D → option D).
Definition doApplyingSnapshotJob (cellID : Z) (s : storeE) : res (option job_error * storeE) :=
  match s_replicatesMap s !! cellID with
  | None => Ok (None, s)
  | Some r =>
      match loadCellLocalState s (Cell_ID (r_cell r)) with
      | Ok (Some st) =>
          let! startKey := must (encStartKey (LS_Cell st)) in
          let! endKey := must (encEndKey (LS_Cell st)) in
          let s := set_data_engine (RangeDelete (getDriver enginesMask (Cell_ID (r_cell r))) startKey endKey) s in
          let trunc := TruncatedState (applyState (r_ps r)) in
          match snap_Apply (r_cell r) (Trunc_Term trunc) (Trunc_Index trunc) (w_data (s_world s)) with
          | None => Ok (Some ErrJobFailed, s)
          | Some data =>
              let s := set_data_engine (λ _, data) s in
              let s := set_world (driver_write enginesMask (Cell_ID (r_cell r)) (updatePeerState (r_cell r) Normal []) (s_world s)) s in
              Ok (None, emit (SIndexRebuild (r_cell r)) (removePendingSnapshot cellID s))
          end
      | _ => Panic
      end
  end.
(** The worker takes the job when it is pending. *)
Definition run_snap_job (cellID : Z) (s : storeE) : res storeE :=
  match s_replicatesMap s !! cellID with
  | None => Ok s
  | Some r =>
      match r_snapJob r with
      | None => Ok s
      | Some j =>
          let '(j, run) := job_start j in
          let s := put_replicate cellID (mkReplicate (r_pr r) (Some j)) s in
          if (run : bool) then
            let! (err, s) := doApplyingSnapshotJob cellID s in
            Ok (put_replicate cellID (mkReplicate (r_pr r) (Some (job_end j err))) s)
          else Ok s
      end
  end.

Definition run_job (j : job) (s : storeE) : res storeE :=
  match j with
  | JDestroy id peer => doDestroy id peer s
  | JRegistration id d => doRegistrationJob id d s
  | JApplySnap id => run_snap_job id s
  | JClearData id startKey endKey => Ok (set_data_engine (RangeDelete (getDriver enginesMask id) startKey endKey) s)
  | JRaftLogGC id startIndex endIndex =>
      match doRaftLogGC id startIndex endIndex (store_engine s id) with
      | Ok e => let w := s_world s in
                Ok (set_world (mkWorld (λ i, if decide (i = getDriver enginesMask id) then e else w_engines w i) (w_data w) (w_responses w) (w_removedSnaps w)) s)
      | Err _ => Ok s
      | Panic => Panic
      end
  end.
Fixpoint run_jobs (l : list job) (s : storeE) : res storeE :=
  match l with
  | [] => Ok s
  | j :: l' => let! s := run_job j s in run_jobs l' s
  end.
(** The workers run what is queued, in order. *)
Definition drain (s : storeE) : res storeE := run_jobs (s_jobs s) (set_jobs [] s).

(** ** Starting a store *)
Definition start_cell (key : bytes) (v : value) (wb : writeBatch value) (s : storeE) : res (writeBatch value * storeE) :=
  let! (cellID, suffix) := must (decodeCellMetaKey key) in
  if negb (bool_decide (suffix = cellStateSuffix)) then Ok (wb, s)
  else match v with
  | VCellState st =>
      let s := cache_peers (Peers (LS_Cell st)) s in
      if bool_decide (LS_State st = PeerTombstone) then Ok (clearMeta cellID wb (store_engine s cellID), s)
      else
        let! r := must (createPeerReplicate s (LS_Cell st)) in
        let '(r, s) := if bool_decide (LS_State st = Applying) then startApplyingSnapJob r s else (r, s) in
        let s := startRegistrationJob r s in
        let s := set_keyRanges (Update (s_keyRanges s) (LS_Cell st)) s in
        Ok (wb, put_replicate cellID r s)
  | _ => Panic
  end.
Fixpoint start_scan (kvs : list (bytes * value)) (wb : writeBatch value) (s : storeE) : res (writeBatch value * storeE) :=
  match kvs with
  | [] => Ok (wb, s)
  | (k, v) :: kvs' => let! (wb, s) := start_cell k v wb s in start_scan kvs' wb s
  end.
Fixpoint start_engines (engines : list Z) (s : storeE) : res storeE :=
  match engines with
  | [] => Ok s
  | i :: engines' =>
      let! (wb, s) := start_scan (Engine_Scan cellMetaMinKey cellMetaMaxKey (w_engines (s_world s) i)) [] s in
      let w := s_world s in
      let w := mkWorld (λ j, if decide (j = i) then Write wb (w_engines w j) else w_engines w j) (w_data w) (w_responses w) (w_removedSnaps w) in
      start_engines engines' (set_world w s)
  end.
Definition engine_ids : list Z := seqZ 0 (enginesMask + 1).

(** [cleanup] deletes the data between the cells, each gap in the engine of the
    cell after it, and what is past the last cell in every engine. *)
Definition cleanup (s : storeE) : res storeE :=
  let! (lastStartKey, data) :=
    Ascend (s_keyRanges s)
      (λ (acc : res (bytes * D)) c,
         match acc with
         | Ok (lastStartKey, data) =>
             match encStartKey c, encEndKey c with
             | Ok start, Ok end_ => (Ok (end_, RangeDelete (getDriver enginesMask (Cell_ID c)) lastStartKey start data), true)
             | _, _ => (Panic, false)
             end
         | _ => (acc, false)
         end)
      (Ok (getDataKey [], w_data (s_world s))) in
  Ok (set_data_engine (λ _, foldl (λ data i, RangeDelete i lastStartKey dataMaxKey data) data engine_ids) s).

Definition startCells (s : storeE) : res storeE :=
  let! s := start_engines engine_ids s in cleanup s.
(** [NewStore] on the engines of a world: what a restart keeps. *)
Definition NewStore (id : Z) (w : world E D) : storeE := mkStore id ∅ NewCellTree ∅ ∅ ∅ ∅ [] [] w.

(** ** Checking commands *)
Definition validateCell (s : storeE) (req : RaftCMDRequest) : res (option ErrorPb) :=
  match Header req with
  | None => Panic
  | Some h =>
      match getPeerReplicate s (Hdr_CellId h) with
      | None => Ok (Some (CellNotFound (Hdr_CellId h)))
      | Some r =>
          let pr := r_pr r in
          if negb (pr_isLeader pr) then Ok (Some (NotLeader (Hdr_CellId h) (getPeer s (Lead (pr_rn pr)))))
          else if bool_decide (Peer_ID (pr_peer pr) ≠ Peer_ID (Hdr_Peer h)) then Ok (Some OtherError)
          else if bool_decide (0 < Hdr_Term h) && bool_decide (u64 (Hdr_Term h + 1) < getCurrentTerm pr) then Ok (Some StaleCommand)
          else if negb (checkEpoch (r_cell r) req) then
            Ok (Some (StaleEpoch (match NextCell (s_keyRanges s) (Start (r_cell r)) with Some c => [c] | None => [] end)))
          else Ok None
      end
  end.
End store.
