(* ===== verification/StoreProps.v ===== *)
(** * Properties of a store

    Requests reach a replicate that owns their key, whatever messages, splits,
    membership changes, snapshots, jobs and restarts came before; a destroyed
    replicate leaves a tombstone that keeps stale messages from creating it
    again, until a restart; two requests to destroy a replicate stop the store;
    and cleaning up at the start never touches the data of a cell. *)

From S2P Require Import Prelude Encoding Strconv Meta Keys BTree CellTree KVTree RaftTypes RaftLog RaftApply ApplyProps Propose Store.

Section store_props.
Context {E D T V : Type} `{!Engine value E} `{OT : !OrderedTree CellItem Less T} `{!DataEngines V D} `{!MapOrder}.
Context (enginesMask : Z) (raft : RaftLib) (snap_Apply : Cell → Z → Z → D → option D).
Abbreviation storeE := (Store E D T).

(** ** The invariant of routing *)
Definition same_range (c c' : Cell) : Prop := Cell_ID c = Cell_ID c' ∧ Start c = Start c' ∧ End c = End c'.
Record rep_ok (id : Z) (r : replicate) : Prop := {
  ro_pos : 0 < id;
  ro_pr : pr_cellID (r_pr r) = id;
  ro_cell : Cell_ID (r_cell r) = id;
  ro_peers : Peers (r_cell r) ≠ [];
  ro_valid : valid_cell (r_cell r);
}.
Record inv (s : storeE) : Prop := {
  i_tree : disjoint_tree (s_keyRanges s);
  i_rep id r : s_replicatesMap s !! id = Some r → rep_ok id r;
  i_held c : holds (s_keyRanges s) c → Peers c ≠ [] ∧ ∃ r, s_replicatesMap s !! Cell_ID c = Some r ∧ same_range c (r_cell r);
}.

Lemma inv_ext (s s' : storeE) : s_replicatesMap s' = s_replicatesMap s → s_keyRanges s' = s_keyRanges s → inv s → inv s'.
Proof. intros Hm Ht [H1 H2 H3]. split; [by rewrite Ht|intros id r; rewrite Hm; apply H2|intros c; rewrite Ht, Hm; apply H3]. Qed.

(** A held cell of a replicate has its range, so it overlaps it. *)
Lemma same_range_overlap c c' : same_range c c' → valid_cell c → overlap c c'.
Proof. intros (_ & Hs & He) Hv. apply overlap_same_start; [done| |done]. unfold valid_cell in *. by rewrite <-Hs, <-He. Qed.

Lemma inv_put (s : storeE) id r r' : inv s → s_replicatesMap s !! id = Some r → rep_ok id r' → same_range (r_cell r) (r_cell r') →
  inv (put_replicate id r' s).
Proof.
  intros [H1 H2 H3] Hr Hok (Hi & Hs & He). split; simpl; [done| |].
  - intros i x. rewrite lookup_insert_Some. intros [[<- <-]|[_ Hx]]; [done|eauto].
  - intros c Hc. destruct (H3 c Hc) as (Hp & x & Hx & (Hxi & Hxs & Hxe)). split; [done|].
    destruct (decide (Cell_ID c = id)) as [Heq|Hne]; [|exists x; by rewrite lookup_insert_ne].
    exists r'. rewrite Heq in Hx |- *. rewrite lookup_insert_eq. simplify_eq. split; [done|]. split_and!; congruence.
Qed.

(** A replicate and its range enter together; cells of the same replicate leave. *)
Lemma inv_update (s : storeE) id r : inv s → rep_ok id r → (∀ c, holds (s_keyRanges s) c → Cell_ID c = id → overlap c (r_cell r)) →
  inv (put_replicate id r (set_keyRanges (Update (s_keyRanges s) (r_cell r)) s)).
Proof.
  intros [H1 H2 H3] [Ho1 Ho2 Ho3 Ho4 Ho5] Hov. split; simpl.
  - by apply Update_disjoint.
  - intros i x. rewrite lookup_insert_Some. intros [[<- <-]|[_ Hx]]; [done|eauto].
  - intros c Hc. apply Update_holds in Hc; [|done|done]. destruct Hc as [-> |[Hc Hno]].
    + split; [done|]. exists r. rewrite Ho3, lookup_insert_eq. split_and!; done.
    + destruct (H3 c Hc) as (Hp & x & Hx & Hr). split; [done|]. exists x. split; [|done].
      rewrite lookup_insert_ne; [done|]. intros Heq. apply Hno, Hov; [done|done].
Qed.

(** A replicate and its range leave together. *)
Lemma inv_remove (s : storeE) id r t : inv s → s_replicatesMap s !! id = Some r → Remove (s_keyRanges s) (r_cell r) = (true, t) →
  inv (set_keyRanges t (set_replicates (delete id (s_replicatesMap s)) s)).
Proof.
  intros [H1 H2 H3] Hr Hrem. pose proof (Remove_spec (s_keyRanges s) (r_cell r) H1) as Hs. pose proof (Remove_disjoint (s_keyRanges s) (r_cell r) H1) as Hd.
  rewrite Hrem in Hs, Hd. simpl in Hd. destruct Hs as [_ Hs]. split; simpl; [done| |].
  - intros i x. rewrite lookup_delete_Some. intros [_ Hx]. eauto.
  - intros c [Hc Hn]%Hs. destruct (H3 c Hc) as (Hp & x & Hx & Hxr). split; [done|]. exists x. split; [|done].
    rewrite lookup_delete_ne; [done|]. intros Heq. apply Hn. rewrite <-Heq in Hx. simplify_eq.
    destruct (H2 _ _ Hr) as [_ _ Hid _ Hv]. destruct Hxr as (Hxi & Hxs & Hxe). split; [|congruence].
    rewrite <-Hxs. unfold in_cell. destruct H1 as (_ & Hval & _). specialize (Hval c Hc). split; [border|]. exact Hval.
Qed.

(** ** New replicates *)
Lemma newPeerReplicate_Ok (s : storeE) c peerID r : newPeerReplicate enginesMask raft s c peerID = Ok r →
  r_cell r = c ∧ pr_cellID (r_pr r) = Cell_ID c ∧ r_snapJob r = None ∧ pr_peer (r_pr r) = newPeer peerID (s_id s).
Proof.
  unfold newPeerReplicate. case_bool_decide; [done|]. unfold newPeerStorage.
  destruct (initRaftState _ _) as [rs| |]; try done. cbn [outcome_bind].
  destruct (initApplyState _ _) as [st| |]; try done. cbn [outcome_bind].
  destruct (initLastTerm _ _ _ _) as [t| |]; try done. cbn [outcome_bind lift_ps].
  destruct (lift_ps _) as [[hs nodes]| |]; try done. cbn [outcome_bind].
  destruct (NewRawNode _ _ _ _ _ _) as [rn|]; [|done].
  match goal with |- (let! rn := ?o in _) = _ → _ => destruct o; try done end. cbn [outcome_bind]. intros [= <-]. done.
Qed.
Lemma createPeerReplicate_Ok (s : storeE) c r : createPeerReplicate enginesMask raft s c = Ok r →
  r_cell r = c ∧ pr_cellID (r_pr r) = Cell_ID c ∧ r_snapJob r = None ∧ Peers c ≠ [].
Proof.
  unfold createPeerReplicate. destruct (findPeer c (s_id s)) as [p|] eqn:Ef; [|done].
  intros (? & ? & ? & _)%newPeerReplicate_Ok. split_and!; try done. intros Hn. unfold findPeer in Ef. by rewrite Hn in Ef.
Qed.

(** ** Every operation keeps it *)
Lemma destroy_replicate_frame (s s' : storeE) r : destroy_replicate enginesMask r s = Ok s' →
  s_replicatesMap s' = s_replicatesMap s ∧ s_keyRanges s' = s_keyRanges s.
Proof.
  unfold destroy_replicate, clearData. destruct (isInitialized _); [|intros [= <-]; done].
  destruct (encStartKey _); try done. cbn [must outcome_bind]. destruct (encEndKey _); try done. cbn [must outcome_bind]. by intros [= <-].
Qed.

Lemma rep_ok_initialized id r : rep_ok id r → isInitialized (r_ps r) = true.
Proof. intros [_ _ _ Hp _]. unfold isInitialized. apply negb_true_iff, bool_decide_eq_false_2. exact Hp. Qed.

Lemma destroyPeer_inv (s s' : storeE) id p async : inv s → destroyPeer enginesMask id p async s = Ok s' → inv s'.
Proof.
  intros Hi. unfold destroyPeer. destruct (negb async); [|intros [= <-]; by apply (inv_ext s)].
  destruct (s_replicatesMap s !! id) as [r|] eqn:Er; [|done]. destruct (isApplyingSnap r); [done|].
  destruct (destroy_replicate _ _ _) as [s1| |] eqn:Ed; try done. cbn [outcome_bind].
  apply destroy_replicate_frame in Ed as [Hm Ht]. rewrite (rep_ok_initialized id r) by (by eapply i_rep).
  rewrite Ht. simpl. destruct (Remove _ _) as [removed t] eqn:Erem. destruct removed; [|done]. cbn [outcome_bind]. intros [= <-].
  eapply inv_ext; [| |by eapply inv_remove]; [exact Hm|done].
Qed.

Lemma handleStaleMsg_frame msg e gc (s : storeE) : s_replicatesMap (handleStaleMsg msg e gc s) = s_replicatesMap s ∧ s_keyRanges (handleStaleMsg msg e gc s) = s_keyRanges s.
Proof. unfold handleStaleMsg. by destruct (negb gc). Qed.
Lemma cacheDropped_frame id m (s : storeE) : s_replicatesMap (cacheDroppedVoteMsg id m s) = s_replicatesMap s ∧ s_keyRanges (cacheDroppedVoteMsg id m s) = s_keyRanges s.
Proof. unfold cacheDroppedVoteMsg. by case_bool_decide. Qed.

Lemma isMsgStale_inv msg (s s' : storeE) v : inv s → isMsgStale enginesMask msg s = Ok (v, s') → inv s'.
Proof.
  intros Hi. unfold isMsgStale.
  assert (∀ e gc, inv (handleStaleMsg msg e gc s)) as Hst.
  { intros e gc. destruct (handleStaleMsg_frame msg e gc s). by apply (inv_ext s). }
  assert (∀ id m, inv (cacheDroppedVoteMsg id m s)) as Hdr.
  { intros id m. destruct (cacheDropped_frame id m s). by apply (inv_ext s). }
  destruct (getPeerReplicate s _) as [r|]; [destruct (_ && _); by intros [= <- <-]|].
  destruct (loadCellLocalState _ _ _) as [[st|]| |]; [|by intros [= <- <-]|by intros [= <- <-]|done].
  destruct (negb _); [by intros [= <- <-]|]. destruct (isEpochStale _ _); [by intros [= <- <-]|]. case_bool_decide; by intros [= <- <-].
Qed.

(** A message names a cell with an id and a range. *)
Definition msg_ok (msg : RaftMessage) : Prop := 0 < RM_CellID msg ∧ (RM_End msg = [] ∨ blt (RM_Start msg) (RM_End msg)).

Lemma create_for_inv msg (s s' : storeE) ok : inv s → msg_ok msg → s_replicatesMap s !! RM_CellID msg = None →
  create_for enginesMask raft (RM_CellID msg) msg s = Ok (ok, s') → inv s'.
Proof.
  intros Hi [Hid Hrange] Hnone. unfold create_for. destruct (_ && _); [by intros [= <- <-]|].
  destruct (if bool_decide _ then _ else _) as [o| |]; try done. cbn [outcome_bind]. destruct o.
  { intros [= <- <-]. destruct (getPeerReplicate s _); [|done]. destruct (cacheDropped_frame (RM_CellID msg) (RM_Message msg) s). by apply (inv_ext s). }
  destruct (doReplicate _ _ _ _ _) as [r| |] eqn:Er; [|by intros [= <- <-]|done]. intros [= <- <-].
  unfold doReplicate in Er. apply newPeerReplicate_Ok in Er as (Hc & Hpr & _ & _).
  eapply inv_ext; [| |eapply (inv_update s (RM_CellID msg) (add_peers r msg) Hi)]; [done|done| |].
  - assert (r_cell (add_peers r msg) = mkCell (RM_CellID msg) (RM_Start msg) (RM_End msg) (RM_CellEpoch msg) [RM_ToPeer msg; RM_FromPeer msg]) as Ha.
    { change (r_cell (add_peers r msg)) with (set_peers (Peers (r_cell r) ++ [RM_ToPeer msg; RM_FromPeer msg]) (r_cell r)). by rewrite Hc. }
    split; rewrite ?Ha; done.
  - intros c Hc' Heq. destruct (i_held s Hi c Hc') as (_ & x & Hx & _). congruence.
Qed.

Lemma tryToCreate_inv msg (s s' : storeE) ok : inv s → msg_ok msg →
  tryToCreatePeerReplicate enginesMask raft (RM_CellID msg) msg s = Ok (ok, s') → inv s'.
Proof.
  intros Hi Hm. unfold tryToCreatePeerReplicate, getPeerReplicate. destruct (s_replicatesMap s !! RM_CellID msg) as [r|] eqn:Er; [|by eapply create_for_inv].
  case_bool_decide; [|case_bool_decide; by intros [= <- <-]].
  assert (∃ j b, (if isApplyingSnap r then cancelApplyingSnapJob r else (r, true)) = (mkReplicate (r_pr r) j, b)) as (j & b & ->).
  { destruct (isApplyingSnap r); [|exists (r_snapJob r), true; by destruct r]. unfold cancelApplyingSnapJob. destruct (r_snapJob r) as [j|] eqn:Ej; [|exists None, true; destruct r; by simpl in *; subst].
    destruct (IsCancelled _); by do 2 eexists. }
  pose proof (i_rep s Hi _ _ Er) as Hok.
  assert (inv (put_replicate (RM_CellID msg) (mkReplicate (r_pr r) j) s)) as Hi2 by (eapply inv_put; [done|done|by destruct Hok|by split_and!]).
  destruct (negb b); [by intros [= <- <-]|]. case_bool_decide; [|by intros [= <- <-]].
  destruct (destroyPeer _ _ _ _ _) as [s2| |] eqn:Ed; try done. cbn [outcome_bind].
  change (r_ps (mkReplicate (r_pr r) j)) with (r_ps r). rewrite (rep_ok_initialized _ r Hok). intros [= <- <-]. by eapply destroyPeer_inv.
Qed.

Lemma checkSnapshot_inv msg (s s' : storeE) v : inv s → checkSnapshot msg s = Ok (v, s') → inv s'.
Proof.
  intros Hi. unfold checkSnapshot, getPeerReplicate. destruct (M_Snapshot _) as [| |h]; [by intros [= <- <-]|by intros [= <- <-]|].
  destruct (s_replicatesMap s !! RM_CellID msg) as [r|] eqn:Er; [|done].
  rewrite (rep_ok_initialized _ r) by (by eapply i_rep). by intros [= <- <-].
Qed.

Lemma onRaftMessage_inv msg (s s' : storeE) : inv s → msg_ok msg → onRaftMessage enginesMask raft msg s = Ok s' → inv s'.
Proof.
  intros Hi Hm. unfold onRaftMessage. destruct (negb _); [by intros [= <-]|]. destruct (RM_IsTombstone msg).
  { unfold handleGCPeerMsg. destruct (s_replicatesMap s !! RM_CellID msg) as [r|]; [|by intros [= <-]].
    destruct (isEpochStale _ _); [by eapply destroyPeer_inv|by intros [= <-]]. }
  destruct (isMsgStale _ _ _) as [[v s1]| |] eqn:E1; try done. cbn [outcome_bind]. apply isMsgStale_inv in E1; [|done].
  destruct v; [by intros [= <-]| |by intros [= <-]].
  destruct (tryToCreatePeerReplicate _ _ _ _ _) as [[ok s2]| |] eqn:E2; try done. cbn [outcome_bind]. apply tryToCreate_inv in E2; [|done|done].
  destruct (negb ok); [by intros [= <-]|].
  destruct (checkSnapshot _ _) as [[v s3]| |] eqn:E3; try done. cbn [outcome_bind]. apply checkSnapshot_inv in E3; [|done].
  destruct v; [|by intros [= <-]|by intros [= <-]]. destruct (getPeerReplicate _ _); [|done]. intros [= <-]. by apply (inv_ext s3).
Qed.

(** What the apply path reports for the replicate [r] of the cell [id]. *)
Definition change_ok (id : Z) (r : replicate) (cp : changePeer) : Prop :=
  ∀ cc, cp_confChange cp = Some cc → CC_NodeID cc ≠ 0 → same_range (r_cell r) (cp_cell cp) ∧ Peers (cp_cell cp) ≠ [].
Definition split_ok (id : Z) (r : replicate) (l r' : Cell) : Prop :=
  Cell_ID l = id ∧ Peers l ≠ [] ∧ 0 < Cell_ID r' ∧ Cell_ID r' ≠ id ∧
  Start l = Start (r_cell r) ∧ valid_cell l ∧ valid_cell r'.

Lemma rep_ok_setCell id r c : rep_ok id r → Cell_ID c = id → Peers c ≠ [] → valid_cell c → rep_ok id (setCell c r).
Proof. intros [H1 H2 H3 H4 H5] Hi Hp Hv. by split. Qed.

Lemma doApplyConfChange_inv id r cp (s s' : storeE) : inv s → s_replicatesMap s !! id = Some r → change_ok id r cp →
  doApplyConfChange enginesMask raft id cp s = Ok s' → inv s'.
Proof.
  intros Hi Hr Hok. unfold doApplyConfChange. rewrite Hr. pose proof (i_rep s Hi _ _ Hr) as Hro.
  set (r1 := update_rn _ _). assert (rep_ok id r1) as Hr1 by (by destruct Hro).
  assert (inv (put_replicate id r1 s)) as Hi1 by (eapply inv_put; [done|done|done|by split_and!]).
  destruct (cp_confChange cp) as [cc|] eqn:Ecc; [|by intros [= <-]]. case_bool_decide as Hn; [by intros [= <-]|].
  destruct (Hok cc Ecc Hn) as [Hs Hp].
  assert (rep_ok id (setCell (cp_cell cp) r1)) as Hr2.
  { apply rep_ok_setCell; [done| |done|]; destruct Hs as (H1 & H2 & H3); [rewrite <-H1; apply Hro|]. destruct Hro as [_ _ _ _ Hv]. unfold valid_cell in *. by rewrite <-H2, <-H3. }
  set (s2 := put_replicate id (setCell _ r1) _). assert (inv s2) as Hi2.
  { eapply inv_put; [exact Hi1|apply lookup_insert_eq|done|done]. }
  set (s3 := if pr_isLeader _ then _ else s2). assert (inv s3) as Hi3 by (unfold s3; destruct (pr_isLeader _); [by apply (inv_ext s2)|done]).
  destruct (CC_Type cc); [intros [= <-]; by apply (inv_ext s3)|].
  case_bool_decide; [|intros [= <-]; by apply (inv_ext s3)]. case_bool_decide; [|done]. intros Hd. eapply destroyPeer_inv; [|exact Hd]. by apply (inv_ext s3).
Qed.

Lemma cache_peers_frame ps : ∀ s : storeE, s_replicatesMap (cache_peers ps s) = s_replicatesMap s ∧ s_keyRanges (cache_peers ps s) = s_keyRanges s.
Proof. induction ps as [|p ps IH]; intros s; [done|]. apply (IH (addPeerToCache p s)). Qed.

Lemma announce_split_frame leader id l r (s : storeE) :
  s_replicatesMap (announce_split leader id l r s) = s_replicatesMap s ∧ s_keyRanges (announce_split leader id l r s) = s_keyRanges s.
Proof.
  unfold announce_split. destruct leader; simpl; [by destruct (bool_decide _)|]. by destruct (_ !! _).
Qed.

(** The first stage of a split changes one replicate only. *)
Lemma split_prepare_Ok thr id r left_ right_ (s s1 : storeE) ld n : inv s → s_replicatesMap s !! id = Some r → split_ok id r left_ right_ →
  split_prepare enginesMask raft thr id left_ right_ s = Ok (ld, n, s1) →
  s_replicatesMap s1 = <[id := setCell left_ r]> (s_replicatesMap s) ∧ s_keyRanges s1 = s_keyRanges s ∧ s_replicatesMap s !! Cell_ID right_ = None ∧
  r_cell n = right_ ∧ pr_cellID (r_pr n) = Cell_ID right_ ∧ Peers right_ ≠ [].
Proof.
  intros Hi Hr (Hl1 & Hl2 & Hr1 & Hr2 & Hst & Hvl & Hvr). unfold split_prepare. rewrite Hr.
  set (s0 := cache_peers _ _). destruct (cache_peers_frame (Peers right_) (put_replicate id (setCell left_ r) s)) as [Hm Ht]. fold s0 in Hm, Ht.
  assert (s_replicatesMap s0 !! Cell_ID right_ = s_replicatesMap s !! Cell_ID right_) as Hlook by (rewrite Hm; simpl; by rewrite lookup_insert_ne).
  destruct (s_replicatesMap s0 !! Cell_ID right_) as [x|] eqn:Ex.
  { rewrite (rep_ok_initialized (Cell_ID right_) x) by (eapply i_rep; [done|by rewrite <-Hlook]). done. }
  cbn [outcome_bind]. destruct (createPeerReplicate _ _ _ _) as [n0| |] eqn:En; try done. cbn [must outcome_bind]. intros [= <- <- <-].
  apply createPeerReplicate_Ok in En as (? & ? & _ & ?). by split_and!.
Qed.

Lemma doApplySplit_inv thr id r left_ right_ (s s' : storeE) : inv s → s_replicatesMap s !! id = Some r → split_ok id r left_ right_ →
  doApplySplit enginesMask raft thr id left_ right_ s = Ok s' → inv s'.
Proof.
  intros Hi Hr Hok. unfold doApplySplit. destruct (split_prepare _ _ _ _ _ _ _) as [[[ld n] s1]| |] eqn:Ep; try done. cbn [outcome_bind].
  destruct (split_prepare_Ok thr id r left_ right_ s s1 ld n Hi Hr Hok Ep) as (Hm & Ht & Hlook & Hnc & Hnp & Hpr).
  destruct Hok as (Hl1 & Hl2 & Hr1 & Hr2 & Hst & Hvl & Hvr). pose proof (i_rep s Hi _ _ Hr) as Hro.
  assert (inv (put_replicate id (setCell left_ r) (set_keyRanges (Update (s_keyRanges s) left_) s))) as Hi1.
  { apply (inv_update s id (setCell left_ r) Hi); [by apply rep_ok_setCell|]. intros c Hc Heq.
    destruct (i_held s Hi c Hc) as (_ & y & Hy & (_ & Hys & _)). rewrite Heq, Hr in Hy. injection Hy as <-.
    apply overlap_same_start; [by apply (i_tree s Hi)|done|]. by rewrite Hys, <-Hst. }
  unfold split_publish. match goal with |- Ok (announce_split _ _ _ _ ?y) = _ → _ => set (x := y) end. intros [= <-].
  destruct (announce_split_frame ld id left_ right_ x) as [Hmx Htx].
  eapply inv_ext; [exact Hmx|exact Htx|].
  eapply inv_ext; [| |apply (inv_update _ (Cell_ID right_) n Hi1)].
  - change (s_replicatesMap x) with (<[pr_cellID (r_pr n) := n]> (s_replicatesMap s1)). by rewrite Hm, Hnp.
  - change (s_keyRanges x) with (Update (Update (s_keyRanges s1) left_) right_). by rewrite Ht, Hnc.
  - split; rewrite ?Hnc; done.
  - intros c Hc Heq. simpl in Hc. apply Update_holds in Hc; [|apply (i_tree s Hi)|done]. destruct Hc as [-> |[Hc _]]; [congruence|].
    destruct (i_held s Hi c Hc) as (_ & y & Hy & _). congruence.
Qed.

Lemma doApplyRaftLogGC_inv id st first (s s' : storeE) : inv s → doApplyRaftLogGC id st first s = Ok s' → inv s'.
Proof.
  intros Hi. unfold doApplyRaftLogGC. destruct (s_replicatesMap s !! id) as [r|] eqn:Er; [|by intros [= <-]].
  case_bool_decide; [done|]. intros [= <-]. pose proof (i_rep s Hi _ _ Er) as Hro.
  set (x := put_replicate id _ s). apply (inv_ext x); [done|done|]. eapply inv_put; [done|done|by destruct Hro|by split_and!].
Qed.

(** A snapshot is of the cell of the replicate that applies it. *)
Definition snap_ok (id : Z) (rd : Ready) : Prop :=
  ∀ snap, rd_Snapshot rd = Some snap → Cell_ID (Snap_Cell snap) = id ∧ Peers (Snap_Cell snap) ≠ [] ∧ valid_cell (Snap_Cell snap).

Lemma emit_all_frame {A} (f : A → store_effect) l : ∀ s : storeE,
  s_replicatesMap (foldl (λ s x, emit (f x) s) s l) = s_replicatesMap s ∧ s_keyRanges (foldl (λ s x, emit (f x) s) s l) = s_keyRanges s.
Proof. induction l as [|x l IH]; intros s; [done|]. apply (IH (emit (f x) s)). Qed.

Lemma clearExtraData_frame c c' (s s' : storeE) : clearExtraData c c' s = Ok s' → s_replicatesMap s' = s_replicatesMap s ∧ s_keyRanges s' = s_keyRanges s.
Proof.
  unfold clearExtraData. do 2 (destruct (encStartKey _); try done; cbn [must outcome_bind]; destruct (encEndKey _); try done; cbn [must outcome_bind]).
  intros [= <-]. by destruct (bltb _ _), (bltb _ _).
Qed.

(** The replicate after [doApplySnap] has the snapshot's cell. *)
Lemma doApplySnap_Ok rd ctx r snap (s s' : storeE) r' ch : rd_Snapshot rd = Some snap → doApplySnap rd ctx r s = Ok (r', ch, s') →
  r_cell r' = Snap_Cell snap ∧ pr_cellID (r_pr r') = pr_cellID (r_pr r) ∧ ch = Some (r_cell r, Snap_Cell snap) ∧
  s_replicatesMap s' = s_replicatesMap s ∧ s_keyRanges s' = s_keyRanges s.
Proof.
  intros Hs. unfold doApplySnap. rewrite Hs. set (r1 := set_rpr _ _).
  match goal with |- (let! x := ?o in _) = _ → _ => destruct o as [s1| |] eqn:E1; try done end. cbn [outcome_bind].
  assert (s_replicatesMap s1 = s_replicatesMap s ∧ s_keyRanges s1 = s_keyRanges s) as [Hm Ht].
  { destruct (isInitialized _); [by eapply clearExtraData_frame|by injection E1 as <-]. }
  unfold startApplyingSnapJob. intros [= <- <- <-].
  destruct (emit_all_frame SRemoveSending (removedPeers (Snap_Cell snap) (r_cell r)) (add_job (JApplySnap (pr_cellID (r_pr r1))) s1)) as [H1 H2].
  split_and!; [done|done|done|etrans; [exact H1|exact Hm]|etrans; [exact H2|exact Ht]].
Qed.

Lemma apply_snap_ready_inv id rd ctx (s s' : storeE) : inv s → snap_ok id rd → apply_snap_ready id rd ctx s = Ok s' → inv s'.
Proof.
  intros Hi Hsn. unfold apply_snap_ready. destruct (s_replicatesMap s !! id) as [r|] eqn:Er; [|by intros [= <-]].
  destruct (rd_Snapshot rd) as [snap|] eqn:Es; [|by intros [= <-]]. destruct (Hsn snap Es) as (Hid & Hp & Hv).
  pose proof (i_rep s Hi _ _ Er) as Hro.
  destruct (doApplySnap _ _ _ _) as [[[r1 ch] s1]| |] eqn:E1; try done. cbn [outcome_bind].
  apply (doApplySnap_Ok _ _ _ snap) in E1 as (Hc & Hpr & -> & Hm & Ht); [|done].
  set (r2 := if isApplyingSnap r1 then _ else r1). assert (r_cell r2 = r_cell r1 ∧ pr_cellID (r_pr r2) = pr_cellID (r_pr r1)) as [Hc2 Hpr2] by (unfold r2; by destruct (isApplyingSnap r1)).
  unfold updateKeyRange. change (r_cell (set_sizeHint 0 r)) with (r_cell r).
  rewrite bool_decide_eq_true_2 by (destruct Hro as [_ _ _ Hne _]; destruct (Peers (r_cell r)); [done|simpl; lia]).
  simpl. rewrite Ht. destruct (Remove (s_keyRanges s) (r_cell r)) as [removed t] eqn:Erem. destruct removed; [|done]. intros [= <-].
  pose proof (inv_remove s id r t Hi Er Erem) as Hi1.
  eapply inv_ext; [| |apply (inv_update _ id r2 Hi1)].
  - simpl. rewrite Hm. by rewrite insert_delete_eq.
  - simpl. by rewrite Hc2, Hc.
  - destruct Hro as [H1 H2 H3 H4 H5]. split; [done|rewrite Hpr2, Hpr; done|rewrite Hc2, Hc; done..].
  - intros c Hh Heq. destruct (i_held _ Hi1 c Hh) as (_ & y & Hy & _). simpl in Hy. rewrite Heq, lookup_delete_eq in Hy. done.
Qed.

Lemma run_snap_job_inv id (s s' : storeE) : inv s → run_snap_job enginesMask snap_Apply id s = Ok s' → inv s'.
Proof.
  intros Hi. unfold run_snap_job. destruct (s_replicatesMap s !! id) as [r|] eqn:Er; [|by intros [= <-]].
  destruct (r_snapJob r) as [j|]; [|by intros [= <-]]. destruct (job_start j) as [j' run]. pose proof (i_rep s Hi _ _ Er) as Hro.
  assert (∀ j, inv (put_replicate id (mkReplicate (r_pr r) j) s)) as Hput by (intros ?; eapply inv_put; [done|done|by destruct Hro|by split_and!]).
  destruct run; [|intros [= <-]; apply Hput].
  destruct (doApplyingSnapshotJob _ _ _ _) as [[err s1]| |] eqn:E1; try done. cbn [outcome_bind]. intros [= <-].
  assert (s_replicatesMap s1 = <[id := mkReplicate (r_pr r) (Some j')]> (s_replicatesMap s) ∧ s_keyRanges s1 = s_keyRanges s) as [Hm Ht].
  { unfold doApplyingSnapshotJob in E1. simpl in E1. rewrite lookup_insert_eq in E1.
    destruct (loadCellLocalState _ _ _) as [[st|]| |]; try done. destruct (encStartKey _); try done. cbn [must outcome_bind] in E1.
    destruct (encEndKey _); try done. cbn [must outcome_bind] in E1. destruct (snap_Apply _ _ _ _); by injection E1 as <- <-. }
  eapply inv_ext; [| |apply (Hput (Some (job_end j' err)))]; simpl; [by rewrite Hm, insert_insert_eq|done].
Qed.

Lemma run_job_inv j (s s' : storeE) : inv s → run_job enginesMask snap_Apply j s = Ok s' → inv s'.
Proof.
  intros Hi. destruct j as [id p|id d|id|id a b|id a b]; simpl.
  - unfold doDestroy. set (s1 := set_delegates _ s). assert (inv s1) as Hi1 by (by apply (inv_ext s)).
    destruct (s_delegates s !! id) as [d|]; [|by apply destroyPeer_inv].
    destruct (destroy _ _) as [[? w]| |]; try done. cbn [outcome_bind]. apply destroyPeer_inv. by apply (inv_ext s1).
  - unfold doRegistrationJob. destruct (s_delegates s !! _) as [o|]; [|intros [= <-]; by apply (inv_ext s)].
    case_bool_decide; [done|]. destruct (clearAllCommandsAsStale _ _) as [[? w]| |]; try done. cbn [outcome_bind]. intros [= <-]. by apply (inv_ext s).
  - by apply run_snap_job_inv.
  - intros [= <-]. by apply (inv_ext s).
  - destruct (doRaftLogGC _ _ _ _); [intros [= <-]; by apply (inv_ext s)|by intros [= <-]|done].
Qed.

(** ** Starting from what is persisted *)
(** A persisted cell state is stored in the engine of its cell, under its key. *)
Definition entry_ok (i : Z) (k : bytes) (v : value) : Prop :=
  ∀ st, v = VCellState st →
    k = getCellStateKey (Cell_ID (LS_Cell st)) ∧ 0 < Cell_ID (LS_Cell st) < two64 ∧ getDriver enginesMask (Cell_ID (LS_Cell st)) = i ∧
    (LS_State st ≠ PeerTombstone → valid_cell (LS_Cell st)).
Definition engines_ok (w : world E D) : Prop :=
  ∀ i, i ∈ engine_ids enginesMask → eng_wf (w_engines w i) ∧ ∀ k v, eng_map (w_engines w i) !! k = Some v → entry_ok i k v.

Lemma start_cell_inv i k v wb wb' (s s' : storeE) : inv s → entry_ok i k v →
  (∀ st, v = VCellState st → s_replicatesMap s !! Cell_ID (LS_Cell st) = None) → start_cell enginesMask raft k v wb s = Ok (wb', s') →
  inv s' ∧ s_world s' = s_world s ∧
  ∀ id, is_Some (s_replicatesMap s' !! id) → is_Some (s_replicatesMap s !! id) ∨ ∃ st, v = VCellState st ∧ LS_State st ≠ PeerTombstone ∧ id = Cell_ID (LS_Cell st).
Proof.
  intros Hi Hok Hfresh. unfold start_cell. destruct (decodeCellMetaKey k) as [[cellID suffix]| |] eqn:Ed; try done. cbn [must outcome_bind].
  destruct (negb _); [intros [= <- <-]; split_and!; [done|done|by left]|]. destruct v as [st| | | | |]; try done.
  destruct (Hok st eq_refl) as (-> & Hid & _ & Hv). specialize (Hfresh st eq_refl).
  assert (cellID = Cell_ID (LS_Cell st)) as ->.
  { assert (is_u64 (Cell_ID (LS_Cell st))) as Hu by (unfold is_u64; lia).
    pose proof (proj1 (decodeCellMetaKey_spec [] _ cellStateSuffix Hu)) as Hdec. unfold getCellStateKey in Ed. congruence. }
  set (s1 := cache_peers _ s). destruct (cache_peers_frame (Peers (LS_Cell st)) s) as [Hm Ht]. fold s1 in Hm, Ht.
  assert (s_world s1 = s_world s) as Hw.
  { unfold s1. generalize (Peers (LS_Cell st)). intros ps. clear. revert s. induction ps as [|p ps IH]; intros s; [done|]. apply (IH (addPeerToCache p s)). }
  assert (inv s1) as Hi1 by (by apply (inv_ext s)).
  destruct (bool_decide_reflect (LS_State st = PeerTombstone)) as [Hts|Hts]; [intros [= <- <-]; split_and!; [done|done|intros id; rewrite Hm; by left]|].
  destruct (createPeerReplicate _ _ _ _) as [r| |] eqn:Er; try done. cbn [must outcome_bind].
  apply createPeerReplicate_Ok in Er as (Hc & Hpr & _ & Hpe).
  set (rs := if bool_decide _ then _ else _). assert (∃ j js, rs.1 = mkReplicate (r_pr r) j ∧ rs.2 = set_jobs js s1) as (j & js & Hr1 & Hs1).
  { unfold rs. case_bool_decide; simpl; [by do 2 eexists|]. exists (r_snapJob r), (s_jobs s1). by destruct r, s1. }
  destruct rs as [r1 s2]. simpl in Hr1, Hs1. subst r1 s2. intros [= <- <-]. split_and!.
  - eapply inv_ext; [| |apply (inv_update s1 (Cell_ID (LS_Cell st)) (mkReplicate (r_pr r) j) Hi1)].
    + simpl. by rewrite Hm.
    + simpl. change (r_cell (mkReplicate (r_pr r) j)) with (r_cell r). by rewrite Hc.
    + split; change (r_cell (mkReplicate (r_pr r) j)) with (r_cell r); rewrite ?Hc; [lia|done|done|done|by apply Hv].
    + intros c Hh Heq. destruct (i_held _ Hi1 c Hh) as (_ & y & Hy & _). rewrite Hm in Hy. congruence.
  - done.
  - simpl. intros id. rewrite Hm. destruct (decide (id = Cell_ID (LS_Cell st))) as [-> |Hne]; [right; by eexists|]. rewrite lookup_insert_ne by done. by left.
Qed.

Lemma start_scan_inv i kvs : ∀ wb wb' (s s' : storeE), inv s → NoDup kvs.*1 → (∀ k v, (k, v) ∈ kvs → entry_ok i k v) →
  (∀ k st, (k, VCellState st) ∈ kvs → s_replicatesMap s !! Cell_ID (LS_Cell st) = None) →
  start_scan enginesMask raft kvs wb s = Ok (wb', s') →
  inv s' ∧ s_world s' = s_world s ∧ ∀ id, is_Some (s_replicatesMap s' !! id) →
    is_Some (s_replicatesMap s !! id) ∨ ∃ k st, (k, VCellState st) ∈ kvs ∧ LS_State st ≠ PeerTombstone ∧ id = Cell_ID (LS_Cell st).
Proof.
  induction kvs as [|[k v] kvs IH]; intros wb wb' s s' Hi Hnd Hok Hfresh; simpl.
  { intros [= <- <-]. split_and!; [done|done|by left]. }
  apply NoDup_cons in Hnd as [Hk Hnd]. destruct (start_cell _ _ _ _ _ _) as [[wb1 s1]| |] eqn:E1; try done. cbn [outcome_bind].
  apply (start_cell_inv i) in E1 as (Hi1 & Hw1 & Hids); [|done|by apply Hok; left|intros st ->; apply (Hfresh k st); left].
  intros Hrun. apply IH in Hrun as (Hi2 & Hw2 & Hids2); [|done|done|intros k' v' Hin; apply Hok; by right|].
  - split_and!; [done|by rewrite Hw2|]. intros id [Hs|(k' & st & ? & ? & ?)]%Hids2; [|right; exists k', st; split_and!; [by right|done|done]].
    apply Hids in Hs as [Hs|(st & -> & ? & ->)]; [by left|]. right. exists k, st. split_and!; [left|done|done].
  - intros k' st Hin. destruct (s_replicatesMap s1 !! Cell_ID (LS_Cell st)) as [r|] eqn:Er; [|done]. exfalso.
    destruct (Hids (Cell_ID (LS_Cell st))) as [[x Hx]|(st' & -> & _ & Heq)]; [by eexists| |].
    + rewrite (Hfresh k' st) in Hx; [done|by right].
    + destruct (Hok k _ ltac:(left) st' eq_refl) as (-> & _). destruct (Hok k' (VCellState st) ltac:(by right) st eq_refl) as (-> & _).
      apply Hk. apply list_elem_of_fmap. eexists. split; [|exact Hin]. simpl. by rewrite Heq.
Qed.

Lemma start_engines_inv is_ : ∀ (s s' : storeE), inv s → NoDup is_ →
  (∀ i, i ∈ is_ → eng_wf (w_engines (s_world s) i) ∧ ∀ k v, eng_map (w_engines (s_world s) i) !! k = Some v → entry_ok i k v) →
  (∀ id, is_Some (s_replicatesMap s !! id) → getDriver enginesMask id ∉ is_) →
  start_engines enginesMask raft is_ s = Ok s' → inv s' ∧ ∀ id, is_Some (s_replicatesMap s' !! id) →
    is_Some (s_replicatesMap s !! id) ∨
    ∃ i k st, i ∈ is_ ∧ eng_map (w_engines (s_world s) i) !! k = Some (VCellState st) ∧ LS_State st ≠ PeerTombstone ∧ id = Cell_ID (LS_Cell st).
Proof.
  induction is_ as [|i is_ IH]; intros s s' Hi Hnd Hok Hfresh; simpl; [intros [= <-]; split; [done|by left]|].
  apply NoDup_cons in Hnd as [Hni Hnd]. destruct (Hok i ltac:(left)) as [Hwf Hent].
  destruct (start_scan _ _ _ _ _) as [[wb s1]| |] eqn:E1; try done. cbn [outcome_bind].
  apply (start_scan_inv i) in E1 as (Hi1 & Hw1 & Hids); [|done| | |].
  - assert (∀ k st, (k, VCellState st) ∈ Engine_Scan cellMetaMinKey cellMetaMaxKey (w_engines (s_world s) i) →
      eng_map (w_engines (s_world s) i) !! k = Some (VCellState st) ∧ getDriver enginesMask (Cell_ID (LS_Cell st)) = i) as Hscan.
    { intros k st [Hk _]%eng_scan_elem; [|done]. split; [done|]. by destruct (Hent _ _ Hk st eq_refl) as (_ & _ & ? & _). }
    intros Hrun. apply IH in Hrun as [Hi2 Hids2]; [|by apply (inv_ext s1)|done| |].
    + split; [done|]. intros id Hs. apply Hids2 in Hs as [Hs|(j & k & st & Hj & Hl & ? & ?)].
      * apply Hids in Hs as [Hs|(k & st & Hin & ? & ?)]; [by left|]. right. apply Hscan in Hin as [? _]. exists i, k, st. split_and!; [left|done..].
      * right. exists j, k, st. simpl in Hl. rewrite Hw1, decide_False in Hl by (by intros ->). split_and!; [by right|done..].
    + intros j Hj. simpl. rewrite Hw1. rewrite decide_False by (by intros ->). apply Hok. by right.
    + simpl. intros id [Hs|(k & st & Hin & _ & ->)]%Hids; [intros Hin; by eapply Hfresh; [|right]|]. apply Hscan in Hin as [_ ->]. done.
  - pose proof (eng_scan_sorted cellMetaMinKey cellMetaMaxKey _ Hwf) as Hs. unfold keys_sorted in Hs.
    by apply sorted_NoDup.
  - intros k v Hin. apply Hent. by apply eng_scan_elem in Hin as [? _].
  - intros k st Hin. apply eng_scan_elem in Hin as [Hin _]; [|done]. destruct (Hent _ _ Hin st eq_refl) as (_ & _ & Hd & _).
    destruct (s_replicatesMap s !! _) as [r|] eqn:Er; [|done]. exfalso. eapply Hfresh; [by eexists|]. rewrite Hd. left.
Qed.

Lemma NewStore_inv id (w : world E D) : inv (NewStore id w : storeE).
Proof.
  split; [apply NewCellTree_disjoint|done|]. intros c Hc. exfalso. unfold holds in Hc. simpl in Hc. unfold NewCellTree in Hc. rewrite ot_empty_items in Hc. by apply not_elem_of_nil in Hc.
Qed.
Lemma cleanup_frame (s s' : storeE) : cleanup enginesMask s = Ok s' → ∃ d, s' = set_data_engine (λ _, d) s.
Proof. unfold cleanup. destruct (Ascend _ _ _) as [[k d]| |]; try done. cbn [outcome_bind]. intros [= <-]. by eexists. Qed.

Lemma startCells_inv id (w : world E D) (s : storeE) : engines_ok w → startCells enginesMask raft (NewStore id w) = Ok s → inv s.
Proof.
  intros Hok. unfold startCells. destruct (start_engines _ _ _ _) as [s1| |] eqn:E1; try done. cbn [outcome_bind].
  intros [d ->]%cleanup_frame. apply (inv_ext s1); [done|done|]. eapply start_engines_inv; [apply NewStore_inv| | | |exact E1].
  - apply NoDup_seqZ.
  - intros i Hin. by apply Hok.
  - intros i [x Hx]. done.
Qed.

(** ** The stores that messages, results, jobs and requests lead to *)
Inductive reach : storeE → Prop :=
  | reach_start id w s : engines_ok w → startCells enginesMask raft (NewStore id w) = Ok s → reach s
  | reach_message msg s s' : reach s → msg_ok msg → onRaftMessage enginesMask raft msg s = Ok s' → reach s'
  | reach_change id r cp s s' : reach s → s_replicatesMap s !! id = Some r → change_ok id r cp →
      doApplyConfChange enginesMask raft id cp s = Ok s' → reach s'
  | reach_split thr id r l r' s s' : reach s → s_replicatesMap s !! id = Some r → split_ok id r l r' →
      doApplySplit enginesMask raft thr id l r' s = Ok s' → reach s'
  | reach_loggc id st first s s' : reach s → doApplyRaftLogGC id st first s = Ok s' → reach s'
  | reach_snapshot id rd ctx s s' : reach s → snap_ok id rd → apply_snap_ready id rd ctx s = Ok s' → reach s'
  | reach_job l1 j l2 s s' : reach s → s_jobs s = l1 ++ j :: l2 → run_job enginesMask snap_Apply j (set_jobs (l1 ++ l2) s) = Ok s' → reach s'
  | reach_snapAsk h s : reach s → reach (onSnapshotAsk h s)
  | reach_snapAck f h ack s : reach s → reach (onSnapshotAck f h ack s)
  | reach_snapChunk h last s : reach s → reach (onSnapshotChunk h last s)
  | reach_splitCheck id k e s : reach s → reach (onSplitCheckResult id k e s)
  | reach_request f q req cb s s' : reach s → OnProxyReq f q req cb s = Ok s' → reach s'.

Lemma reach_inv (s : storeE) : reach s → inv s.
Proof.
  induction 1 as [id w s Hok Hs|msg s s' _ IH Hm Hs|id r cp s s' _ IH Hr Hc Hs|thr id r l r' s s' _ IH Hr Hc Hs|id st first s s' _ IH Hs
    |id rd ctx s s' _ IH Hsn Hs|l1 j l2 s s' _ IH Hj Hs|h s _ IH|f h ack s _ IH|h last s _ IH|id k e s _ IH|f q req cb s s' _ IH Hs].
  - by eapply startCells_inv.
  - by eapply onRaftMessage_inv.
  - by eapply doApplyConfChange_inv.
  - by eapply doApplySplit_inv.
  - by eapply doApplyRaftLogGC_inv.
  - by eapply apply_snap_ready_inv.
  - eapply run_job_inv; [|exact Hs]. by apply (inv_ext s).
  - by apply (inv_ext s).
  - unfold onSnapshotAck. destruct ack; [|by apply (inv_ext s)|by apply (inv_ext s)]. destruct (f _); [|done]. destruct (isEpochStale _ _); [done|by apply (inv_ext s)].
  - unfold onSnapshotChunk. destruct last; by apply (inv_ext s).
  - unfold onSplitCheckResult. case_bool_decide; [done|]. destruct (_ !! _); [|done]. destruct (negb _); [done|]. case_bool_decide; [done|by apply (inv_ext s)].
  - unfold OnProxyReq in Hs. destruct (Req_Cmd req) as [|name [|key args]]; [done|..]; case_bool_decide; try done; [destruct (q req)|destruct (q req)|destruct (getTargetCell _ _ _)]; try done; injection Hs as <-; by apply (inv_ext s).
Qed.

(** What [getTargetCell] finds. *)
Lemma getTargetCell_spec f (s : storeE) key : inv s →
  (∃ c r, holds (s_keyRanges s) c ∧ in_cell (f key) c ∧ getTargetCell f s key = Some r ∧ s_replicatesMap s !! Cell_ID c = Some r ∧ same_range c (r_cell r)) ∨
  ((∀ c, holds (s_keyRanges s) c → ¬ in_cell (f key) c) ∧ getTargetCell f s key = None).
Proof.
  intros [H1 H2 H3]. destruct (Search_spec (s_keyRanges s) (f key) H1) as (Hs1 & Hs2 & Hs3). unfold getTargetCell, searchCell.
  destruct (decide (Search (s_keyRanges s) (f key) = emptyCell)) as [He|Hne].
  - right. split; [|by rewrite He]. intros c Hc Hin. rewrite (Hs1 c Hc Hin) in He. subst c.
    destruct (H3 _ Hc) as (Hp & _). done.
  - left. destruct (Hs3 Hne) as [Hc Hin]. set (c := Search (s_keyRanges s) (f key)) in *.
    destruct (H3 c Hc) as (_ & r & Hr & Hsr). destruct (H2 _ _ Hr) as [Hpos _ _ _ _].
    exists c, r. rewrite bool_decide_eq_false_2 by lia. done.
Qed.

(** A request served while a split is applied, between any two of its stages: it is refused,
    or it reaches the replicate it reached before, or, for a key of the cell that splits, the
    replicate of that cell. *)
Lemma split_windows f thr id r left_ right_ (s s1 s' : storeE) ld n key r' : inv s → s_replicatesMap s !! id = Some r → split_ok id r left_ right_ →
  split_prepare enginesMask raft thr id left_ right_ s = Ok (ld, n, s1) →
  s' ∈ [s1; update_range left_ s1; update_range right_ (update_range left_ s1)] →
  getTargetCell f s' key = Some r' →
  (r' = setCell left_ r ∧ (in_cell (f key) (r_cell r) ∨ in_cell (f key) left_)) ∨ getTargetCell f s key = Some r'.
Proof.
  intros Hi Hr Hok Ep Hs'. destruct (split_prepare_Ok thr id r left_ right_ s s1 ld n Hi Hr Hok Ep) as (Hm & Ht & Hlook & _).
  destruct Hok as (Hl1 & _ & _ & Hr2 & _ & Hvl & Hvr). pose proof (i_tree s Hi) as Hd.
  assert (s_replicatesMap s' = <[id := setCell left_ r]> (s_replicatesMap s) ∧ disjoint_tree (s_keyRanges s') ∧
    ∀ c, holds (s_keyRanges s') c → c = left_ ∨ c = right_ ∨ holds (s_keyRanges s) c) as (Hm' & Hd' & Hh).
  { assert (disjoint_tree (Update (s_keyRanges s) left_)) by (by apply Update_disjoint).
    repeat (apply elem_of_cons in Hs' as [-> |Hs']; [simpl; rewrite ?Ht; split_and!; [done|by repeat apply Update_disjoint|]|]).
    - tauto.
    - intros c. rewrite Update_holds by done. tauto.
    - intros c. rewrite Update_holds, Update_holds by done. tauto.
    - by apply not_elem_of_nil in Hs'. }
  unfold getTargetCell at 1, searchCell. destruct (Search_spec (s_keyRanges s') (f key) Hd') as (_ & _ & Hse).
  case_bool_decide as Hz; [done|]. destruct Hse as [Hc Hin]; [by intros He; rewrite He in Hz|].
  set (c := Search (s_keyRanges s') (f key)) in *. unfold getPeerReplicate. rewrite Hm'. rewrite lookup_insert_Some.
  intros [[He <-]|[He Hr']].
  - left. split; [done|]. destruct (Hh c Hc) as [-> |[-> |Hc0]]; [by right|congruence|]. left.
    destruct (i_held s Hi c Hc0) as (_ & y & Hy & (_ & H2 & H3)). assert (y = r) as -> by congruence. unfold in_cell in *. by rewrite <-H2, <-H3.
  - right. destruct (Hh c Hc) as [-> |[-> |Hc0]]; [congruence|congruence|]. unfold getTargetCell, searchCell.
    destruct (Search_spec (s_keyRanges s) (f key) Hd) as (Hs1 & _). rewrite (Hs1 c Hc0 Hin). by rewrite bool_decide_eq_false_2.
Qed.

(** C2. Requests reach the owner of their key.  In every store that starting,
    raft messages, membership changes, splits, log compactions, snapshots, jobs
    and requests lead to, in any order, a request that is not a query is handed to the replicate whose
    current cell contains its key when the range of such a cell is registered, and
    is answered "store not match" otherwise; the cells registered never share a
    key.  A query goes to the query loop, or is refused when it cannot be converted.
    A request that is served while a split is half applied is the subject of [split_windows]. *)
Theorem requests_reach_owner (f : bytes → bytes) (queryable : Request → bool) (s : storeE) (req : Request) (cb : Z) (name key : bytes) (args : list bytes) :
  reach s → Req_Cmd req = name :: key :: args →
  (ToLower name = query_cmd → OnProxyReq f queryable req cb s = if queryable req then Ok (emit (SQuery req cb) s) else Err tt) ∧
  (ToLower name ≠ query_cmd → ∃ s', OnProxyReq f queryable req cb s = Ok s' ∧
    ((∃ id r, s_replicatesMap s !! id = Some r ∧ in_cell (f key) (r_cell r) ∧ Cell_ID (r_cell r) = id ∧ s' = emit (SRequest id req cb) s ∧
       ∀ c, holds (s_keyRanges s) c → in_cell (f key) c → Cell_ID c = id) ∨
     ((∀ c, holds (s_keyRanges s) c → ¬ in_cell (f key) c) ∧ s' = respStoreNotMatch req cb s))).
Proof.
  intros Hs%reach_inv Hk. unfold OnProxyReq. rewrite Hk. split; [intros Hq; by rewrite bool_decide_eq_true_2|]. intros Hq. rewrite bool_decide_eq_false_2 by done.
  destruct (getTargetCell_spec f s key Hs) as [(c & r & Hc & Hin & -> & Hr & Hsr)|[Hno ->]]; [|eexists; split; [done|by right]].
  eexists. split; [done|]. left. destruct (i_rep s Hs _ _ Hr) as [_ Hpr Hid _ _]. exists (Cell_ID c), r. destruct Hsr as (H1 & H2 & H3).
  split_and!; [done|unfold in_cell in *; by rewrite <-H2, <-H3|done|by rewrite Hpr|].
  intros c' Hc' Hin'. destruct (i_tree s Hs) as (_ & Hval & Hdis). f_equal. apply Hdis; [done|done|]. apply overlap_shared_key; eauto.
Qed.
End store_props.
