(* ===== verification/StoreLifecycle.v ===== *)
(** * Destroying, restarting and cleaning up

    What a destroyed replicate leaves behind and how long it protects the store,
    what two requests to destroy one replicate do, what a new replicate does to
    the ranges of the others, and what a store deletes when it starts. *)

From Stdlib Require Import Sorted.
From S2P Require Import Prelude Encoding Meta Keys BTree CellTree KVTree RaftTypes RaftLog RaftApply ApplyProps Propose Store StoreProps.

Section lifecycle.
Context {E D T V : Type} `{!Engine value E} `{OT : !OrderedTree CellItem Less T} `{!DataEngines V D} `{!MapOrder}.
Context (enginesMask : Z) (raft : RaftLib) (snap_Apply : Cell → Z → Z → D → option D).
Abbreviation storeE := (Store E D T).

(** ** Destroying a replicate *)
Lemma destroyPeer_sync (s s' : storeE) id p r : inv s → eng_wf (store_engine enginesMask s id) → s_replicatesMap s !! id = Some r →
  destroyPeer enginesMask id p false s = Ok s' →
  s_replicatesMap s' = delete id (s_replicatesMap s) ∧ s_id s' = s_id s ∧
  loadCellLocalState enginesMask s' id = Ok (Some (mkLocalState PeerTombstone (r_cell r))).
Proof.
  intros Hi Hwf Hr. unfold destroyPeer. cbn [negb]. rewrite Hr. destruct (isApplyingSnap r); [done|].
  destruct (i_rep s Hi _ _ Hr) as [_ Hpr Hid Hp _]. unfold destroy_replicate, clearData.
  rewrite (rep_ok_initialized id r) by (by eapply i_rep). rewrite Hpr.
  destruct (encStartKey _); try done. cbn [must outcome_bind]. destruct (encEndKey _); try done. cbn [must outcome_bind].
  cbn [s_keyRanges add_job set_world removeDroppedVoteMsg snd set_dropped removePendingSnapshot set_pending set_replicates].
  destruct (Remove _ _) as [[] t]; [|done]. cbn [outcome_bind]. intros [= <-]. split_and!; [done|done|].
  unfold loadCellLocalState, store_engine, engine_of. simpl. rewrite decide_True by done.
  rewrite eng_get_map by (by apply Write_wf). rewrite Write_map by done. unfold updatePeerState. rewrite map_write_app. simpl.
  by rewrite Hid, lookup_insert_eq.
Qed.

Lemma destroyPeer_gone (s s' : storeE) id p : destroyPeer enginesMask id p false s = Ok s' →
  s_replicatesMap s' !! id = None ∧ s_delegates s' = s_delegates s.
Proof.
  unfold destroyPeer. cbn [negb]. destruct (s_replicatesMap s !! id) as [r|]; [|done]. destruct (isApplyingSnap r); [done|].
  destruct (destroy_replicate _ _ _) as [z| |] eqn:Ez; try done. cbn [outcome_bind].
  assert (s_delegates z = s_delegates s) as Hdz.
  { revert Ez. unfold destroy_replicate, clearData. destruct (isInitialized _); [|by intros [= <-]].
    destruct (encStartKey _); try done. cbn [must outcome_bind]. destruct (encEndKey _); try done. cbn [must outcome_bind]. by intros [= <-]. }
  apply destroy_replicate_frame in Ez as [Hm _]. simpl in Hm.
  assert (s_replicatesMap z !! id = None) as Hz by (by rewrite Hm, lookup_delete_eq).
  destruct (isInitialized _); [|by intros [= <-]]. destruct (Remove _ _) as [[] t]; [|done]. cbn [outcome_bind]. by intros [= <-].
Qed.

(** Two requests to destroy a replicate stop the store.  A replicate that
    is told by two messages that it has been removed gets two destroy jobs; when
    the first has run, the second finds no replicate and ends the process
    ("destroy cell not exist"). *)
Theorem two_gc_messages_stop_store (s : storeE) id r m1 m2 : reach enginesMask raft snap_Apply s → s_replicatesMap s !! id = Some r →
  RM_CellID m1 = id → RM_CellID m2 = id → RM_IsTombstone m1 = true → RM_IsTombstone m2 = true →
  Peer_StoreID (RM_ToPeer m1) = s_id s → Peer_StoreID (RM_ToPeer m2) = s_id s →
  isEpochStale (Epoch (r_cell r)) (RM_CellEpoch m1) = true → isEpochStale (Epoch (r_cell r)) (RM_CellEpoch m2) = true →
  ∃ s1 s2, onRaftMessage enginesMask raft m1 s = Ok s1 ∧ onRaftMessage enginesMask raft m2 s1 = Ok s2 ∧
    s_jobs s2 = s_jobs s ++ [JDestroy id (RM_ToPeer m1); JDestroy id (RM_ToPeer m2)] ∧
    ∀ x y, run_job enginesMask snap_Apply (JDestroy id (RM_ToPeer m1)) x = Ok y →
      run_job enginesMask snap_Apply (JDestroy id (RM_ToPeer m2)) y = Panic.
Proof.
  intros Hs%reach_inv Hr Hc1 Hc2 Ht1 Ht2 Hp1 Hp2 He1 He2.
  assert (isInitialized (r_ps r) = true) as Hini by (eapply rep_ok_initialized; by eapply i_rep).
  unfold onRaftMessage, isRaftMsgValid. rewrite Ht1, Ht2, Hp1, Hp2. rewrite (bool_decide_eq_true_2 (s_id s = s_id s)) by done. cbn [negb].
  unfold handleGCPeerMsg. rewrite Hc1, Hc2, Hr, He1, Hini. cbn [destroyPeer negb].
  eexists _, _. split; [done|]. simpl. rewrite bool_decide_eq_true_2 by done. cbn [negb]. rewrite Hr, He2, Hini. cbn [destroyPeer negb].
  split; [done|]. split; [simpl; by rewrite <-app_assoc|]. intros x y. unfold run_job, doDestroy.
  intros Hrun. assert (s_replicatesMap y !! id = None ∧ s_delegates y !! id = None) as [Hy1 Hy2].
  { destruct (s_delegates x !! id) as [d|].
    - destruct (destroy _ _) as [[? w]| |]; try done. cbn [outcome_bind] in Hrun. apply destroyPeer_gone in Hrun as [? Hd]. split; [done|]. rewrite Hd. simpl. apply lookup_delete_eq.
    - apply destroyPeer_gone in Hrun as [? Hd]. split; [done|]. rewrite Hd. simpl. apply lookup_delete_eq. }
  rewrite Hy2. unfold destroyPeer. cbn [negb]. simpl. by rewrite Hy1.
Qed.

(** ** Tombstones *)
Lemma stale_message_ignored msg (s : storeE) st : s_replicatesMap s !! RM_CellID msg = None → RM_IsTombstone msg = false →
  loadCellLocalState enginesMask s (RM_CellID msg) = Ok (Some st) → LS_State st = PeerTombstone →
  isEpochStale (RM_CellEpoch msg) (Epoch (LS_Cell st)) = true ∨ ConfVer (RM_CellEpoch msg) = ConfVer (Epoch (LS_Cell st)) →
  ∃ out, onRaftMessage enginesMask raft msg s = Ok (foldl (λ s e, emit e s) s out) ∧
    ∀ e, e ∈ out → e = SSendRaft (mkRaftMessage (RM_CellID msg) (RM_ToPeer msg) (RM_FromPeer msg) (Epoch (LS_Cell st)) true [] [] emptyMessage).
Proof.
  intros Hn Hts Hl Hst Hep. unfold onRaftMessage. destruct (negb _); [exists []; split; [done|by intros e ?%not_elem_of_nil]|]. rewrite Hts.
  unfold isMsgStale, getPeerReplicate. rewrite Hn, Hl. rewrite (bool_decide_eq_true_2 (LS_State st = PeerTombstone)) by done. cbn [negb].
  destruct (isEpochStale (RM_CellEpoch msg) (Epoch (LS_Cell st))) eqn:Ee; cbn [outcome_bind].
  - unfold handleStaleMsg. destruct (negb _); [exists []; split; [done|by intros e ?%not_elem_of_nil]|].
    eexists [_]. split; [done|]. by intros e ->%list_elem_of_singleton.
  - destruct Hep as [?|Hc]; [done|]. rewrite bool_decide_eq_true_2 by done. exists []. split; [done|by intros e ?%not_elem_of_nil].
Qed.

(** C28. A destroyed replicate stays destroyed.  The tombstone that destroying a
    replicate leaves makes the store ignore every later raft message for the cell
    whose epoch is older than the cell was, or whose membership version is the
    same: no replicate, range or engine changes, and at most a vote is answered by
    telling the sender to destroy itself. *)
Theorem tombstone_refuses_messages (s s' : storeE) id p r msg : reach enginesMask raft snap_Apply s →
  eng_wf (store_engine enginesMask s id) → s_replicatesMap s !! id = Some r → destroyPeer enginesMask id p false s = Ok s' →
  RM_CellID msg = id → RM_IsTombstone msg = false →
  isEpochStale (RM_CellEpoch msg) (Epoch (r_cell r)) = true ∨ ConfVer (RM_CellEpoch msg) = ConfVer (Epoch (r_cell r)) →
  ∃ s'', onRaftMessage enginesMask raft msg s' = Ok s'' ∧ s_replicatesMap s'' !! id = None ∧
    s_replicatesMap s'' = s_replicatesMap s' ∧ s_keyRanges s'' = s_keyRanges s' ∧ s_world s'' = s_world s' ∧ s_jobs s'' = s_jobs s'.
Proof.
  intros Hs%reach_inv Hwf Hr Hd <- Hts Hep. destruct (destroyPeer_sync s s' _ p r Hs Hwf Hr Hd) as (Hm & _ & Hl).
  assert (s_replicatesMap s' !! RM_CellID msg = None) as Hn by (by rewrite Hm, lookup_delete_eq).
  destruct (stale_message_ignored msg s' _ Hn Hts Hl eq_refl Hep) as (out & -> & _).
  eexists. split; [done|].
  assert (∀ x : storeE, s_replicatesMap (foldl (λ s e, emit e s) x out) = s_replicatesMap x ∧ s_keyRanges (foldl (λ s e, emit e s) x out) = s_keyRanges x ∧
    s_world (foldl (λ s e, emit e s) x out) = s_world x ∧ s_jobs (foldl (λ s e, emit e s) x out) = s_jobs x) as Hf.
  { clear. induction out as [|e out IH]; intros x; [done|]. apply (IH (emit e x)). }
  destruct (Hf s') as (-> & -> & -> & ->). done.
Qed.

(** *** A restart *)
(** The keys [clearMeta] deletes. *)
Definition meta_keys (id : Z) (e : E) : list bytes :=
  (Engine_Scan (getCellMetaPrefix id) (getCellMetaPrefix (u64 (id + 1))) e).*1 ++ (Engine_Scan (getCellRaftPrefix id) (getCellRaftPrefix (u64 (id + 1))) e).*1.
Lemma clearMeta_deletes id wb e : clearMeta id wb e = wb ++ (BDelete <$> meta_keys id e).
Proof. unfold clearMeta, meta_keys. by rewrite <-app_assoc, fmap_app, <-!list_fmap_compose. Qed.
Lemma state_key_cleared id e : eng_wf e → is_u64 id → id + 1 < two64 → is_Some (eng_map e !! getCellStateKey id) → getCellStateKey id ∈ meta_keys id e.
Proof.
  intros Hwf Hid Hid1 [v Hv]. apply elem_of_app. left. apply list_elem_of_fmap. exists (getCellStateKey id, v). split; [done|].
  apply eng_scan_elem; [done|]. split; [done|]. rewrite u64_small by (unfold is_u64 in *; lia).
  unfold getCellStateKey, getCellMetaKey, getCellMetaPrefix. split.
  - apply ble_lteq. left. rewrite <-(app_nil_r (PutUint64 id)) at 1. by rewrite !blt_app.
  - assert (blt (cellMetaPrefixKey ++ PutUint64 id ++ [cellStateSuffix]) (cellMetaPrefixKey ++ PutUint64 (id + 1))) as Hlt.
    { rewrite blt_app, <-(app_nil_r (PutUint64 (id + 1))). apply blt_app_prefix; [by rewrite !length_PutUint64|].
      apply PutUint64_lt; [done|unfold is_u64 in *; lia|lia]. }
    unfold below_end. destruct scan_includes_end; border.
Qed.

Lemma cache_peers_world ps : ∀ s : storeE, s_world (cache_peers ps s) = s_world s.
Proof. induction ps as [|p ps IH]; intros s; [done|]. apply (IH (addPeerToCache p s)). Qed.

(** Starting only deletes from the engines; a tombstone goes. *)
Lemma start_cell_wb k v wb wb' (s s' : storeE) : start_cell enginesMask raft k v wb s = Ok (wb', s') →
  s_world s' = s_world s ∧ ∃ ks, wb' = wb ++ (BDelete <$> ks) ∧
    ∀ id st, is_u64 id → k = getCellStateKey id → v = VCellState st → LS_State st = PeerTombstone → ks = meta_keys id (store_engine enginesMask s id).
Proof.
  unfold start_cell. destruct (decodeCellMetaKey k) as [[cellID suffix]| |] eqn:Ed; try done. cbn [must outcome_bind].
  assert (∀ id, is_u64 id → k = getCellStateKey id → cellID = id ∧ suffix = cellStateSuffix) as Hdec.
  { intros id Hid ->. pose proof (proj1 (decodeCellMetaKey_spec [] id cellStateSuffix Hid)) as Hd. unfold getCellStateKey in Ed. rewrite Hd in Ed. by injection Ed as <- <-. }
  destruct (bool_decide_reflect (suffix = cellStateSuffix)) as [Hsuf|Hsuf]; cbn [negb].
  2: { intros [= <- <-]. split; [done|]. exists []. split; [by rewrite app_nil_r|]. intros id st Hid Hk. by destruct (Hdec id Hid Hk). }
  destruct v as [st| | | | |]; try done. set (s1 := cache_peers _ s). assert (s_world s1 = s_world s) as Hw by apply cache_peers_world.
  destruct (bool_decide_reflect (LS_State st = PeerTombstone)) as [Hts|Hts].
  - intros [= <- <-]. split; [done|]. exists (meta_keys cellID (store_engine enginesMask s1 cellID)). split; [apply clearMeta_deletes|].
    intros id st' Hid Hk _ _. destruct (Hdec id Hid Hk) as [-> _]. unfold store_engine. by rewrite Hw.
  - destruct (createPeerReplicate _ _ _ _) as [r| |]; try done. cbn [must outcome_bind].
    intros Heq. assert (s_world s' = s_world s ∧ wb' = wb) as [Hws ->].
    { revert Heq. destruct (bool_decide _); intros [= <- <-]; done. }
    split; [done|]. exists []. split; [by rewrite app_nil_r|]. intros id st' _ _ [= <-]. done.
Qed.

Lemma start_scan_wb id kvs : is_u64 id → ∀ wb wb' (s s' : storeE), start_scan enginesMask raft kvs wb s = Ok (wb', s') →
  s_world s' = s_world s ∧ ∃ ks, wb' = wb ++ (BDelete <$> ks) ∧
    ∀ st, (getCellStateKey id, VCellState st) ∈ kvs → LS_State st = PeerTombstone → meta_keys id (store_engine enginesMask s id) ⊆ ks.
Proof.
  intros Hid. induction kvs as [|[k v] kvs IH]; intros wb wb' s s'; simpl.
  { intros [= <- <-]. split; [done|]. exists []. split; [by rewrite app_nil_r|]. intros st Hin. by apply not_elem_of_nil in Hin. }
  destruct (start_cell _ _ _ _ _ _) as [[wb1 s1]| |] eqn:E1; try done. cbn [outcome_bind]. apply start_cell_wb in E1 as (Hw1 & ks1 & -> & Hk1).
  intros (Hw2 & ks2 & -> & Hk2)%IH. split; [by rewrite Hw2|]. exists (ks1 ++ ks2). split; [by rewrite fmap_app, app_assoc|].
  intros st Hin Hts x Hx. apply elem_of_app. apply elem_of_cons in Hin as [[= Heq1 Heq2]|Hin].
  - left. by rewrite (Hk1 id st Hid (eq_sym Heq1) (eq_sym Heq2) Hts).
  - right. apply (Hk2 st Hin Hts). unfold store_engine in *. by rewrite Hw1.
Qed.

Lemma start_engines_other is_ : ∀ (s s' : storeE) i, i ∉ is_ → start_engines enginesMask raft is_ s = Ok s' → w_engines (s_world s') i = w_engines (s_world s) i.
Proof.
  induction is_ as [|j is_ IH]; intros s s' i Hni; simpl; [by intros [= <-]|]. apply not_elem_of_cons in Hni as [Hne Hni].
  destruct (start_scan _ _ _ _ _) as [[wb s1]| |] eqn:E1; try done. cbn [outcome_bind].
  apply (start_scan_wb 0) in E1 as [Hw _]; [|by unfold is_u64]. intros Hrun. rewrite (IH _ _ i Hni Hrun). simpl. by rewrite decide_False, Hw.
Qed.
Lemma start_engines_clears is_ id st : is_u64 id → id + 1 < two64 → LS_State st = PeerTombstone → ∀ s s' : storeE, NoDup is_ →
  getDriver enginesMask id ∈ is_ → eng_wf (store_engine enginesMask s id) →
  eng_map (store_engine enginesMask s id) !! getCellStateKey id = Some (VCellState st) →
  start_engines enginesMask raft is_ s = Ok s' →
  eng_wf (store_engine enginesMask s' id) ∧ eng_map (store_engine enginesMask s' id) !! getCellStateKey id = None.
Proof.
  intros Hid Hid1 Hts. induction is_ as [|i is_ IH]; intros s s' Hnd Hin Hwf Hk; [by apply not_elem_of_nil in Hin|]. simpl.
  apply NoDup_cons in Hnd as [Hni Hnd]. destruct (start_scan _ _ _ _ _) as [[wb s1]| |] eqn:E1; try done. cbn [outcome_bind].
  apply (start_scan_wb id) in E1 as (Hw & ks & -> & Hks); [|done]. unfold store_engine, engine_of in *.
  apply elem_of_cons in Hin as [Heq|Hin].
  - intros Hrun. apply (start_engines_other _ _ _ i) in Hrun; [|done]. rewrite Heq, Hrun. simpl. rewrite decide_True, Hw by done. subst i.
    split; [by apply Write_wf|]. rewrite Write_map by done. simpl. rewrite map_write_deletes, bool_decide_eq_true_2; [done|].
    apply (Hks st); [|done|by apply state_key_cleared].
    apply eng_scan_elem; [done|]. split; [done|]. unfold getCellStateKey, getCellMetaKey. split; [by apply ble_lteq; left|].
    unfold below_end. destruct scan_includes_end; [apply ble_lteq; left|]; done.
  - apply IH; [done|done| |]; simpl; rewrite decide_False, Hw by (intros Heq; apply Hni; by rewrite <-Heq); done.
Qed.

(** A restart forgets the tombstones.  Starting a store deletes the
    tombstone of every destroyed cell it finds, so afterwards no message about
    that cell counts as stale, however old its epoch is: a delayed vote can create
    the destroyed replicate again. *)
Theorem restart_forgets_tombstones sid (w : world E D) (s : storeE) id st : engines_ok enginesMask w → is_u64 id → id + 1 < two64 →
  getDriver enginesMask id ∈ engine_ids enginesMask → eng_map (w_engines w (getDriver enginesMask id)) !! getCellStateKey id = Some (VCellState st) →
  LS_State st = PeerTombstone → startCells enginesMask raft (NewStore sid w) = Ok s →
  s_replicatesMap s !! id = None ∧ loadCellLocalState enginesMask s id = Ok None ∧
  ∀ msg, RM_CellID msg = id → isMsgStale enginesMask msg s = Ok (MFresh, s).
Proof.
  intros Hok Hid Hid1 Hin Hk Hts. unfold startCells. destruct (start_engines _ _ _ _) as [s1| |] eqn:E1; try done. cbn [outcome_bind].
  intros [d ->]%cleanup_frame. destruct (Hok _ Hin) as [Hwf Hent].
  pose proof (start_engines_clears _ id st Hid Hid1 Hts (NewStore sid w) _ (NoDup_seqZ _ _) Hin Hwf Hk E1) as [Hwf1 Hk1].
  apply start_engines_inv in E1 as [_ Hids]; [|apply NewStore_inv|apply NoDup_seqZ|by intros i Hi; apply Hok|by intros i [x Hx]].
  assert (s_replicatesMap s1 !! id = None) as Hnone.
  { apply eq_None_not_Some. intros Hs. apply Hids in Hs as [[x Hx]|(i & k & st' & Hi & Hl & Hn & Heq)]; [done|]. simpl in Hl.
    destruct (Hok i Hi) as [_ He]. destruct (He k _ Hl st' eq_refl) as (Hkk & _ & Hd & _). rewrite <-Heq in Hkk, Hd. subst k i. congruence. }
  assert (loadCellLocalState enginesMask (set_data_engine (λ _, d) s1) id = Ok None) as Hload.
  { unfold loadCellLocalState. change (store_engine enginesMask (set_data_engine (λ _, d) s1) id) with (store_engine enginesMask s1 id). by rewrite eng_get_map, Hk1. }
  split_and!; [done|done|]. intros msg Hm. unfold isMsgStale, getPeerReplicate. rewrite Hm. simpl. rewrite Hnone, Hload. done.
Qed.

(** ** Cleaning up *)
Definition sweep_step (acc : bytes * D) (c : Cell) : bytes * D :=
  (getDataEndKey (End c), RangeDelete (getDriver enginesMask (Cell_ID c)) acc.1 (getDataKey (Start c)) acc.2).
Definition before (a b : Cell) : Prop := End a ≠ [] ∧ ble (End a) (Start b).

Lemma getDataKey_ble a b : ble (getDataKey a) (getDataKey b) ↔ ble a b.
Proof. unfold getDataKey. rewrite !ble_lteq, blt_app. split; intros [H1|H1]; auto; [right; by apply app_inv_head in H1|right; by rewrite H1]. Qed.

(** What [sweep_step] deletes from [lastStartKey] on: the gaps between the cells. *)
Lemma sweep_spec cs : StronglySorted before cs → Forall valid_cell cs → ∀ acc,
  Forall (λ c, ble acc.1 (getDataKey (Start c))) cs →
  let acc' := foldl sweep_step acc cs in
  ble acc.1 acc'.1 ∧
  (∀ j K, blt K acc.1 → data_map acc'.2 j !! K = data_map acc.2 j !! K) ∧
  (∀ c k, c ∈ cs → in_cell k c → blt (getDataKey k) acc'.1 ∧ ∀ j, data_map acc'.2 j !! getDataKey k = data_map acc.2 j !! getDataKey k) ∧
  (enginesMask = 0 → ∀ k, ble acc.1 (getDataKey k) → blt (getDataKey k) acc'.1 → (∀ c, c ∈ cs → ¬ in_cell k c) → data_map acc'.2 0 !! getDataKey k = None).
Proof.
  clear snap_Apply. induction 1 as [|c cs Hs IH HF]; intros Hv [L data] HL; simpl.
  { split; [border|]. split; [done|]. split; [intros c k Hc; by apply not_elem_of_nil in Hc|]. intros _ k H1 H2. exfalso. border. }
  apply Forall_cons in Hv as [Hvc Hv]. apply Forall_cons in HL as [HLc _]. simpl in HLc.
  assert (∀ k, in_cell k c ↔ ble (getDataKey (Start c)) (getDataKey k) ∧ blt (getDataKey k) (getDataEndKey (End c))) as Hin.
  { intros k. rewrite getDataKey_ble, getDataEndKey_blt. unfold in_cell. tauto. }
  assert (blt (getDataKey (Start c)) (getDataEndKey (End c))) as Hse by (apply getDataEndKey_blt; exact Hvc).
  destruct (IH Hv (sweep_step (L, data) c)) as (I1 & I2 & I3 & I4).
  { rewrite Forall_forall in HF |- *. intros x Hx. destruct (HF x Hx) as [Hne Hle]. simpl. unfold getDataEndKey. rewrite decide_False by done. by apply getDataKey_ble. }
  set (acc' := foldl sweep_step _ cs) in *. simpl in I1, I2, I3, I4.
  assert (∀ j K, ~ (ble L K ∧ blt K (getDataKey (Start c))) → data_map (RangeDelete (getDriver enginesMask (Cell_ID c)) L (getDataKey (Start c)) data) j !! K = data_map data j !! K) as Hkeep.
  { intros j K Hn. rewrite RangeDelete_lookup, decide_False; [done|]. tauto. }
  split; [border|]. split; [|split].
  - intros j K HK. rewrite I2 by border. apply Hkeep. intros [? _]. border.
  - intros c0 k Hc0 Hk. apply elem_of_cons in Hc0 as [-> |Hc0].
    + apply Hin in Hk as [Hk1 Hk2]. split; [border|]. intros j. rewrite I2 by done. apply Hkeep. intros [_ ?]. border.
    + destruct (I3 c0 k Hc0 Hk) as [H1 H2]. split; [done|]. intros j. rewrite H2. apply Hkeep. intros [_ Hlt].
      rewrite Forall_forall in HF. destruct (HF c0 Hc0) as [Hne Hle]. destruct Hk as [Hk _]. destruct Hvc as [?|Hvc]; [done|].
      assert (ble (getDataKey (Start c)) (getDataKey k)) by (apply getDataKey_ble; border). border.
  - intros Hone k H1 H2 Hno. destruct (decide (blt (getDataKey k) (getDataKey (Start c)))) as [Hlt|Hge].
    + rewrite I2 by border. rewrite RangeDelete_lookup, decide_True; [done|]. split_and!; [unfold getDriver; by rewrite Hone|done|done].
    + apply I4; [done| |done|intros c0 Hc0; apply Hno; by right].
      destruct (decide (blt (getDataKey k) (getDataEndKey (End c)))) as [Hlt|Hge']; [|border].
      exfalso. apply (Hno c); [left|]. apply Hin. split; [border|done].
Qed.

Lemma Ascend_sweep (l : list CellItem) : Forall (λ i, Peers (cell i) ≠ []) l → ∀ acc,
  iterate (λ (acc : outcome unit (bytes * D)) i,
     match acc with
     | Ok (lastStartKey, data) =>
         match encStartKey (cell i), encEndKey (cell i) with
         | Ok start, Ok end_ => (Ok (end_, RangeDelete (getDriver enginesMask (Cell_ID (cell i))) lastStartKey start data), true)
         | _, _ => (Panic, false)
         end
     | _ => (acc, false)
     end) (Ok acc) l = Ok (foldl sweep_step acc (cell <$> l)).
Proof.
  induction 1 as [|i l Hp _ IH]; intros [L data]; [done|]. cbn [iterate]. unfold encStartKey, encEndKey. rewrite !decide_False by done.
  cbn [fmap list_fmap foldl]. apply IH.
Qed.

Lemma cells_in_order (s : storeE) : inv s →
  let cs := cell <$> descend (s_keyRanges s) in
  StronglySorted before cs ∧ Forall valid_cell cs ∧ Forall (λ i, Peers (cell i) ≠ []) (descend (s_keyRanges s)) ∧ ∀ c, c ∈ cs ↔ holds (s_keyRanges s) c.
Proof.
  intros Hi. pose proof (i_tree s Hi) as Hd. destruct Hd as (Hwf & Hval & Hdis). cbn zeta.
  assert (∀ i, i ∈ descend (s_keyRanges s) ↔ holds (s_keyRanges s) (cell i)) as Hel.
  { intros i. unfold descend. by rewrite elem_of_reverse, holds_item. }
  assert (∀ c, c ∈ cell <$> descend (s_keyRanges s) ↔ holds (s_keyRanges s) c) as Hcs.
  { intros c. rewrite list_elem_of_fmap. split; [by intros (i & -> & Hin%Hel)|]. intros Hc. exists (mkCellItem c). split; [done|]. by apply Hel. }
  split_and!; [| | |done].
  - apply (StronglySorted_impl_in (λ a b, blt (Start a) (Start b))).
    + intros a b Ha%Hcs Hb%Hcs Hlt. apply (disjoint_order (s_keyRanges s)); [apply (i_tree s Hi)|done..].
    + apply StronglySorted_fmap. eapply (StronglySorted_impl (flip (λ x y, Less x y = true))); [by intros x y ?%Less_blt|].
      by apply StronglySorted_reverse, ot_sorted.
  - apply Forall_forall. intros c Hc%Hcs. by apply Hval.
  - apply Forall_forall. intros i Hin%Hel. by destruct (i_held s Hi _ Hin).
Qed.

Lemma final_sweep_keeps L is_ K : ∀ data : D, blt K L → ∀ j, data_map (foldl (λ data i, RangeDelete i L dataMaxKey data) data is_) j !! K = data_map data j !! K.
Proof.
  induction is_ as [|i is_ IH]; intros data HK j; [done|]. simpl. rewrite IH by done. rewrite RangeDelete_lookup, decide_False; [done|]. intros (_ & ? & _). border.
Qed.

Lemma cleanup_effect (s : storeE) : inv s → ∃ s', cleanup enginesMask s = Ok s' ∧
  s_keyRanges s' = s_keyRanges s ∧ s_replicatesMap s' = s_replicatesMap s ∧
  (∀ c k j, holds (s_keyRanges s) c → in_cell k c → data_map (w_data (s_world s')) j !! getDataKey k = data_map (w_data (s_world s)) j !! getDataKey k) ∧
  (enginesMask = 0 → ∀ k, (∀ c, holds (s_keyRanges s) c → ¬ in_cell k c) → data_map (w_data (s_world s')) 0 !! getDataKey k = None).
Proof.
  intros Hi. destruct (cells_in_order s Hi) as (Hs & Hv & Hp & Hcs). unfold cleanup, Ascend.
  rewrite (Ascend_sweep _ Hp). set (cs := cell <$> descend (s_keyRanges s)) in *. set (acc0 := (getDataKey [], w_data (s_world s))).
  destruct (sweep_spec cs Hs Hv acc0) as (H1 & H2 & H3 & H4).
  { apply Forall_forall. intros c _. apply getDataKey_ble. apply nil_ble. }
  destruct (foldl sweep_step acc0 cs) as [L data] eqn:Ef. cbn [outcome_bind]. eexists. split; [done|]. split; [done|]. split; [done|]. simpl in *. split.
  - intros c k j Hc%Hcs Hk. destruct (H3 c k Hc Hk) as [Hlt Heq]. rewrite final_sweep_keeps by done. apply Heq.
  - intros Hone k Hno. unfold engine_ids. rewrite Hone. change (seqZ 0 (0 + 1)) with [0]. simpl. rewrite RangeDelete_lookup.
    destruct (decide (0 = 0 ∧ ble L (getDataKey k) ∧ blt (getDataKey k) dataMaxKey)) as [|Hn]; [done|].
    apply H4; [done|apply getDataKey_ble, nil_ble| |intros c Hc%Hcs; by apply Hno].
    assert (blt (getDataKey k) dataMaxKey) by done. destruct (decide (blt (getDataKey k) L)) as [|Hge]; [done|]. exfalso. apply Hn. split_and!; [done|border|done].
Qed.

Lemma start_engines_data is_ : ∀ s s' : storeE, start_engines enginesMask raft is_ s = Ok s' → w_data (s_world s') = w_data (s_world s).
Proof.
  induction is_ as [|i is_ IH]; intros s s'; simpl; [by intros [= <-]|]. destruct (start_scan _ _ _ _ _) as [[wb s1]| |] eqn:E1; try done. cbn [outcome_bind].
  apply (start_scan_wb 0) in E1 as [Hw _]; [|by unfold is_u64]. intros ->%IH. simpl. by rewrite Hw.
Qed.

(** Starting a store never touches the data of its cells: a key that belongs
    to a registered cell keeps its value, in every engine; with a single engine,
    every data key outside the cells is gone afterwards. *)
Theorem start_keeps_cell_data sid (w : world E D) (s : storeE) : engines_ok enginesMask w → startCells enginesMask raft (NewStore sid w) = Ok s →
  (∀ c k j, holds (s_keyRanges s) c → in_cell k c → data_map (w_data (s_world s)) j !! getDataKey k = data_map (w_data w) j !! getDataKey k) ∧
  (enginesMask = 0 → ∀ k, (∀ c, holds (s_keyRanges s) c → ¬ in_cell k c) → data_map (w_data (s_world s)) 0 !! getDataKey k = None).
Proof.
  intros Hok. unfold startCells. destruct (start_engines _ _ _ _) as [s1| |] eqn:E1; try done. cbn [outcome_bind].
  pose proof (start_engines_data _ _ _ E1) as Hd. simpl in Hd.
  apply start_engines_inv in E1 as [Hi _]; [|apply NewStore_inv|apply NoDup_seqZ|by intros i Hi; apply Hok|by intros i [x Hx]].
  destruct (cleanup_effect s1 Hi) as (s2 & -> & Ht & _ & H1 & H2). intros [= <-]. rewrite Ht. rewrite <-Hd. split; [exact H1|exact H2].
Qed.

(** ** Ranges that a new replicate displaces *)
(** A replicate whose range is not registered any more cannot be destroyed. *)
Lemma unregistered_replicate_panics (s : storeE) id p r : inv s → s_replicatesMap s !! id = Some r →
  (∀ c, holds (s_keyRanges s) c → Cell_ID c ≠ id) → destroyPeer enginesMask id p false s = Panic.
Proof.
  intros Hi Hr Hno. unfold destroyPeer. cbn [negb]. rewrite Hr. destruct (isApplyingSnap r); [done|].
  pose proof (i_rep s Hi _ _ Hr) as Hro. unfold destroy_replicate, clearData. rewrite (rep_ok_initialized id r Hro).
  destruct Hro as [_ _ Hid Hp _]. unfold encStartKey, encEndKey. rewrite !decide_False by done. cbn [must outcome_bind].
  cbn [s_keyRanges add_job set_world removeDroppedVoteMsg snd set_dropped removePendingSnapshot set_pending set_replicates].
  pose proof (Remove_spec (s_keyRanges s) (r_cell r) (i_tree s Hi)) as Hrem. destruct (Remove _ _) as [[] t]; [|done].
  destruct Hrem as [[Hx _] _]. destruct (Hx eq_refl) as (c & Hc & _ & Heq). exfalso. apply (Hno c Hc). by rewrite Heq.
Qed.
(** Only the start key of a new replicate is compared with the registered ranges,
    so a range inside the new one is displaced. *)
Lemma create_displaces msg (s s' : storeE) c : inv s → msg_ok msg → s_replicatesMap s !! RM_CellID msg = None →
  create_for enginesMask raft (RM_CellID msg) msg s = Ok (true, s') → holds (s_keyRanges s) c →
  overlap c (mkCell (RM_CellID msg) (RM_Start msg) (RM_End msg) (RM_CellEpoch msg) [RM_ToPeer msg; RM_FromPeer msg]) →
  is_Some (s_replicatesMap s' !! Cell_ID c) ∧ (∀ a, holds (s_keyRanges s') a → Cell_ID a ≠ Cell_ID c) ∧
  ∀ p, destroyPeer enginesMask (Cell_ID c) p false s' = Panic.
Proof.
  intros Hi Hm Hn Hrun Hc Hov. pose proof (create_for_inv enginesMask raft msg s s' true Hi Hm Hn Hrun) as Hi'.
  set (nc := mkCell _ _ _ _ _) in Hov. destruct (i_held s Hi c Hc) as (_ & r & Hr & Hsr).
  assert (Cell_ID c ≠ RM_CellID msg) as Hne by (intros Heq; congruence).
  assert (s_replicatesMap s' !! Cell_ID c = Some r ∧ s_keyRanges s' = Update (s_keyRanges s) nc) as [Hm' Ht'].
  { revert Hrun. unfold create_for. destruct (_ && _); [done|]. destruct (if bool_decide _ then _ else _) as [o| |]; try done. cbn [outcome_bind]. destruct o; [done|].
    destruct (doReplicate _ _ _ _ _) as [x| |] eqn:Ex; try done. intros [= <-]. unfold doReplicate in Ex. apply newPeerReplicate_Ok in Ex as (Hxc & _).
    simpl. rewrite lookup_insert_ne by done. split; [done|]. f_equal.
    change (r_cell (add_peers x msg)) with (set_peers (Peers (r_cell x) ++ [RM_ToPeer msg; RM_FromPeer msg]) (r_cell x)). by rewrite Hxc. }
  assert (∀ a, holds (s_keyRanges s') a → Cell_ID a ≠ Cell_ID c) as Hgone.
  { intros a Ha Heq. rewrite Ht' in Ha. destruct Hm as [_ Hrange]. apply Update_holds in Ha; [|apply (i_tree s Hi)|exact Hrange]. destruct Ha as [-> |[Ha Hno]]; [by simpl in Heq|].
    destruct (i_held s Hi a Ha) as (_ & y & Hy & (_ & Hy2 & Hy3)). rewrite Heq, Hr in Hy. injection Hy as <-. destruct Hsr as (_ & Hs2 & Hs3).
    apply Hno. unfold overlap in *. by rewrite Hy2, Hy3, <-Hs2, <-Hs3. }
  split; [by eexists|]. split; [done|]. intros p. by eapply unregistered_replicate_panics.
Qed.

Lemma startCells_wf sid (w : world E D) (s : storeE) : (∀ i, eng_wf (w_engines w i)) → startCells enginesMask raft (NewStore sid w) = Ok s →
  ∀ i, eng_wf (w_engines (s_world s) i).
Proof.
  intros Hwf. unfold startCells. destruct (start_engines _ _ _ _) as [s1| |] eqn:E1; try done. cbn [outcome_bind]. intros [d ->]%cleanup_frame.
  assert (∀ is_ (x x' : storeE), (∀ i, eng_wf (w_engines (s_world x) i)) → start_engines enginesMask raft is_ x = Ok x' → ∀ i, eng_wf (w_engines (s_world x') i)) as Hgen.
  { clear. induction is_ as [|i is_ IH]; intros x x' Hx; simpl; [by intros [= <-]|]. destruct (start_scan _ _ _ _ _) as [[wb s1]| |] eqn:E1; try done. cbn [outcome_bind].
    apply (start_scan_wb 0) in E1 as [Hw _]; [|by unfold is_u64]. apply IH. intros j. simpl. rewrite Hw. case_decide; [by apply Write_wf|done]. }
  intros i. by apply (Hgen _ (NewStore sid w) _ Hwf E1).
Qed.
End lifecycle.

(** ** The theorems at concrete inputs *)
(** A store with one memory engine that holds two cells and a tombstone. *)
#[export] Instance map_engines : DataEngines bytes (Z → gmap bytes bytes).
Proof.
  refine {| RangeDelete i s t d := λ j, if decide (j = i) then filter (λ kv, ¬ (ble s kv.1 ∧ blt kv.1 t)) (d j) else d j; data_map d j := d j |}.
  intros i s t d j k. destruct (decide (j = i)) as [->|Hne]; [|by rewrite decide_False by tauto].
  destruct (decide (ble s k ∧ blt k t)) as [Hin|Hout].
  - rewrite decide_True by done. apply map_lookup_filter_None. right. intros v _ Hn. by apply Hn.
  - rewrite decide_False by tauto. destruct (d i !! k) as [v|] eqn:Ek.
    + by apply map_lookup_filter_Some.
    + apply map_lookup_filter_None. by left.
Defined.

Definition cell_a : Cell := mkCell 1 [] [x6d] (mkCellEpoch 1 2) [mkPeer 11 1; mkPeer 12 2].
Definition cell_b : Cell := mkCell 2 [x6d] [x7a] (mkCellEpoch 1 2) [mkPeer 21 1; mkPeer 22 2].
Definition cell_c : Cell := mkCell 3 [x7a] [] (mkCellEpoch 4 2) [mkPeer 31 1; mkPeer 32 2].
Definition stored_batch : writeBatch value :=
  [BSet (getCellStateKey 1) (VCellState (mkLocalState Normal cell_a)); BSet (getRaftStateKey 1) (VRaftState initialRaftState); BSet (getApplyStateKey 1) (VApplyState initialApplyState);
   BSet (getCellStateKey 2) (VCellState (mkLocalState Normal cell_b)); BSet (getRaftStateKey 2) (VRaftState initialRaftState); BSet (getApplyStateKey 2) (VApplyState initialApplyState);
   BSet (getCellStateKey 3) (VCellState (mkLocalState PeerTombstone cell_c))].
Definition stored_data : gmap bytes bytes := {[ getDataKey [x61] := [x31]; getDataKey [x7a; x7a] := [x32] ]}.
Definition stored_world : world mem (Z → gmap bytes bytes) :=
  mkWorld (λ _, Write (Engine0 := memory_engine) stored_batch eng_empty) (λ _, stored_data) [] [].
Definition sample_raft : RaftLib :=
  mkRaftLib (λ _ _ _ _ _, Some (mkStatus false 5 0 ∅ 5)) (λ st, Some st) (λ _ st, st).
Definition no_snap : Cell → Z → Z → (Z → gmap bytes bytes) → option (Z → gmap bytes bytes) := λ _ _ _ d, Some d.
Abbreviation sample_start := (startCells (T := list CellItem) (Engine0 := memory_engine (T := mem)) 0 sample_raft (NewStore 1 stored_world)).

Lemma map_write_from (wb : writeBatch value) k v : ∀ m, map_write wb m !! k = Some v → m !! k = Some v ∨ BSet k v ∈ wb.
Proof.
  induction wb as [|o wb IH]; intros m; [by left|]. simpl. intros [Hk|Hk]%IH; [|right; by right]. destruct o as [k' v'|k']; simpl in Hk.
  - apply lookup_insert_Some in Hk as [[<- <-]|[_ Hk]]; [right; left|by left].
  - apply lookup_delete_Some in Hk as [_ Hk]. by left.
Qed.
Lemma stored_wf i : eng_wf (Engine := memory_engine (T := mem)) (w_engines stored_world i).
Proof. apply (Write_wf (Engine0 := memory_engine)), (eng_empty_wf (Engine := memory_engine (T := mem))). Qed.
Lemma stored_ok : engines_ok (Engine0 := memory_engine (T := mem)) 0 stored_world.
Proof.
  intros i Hi. assert (i = 0) as -> by (unfold engine_ids in Hi; apply elem_of_seqZ in Hi; lia). split; [apply stored_wf|]. intros k v Hk.
  assert (eng_map (Engine := memory_engine (T := mem)) (w_engines stored_world 0) = map_write stored_batch ∅) as Hmap.
  { etrans; [apply (Write_map (Engine0 := memory_engine (T := mem))), (eng_empty_wf (Engine := memory_engine (T := mem)))|].
    by rewrite (eng_empty_map (Engine := memory_engine (T := mem))). }
  rewrite Hmap in Hk.
  apply map_write_from in Hk as [Hk|Hin]; [done|]. unfold stored_batch in Hin. intros st ->.
  rewrite !elem_of_cons, elem_of_nil in Hin. destruct Hin as [[= -> ->]|[?|[?|[[= -> ->]|[?|[?|[[= -> ->]|[]]]]]]]]; try done.
  - split_and!; [done|done|done|done|]. right. by vm_compute.
  - split_and!; [done|done|done|done|]. right. by vm_compute.
Qed.

(** The key "a" belongs to cell 1. *)
Lemma requests_reach_owner_witness :
  ∃ s s', sample_start = Ok s ∧ OnProxyReq id (λ _, true) (mkRequest [] 201 [[x67]; [x61]] 1) 4 s = Ok s' ∧
    last (s_effects s') = Some (SRequest 1 (mkRequest [] 201 [[x67]; [x61]] 1) 4).
Proof.
  assert (observe (λ s, last (s_effects s) ) (let! s := sample_start in OnProxyReq id (λ _, true) (mkRequest [] 201 [[x67]; [x61]] 1) 4 s) =
    Some (Some (SRequest 1 (mkRequest [] 201 [[x67]; [x61]] 1) 4))) as Hobs by (vm_compute; reflexivity).
  destruct sample_start as [s| |] eqn:Es; [|done|done]. cbn [outcome_bind] in Hobs.
  destruct (requests_reach_owner (Engine0 := memory_engine (T := mem)) 0 sample_raft no_snap id (λ _, true) s (mkRequest [] 201 [[x67]; [x61]] 1) 4 [x67] [x61] []) as [_ Hr];
    [by apply (reach_start _ _ _ 1 stored_world s stored_ok)|reflexivity|]. destruct Hr as (s' & Hrun & _); [by vm_compute|].
  exists s, s'. split; [reflexivity|]. split; [exact Hrun|]. rewrite Hrun in Hobs. injection Hobs as Hobs. exact Hobs.
Defined.

(** Cell 1 is told twice that it was removed. *)
Definition gc_message (from : Z) : RaftMessage := mkRaftMessage 1 (mkPeer from 2) (mkPeer 11 1) (mkCellEpoch 3 2) true [] [] emptyMessage.
Lemma two_gc_messages_stop_store_witness :
  ∃ s s1 s2, sample_start = Ok s ∧ onRaftMessage (Engine0 := memory_engine (T := mem)) 0 sample_raft (gc_message 12) s = Ok s1 ∧
    onRaftMessage (Engine0 := memory_engine (T := mem)) 0 sample_raft (gc_message 13) s1 = Ok s2 ∧
    s_jobs s2 = s_jobs s ++ [JDestroy 1 (mkPeer 11 1); JDestroy 1 (mkPeer 11 1)].
Proof.
  assert (observe (λ s, (s_id s, (λ r, Epoch (r_cell r)) <$> s_replicatesMap s !! 1)) sample_start = Some (1, Some (mkCellEpoch 1 2))) as Hobs by (vm_compute; reflexivity).
  destruct sample_start as [s| |] eqn:Es; [|done|done]. injection Hobs as Hid Hobs.
  destruct (s_replicatesMap s !! 1) as [r|] eqn:Er; [|done]. injection Hobs as Hep. change (ps_cell (pr_ps (r_pr r))) with (r_cell r) in Hep.
  destruct (two_gc_messages_stop_store (Engine0 := memory_engine (T := mem)) 0 sample_raft no_snap s 1 r (gc_message 12) (gc_message 13)) as (s1 & s2 & H1 & H2 & H3 & _);
    [by apply (reach_start _ _ _ 1 stored_world s stored_ok)|exact Er|reflexivity..|by rewrite Hid|by rewrite Hid|by rewrite Hep|by rewrite Hep|].
  exists s, s1, s2. split; [reflexivity|]. split; [exact H1|]. split; [exact H2|exact H3].
Defined.

(** After cell 1 is destroyed, a vote of its old epoch creates nothing. *)
Definition old_vote : RaftMessage := mkRaftMessage 1 (mkPeer 12 2) (mkPeer 11 1) (mkCellEpoch 1 2) false [] [x6d] (mkMessage MsgVote 0 NoSnap).
Lemma tombstone_refuses_messages_witness :
  ∃ s s' s'', sample_start = Ok s ∧ destroyPeer (Engine0 := memory_engine (T := mem)) 0 1 (mkPeer 11 1) false s = Ok s' ∧
    onRaftMessage (Engine0 := memory_engine (T := mem)) 0 sample_raft old_vote s' = Ok s'' ∧ s_replicatesMap s'' !! 1 = None.
Proof.
  assert (observe (λ s, (λ r, Epoch (r_cell r)) <$> s_replicatesMap s !! 1) sample_start = Some (Some (mkCellEpoch 1 2))) as Hobs by (vm_compute; reflexivity).
  assert (observe (λ s, s_id s) (let! s := sample_start in destroyPeer (Engine0 := memory_engine (T := mem)) 0 1 (mkPeer 11 1) false s) = Some 1) as Hd by (vm_compute; reflexivity).
  destruct sample_start as [s| |] eqn:Es; [|done|done]. injection Hobs as Hobs. cbn [outcome_bind] in Hd.
  destruct (destroyPeer 0 1 (mkPeer 11 1) false s) as [s'| |] eqn:Ed; [|done|done].
  destruct (s_replicatesMap s !! 1) as [r|] eqn:Er; [|done]. injection Hobs as Hep. change (ps_cell (pr_ps (r_pr r))) with (r_cell r) in Hep.
  destruct (tombstone_refuses_messages (Engine0 := memory_engine (T := mem)) 0 sample_raft no_snap s s' 1 (mkPeer 11 1) r old_vote) as (s'' & H1 & H2 & _);
    [by apply (reach_start _ _ _ 1 stored_world s stored_ok)|apply (startCells_wf (Engine0 := memory_engine (T := mem)) 0 sample_raft 1 stored_world s stored_wf Es)
    |exact Er|exact Ed|reflexivity|reflexivity|right; by rewrite Hep|].
  exists s, s', s''. split; [reflexivity|]. split; [exact Ed|]. split; [exact H1|exact H2].
Defined.

(** Cell 3 was destroyed before the store started. *)
Lemma restart_forgets_tombstones_witness :
  ∃ s, sample_start = Ok s ∧ loadCellLocalState (Engine0 := memory_engine (T := mem)) 0 s 3 = Ok None.
Proof.
  assert (observe (λ s, s_id s) sample_start = Some 1) as Hobs by (vm_compute; reflexivity).
  destruct sample_start as [s| |] eqn:Es; [|done|done].
  destruct (restart_forgets_tombstones (Engine0 := memory_engine (T := mem)) 0 sample_raft 1 stored_world s 3 (mkLocalState PeerTombstone cell_c)) as (_ & H & _);
    [exact stored_ok|by split|reflexivity|left| |reflexivity|exact Es|].
  - etrans; [symmetry; apply (eng_get_map (Engine := memory_engine (T := mem))), stored_wf|]. vm_compute. reflexivity.
  - exists s. split; [reflexivity|exact H].
Defined.

(** The key "a" of cell 1 keeps its value, "zz" belongs to no cell. *)
Lemma start_keeps_cell_data_witness :
  ∃ s, sample_start = Ok s ∧ w_data (s_world s) 0 !! getDataKey [x61] = Some [x31] ∧ w_data (s_world s) 0 !! getDataKey [x7a; x7a] = None.
Proof.
  assert (observe (λ s, (cell <$> s_keyRanges s)) sample_start = Some [cell_b; cell_a]) as Hobs by (vm_compute; reflexivity).
  destruct sample_start as [s| |] eqn:Es; [|done|done]. injection Hobs as Hobs.
  assert (∀ c, holds (s_keyRanges s) c ↔ c = cell_a ∨ c = cell_b) as Hh.
  { intros c. change (holds (s_keyRanges s) c) with (mkCellItem c ∈ s_keyRanges s). destruct (s_keyRanges s) as [|[x] [|[y] [|]]]; try done.
    simpl in Hobs. injection Hobs as -> ->. rewrite !elem_of_cons, elem_of_nil. naive_solver. }
  destruct (start_keeps_cell_data (Engine0 := memory_engine (T := mem)) 0 sample_raft 1 stored_world s stored_ok Es) as [H1 H2].
  exists s. split; [reflexivity|]. split.
  - etrans; [apply (H1 cell_a [x61] 0)|reflexivity]; [apply Hh; by left|split; [done|right; done]].
  - apply H2; [reflexivity|]. intros c [-> | ->]%Hh [_ [?|Hlt]]; try done; by vm_compute in Hlt.
Defined.
