(* ===== verification/Bootstrap.v ===== *)
(** * Starting a cluster (pkg/node)

    A node that starts asks PD whether the cluster exists; the first node to find that it does not creates the
    first cells on its own engines and reports them to PD.  What a node does is a program of reads and
    writes of its engines and of calls to PD; nodes are interleaved at these, calls may be
    lost, nodes may stop at any moment, PD may change its leader.  An engine that fails ends the process, which is
    such a stop.  Initial parameters, JSON in the source, are kept decoded. *)

From S2P Require Import Prelude BTree Encoding Meta CellTree Routing IdAlloc IdSource StoreCache CellCache Operators Float64 Scheduling MetaStore Cluster ClusterProps Keys KVTree RaftTypes RaftLog.

Record InitParams := mkInitParams { InitCellCount : Z; CellCapacity : Z }.
Definition MaxUint64 : Z := two64 - 1.

(** ** Programs of a node *)
Section node.
Context {E : Type} `{!Engine value E}.
Abbreviation drivers := (Z → E).

(** [Fatal] ends the process.  A call that fails is answered with [None]. *)
Inductive prog (X : Type) : Type :=
  | Ret (x : X)
  | Fatal
  | ReadDrivers (k : drivers → prog X)
  | WriteDriver (i : Z) (f : E → E) (k : prog X)
  | IsClusterBootstrapped (k : option bool → prog X)
  | AllocID (k : option Z → prog X)
  | GetInitParams (k : option (option InitParams) → prog X)
  | BootstrapCluster (store : Store) (cells : list Cell) (k : option bool → prog X)
  | PutStore (store : Store) (k : option unit → prog X).
#[global] Arguments Ret {X} x.
#[global] Arguments Fatal {X}.
#[global] Arguments ReadDrivers {X} k.
#[global] Arguments WriteDriver {X} i f k.
#[global] Arguments IsClusterBootstrapped {X} k.
#[global] Arguments AllocID {X} k.
#[global] Arguments GetInitParams {X} k.
#[global] Arguments BootstrapCluster {X} store cells k.
#[global] Arguments PutStore {X} store k.

Fixpoint pbind {X Y} (p : prog X) (f : X → prog Y) : prog Y :=
  match p with
  | Ret x => f x
  | Fatal => Fatal
  | ReadDrivers k => ReadDrivers (λ e, pbind (k e) f)
  | WriteDriver i g k => WriteDriver i g (pbind k f)
  | IsClusterBootstrapped k => IsClusterBootstrapped (λ r, pbind (k r) f)
  | AllocID k => AllocID (λ r, pbind (k r) f)
  | GetInitParams k => GetInitParams (λ r, pbind (k r) f)
  | BootstrapCluster store cells k => BootstrapCluster store cells (λ r, pbind (k r) f)
  | PutStore store k => PutStore store (λ r, pbind (k r) f)
  end.
(** An error the caller answers with [log.Fatal]. *)
Definition or_fatal {X} (r : option X) : prog X := match r with Some x => Ret x | None => Fatal end.
End node.

Declare Scope node_scope.
Notation "'do*' x ':=' m 'in' k" := (pbind m (λ x, k)) (at level 10, x pattern, m at level 100, k at level 200) : node_scope.
#[local] Open Scope node_scope.

Section start.
Context {E : Type} `{!Engine value E}.
Abbreviation drivers := (Z → E).
Abbreviation program := (@prog E).

(** The configuration of a node; [nd_clusterID] is what [initPDClient] was told. *)
Record Node := mkNode { nd_addr : string; nd_clientAddr : string; nd_labels : list Label; nd_clusterID : Z; nd_driversMask : Z }.
Definition newStore (n : Node) : Store := mkStore 0 (nd_addr n) (nd_labels n) UP (nd_clientAddr n).
Definition with_id (id : Z) (s : Store) : Store := mkStore id (Address s) (Lables s) (State s) (ClientAddress s).

Fixpoint check_bootstrapped (tries : nat) : program bool :=
  match tries with
  | O => Fatal
  | S tries' => IsClusterBootstrapped (λ r, match r with Some b => Ret b | None => check_bootstrapped tries' end)
  end.
Definition checkClusterBootstrapped : program bool := check_bootstrapped 60.

Definition checkStore (n : Node) : program Z :=
  ReadDrivers (λ e,
    match Engine_Get GetStoreIdentKey (e 0) with
    | None => Ret ZeroID
    | Some (VStoreIdent st) =>
        if negb (bool_decide (Ident_ClusterID st = nd_clusterID n)) then Fatal
        else if bool_decide (Ident_StoreID st = ZeroID) then Fatal
        else Ret (Ident_StoreID st)
    | Some _ => Fatal
    end).

Definition getAllocID : program Z := AllocID or_fatal.
Definition getInitParam : program InitParams := GetInitParams (λ r, do* p := or_fatal r in Ret (default (mkInitParams 1 0) p)).

Definition bootstrapStore (n : Node) : program Z :=
  do* storeID := getAllocID in
  ReadDrivers (λ e,
    if bool_decide (Engine_Scan GetMinKey GetMaxKey (e 0) = [])
    then WriteDriver 0 (Engine_Set GetStoreIdentKey (VStoreIdent (mkStoreIdent (nd_clusterID n) storeID))) (Ret storeID)
    else Fatal).

(** pkg/pb/util.go *)
Definition newCellEpoch : CellEpoch := mkCellEpoch 1 1.
Definition NewCell (cellID peerID storeID : Z) : Cell := mkCell cellID [] [] newCellEpoch [mkPeer peerID storeID].

Definition createCell (n : Node) (storeID : Z) (start end_ : bytes) : program Cell :=
  do* cellID := getAllocID in
  do* peerID := getAllocID in
  let c := NewCell cellID peerID storeID in
  let c := mkCell (Cell_ID c) start end_ (Epoch c) (Peers c) in
  WriteDriver (Z.land (nd_driversMask n) cellID) (SaveCell c) (Ret c).

(** The loop, with [left] cells to go. *)
Fixpoint create_cells (n : Node) (storeID step : Z) (left : nat) (start end_ : Z) (cells : list Cell) : program (list Cell) :=
  match left with
  | O => Ret cells
  | S left' =>
      let end_ := if bool_decide (left' = O) then MaxUint64 else end_ in
      do* c := createCell n storeID (Uint64ToBytes start) (Uint64ToBytes end_) in
      create_cells n storeID step left' end_ (u64 (end_ + step)) (cells ++ [c])
  end.
Definition bootstrapCells (n : Node) (storeID : Z) : program (list Cell) :=
  do* params := getInitParam in
  let count := InitCellCount params in
  if bool_decide (count < 1) then Fatal
  else if bool_decide (count = 1) then do* c := createCell n storeID [] [] in Ret [c]
  else
    let step := MaxUint64 `div` count in
    create_cells n storeID step (Z.to_nat count) 0 step [].

(** The answer is only logged. *)
Definition bootstrapCluster (store : Store) (cells : list Cell) : program unit :=
  BootstrapCluster store cells (λ r, do* _ := or_fatal r in Ret tt).

(** The store that starts: its metadata and whether it hashes keys. *)
Record started := mkStarted { st_meta : Store; st_hashed : bool }.
Definition startStore (store : Store) : program started :=
  do* params := getInitParam in Ret (mkStarted store (bool_decide (1 < InitCellCount params))).
Definition putStore (store : Store) : program unit := PutStore store or_fatal.

Definition Start (n : Node) : program started :=
  do* bootstrapped := checkClusterBootstrapped in
  do* storeID := checkStore n in
  do* storeID := (if bool_decide (storeID = ZeroID) then bootstrapStore n
                  else if negb bootstrapped then Fatal else Ret storeID) in
  let store := with_id storeID (newStore n) in
  do* _ := (if negb bootstrapped
            then do* cells := bootstrapCells n storeID in bootstrapCluster store cells
            else Ret tt) in
  do* s := startStore store in
  do* _ := putStore store in
  Ret s.
End start.

(** ** A run whose calls are all answered *)
Section run.
Context {E : Type} `{!Engine value E}.
Abbreviation drivers := (Z → E).
Abbreviation program := (@prog E).
Definition upd_driver (i : Z) (f : E → E) (e : drivers) : drivers := λ j, if decide (j = i) then f (e j) else e j.

(** PD answers that the cluster exists or not, with its parameters and new ids; [None] when the process ends. *)
Fixpoint run_alone {X} (boot : bool) (params : option InitParams) (ids : list Z) (p : program X) (e : drivers) : option (X * list Z * drivers) :=
  match p with
  | Ret x => Some (x, ids, e)
  | Fatal => None
  | ReadDrivers k => run_alone boot params ids (k e) e
  | WriteDriver i f k => run_alone boot params ids k (upd_driver i f e)
  | IsClusterBootstrapped k => run_alone boot params ids (k (Some boot)) e
  | AllocID k => match ids with [] => None | id :: ids' => run_alone boot params ids' (k (Some id)) e end
  | GetInitParams k => run_alone boot params ids (k (Some params)) e
  | BootstrapCluster _ _ k => run_alone boot params ids (k (Some boot)) e
  | PutStore _ k => run_alone boot params ids (k (Some tt)) e
  end.
Lemma run_alone_bind {X Y} boot params (p : program X) (f : X → prog Y) ids e :
  run_alone boot params ids (pbind p f) e = match run_alone boot params ids p e with Some (x, ids', e') => run_alone boot params ids' (f x) e' | None => None end.
Proof. revert ids e. induction p; intros ids e; cbn [pbind run_alone]; try done. by destruct ids. Qed.
End run.

(** ** Ranges of the first cells *)
(** Cells side by side from [s] to [t]. *)
Fixpoint chain (s : Z) (cs : list Cell) (t : Z) : Prop :=
  match cs with
  | [] => s = t
  | c :: cs' => Meta.Start c = Uint64ToBytes s ∧ ∃ m, End c = Uint64ToBytes m ∧ s < m ∧ is_u64 m ∧ chain m cs' t
  end.
Lemma chain_le s cs t : chain s cs t → s ≤ t.
Proof. revert s. induction cs as [|c cs IH]; intros s; [cbn; lia|]. intros (_ & m & _ & Hlt & _ & Hc). apply IH in Hc. lia. Qed.
Lemma chain_app s cs m cs' t : chain s cs m → chain m cs' t → chain s (cs ++ cs') t.
Proof.
  revert s. induction cs as [|c cs IH]; intros s; [by intros ->|]. intros (Hs & m' & He & Hlt & Hu & Hc) Hc'. split; [done|]. exists m'. eauto.
Qed.
Lemma Uint64ToBytes_nonempty v : Uint64ToBytes v ≠ [].
Proof. intros H%(f_equal length). by rewrite length_PutUint64 in H. Qed.
#[export] Instance in_cell_dec key c : Decision (in_cell key c).
Proof. unfold in_cell. apply _. Defined.
(** The cells of a list that hold a key. *)
Definition owners (key : bytes) (cs : list Cell) : list Cell := filter (in_cell key) cs.
Lemma in_chain_cell v s m c : is_u64 v → is_u64 s → is_u64 m → Meta.Start c = Uint64ToBytes s → End c = Uint64ToBytes m → in_cell (Uint64ToBytes v) c ↔ s ≤ v < m.
Proof.
  intros Hv Hs Hm E1 E2. unfold in_cell. rewrite E1, E2. pose proof (PutUint64_lt v m Hv Hm) as Hlt. pose proof (PutUint64_lt v s Hv Hs) as Hlt'. pose proof (Uint64ToBytes_nonempty m) as Hne.
  unfold Uint64ToBytes in *. split.
  - intros [Hge [Hn|Hb]]; [done|]. apply Hlt in Hb. split; [|done]. destruct (decide (v < s)) as [Hc|]; [|lia]. apply Hlt' in Hc. border.
  - intros [Hge Hb]. split; [|right; by apply Hlt]. destruct (decide (blt (PutUint64 v) (PutUint64 s))) as [Hc|]; [apply Hlt' in Hc; lia|border].
Qed.
Lemma chain_owners s cs t v : is_u64 s → is_u64 v → chain s cs t → (s ≤ v < t → ∃ c, owners (Uint64ToBytes v) cs = [c]) ∧ (v < s ∨ t ≤ v → owners (Uint64ToBytes v) cs = []).
Proof.
  intros Hs Hv. revert s Hs. induction cs as [|c cs IH]; intros s Hs; [intros ->; split; [lia|done]|]. intros (Est & m & Ee & Hlt & Hm & Hc).
  destruct (IH m Hm Hc) as [IH1 IH2]. pose proof (in_chain_cell v s m c Hv Hs Hm Est Ee) as Hin. pose proof (chain_le _ _ _ Hc). unfold owners in *. rewrite filter_cons. split.
  - intros Hr. destruct (decide (in_cell (Uint64ToBytes v) c)) as [Hi|Hi]; [apply Hin in Hi; rewrite IH2 by lia; by exists c|]. rewrite Hin in Hi. apply IH1. lia.
  - intros Hr. rewrite decide_False by (rewrite Hin; lia). apply IH2. lia.
Qed.

(** ** What the engines of a node hold *)
Section logic.
Context {E : Type} `{!Engine value E}.
Abbreviation drivers := (Z → E).
Abbreviation program := (@prog E).
Definition drivers_wf (e : drivers) : Prop := ∀ i, eng_wf (e i).
Definition holds (e : drivers) (i : Z) (key : bytes) (v : value) : Prop := eng_map (e i) !! key = Some v.
(** The state of a new cell, in the engine of its id. *)
Definition saved_cell (mask : Z) (c : Cell) (e : drivers) : Prop :=
  let i := Z.land mask (Cell_ID c) in
  holds e i (getCellStateKey (Cell_ID c)) (VCellState (mkLocalState Normal c)) ∧
  holds e i (getRaftStateKey (Cell_ID c)) (VRaftState initialRaftState) ∧
  holds e i (getApplyStateKey (Cell_ID c)) (VApplyState initialApplyState).
(** A write leaves every cell whose id is not in [ids]. *)
Definition leaves_others (ids : gset Z) (e e' : drivers) : Prop := ∀ mask c, is_u64 (Cell_ID c) → Cell_ID c ∉ ids → saved_cell mask c e → saved_cell mask c e'.

(** Cells a node has made for the store [storeID]. *)
Record made (mask : Z) (ids : gset Z) (storeID : Z) (cs : list Cell) (e : drivers) : Prop := {
  ma_ids : NoDup (Cell_ID <$> cs);
  ma_own c : c ∈ cs → Cell_ID c ∈ ids ∧ is_u64 (Cell_ID c) ∧ Cell_ID c ≠ 0;
  ma_peer c : c ∈ cs → ∃ peer, Peers c = [mkPeer peer storeID] ∧ peer ≠ 0 ∧ Epoch c = newCellEpoch;
  ma_saved c : c ∈ cs → saved_cell mask c e;
}.
(** One cell for all keys, or cells side by side for the hashes below the largest. *)
Definition founding_ranges (cs : list Cell) : Prop := (∃ c, cs = [c] ∧ Meta.Start c = [] ∧ End c = []) ∨ chain 0 cs MaxUint64.
Definition founding (mask : Z) (ids : gset Z) (st : Store) (cs : list Cell) (e : drivers) : Prop := made mask ids (Store_ID st) cs e ∧ founding_ranges cs.

(** Whatever PD answers, with ids that are new, [p] only writes to cells it owns, reports cells as [founding] says
    and ends with [Q]; the cells it has reported are no longer its own. *)
Fixpoint wp {X} (mask : Z) (p : program X) (Q : X → drivers → gset Z → Prop) (e : drivers) (ids : gset Z) : Prop :=
  match p with
  | Ret x => Q x e ids
  | Fatal => True
  | ReadDrivers k => wp mask (k e) Q e ids
  | WriteDriver i f k => (∀ x, eng_wf x → eng_wf (f x)) ∧ leaves_others ids e (upd_driver i f e) ∧ wp mask k Q (upd_driver i f e) ids
  | IsClusterBootstrapped k => ∀ r, wp mask (k r) Q e ids
  | AllocID k => wp mask (k None) Q e ids ∧ ∀ id, id ∉ ids → id ≠ 0 → is_u64 id → wp mask (k (Some id)) Q e ({[id]} ∪ ids)
  | GetInitParams k => ∀ r, (∀ p, r = Some (Some p) → is_u64 (InitCellCount p)) → wp mask (k r) Q e ids
  | BootstrapCluster st cs k => founding mask ids st cs e ∧ ∀ r, wp mask (k r) Q e ∅
  | PutStore _ k => ∀ r, wp mask (k r) Q e ids
  end.
Lemma wp_bind {X Y} mask (p : program X) (f : X → program Y) Q e ids : wp mask (pbind p f) Q e ids ↔ wp mask p (λ x, wp mask (f x) Q) e ids.
Proof. revert e ids. induction p; intros e ids; cbn [pbind wp]; try done; naive_solver. Qed.
Lemma wp_mono {X} mask (p : program X) (Q Q' : X → drivers → gset Z → Prop) e ids : (∀ x e ids, Q x e ids → Q' x e ids) → wp mask p Q e ids → wp mask p Q' e ids.
Proof. intros HQ. revert e ids. induction p; intros e ids; cbn [wp]; try done; naive_solver. Qed.
Lemma wp_or_fatal {X} mask (r : option X) Q e ids : (∀ x, r = Some x → Q x e ids) → wp mask (or_fatal r) Q e ids.
Proof. destruct r; cbn [or_fatal wp]; auto. Qed.

(** *** Writing *)
(** The ids of cells whose state a key is part of. *)
Definition key_cell (k : store_key) : option Z := match k with KCellState c | KRaftState c | KApplyState c => Some c | _ => None end.
Lemma saved_cell_keys mask c e : saved_cell mask c e ↔ ∀ k v, (k, v) ∈ [(KCellState (Cell_ID c), VCellState (mkLocalState Normal c)); (KRaftState (Cell_ID c), VRaftState initialRaftState); (KApplyState (Cell_ID c), VApplyState initialApplyState)] →
  holds e (Z.land mask (Cell_ID c)) (encode_key k) v.
Proof.
  unfold saved_cell. split.
  - intros (H1 & H2 & H3) k v. rewrite !elem_of_cons, elem_of_nil. intros [[= -> ->]|[[= -> ->]|[[= -> ->]|[]]]]; done.
  - intros H. split_and!; [apply (H (KCellState _))|apply (H (KRaftState _))|apply (H (KApplyState _))]; rewrite !elem_of_cons; auto.
Qed.
(** An engine operation that only touches [keys] leaves cells without any of them. *)
Lemma leaves_untouched e i f (keys : list store_key) mask c : drivers_wf e → is_u64 (Cell_ID c) →
  (∀ x k, eng_wf x → key_ok k → k ∉ keys → eng_map (f x) !! encode_key k = eng_map x !! encode_key k) → (∀ k, k ∈ keys → key_cell k ≠ Some (Cell_ID c)) →
  saved_cell mask c e → saved_cell mask c (upd_driver i f e).
Proof.
  intros Hwf Hu Hf Hk. rewrite !saved_cell_keys. intros Hs k v Hkv. specialize (Hs k v Hkv). unfold holds, upd_driver in *. case_decide; [|done].
  rewrite !elem_of_cons, elem_of_nil in Hkv. rewrite Hf; [done|done| |].
  - destruct Hkv as [[= -> ->]|[[= -> ->]|[[= -> ->]|[]]]]; done.
  - intros Hin%Hk. destruct Hkv as [[= -> ->]|[[= -> ->]|[[= -> ->]|[]]]]; by apply Hin.
Qed.
Lemma upd_driver_wf e i (f : E → E) : drivers_wf e → (∀ x, eng_wf x → eng_wf (f x)) → drivers_wf (upd_driver i f e).
Proof. intros Hwf Hf j. unfold upd_driver. case_decide; auto. Qed.
Definition cell_keys (c : Cell) : list store_key := [KCellState (Cell_ID c); KRaftState (Cell_ID c); KApplyState (Cell_ID c)].
Lemma SaveCell_map c x : eng_wf x → eng_map (SaveCell c x) =
  <[encode_key (KApplyState (Cell_ID c)) := VApplyState initialApplyState]> (<[encode_key (KRaftState (Cell_ID c)) := VRaftState initialRaftState]>
    (<[encode_key (KCellState (Cell_ID c)) := VCellState (mkLocalState Normal c)]> (eng_map x))).
Proof. intros Hx. unfold SaveCell. by rewrite Write_map. Qed.
Lemma SaveCell_wf c x : eng_wf x → eng_wf (SaveCell c x).
Proof. apply Write_wf. Qed.
Lemma SaveCell_other c x k : eng_wf x → is_u64 (Cell_ID c) → key_ok k → k ∉ cell_keys c → eng_map (SaveCell c x) !! encode_key k = eng_map x !! encode_key k.
Proof.
  intros Hx Hu Hk Hne. unfold cell_keys in Hne. rewrite !not_elem_of_cons in Hne. destruct Hne as (N1 & N2 & N3 & _). rewrite SaveCell_map by done.
  rewrite !lookup_insert_ne; [done|..]; intros Heq; apply encode_key_injective in Heq; try done; congruence.
Qed.
Lemma SaveCell_saved mask c e : drivers_wf e → is_u64 (Cell_ID c) → saved_cell mask c (upd_driver (Z.land mask (Cell_ID c)) (SaveCell c) e).
Proof.
  intros Hwf Hu. unfold saved_cell, holds, upd_driver. rewrite decide_True by done. rewrite SaveCell_map by apply Hwf.
  assert (∀ a b : store_key, key_ok a → key_ok b → a ≠ b → encode_key a ≠ encode_key b) as Hne by (intros a b ? ? Hab Heq; by apply Hab, encode_key_injective).
  change (getCellStateKey (Cell_ID c)) with (encode_key (KCellState (Cell_ID c))). change (getRaftStateKey (Cell_ID c)) with (encode_key (KRaftState (Cell_ID c))). change (getApplyStateKey (Cell_ID c)) with (encode_key (KApplyState (Cell_ID c))).
  split_and!; [rewrite !lookup_insert_ne by (apply Hne; done); by rewrite lookup_insert_eq|rewrite lookup_insert_ne by (apply Hne; done); by rewrite lookup_insert_eq|by rewrite lookup_insert_eq].
Qed.
Lemma SaveCell_leaves mask i c c' e : drivers_wf e → is_u64 (Cell_ID c) → is_u64 (Cell_ID c') → Cell_ID c' ≠ Cell_ID c → saved_cell mask c' e → saved_cell mask c' (upd_driver i (SaveCell c) e).
Proof.
  intros Hwf Hu Hu' Hne. apply (leaves_untouched _ _ _ (cell_keys c)); [done|done|intros x k Hx Hk Hn; by apply SaveCell_other|].
  intros k Hk. unfold cell_keys in Hk. rewrite !elem_of_cons, elem_of_nil in Hk. destruct Hk as [->|[->|[->|[]]]]; cbn [key_cell]; congruence.
Qed.
Definition set_ident (n : Node) (storeID : Z) : E → E := Engine_Set GetStoreIdentKey (VStoreIdent (mkStoreIdent (nd_clusterID n) storeID)).
Lemma ident_leaves n storeID ids e : drivers_wf e → leaves_others ids e (upd_driver 0 (set_ident n storeID) e).
Proof.
  intros Hwf mask c Hu _. apply (leaves_untouched _ _ _ [KStoreIdent]); [done|done| |].
  - intros x k Hx Hk Hn%not_elem_of_cons. unfold set_ident. rewrite eng_set_map by done. rewrite lookup_insert_ne; [done|]. intros Heq. apply (encode_key_injective KStoreIdent k) in Heq; [by destruct Hn|done|done].
  - intros k ->%list_elem_of_singleton. done.
Qed.
End logic.

(** ** What starting a node does to its engines *)
Section specs.
Context {E : Type} `{!Engine value E} (n : Node).
Abbreviation drivers := (Z → E).
Abbreviation program := (@prog E).
Abbreviation mask := (nd_driversMask n).
Implicit Types (e : drivers) (ids : gset Z).

Lemma made_mono ids ids' storeID cs e e' : ids ⊆ ids' → (∀ c, c ∈ cs → saved_cell mask c e → saved_cell mask c e') → made mask ids storeID cs e → made mask ids' storeID cs e'.
Proof. intros Hsub Hsv [H1 H2 H3 H4]. split; [done|intros c Hc; destruct (H2 c Hc); set_solver|done|eauto]. Qed.
Lemma made_snoc ids storeID cs c e : made mask ids storeID cs e → Cell_ID c ∉ Cell_ID <$> cs → Cell_ID c ∈ ids → is_u64 (Cell_ID c) → Cell_ID c ≠ 0 →
  (∃ peer, Peers c = [mkPeer peer storeID] ∧ peer ≠ 0 ∧ Epoch c = newCellEpoch) → saved_cell mask c e → made mask ids storeID (cs ++ [c]) e.
Proof.
  intros [H1 H2 H3 H4] Hn Hin Hu H0 Hp Hs. split; [|intros c'; rewrite elem_of_app, list_elem_of_singleton; intros [Hc| ->]; eauto..].
  rewrite fmap_app. apply NoDup_app. split_and!; [done| |apply NoDup_singleton]. intros x Hx. cbn. rewrite list_elem_of_singleton. by intros ->.
Qed.
Lemma getAllocID_wp ids e (Q : Z → drivers → gset Z → Prop) : (∀ id, id ∉ ids → id ≠ 0 → is_u64 id → Q id e ({[id]} ∪ ids)) → wp mask getAllocID Q e ids.
Proof. intros HQ. split; [done|]. intros id. apply HQ. Qed.
Lemma getInitParam_wp ids e (Q : InitParams → drivers → gset Z → Prop) : (∀ p, is_u64 (InitCellCount p) → Q p e ids) → wp mask getInitParam Q e ids.
Proof. intros HQ [[p|]|] Hr; [|by apply HQ|done]. apply HQ. by apply Hr. Qed.
(** A new cell next to those that were made before. *)
Lemma createCell_wp ids e storeID start end_ cs (Q : Cell → drivers → gset Z → Prop) : drivers_wf e → made mask ids storeID cs e →
  (∀ c e' ids', drivers_wf e' → Meta.Start c = start → End c = end_ → made mask ids' storeID (cs ++ [c]) e' → Q c e' ids') → wp mask (createCell n storeID start end_) Q e ids.
Proof.
  intros Hwf Hm HQ. unfold createCell. apply wp_bind, getAllocID_wp. intros cid Hcn Hc0 Hcu. apply wp_bind, getAllocID_wp. intros pid Hpn Hp0 Hpu.
  set (c := mkCell cid start end_ newCellEpoch [mkPeer pid storeID]). change (wp mask (WriteDriver (Z.land mask (Cell_ID c)) (SaveCell c) (Ret c)) Q e ({[pid]} ∪ ({[cid]} ∪ ids))).
  cbn [wp]. split_and!; [apply SaveCell_wf| |].
  - intros mask' c' Hu' Hn' Hs'. apply SaveCell_leaves; try done. cbn. set_solver.
  - apply HQ; [apply upd_driver_wf; [done|apply SaveCell_wf]|done|done|]. apply made_snoc; [|..|cbn; set_solver|done|done|by exists pid|by apply SaveCell_saved].
    + apply (made_mono ids _ storeID cs e); [set_solver| |done]. intros c' Hc' Hs'. destruct (ma_own _ _ _ _ _ Hm c' Hc') as (Hin & Hu' & _). apply SaveCell_leaves; try done. cbn. set_solver.
    + cbn. intros [c' [-> Hc']]%list_elem_of_fmap. by destruct (ma_own _ _ _ _ _ Hm c' Hc').
Qed.
Lemma create_cells_wp storeID step left start cs ids e (Q : list Cell → drivers → gset Z → Prop) : drivers_wf e → made mask ids storeID cs e → chain 0 cs start → (0 < left)%nat → 1 ≤ step →
  0 ≤ start → start + step * Z.of_nat left ≤ MaxUint64 → (∀ cs' e' ids', drivers_wf e' → made mask ids' storeID cs' e' → chain 0 cs' MaxUint64 → Q cs' e' ids') →
  wp mask (create_cells n storeID step left start (start + step) cs) Q e ids.
Proof.
  intros Hwf Hm Hc Hl Hstep H0 Hb HQ. assert (MaxUint64 = 18446744073709551615) as HM by done. assert (two64 = 18446744073709551616) as H64 by done.
  revert start cs ids e Hwf Hm Hc H0 Hb. induction left as [|left IH]; intros start cs ids e Hwf Hm Hc H0 Hb; [lia|]. cbn [create_cells]. apply wp_bind.
  set (end_ := if bool_decide (left = 0%nat) then MaxUint64 else start + step).
  assert (start < end_ ∧ is_u64 end_) as [Hlt Hu] by (unfold end_, is_u64; case_bool_decide; nia).
  eapply createCell_wp; [done|done|]. intros c e' ids' Hwf' Hs He Hm'.
  assert (chain 0 (cs ++ [c]) end_) as Hc' by (apply (chain_app _ _ start); [done|]; split; [done|]; by exists end_).
  destruct left as [|left]; [cbn [create_cells wp]; by apply HQ|]. unfold end_ in *. rewrite bool_decide_eq_false_2 in * by lia. rewrite u64_small by (unfold is_u64; nia).
  apply IH; [lia|done..|lia|nia].
Qed.
Lemma bootstrapCells_wp storeID ids e (Q : list Cell → drivers → gset Z → Prop) : drivers_wf e → (∀ cs e' ids', drivers_wf e' → made mask ids' storeID cs e' → founding_ranges cs → Q cs e' ids') →
  wp mask (bootstrapCells n storeID) Q e ids.
Proof.
  intros Hwf HQ. assert (made mask ids storeID [] e) as Hm by (split; [constructor|set_solver..]). unfold bootstrapCells. apply wp_bind, getInitParam_wp. intros p Hp.
  case_bool_decide as H1; [done|]. case_bool_decide as H2.
  - apply wp_bind. eapply createCell_wp; [done|done|]. intros c e' ids' Hwf' Hs He Hm'. cbn [wp]. apply HQ; [done|done|]. left. by exists c.
  - set (step := MaxUint64 `div` InitCellCount p). assert (MaxUint64 = 18446744073709551615) as HM by done. assert (two64 = 18446744073709551616) as H64 by done. unfold is_u64 in Hp.
    assert (1 ≤ step) by (apply Z.div_le_lower_bound; lia). assert (step * InitCellCount p ≤ MaxUint64) by (rewrite Z.mul_comm; apply Z.mul_div_le; lia).
    apply (create_cells_wp storeID step (Z.to_nat (InitCellCount p)) 0); [done|done|done|lia|done|done|rewrite Z2Nat.id by lia; done|]. intros. apply HQ; [done|done|by right].
Qed.
Lemma check_bootstrapped_wp tries ids e (Q : bool → drivers → gset Z → Prop) : (∀ b, Q b e ids) → wp mask (check_bootstrapped tries) Q e ids.
Proof. intros HQ. induction tries as [|tries IH]; [done|]. intros [b|]; [apply HQ|apply IH]. Qed.
Lemma bootstrapStore_wp ids e (Q : Z → drivers → gset Z → Prop) : drivers_wf e → (∀ id e' ids', drivers_wf e' → Q id e' ids') → wp mask (bootstrapStore n) Q e ids.
Proof.
  intros Hwf HQ. unfold bootstrapStore. apply wp_bind, getAllocID_wp. intros id _ _ _. cbn [wp]. case_bool_decide; [|done]. cbn [wp]. split_and!.
  - intros x Hx. by apply eng_set_wf.
  - by apply (ident_leaves n id).
  - apply HQ, upd_driver_wf; [done|]. intros x Hx. by apply eng_set_wf.
Qed.
(** Starting a node only writes its own cells, and reports what it has written. *)
Lemma Start_wp ids e : drivers_wf e → wp mask (Start n) (λ _ _ _, True) e ids.
Proof.
  intros Hwf. unfold Start. apply wp_bind, check_bootstrapped_wp. intros boot. apply wp_bind. unfold checkStore. cbn [wp].
  assert (∀ id, wp mask (do* storeID := if bool_decide (id = ZeroID) then bootstrapStore n else if negb boot then Fatal else Ret id in
    do* _ := if negb boot then do* cells := bootstrapCells n storeID in bootstrapCluster (with_id storeID (newStore n)) cells else Ret tt in
    do* s := startStore (with_id storeID (newStore n)) in do* _ := putStore (with_id storeID (newStore n)) in Ret s) (λ _ _ _, True) e ids) as Hgo.
  { intros id. apply wp_bind.
    assert (∀ storeID e ids, drivers_wf e → wp mask (do* _ := if negb boot then do* cells := bootstrapCells n storeID in bootstrapCluster (with_id storeID (newStore n)) cells else Ret tt in
      do* s := startStore (with_id storeID (newStore n)) in do* _ := putStore (with_id storeID (newStore n)) in Ret s) (λ _ _ _, True) e ids) as Hrest.
    { clear. intros storeID e ids Hwf. assert (∀ e ids, wp mask (do* s := startStore (with_id storeID (newStore n)) in do* _ := putStore (with_id storeID (newStore n)) in Ret s) (λ _ _ _, True) e ids) as Hend.
      { intros e' ids'. apply wp_bind, wp_bind, getInitParam_wp. intros p _. cbn [wp]. apply wp_bind. intros [[]|]; done. }
      apply wp_bind. destruct boot; cbn [negb]; [apply Hend|]. apply wp_bind, bootstrapCells_wp; [done|]. intros cs e' ids' Hwf' Hm Hr. split; [by split|].
      intros r. apply wp_bind, wp_or_fatal. intros x _. apply Hend. }
    case_bool_decide; [apply bootstrapStore_wp; auto|]. destruct boot; [cbn [negb wp]; by apply Hrest|done]. }
  destruct (Engine_Get GetStoreIdentKey (e 0)) as [[| | | | |st]|]; try done; [|apply Hgo]. destruct (negb (bool_decide (Ident_ClusterID st = nd_clusterID n))); [done|]. case_bool_decide; [done|]. apply Hgo.
Qed.
End specs.

(** ** Nodes and PD *)
Inductive init_error := errAlreadyBootstrapped | ErrSaveParams.
Section system.
Context {E A T : Type} `{!Engine value E} `{!IdSource A} `{OT : !OrderedTree CellItem Less T} `{!MapOrder} (cfg : Cfg) (clusterID : Z).
Abbreviation drivers := (Z → E).
Abbreviation program := (@prog E).
Abbreviation state := (CellCluster A T).

(** The leader of PD and the initial parameters in etcd. *)
Record pd := mkPd { pd_cluster : state; pd_params : option InitParams }.
(** [GetInitParamsValue] *)
Definition pd_GetInitParams (n : net) (s : pd) : option (option InitParams) := match n with NetOk => Some (pd_params s) | _ => None end.
Definition InitCluster (n : net) (params : InitParams) (s : pd) : outcome init_error unit * pd :=
  if isClusterBootstrapped (pd_cluster s) then (Err errAlreadyBootstrapped, s)
  else match n with
       | NetOk => (Ok tt, mkPd (pd_cluster s) (Some params))
       | NetLost => (Err ErrSaveParams, s)
       | NetReplyLost => (Err ErrSaveParams, mkPd (pd_cluster s) (Some params))
       end.

(** A call to PD: it is lost, or executed with an answer that may be lost. *)
Definition call {R} (h : M state R) (s : pd) (r : option R) (s' : pd) : Prop :=
  (s' = s ∧ r = None) ∨ ∃ o c', h (pd_cluster s) = (o, c') ∧ s' = mkPd c' (pd_params s) ∧ (r = None ∨ ∃ x, o = Ok x ∧ r = Some x).
Definition is_bootstrapped_h : M state bool := λ s, (Ok (isClusterBootstrapped s), s).
(** One step of a node. *)
Inductive exec : program started → drivers → pd → program started → drivers → pd → Prop :=
  | exec_read k e s : exec (ReadDrivers k) e s (k e) e s
  | exec_write i f k e s : exec (WriteDriver i f k) e s k (upd_driver i f e) s
  | exec_is k e s r s' : call is_bootstrapped_h s r s' → exec (IsClusterBootstrapped k) e s (k r) e s'
  | exec_alloc k e s r s' : call newID_h s r s' → exec (AllocID k) e s (k r) e s'
  | exec_params k e s n : exec (GetInitParams k) e s (k (pd_GetInitParams n s)) e s
  | exec_bootstrap st cs k e s n1 n2 okS okC r s' : call (Cluster.bootstrapCluster cfg n1 n2 okS okC clusterID st cs) s r s' → exec (BootstrapCluster st cs k) e s (k r) e s'
  | exec_put st k e s n r s' : call (Cluster.putStore cfg n st) s r s' → exec (PutStore st k) e s (k r) e s'.

(** A node with its engines, and what is left of its program when it runs. *)
Record node := mkNodeState { ns_node : Node; ns_drivers : drivers; ns_run : option (program started) }.
Record system := mkSystem { y_pd : pd; y_nodes : gmap nat node }.
(** A new leader of PD loads what was saved; the ids of all leaders are one stream ([allocated_ids_unique]). *)
Definition new_leader (n : net) (okS okC : nat → bool) (s : pd) : pd :=
  mkPd (start n okS okC (newCellCluster (allocator (pd_cluster s)) (store_meta (pd_cluster s)))).2 (pd_params s).
Inductive sysstep : system → system → Prop :=
  | step_exec i ns p p' e' s s' m : m !! i = Some ns → ns_run ns = Some p → exec p (ns_drivers ns) s p' e' s' → sysstep (mkSystem s m) (mkSystem s' (<[i := mkNodeState (ns_node ns) e' (Some p')]> m))
  | step_stop i ns s m : m !! i = Some ns → sysstep (mkSystem s m) (mkSystem s (<[i := mkNodeState (ns_node ns) (ns_drivers ns) None]> m))
  | step_start i ns s m : m !! i = Some ns → ns_run ns = None → sysstep (mkSystem s m) (mkSystem s (<[i := mkNodeState (ns_node ns) (ns_drivers ns) (Some (Start (ns_node ns)))]> m))
  | step_join i n s m : m !! i = None → sysstep (mkSystem s m) (mkSystem s (<[i := mkNodeState n (λ _, eng_empty) None]> m))
  | step_leader n okS okC s m : sysstep (mkSystem s m) (mkSystem (new_leader n okS okC s) m)
  | step_params n params s m : is_u64 (InitCellCount params) → sysstep (mkSystem s m) (mkSystem (InitCluster n params s).2 m).
Definition first_system (a : A) : system := mkSystem (mkPd (newCellCluster a empty_meta) None) ∅.
Definition meta_of (y : system) : meta_store := store_meta (pd_cluster (y_pd y)).

(** *** What PD does *)
Definition keeps_founding : relation state := λ s s', ms_cluster (store_meta s') = ms_cluster (store_meta s) ∧ ms_cells (store_meta s') = ms_cells (store_meta s) ∧ allocator s' = allocator s.
#[local] Instance keeps_founding_preorder : PreOrder keeps_founding.
Proof. split; [by intros s|]. intros s1 s2 s3 (E1 & E2 & E3) (F1 & F2 & F3). split_and!; congruence. Qed.
Lemma start_keeps_founding n okS okC : respects keeps_founding (start (A := A) (T := T) n okS okC).
Proof.
  assert (∀ X (r : option (outcome alloc_error unit * X)) set, (∀ x s, keeps_founding s (set x s)) → respects keeps_founding (load_into (A := A) (T := T) r set)) as Hload.
  { intros X r set Hset s. unfold load_into. destruct r as [[[] x]|]; cbn [snd]; done. }
  unfold start. handler_steps; apply Hload; by intros.
Qed.
Lemma putStore_keeps_founding n st : respects keeps_founding (Cluster.putStore (A := A) (T := T) cfg n st).
Proof.
  unfold Cluster.putStore, doPutStore, Cluster.checkStore, notifyStoreRange. handler_steps.
  intros s0. unfold save_meta, SetStoreMeta, save. by destruct n.
Qed.
Lemma bootstrapCluster_founding n1 n2 okS okC st cs (s : state) : let s' := (Cluster.bootstrapCluster cfg n1 n2 okS okC clusterID st cs s).2 in
  keeps_founding s s' ∨ ms_cluster (store_meta s) = None ∧ ms_cluster (store_meta s') ≠ None ∧ ms_cells (store_meta s') = foldl (λ m c, <[Cell_ID c := c]> m) (ms_cells (store_meta s)) cs ∧ allocator s' = allocator s.
Proof.
  cbn zeta. destruct (Cluster.bootstrapCluster cfg n1 n2 okS okC clusterID st cs s) as [r s'] eqn:Hb. cbn [snd].
  set (ms' := (SetClusterBootstrapped n1 (mkCluster clusterID (LimitReplicas cfg)) st cs (store_meta s)).2).
  assert (ms' = store_meta s ∨ ms_cluster (store_meta s) = None ∧ ms_cluster ms' ≠ None ∧ ms_cells ms' = foldl (λ m c, <[Cell_ID c := c]> m) (ms_cells (store_meta s)) cs) as Hms.
  { unfold ms', SetClusterBootstrapped. case_bool_decide; destruct n1; cbn [snd]; auto; right; done. }
  assert (keeps_founding s s' ∨ keeps_founding (set_meta ms' s) s') as [Hk|(K1 & K2 & K3)]; [|by left|].
  { unfold Cluster.bootstrapCluster, mbind_ at 1, get in Hb. destruct (running s); [injection Hb as <- <-; by left|]. unfold lift, mbind_ at 1 in Hb.
    destruct (checkForBootstrap st cs) as [st'| |] eqn:Hck; [|injection Hb as <- <-; by left..].
    assert (st' = st) as -> by (unfold checkForBootstrap in Hck; case_decide; [done|]; destruct (check_bootstrap_cells st cs); cbn in Hck; congruence).
    right. unfold doBootstrap, save_meta in Hb. unfold mbind_, mret in Hb. unfold ms'. destruct (SetClusterBootstrapped n1 _ st cs (store_meta s)) as [[ok|e|] ms1]; cbn [snd]; [|by injection Hb as <- <-..].
    pose proof (start_keeps_founding n2 okS okC (set_meta ms1 s)) as Hst. destruct (start n2 okS okC (set_meta ms1 s)) as [[] s2]; by injection Hb as <- <-. }
  unfold keeps_founding. rewrite K1, K2, K3. cbn [store_meta set_meta allocator] in *. destruct Hms as [->|(H1 & H2 & H3)]; [by left|]. by right.
Qed.

Lemma insert_cells_lookup (cs : list Cell) (m : gmap Z Cell) id c : NoDup (Cell_ID <$> cs) →
  foldl (λ m c, <[Cell_ID c := c]> m) m cs !! id = Some c ↔ c ∈ cs ∧ Cell_ID c = id ∨ id ∉ Cell_ID <$> cs ∧ m !! id = Some c.
Proof.
  revert m. induction cs as [|c1 cs IH]; intros m; [cbn; set_solver|]. rewrite fmap_cons, NoDup_cons. intros [Hn Hnd]. cbn [foldl]. rewrite IH by done. rewrite lookup_insert_Some, not_elem_of_cons, elem_of_cons. split.
  - intros [[Hc Hid]|[Hni [[Hid ->]|[Hne Hm]]]]; [auto|auto|]. right. done.
  - intros [[[->|Hc] Hid]|[[Hne Hni] Hm]]; [|auto|auto]. subst id. auto.
Qed.

(** *** The invariant *)
(** The node [i] has made the cells that PD knows, and keeps them. *)
Record founder (y : system) (i : nat) (ns : node) (storeID : Z) (cs : list Cell) : Prop := {
  fr_node : y_nodes y !! i = Some ns;
  fr_cells id c : ms_cells (meta_of y) !! id = Some c ↔ c ∈ cs ∧ Cell_ID c = id;
  fr_made : made (nd_driversMask (ns_node ns)) (list_to_set (Cell_ID <$> cs)) storeID cs (ns_drivers ns);
  fr_ranges : founding_ranges cs;
}.
(** [own]: the ids that the programs of the nodes may write. *)
Record sys_inv (own : nat → gset Z) (y : system) : Prop := {
  si_ids : ids_wf (allocator (pd_cluster (y_pd y)));
  si_used i id : id ∈ own i → ids_used (allocator (pd_cluster (y_pd y))) id;
  si_apart i j id : i ≠ j → id ∈ own i → id ∉ own j;
  si_params p : pd_params (y_pd y) = Some p → is_u64 (InitCellCount p);
  si_wf i ns : y_nodes y !! i = Some ns → drivers_wf (ns_drivers ns);
  si_run i ns p : y_nodes y !! i = Some ns → ns_run ns = Some p → wp (nd_driversMask (ns_node ns)) p (λ _ _ _, True) (ns_drivers ns) (own i);
  si_published id c : ms_cells (meta_of y) !! id = Some c → ids_used (allocator (pd_cluster (y_pd y))) id ∧ ∀ j, id ∉ own j;
  si_founded : match ms_cluster (meta_of y) with None => ms_cells (meta_of y) = ∅ | Some _ => ∃ i ns storeID cs, founder y i ns storeID cs end;
}.
Lemma inv_pd own s s' m : sys_inv own (mkSystem s m) → ms_cluster (store_meta (pd_cluster s')) = ms_cluster (store_meta (pd_cluster s)) → ms_cells (store_meta (pd_cluster s')) = ms_cells (store_meta (pd_cluster s)) →
  ids_wf (allocator (pd_cluster s')) → (∀ id, ids_used (allocator (pd_cluster s)) id → ids_used (allocator (pd_cluster s')) id) → (∀ p, pd_params s' = Some p → is_u64 (InitCellCount p)) → sys_inv own (mkSystem s' m).
Proof.
  intros [H1 H2 H3 H4 H5 H6 H7 H8] Ec El Hwf Hused Hp. split; try done; unfold meta_of in *; cbn [y_pd y_nodes] in *; [eauto|..].
  - intros id c. rewrite El. intros [Hu Hj]%H7. eauto.
  - rewrite Ec, El. destruct (ms_cluster (store_meta (pd_cluster s))); [|done]. destruct H8 as (i & ns & storeID & cs & [F1 F2 F3 F4]). exists i, ns, storeID, cs. split; try done. unfold meta_of in *. cbn [y_pd] in *. by rewrite El.
Qed.
Lemma inv_keeps own s c' m : sys_inv own (mkSystem s m) → keeps_founding (pd_cluster s) c' → sys_inv own (mkSystem (mkPd c' (pd_params s)) m).
Proof. intros Hi (K1 & K2 & K3). apply (inv_pd own s); try done; cbn [pd_cluster pd_params]; rewrite ?K3; [apply (si_ids _ _ Hi)|done|apply (si_params _ _ Hi)]. Qed.
(** A node goes on: it may write what it owns, give up ids and be given new ones. *)
Definition owning (i : nat) (ids : gset Z) (own : nat → gset Z) : nat → gset Z := λ j, if decide (j = i) then ids else own j.
Lemma inv_node own s m i ns e' run' ids : sys_inv own (mkSystem s m) → m !! i = Some ns → drivers_wf e' →
  leaves_others (own i) (ns_drivers ns) e' → (∀ p, run' = Some p → wp (nd_driversMask (ns_node ns)) p (λ _ _ _, True) e' ids) →
  (∀ id, id ∈ ids → id ∈ own i ∨ ids_used (allocator (pd_cluster s)) id ∧ (∀ j, id ∉ own j) ∧ ∀ c, ms_cells (store_meta (pd_cluster s)) !! id ≠ Some c) →
  sys_inv (owning i ids own) (mkSystem s (<[i := mkNodeState (ns_node ns) e' run']> m)).
Proof.
  intros [H1 H2 H3 H4 H5 H6 H7 H8] Hm Hwf Hsv Hrun Hids. unfold meta_of, owning in *. cbn [y_pd y_nodes] in *. split; unfold meta_of; cbn [y_pd y_nodes]; try done.
  - intros j id. case_decide as Hj; [|apply H2]. intros [Ho|[Hu _]]%Hids; [by apply H2 in Ho|done].
  - intros j j' id Hne. do 2 case_decide; try congruence; [intros [Ho|(_ & Hn & _)]%Hids; [subst; by eapply H3|auto]|intros Ho [Ho'|(_ & Hn & _)]%Hids; [subst; by eapply (H3 j i)|by eapply Hn]|by apply H3].
  - intros j ns'. rewrite lookup_insert_Some. intros [[<- <-]|[_ Hj]]; [done|by eapply H5].
  - intros j ns' p. rewrite lookup_insert_Some. intros [[<- <-]|[Hne Hj]]; cbn [ns_run ns_node ns_drivers]; [rewrite decide_True by done; apply Hrun|rewrite decide_False by done; by apply H6].
  - intros id c Hc. destruct (H7 id c Hc) as [Hu Hn]. split; [done|]. intros j. case_decide; [|done]. intros [Ho|(_ & _ & Hno)]%Hids; [by eapply Hn|by eapply Hno].
  - destruct (ms_cluster (store_meta (pd_cluster s))) as [cl|]; [|done]. destruct H8 as (j & nsj & storeID & cs & [F1 F2 F3 F4]). cbn [y_nodes] in F1. unfold meta_of in F2. cbn [y_pd] in F2.
    destruct (decide (j = i)) as [->|Hne]; [|exists j, nsj, storeID, cs; split; try done; cbn [y_nodes]; by rewrite lookup_insert_ne].
    assert (nsj = ns) as -> by congruence. exists i, (mkNodeState (ns_node ns) e' run'), storeID, cs. split; try done; cbn [y_nodes ns_node ns_drivers]; [by rewrite lookup_insert_eq|].
    destruct F3 as [M1 M2 M3 M4]. split; try done. intros c Hc. destruct (M2 c Hc) as (_ & Hu & _). apply Hsv; [done| |by apply M4]. destruct (H7 (Cell_ID c) c) as [_ Hn]; [by apply F2|]. apply Hn.
Qed.
Lemma leaves_refl ids (e : drivers) : leaves_others ids e e.
Proof. by intros mask c. Qed.
(** A call that changes nothing the invariant is about. *)
Lemma call_keeps {R} (h : M state R) s r s' own m : respects keeps_founding h → call h s r s' → sys_inv own (mkSystem s m) → sys_inv own (mkSystem s' m).
Proof. intros Hh [[-> _]|(o & c' & Hc & -> & _)] Hi; [done|]. apply inv_keeps; [done|]. specialize (Hh (pd_cluster s)). by rewrite Hc in Hh. Qed.
Lemma call_alloc s r s' own m : call newID_h s r s' → sys_inv own (mkSystem s m) → sys_inv own (mkSystem s' m) ∧
  ∀ id, r = Some id → is_u64 id ∧ id ≠ 0 ∧ ids_used (allocator (pd_cluster s')) id ∧ (∀ j, id ∉ own j) ∧ ∀ c, ms_cells (store_meta (pd_cluster s')) !! id ≠ Some c.
Proof.
  intros [[-> ->]|(o & c' & Hc & -> & Hr)] Hi; [done|]. pose proof (si_ids _ _ Hi) as Hwf. cbn [y_pd] in Hwf. unfold newID_h in Hc. set (a := allocator (pd_cluster s)) in *.
  pose proof (next_id_wf a Hwf) as Hwf'. pose proof (λ id, next_id_mono a id Hwf) as Hmono. pose proof (λ id, next_id_fresh a id Hwf) as Hfresh. pose proof (λ id, next_id_u64 a id Hwf) as Hu.
  assert (allocator c' = (next_id a).2 ∧ store_meta c' = store_meta (pd_cluster s)) as [Ea Em] by (destruct (next_id a) as [[] a']; by injection Hc as <- <-).
  split; [apply (inv_pd own s); cbn [pd_cluster pd_params]; rewrite ?Em, ?Ea; try done; apply (si_params _ _ Hi)|].
  intros x ->. destruct Hr as [|(x' & -> & [= <-])]; [done|]. assert ((next_id a).1 = Ok x) as Hx by (destruct (next_id a) as [[] a']; cbn [fst] in *; congruence).
  destruct (Hfresh x Hx) as (Hn & Hin & H0). cbn [pd_cluster]. rewrite Ea, Em. split_and!; [by apply Hu|done|done| |].
  - intros j Ho%(si_used _ _ Hi). done.
  - intros c Hcl. apply (si_published _ _ Hi) in Hcl as [Hus _]. done.
Qed.
(** A node that founds the cluster. *)
Lemma inv_found own s c' m i ns st cs k r : sys_inv own (mkSystem s m) → m !! i = Some ns → ns_run ns = Some (BootstrapCluster st cs k) → ms_cluster (store_meta (pd_cluster s)) = None →
  ms_cluster (store_meta c') ≠ None → ms_cells (store_meta c') = foldl (λ m c, <[Cell_ID c := c]> m) (ms_cells (store_meta (pd_cluster s))) cs → allocator c' = allocator (pd_cluster s) →
  sys_inv (owning i ∅ own) (mkSystem (mkPd c' (pd_params s)) (<[i := mkNodeState (ns_node ns) (ns_drivers ns) (Some (k r))]> m)).
Proof.
  intros Hi Hm Hrun Hnone Hsome Hcells Ha. pose proof (si_run _ _ Hi i ns _ Hm Hrun) as [[[M1 M2 M3 M4] Hranges] Hk]. pose proof (si_founded _ _ Hi) as Hf. unfold meta_of in Hf. cbn [y_pd] in Hf. rewrite Hnone in Hf.
  assert (∀ id c, ms_cells (store_meta c') !! id = Some c ↔ c ∈ cs ∧ Cell_ID c = id) as Hlk.
  { intros id c. rewrite Hcells, Hf, insert_cells_lookup by done. rewrite lookup_empty. naive_solver. }
  destruct (inv_node own s m i ns (ns_drivers ns) (Some (k r)) ∅ Hi Hm) as [H1 H2 H3 H4 H5 H6 H7 H8]; [by eapply (si_wf _ _ Hi)|apply leaves_refl|intros p [= <-]; apply Hk|set_solver|].
  unfold meta_of in *. cbn [y_pd y_nodes pd_cluster pd_params] in *. split; unfold meta_of; cbn [y_pd y_nodes pd_cluster pd_params]; rewrite ?Ha; try done.
  - intros id c [Hc <-]%Hlk. destruct (M2 c Hc) as [Ho _]. split; [by apply (si_used _ _ Hi i)|]. intros j. unfold owning. case_decide; [set_solver|]. by apply (si_apart _ _ Hi i).
  - destruct (ms_cluster (store_meta c')) as [cl|]; [|done]. exists i, (mkNodeState (ns_node ns) (ns_drivers ns) (Some (k r))), (Store_ID st), cs. split; try done; cbn [y_nodes ns_node ns_drivers]; [by rewrite lookup_insert_eq|].
    split; try done. intros c Hc. destruct (M2 c Hc) as (_ & Hu & H0). split_and!; [|done|done]. rewrite elem_of_list_to_set. by apply list_elem_of_fmap_2.
Qed.
Lemma exec_inv own s m i ns p p' e' s' : sys_inv own (mkSystem s m) → m !! i = Some ns → ns_run ns = Some p → exec p (ns_drivers ns) s p' e' s' →
  ∃ own', sys_inv own' (mkSystem s' (<[i := mkNodeState (ns_node ns) e' (Some p')]> m)).
Proof.
  intros Hi Hm Hrun Hex. pose proof (si_run _ _ Hi i ns p Hm Hrun) as Hwp. pose proof (si_wf _ _ Hi i ns Hm) as Hwf. cbn [y_pd] in *.
  assert (∀ s' p', sys_inv own (mkSystem s' m) → wp (nd_driversMask (ns_node ns)) p' (λ _ _ _, True) (ns_drivers ns) (own i) → ∃ own', sys_inv own' (mkSystem s' (<[i := mkNodeState (ns_node ns) (ns_drivers ns) (Some p')]> m))) as Hgo.
  { intros s1 p1 Hi1 Hp1. exists (owning i (own i) own). apply inv_node; [done|done|done|apply leaves_refl|intros ? [= <-]; done|auto]. }
  inversion Hex; subst; cbn [wp] in Hwp.
  - by apply Hgo.
  - destruct Hwp as (Hf & Hlv & Hk). exists (owning i (own i) own). apply inv_node; [done|done|by apply upd_driver_wf|done|intros ? [= <-]; done|auto].
  - apply Hgo; [eapply call_keeps; [|done|done]; by intros ?|apply Hwp].
  - match goal with H : call newID_h _ _ _ |- _ => destruct (call_alloc _ _ _ own m H Hi) as [Hi' Hid] end. destruct Hwp as [Hn Hs]. destruct r as [id|]; [|by apply Hgo].
    destruct (Hid id eq_refl) as (Hu & Hz & Hused & Hown & Hpub). exists (owning i ({[id]} ∪ own i) own). apply inv_node; [done|done|done|apply leaves_refl|intros ? [= <-]; by apply Hs|].
    intros x [->%elem_of_singleton|Hx]%elem_of_union; auto.
  - apply Hgo; [done|]. apply Hwp. intros q Hq. apply (si_params _ _ Hi). unfold pd_GetInitParams in Hq. cbn [y_pd]. destruct n; congruence.
  - destruct Hwp as [_ Hk]. assert (∀ s1, sys_inv own (mkSystem s1 m) → ∃ own', sys_inv own' (mkSystem s1 (<[i := mkNodeState (ns_node ns) (ns_drivers ns) (Some (k r))]> m))) as Hdone.
    { intros s1 Hi1. exists (owning i ∅ own). apply inv_node; [done|done|done|apply leaves_refl|intros ? [= <-]; apply Hk|set_solver]. }
    match goal with H : call _ _ _ _ |- _ => destruct H as [[-> ->]|(o & c' & Hc & -> & Hr)] end; [by apply Hdone|].
    pose proof (bootstrapCluster_founding n1 n2 okS okC st cs (pd_cluster s)) as Hb. cbn zeta in Hb. rewrite Hc in Hb. cbn [snd] in Hb. destruct Hb as [Hkeep|(Hnone & Hsome & Hcells & Ha)]; [by apply Hdone, inv_keeps|].
    exists (owning i ∅ own). by eapply inv_found.
  - apply Hgo; [eapply call_keeps; [apply putStore_keeps_founding|done|done]|apply Hwp].
Qed.
Lemma sysstep_inv own y y' : sys_inv own y → sysstep y y' → ∃ own', sys_inv own' y'.
Proof.
  intros Hi Hs. revert Hi. destruct Hs as [i ns p p' e' s s' m Hm Hrun Hex|i ns s m Hm|i ns s m Hm Hrun|i n s m Hm|n okS okC s m|n params s m Hp]; intros Hi.
  - by eapply exec_inv.
  - exists (owning i (own i) own). apply inv_node; [done|done|by eapply (si_wf _ _ Hi)|apply leaves_refl|done|auto].
  - exists (owning i ∅ own). pose proof (si_wf _ _ Hi i ns Hm) as Hwf. apply inv_node; [done|done|done|apply leaves_refl|intros p [= <-]; by apply Start_wp|set_solver].
  - exists own. destruct Hi as [H1 H2 H3 H4 H5 H6 H7 H8]. split; try done; unfold meta_of in *; cbn [y_pd y_nodes] in *.
    + intros j ns. rewrite lookup_insert_Some. intros [[<- <-]|[_ Hj]]; [intros k; apply eng_empty_wf|by eapply H5].
    + intros j ns p. rewrite lookup_insert_Some. intros [[<- <-]|[_ Hj]]; [done|by apply H6].
    + destruct (ms_cluster (store_meta (pd_cluster s))) as [cl|]; [|done]. destruct H8 as (j & nsj & storeID & cs & [F1 F2 F3 F4]). exists j, nsj, storeID, cs. split; try done. cbn [y_nodes] in *. rewrite lookup_insert_ne; [done|congruence].
  - exists own. unfold new_leader. pose proof (start_keeps_founding n okS okC (newCellCluster (allocator (pd_cluster s)) (store_meta (pd_cluster s)))) as Hk. by apply inv_keeps.
  - exists own. unfold InitCluster. case_match; [done|]. destruct n; cbn [snd]; [|done|]; apply (inv_pd own s); try done; try apply (si_ids _ _ Hi); by intros q [= <-].
Qed.
Lemma system_inv a y : ids_wf a → rtc sysstep (first_system a) y → ∃ own, sys_inv own y.
Proof.
  intros Ha. remember (first_system a) as y0 eqn:H0. assert (∃ own, sys_inv own y0) as Hi0 by (subst y0; exists (λ _, ∅); by split). clear H0.
  intros Hr. induction Hr as [|y1 y2 y3 Hs _ IH]; [done|]. destruct Hi0 as [own Hi]. apply IH. by eapply sysstep_inv.
Qed.
(** Once there is a cluster, starting nodes does not change it. *)
Lemma sysstep_keeps y y' cl : sysstep y y' → ms_cluster (meta_of y) = Some cl → ms_cluster (meta_of y') = Some cl ∧ ms_cells (meta_of y') = ms_cells (meta_of y).
Proof.
  assert (∀ R (h : M state R) s r s', respects keeps_founding h → call h s r s' → keeps_founding (pd_cluster s) (pd_cluster s')) as Hcall.
  { intros R h s r s' Hh [[-> _]|(o & c' & Hc & -> & _)]; [done|]. specialize (Hh (pd_cluster s)). by rewrite Hc in Hh. }
  assert (∀ s s', keeps_founding s s' → ms_cluster (store_meta s) = Some cl → ms_cluster (store_meta s') = Some cl ∧ ms_cells (store_meta s') = ms_cells (store_meta s)) as Hkeep by (intros s s' (H1 & H2 & _) Hc; by rewrite H1, H2).
  unfold meta_of. intros [i ns p p' e' s s' m Hm Hrun Hex|i ns s m Hm|i ns s m Hm Hrun|i n s m Hm|n okS okC s m|n params s m Hp] Hc; cbn [y_pd] in *; try done.
  - inversion Hex; subst; try done.
    + eapply Hkeep; [|done]. eapply Hcall; [|done]. by intros ?.
    + match goal with H : call _ _ _ _ |- _ => destruct H as [[-> ->]|(o & c' & Hn & -> & _)] end; [done|]. cbn [pd_cluster]. unfold newID_h in Hn. destruct (next_id (allocator (pd_cluster s))) as [[] a]; injection Hn as <- <-; done.
    + match goal with H : call _ _ _ _ |- _ => destruct H as [[-> ->]|(o & c' & Hn & -> & _)] end; [done|]. cbn [pd_cluster]. pose proof (bootstrapCluster_founding n1 n2 okS okC st cs (pd_cluster s)) as Hb.
      cbn zeta in Hb. rewrite Hn in Hb. cbn [snd] in Hb. destruct Hb as [Hk|(Hno & _)]; [by apply Hkeep|congruence].
    + eapply Hkeep; [|done]. eapply Hcall; [apply putStore_keeps_founding|done].
  - eapply Hkeep; [|done]. pose proof (start_keeps_founding n okS okC (newCellCluster (allocator (pd_cluster s)) (store_meta (pd_cluster s)))) as Hk. done.
  - unfold InitCluster. case_match; [done|]. by destruct n.
Qed.
(** C14. However many nodes start, stop and start again, whatever calls are lost and whichever server leads PD: as long as
    PD has no cluster it has no cells; once it has one, its cells are exactly those that one node
    has made, which keeps them all in its engines, each with one peer on its store; together they hold every key, or
    every hash of a key below the largest; and no other start changes them. *)
Theorem cluster_founded_once (a : A) (y : system) : ids_wf a → rtc sysstep (first_system a) y →
  (ms_cluster (meta_of y) = None → ms_cells (meta_of y) = ∅) ∧
  (∀ cl, ms_cluster (meta_of y) = Some cl →
    (∃ i ns storeID cs, y_nodes y !! i = Some ns ∧ NoDup (Cell_ID <$> cs) ∧ (∀ id c, ms_cells (meta_of y) !! id = Some c ↔ c ∈ cs ∧ Cell_ID c = id) ∧
      (∀ c, c ∈ cs → saved_cell (nd_driversMask (ns_node ns)) c (ns_drivers ns) ∧ ∃ peer, Peers c = [mkPeer peer storeID] ∧ peer ≠ 0) ∧
      ((∃ c, cs = [c] ∧ ∀ key, in_cell key c) ∨ ∀ v, 0 ≤ v < MaxUint64 → ∃ c, owners (Uint64ToBytes v) cs = [c])) ∧
    ∀ y', sysstep y y' → ms_cluster (meta_of y') = Some cl ∧ ms_cells (meta_of y') = ms_cells (meta_of y)).
Proof.
  intros Ha Hr. destruct (system_inv a y Ha Hr) as [own Hi]. pose proof (si_founded _ _ Hi) as Hf. split; [intros Hn; by rewrite Hn in Hf|]. intros cl Hcl. split; [|intros y' Hs; by apply sysstep_keeps].
  rewrite Hcl in Hf. destruct Hf as (i & ns & storeID & cs & [F1 F2 [M1 M2 M3 M4] F4]). exists i, ns, storeID, cs. split_and!; try done.
  - intros c Hc. split; [by apply M4|]. destruct (M3 c Hc) as (peer & H1 & H2 & _). by exists peer.
  - destruct F4 as [(c & -> & Hs & He)|Hch]; [left; exists c; split; [done|]; intros key; unfold in_cell; rewrite Hs, He; split; [by destruct key|by left]|right].
    intros v Hv. assert (MaxUint64 = two64 - 1) as HM by done. assert (is_u64 0) by (unfold is_u64; split; [done|by vm_compute]). assert (is_u64 v) by (unfold is_u64; lia). by apply (chain_owners 0 cs MaxUint64 v).
Qed.
End system.

(** ** Starting alone *)
Section alone.
Context {E : Type} `{!Engine value E} (n : Node).
Abbreviation drivers := (Z → E).
Abbreviation program := (@prog E).
Implicit Types (e : drivers) (ids : list Z).
Definition ident_of (e : drivers) : option value := Engine_Get GetStoreIdentKey (e 0).
Definition count_of (params : option InitParams) : Z := InitCellCount (default (mkInitParams 1 0) params).

(** The check for existing data never finds any: its range is empty. *)
Lemma bootstrap_scan_empty (x : E) : eng_wf x → Engine_Scan GetMinKey GetMaxKey x = [].
Proof.
  intros Hx. destruct (Engine_Scan GetMinKey GetMaxKey x) as [|[k v] l] eqn:Hs; [done|]. assert ((k, v) ∈ Engine_Scan GetMinKey GetMaxKey x) as Hin by (rewrite Hs; left).
  apply eng_scan_elem in Hin as (_ & Hge & Hlt); [|done]. unfold GetMinKey, GetMaxKey, minKey, maxKey, below_end in *. destruct k; [by vm_compute in Hge|]. by destruct scan_includes_end.
Qed.
Lemma getAllocID_run boot params id ids e : run_alone boot params (id :: ids) getAllocID e = Some (id, ids, e).
Proof. done. Qed.
Lemma getInitParam_run boot params ids e : run_alone boot params ids getInitParam e = Some (default (mkInitParams 1 0) params, ids, e).
Proof. done. Qed.
Lemma createCell_run boot params storeID start end_ cid pid ids e : drivers_wf e → is_u64 cid →
  ∃ c e', run_alone boot params (cid :: pid :: ids) (createCell n storeID start end_) e = Some (c, ids, e') ∧ drivers_wf e' ∧ ident_of e' = ident_of e.
Proof.
  intros Hwf Hu. unfold createCell. rewrite run_alone_bind, getAllocID_run, run_alone_bind, getAllocID_run. cbn [run_alone]. eexists _, _. split; [done|]. set (c := mkCell _ _ _ _ _). assert (drivers_wf (upd_driver (Z.land (nd_driversMask n) cid) (SaveCell c) e)) as Hwf' by (apply upd_driver_wf; [done|apply SaveCell_wf]).
  split; [done|]. unfold ident_of. rewrite !eng_get_map by auto. unfold upd_driver. case_decide; [|done]. apply (SaveCell_other c (e 0) KStoreIdent); [apply Hwf|done|done|]. unfold cell_keys. rewrite !not_elem_of_cons. split_and!; [done|done|done|apply not_elem_of_nil].
Qed.
Lemma create_cells_run boot params storeID step left start end_ cs ids e : drivers_wf e → Forall is_u64 ids → (2 * left ≤ length ids)%nat →
  ∃ cs' e', run_alone boot params ids (create_cells n storeID step left start end_ cs) e = Some (cs', drop (2 * left) ids, e') ∧ length cs' = (length cs + left)%nat ∧ ident_of e' = ident_of e.
Proof.
  revert start end_ cs ids e. induction left as [|left IH]; intros start end_ cs ids e Hwf Hu Hl; [exists cs, e; cbn [create_cells run_alone Nat.mul drop]; split_and!; [done|lia|done]|].
  destruct ids as [|cid [|pid ids]]; cbn [length] in Hl; [lia|lia|]. apply Forall_cons in Hu as [Hc [_ Hu]%Forall_cons]. cbn [create_cells]. rewrite run_alone_bind.
  destruct (createCell_run boot params storeID (Uint64ToBytes start) (Uint64ToBytes (if bool_decide (left = 0%nat) then MaxUint64 else end_)) cid pid ids e Hwf Hc) as (c & e1 & -> & Hwf1 & Hid).
  destruct (IH (if bool_decide (left = 0%nat) then MaxUint64 else end_) (u64 ((if bool_decide (left = 0%nat) then MaxUint64 else end_) + step)) (cs ++ [c]) ids e1 Hwf1 Hu ltac:(lia)) as (cs' & e2 & -> & Hlen & Hid2).
  exists cs', e2. replace (2 * S left)%nat with (S (S (2 * left))) by lia. cbn [drop]. split_and!; [done| |congruence]. rewrite Hlen, length_app. cbn [length]. lia.
Qed.
Lemma bootstrapCells_run boot params storeID ids e : drivers_wf e → Forall is_u64 ids → 1 ≤ count_of params → (2 * Z.to_nat (count_of params) ≤ length ids)%nat →
  ∃ cs e', run_alone boot params ids (bootstrapCells n storeID) e = Some (cs, drop (2 * Z.to_nat (count_of params)) ids, e') ∧ length cs = Z.to_nat (count_of params) ∧ ident_of e' = ident_of e.
Proof.
  intros Hwf Hu Hc Hl. unfold bootstrapCells. rewrite run_alone_bind, getInitParam_run. fold (count_of params). rewrite bool_decide_eq_false_2 by lia. case_bool_decide as H1.
  - rewrite H1 in *. destruct ids as [|cid [|pid ids]]; [simpl in Hl; lia..|]. apply Forall_cons in Hu as [Hcu _]. rewrite run_alone_bind. destruct (createCell_run boot params storeID [] [] cid pid ids e Hwf Hcu) as (c & e1 & -> & _ & Hid). by exists [c], e1.
  - destruct (create_cells_run boot params storeID (MaxUint64 `div` count_of params) (Z.to_nat (count_of params)) 0 (MaxUint64 `div` count_of params) [] ids e Hwf Hu Hl) as (cs & e1 & -> & Hlen & Hid). by exists cs, e1.
Qed.
(** After the store id is known. *)
Definition start_rest (boot : bool) (storeID : Z) : program started :=
  do* _ := (if negb boot then do* cells := bootstrapCells n storeID in bootstrapCluster (with_id storeID (newStore n)) cells else Ret tt) in
  do* s := startStore (with_id storeID (newStore n)) in do* _ := putStore (with_id storeID (newStore n)) in Ret s.
Lemma start_rest_run (boot : bool) params storeID ids e : drivers_wf e → Forall is_u64 ids → (boot = false → 1 ≤ count_of params ∧ (2 * Z.to_nat (count_of params) ≤ length ids)%nat) →
  ∃ e', run_alone boot params ids (start_rest boot storeID) e =
      Some (mkStarted (with_id storeID (newStore n)) (bool_decide (1 < count_of params)), drop (if boot then 0 else 2 * Z.to_nat (count_of params)) ids, e') ∧ ident_of e' = ident_of e ∧ (boot = true → e' = e).
Proof.
  intros Hwf Hu Hb. unfold start_rest. rewrite run_alone_bind. destruct boot; cbn [negb]; [by exists e|]. destruct (Hb eq_refl) as [Hc Hl]. rewrite run_alone_bind.
  destruct (bootstrapCells_run false params storeID ids e Hwf Hu Hc Hl) as (cs & e1 & -> & _ & Hid). by exists e1.
Qed.
(** What starting a node comes to when PD answers its calls.  A node without a store identity starts if there are
    enough ids: it takes a new id, remembers it, and creates cells if there is no cluster.  A node with an identity starts again under the
    same id without changing its engines if the cluster exists, and otherwise ends: also when it had stopped
    while it was creating the cluster. *)
Theorem node_start_cases (boot : bool) (params : option InitParams) (ids : list Z) (e : drivers) : drivers_wf e → Forall is_u64 ids →
  match ident_of e with
  | None => 1 ≤ count_of params → ((if boot then 1 else 1 + 2 * Z.to_nat (count_of params)) ≤ length ids)%nat →
      ∃ x e', run_alone boot params ids (Start n) e = Some (x, drop (if boot then 1 else 1 + 2 * Z.to_nat (count_of params)) ids, e') ∧
        head ids = Some (Store_ID (st_meta x)) ∧ st_hashed x = bool_decide (1 < count_of params) ∧
        ident_of e' = Some (VStoreIdent (mkStoreIdent (nd_clusterID n) (Store_ID (st_meta x))))
  | Some (VStoreIdent st) =>
      run_alone boot params ids (Start n) e =
        if boot && bool_decide (Ident_ClusterID st = nd_clusterID n) && negb (bool_decide (Ident_StoreID st = 0))
        then Some (mkStarted (with_id (Ident_StoreID st) (newStore n)) (bool_decide (1 < count_of params)), ids, e) else None
  | Some _ => run_alone boot params ids (Start n) e = None
  end.
Proof.
  intros Hwf Hu.
  assert (∀ p, run_alone boot params ids (do* b := checkClusterBootstrapped in do* id := checkStore n in p b id : program started) e =
    match ident_of e with None => run_alone boot params ids (p boot ZeroID) e
    | Some (VStoreIdent st) => if negb (bool_decide (Ident_ClusterID st = nd_clusterID n)) then None else if bool_decide (Ident_StoreID st = ZeroID) then None else run_alone boot params ids (p boot (Ident_StoreID st)) e
    | Some _ => None end) as Hpre.
  { intros p. rewrite run_alone_bind. change (run_alone boot params ids checkClusterBootstrapped e) with (Some (boot, ids, e)). cbn iota. rewrite run_alone_bind. unfold checkStore. cbn [run_alone]. unfold ident_of.
    destruct (Engine_Get GetStoreIdentKey (e 0)) as [[| | | | |st]|]; try done. destruct (negb (bool_decide (Ident_ClusterID st = nd_clusterID n))); [done|]. by case_bool_decide. }
  unfold Start. rewrite Hpre. clear Hpre. unfold ZeroID. destruct (ident_of e) as [[| | | | |st]|] eqn:Hid; try done.
  - case_bool_decide as H1; cbn [negb]; [|by rewrite andb_false_r]. rewrite andb_true_r. case_bool_decide as H2; [by rewrite andb_false_r|]. cbn [negb]. rewrite andb_true_r. destruct boot; cbn [negb]; [|done]. cbn [pbind].
    destruct (start_rest_run true params (Ident_StoreID st) ids e Hwf Hu ltac:(done)) as (e' & Hr & _ & He). rewrite He in Hr by done. exact Hr.
  - intros Hc Hl. destruct ids as [|id ids]; [destruct boot; simpl in Hl; lia|]. apply Forall_cons in Hu as [Hid0 Hu]. rewrite bool_decide_eq_true_2 by done. rewrite run_alone_bind. unfold bootstrapStore. rewrite run_alone_bind, getAllocID_run. cbn [run_alone].
    rewrite bool_decide_eq_true_2 by apply bootstrap_scan_empty, Hwf. cbn [run_alone]. set (e1 := upd_driver 0 _ e).
    assert (drivers_wf e1) as Hwf1 by (apply upd_driver_wf; [done|]; intros x Hx; by apply eng_set_wf).
    assert (ident_of e1 = Some (VStoreIdent (mkStoreIdent (nd_clusterID n) id))) as Hid1 by (unfold ident_of, e1, upd_driver; rewrite decide_True by done; rewrite eng_get_map by (by apply eng_set_wf); rewrite eng_set_map by done; by rewrite lookup_insert_eq).
    destruct (start_rest_run boot params id ids e1 Hwf1 Hu) as (e' & Hr & Hid' & _); [intros ->; simpl in Hl; split; [done|lia]|].
    exists (mkStarted (with_id id (newStore n)) (bool_decide (1 < count_of params))), e'. split_and!; [|done|done|by rewrite Hid']. unfold start_rest in Hr. rewrite Hr. by destruct boot.
Qed.
End alone.

(** ** Schedules, to run nodes against PD *)
Section schedules.
Context {E A T : Type} `{!Engine value E} `{!IdSource A} `{OT : !OrderedTree CellItem Less T} `{!MapOrder} (cfg : Cfg) (clusterID : Z).
Abbreviation program := (@prog E).
Abbreviation system := (system (E := E) (A := A) (T := T)).
Definition answer {R} (h : M (CellCluster A T) R) (s : pd) : option R * pd := let '(o, c') := h (pd_cluster s) in (match o with Ok x => Some x | _ => None end, mkPd c' (pd_params s)).
Lemma answer_call {R} (h : M (CellCluster A T) R) s : call h s (answer h s).1 (answer h s).2.
Proof. right. unfold answer. destruct (h (pd_cluster s)) as [o c'] eqn:Hh. exists o, c'. split_and!; [done|done|]. destruct o; cbn [fst]; eauto. Qed.
(** A step whose call is answered. *)
Definition exec_ok (p : program started) (e : Z → E) (s : pd) : program started * (Z → E) * pd :=
  let ok {R} (h : M (CellCluster A T) R) (k : option R → program started) := let '(r, s') := answer h s in (k r, e, s') in
  match p with
  | ReadDrivers k => (k e, e, s)
  | WriteDriver i f k => (k, upd_driver i f e, s)
  | IsClusterBootstrapped k => ok is_bootstrapped_h k
  | AllocID k => ok newID_h k
  | GetInitParams k => (k (pd_GetInitParams NetOk s), e, s)
  | BootstrapCluster st cs k => ok (Cluster.bootstrapCluster cfg NetOk NetOk (λ _, true) (λ _, true) clusterID st cs) k
  | PutStore st k => ok (Cluster.putStore cfg NetOk st) k
  | _ => (p, e, s)
  end.
Inductive action := Join (i : nat) (n : Node) | Launch (i : nat) | Go (i : nat).
Definition act (y : system) (a : action) : system :=
  match a with
  | Join i n => match y_nodes y !! i with None => mkSystem (y_pd y) (<[i := mkNodeState n (λ _, eng_empty) None]> (y_nodes y)) | Some _ => y end
  | Launch i => match y_nodes y !! i with
                | Some ns => match ns_run ns with None => mkSystem (y_pd y) (<[i := mkNodeState (ns_node ns) (ns_drivers ns) (Some (Start (ns_node ns)))]> (y_nodes y)) | _ => y end
                | None => y end
  | Go i => match y_nodes y !! i with
            | Some ns => match ns_run ns with
                         | Some p => match p with Ret _ | Fatal => y
                                     | _ => let '(p', e', s') := exec_ok p (ns_drivers ns) (y_pd y) in mkSystem s' (<[i := mkNodeState (ns_node ns) e' (Some p')]> (y_nodes y)) end
                         | None => y end
            | None => y end
  end.
Lemma act_steps y a : rtc (sysstep cfg clusterID) y (act y a).
Proof.
  destruct y as [s m]. destruct a as [i n|i|i]; cbn [act y_nodes y_pd].
  - destruct (m !! i) as [ns|] eqn:Hm; [done|]. by apply rtc_once, step_join.
  - destruct (m !! i) as [ns|] eqn:Hm; [|done]. destruct (ns_run ns) eqn:Hr; [done|]. by apply rtc_once, step_start.
  - destruct (m !! i) as [ns|] eqn:Hm; [|done]. destruct (ns_run ns) as [p|] eqn:Hr; [|done].
    assert (∀ p' e' s', exec cfg clusterID p (ns_drivers ns) s p' e' s' → rtc (sysstep cfg clusterID) (mkSystem s m) (mkSystem s' (<[i := mkNodeState (ns_node ns) e' (Some p')]> m))) as Hx by (intros; by eapply rtc_once, step_exec).
    pose proof (λ R h, answer_call (R := R) h s) as Hcall. destruct p; cbn [exec_ok]; try done.
    + apply Hx, exec_read.
    + apply Hx, exec_write.
    + specialize (Hcall _ is_bootstrapped_h). destruct (answer is_bootstrapped_h s). by apply Hx, exec_is.
    + specialize (Hcall _ newID_h). destruct (answer newID_h s). by apply Hx, exec_alloc.
    + apply Hx, (exec_params _ _ _ _ _ NetOk).
    + specialize (Hcall _ (Cluster.bootstrapCluster cfg NetOk NetOk (λ _, true) (λ _, true) clusterID store cells)). destruct (answer _ s). by eapply Hx, exec_bootstrap.
    + specialize (Hcall _ (Cluster.putStore cfg NetOk store)). destruct (answer _ s). by eapply Hx, exec_put.
Qed.
Lemma acts_steps l y : rtc (sysstep cfg clusterID) y (foldl act y l).
Proof. revert y. induction l as [|a l IH]; intros y; [done|]. cbn [foldl]. etransitivity; [apply act_steps|apply IH]. Qed.
End schedules.

(** ** Two nodes that start at the same time *)
Definition race_client : alloc_client := mkAllocClient (replicate 10 (NetOk, NetOk)) "pd1" newIDAllocator (mkEtcd (Some "pd1"%string) None).
Lemma race_client_wf : ids_wf race_client.
Proof. split; [done|]. vm_compute. split_and!; done. Qed.
Definition race_node (addr : string) : Node := mkNode addr "client"%string [mkLabel "zone" "z1"] 1 0.
Abbreviation race_system := (system (E := mem) (A := alloc_client) (T := list CellItem)).
(** Both find that there is no cluster; then each goes on. *)
Definition race : race_system :=
  foldl (act wcfg 1) (first_system race_client)
    ([Join 1 (race_node "a"); Join 2 (race_node "b"); Launch 1; Launch 2; Go 1; Go 2] ++ replicate 13 (Go 1) ++ replicate 13 (Go 2)).
Definition race_cell (id : Z) : Cell := mkCell id [] [] newCellEpoch [mkPeer (id + 1) (id - 1)].
(** C39. Two nodes that start at the same time may both start, each with a cell for all keys: the node whose cells
    PD has refused keeps them and serves them, although PD knows only the cell of the other. *)
Theorem losers_keep_their_cells : ∃ (y : race_system) (ns1 ns2 : node) (x1 x2 : started) (c1 c2 : Cell),
  rtc (sysstep wcfg 1) (first_system race_client) y ∧ y_nodes y !! 1%nat = Some ns1 ∧ y_nodes y !! 2%nat = Some ns2 ∧ ns_run ns1 = Some (Ret x1) ∧ ns_run ns2 = Some (Ret x2) ∧
  saved_cell 0 c1 (ns_drivers ns1) ∧ saved_cell 0 c2 (ns_drivers ns2) ∧ Cell_ID c1 ≠ Cell_ID c2 ∧ (∀ key, in_cell key c1 ∧ in_cell key c2) ∧
  ms_cells (meta_of y) !! Cell_ID c1 = Some c1 ∧ ms_cells (meta_of y) !! Cell_ID c2 = None.
Proof.
  destruct (y_nodes race !! 1%nat) as [ns1|] eqn:H1; [|by vm_compute in H1]. destruct (y_nodes race !! 2%nat) as [ns2|] eqn:H2; [|by vm_compute in H2].
  exists race, ns1, ns2, (mkStarted (with_id 1 (newStore (race_node "a"))) false), (mkStarted (with_id 4 (newStore (race_node "b"))) false), (race_cell 2), (race_cell 5).
  assert (∀ i ns x, y_nodes race !! i = Some ns → ns_run <$> y_nodes race !! i = Some x → ns_run ns = x) as Hrun by (intros i ns x -> [= <-]; done).
  assert (∀ i ns c, y_nodes race !! i = Some ns →
    (λ ns, (eng_map (ns_drivers ns 0) !! getCellStateKey (Cell_ID c), eng_map (ns_drivers ns 0) !! getRaftStateKey (Cell_ID c), eng_map (ns_drivers ns 0) !! getApplyStateKey (Cell_ID c))) <$> y_nodes race !! i =
      Some (Some (VCellState (mkLocalState Normal c)), Some (VRaftState initialRaftState), Some (VApplyState initialApplyState)) → saved_cell 0 c (ns_drivers ns)) as Hsaved
    by (intros i ns c -> [= K1 K2 K3]; split_and!; done).
  split_and!; [apply acts_steps|done|done|..|done| |by vm_compute|by vm_compute].
  - apply (Hrun _ _ _ H1). by vm_compute.
  - apply (Hrun _ _ _ H2). by vm_compute.
  - apply (Hsaved _ _ _ H1). by vm_compute.
  - apply (Hsaved _ _ _ H2). by vm_compute.
  - intros key. split; (split; [by destruct key|by left]).
Qed.
Lemma cluster_founded_once_witness : ∃ i (ns : node) storeID cs, y_nodes race !! i = Some ns ∧ NoDup (Cell_ID <$> cs) ∧ ms_cells (meta_of race) !! 2 = Some (race_cell 2) ∧ race_cell 2 ∈ cs ∧ saved_cell (nd_driversMask (ns_node ns)) (race_cell 2) (ns_drivers ns) ∧ storeID = 1.
Proof.
  destruct (cluster_founded_once (E := mem) (T := list CellItem) wcfg 1 race_client race race_client_wf (acts_steps wcfg 1 _ _)) as [_ H]. destruct (H (mkCluster 1 3) ltac:(vm_compute; reflexivity)) as [(i & ns & storeID & cs & Hm & Hnd & Hc & Hs & _) _].
  assert (ms_cells (meta_of race) !! 2 = Some (race_cell 2)) as H2 by (vm_compute; reflexivity). pose proof (proj1 (Hc 2 (race_cell 2)) H2) as [Hin _]. destruct (Hs _ Hin) as [Hsv (peer & Hp & _)].
  exists i, ns, storeID, cs. split; [done|]. split; [done|]. split; [done|]. split; [done|]. split; [done|]. by injection Hp as _ <-.
Defined.
(** A node with two cells to make, alone. *)
Lemma node_start_cases_witness : ∃ x (e' : Z → mem), run_alone false (Some (mkInitParams 2 0)) [1; 2; 3; 4; 5; 6] (Start (race_node "a")) (λ _, eng_empty) = Some (x, [6], e') ∧ Store_ID (st_meta x) = 1 ∧ st_hashed x = true.
Proof.
  destruct (node_start_cases (race_node "a") false (Some (mkInitParams 2 0)) [1; 2; 3; 4; 5; 6] (λ _, eng_empty (E := mem))) as (x & e' & Hr & Hid & Hh & _); [by intros i; apply eng_empty_wf|repeat constructor; by vm_compute|done|simpl; lia|].
  exists x, e'. split; [exact Hr|]. split; [by injection Hid as <-|exact Hh].
Defined.

(** ** The id of the cluster (store_cluster.go and server.go of PD) *)
Inductive cid_error := ErrClusterID.
(** The value of the key in etcd; no other key begins with its name. *)
Abbreviation cid_key := (option bytes).
Definition parse_cluster_id (b : bytes) : outcome cid_error Z := match BytesToUint64 b with Ok v => Ok v | Err _ => Err ErrClusterID | Panic => Panic end.
(** A read that fails has no response, which is used all the same. *)
Definition GetClusterID (n : net) (k : cid_key) : outcome cid_error Z :=
  match n with
  | NetOk => match k with None => Ok 0 | Some b => parse_cluster_id b end
  | _ => Panic
  end.
(** [ts]: the time in seconds; [rnd]: a random uint32. *)
Definition CreateFirstClusterID (n : net) (ts rnd : Z) (k : cid_key) : outcome cid_error Z * cid_key :=
  let clusterID := u64 (u64 (Z.shiftl ts 32) + rnd) in
  let '(r, k') := match k with None => (Ok clusterID, Some (Uint64ToBytes clusterID)) | Some b => (parse_cluster_id b, k) end in
  match n with NetOk => (r, k') | NetLost => (Err ErrClusterID, k) | NetReplyLost => (Err ErrClusterID, k') end.
(** A server in [initCluster]: before the read, after it has found no id, with an id, or ended. *)
Inductive init_state := Reading | Creating | HasID (id : Z) | Ended.
Definition init_read (n : net) (k : cid_key) : init_state :=
  match GetClusterID n k with Ok id => if bool_decide (id = ZeroID) then Creating else HasID id | _ => Ended end.
Definition init_create (n : net) (ts rnd : Z) (k : cid_key) : init_state * cid_key :=
  let '(r, k') := CreateFirstClusterID n ts rnd k in (match r with Ok id => HasID id | _ => Ended end, k').
Record init_system := mkInitSystem { is_key : cid_key; is_servers : gmap nat init_state }.
Inductive init_step : init_system → init_system → Prop :=
  | init_start i k m : init_step (mkInitSystem k m) (mkInitSystem k (<[i := Reading]> m))
  | init_reads i n k m : m !! i = Some Reading → init_step (mkInitSystem k m) (mkInitSystem k (<[i := init_read n k]> m))
  | init_creates i n ts rnd k m : m !! i = Some Creating → init_step (mkInitSystem k m) (mkInitSystem (init_create n ts rnd k).2 (<[i := (init_create n ts rnd k).1]> m)).
(** A server that has an id has the one of etcd. *)
Definition cid_inv (y : init_system) : Prop :=
  (∀ b, is_key y = Some b → ∃ id, BytesToUint64 b = Ok id) ∧ ∀ i id, is_servers y !! i = Some (HasID id) → ∃ b, is_key y = Some b ∧ BytesToUint64 b = Ok id.
Lemma init_create_cases n ts rnd k : (∀ b, k = Some b → ∃ id, BytesToUint64 b = Ok id) →
  (∀ b, k = Some b → (init_create n ts rnd k).2 = Some b) ∧ (∀ b, (init_create n ts rnd k).2 = Some b → ∃ id, BytesToUint64 b = Ok id) ∧
  (∀ id, (init_create n ts rnd k).1 = HasID id → ∃ b, (init_create n ts rnd k).2 = Some b ∧ BytesToUint64 b = Ok id).
Proof.
  intros Hk. unfold init_create, CreateFirstClusterID, parse_cluster_id. set (cid := u64 _). assert (BytesToUint64 (Uint64ToBytes cid) = Ok cid) as Hc by apply BytesToUint64_Uint64ToBytes, u64_bounds.
  destruct k as [b|]; [destruct (Hk b eq_refl) as [id Hb]; rewrite Hb|]; destruct n; cbn [fst snd]; split_and!; naive_solver.
Qed.
Lemma init_step_inv y y' : cid_inv y → init_step y y' → cid_inv y'.
Proof.
  intros [Hk Hs] Hstep. destruct Hstep as [i k m|i n k m Hi|i n ts rnd k m Hi]; unfold cid_inv in *; cbn [is_key is_servers] in *.
  - split; [done|]. intros j id. rewrite lookup_insert_Some. intros [[_ ?]|[_ Hj]]; [done|eauto].
  - split; [done|]. intros j id. rewrite lookup_insert_Some. intros [[_ Hr]|[_ Hj]]; [|eauto]. unfold init_read, GetClusterID, parse_cluster_id in Hr. destruct n; [|done..]. destruct k as [b|]; [|done].
    destruct (Hk b eq_refl) as [id' Hb]. rewrite Hb in Hr. case_bool_decide; [done|]. injection Hr as <-. eauto.
  - destruct (init_create_cases n ts rnd k Hk) as (H1 & H2 & H3). split; [done|]. intros j id. rewrite lookup_insert_Some. intros [[_ Hr]|[_ Hj]]; [by apply H3|]. destruct (Hs j id Hj) as (b & Hb & Hid). eauto.
Qed.
(** Whichever PD servers start first, whatever requests to etcd fail: all servers that get through their start have
    the same cluster id. *)
Theorem servers_agree_on_cluster (y : init_system) (i j : nat) (id id' : Z) : rtc init_step (mkInitSystem None ∅) y →
  is_servers y !! i = Some (HasID id) → is_servers y !! j = Some (HasID id') → id = id'.
Proof.
  intros Hr. assert (cid_inv y) as [_ Hs].
  { assert (cid_inv (mkInitSystem None ∅)) as H0 by done. revert H0. induction Hr as [|y1 y2 y3 Hst _ IH]; [done|]. intros H0. by eapply IH, init_step_inv. }
  intros Hi Hj. destruct (Hs i id Hi) as (b & Hb & H1), (Hs j id' Hj) as (b' & Hb' & H2). congruence.
Qed.
(** Two servers that both find no id. *)
Definition init_race : init_system := mkInitSystem (Some (Uint64ToBytes 30064771077)) (<[2%nat := HasID 30064771077]> (<[1%nat := HasID 30064771077]> (<[2%nat := Creating]> (<[1%nat := Creating]> (<[2%nat := Reading]> (<[1%nat := Reading]> ∅)))))).
Lemma init_race_steps : rtc init_step (mkInitSystem None ∅) init_race.
Proof.
  eapply rtc_l; [apply (init_start 1)|]. eapply rtc_l; [apply (init_start 2)|]. eapply rtc_l; [by apply (init_reads 1 NetOk)|]. eapply rtc_l; [by apply (init_reads 2 NetOk)|].
  eapply rtc_l; [by apply (init_creates 1 NetOk 7 5)|]. eapply rtc_l; [by apply (init_creates 2 NetOk 8 6)|]. by vm_compute.
Qed.
Lemma servers_agree_on_cluster_witness : ∃ id id', is_servers init_race !! 1%nat = Some (HasID id) ∧ is_servers init_race !! 2%nat = Some (HasID id') ∧ id = id'.
Proof. exists 30064771077, 30064771077. split; [reflexivity|]. split; [reflexivity|]. apply (servers_agree_on_cluster init_race 1 2); [apply init_race_steps|reflexivity|reflexivity]. Defined.
