(* ===== verification/PeerLoop.v ===== *)
(** * The event loop of a replicate

    The rest of pkg/raftstore/peer_raft.go and peer.go: sending raft messages,
    split checks and size reports, which peers a leader reports to PD as down or
    pending, the end of the event loop, and the ids of indexed documents. *)

From S2P Require Import Prelude Encoding Meta Keys BTree CellTree KVTree RaftTypes RaftLog RaftApply Propose Store StoreProps.

(** ** Documents *)
(** [AllocateDocID]: a block of [SliceWidth] ids is fetched from PD when the last
    one is used up; [pdID] is what PD's [AllocID] answers then.  [SliceWidth] is
    pilosa's, a power of two. *)
Definition AllocateDocID (SliceWidth : Z) (pdID : option Z) (nextDocID : Z) : option Z * Z :=
  if bool_decide (Z.land nextDocID (SliceWidth - 1) = 0) then
    match pdID with
    | None => (None, nextDocID)
    | Some id => let docID := u64 (id * SliceWidth) in (Some docID, u64 (docID + 1))
    end
  else (Some nextDocID, u64 (nextDocID + 1)).

(** Calls of the replicates of a cluster, in any order: a call of replicate [i],
    which may find PD unreachable, or a restart of its store.  [pd] are the ids PD
    will hand out. *)
Inductive doc_step := DAlloc (i : Z) (reachable : bool) | DRestart (i : Z).
Fixpoint doc_run (SliceWidth : Z) (steps : list doc_step) (pd : list Z) (next : gmap Z Z) : list Z :=
  match steps with
  | [] => []
  | DRestart i :: steps' => doc_run SliceWidth steps' pd (delete i next)
  | DAlloc i reachable :: steps' =>
      let n := default 0 (next !! i) in
      let '(doc, n') := AllocateDocID SliceWidth (if reachable then head pd else None) n in
      let pd' := if bool_decide (Z.land n (SliceWidth - 1) = 0) && reachable then tail pd else pd in
      option_list doc ++ doc_run SliceWidth steps' pd' (<[i := n']> next)
  end.

(** ** Heartbeats of peers *)
Definition putOnlyNotExist (id now : Z) (m : gmap Z Z) : gmap Z Z := match m !! id with Some _ => m | None => <[id := now]> m end.
Definition checkPeers (now : Z) (pr : PeerReplicate) (hb : gmap Z Z) : gmap Z Z :=
  if negb (pr_isLeader pr) then ∅
  else
    let peers := Peers (pr_getCell pr) in
    if bool_decide (size hb = length peers) then hb
    else foldl (λ m p, putOnlyNotExist (Peer_ID p) now m) hb peers.
(** Durations are in seconds. *)
Definition collectDownPeers (now maxDuration : Z) (pr : PeerReplicate) (hb : gmap Z Z) : list (Peer * Z) :=
  omap (λ p, if bool_decide (Peer_ID p = Peer_ID (pr_peer pr)) then None
             else match hb !! Peer_ID p with
                  | Some last => if bool_decide (maxDuration ≤ now - last) then Some (p, now - last) else None
                  | None => None
                  end) (Peers (pr_getCell pr)).

(** *** Document ids never repeat *)
Section doc_ids.
Context (k : Z) (Hk : 0 < k < 64).
Abbreviation W := (2 ^ k).

Lemma land_mod n : Z.land n (W - 1) = n `mod` W.
Proof. rewrite <-Z.land_ones, Z.ones_equiv by lia. f_equal; lia. Qed.
Lemma W_ge_2 : 2 ≤ W.
Proof. change 2 with (2 ^ 1) at 1. apply Z.pow_le_mono_r; lia. Qed.
Lemma mod_W_W b : (b * W) `mod` W = 0.
Proof. apply Z.mod_mul. pose proof W_ge_2. lia. Qed.
Lemma div_W b c : 0 ≤ c < W → (b * W + c) / W = b.
Proof. intros. rewrite Z.div_add_l by lia. rewrite Z.div_small by lia. lia. Qed.
Lemma mod_W b c : 0 ≤ c < W → (b * W + c) `mod` W = c.
Proof. intros. rewrite Z.add_comm, Z.mod_add by lia. apply Z.mod_small; lia. Qed.
(** Within a block, the next id is in the block or starts another one. *)
Lemma succ_in_block n : (n + 1) `mod` W ≠ 0 → (n + 1) / W = n / W.
Proof.
  pose proof W_ge_2. pose proof (Z.mod_pos_bound n W ltac:(lia)) as Hb. rewrite (Z.div_mod n W) at 1 2 by lia.
  intros Hm. destruct (decide (n `mod` W = W - 1)) as [He|].
  - exfalso. apply Hm. rewrite He. replace (W * (n / W) + (W - 1) + 1) with ((n / W + 1) * W) by lia. apply mod_W_W.
  - replace (W * (n / W) + (n `mod` W) + 1) with (n / W * W + (n `mod` W + 1)) by lia. apply div_W. lia.
Qed.

(** The blocks [used] so far cover the ids [docs] handed out; a replicate in the
    middle of a block is past the ids of its block, and no two share one. *)
Record docs_ok (docs pd : list Z) (next : gmap Z Z) (used : gset Z) : Prop := {
  dk_nodup : NoDup docs;
  dk_pd : NoDup pd;
  dk_fresh b : b ∈ pd → (b ∉ used) ∧ 0 ≤ b ∧ b * W + W ≤ two64;
  dk_docs d : d ∈ docs → d / W ∈ used;
  dk_next i n : next !! i = Some n → n `mod` W ≠ 0 → n / W ∈ used ∧ 0 ≤ n < two64 ∧ ∀ d, d ∈ docs → d / W = n / W → d < n;
  dk_apart i j n n' : next !! i = Some n → next !! j = Some n' → n `mod` W ≠ 0 → n / W = n' / W → n' `mod` W ≠ 0 → i = j;
}.

(** A replicate whose counter leaves its block (a failed fetch, a restart, the end
    of a block) keeps the rest as it is. *)
Lemma docs_ok_next docs pd next used next' : docs_ok docs pd next used →
  (∀ i n, next' !! i = Some n → n `mod` W ≠ 0 → next !! i = Some n) → docs_ok docs pd next' used.
Proof. intros [? ? ? ? Hn Ha] Hs. split; try done; eauto. Qed.

(** A fetched block starts a new range of ids. *)
Lemma docs_ok_fetch docs b pd next used i : docs_ok docs (b :: pd) next used →
  docs_ok (docs ++ [b * W]) pd (<[i := b * W + 1]> next) ({[b]} ∪ used).
Proof.
  intros [Hd Hpd Hf Hu Hn Ha]. pose proof W_ge_2. apply NoDup_cons in Hpd as [Hb Hpd].
  destruct (Hf b ltac:(left)) as (Hbu & Hb0 & Hbw). assert (∀ d, d ∈ docs → d / W ≠ b) as Hnb by (intros d Hin <-; eauto).
  assert ((b * W) / W = b) as Hdiv by (apply Z.div_mul; lia). assert ((b * W + 1) / W = b) as Hdiv' by (apply div_W; lia).
  split.
  - apply NoDup_app. split_and!; [done| |apply NoDup_singleton]. intros d Hin ->%list_elem_of_singleton. by apply (Hnb _ Hin).
  - done.
  - intros c Hc. destruct (Hf c ltac:(by right)) as (? & ? & ?). split; [|done]. intros [->%elem_of_singleton|]%elem_of_union; done.
  - intros d [Hin| ->%list_elem_of_singleton]%elem_of_app; apply elem_of_union; [right; eauto|left]. rewrite Hdiv. by apply elem_of_singleton.
  - intros j n [(<- & <-)|(? & Hj)]%lookup_insert_Some Hm.
    + rewrite Hdiv'. split_and!; [set_solver|lia|lia|]. intros d [Hin| ->%list_elem_of_singleton]%elem_of_app Hq; [by destruct (Hnb d)|lia].
    + destruct (Hn _ _ Hj Hm) as (? & ? & Hlt). split_and!; [set_solver|lia|lia|].
      intros d [Hin| ->%list_elem_of_singleton]%elem_of_app Hq; [eauto|]. congruence.
  - intros j j' n n' [(<- & <-)|(? & Hj)]%lookup_insert_Some [(<- & <-)|(? & Hj')]%lookup_insert_Some Hm Hq Hm'; [done|..].
    + destruct (Hn _ _ Hj' Hm') as (? & _). congruence.
    + destruct (Hn _ _ Hj Hm) as (? & _). congruence.
    + eauto.
Qed.

(** An id from the middle of a block is larger than those before it. *)
Lemma docs_ok_take docs pd next used i n : docs_ok docs pd next used → next !! i = Some n → n `mod` W ≠ 0 →
  docs_ok (docs ++ [n]) pd (<[i := u64 (n + 1)]> next) used.
Proof.
  intros [Hd Hpd Hf Hu Hn Ha] Hi Hm. pose proof W_ge_2. destruct (Hn _ _ Hi Hm) as (Hnu & Hb & Hlt). split; try done.
  - apply NoDup_app. split_and!; [done| |apply NoDup_singleton]. intros d Hin ->%list_elem_of_singleton. specialize (Hlt _ Hin eq_refl). lia.
  - intros d [Hin| ->%list_elem_of_singleton]%elem_of_app; eauto.
  - intros j m [(<- & <-)|(Hne & Hj)]%lookup_insert_Some Hmm.
    + destruct (decide (n + 1 = two64)) as [He|]; [by rewrite He in Hmm|]. rewrite u64_small in Hmm |- * by (unfold is_u64; lia).
      rewrite succ_in_block by done. split_and!; [done|lia|lia|]. intros d [Hin| ->%list_elem_of_singleton]%elem_of_app Hq; [|lia].
      specialize (Hlt _ Hin Hq). lia.
    + destruct (Hn _ _ Hj Hmm) as (? & ? & Hlt'). split_and!; [done|lia|lia|].
      intros d [Hin| ->%list_elem_of_singleton]%elem_of_app Hq; [eauto|]. destruct Hne. eauto.
  - assert (∀ m, m = u64 (n + 1) → m `mod` W ≠ 0 → m / W = n / W) as Hsame.
    { intros m -> Hmm. destruct (decide (n + 1 = two64)) as [He|]; [by rewrite He in Hmm|]. rewrite u64_small in Hmm |- * by (unfold is_u64; lia).
      by apply succ_in_block. }
    intros j j' m m' [(<- & Hj)|(? & Hj)]%lookup_insert_Some [(<- & Hj')|(? & Hj')]%lookup_insert_Some Hmm Hq Hmm'; [done|..].
    + rewrite (Hsame m) in Hq by done. eauto.
    + rewrite (Hsame m') in Hq by done. eauto.
    + eauto.
Qed.

Lemma doc_run_ok steps : ∀ docs pd next used, docs_ok docs pd next used → NoDup (docs ++ doc_run W steps pd next).
Proof.
  induction steps as [|[i reachable|i] steps IH]; intros docs pd next used Hok; simpl.
  - rewrite app_nil_r. by destruct Hok.
  - unfold AllocateDocID. rewrite land_mod. case_bool_decide as Hm; simpl.
    + assert (docs_ok docs pd (<[i := default 0 (next !! i)]> next) used) as Hok'.
      { eapply docs_ok_next; [done|]. intros j n [(<- & <-)|(? & ?)]%lookup_insert_Some ?; done. }
      destruct reachable, pd as [|b pd]; simpl; eauto. pose proof W_ge_2. destruct (dk_fresh _ _ _ _ Hok b ltac:(left)) as (_ & Hb & Hw).
      rewrite (u64_small (b * W)), u64_small by (unfold is_u64; nia). rewrite cons_middle, app_assoc. eapply IH. by apply docs_ok_fetch.
    + destruct (next !! i) as [n|] eqn:Hi; simpl in *; [|by rewrite Z.mod_0_l in Hm by (pose proof W_ge_2; lia)].
      rewrite cons_middle, app_assoc. eapply IH. by apply docs_ok_take.
  - eapply IH, docs_ok_next; [done|]. by intros j n [_ ?]%lookup_delete_Some.
Qed.
End doc_ids.

(** Document ids are unique in the cluster: whatever replicates allocate them
    in whatever order, with PD unreachable at any of the calls, stores restarting
    and blocks abandoned half used, no id is handed out twice.  PD's answers are
    distinct (its allocator's own theorem) and small enough for the product with the
    slice width to fit in 64 bits. *)
Theorem doc_ids_unique (k : Z) (steps : list doc_step) (pd : list Z) : 0 < k < 64 → NoDup pd →
  (∀ b, b ∈ pd → 0 ≤ b ∧ b * 2 ^ k + 2 ^ k ≤ two64) → NoDup (doc_run (2 ^ k) steps pd ∅).
Proof.
  intros Hk Hpd Hb. apply (doc_run_ok k Hk steps [] pd ∅ ∅). split; try done.
  - apply NoDup_nil_2.
  - intros b [??]%Hb. set_solver.
  - by intros d ?%elem_of_nil.
Qed.

(** Two replicates, one of which restarts in the middle of its block, PD failing
    once in between. *)
Lemma doc_ids_unique_witness :
  doc_run (2 ^ 20) [DAlloc 1 false; DAlloc 1 true; DAlloc 2 true; DAlloc 1 false; DRestart 1; DAlloc 1 true; DAlloc 2 true] [7; 9; 12] ∅
    = [7340032; 9437184; 7340033; 12582912; 9437185] ∧
  NoDup (doc_run (2 ^ 20) [DAlloc 1 false; DAlloc 1 true; DAlloc 2 true; DAlloc 1 false; DRestart 1; DAlloc 1 true; DAlloc 2 true] [7; 9; 12] ∅).
Proof.
  split; [vm_compute; reflexivity|]. apply (doc_ids_unique 20); [lia|by apply (bool_decide_unpack _); vm_compute|].
  intros b Hb. repeat (apply elem_of_cons in Hb as [->|Hb]; [split; vm_compute; discriminate|]). by apply not_elem_of_nil in Hb.
Defined.

Section peer_loop.
Context {E D T : Type} `{OT : !OrderedTree CellItem Less T} `{!MapOrder}.
Abbreviation storeE := (Store E D T).

Definition collectPendingPeers (pr : PeerReplicate) (s : storeE) : list Peer :=
  omap (λ '(id, p), if bool_decide (id = Peer_ID (pr_peer pr)) then None
                    else if bool_decide (Match p < getTruncatedIndex (pr_ps pr)) then s_peerCache s !! id else None)
    (map_range (Status_Progress (pr_rn pr))).

(** ** Raft messages to other peers *)
(** Votes and first heartbeats carry the range of the cell, so that the store of
    the peer can create it.  [false] when the peer is not known. *)
Definition sendRaftMsg (r : replicate) (to : Z) (m : Message) (s : storeE) : storeE * bool :=
  let toPeer := default emptyPeer (s_peerCache s !! to) in
  if bool_decide (Peer_ID toPeer = 0) then (s, false)
  else
    let c := r_cell r in
    let ranged := isInitialized (r_ps r) && (bool_decide (M_Type m = MsgVote) || (bool_decide (M_Type m = MsgHeartbeat) && bool_decide (M_Commit m = 0))) in
    (emit (SSendRaft (mkRaftMessage (Cell_ID c) (pr_peer (r_pr r)) toPeer (Epoch c) false (if ranged then Start c else []) (if ranged then End c else []) m)) s, true).
Definition send (r : replicate) (msgs : list (Z * Message)) (s : storeE) : storeE :=
  foldl (λ s '(to, m), (sendRaftMsg r to m s).1) s msgs.

(** ** Split checks and reports *)
(** The bounds of the range a split check scans, when no peer waits for a
    snapshot; the size hint starts anew unless the job queue refuses the job. *)
Definition handleCheckSplit (jobAdded : bool) (pr : PeerReplicate) : outcome encoding_error (PeerReplicate * option (CellEpoch * bytes * bytes)) :=
  if bool_decide (map_Exists (λ _ p, P_State p = ProgressStateSnapshot) (Status_Progress (pr_rn pr))) then Ok (pr, None)
  else
    let! startKey := encStartKey (pr_getCell pr) in
    let! endKey := encEndKey (pr_getCell pr) in
    let c := pr_counters pr in
    if negb jobAdded then Ok (pr, None)
    else Ok (set_counters (mkMetrics 0 (deleteKeysHint c) (writtenBytes c) (writtenKeys c)) pr, Some (Epoch (pr_getCell pr), startKey, endKey)).
(** The cells that are asked to check whether they should split. *)
Definition handleCellSplitCheck (busy : bool) (threshold : Z) (s : storeE) : list Z :=
  if busy then []
  else pr_cellID <$> filter (λ pr, pr_isLeader pr = true ∧ ¬ sizeDiffHint (pr_counters pr) < threshold) (r_pr <$> range_values (s_replicatesMap s)).
Definition handleCellReport (s : storeE) : storeE :=
  set_replicates ((λ r, let c := pr_counters (r_pr r) in set_rpr (set_counters (mkMetrics (sizeDiffHint c) (deleteKeysHint c) 0 0) (r_pr r)) r) <$> s_replicatesMap s) s.
(** The cells whose leader checks its log for compaction. *)
Definition handleRaftGCLog (s : storeE) : list Z :=
  pr_cellID <$> filter (λ pr, pr_isLeader pr = true) (r_pr <$> range_values (s_replicatesMap s)).

(** ** The end of the loop *)
(** What is in the batch and in the request queue is answered "store not match". *)
Definition answer_batch (cs : list cmd) (s : storeE) : outcome unit storeE :=
  foldl (λ o c, let! s := o in
           match c_req c with
           | None => Panic
           | Some q => match Requests q, c_cb c with
                       | [], _ => Ok s
                       | reqs, Some cb => Ok (foldl (λ s r, respStoreNotMatch r cb s) s reqs)
                       | _, None => Panic
                       end
           end) (Ok s) cs.
Definition answer_queue (reqs : list reqCtx) (s : storeE) : storeE :=
  foldl (λ s rc, match rc_cb rc, rc_req rc with Some cb, Some r => respStoreNotMatch r cb s | _, _ => s end) s reqs.
Definition stop_loop (queue : list reqCtx) (pr : PeerReplicate) (s : storeE) : outcome unit storeE :=
  let! s := answer_batch (cmds (pr_batch pr)) s in Ok (answer_queue queue s).

(** ** Messages that are sent can be received *)
(** What the stores of a cluster send each other satisfies what the routing
    invariant asks of messages. *)
Lemma sent_message_ok (s s' : storeE) id r to m : inv s → s_replicatesMap s !! id = Some r → sendRaftMsg r to m s = (s', true) →
  ∃ msg, s_effects s' = s_effects s ++ [SSendRaft msg] ∧ msg_ok msg ∧ RM_CellID msg = id ∧
    (M_Type m = MsgVote → RM_Start msg = Start (r_cell r) ∧ RM_End msg = End (r_cell r)).
Proof.
  intros Hi Hr. pose proof (i_rep s Hi _ _ Hr) as Hro. unfold sendRaftMsg. case_bool_decide; [done|]. intros [= <-].
  rewrite (rep_ok_initialized id r Hro). destruct Hro as [Hpos _ Hid _ Hv]. eexists. split; [done|]. simpl. split_and!; [split; simpl| |].
  - by rewrite Hid.
  - destruct (_ || _); [exact Hv|by left].
  - done.
  - intros Hvote. by rewrite bool_decide_eq_true_2.
Qed.
End peer_loop.
