(* ===== verification/EventLoop.v ===== *)
(** * The event loop of a replicate

    pkg/raftstore/peer_raft.go and peer.go: producers put messages, ticks, reports, results of applied entries,
    requests and actions into queues and then offer an event; the loop of the replicate takes an event and
    serves every queue.  The ring buffer of events (the vendored go-datastructures) holds two: an offer fails when it
    is full, or when another producer interferes, in which case it may even have been emptied since.  What the loop
    calls (raft, and the handlers of Propose, Store and PeerLoop) is the trace of its calls. *)

From S2P Require Import Prelude.

(** ** Items and what is done with them *)
Inductive action := checkSplit | checkCompact | doCampaign.
(** [rm_Snap]: the type is MsgSnap. *)
Record raft_msg := mkRaftMsg { rm_From : Z; rm_To : Z; rm_Snap : bool }.
(** A report that is not a message is ignored. *)
Inductive item :=
  | IStep (m : raft_msg) | ITick | IReport (m : option raft_msg) | IResult (r : Z) | IRequest (q : Z) | IAction (a : action).
Inductive kind := KStep | KTick | KReport | KResult | KRequest | KAction.
#[export] Instance kind_eq_dec : EqDecision kind.
Proof. solve_decision. Defined.
Definition kind_of (i : item) : kind :=
  match i with IStep _ => KStep | ITick => KTick | IReport _ => KReport | IResult _ => KResult | IRequest _ => KRequest | IAction _ => KAction end.
Inductive loop_call :=
  | CSeen (from : Z) | CStep (m : raft_msg) | CTick | CUnreachable (to : Z) | CSnapshotFailure (to : Z)
  | CPoll (r : Z) | CPropose (qs : list Z) | CCheckSplit | CCheckCompact | CCampaign | CReady.
(** [pr.isLeader()], [pr.stopRaftTick] and the number of peers. *)
Record flags := mkFlags { f_leader : bool; f_stopRaftTick : bool; f_peers : nat }.

Definition maybeCampaign (f : flags) : list loop_call := if bool_decide (f_peers f ≤ 1)%nat then [] else [CCampaign].
Definition handle_item (f : flags) (i : item) : list loop_call :=
  match i with
  | IStep m => (if f_leader f && negb (bool_decide (rm_From m = 0)) then [CSeen (rm_From m)] else []) ++ [CStep m]
  | ITick => if f_stopRaftTick f then [] else [CTick]
  | IReport (Some m) => CUnreachable (rm_To m) :: if rm_Snap m then [CSnapshotFailure (rm_To m)] else []
  | IReport None => []
  | IResult r => [CPoll r]
  | IRequest _ => []
  | IAction checkSplit => [CCheckSplit]
  | IAction checkCompact => [CCheckCompact]
  | IAction doCampaign => maybeCampaign f
  end.
(** The requests of a batch are packed and proposed together. *)
Definition handle_batch (f : flags) (k : kind) (its : list item) : list loop_call :=
  if bool_decide (k = KRequest) then [CPropose (omap (λ i, match i with IRequest q => Some q | _ => None end) its)] else concat (handle_item f <$> its).

(** ** The state of the loop *)
(** Where the loop is: waiting for an event, about to serve the queue of a kind, about to look for a Ready, or ended. *)
Inductive phase := Idle | Serving (k : kind) | Readying | Stopped.
Definition batch : nat := Z.to_nat 1024.
Definition ring : nat := 2.
(** [l_offers]: the producers that have put an item and not yet offered an event, with whether the loop has taken an event
    since.  [l_queues] of a disposed queue is empty. *)
Record loop := mkLoop {
  l_phase : phase;
  l_events : nat;
  l_evDisposed : bool;
  l_queues : kind → list item;
  l_disposed : bool;
  l_offers : list bool;
  l_calls : list loop_call;
}.
Definition set_queue (k : kind) (its : list item) (qs : kind → list item) : kind → list item := λ k', if decide (k' = k) then its else qs k'.
Definition newLoop : loop := mkLoop Idle 0 false (λ _, []) false [] [].
(** [addEvent] of the loop itself: afterwards there is an event. *)
Definition addEvent (l : loop) : loop :=
  if l_evDisposed l then l else mkLoop (l_phase l) (Nat.min ring (l_events l + 1)) (l_evDisposed l) (l_queues l) (l_disposed l) (l_offers l) (l_calls l).
(** The kinds in the order in which they are served; after the requests comes the Ready. *)
Definition next_phase (k : kind) : phase :=
  match k with KStep => Serving KTick | KTick => Serving KReport | KReport => Serving KResult | KResult => Serving KRequest | KRequest => Readying | KAction => Idle end.
(** A handler takes a batch of its queue, and adds an event if something is left; that of results goes on until nothing is. *)
Definition taken (k : kind) (its : list item) : list item := if bool_decide (k = KResult) then its else take batch its.
Definition left_ (k : kind) (its : list item) : list item := if bool_decide (k = KResult) then [] else drop batch its.
Definition serve (f : flags) (k : kind) (l : loop) : loop :=
  match l_queues l k with
  | [] => mkLoop (next_phase k) (l_events l) (l_evDisposed l) (l_queues l) (l_disposed l) (l_offers l) (l_calls l)
  | its =>
      let rest := left_ k its in
      let l := mkLoop (next_phase k) (l_events l) (l_evDisposed l) (set_queue k rest (l_queues l)) (l_disposed l) (l_offers l) (l_calls l ++ handle_batch f k (taken k its)) in
      if bool_decide (rest = []) then l else addEvent l
  end.
Definition handleStep (f : flags) (l : loop) : loop := serve f KStep l.
Definition handleTick (f : flags) (l : loop) : loop := serve f KTick l.
Definition handleReport (f : flags) (l : loop) : loop := serve f KReport l.
Definition handleApplyResult (f : flags) (l : loop) : loop := serve f KResult l.
Definition handleRequest (f : flags) (l : loop) : loop := serve f KRequest l.
Definition handleAction (f : flags) (l : loop) : loop := serve f KAction l.
Definition handler (k : kind) : flags → loop → loop :=
  match k with KStep => handleStep | KTick => handleTick | KReport => handleReport | KResult => handleApplyResult | KRequest => handleRequest | KAction => handleAction end.
Lemma handler_serve k f l : handler k f l = serve f k l.
Proof. by destruct k. Qed.
(** [events.Get()]: an event, or the end: all queues are disposed; what is left in the queue of requests is answered. *)
Definition get_event (l : loop) : option loop :=
  if l_evDisposed l then Some (mkLoop Stopped (l_events l) true (λ _, []) true (l_offers l) (l_calls l))
  else match l_events l with
       | O => None
       | S n => Some (mkLoop (Serving KStep) n false (l_queues l) (l_disposed l) (replicate (length (l_offers l)) true) (l_calls l))
       end.
(** A producer puts an item, which a disposed queue refuses. *)
Definition put_item (i : item) (l : loop) : option loop :=
  if l_disposed l then None
  else Some (mkLoop (l_phase l) (l_events l) (l_evDisposed l) (set_queue (kind_of i) (l_queues l (kind_of i) ++ [i]) (l_queues l)) false (l_offers l ++ [false]) (l_calls l)).
Definition step (m : raft_msg) (l : loop) : option loop := put_item (IStep m) l.
Definition report (m : option raft_msg) (l : loop) : option loop := put_item (IReport m) l.
Definition addApplyResult (r : Z) (l : loop) : option loop := put_item (IResult r) l.
Definition addRequest (q : Z) (l : loop) : option loop := put_item (IRequest q) l.
Definition addAction (a : action) (l : loop) : option loop := put_item (IAction a) l.
(** No tick while a snapshot is applied; the timer is set again unless the queue is disposed. *)
Definition onRaftTick (f : flags) (l : loop) : option loop := if f_stopRaftTick f then Some l else put_item ITick l.
Definition produce (i : item) (l : loop) : option loop :=
  match i with IStep m => step m l | ITick => onRaftTick (mkFlags false false 0) l | IReport m => report m l | IResult r => addApplyResult r l | IRequest q => addRequest q l | IAction a => addAction a l end.
Lemma produce_put i l : produce i l = put_item i l.
Proof. by destruct i. Qed.
(** ... and then offer; [Offer] fails when the ring is full, and also without need when it loses its
    compare-and-swap to another offer, or loads the position again: an event has entered the ring since, which is
    still there or which the loop has taken since. *)
Definition offer_ok (l : loop) : loop := addEvent l.
Definition drop_offer (a b : list bool) (l : loop) : loop := mkLoop (l_phase l) (l_events l) (l_evDisposed l) (l_queues l) (l_disposed l) (a ++ b) (l_calls l).
Definition stopEventLoop (l : loop) : loop := mkLoop (l_phase l) (l_events l) true (l_queues l) (l_disposed l) (l_offers l) (l_calls l).

(** ** Runs, with what happens to items *)
Inductive levent := Accepted (i : item) | Refused (i : item) | Served (k : kind) (its : list item) | Dropped (k : kind) (its : list item).
Definition all_kinds : list kind := [KStep; KTick; KReport; KResult; KRequest; KAction].
Inductive lstep : loop → list levent → loop → Prop :=
  | step_put i l l' : produce i l = Some l' → lstep l [Accepted i] l'
  | step_refuse i l : produce i l = None → lstep l [Refused i] l
  | step_offer a b seen l : l_offers l = a ++ seen :: b → lstep l [] (offer_ok (drop_offer a b l))
  | step_offer_fails a b seen l : l_offers l = a ++ seen :: b → l_events l ≠ 0%nat ∨ seen = true ∨ l_evDisposed l = true → lstep l [] (drop_offer a b l)
  | step_get l l' : l_phase l = Idle → l_evDisposed l = false → get_event l = Some l' → lstep l [] l'
  | step_end l l' : l_phase l = Idle → l_evDisposed l = true → get_event l = Some l' → lstep l ((λ k, Dropped k (l_queues l k)) <$> all_kinds) l'
  | step_serve f k l : l_phase l = Serving k → lstep l [Served k (taken k (l_queues l k))] (handler k f l)
  | step_ready (has : bool) l : l_phase l = Readying → lstep l [] (mkLoop (Serving KAction) (l_events l) (l_evDisposed l) (l_queues l) (l_disposed l) (l_offers l) (l_calls l ++ if has then [CReady] else []))
  | step_stop l : lstep l [] (stopEventLoop l).
Inductive lsteps : list levent → loop → Prop :=
  | run_new : lsteps [] newLoop
  | run_step evs l evs' l' : lsteps evs l → lstep l evs' l' → lsteps (evs ++ evs') l'.
Definition accepted (k : kind) (evs : list levent) : list item := omap (λ e, match e with Accepted i => if decide (kind_of i = k) then Some i else None | _ => None end) evs.
Definition served (k : kind) (evs : list levent) : list item := concat (omap (λ e, match e with Served k' its => if decide (k' = k) then Some its else None | _ => None end) evs).
Definition dropped (k : kind) (evs : list levent) : list item := concat (omap (λ e, match e with Dropped k' its => if decide (k' = k) then Some its else None | _ => None end) evs).

(** ** Nothing waits without an event *)
Definition order (k : kind) : nat := match k with KStep => 0 | KTick => 1 | KReport => 2 | KResult => 3 | KRequest => 4 | KAction => 6 end.
Definition at_ (p : phase) : nat := match p with Serving k => order k | Readying => 5 | _ => 7 end.
(** A queue the loop will not serve before it waits again. *)
Definition behind (p : phase) (k : kind) : Prop := (order k < at_ p)%nat.
Definition will_wake (l : loop) : Prop := l_events l ≠ 0%nat ∨ false ∈ l_offers l.
Record loop_inv (evs : list levent) (l : loop) : Prop := {
  li_wake k : l_evDisposed l = false → l_queues l k ≠ [] → behind (l_phase l) k → will_wake l;
  li_account k : served k evs ++ l_queues l k ++ dropped k evs = accepted k evs;
  li_stopped : l_phase l = Stopped → l_evDisposed l = true ∧ l_disposed l = true;
  li_disposed k : l_disposed l = true → l_queues l k = [];
  li_running k : l_disposed l = false → dropped k evs = [];
}.
Lemma loop_accepted_app k a b : accepted k (a ++ b) = accepted k a ++ accepted k b.
Proof. apply omap_app. Qed.
Lemma loop_served_app k a b : served k (a ++ b) = served k a ++ served k b.
Proof. unfold served. by rewrite omap_app, concat_app. Qed.
Lemma loop_dropped_app k a b : dropped k (a ++ b) = dropped k a ++ dropped k b.
Proof. unfold dropped. by rewrite omap_app, concat_app. Qed.
Lemma dropped_all (q : kind → list item) k : dropped k ((λ k', Dropped k' (q k')) <$> all_kinds) = q k ∧ accepted k ((λ k', Dropped k' (q k')) <$> all_kinds) = [] ∧ served k ((λ k', Dropped k' (q k')) <$> all_kinds) = [].
Proof. destruct k; split_and!; try done; apply app_nil_r. Qed.
Lemma taken_left k its : taken k its ++ left_ k its = its.
Proof. unfold taken, left_. case_bool_decide; [apply app_nil_r|apply take_drop]. Qed.
Lemma addEvent_wakes l : l_evDisposed l = false → will_wake (addEvent l).
Proof. intros Hd. left. unfold addEvent. rewrite Hd. cbn [l_events]. unfold ring. lia. Qed.
Lemma addEvent_same l : l_phase (addEvent l) = l_phase l ∧ l_evDisposed (addEvent l) = l_evDisposed l ∧ l_queues (addEvent l) = l_queues l ∧ l_disposed (addEvent l) = l_disposed l ∧ l_offers (addEvent l) = l_offers l.
Proof. unfold addEvent. by destruct (l_evDisposed l) eqn:E. Qed.
Lemma addEvent_keeps l : will_wake l → will_wake (addEvent l).
Proof. intros [He|Ho]; [left|right; by destruct (addEvent_same l) as (_ & _ & _ & _ & ->)]. unfold addEvent. destruct (l_evDisposed l); [done|]. cbn [l_events]. unfold ring. lia. Qed.
(** A step that only changes events, offers or calls. *)
Lemma loop_inv_same evs l l' : loop_inv evs l → l_queues l' = l_queues l → l_disposed l' = l_disposed l → (l_phase l' = l_phase l) → (l_evDisposed l' = false → l_evDisposed l = false) → (l_evDisposed l = true → l_evDisposed l' = true) →
  (l_evDisposed l' = false → will_wake l → will_wake l') → loop_inv (evs ++ []) l'.
Proof.
  intros [H1 H2 H3 H4 H5] Eq Ed Ep Hd Hd' Hw. rewrite app_nil_r. split; rewrite ?Eq, ?Ed, ?Ep; try done.
  - intros k Hf Hq Hb. apply Hw; [done|]. eapply H1; [auto|done|done].
  - intros Hs. destruct (H3 Hs). auto.
Qed.
Lemma loop_inv_put evs i l l' : loop_inv evs l → put_item i l = Some l' → loop_inv (evs ++ [Accepted i]) l'.
Proof.
  intros [H1 H2 H3 H4 H5] Hp. unfold put_item in Hp. destruct (l_disposed l) eqn:Hd; [done|]. injection Hp as <-. split; cbn [l_phase l_events l_evDisposed l_queues l_disposed l_offers]; try done.
  - intros k _ _ _. right. apply elem_of_app. right. by left.
  - intros k. rewrite loop_served_app, loop_dropped_app, loop_accepted_app. unfold accepted at 2, served at 2, dropped at 2. cbn. rewrite H5 by done. rewrite !app_nil_r. specialize (H2 k). rewrite H5, app_nil_r in H2 by done. rewrite <-H2. unfold set_queue.
    destruct (decide (kind_of i = k)) as [<-|Hne]; [rewrite decide_True by done; cbn; by rewrite (assoc_L (++))|]. rewrite decide_False by congruence. cbn. by rewrite app_nil_r.
  - intros k _. rewrite loop_dropped_app. unfold dropped at 2. cbn. by rewrite H5.
Qed.
Lemma inv_serve evs f k l : loop_inv evs l → l_phase l = Serving k → loop_inv (evs ++ [Served k (taken k (l_queues l k))]) (serve f k l).
Proof.
  intros [H1 H2 H3 H4 H5] Hp.
  assert (∀ k', served k' [Served k (taken k (l_queues l k))] = (if decide (k = k') then taken k (l_queues l k) else []) ∧ dropped k' [Served k (taken k (l_queues l k))] = [] ∧ accepted k' [Served k (taken k (l_queues l k))] = []) as Hev.
  { intros k'. unfold served, dropped, accepted. cbn. destruct (decide (k = k')); cbn; by rewrite ?app_nil_r. }
  assert (∀ k', behind (next_phase k) k' → k' ≠ k → behind (l_phase l) k') as Hbehind by (rewrite Hp; intros k'; destruct k, k'; unfold behind; cbn; try lia; congruence).
  assert (l_phase l ≠ Stopped) as Hns by congruence.
  assert (∀ l', (∀ k', l_queues l' k' = set_queue k (left_ k (l_queues l k)) (l_queues l) k') → l_evDisposed l' = l_evDisposed l → l_disposed l' = l_disposed l → l_phase l' = next_phase k → (l_evDisposed l = false → will_wake l → will_wake l') →
    (l_evDisposed l = false → left_ k (l_queues l k) ≠ [] → will_wake l') → loop_inv (evs ++ [Served k (taken k (l_queues l k))]) l') as Hgo.
  { intros l' Eq Ee Ed Ep Hw Hw'. split; rewrite ?Ee, ?Ed, ?Ep; try done.
    - intros k' Hf Hq Hb. rewrite Eq in Hq. unfold set_queue in Hq. destruct (decide (k' = k)) as [->|Hne]; [by apply Hw'|]. apply Hw; [done|]. by eapply H1, Hbehind.
    - intros k'. rewrite Eq, loop_served_app, loop_dropped_app, loop_accepted_app. destruct (Hev k') as (-> & -> & ->). rewrite !app_nil_r. rewrite <-(H2 k'). unfold set_queue. destruct (decide (k = k')) as [<-|Hne].
      + rewrite decide_True by done. rewrite <-(taken_left k (l_queues l k)) at 3. by rewrite <-!(assoc_L (++)).
      + rewrite decide_False by congruence. by rewrite app_nil_r.
    - by destruct k.
    - intros k' Hd. rewrite Eq. unfold set_queue. rewrite !H4 by done. unfold left_. case_decide; [|done]. case_bool_decide; [done|apply drop_nil].
    - intros k' Hd. rewrite loop_dropped_app. destruct (Hev k') as (_ & -> & _). by rewrite H5. }
  unfold serve. destruct (l_queues l k) as [|i its] eqn:Hq.
  - assert (left_ k [] = []) as Hl by (destruct k; reflexivity). apply Hgo; try done; rewrite ?Hl; try done. intros k'. cbn [l_queues]. unfold set_queue. case_decide as Hk; [by subst k'|done].
  - set (l1 := mkLoop _ _ _ _ _ _ _). case_bool_decide as Hr; [by apply Hgo|]. destruct (addEvent_same l1) as (E1 & E2 & E3 & E4 & E5). apply Hgo; [intros k'; by rewrite E3|by rewrite E2|by rewrite E4|by rewrite E1| |].
    + intros _ Hw. by apply addEvent_keeps.
    + intros Hd _. by apply addEvent_wakes.
Qed.
Lemma lstep_inv evs l evs' l' : loop_inv evs l → lstep l evs' l' → loop_inv (evs ++ evs') l'.
Proof.
  intros Hi Hs. revert Hi. destruct Hs as [i l l' Hp|i l Hp|a b seen l Ho|a b seen l Ho Hf|l l' Hp Hd Hg|l l' Hp Hd Hg|f k l Hp|has l Hp|l]; intros Hi; pose proof Hi as [H1 H2 H3 H4 H5].
  - rewrite produce_put in Hp. by eapply loop_inv_put.
  - split; try done; intros k; rewrite ?loop_served_app, ?loop_dropped_app, ?loop_accepted_app; unfold served, dropped, accepted in *; cbn; rewrite ?app_nil_r; auto.
  - destruct (addEvent_same (drop_offer a b l)) as (E1 & E2 & E3 & E4 & E5). unfold offer_ok. eapply loop_inv_same; [done|by rewrite E3|by rewrite E4|by rewrite E1|by rewrite E2|by rewrite E2|]. intros Hd _. rewrite E2 in Hd. by apply addEvent_wakes.
  - eapply loop_inv_same; [done..|]. intros Hd [He|Hin]; [by left|]. destruct Hf as [Hr|[->|Hd']]; [by left| |cbn in Hd; congruence]. right. cbn [drop_offer l_offers]. rewrite Ho in Hin. set_solver.
  - unfold get_event in Hg. rewrite Hd in Hg. destruct (l_events l) as [|n]; [done|]. injection Hg as <-. rewrite app_nil_r. split; cbn [l_phase l_queues l_disposed l_evDisposed]; try done. intros k _ _ Hb. unfold behind in Hb. cbn in Hb. lia.
  - unfold get_event in Hg. rewrite Hd in Hg. injection Hg as <-. assert (l_disposed l = false ∨ l_disposed l = true) as Hld by (destruct (l_disposed l); auto). split; cbn [l_phase l_queues l_disposed l_evDisposed]; try done.
    intros k. rewrite loop_served_app, loop_dropped_app, loop_accepted_app. destruct (dropped_all (l_queues l) k) as (-> & -> & ->). rewrite !app_nil_r. rewrite <-(H2 k). destruct Hld as [Hld|Hld]; [rewrite (H5 k Hld); by rewrite app_nil_r|rewrite (H4 k Hld); by rewrite app_nil_r].
  - rewrite handler_serve. by apply inv_serve.
  - rewrite app_nil_r. split; cbn [l_phase l_queues l_disposed l_evDisposed]; try done. intros k Hd Hq Hb. destruct (H1 k Hd Hq); [|by left|by right]. rewrite Hp. unfold behind in *. destruct k; cbn in *; lia.
  - rewrite app_nil_r. split; cbn [stopEventLoop l_phase l_queues l_disposed l_evDisposed]; try done. intros Hst. split; [done|]. by apply H3.
Qed.
Lemma lsteps_inv evs l : lsteps evs l → loop_inv evs l.
Proof. induction 1 as [|evs l evs' l' _ IH Hs]; [by split|by eapply lstep_inv]. Qed.

(** The loop alone, from one event to the next. *)
Inductive lrun : loop → list levent → loop → Prop :=
  | lrun_nil l : lrun l [] l
  | lrun_cons l evs l1 evs' l2 : lstep l evs l1 → lrun l1 evs' l2 → lrun l (evs ++ evs') l2.
Lemma serve_other f k l k' : k' ≠ k → l_queues (serve f k l) k' = l_queues l k'.
Proof.
  intros Hne. unfold serve. destruct (l_queues l k) as [|i its]; [done|]. set (l1 := mkLoop _ _ _ _ _ _ _). destruct (addEvent_same l1) as (_ & _ & E3 & _). assert (l_queues l1 k' = l_queues l k') as Hl by (cbn; unfold set_queue; by rewrite decide_False).
  case_bool_decide; [done|]. by rewrite E3.
Qed.
Lemma serve_phase f k l : l_phase (serve f k l) = next_phase k.
Proof. unfold serve. destruct (l_queues l k); [done|]. set (l1 := mkLoop _ _ _ _ _ _ _). destruct (addEvent_same l1) as (E1 & _). case_bool_decide; [done|by rewrite E1]. Qed.
Lemma round_serves (f : flags) (has : bool) (l : loop) : l_phase l = Idle → l_evDisposed l = false → l_events l ≠ 0%nat → ∃ evs' l', lrun l evs' l' ∧ l_phase l' = Idle ∧ ∀ k, served k evs' = taken k (l_queues l k).
Proof.
  intros Hp Hd He. destruct (get_event l) as [l0|] eqn:Hg; [|unfold get_event in Hg; rewrite Hd in Hg; by destruct (l_events l)].
  assert (l_phase l0 = Serving KStep ∧ ∀ k, l_queues l0 k = l_queues l k) as [Hp0 Hq0] by (unfold get_event in Hg; rewrite Hd in Hg; destruct (l_events l); [done|]; by injection Hg as <-).
  set (l1 := serve f KStep l0). set (l2 := serve f KTick l1). set (l3 := serve f KReport l2). set (l4 := serve f KResult l3). set (l5 := serve f KRequest l4).
  set (l6 := mkLoop (Serving KAction) (l_events l5) (l_evDisposed l5) (l_queues l5) (l_disposed l5) (l_offers l5) (l_calls l5 ++ if (has : bool) then [CReady] else [])). set (l7 := serve f KAction l6).
  exists ([] ++ [Served KStep (taken KStep (l_queues l0 KStep))] ++ [Served KTick (taken KTick (l_queues l1 KTick))] ++ [Served KReport (taken KReport (l_queues l2 KReport))] ++ [Served KResult (taken KResult (l_queues l3 KResult))] ++
    [Served KRequest (taken KRequest (l_queues l4 KRequest))] ++ [] ++ [Served KAction (taken KAction (l_queues l6 KAction))] ++ []), l7. split_and!.
  - apply (lrun_cons _ _ l0); [by apply step_get|]. apply (lrun_cons _ _ l1); [by apply (step_serve f KStep l0)|]. apply (lrun_cons _ _ l2); [apply (step_serve f KTick), serve_phase|]. apply (lrun_cons _ _ l3); [apply (step_serve f KReport), serve_phase|]. apply (lrun_cons _ _ l4); [apply (step_serve f KResult), serve_phase|].
    apply (lrun_cons _ _ l5); [apply (step_serve f KRequest), serve_phase|]. apply (lrun_cons _ _ l6); [apply step_ready, serve_phase|]. apply (lrun_cons _ _ l7); [by apply (step_serve f KAction)|apply lrun_nil].
  - apply serve_phase.
  - intros k. assert (∀ k1 its, served k [Served k1 its] = if decide (k1 = k) then its else []) as Hs by (intros k1 its; unfold served; cbn; destruct (decide (k1 = k)); cbn; by rewrite ?app_nil_r).
    assert (served k [] = []) as Hn by done. rewrite !loop_served_app, !Hs, !Hn. assert (l_queues l6 = l_queues l5) as H6 by done. rewrite H6. unfold l5, l4, l3, l2, l1.
    destruct k; rewrite ?decide_True by done; rewrite ?decide_False by done; rewrite ?app_nil_r, ?app_nil_l; by rewrite ?serve_other, Hq0 by done.
Qed.
(** *** What the loop calls *)
(** The messages, results and requests among the calls. *)
Definition call_items (k : kind) (cs : list loop_call) : list item :=
  concat ((λ c, match k, c with KStep, CStep m => [IStep m] | KResult, CPoll r => [IResult r] | KRequest, CPropose qs => IRequest <$> qs | _, _ => [] end) <$> cs).
Definition passed_on (k : kind) : Prop := k = KStep ∨ k = KResult ∨ k = KRequest.
Lemma call_items_app k a b : call_items k (a ++ b) = call_items k a ++ call_items k b.
Proof. unfold call_items. by rewrite fmap_app, concat_app. Qed.
Lemma handle_batch_items f k k' its : passed_on k → Forall (λ i, kind_of i = k') its → call_items k (handle_batch f k' its) = if decide (k' = k) then its else [].
Proof.
  intros Hk Hall. unfold handle_batch. case_bool_decide as Hr.
  - subst k'. assert (IRequest <$> omap (λ i, match i with IRequest q => Some q | _ => None end) its = its) as Hq.
    { induction Hall as [|i its Hi _ IH]; [done|]. destruct i; try done. cbn. by f_equal. }
    unfold call_items. cbn. destruct Hk as [->|[->| ->]]; [done|done|]. by rewrite decide_True, app_nil_r.
  - induction Hall as [|i its Hi _ IH]; [cbn; by destruct (decide (k' = k))|]. rewrite fmap_cons. cbn [concat]. rewrite call_items_app, IH. clear IH.
    destruct Hk as [->|[->| ->]], i as [m| |[m|]|r|q|[]]; cbn in Hi; subst k'; cbn; unfold call_items, maybeCampaign; cbn; repeat case_match; cbn; try done.
Qed.
Lemma accepted_kind k evs : Forall (λ i, kind_of i = k) (accepted k evs).
Proof. induction evs as [|e evs IH]; [done|]. unfold accepted in *. cbn. destruct e as [i| | |]; [|done..]. destruct (decide (kind_of i = k)); [by constructor|done]. Qed.
Lemma queue_kind evs l k : loop_inv evs l → Forall (λ i, kind_of i = k) (l_queues l k).
Proof. intros Hi. pose proof (accepted_kind k evs) as Ha. rewrite <-(li_account _ _ Hi k) in Ha. by apply Forall_app in Ha as [_ [Ha _]%Forall_app]. Qed.
Lemma taken_kind evs l k k' : loop_inv evs l → Forall (λ i, kind_of i = k) (taken k (l_queues l k)) ∧ served k' [Served k (taken k (l_queues l k))] = if decide (k = k') then taken k (l_queues l k) else [].
Proof.
  intros Hi%(queue_kind _ _ k). split; [unfold taken; case_bool_decide; [done|by apply Forall_take]|]. unfold served. cbn. destruct (decide (k = k')); cbn; by rewrite ?app_nil_r.
Qed.
Lemma serve_calls f k l : l_calls (serve f k l) = l_calls l ++ match l_queues l k with [] => [] | its => handle_batch f k (taken k its) end.
Proof. unfold serve. destruct (l_queues l k) as [|i its]; [by rewrite app_nil_r|]. set (l1 := mkLoop _ _ _ _ _ _ _). case_bool_decide; [done|]. unfold addEvent. by destruct (l_evDisposed l1). Qed.
Lemma lstep_calls evs l evs' l' k : passed_on k → loop_inv evs l → call_items k (l_calls l) = served k evs → lstep l evs' l' → call_items k (l_calls l') = served k (evs ++ evs').
Proof.
  intros Hk Hi Hc Hs. revert Hi Hc. destruct Hs as [i l l' Hp|i l Hp|a b seen l Ho|a b seen l Ho Hf|l l' Hp Hd Hg|l l' Hp Hd Hg|f k1 l Hp|has l Hp|l]; intros Hi Hc; rewrite loop_served_app, <-Hc.
  - rewrite produce_put in Hp. unfold put_item in Hp. destruct (l_disposed l); [done|]. injection Hp as <-. unfold served. cbn. by rewrite app_nil_r.
  - unfold served. cbn. by rewrite app_nil_r.
  - unfold served, offer_ok, addEvent. cbn. rewrite app_nil_r. by destruct (l_evDisposed l).
  - unfold served. cbn. by rewrite app_nil_r.
  - unfold get_event in Hg. rewrite Hd in Hg. destruct (l_events l); [done|]. injection Hg as <-. unfold served. cbn. by rewrite app_nil_r.
  - unfold get_event in Hg. rewrite Hd in Hg. injection Hg as <-. cbn [l_calls]. destruct (dropped_all (l_queues l) k) as (_ & _ & ->). by rewrite app_nil_r.
  - rewrite handler_serve, serve_calls, call_items_app. f_equal. destruct (taken_kind evs l k1 k Hi) as [Ht ->]. destruct (l_queues l k1) as [|i its] eqn:Hq; [destruct (decide (k1 = k)); [by destruct k1|done]|]. by apply handle_batch_items.
  - cbn [l_calls]. change (served k []) with (@nil item). rewrite call_items_app. f_equal. by destruct has; destruct Hk as [->|[->| ->]].
  - unfold served. cbn. by rewrite app_nil_r.
Qed.
Lemma lsteps_calls evs l k : passed_on k → lsteps evs l → call_items k (l_calls l) = served k evs.
Proof. intros Hk. induction 1 as [|evs l evs' l' Hr IH Hs]; [by destruct Hk as [->|[->| ->]]|]. by apply (lstep_calls evs l), Hs; [|apply lsteps_inv|]. Qed.
(** C8. However producers and the loop interleave, with offers that fail: of every kind, the items served, queued and
    dropped when the loop ended are those that were accepted, in their order, and messages, results and requests that were served
    were handed to their handlers in that order; a loop that waits with items in a queue has an
    event, or a producer is about to offer one whose offer cannot fail unless the ring is full; and with an event the loop serves a batch of
    every queue before it waits again. *)
Theorem event_loop_serves_items (evs : list levent) (l : loop) (f : flags) (has : bool) (k : kind) : lsteps evs l →
  served k evs ++ l_queues l k ++ dropped k evs = accepted k evs ∧
  (passed_on k → call_items k (l_calls l) = served k evs) ∧
  (l_phase l = Idle → l_evDisposed l = false → l_queues l k ≠ [] → l_events l ≠ 0%nat ∨ false ∈ l_offers l) ∧
  (l_phase l = Idle → l_evDisposed l = false → l_events l ≠ 0%nat → ∃ evs' l', lrun l evs' l' ∧ l_phase l' = Idle ∧ served k evs' = taken k (l_queues l k)).
Proof.
  intros Hr. pose proof (lsteps_inv evs l Hr) as [H1 H2 _ _ _]. split_and!; [apply H2|intros Hk; by apply lsteps_calls|intros Hp Hd Hq; apply (H1 k Hd Hq); rewrite Hp; unfold behind; destruct k; cbn; lia|].
  intros Hp Hd He. destruct (round_serves f has l Hp Hd He) as (evs' & l' & Hrun & Hp' & Hk). exists evs', l'. auto.
Qed.
(** A tick whose offer fails because another tick was offered and taken. *)
Definition tick_flags : flags := mkFlags true false 3.
Definition two_ticks : list levent := ((([] ++ [Accepted ITick]) ++ [Accepted ITick]) ++ []) ++ [].
Definition ticks_loop : loop := mkLoop (Serving KStep) 0 false (set_queue KTick [ITick; ITick] (set_queue KTick [ITick] (λ _, []))) false [true] [].
Lemma two_ticks_steps : lsteps two_ticks ticks_loop.
Proof.
  eapply run_step; [eapply run_step; [eapply run_step; [eapply run_step; [apply run_new|by apply (step_put ITick)]|by apply (step_put ITick)]|by apply (step_offer [] [false] false)]|]. by apply step_get.
Qed.
Lemma event_loop_serves_items_witness : served KTick two_ticks ++ l_queues ticks_loop KTick ++ dropped KTick two_ticks = [ITick; ITick].
Proof. exact (proj1 (event_loop_serves_items two_ticks ticks_loop tick_flags false KTick two_ticks_steps)). Defined.
