(* ===== verification/Snapshot.v ===== *)
(** * Snapshots

    pkg/raftstore/snap.go (the snapshot manager: creating, sending, receiving and
    applying the snapshot of a cell) on the files of Files, and the snapshots of
    the memory engine (pkg/storage/memory_engine_data.go).  The indexer library is
    the class [IndexerEngine]. *)

From S2P Require Import Prelude Encoding BTree Meta KVTree Keys Strconv Goetty RaftTypes RaftLog RaftApply RedisExec Propose Store Files.

(** ** Engines *)
(** [storage.DataEngine], and the [RangeDelete] of [storage.KVEngine]. *)
Class DataEngine (S : Type) := {
  CreateSnapshot : bytes → bytes → bytes → S → io unit;
  ApplySnapshot : bytes → S → disk → outcome io_error unit * S * disk;
  KV_RangeDelete : bytes → bytes → S → outcome io_error unit * S;
}.
(** github.com/deepfabric/indexer *)
Class IndexerEngine (I : Type) := {
  idx_CreateSnapshot : bytes → I → io (list Z);
  idx_ApplySnapshot : bytes → I → disk → outcome io_error unit * I * disk;
  GetDocIDFragList : I → list Z;
}.

(** *** memory_engine_data.go *)
Section memory.
Context {S : Type} `{!Engine bytes S} `{!Pool}.
Definition data_sst : bytes := [x64; x61; x74; x61; x2e; x73; x73; x74].
(** The writes of an entry; the first that fails ends the scan. *)
Fixpoint write_all_parts (file : bytes) (parts : list bytes) : io bool :=
  match parts with
  | [] => mret true
  | p :: parts' => λ d, match Write_file file p d with (Ok _, d') => write_all_parts file parts' d' | (_, d') => (Ok false, d') end
  end.
Definition entry_parts (k v : bytes) : list bytes := [Int2Bytes (Z.of_nat (length k)); Int2Bytes (Z.of_nat (length v)); k; v].
Fixpoint write_entries (file : bytes) (l : list (bytes * bytes)) : io unit :=
  match l with
  | [] => mret tt
  | (k, v) :: l' => ok ← write_all_parts file (entry_parts k v); if (ok : bool) then write_entries file l' else mret tt
  end.
Definition memory_CreateSnapshot (path start end_ : bytes) (e : S) : io unit := λ d,
  match MkdirAll path d with
  | (Ok _, d) => (Create_file (join path data_sst);; write_entries (join path data_sst) (Engine_Scan start end_ e)) d
  | (_, d) => (Ok tt, d)
  end.
(** The loop of [ApplySnapshot]. *)
Fixpoint load_entries (fuel : nat) (b : ByteBuf) (e : S) : outcome buf_error unit * S :=
  match fuel with
  | O => (Ok tt, e)
  | Datatypes.S fuel' =>
      if bool_decide (8 < Readable b)%nat then
        match (let! (_, v, b) := ReadBytes 4 b in
               let keySize := be_decode v in
               let! (_, v, b) := ReadBytes 4 b in
               let valueSize := be_decode v in
               let! (_, key, b) := ReadBytes keySize b in
               let! (_, value, b) := ReadBytes valueSize b in
               Ok (key, value, b)) with
        | Ok (key, value, b) => load_entries fuel' b (Engine_Set key value e)
        | Err err => (Err err, e)
        | Panic => (Panic, e)
        end
      else (Ok tt, e)
  end.
Definition memory_ApplySnapshot (path : bytes) (e : S) (d : disk) : outcome io_error unit * S * disk :=
  match ReadFile (join path data_sst) d with
  | (Ok data, d) =>
      if bool_decide (data = []) then (Ok tt, e, d)
      else
        let '(r, e) := load_entries (length data) (Goetty.Write data (NewByteBuf (length data))) e in
        (match r with Ok _ => Ok tt | Err _ => Err EIO | Panic => Panic end, e, d)
  | (Err err, d) => (Err err, e, d)
  | (Panic, d) => (Panic, e, d)
  end.
#[export] Instance memory_data_engine : DataEngine S := {|
  CreateSnapshot := memory_CreateSnapshot;
  ApplySnapshot := memory_ApplySnapshot;
  KV_RangeDelete start end_ e := (Ok tt, Engine_RangeDelete start end_ e) |}.
End memory.

(** ** snap.go *)
Definition creating : Z := 1.
Definition sending : Z := 2.
Record SnapshotManager := mkManager { sm_dir : bytes; sm_LimitSnapChunkBytes : nat; sm_registry : gset bytes }.
Definition underscore : byte := x5f.
Definition formatKey (h : SnapHeader) : bytes :=
  uint_text (Cell_ID (SH_Cell h)) ++ underscore :: uint_text (SH_Term h) ++ underscore :: uint_text (SH_Index h).
Definition formatKeyStep (h : SnapHeader) (step : Z) : bytes := formatKey h ++ underscore :: FormatInt64ToBytes step.
Definition tmp : bytes := [x2e; x74; x6d; x70].
Definition getPathOfSnapKey (m : SnapshotManager) (h : SnapHeader) : bytes := join (sm_dir m) (formatKey h).
Definition getPathOfSnapKeyGZ (m : SnapshotManager) (h : SnapHeader) : bytes := getPathOfSnapKey m h ++ gz.
Definition getTmpPathOfSnapKeyGZ (m : SnapshotManager) (h : SnapHeader) : bytes := getPathOfSnapKey m h ++ tmp.
Definition set_registry (r : gset bytes) (m : SnapshotManager) : SnapshotManager := mkManager (sm_dir m) (sm_LimitSnapChunkBytes m) r.
Definition Register (h : SnapHeader) (step : Z) (m : SnapshotManager) : bool * SnapshotManager :=
  if bool_decide (formatKeyStep h step ∈ sm_registry m) then (false, m) else (true, set_registry ({[formatKeyStep h step]} ∪ sm_registry m) m).
Definition Deregister (h : SnapHeader) (step : Z) (m : SnapshotManager) : SnapshotManager := set_registry (sm_registry m ∖ {[formatKeyStep h step]}) m.
Definition inRegistry (h : SnapHeader) (step : Z) (m : SnapshotManager) : bool := bool_decide (formatKeyStep h step ∈ sm_registry m).

(** mraft.SnapshotChunkMessage *)
Record SnapshotChunk := mkChunk { ch_Data : bytes; ch_FileSize : Z; ch_First : bool; ch_Last : bool }.

(** What a manager works on: the engines of the store and the indexers of its
    cells, [None] for one that cannot be opened. *)
Record snap_env (S I : Type) := mkEnv { se_data : Z → S; se_indexers : Z → option I }.
Arguments mkEnv {S I} _ _.
Arguments se_data {S I} _ _.
Arguments se_indexers {S I} _ _.
Definition SliceWidth : Z := 1048576.
Definition docid_prefix : bytes := [x64; x6f; x63; x69; x64; x2d].

Section manager.
Context {S I : Type} `{!DataEngine S, !IndexerEngine I, !Archive} (enginesMask : Z).
Abbreviation env := (snap_env S I).
(** *** Creating *)
Definition frag_start (num : Z) : Z := u64 (num * SliceWidth).
Fixpoint create_docids (path : bytes) (nums : list Z) (e : S) : io unit :=
  match nums with
  | [] => mret tt
  | num :: nums' =>
      let docIDStart := frag_start num in
      CreateSnapshot (join path (docid_prefix ++ uint_text docIDStart)) (getDocIDKey docIDStart) (getDocIDKey (u64 (docIDStart + SliceWidth))) e;;
      create_docids path nums' e
  end.
Definition Exists (m : SnapshotManager) (h : SnapHeader) : io bool := exist (getPathOfSnapKeyGZ m h).
Definition Create (m : SnapshotManager) (h : SnapHeader) (s : env) : io unit :=
  let path := getPathOfSnapKey m h in
  let gzPath := getPathOfSnapKeyGZ m h in
  match encStartKey (SH_Cell h), encEndKey (SH_Cell h) with
  | Ok start, Ok end_ =>
      let cellID := Cell_ID (SH_Cell h) in
      let db := getEngine enginesMask cellID (se_data s) in
      e1 ← exist gzPath;
      (if (e1 : bool) then mret tt
       else
         e2 ← exist path;
         (if (e2 : bool) then mret tt
          else
            CreateSnapshot path start end_ db;;
            match se_indexers s cellID with
            | None => io_fail EIndexer
            | Some idxer => numList ← idx_CreateSnapshot path idxer; create_docids path numList db
            end);;
         GZIP path);;
      Stat_Size (path ++ gz);;
      mret tt
  | _, _ => λ d, (Panic, d)
  end.
(** *** Sending *)
(** What the reads of a file give: at most the buffer, and no more than the system
    has ready ([sizes]), until the end. *)
Fixpoint cut (fuel limit : nat) (sizes : list nat) (data : bytes) : list bytes :=
  match fuel, data with
  | Datatypes.S fuel', _ :: _ =>
      let n := Nat.max 1 (Nat.min limit (default limit (head sizes))) in
      take n data :: cut fuel' limit (tail sizes) (drop n data)
  | _, _ => []
  end.
Fixpoint chunk_messages (fileSize written : Z) (parts : list bytes) : list SnapshotChunk :=
  match parts with
  | [] => []
  | p :: parts' =>
      let nr := Z.of_nat (length p) in
      mkChunk p fileSize (bool_decide (0 = written)) (bool_decide (fileSize = written + nr)) :: chunk_messages fileSize (written + nr) parts'
  end.
(** The messages written to the connection; [flushed]: how many it takes before it
    fails. *)
Definition WriteTo (m : SnapshotManager) (sizes : list nat) (flushed : option nat) (h : SnapHeader) : io (list SnapshotChunk * bool) :=
  let file := getPathOfSnapKeyGZ m h in
  e ← Exists m h;
  if negb e then io_fail EMissing
  else
    fileSize ← Stat_Size file;
    data ← ReadFile file;
    let msgs := chunk_messages fileSize 0 (cut (length data) (sm_LimitSnapChunkBytes m) sizes data) in
    mret match flushed with
         | Some n => if bool_decide (n < length msgs)%nat then (take n msgs, false) else (msgs, true)
         | None => (msgs, true)
         end.
(** *** Receiving *)
Definition remove_if_exists (p : bytes) : io unit := e ← exist p; if (e : bool) then RemoveAll p else mret tt.
Definition CleanSnap (m : SnapshotManager) (h : SnapHeader) : io unit :=
  remove_if_exists (getTmpPathOfSnapKeyGZ m h);; remove_if_exists (getPathOfSnapKeyGZ m h);; remove_if_exists (getPathOfSnapKey m h).
Definition cleanTmp (m : SnapshotManager) (h : SnapHeader) : io unit := remove_if_exists (getTmpPathOfSnapKeyGZ m h).
Definition check (m : SnapshotManager) (h : SnapHeader) (c : SnapshotChunk) : io unit :=
  let file := getTmpPathOfSnapKeyGZ m h in
  e ← exist file;
  if (e : bool) then
    size ← Stat_Size file;
    if bool_decide (ch_FileSize c = size) then Rename file (getPathOfSnapKeyGZ m h) else io_fail ESize
  else io_fail EMissing.
Definition ReceiveSnapData (m : SnapshotManager) (h : SnapHeader) (c : SnapshotChunk) : io unit :=
  (if ch_First c then cleanTmp m h else mret tt);;
  let file := getTmpPathOfSnapKeyGZ m h in
  e ← exist file;
  (if (e : bool) then syscall (λ fs, (Ok tt, fs)) else Create_file file);;
  Write_file file (ch_Data c);;
  if ch_Last c then check m h c else mret tt.
Fixpoint receive_all (m : SnapshotManager) (h : SnapHeader) (l : list SnapshotChunk) : io unit :=
  match l with [] => mret tt | c :: l' => ReceiveSnapData m h c;; receive_all m h l' end.
(** *** Applying *)
(** Calls that also change the engines. *)
Definition sio : Type := env → disk → outcome io_error unit * env * disk.
Definition then_ (a b : sio) : sio := λ s d, match a s d with (Ok _, s, d) => b s d | r => r end.
Definition files {A} (m : io A) (k : A → sio) : sio := λ s d,
  match m d with (Ok a, d) => k a s d | (Err e, d) => (Err e, s, d) | (Panic, d) => (Panic, s, d) end.
Definition done_ : sio := λ s d, (Ok tt, s, d).
Definition apply_to_engine (id : Z) (path : bytes) : sio := λ s d,
  let '(r, e, d) := ApplySnapshot path (getEngine enginesMask id (se_data s)) d in
  (r, mkEnv (set_engine enginesMask id e (se_data s)) (se_indexers s), d).
Fixpoint clear_frags (nums : list Z) : sio := λ s d,
  match nums with
  | [] => (Ok tt, s, d)
  | num :: nums' =>
      let '(r, e) := KV_RangeDelete (getDocIDKey (frag_start num)) (getDocIDKey (u64 (frag_start num + SliceWidth))) (getEngine enginesMask 1 (se_data s)) in
      let s := mkEnv (set_engine enginesMask 1 e (se_data s)) (se_indexers s) in
      match r with Ok _ => clear_frags nums' s d | Err err => (Err err, s, d) | Panic => (Panic, s, d) end
  end.
Definition clearDocIDKeys (idxer : I) : sio := clear_frags (GetDocIDFragList idxer).
Definition has_prefix (p name : bytes) : bool := bool_decide (take (length p) name = p).
Fixpoint apply_docids (id : Z) (dir : bytes) (fns : list bytes) : sio :=
  match fns with
  | [] => done_
  | fn :: fns' => then_ (if has_prefix docid_prefix fn then apply_to_engine id (join dir fn) else done_) (apply_docids id dir fns')
  end.
Definition apply_to_indexer (id : Z) (dir : bytes) (idxer : I) : sio := λ s d,
  let '(r, i, d) := idx_ApplySnapshot dir idxer d in
  (r, mkEnv (se_data s) (λ j, if decide (j = id) then Some i else se_indexers s j), d).
Definition finally (cleanup : io unit) (a : sio) : sio := λ s d, let '(r, s, d) := a s d in (r, s, (cleanup d).2).
Definition Apply (m : SnapshotManager) (h : SnapHeader) : sio :=
  let file := getPathOfSnapKeyGZ m h in
  let dir := getPathOfSnapKey m h in
  let cellID := Cell_ID (SH_Cell h) in
  files (Exists m h) (λ e,
    if negb e then λ s d, (Err EMissing, s, d)
    else finally (CleanSnap m h)
      (files (UnGZIP file (sm_dir m)) (λ _,
        finally (RemoveAll dir)
          (then_ (apply_to_engine cellID dir) (λ s d,
            match se_indexers s cellID with
            | None => (Err EIndexer, s, d)
            | Some idxer =>
                then_ (clearDocIDKeys idxer)
                  (files (Readdirnames dir) (λ fns, then_ (apply_docids cellID dir fns) (apply_to_indexer cellID dir idxer))) s d
            end))))).
End manager.
