(* ===== verification/SnapshotProps.v ===== *)
(** * Theorems on snapshots

    A snapshot that is created, sent in pieces, received and applied brings the
    data of a cell to another store; what the memory engine writes it reads back;
    a failed write goes unnoticed. *)

From S2P Require Import Prelude Encoding BTree Meta KVTree Keys Strconv Goetty Resp Codec RaftTypes RaftLog RaftApply RedisExec Propose Store Files Snapshot.

(** ** The memory engine *)
Section memory.
Context {S : Type} `{!Engine bytes S} `{!Pool}.
Definition enc_entry (kv : bytes * bytes) : bytes := concat (entry_parts kv.1 kv.2).
Definition enc_entries (l : list (bytes * bytes)) : bytes := concat (enc_entry <$> l).
(** Entries the four byte sizes can describe. *)
Definition entry_ok (kv : bytes * bytes) : Prop := kv.1 ≠ [] ∧ Z.of_nat (length kv.1) < two32 ∧ Z.of_nat (length kv.2) < two32.
Definition mkdir (p : bytes) (fs : gmap bytes node) : gmap bytes node := if present p fs then fs else <[p := FDir]> fs.
Lemma write_all_parts_calm file parts : ∀ fs b, fs !! file = Some (FFile b) →
  write_all_parts file parts (calm fs) = (Ok true, calm (<[file := FFile (b ++ concat parts)]> fs)).
Proof.
  induction parts as [|p parts IH]; intros fs b Hf; cbn [write_all_parts concat]; [by rewrite app_nil_r, insert_id|].
  unfold Write_file, calm at 1. cbn [d_faults d_files tail]. rewrite (append_file _ _ _ b) by done.
  change (mkDisk ?f []) with (calm f). rewrite (IH _ (b ++ p)) by (by rewrite lookup_insert_eq). by rewrite insert_insert_eq, <-(assoc_L (++)).
Qed.
Lemma write_entries_calm file l : ∀ fs b, fs !! file = Some (FFile b) →
  write_entries file l (calm fs) = (Ok tt, calm (<[file := FFile (b ++ enc_entries l)]> fs)).
Proof.
  induction l as [|[k v] l IH]; intros fs b Hf; cbn [write_entries]; [unfold enc_entries; simpl; by rewrite app_nil_r, insert_id|].
  rewrite (bind_ok _ _ _ _ _ (write_all_parts_calm _ _ _ _ Hf)). rewrite (IH _ (b ++ enc_entry (k, v))) by (by rewrite lookup_insert_eq).
  rewrite insert_insert_eq. unfold enc_entries. rewrite fmap_cons. cbn [concat]. by rewrite <-(assoc_L (++)).
Qed.
Lemma memory_create_calm path s t (e : S) fs :
  memory_CreateSnapshot path s t e (calm fs) = (Ok tt, calm (<[join path data_sst := FFile (enc_entries (Engine_Scan s t e))]> (mkdir path fs))).
Proof.
  unfold memory_CreateSnapshot, MkdirAll, syscall, calm at 1. cbn [d_faults d_files tail]. change (if present path fs then fs else _) with (mkdir path fs).
  unfold mbind at 1, io_bind at 1, Create_file, syscall. cbn [d_faults d_files tail]. change (mkDisk ?f []) with (calm f).
  rewrite (write_entries_calm _ _ _ []) by (by rewrite lookup_insert_eq). by rewrite insert_insert_eq.
Qed.

(** *** Reading them back *)
Definition puts (l : list (bytes * bytes)) (e : S) : S := foldl (λ e '(k, v), Engine_Set k v e) e l.
Lemma read_size b n rest : wf b → content b = Int2Bytes (Z.of_nat n) ++ rest →
  ∃ b', ReadBytes 4 b = Ok (4%nat, Int2Bytes (Z.of_nat n), b') ∧ wf b' ∧ content b' = rest.
Proof.
  intros Hw Hc. pose proof (length_Int2Bytes (Z.of_nat n)) as Hl.
  destruct (ReadBytes_app b _ rest Hw Hc) as (b' & Hr & ? & ? & _); [intros Hnil; by rewrite Hnil in Hl|]. rewrite Hl in Hr. eauto.
Qed.
Lemma read_part b (p rest : bytes) : wf b → content b = p ++ rest →
  ∃ b', ReadBytes (Z.of_nat (length p)) b = Ok (length p, p, b') ∧ wf b' ∧ content b' = rest.
Proof.
  intros Hw Hc. destruct p as [|c p]; [by exists b|]. destruct (ReadBytes_app b (c :: p) rest Hw Hc) as (b' & ? & ? & ? & _); [done|]. eauto.
Qed.
Lemma enc_entry_app k v rest : enc_entry (k, v) ++ rest = Int2Bytes (Z.of_nat (length k)) ++ Int2Bytes (Z.of_nat (length v)) ++ k ++ v ++ rest.
Proof. unfold enc_entry, entry_parts. simpl. by rewrite app_nil_r, <-!(assoc_L (++)). Qed.
Lemma length_enc_entry k v : length (enc_entry (k, v)) = (8 + length k + length v)%nat.
Proof. pose proof (enc_entry_app k v []) as Heq. rewrite app_nil_r in Heq. rewrite Heq, !length_app, !length_Int2Bytes. simpl. lia. Qed.
Lemma load_entries_ok l : ∀ fuel b (e : S), wf b → content b = enc_entries l → Forall entry_ok l → (length l < fuel)%nat →
  load_entries fuel b e = (Ok tt, puts l e).
Proof.
  induction l as [|[k v] l IH]; intros fuel b e Hw Hc Hok Hf; destruct fuel as [|fuel]; [simpl in Hf; lia..| |simpl in Hf; lia|]; cbn [load_entries].
  - pose proof (length_content b Hw) as Hl. rewrite Hc in Hl. simpl in Hl. rewrite bool_decide_eq_false_2 by lia. done.
  - inversion_clear Hok as [|?? [Hk [Hks Hvs]] Hok']. cbn [fst snd] in *. unfold enc_entries in Hc. rewrite fmap_cons in Hc. cbn [concat] in Hc.
    pose proof (length_content b Hw) as Hl. rewrite Hc, length_app, length_enc_entry in Hl.
    assert (0 < length k)%nat by (destruct k; [done|simpl; lia]). rewrite bool_decide_eq_true_2 by lia. rewrite enc_entry_app in Hc.
    destruct (read_size b _ _ Hw Hc) as (b1 & -> & Hw1 & Hc1). cbn [outcome_bind]. rewrite decode_Int2Bytes by lia.
    destruct (read_size b1 _ _ Hw1 Hc1) as (b2 & -> & Hw2 & Hc2). cbn [outcome_bind]. rewrite decode_Int2Bytes by lia.
    destruct (read_part b2 k _ Hw2 Hc2) as (b3 & -> & Hw3 & Hc3). cbn [outcome_bind].
    destruct (read_part b3 v _ Hw3 Hc3) as (b4 & -> & Hw4 & Hc4). cbn [outcome_bind]. apply IH; [done|done|done|simpl in Hf; lia].
Qed.
Lemma memory_apply_calm path l (e : S) fs : fs !! join path data_sst = Some (FFile (enc_entries l)) → Forall entry_ok l →
  memory_ApplySnapshot path e (calm fs) = (Ok tt, puts l e, calm fs).
Proof.
  intros Hf Hok. unfold memory_ApplySnapshot. rewrite (ReadFile_calm _ _ _ Hf). case_bool_decide as Hnil.
  - destruct l as [|[k v] l]; [done|]. apply (f_equal length) in Hnil. unfold enc_entries in Hnil. rewrite fmap_cons in Hnil. cbn [concat] in Hnil.
    rewrite length_app, length_enc_entry in Hnil. simpl in Hnil. lia.
  - assert (length l < length (enc_entries l))%nat as Hlt.
    { assert (l ≠ []) as Hne by (by intros ->). clear - Hne. induction l as [|[k v] l IH]; [done|]. unfold enc_entries in *. rewrite fmap_cons. cbn [concat length].
      rewrite length_app, length_enc_entry. destruct l as [|kv l]; [simpl; lia|]. specialize (IH ltac:(done)). lia. }
    destruct (NewByteBuf_content (length (enc_entries l))) as [Hw Hc]. destruct (Write_content (enc_entries l) _ Hw) as [Hw' Hc']. rewrite Hc in Hc'.
    by rewrite (load_entries_ok l).
Qed.

(** *** The map of an engine after entries were put *)
(** The entries of [m] that [P] selects, over [o]. *)
Definition over (P : bytes → bool) (m : gmap bytes bytes) (o : bytes → option bytes) (k : bytes) : option bytes :=
  if P k then match m !! k with Some v => Some v | None => o k end else o k.
Definition in_range (s t k : bytes) : bool := bool_decide (ble s k ∧ below_end (scan_includes_end (E := S)) k t).
Lemma puts_wf l : ∀ e : S, eng_wf e → eng_wf (puts l e).
Proof. induction l as [|[k v] l IH]; intros e He; [done|]. apply IH. by apply eng_set_wf. Qed.
Lemma puts_map (l : list (bytes * bytes)) (m : gmap bytes bytes) (k : bytes) : ∀ e : S, eng_wf e → (∀ k v, (k, v) ∈ l → m !! k = Some v) →
  eng_map (puts l e) !! k = if bool_decide (k ∈ l.*1) then m !! k else eng_map e !! k.
Proof.
  induction l as [|[k1 v1] l IH]; intros e He Hm; [done|]. change (puts ((k1, v1) :: l) e) with (puts l (Engine_Set k1 v1 e)).
  rewrite IH by (try apply eng_set_wf; auto; intros ?? Hin; apply Hm; by apply elem_of_cons; right). rewrite eng_set_map by done.
  destruct (decide (k ∈ l.*1)) as [Hin|Hout].
  - rewrite !bool_decide_eq_true_2; [done| |done]. rewrite fmap_cons. by apply elem_of_cons; right.
  - rewrite (bool_decide_eq_false_2 (k ∈ l.*1)) by done. destruct (decide (k1 = k)) as [->|Hne].
    + rewrite lookup_insert_eq, bool_decide_eq_true_2 by (rewrite fmap_cons; by apply elem_of_cons; left). symmetry. apply Hm. by apply elem_of_cons; left.
    + rewrite lookup_insert_ne by done. rewrite bool_decide_eq_false_2; [done|]. rewrite fmap_cons. simpl. intros [->|?]%elem_of_cons; done.
Qed.
(** Putting what a scan of another engine gave. *)
Lemma puts_scan s t (e1 e : S) k : eng_wf e1 → eng_wf e →
  eng_map (puts (Engine_Scan s t e1) e) !! k = over (in_range s t) (eng_map e1) (λ k, eng_map e !! k) k.
Proof.
  intros H1 He. rewrite (puts_map _ (eng_map e1)); [|done|intros ?? Hin; by apply eng_scan_elem in Hin as [? _]]. unfold over, in_range.
  destruct (decide (k ∈ (Engine_Scan s t e1).*1)) as [Hin|Hout].
  - rewrite bool_decide_eq_true_2 by done. apply list_elem_of_fmap in Hin as ([k' v] & -> & (Hm & Hr)%eng_scan_elem); [|done]. simpl.
    by rewrite bool_decide_eq_true_2, Hm by done.
  - rewrite bool_decide_eq_false_2 by done. case_bool_decide as Hr; [|done]. destruct (eng_map e1 !! k) as [v|] eqn:Hm; [|done].
    destruct Hout. apply list_elem_of_fmap. exists (k, v). split; [done|]. by apply eng_scan_elem.
Qed.
Lemma over_or P Q m o k : over P m (over Q m o) k = over (λ k, P k || Q k) m o k.
Proof. unfold over. destruct (P k), (Q k), (m !! k) eqn:Hm; simpl; rewrite ?Hm; done. Qed.
End memory.

(** ** Sending and receiving *)
Lemma cut_concat limit : ∀ fuel sizes data, (length data ≤ fuel)%nat → concat (cut fuel limit sizes data) = data ∧ Forall (λ p, p ≠ []) (cut fuel limit sizes data).
Proof.
  induction fuel as [|fuel IH]; intros sizes data Hf; [destruct data; [done|simpl in Hf; lia]|]. destruct data as [|c data]; [done|].
  cbn [cut]. set (n := Nat.max 1 _). assert (1 ≤ n)%nat as Hn by lia. destruct (IH (tail sizes) (drop n (c :: data))) as [H1 H2].
  { rewrite length_drop. cbn [length] in *. lia. }
  cbn [concat]. rewrite H1, take_drop. split; [done|]. constructor; [|done]. destruct n; [lia|]. done.
Qed.
Section receiving.
Context (m : SnapshotManager) (h : SnapHeader).
Abbreviation tmpf := (getTmpPathOfSnapKeyGZ m h).
Abbreviation gzf := (getPathOfSnapKeyGZ m h).
Lemma within_self p : within p p.
Proof. by left. Qed.
Lemma present_file p fs n : fs !! p = Some n → present p fs = true.
Proof. intros Hp. apply present_spec. exists p. split; [by exists n|apply within_self]. Qed.
(** A chunk that follows others. *)
Lemma receive_next c fs b : ch_First c = false → fs !! tmpf = Some (FFile b) →
  ReceiveSnapData m h c (calm fs) =
    if ch_Last c then
      if bool_decide (ch_FileSize c = Z.of_nat (length (b ++ ch_Data c))) then (Ok tt, calm (<[gzf := FFile (b ++ ch_Data c)]> (delete tmpf fs)))
      else (Err ESize, calm (<[tmpf := FFile (b ++ ch_Data c)]> fs))
    else (Ok tt, calm (<[tmpf := FFile (b ++ ch_Data c)]> fs)).
Proof.
  intros Hfirst Hf. unfold ReceiveSnapData. rewrite Hfirst. rewrite (bind_ok _ _ _ tt (calm fs)) by done.
  rewrite (bind_ok _ _ _ _ _ (exist_calm _ _)), (present_file _ _ _ Hf). rewrite (bind_ok _ _ _ tt (calm fs)) by done.
  rewrite (bind_ok _ _ _ tt (calm (<[tmpf := FFile (b ++ ch_Data c)]> fs))) by (unfold Write_file; simpl; by rewrite (append_file _ _ _ b)).
  destruct (ch_Last c); [|done]. unfold check. assert (<[tmpf:=FFile (b ++ ch_Data c)]> fs !! tmpf = Some (FFile (b ++ ch_Data c))) as Hnew by (by rewrite lookup_insert_eq).
  rewrite (bind_ok _ _ _ _ _ (exist_calm _ _)), (present_file _ _ _ Hnew), (bind_ok _ _ _ _ _ (Stat_Size_calm _ _ _ Hnew)).
  case_bool_decide; [|done]. unfold Rename, syscall. simpl. rewrite Hnew. unfold calm. by rewrite delete_insert_eq.
Qed.
Lemma receive_rest parts : ∀ fs b, fs !! tmpf = Some (FFile b) → b ≠ [] → parts ≠ [] → Forall (λ p, p ≠ []) parts →
  receive_all m h (chunk_messages (Z.of_nat (length (b ++ concat parts))) (Z.of_nat (length b)) parts) (calm fs) =
    (Ok tt, calm (<[gzf := FFile (b ++ concat parts)]> (delete tmpf fs))).
Proof.
  induction parts as [|p parts IH]; intros fs b Hf Hb Hne Hall; [done|]. inversion_clear Hall as [|?? Hp Hall']. cbn [chunk_messages receive_all concat].
  assert (0 < length b)%nat by (destruct b; [done|simpl; lia]). set (c := mkChunk _ _ _ _).
  assert (ch_First c = false) as Hfirst by (apply bool_decide_eq_false_2; lia). destruct parts as [|q parts].
  - cbn [concat] in *. rewrite app_nil_r in *. assert (ReceiveSnapData m h c (calm fs) = (Ok tt, calm (<[gzf := FFile (b ++ p)]> (delete tmpf fs)))) as Hr.
    { rewrite (receive_next c fs b Hfirst Hf). unfold c. cbn [ch_Last ch_FileSize ch_Data concat]. rewrite ?app_nil_r.
      by rewrite !bool_decide_eq_true_2 by (rewrite ?length_app; lia). }
    by rewrite (bind_ok _ _ _ _ _ Hr).
  - inversion_clear Hall' as [|?? Hq Hall]. assert (0 < length q)%nat by (destruct q; [done|simpl; lia]).
    assert (ReceiveSnapData m h c (calm fs) = (Ok tt, calm (<[tmpf := FFile (b ++ p)]> fs))) as Hr.
    { rewrite (receive_next c fs b Hfirst Hf). unfold c. cbn [ch_Last ch_Data]. rewrite bool_decide_eq_false_2; [done|]. cbn [concat]. rewrite !length_app. lia. }
    rewrite (bind_ok _ _ _ _ _ Hr). rewrite app_assoc. replace (Z.of_nat (length b) + Z.of_nat (length p)) with (Z.of_nat (length (b ++ p))) by (rewrite length_app; lia).
    rewrite IH; [|by rewrite lookup_insert_eq|by destruct b|done|by constructor]. by rewrite delete_insert_eq.
Qed.
(** Whatever an earlier attempt has left, the pieces of a file that arrive in order
    make up that file. *)
Lemma receive_file data limit sizes fs : data ≠ [] →
  receive_all m h (chunk_messages (Z.of_nat (length data)) 0 (cut (length data) limit sizes data)) (calm fs) =
    (Ok tt, calm (<[gzf := FFile data]> (delete tmpf (if present tmpf fs then remove_all tmpf fs else fs)))).
Proof.
  intros Hne. destruct (cut_concat limit (length data) sizes data) as [Hcat Hall]; [done|]. set (parts := cut _ _ _ _) in *.
  destruct parts as [|p parts]; [by subst data|]. inversion_clear Hall as [|?? Hp Hall']. cbn [chunk_messages receive_all].
  set (fs0 := if present tmpf fs then remove_all tmpf fs else fs). set (c := mkChunk _ _ _ _).
  assert (present tmpf fs0 = false) as Habs.
  { unfold fs0. destruct (present tmpf fs) eqn:Hpr; [|done]. apply present_false. intros q Hw. by rewrite remove_all_lookup, decide_True. }
  assert (fs0 !! tmpf = None) as Hnone by (apply eq_None_not_Some; intros [n Hn]; by rewrite (present_file _ _ _ Hn) in Habs).
  assert (∀ F, ReceiveSnapData m h c F = (cleanTmp m h;; ReceiveSnapData m h (mkChunk (ch_Data c) (ch_FileSize c) false (ch_Last c))) F) as Hsplit by done.
  rewrite (bind_ok _ _ _ tt (calm (if ch_Last c then <[gzf := FFile p]> (delete tmpf fs0) else <[tmpf := FFile p]> fs0))).
  - destruct parts as [|q parts].
    + cbn [concat] in Hcat. rewrite app_nil_r in Hcat. subst p. unfold c. cbn [ch_Last]. rewrite bool_decide_eq_true_2 by lia. done.
    + inversion_clear Hall' as [|?? Hq Hall]. assert (0 < length q)%nat by (destruct q; [done|simpl; lia]). unfold c. cbn [ch_Last].
      rewrite bool_decide_eq_false_2 by (rewrite <-Hcat; cbn [concat]; rewrite !length_app; lia). rewrite Z.add_0_l, <-Hcat. change (concat (p :: q :: parts)) with (p ++ concat (q :: parts)).
      rewrite receive_rest; [|by rewrite lookup_insert_eq|done|done|by constructor]. by rewrite delete_insert_eq.
  - rewrite Hsplit. assert (cleanTmp m h (calm fs) = (Ok tt, calm fs0)) as Hclean.
    { unfold cleanTmp, remove_if_exists, fs0. rewrite (bind_ok _ _ _ _ _ (exist_calm _ _)). by destruct (present tmpf fs). }
    rewrite (bind_ok _ _ _ _ _ Hclean). unfold ReceiveSnapData. cbn [ch_First ch_Data ch_Last]. rewrite (bind_ok _ _ _ tt (calm fs0)) by done.
    rewrite (bind_ok _ _ _ _ _ (exist_calm _ _)), Habs. rewrite (bind_ok _ _ _ tt (calm (<[tmpf := FFile []]> fs0))) by done.
    rewrite (bind_ok _ _ _ tt (calm (<[tmpf := FFile p]> fs0))).
    2:{ unfold Write_file. simpl. rewrite (append_file _ _ _ []) by (by rewrite lookup_insert_eq). by rewrite insert_insert_eq. }
    destruct (ch_Last c) eqn:Hlast; [|done]. unfold check. assert (<[tmpf:=FFile p]> fs0 !! tmpf = Some (FFile p)) as Hnew by (by rewrite lookup_insert_eq).
    rewrite (bind_ok _ _ _ _ _ (exist_calm _ _)), (present_file _ _ _ Hnew), (bind_ok _ _ _ _ _ (Stat_Size_calm _ _ _ Hnew)).
    unfold c in *. cbn [ch_Last ch_FileSize] in *. apply bool_decide_eq_true in Hlast. rewrite bool_decide_eq_true_2 by lia.
    unfold Rename, syscall. simpl. rewrite Hnew. unfold calm. by rewrite delete_insert_eq.
Qed.
End receiving.

(** ** The indexer *)
(** What the manager relies on: a snapshot of an indexer is some files of its own
    below the directory, and they can be loaded again. *)
Class IndexerLaws (I : Type) `{!IndexerEngine I} := {
  idx_nums : I → list Z;
  idx_files : I → list (bytes * bytes);
  idx_create path i fs : idx_CreateSnapshot path i (calm fs) = (Ok (idx_nums i), calm (placed (path ++ [slash]) (idx_files i) fs));
  idx_nodup i : NoDup (idx_files i).*1;
  idx_names i r : r ∈ (idx_files i).*1 → has_prefix docid_prefix (first_component r) = false ∧ r ≠ data_sst;
  idx_apply dir i j fs : (∀ r b, (r, b) ∈ idx_files j → fs !! join dir r = Some (FFile b)) →
    ∃ i', idx_ApplySnapshot dir i (calm fs) = (Ok tt, i', calm fs);
}.

Section transfer.
Context {S I : Type} `{!Engine bytes S, !Pool, !IndexerEngine I, !IndexerLaws I, !Archive} (enginesMask : Z).
Abbreviation env := (snap_env S I).
Abbreviation engine id s := (getEngine enginesMask id (se_data (S := S) (I := I) s)).

(** *** The files of a snapshot *)
Definition docname (num : Z) : bytes := docid_prefix ++ uint_text (frag_start num).
Definition frag_end (num : Z) : Z := u64 (frag_start num + SliceWidth).
Definition frag_scan (num : Z) (e : S) : list (bytes * bytes) := Engine_Scan (getDocIDKey (frag_start num)) (getDocIDKey (frag_end num)) e.
Definition in_frag (num : Z) (k : bytes) : bool := in_range (S := S) (getDocIDKey (frag_start num)) (getDocIDKey (frag_end num)) k.
Definition doc_file (path : bytes) (num : Z) : bytes := join (join path (docname num)) data_sst.
Definition doc_files (path : bytes) (nums : list Z) (e : S) (fs : gmap bytes node) : gmap bytes node :=
  foldl (λ fs num, <[doc_file path num := FFile (enc_entries (frag_scan num e))]> (mkdir (join path (docname num)) fs)) fs nums.
Lemma create_docids_calm path nums (e : S) : ∀ fs, create_docids path nums e (calm fs) = (Ok tt, calm (doc_files path nums e fs)).
Proof.
  induction nums as [|num nums IH]; intros fs; [done|]. cbn [create_docids]. unfold CreateSnapshot, memory_data_engine.
  rewrite (bind_ok _ _ _ _ _ (memory_create_calm _ _ _ _ _)). apply IH.
Qed.
Lemma mkdir_file d fs q b : mkdir d fs !! q = Some (FFile b) ↔ fs !! q = Some (FFile b).
Proof.
  unfold mkdir. destruct (present d fs) eqn:Hp; [done|]. destruct (decide (d = q)) as [->|Hne]; [|by rewrite lookup_insert_ne].
  rewrite lookup_insert_eq. split; [done|]. intros Hq. by rewrite (present_file _ _ _ Hq) in Hp.
Qed.
Lemma doc_file_same path num num' : doc_file path num = doc_file path num' → frag_start num = frag_start num'.
Proof.
  unfold doc_file, docname, join. intros Heq. apply app_inv_tail in Heq. apply app_inv_head in Heq. injection Heq as Heq.
  destruct (uint_text_spec (frag_start num)) as (_ & _ & <-); [apply u64_bounds|]. destruct (uint_text_spec (frag_start num')) as (_ & _ & <-); [apply u64_bounds|]. by rewrite Heq.
Qed.
Lemma doc_files_lookup path nums (e : S) q b : ∀ fs, doc_files path nums e fs !! q = Some (FFile b) ↔
  (∃ num, num ∈ nums ∧ q = doc_file path num ∧ b = enc_entries (frag_scan num e)) ∨
  (∀ num, num ∈ nums → q ≠ doc_file path num) ∧ fs !! q = Some (FFile b).
Proof.
  induction nums as [|num nums IH]; intros fs; simpl.
  { split; [intros Hq; right; split; [by intros ? ?%elem_of_nil|done]|]. intros [(? & ?%elem_of_nil & _)|[_ ?]]; done. }
  rewrite IH. destruct (decide (q = doc_file path num)) as [->|Hne].
  - rewrite lookup_insert_eq. split.
    + intros [(n & Hin & Heq & ->)|[_ [= <-]]]; left; [exists n; split; [by apply elem_of_cons; right|done]|exists num; split; [by apply elem_of_cons; left|done]].
    + intros [(n & [->|Hin]%elem_of_cons & Heq & ->)|[Hn _]]; [|by left; exists n|by destruct (Hn num); [apply elem_of_cons; left|]].
      destruct (decide (List.Exists (λ n, doc_file path n = doc_file path num) nums)) as [Hex|Hno].
      * apply Exists_exists in Hex as (n & Hin & Hn). left. exists n. split_and!; [done|done|]. apply doc_file_same in Hn. unfold frag_scan, frag_end. by rewrite Hn.
      * right. split; [|done]. intros n Hin Hn. apply Hno. apply Exists_exists. by exists n.
  - rewrite lookup_insert_ne by done. rewrite mkdir_file. split.
    + intros [(n & Hin & Heq & ->)|[Hn Hq]]; [left; exists n; split; [by apply elem_of_cons; right|done]|right; split; [|done]].
      intros n [->|Hin]%elem_of_cons; [done|by apply Hn].
    + intros [(n & [->|Hin]%elem_of_cons & Heq & ->)|[Hn Hq]]; [done|by left; exists n|right; split; [|done]]. intros n Hin. apply Hn. by apply elem_of_cons; right.
Qed.
Lemma join_join p q r : join (join p q) r = join p (join q r).
Proof. unfold join. by rewrite <-(assoc_L (++)). Qed.
Lemma join_slash p r : (p ++ [slash]) ++ r = join p r.
Proof. unfold join. by rewrite <-(assoc_L (++)). Qed.
Definition snap_files (path start end_ : bytes) (e : S) (i : I) (fs : gmap bytes node) : gmap bytes node :=
  doc_files path (idx_nums i) e (placed (path ++ [slash]) (idx_files i) (<[join path data_sst := FFile (enc_entries (Engine_Scan start end_ e))]> (mkdir path fs))).
(** The names and contents of what a snapshot consists of. *)
Definition part_of (start end_ : bytes) (e : S) (i : I) (r b : bytes) : Prop :=
  r = data_sst ∧ b = enc_entries (Engine_Scan start end_ e) ∨ (r, b) ∈ idx_files i ∨
  ∃ num, num ∈ idx_nums i ∧ r = join (docname num) data_sst ∧ b = enc_entries (frag_scan num e).
Lemma docname_no_slash num : slash ∉ docname num.
Proof.
  unfold docname. intros [Hin|Hin]%elem_of_app; [by repeat (apply elem_of_cons in Hin as [?|Hin]; [done|]); apply elem_of_nil in Hin|].
  destruct (uint_text_spec (frag_start num)) as (Hd & _); [apply u64_bounds|]. rewrite Forall_forall in Hd. destruct (Hd _ Hin) as [Hge _]. by apply Hge.
Qed.
Lemma docname_prefix num r : has_prefix docid_prefix (first_component (join (docname num) r)) = true.
Proof. rewrite first_component_join by apply docname_no_slash. unfold has_prefix, docname. by rewrite take_app_length, bool_decide_eq_true_2. Qed.
Lemma doc_file_path path num : doc_file path num = join path (join (docname num) data_sst).
Proof. apply join_join. Qed.
Lemma snap_files_lookup path start end_ e i fs r b : (∀ q, within path q → fs !! q = None) →
  snap_files path start end_ e i fs !! join path r = Some (FFile b) ↔ part_of start end_ e i r b.
Proof.
  intros Hnone. unfold snap_files, part_of. rewrite doc_files_lookup. setoid_rewrite doc_file_path.
  destruct (placed_lookup (path ++ [slash]) (idx_files i) (<[join path data_sst:=FFile (enc_entries (Engine_Scan start end_ e))]> (mkdir path fs)) (join path r) (idx_nodup i)) as [Hin Hout].
  assert (has_prefix docid_prefix (first_component data_sst) = false) as Hplain by done. split.
  - intros [(num & Hnum & Heq%join_inj & ->)|[Hno Hq]]; [right; right; eauto|].
    destruct (decide (r ∈ (idx_files i).*1)) as [Hr|Hr].
    + apply list_elem_of_fmap in Hr as ([r' b'] & -> & Hr). cbn [fst] in *. rewrite (Hin r' b' Hr (eq_sym (join_slash _ _))) in Hq. injection Hq as <-. auto.
    + rewrite Hout in Hq by (intros nm Heq; rewrite join_slash in Heq; apply join_inj in Heq as <-; done).
      destruct (decide (r = data_sst)) as [->|Hne]; [rewrite lookup_insert_eq in Hq; injection Hq as <-; auto|].
      rewrite lookup_insert_ne in Hq by (intros Heq%join_inj; done). apply mkdir_file in Hq. rewrite Hnone in Hq by (right; rewrite strip_join; eauto). done.
  - intros [[-> ->]|[Hr|(num & Hnum & -> & ->)]]; [right; split|right; split|left; eauto].
    + intros num _ Heq%join_inj. rewrite Heq, docname_prefix in Hplain. done.
    + rewrite Hout; [by rewrite lookup_insert_eq|]. intros nm Heq Hnm. rewrite join_slash in Heq. apply join_inj in Heq as <-. by destruct (idx_names i _ Hnm).
    + intros num _ Heq%join_inj. assert (r ∈ (idx_files i).*1) as [Hp _]%idx_names by (apply list_elem_of_fmap; by exists (r, b)). by rewrite Heq, docname_prefix in Hp.
    + by apply (Hin r b Hr); rewrite join_slash.
Qed.

(** *** The sender *)
Lemma Create_calm m h (s : env) i start end_ fs : encStartKey (SH_Cell h) = Ok start → encEndKey (SH_Cell h) = Ok end_ → se_indexers s (Cell_ID (SH_Cell h)) = Some i →
  (∀ q, within (getPathOfSnapKey m h) q ∨ within (getPathOfSnapKeyGZ m h) q → fs !! q = None) →
  let F := snap_files (getPathOfSnapKey m h) start end_ (engine (Cell_ID (SH_Cell h)) s) i fs in
  ∃ data, Create enginesMask m h s (calm fs) = (Ok tt, calm (<[getPathOfSnapKeyGZ m h := FFile data]> F)) ∧
    unpack data = (packed_files (getPathOfSnapKey m h) F, true) ∧ data ≠ [].
Proof.
  intros Hs He Hi Hnone F. set (path := getPathOfSnapKey m h) in *. set (e := engine _ s) in *.
  assert (present path F = true) as Hp.
  { assert (F !! join path data_sst = Some (FFile (enc_entries (Engine_Scan start end_ e)))) as Hf by (apply snap_files_lookup; [auto|by left]).
    apply present_spec. exists (join path data_sst). split; [by rewrite Hf|]. right. rewrite strip_join. eauto. }
  destruct (GZIP_calm path F Hp) as (data & Hg & Hu & Hd). exists data. split; [|done]. unfold Create. rewrite Hs, He. fold path e.
  rewrite (bind_ok _ _ _ _ _ (exist_calm _ _)). rewrite (present_false (getPathOfSnapKeyGZ m h)) by auto.
  erewrite (bind_ok _ _ _ tt).
  2:{ rewrite (bind_ok _ _ _ _ _ (exist_calm _ _)). rewrite (present_false path) by auto. erewrite (bind_ok _ _ _ tt); [exact Hg|].
      unfold CreateSnapshot, memory_data_engine. rewrite (bind_ok _ _ _ _ _ (memory_create_calm _ _ _ _ _)), Hi.
      rewrite (bind_ok _ _ _ _ _ (idx_create _ _ _)). apply create_docids_calm. }
  assert (<[path ++ gz := FFile data]> F !! (path ++ gz) = Some (FFile data)) as Hgz by (by rewrite lookup_insert_eq).
  by rewrite (bind_ok _ _ _ _ _ (Stat_Size_calm _ _ _ Hgz)).
Qed.
Lemma WriteTo_calm m h fs data sizes : fs !! getPathOfSnapKeyGZ m h = Some (FFile data) →
  WriteTo m sizes None h (calm fs) = (Ok (chunk_messages (Z.of_nat (length data)) 0 (cut (length data) (sm_LimitSnapChunkBytes m) sizes data), true), calm fs).
Proof.
  intros Hf. unfold WriteTo, Exists. rewrite (bind_ok _ _ _ _ _ (exist_calm _ _)), (present_file _ _ _ Hf). cbn [negb].
  by rewrite (bind_ok _ _ _ _ _ (Stat_Size_calm _ _ _ Hf)), (bind_ok _ _ _ _ _ (ReadFile_calm _ _ _ Hf)).
Qed.

(** *** The receiver *)
Definition engines_ok (s : env) : Prop := ∀ id, eng_wf (engine id s).
Lemma engine_set id id' e (s : env) : getEngine enginesMask id (set_engine enginesMask id' e (se_data s)) =
  if bool_decide (Z.land enginesMask id = Z.land enginesMask id') then e else engine id s.
Proof. unfold getEngine, set_engine. case_decide; [by rewrite bool_decide_eq_true_2|by rewrite bool_decide_eq_false_2]. Qed.
Lemma engines_ok_set id e (s : env) i : engines_ok s → eng_wf e → engines_ok (mkEnv (set_engine enginesMask id e (se_data s)) i).
Proof. intros Hs He id'. cbn [se_data]. rewrite engine_set. by case_bool_decide. Qed.
Definition frag_deleted (num : Z) (k : bytes) : bool := bool_decide (ble (getDocIDKey (frag_start num)) k ∧ blt k (getDocIDKey (frag_end num))).
Definition cleared (id : Z) (nums : list Z) (k : bytes) : bool :=
  bool_decide (Z.land enginesMask id = Z.land enginesMask 1) && existsb (λ num, frag_deleted num k) nums.
Lemma clear_frags_calm id nums : ∀ (s : env) d, engines_ok s → ∃ s', clear_frags enginesMask nums s d = (Ok tt, s', d) ∧ engines_ok s' ∧ se_indexers s' = se_indexers s ∧
  ∀ k, eng_map (engine id s') !! k = if cleared id nums k then None else eng_map (engine id s) !! k.
Proof.
  unfold cleared. induction nums as [|num nums IH]; intros s d Hs; cbn [clear_frags existsb].
  { exists s. split_and!; [done|done|done|]. intros k. by rewrite andb_false_r. }
  cbn [KV_RangeDelete memory_data_engine]. fold (frag_end num). set (e := Engine_RangeDelete _ _ _).
  assert (eng_wf e) as He by (apply eng_rangeDelete_wf, Hs). destruct (IH (mkEnv (set_engine enginesMask 1 e (se_data s)) (se_indexers s)) d) as (s' & -> & Hok & Hi & Hk);
    [by apply engines_ok_set|]. exists s'. split_and!; [done|done|done|]. intros k. rewrite Hk. cbn [se_data]. rewrite engine_set.
  case_bool_decide as Hm; [|done]. cbn [andb]. destruct (existsb _ nums); [by rewrite orb_true_r|]. rewrite orb_false_r.
  unfold e. rewrite eng_rangeDelete_lookup by apply Hs. unfold frag_deleted. case_decide; case_bool_decide; try done. f_equal. unfold getEngine. by rewrite Hm.
Qed.
(** What the directories of documents that are applied bring. *)
Lemma apply_docids_calm id dir (e1 : S) (nums : list Z) fs (fns : list bytes) : eng_wf e1 → Forall entry_ok (map_to_list (eng_map e1)) →
  (∀ num, num ∈ nums → fs !! doc_file dir num = Some (FFile (enc_entries (frag_scan num e1)))) →
  (∀ fn, fn ∈ fns → has_prefix docid_prefix fn = true → ∃ num, num ∈ nums ∧ fn = docname num) →
  ∀ s : env, engines_ok s → ∃ s' (ns : list Z), apply_docids enginesMask id dir fns s (calm fs) = (Ok tt, s', calm fs) ∧ engines_ok s' ∧ se_indexers s' = se_indexers s ∧
    (∀ n, n ∈ ns → n ∈ nums) ∧ (∀ n, n ∈ nums → docname n ∈ fns → ∃ n', n' ∈ ns ∧ frag_start n' = frag_start n) ∧
    ∀ k, eng_map (engine id s') !! k = over (λ k, existsb (λ n, in_frag n k) ns) (eng_map e1) (λ k, eng_map (engine id s) !! k) k.
Proof.
  intros He1 Hfit Hfiles. induction fns as [|fn fns IH]; intros Hfns s Hs; cbn [apply_docids].
  { exists s, []. split_and!; [done|done|done|by intros ? ?%elem_of_nil|by intros ? ? ?%elem_of_nil|done]. }
  unfold then_. destruct (has_prefix docid_prefix fn) eqn:Hp.
  - destruct (Hfns fn ltac:(by apply elem_of_cons; left) Hp) as (num & Hnum & ->). unfold apply_to_engine. cbn [ApplySnapshot memory_data_engine].
    rewrite (memory_apply_calm _ (frag_scan num e1)); [|by apply Hfiles|].
    2:{ rewrite Forall_forall in *. intros [k v] (Hk & _)%eng_scan_elem; [|done]. apply Hfit. by apply elem_of_map_to_list. }
    cbv beta iota. set (e := puts _ _). assert (eng_wf e) as He by (apply puts_wf, Hs).
    destruct (IH ltac:(intros ? ?; apply Hfns; by apply elem_of_cons; right) (mkEnv (set_engine enginesMask id e (se_data s)) (se_indexers s))) as (s' & ns & -> & Hok & Hi & Hin & Hall & Hk);
      [by apply engines_ok_set|]. exists s', (ns ++ [num]). split_and!; [done|done|done| | |].
    + intros n [?| ->%list_elem_of_singleton]%elem_of_app; auto.
    + intros n Hn [Heq|Hin']%elem_of_cons.
      * exists num. split; [apply elem_of_app; right; by apply list_elem_of_singleton|]. symmetry. apply (doc_file_same dir). unfold doc_file. by rewrite Heq.
      * destruct (Hall n Hn Hin') as (n' & ? & ?). exists n'. split; [by apply elem_of_app; left|done].
    + intros k. rewrite Hk. cbn [se_data]. assert (∀ k, eng_map (getEngine enginesMask id (set_engine enginesMask id e (se_data s))) !! k =
        over (in_frag num) (eng_map e1) (λ k, eng_map (engine id s) !! k) k) as Hnew.
      { intros k'. rewrite engine_set, bool_decide_eq_true_2 by done. unfold e, frag_scan. by rewrite puts_scan. }
      unfold over at 1. rewrite Hnew. change (over (λ k, existsb (λ n, in_frag n k) ns) (eng_map e1) (over (in_frag num) (eng_map e1) (λ k, eng_map (engine id s) !! k)) k = 
        over (λ k, existsb (λ n, in_frag n k) (ns ++ [num])) (eng_map e1) (λ k, eng_map (engine id s) !! k) k).
      rewrite over_or. unfold over. rewrite existsb_app. cbn [existsb]. by rewrite orb_false_r.
  - cbn [done_]. destruct (IH ltac:(intros ? ?; apply Hfns; by apply elem_of_cons; right) s Hs) as (s' & ns & Hr & Hok & Hi & Hin & Hall & Hk).
    exists s', ns. unfold done_. split_and!; [done|done|done|done| |done]. intros n Hn [Heq|Hin']%elem_of_cons; [|by apply Hall].
    exfalso. pose proof (docname_prefix n []) as Hd. rewrite first_component_join in Hd by apply docname_no_slash. by rewrite Heq, Hp in Hd.
Qed.

(** *** Paths of a snapshot *)
Definition header_ok (h : SnapHeader) : Prop := is_u64 (Cell_ID (SH_Cell h)) ∧ is_u64 (SH_Term h) ∧ is_u64 (SH_Index h).
Lemma uint_no_slash n : 0 ≤ n → slash ∉ uint_text n.
Proof. intros Hn Hin. destruct (uint_text_spec n Hn) as (Hd & _). rewrite Forall_forall in Hd. destruct (Hd _ Hin) as [Hge _]. by apply Hge. Qed.
Lemma formatKey_plain h : header_ok h → slash ∉ formatKey h.
Proof.
  intros (H1 & H2 & H3). unfold formatKey. rewrite !not_elem_of_app, !not_elem_of_cons, !not_elem_of_app, !not_elem_of_cons.
  split_and!; try done; apply uint_no_slash; [apply H1|apply H2|apply H3].
Qed.
(** A suffix that does not begin with a slash leads to another place. *)
Lemma suffix_apart p x q c x' : x = c :: x' → c ≠ slash → within (p ++ x) q → ¬ within p q.
Proof.
  intros -> Hc. rewrite !within_spec. unfold join. intros [->|[r ->]] [Heq|[r' Heq]].
  - apply (f_equal length) in Heq. rewrite length_app in Heq. simpl in Heq. lia.
  - apply app_inv_head in Heq. congruence.
  - apply (f_equal length) in Heq. rewrite !length_app in Heq. simpl in Heq. lia.
  - rewrite <-(assoc_L (++)) in Heq. apply app_inv_head in Heq. simpl in Heq. congruence.
Qed.
Lemma gz_tmp_apart p q : within (p ++ tmp) q → ¬ within (p ++ gz) q.
Proof.
  rewrite !within_spec. unfold join, tmp, gz. intros [->|[r ->]] [Heq|[r' Heq]]; rewrite <-?(assoc_L (++)) in Heq; apply app_inv_head in Heq; done.
Qed.
Lemma placed_below (mS mR : SnapshotManager) (h : SnapHeader) (F R : gmap bytes node) (r b : bytes) : header_ok h → (∀ q, within (getPathOfSnapKey mR h) q → R !! q = None) →
  let G := placed (sm_dir mR) (packed_files (getPathOfSnapKey mS h) F) R in
  (∀ r n, G !! join (getPathOfSnapKey mR h) r = Some n → ∃ b, n = FFile b ∧ F !! join (getPathOfSnapKey mS h) r = Some (FFile b)) ∧
  (F !! join (getPathOfSnapKey mS h) r = Some (FFile b) → G !! join (getPathOfSnapKey mR h) r = Some (FFile b)) ∧
  (∀ q, ¬ within (getPathOfSnapKey mR h) q → G !! q = R !! q).
Proof.
  intros Hok Hnone G. assert (base (getPathOfSnapKey mS h) [] = formatKey h) as Hbase by (apply base_join, formatKey_plain, Hok).
  assert (∀ r, sm_dir mR ++ slash :: join (formatKey h) r = join (getPathOfSnapKey mR h) r) as Hplace by (intros r0; unfold getPathOfSnapKey; by rewrite join_join).
  pose proof (packed_files_nodup (getPathOfSnapKey mS h) F) as Hnd. split_and!.
  - intros r0 n Hn. destruct (placed_lookup (sm_dir mR) (packed_files (getPathOfSnapKey mS h) F) R (join (getPathOfSnapKey mR h) r0) Hnd) as [Hin Hout]. fold G in Hin, Hout.
    destruct (decide (slash :: join (formatKey h) r0 ∈ (packed_files (getPathOfSnapKey mS h) F).*1)) as [Hl|Hl].
    + apply list_elem_of_fmap in Hl as ([nm b0] & Hnm & Hl). cbn [fst] in Hnm. subst nm. rewrite (Hin _ _ Hl) in Hn by (by rewrite Hplace). injection Hn as <-.
      exists b0. split; [done|]. apply packed_files_elem in Hl as (r1 & Heq & Hf). rewrite Hbase in Heq. injection Heq as ->%join_inj. done.
    + rewrite Hout in Hn; [rewrite Hnone in Hn by (right; rewrite strip_join; eauto); done|]. intros nm Heq. rewrite <-Hplace in Heq. by apply app_inv_head in Heq as <-.
  - intros Hf. destruct (placed_lookup (sm_dir mR) (packed_files (getPathOfSnapKey mS h) F) R (join (getPathOfSnapKey mR h) r) Hnd) as [Hin _].
    apply (Hin (slash :: join (formatKey h) r) b); [|by rewrite Hplace]. apply packed_files_elem. exists r. by rewrite Hbase.
  - intros q Hq. apply (placed_lookup (sm_dir mR) (packed_files (getPathOfSnapKey mS h) F) R q Hnd). intros nm -> Hnm.
    apply list_elem_of_fmap in Hnm as ([nm' b0] & -> & (r1 & -> & _)%packed_files_elem). cbn [fst] in Hq. rewrite Hbase, Hplace in Hq. apply Hq. right. rewrite strip_join. eauto.
Qed.
Lemma Readdirnames_calm dir fs : ∃ fns, Readdirnames dir (calm fs) = (Ok fns, calm fs) ∧
  ∀ fn, fn ∈ fns ↔ ∃ r n, fs !! join dir r = Some n ∧ fn = first_component r.
Proof.
  eexists. split; [reflexivity|]. intros fn. rewrite elem_of_remove_dups, list_elem_of_omap. split.
  - intros ([q n] & Hin%elem_of_map_to_list & Hq). destruct (strip dir q) as [r|] eqn:Hr; [|done]. apply strip_Some in Hr as ->. injection Hq as <-. eauto.
  - intros (r & n & Hn & ->). exists (join dir r, n). split; [by apply elem_of_map_to_list|]. by rewrite strip_join.
Qed.
Lemma remove_if_exists_calm p fs : ∃ fs', remove_if_exists p (calm fs) = (Ok tt, calm fs') ∧ ∀ q, fs' !! q = if decide (within p q) then None else fs !! q.
Proof.
  unfold remove_if_exists. rewrite (bind_ok _ _ _ _ _ (exist_calm _ _)). destruct (present p fs) eqn:Hp.
  - eexists. split; [apply RemoveAll_calm|]. intros q. apply remove_all_lookup.
  - exists fs. split; [done|]. intros q. case_decide as Hw; [|done]. apply eq_None_not_Some. intros Hq. apply not_true_iff_false in Hp. apply Hp. apply present_spec. eauto.
Qed.
Lemma CleanSnap_calm m h fs : ∃ fs', CleanSnap m h (calm fs) = (Ok tt, calm fs') ∧
  ∀ q, fs' !! q = if decide (within (getPathOfSnapKey m h) q ∨ within (getPathOfSnapKeyGZ m h) q ∨ within (getTmpPathOfSnapKeyGZ m h) q) then None else fs !! q.
Proof.
  unfold CleanSnap. destruct (remove_if_exists_calm (getTmpPathOfSnapKeyGZ m h) fs) as (f1 & H1 & L1). destruct (remove_if_exists_calm (getPathOfSnapKeyGZ m h) f1) as (f2 & H2 & L2).
  destruct (remove_if_exists_calm (getPathOfSnapKey m h) f2) as (f3 & H3 & L3). exists f3. rewrite (bind_ok _ _ _ _ _ H1), (bind_ok _ _ _ _ _ H2). split; [done|].
  intros q. rewrite L3, L2, L1. repeat case_decide; tauto.
Qed.
Lemma files_ok {A} (m : io A) (k : A → @sio S I) s d a d' : m d = (Ok a, d') → files m k s d = k a s d'.
Proof. intros Hm. unfold files. by rewrite Hm. Qed.
Lemma then_ok (a b : @sio S I) s d s' d' : a s d = (Ok tt, s', d') → then_ a b s d = b s' d'.
Proof. intros Ha. unfold then_. by rewrite Ha. Qed.
Lemma finally_ok c (a : @sio S I) s d r s' d' d2 : a s d = (r, s', d') → (c d').2 = d2 → finally c a s d = (r, s', d2).
Proof. intros Ha <-. unfold finally. by rewrite Ha. Qed.

(** *** Applying *)
Definition snapshot_over (start end_ : bytes) (m : gmap bytes bytes) (id : Z) (nums frags : list Z) (o : bytes → option bytes) : bytes → option bytes :=
  over (λ k, existsb (λ n, in_frag n k) nums) m (λ k, if cleared id frags k then None else over (in_range (S := S) start end_) m o k).
Lemma scan_fits s t (e : S) : eng_wf e → Forall entry_ok (map_to_list (eng_map e)) → Forall entry_ok (Engine_Scan s t e).
Proof. intros He Hfit. rewrite Forall_forall in *. intros [k v] (Hk & _)%eng_scan_elem; [|done]. apply Hfit. by apply elem_of_map_to_list. Qed.
Lemma same_frags (ns nums : list Z) k : (∀ n, n ∈ ns → n ∈ nums) → (∀ n, n ∈ nums → ∃ n', n' ∈ ns ∧ frag_start n' = frag_start n) →
  existsb (λ n, in_frag n k) ns = existsb (λ n, in_frag n k) nums.
Proof.
  intros Hsub Hall. apply eq_bool_prop_intro. rewrite !Is_true_true, !existsb_exists. split.
  - intros (n & Hn%list_elem_of_In & ?). exists n. split; [by apply list_elem_of_In, Hsub|done].
  - intros (n & (n' & Hn' & Heq)%list_elem_of_In%Hall & Hf). exists n'. split; [by apply list_elem_of_In|]. unfold in_frag, frag_end in *. by rewrite Heq.
Qed.
Lemma Apply_calm (mR : SnapshotManager) (h : SnapHeader) (rcv : env) (e1 : S) (iS iR : I) (start end_ : bytes) (R : gmap bytes node) (data : bytes) (l : list (bytes * bytes)) :
  let path := getPathOfSnapKey mR h in
  let cid := Cell_ID (SH_Cell h) in
  let G := placed (sm_dir mR) l R in
  R !! getPathOfSnapKeyGZ mR h = Some (FFile data) → unpack data = (l, true) → se_indexers rcv cid = Some iR → engines_ok rcv → eng_wf e1 →
  Forall entry_ok (map_to_list (eng_map e1)) → (∀ r b, part_of start end_ e1 iS r b → G !! join path r = Some (FFile b)) →
  (∀ r n, G !! join path r = Some n → ∃ b, part_of start end_ e1 iS r b) →
  ∃ rcv' fs2, Apply enginesMask mR h rcv (calm R) = (Ok tt, rcv', calm fs2) ∧
    (∀ k, eng_map (engine cid rcv') !! k = snapshot_over start end_ (eng_map e1) cid (idx_nums iS) (GetDocIDFragList iR) (λ k, eng_map (engine cid rcv) !! k) k) ∧
    ∀ q, fs2 !! q = if decide (within path q ∨ within (getPathOfSnapKeyGZ mR h) q ∨ within (getTmpPathOfSnapKeyGZ mR h) q) then None else G !! q.
Proof.
  intros path cid G Hgz Hu Hi Hok He1 Hfit Hpart Honly.
  set (e2 := puts (Engine_Scan start end_ e1) (engine cid rcv)). assert (eng_wf e2) as He2 by (apply puts_wf, Hok).
  set (s1 := mkEnv (set_engine enginesMask cid e2 (se_data rcv)) (se_indexers rcv)). assert (engines_ok s1) as Hs1 by (by apply engines_ok_set).
  destruct (clear_frags_calm cid (GetDocIDFragList iR) s1 (calm G) Hs1) as (s2 & Hclear & Hs2 & Hi2 & Hk2).
  destruct (Readdirnames_calm path G) as (fns & Hdir & Hfns).
  destruct (apply_docids_calm cid path e1 (idx_nums iS) G fns He1 Hfit) with (s := s2) as (s3 & ns & Hdocs & Hs3 & Hi3 & Hsub & Hall & Hk3); [| |done|].
  { intros num Hn. rewrite doc_file_path. apply Hpart. right. right. eauto. }
  { intros fn (r & n & (b & [[-> _]|[Hr|(num & Hnum & -> & _)]])%Honly & ->)%Hfns Hp; [done| |].
    - assert (r ∈ (idx_files iS).*1) as [Hno _]%idx_names by (apply list_elem_of_fmap; by exists (r, b)). congruence.
    - exists num. split; [done|]. apply first_component_join, docname_no_slash. }
  destruct (idx_apply path iR iS G) as [i' Hidx]; [intros r b Hr; apply Hpart; right; by left|].
  destruct (CleanSnap_calm mR h (remove_all path G)) as (fs2 & Hclean & Hfs2).
  eexists (mkEnv (se_data s3) (λ j, if decide (j = cid) then Some i' else se_indexers s3 j)), fs2. split_and!.
  - unfold Apply, Exists. rewrite (files_ok _ _ _ _ _ _ (exist_calm _ _)), (present_file _ _ _ Hgz). cbn [negb].
    eapply finally_ok; [|by rewrite Hclean]. rewrite (files_ok _ _ _ _ _ _ (UnGZIP_calm _ _ _ _ _ Hgz Hu)). fold G.
    eapply (finally_ok _ _ _ _ _ _ (calm G)); [|done]. fold path cid. rewrite (then_ok _ _ _ _ s1 (calm G)).
    2:{ unfold apply_to_engine. cbn [ApplySnapshot memory_data_engine]. rewrite (memory_apply_calm _ (Engine_Scan start end_ e1)); [done|apply Hpart; by left|by apply scan_fits]. }
    cbn [se_indexers s1]. rewrite Hi. unfold clearDocIDKeys. rewrite (then_ok _ _ _ _ _ _ Hclear), (files_ok _ _ _ _ _ _ Hdir), (then_ok _ _ _ _ _ _ Hdocs).
    unfold apply_to_indexer. by rewrite Hidx.
  - intros k. cbn [se_data]. rewrite Hk3. unfold snapshot_over, over at 1 3. rewrite (same_frags ns (idx_nums iS) k Hsub).
    2:{ intros n Hn. apply Hall; [done|]. apply Hfns. exists (join (docname n) data_sst), (FFile (enc_entries (frag_scan n e1))). split; [apply Hpart; right; right; eauto|].
        symmetry. apply first_component_join, docname_no_slash. }
    assert (∀ k, eng_map (engine cid s2) !! k = if cleared cid (GetDocIDFragList iR) k then None else over (in_range (S := S) start end_) (eng_map e1) (λ k, eng_map (engine cid rcv) !! k) k) as Hmid.
    { intros k'. rewrite Hk2. case_match; [done|]. cbn [se_data s1]. rewrite engine_set, bool_decide_eq_true_2 by done. unfold e2. apply puts_scan; [done|apply Hok]. }
    by rewrite Hmid.
  - intros q. rewrite Hfs2, remove_all_lookup. repeat case_decide; tauto.
Qed.

(** C10. A snapshot moves a cell: created by one store, sent in pieces of any
    sizes, received by another store, whatever an earlier attempt left there, and
    applied, it gives the engine of the receiver every key of the cell the sender
    has, with the sender's value, and the documents of its index; the documents the
    receiver's index had are forgotten, all other keys are kept.  Afterwards the
    receiver has no file of the snapshot, and its other files are as before. *)
Theorem snapshot_moves_cell (mS mR : SnapshotManager) (h : SnapHeader) (snd rcv : env) (iS iR : I) (start end_ : bytes) (fsS fsR : gmap bytes node) (sizes : list nat) :
  let cid := Cell_ID (SH_Cell h) in
  let m := eng_map (engine cid snd) in
  header_ok h → (0 < sm_LimitSnapChunkBytes mS)%nat → encStartKey (SH_Cell h) = Ok start → encEndKey (SH_Cell h) = Ok end_ →
  se_indexers snd cid = Some iS → se_indexers rcv cid = Some iR → engines_ok snd → engines_ok rcv → Forall entry_ok (map_to_list m) →
  (∀ q, within (getPathOfSnapKey mS h) q ∨ within (getPathOfSnapKeyGZ mS h) q → fsS !! q = None) →
  (∀ q, within (getPathOfSnapKey mR h) q → fsR !! q = None) →
  ∃ fsS' chunks fsR1 rcv' fsR2,
    Create enginesMask mS h snd (calm fsS) = (Ok tt, calm fsS') ∧
    WriteTo mS sizes None h (calm fsS') = (Ok (chunks, true), calm fsS') ∧
    receive_all mR h chunks (calm fsR) = (Ok tt, calm fsR1) ∧
    Apply enginesMask mR h rcv (calm fsR1) = (Ok tt, rcv', calm fsR2) ∧
    (∀ k, eng_map (engine cid rcv') !! k = snapshot_over start end_ m cid (idx_nums iS) (GetDocIDFragList iR) (λ k, eng_map (engine cid rcv) !! k) k) ∧
    ∀ q, fsR2 !! q = if decide (within (getPathOfSnapKey mR h) q ∨ within (getPathOfSnapKeyGZ mR h) q ∨ within (getTmpPathOfSnapKeyGZ mR h) q) then None else fsR !! q.
Proof.
  intros cid m Hh _ Hst Hen HiS HiR HokS HokR Hfit HnS HnR.
  destruct (Create_calm mS h snd iS start end_ fsS Hst Hen HiS HnS) as (data & Hc & Hu & Hd). set (F := snap_files _ _ _ _ _ _) in *.
  assert (<[getPathOfSnapKeyGZ mS h := FFile data]> F !! getPathOfSnapKeyGZ mS h = Some (FFile data)) as Hgz by (by rewrite lookup_insert_eq).
  set (R := <[getPathOfSnapKeyGZ mR h := FFile data]> (delete (getTmpPathOfSnapKeyGZ mR h) (if present (getTmpPathOfSnapKeyGZ mR h) fsR then remove_all (getTmpPathOfSnapKeyGZ mR h) fsR else fsR))).
  assert (∀ q, ¬ within (getPathOfSnapKeyGZ mR h) q → ¬ within (getTmpPathOfSnapKeyGZ mR h) q → R !! q = fsR !! q) as HR.
  { intros q Hg Ht. unfold R. rewrite lookup_insert_ne by (intros <-; apply Hg, within_self). rewrite lookup_delete_ne by (intros <-; apply Ht, within_self).
    case_match; [|done]. by rewrite remove_all_lookup, decide_False. }
  assert (∀ q, within (getPathOfSnapKey mR h) q → R !! q = None) as HRn.
  { intros q Hw. rewrite HR; [by apply HnR| |]; intros Hw2; revert Hw; by eapply suffix_apart; [| |exact Hw2]. }
  assert (∀ r b, F !! join (getPathOfSnapKey mS h) r = Some (FFile b) ↔ part_of start end_ (engine cid snd) iS r b) as HF by (intros r b; apply snap_files_lookup; auto).
  set (G := placed (sm_dir mR) (packed_files (getPathOfSnapKey mS h) F) R).
  destruct (Apply_calm mR h rcv (engine cid snd) iS iR start end_ R data (packed_files (getPathOfSnapKey mS h) F)) as (rcv' & fs2 & Ha & Hk & Hfs2); try done.
  - unfold R. by rewrite lookup_insert_eq.
  - intros r b Hp%HF. by apply (placed_below mS mR h F R r b Hh HRn).
  - intros r n Hn. destruct (placed_below mS mR h F R r [] Hh HRn) as [Honly _]. destruct (Honly r n Hn) as (b & _ & Hb%HF). eauto.
  - exists (<[getPathOfSnapKeyGZ mS h := FFile data]> F), (chunk_messages (Z.of_nat (length data)) 0 (cut (length data) (sm_LimitSnapChunkBytes mS) sizes data)), R, rcv', fs2.
    split_and!; [done|by apply WriteTo_calm|by apply receive_file|done|done|]. intros q. rewrite Hfs2. case_decide as Hw; [done|].
    destruct (placed_below mS mR h F R q [] Hh HRn) as (_ & _ & Hother). rewrite Hother by tauto. apply HR; tauto.
Qed.
End transfer.

(** ** A store with one cell *)
#[local] Instance no_indexer : IndexerEngine unit := {|
  idx_CreateSnapshot _ _ := mret []; idx_ApplySnapshot _ i d := (Ok tt, i, d); GetDocIDFragList _ := [] |}.
#[local] Instance no_indexer_laws : IndexerLaws unit.
Proof. refine {| idx_nums _ := []; idx_files _ := [] |}; [done|intros; constructor|by intros ? ? ?%elem_of_nil|eauto]. Defined.
(** The bytes of a list of files as strings of bits behind a header. *)
#[local] Instance bits_archive : Archive.
Proof.
  refine {| pack l := ([x1f], pos_bytes (encode l)); unpack b := match decode (bytes_pos (tail b)) with Some l => (l, true) | None => ([], false) end |}; [|done].
  intros l. simpl. by rewrite bytes_pos_bytes, decode_encode.
Defined.
Abbreviation tree := (list (treeItem bytes)).
Definition a_cell : Cell := mkCell 5 [] [] (mkCellEpoch 1 1) [mkPeer 7 1].
Definition a_header : SnapHeader := mkSnapHeader a_cell emptyPeer emptyPeer 2 9.
Definition a_manager (dir : byte) : SnapshotManager := mkManager [dir] 4 ∅.
Definition a_key (c : byte) : bytes := getDataKey [c].
Definition store_of (l : list (bytes * bytes)) : snap_env tree unit := mkEnv (λ _, puts l eng_empty) (λ _, Some tt).
Lemma snapshot_moves_cell_witness : ∃ fsS' chunks fsR1 rcv' fsR2,
  Create 0 (a_manager x61) a_header (store_of [(a_key x01, [x07])]) (calm ∅) = (Ok tt, calm fsS') ∧
  WriteTo (a_manager x61) [1; 3]%nat None a_header (calm fsS') = (Ok (chunks, true), calm fsS') ∧
  receive_all (a_manager x62) a_header chunks (calm ∅) = (Ok tt, calm fsR1) ∧
  Apply 0 (a_manager x62) a_header (store_of [(a_key x02, [x08])]) (calm fsR1) = (Ok tt, rcv', calm fsR2) ∧
  eng_map (getEngine 0 5 (se_data rcv')) !! a_key x01 = Some [x07] ∧ eng_map (getEngine 0 5 (se_data rcv')) !! a_key x02 = Some [x08].
Proof.
  destruct (snapshot_moves_cell 0 (a_manager x61) (a_manager x62) a_header (store_of [(a_key x01, [x07])]) (store_of [(a_key x02, [x08])]) tt tt
    (getDataKey []) dataMaxKey ∅ ∅ [1; 3]%nat) as (fsS' & chunks & fsR1 & rcv' & fsR2 & H1 & H2 & H3 & H4 & H5 & _).
  1: by repeat split.
  1: unfold a_manager; simpl; lia.
  1-4: reflexivity.
  1-2: intros id; apply puts_wf, eng_empty_wf.
  1: replace (eng_map (getEngine 0 (Cell_ID (SH_Cell a_header)) (se_data (store_of [(a_key x01, [x07])])))) with ({[a_key x01 := [x07]]} : gmap bytes bytes) by (vm_compute; reflexivity).
  1: rewrite map_to_list_singleton; repeat constructor; [discriminate|vm_compute; reflexivity..].
  1-2: intros q _; apply lookup_empty.
  exists fsS', chunks, fsR1, rcv', fsR2. split; [exact H1|]. split; [exact H2|]. split; [exact H3|]. split; [exact H4|].
  split; [etransitivity; [exact (H5 (a_key x01))|]|etransitivity; [exact (H5 (a_key x02))|]]; vm_compute; reflexivity.
Defined.
(** The first write of an entry fails: the snapshot is created all the same, and it
    is empty. *)
Definition failed_write : outcome io_error unit * disk :=
  Create 0 (a_manager x61) a_header (store_of [(a_key x01, [x07])]) (mkDisk ∅ [None; None; None; None; Some 0%nat]).
Lemma failed_write_loses_keys : failed_write.1 = Ok tt ∧
  match d_files failed_write.2 !! getPathOfSnapKeyGZ (a_manager x61) a_header with
  | Some (FFile data) => unpack data = ([(slash :: join (formatKey a_header) data_sst, [])], true)
  | _ => False
  end.
Proof. split; vm_compute; reflexivity. Qed.
(** The indexer fails after the data is written: the next attempt takes the directory
    for a complete snapshot and does not ask the indexer again. *)
Definition no_index_store : snap_env tree unit := mkEnv (λ _, puts [(a_key x01, [x07])] eng_empty) (λ _, None).
Definition first_try : outcome io_error unit * disk := Create 0 (a_manager x61) a_header no_index_store (calm ∅).
Lemma retried_create_skips_index : first_try.1 = Err EIndexer ∧ (Create 0 (a_manager x61) a_header no_index_store first_try.2).1 = Ok tt.
Proof. split; vm_compute; reflexivity. Qed.
