(* ===== verification/Transport.v ===== *)
(** * The transport between stores

    pkg/raftstore/transport.go: queues of messages for other stores, the snapshots
    that are being sent, acknowledgements and retries, connections.  Timers are
    events; what a connection, PD and the file system do is an argument.  The
    snapshot manager is that of Snapshot. *)

From S2P Require Import Prelude Encoding BTree Meta KVTree Keys Strconv Goetty RaftTypes RaftLog RaftApply RedisExec Propose Store Files Snapshot SnapshotProps Queue.

(** ** Messages *)
(** mraft.SnapshotMessage; [sn_Seq] is [Header.Seq]. *)
Record SnapshotMessage := mkSnapMsg { sn_Header : SnapHeader; sn_Seq : Z; sn_Chunk : option SnapshotChunk; sn_Ack : option SnapAck; sn_Ask : bool }.
(** A raft message and the metadata of its snapshot: term and index. *)
Record RMsg := mkRMsg { rm_msg : RaftMessage; rm_Term : Z; rm_Index : Z }.
Definition MsgSnap : MessageType := MsgOther 7.
Inductive tmsg := TRaft (m : RMsg) | TQuery (toStore : Z) (payload : bytes).
(** What is written to a connection or handed to the store. *)
Inductive wire := WRaft (m : RMsg) | WSnap (m : SnapshotMessage) | WAck (seq : Z) | WQuery (toStore : Z) (payload : bytes).
(** What was scheduled on the timeout wheel. *)
Inductive timer := TRetry (m : SnapshotMessage) | TWait (m : SnapshotMessage).

Record transport := mkTransport {
  t_storeID : Z;
  t_seq : Z;
  t_conns : gset Z;
  t_locked : bool;
  t_msgs : list (Queue tmsg);
  t_snapshots : list (Queue SnapshotMessage);
  t_waitACKs : gmap Z SnapshotMessage;
  t_sendingSnapshots : gmap Z RMsg;
  t_addrs : gmap Z string;
  t_addrsRevert : gmap string Z;
  t_sendingSnapCount : Z;
  t_manager : SnapshotManager;
  t_timers : list timer;
  t_written : list (Z * wire);
  t_notified : list wire;
  t_reports : list RMsg;
}.
Definition set_seq (x : Z) (t : transport) : transport := mkTransport (t_storeID t) x (t_conns t) (t_locked t) (t_msgs t) (t_snapshots t) (t_waitACKs t) (t_sendingSnapshots t) (t_addrs t) (t_addrsRevert t) (t_sendingSnapCount t) (t_manager t) (t_timers t) (t_written t) (t_notified t) (t_reports t).
Definition set_conns (x : gset Z) (t : transport) : transport := mkTransport (t_storeID t) (t_seq t) x (t_locked t) (t_msgs t) (t_snapshots t) (t_waitACKs t) (t_sendingSnapshots t) (t_addrs t) (t_addrsRevert t) (t_sendingSnapCount t) (t_manager t) (t_timers t) (t_written t) (t_notified t) (t_reports t).
Definition set_locked (x : bool) (t : transport) : transport := mkTransport (t_storeID t) (t_seq t) (t_conns t) x (t_msgs t) (t_snapshots t) (t_waitACKs t) (t_sendingSnapshots t) (t_addrs t) (t_addrsRevert t) (t_sendingSnapCount t) (t_manager t) (t_timers t) (t_written t) (t_notified t) (t_reports t).
Definition set_msgs (x : list (Queue tmsg)) (t : transport) : transport := mkTransport (t_storeID t) (t_seq t) (t_conns t) (t_locked t) x (t_snapshots t) (t_waitACKs t) (t_sendingSnapshots t) (t_addrs t) (t_addrsRevert t) (t_sendingSnapCount t) (t_manager t) (t_timers t) (t_written t) (t_notified t) (t_reports t).
Definition set_snapshots (x : list (Queue SnapshotMessage)) (t : transport) : transport := mkTransport (t_storeID t) (t_seq t) (t_conns t) (t_locked t) (t_msgs t) x (t_waitACKs t) (t_sendingSnapshots t) (t_addrs t) (t_addrsRevert t) (t_sendingSnapCount t) (t_manager t) (t_timers t) (t_written t) (t_notified t) (t_reports t).
Definition set_waitACKs (x : gmap Z SnapshotMessage) (t : transport) : transport := mkTransport (t_storeID t) (t_seq t) (t_conns t) (t_locked t) (t_msgs t) (t_snapshots t) x (t_sendingSnapshots t) (t_addrs t) (t_addrsRevert t) (t_sendingSnapCount t) (t_manager t) (t_timers t) (t_written t) (t_notified t) (t_reports t).
Definition set_sending (x : gmap Z RMsg) (t : transport) : transport := mkTransport (t_storeID t) (t_seq t) (t_conns t) (t_locked t) (t_msgs t) (t_snapshots t) (t_waitACKs t) x (t_addrs t) (t_addrsRevert t) (t_sendingSnapCount t) (t_manager t) (t_timers t) (t_written t) (t_notified t) (t_reports t).
Definition add_addr (id : Z) (addr : string) (t : transport) : transport := mkTransport (t_storeID t) (t_seq t) (t_conns t) (t_locked t) (t_msgs t) (t_snapshots t) (t_waitACKs t) (t_sendingSnapshots t) (<[id := addr]> (t_addrs t)) (<[addr := id]> (t_addrsRevert t)) (t_sendingSnapCount t) (t_manager t) (t_timers t) (t_written t) (t_notified t) (t_reports t).
Definition count_sent (t : transport) : transport := mkTransport (t_storeID t) (t_seq t) (t_conns t) (t_locked t) (t_msgs t) (t_snapshots t) (t_waitACKs t) (t_sendingSnapshots t) (t_addrs t) (t_addrsRevert t) (t_sendingSnapCount t + 1) (t_manager t) (t_timers t) (t_written t) (t_notified t) (t_reports t).
Definition set_manager (x : SnapshotManager) (t : transport) : transport := mkTransport (t_storeID t) (t_seq t) (t_conns t) (t_locked t) (t_msgs t) (t_snapshots t) (t_waitACKs t) (t_sendingSnapshots t) (t_addrs t) (t_addrsRevert t) (t_sendingSnapCount t) x (t_timers t) (t_written t) (t_notified t) (t_reports t).
Definition set_timers (x : list timer) (t : transport) : transport := mkTransport (t_storeID t) (t_seq t) (t_conns t) (t_locked t) (t_msgs t) (t_snapshots t) (t_waitACKs t) (t_sendingSnapshots t) (t_addrs t) (t_addrsRevert t) (t_sendingSnapCount t) (t_manager t) x (t_written t) (t_notified t) (t_reports t).
Definition add_written (x : list (Z * wire)) (t : transport) : transport := mkTransport (t_storeID t) (t_seq t) (t_conns t) (t_locked t) (t_msgs t) (t_snapshots t) (t_waitACKs t) (t_sendingSnapshots t) (t_addrs t) (t_addrsRevert t) (t_sendingSnapCount t) (t_manager t) (t_timers t) (t_written t ++ x) (t_notified t) (t_reports t).
Definition notify (x : wire) (t : transport) : transport := mkTransport (t_storeID t) (t_seq t) (t_conns t) (t_locked t) (t_msgs t) (t_snapshots t) (t_waitACKs t) (t_sendingSnapshots t) (t_addrs t) (t_addrsRevert t) (t_sendingSnapCount t) (t_manager t) (t_timers t) (t_written t) (t_notified t ++ [x]) (t_reports t).
Definition report (x : RMsg) (t : transport) : transport := mkTransport (t_storeID t) (t_seq t) (t_conns t) (t_locked t) (t_msgs t) (t_snapshots t) (t_waitACKs t) (t_sendingSnapshots t) (t_addrs t) (t_addrsRevert t) (t_sendingSnapCount t) (t_manager t) (t_timers t) (t_written t) (t_notified t) (t_reports t ++ [x]).

(** [WorkerCountSent] and [WorkerCountSentSnap] queues. *)
Definition newTransport (storeID : Z) (workers snapWorkers : nat) (m : SnapshotManager) : transport :=
  mkTransport storeID 0 ∅ false (repeat New workers) (repeat New snapWorkers) ∅ ∅ ∅ ∅ 0 m [] [] [] [].
Definition stop (t : transport) : transport :=
  set_msgs ((λ q, (Dispose q).2) <$> t_msgs t) (set_snapshots ((λ q, (Dispose q).2) <$> t_snapshots t) t).

Inductive terror := ErrConnect | ErrGetStore | ErrWrite | ErrStaleSnapshot | ErrMissingSnapshot.
Abbreviation tres := (outcome terror).

(** ** Queues *)
(** [q[mask&id].Put(m)]: an index past the end panics. *)
Definition put_at {A} (qs : list (Queue A)) (id : Z) (x : A) : option (list (Queue A)) :=
  let index := Z.to_nat (Z.land (u64 (Z.of_nat (length qs) - 1)) id) in
  match qs !! index with Some q => Some (<[index := (Put (λ _, false) [x] q).2]> qs) | None => None end.
Definition put_snapshot (m : SnapshotMessage) (t : transport) : tres transport :=
  match put_at (t_snapshots t) (Peer_StoreID (SH_ToPeer (sn_Header m))) m with Some qs => Ok (set_snapshots qs t) | None => Panic end.
Definition put_msg (id : Z) (m : tmsg) (t : transport) : tres transport :=
  match put_at (t_msgs t) id m with Some qs => Ok (set_msgs qs t) | None => Panic end.
Definition nexSeq (t : transport) : Z * transport := let s := u64 (t_seq t + 1) in (s, set_seq s t).
Definition sendSnapshotMessage (m : SnapshotMessage) (t : transport) : tres transport :=
  let '(s, t) := nexSeq t in put_snapshot (mkSnapMsg (sn_Header m) s (sn_Chunk m) (sn_Ack m) (sn_Ask m)) t.
Definition sendQuery (toStore : Z) (payload : bytes) (t : transport) : tres transport :=
  if bool_decide (toStore = t_storeID t) then Ok (notify (WQuery toStore payload) t) else put_msg toStore (TQuery toStore payload) t.

(** ** Snapshots that are being sent *)
Definition msg_epoch (m : RMsg) : CellEpoch := RM_CellEpoch (rm_msg m).
Definition addPendingSnapshot (m : RMsg) (t : transport) : bool * transport :=
  let peer := Peer_ID (RM_ToPeer (rm_msg m)) in
  let fresh := match t_sendingSnapshots t !! peer with
               | None => true
               | Some c => negb (StalEpoch (msg_epoch m) (msg_epoch c)) && bool_decide (rm_Term c < rm_Term m) && bool_decide (rm_Index c < rm_Index m)
               end in
  if fresh then (true, set_sending (<[peer := m]> (t_sendingSnapshots t)) t) else (false, t).
Definition getSendingSnapshot (peerID : Z) (t : transport) : option RMsg := t_sendingSnapshots t !! peerID.
Definition forceRemoveSendingSnapshot (peerID : Z) (t : transport) : transport := set_sending (delete peerID (t_sendingSnapshots t)) t.
Definition is_sending (h : SnapHeader) (c : RMsg) : bool :=
  bool_decide (CellVer (Epoch (SH_Cell h)) = CellVer (msg_epoch c)) && bool_decide (ConfVer (Epoch (SH_Cell h)) = ConfVer (msg_epoch c)) &&
  bool_decide (SH_Term h = rm_Term c) && bool_decide (SH_Index h = rm_Index c).
Definition removeSendingSnapshot (peerID : Z) (h : SnapHeader) (t : transport) : transport :=
  match t_sendingSnapshots t !! peerID with
  | Some c => if is_sending h c then forceRemoveSendingSnapshot peerID t else t
  | None => t
  end.
(** *** Acknowledgements *)
Definition waitACK (m : SnapshotMessage) (t : transport) : transport :=
  let t := set_waitACKs (<[sn_Seq m := m]> (t_waitACKs t)) t in set_timers (t_timers t ++ [TWait m]) t.
Definition removeACK (seq : Z) (t : transport) : transport := set_waitACKs (delete seq (t_waitACKs t)) t.
Definition isWaitting (seq : Z) (t : transport) : bool := bool_decide (is_Some (t_waitACKs t !! seq)).
Definition retrySnapshot (m : SnapshotMessage) (t : transport) : transport := set_timers (t_timers t ++ [TRetry m]) t.
Definition doRetrySnapshot (m : SnapshotMessage) (t : transport) : tres transport := put_snapshot m t.
Definition doWaitTimeoutSnapshot (m : SnapshotMessage) (t : transport) : tres transport :=
  if isWaitting (sn_Seq m) t then put_snapshot m t else Ok t.

(** ** Connections *)
(** What the world does to a connection of a store: the answer of PD for its
    address, whether it can be connected, whether a message can be written. *)
Record link := mkLink { lk_addr : option string; lk_up : bool; lk_writes : bool }.
(** [None]: the goroutine waits for a lock that nobody releases. *)
Definition getStoreAddr (lk : link) (id : Z) (t : transport) : option string * transport :=
  match t_addrs t !! id with
  | Some a => (Some a, t)
  | None => match lk_addr lk with Some a => (Some a, add_addr id a t) | None => (None, t) end
  end.
Definition createConn (lk : link) (id : Z) (t : transport) : bool * transport :=
  let '(a, t) := getStoreAddr lk id t in (match a with Some _ => true | None => false end, t).
(** The pool is made under the lock; when that fails the lock is kept. *)
Definition getConnLocked (lk : link) (id : Z) (t : transport) : option (tres unit * transport) :=
  if t_locked t then None
  else if bool_decide (id ∈ t_conns t) then
    Some (Ok tt, t)
  else
    let '(made, t) := createConn lk id t in
    if made then Some (Ok tt, set_conns ({[id]} ∪ t_conns t) t) else Some (Err ErrGetStore, set_locked true t).
Definition getConn (lk : link) (id : Z) (t : transport) : option (tres unit * transport) :=
  match getConnLocked lk id t with
  | None => None
  | Some (Ok _, t) => if lk_up lk then Some (Ok tt, t) else Some (Err ErrConnect, t)
  | r => r
  end.
Definition doWrite (lk : link) (to : Z) (m : wire) (t : transport) : tres unit * transport :=
  if lk_writes lk then (Ok tt, add_written [(to, m)] t) else (Err ErrWrite, t).
Definition doSend (lk : link) (m : wire) (to : Z) (t : transport) : option (tres unit * transport) :=
  match getConn lk to t with
  | Some (Ok _, t) => Some (doWrite lk to m t)
  | r => r
  end.
Definition sendACK (lk : link) (m : SnapshotMessage) (t : transport) : option (tres unit * transport) :=
  doSend lk (WAck (sn_Seq m)) (Peer_StoreID (SH_FromPeer (sn_Header m))) t.
(** A message that could not be sent is reported to the replicate, if the store
    still has it ([has]). *)
Definition postSend (has : bool) (m : RMsg) (r : tres unit) (t : transport) : transport :=
  match r with Ok _ => t | _ => if has then report m t else t end.

(** ** Sending *)
(** The header of the data of a snapshot; data that cannot be decoded panics. *)
Definition snap_header (m : RMsg) : tres SnapHeader :=
  match M_Snapshot (RM_Message (rm_msg m)) with SnapData h => Ok h | _ => Panic end.
Definition ask_of (m : RMsg) (h : SnapHeader) : SnapshotMessage :=
  mkSnapMsg (set_peers_of h (RM_FromPeer (rm_msg m)) (RM_ToPeer (rm_msg m))) 0 None None true.
Definition sendRaftMessage (has : bool) (m : RMsg) (t : transport) : tres transport :=
  let storeID := Peer_StoreID (RM_ToPeer (rm_msg m)) in
  if bool_decide (storeID = t_storeID t) then Ok (notify (WRaft m) t)
  else if bool_decide (M_Type (RM_Message (rm_msg m)) = MsgSnap) then
    let '(added, t) := addPendingSnapshot m t in
    if negb added then Ok (postSend has m (Err ErrStaleSnapshot) t)
    else
      let! h := snap_header m in
      let! t := put_snapshot (ask_of m h) t in
      put_msg storeID (TRaft m) t
  else put_msg storeID (TRaft m) t.
(** An item of [readyToSendRaft]. *)
Definition send_raft_item (lk : link) (has : bool) (m : tmsg) (t : transport) : option transport :=
  match m with
  | TRaft m => match doSend lk (WRaft m) (Peer_StoreID (RM_ToPeer (rm_msg m))) t with Some (r, t) => Some (postSend has m r t) | None => None end
  | TQuery to payload => match doSend lk (WQuery to payload) to t with Some (_, t) => Some t | None => None end
  end.
Definition isOnlyHeader (m : SnapshotMessage) : bool :=
  match sn_Ack m, sn_Chunk m with None, None => negb (sn_Ask m) | _, _ => false end.
(** The chunks of a file on the wire. *)
Definition chunk_wires (m : SnapshotMessage) (cs : list SnapshotChunk) : list (Z * wire) :=
  (λ c, (Peer_StoreID (SH_ToPeer (sn_Header m)), WSnap (mkSnapMsg (sn_Header m) (sn_Seq m) (Some c) None false))) <$> cs.
Definition doSendSnapshotMessage (lk : link) (sizes : list nat) (flushed : option nat) (m : SnapshotMessage) (t : transport) (d : disk) : tres unit * transport * disk :=
  let to := Peer_StoreID (SH_ToPeer (sn_Header m)) in
  if negb (isOnlyHeader m) then let '(r, t) := doWrite lk to (WSnap m) t in (r, t, d)
  else
    let peer := Peer_ID (SH_ToPeer (sn_Header m)) in
    match getSendingSnapshot peer t with
    | None => (Panic, t, d)
    | Some raftMessage =>
        let '(registered, mgr) := Register (sn_Header m) sending (t_manager t) in
        let t := set_manager mgr t in
        if negb registered then (Ok tt, t, d)
        else
          let deregister t := set_manager (Deregister (sn_Header m) sending (t_manager t)) t in
          match Exists mgr (sn_Header m) d with
          | (Ok true, d) =>
              match WriteTo mgr sizes flushed (sn_Header m) d with
              | (Ok (cs, true), d) =>
                  let t := add_written (chunk_wires m cs) t in
                  match doWrite lk to (WRaft raftMessage) t with
                  | (Ok _, t) => (Ok tt, deregister (removeSendingSnapshot peer (sn_Header m) (count_sent t)), d)
                  | (r, t) => (r, deregister t, d)
                  end
              | (Ok (cs, false), d) => (Err ErrWrite, deregister (add_written (chunk_wires m cs) t), d)
              | (_, d) => (Err ErrWrite, deregister t, d)
              end
          | (_, d) => (Err ErrMissingSnapshot, deregister t, d)
          end
    end.
(** An item of [readyToSendSnapshots]; [None] for a goroutine that is blocked. *)
Definition send_snapshot_item (lk : link) (sizes : list nat) (flushed : option nat) (m : SnapshotMessage) (t : transport) (d : disk) : option (tres transport * disk) :=
  let id := Peer_StoreID (SH_ToPeer (sn_Header m)) in
  if (isOnlyHeader m || sn_Ask m) && match getSendingSnapshot (Peer_ID (SH_ToPeer (sn_Header m))) t with None => true | Some _ => false end then Some (Ok t, d)
  else
    match getConn lk id t with
    | None => None
    | Some (Ok _, t) =>
        let '(r, t, d) := doSendSnapshotMessage lk sizes flushed m t d in
        Some (match r with Ok _ => Ok (waitACK m t) | Err _ => Ok (retrySnapshot m t) | Panic => Panic end, d)
    | Some (_, t) => Some (Ok (retrySnapshot m t), d)
    end.
(** ** Receiving *)
(** A message of a connection; the error of [sendACK] is dropped. *)
Definition on_message (lk : link) (m : wire) (t : transport) : option transport :=
  match m with
  | WSnap s => match sendACK lk s t with Some (_, t) => Some (notify m t) | None => None end
  | WAck seq => Some (removeACK seq t)
  | _ => Some (notify m t)
  end.
(** A timer that fires. *)
Definition fire (m : timer) (t : transport) : tres transport :=
  match m with TRetry m => doRetrySnapshot m t | TWait m => doWaitTimeoutSnapshot m t end.

(** ** Sending a pending snapshot *)
(** The pieces of a file, as its reads give them. *)
Definition file_chunks (mgr : SnapshotManager) (sizes : list nat) (data : bytes) : list SnapshotChunk :=
  chunk_messages (Z.of_nat (length data)) 0 (cut (length data) (sm_LimitSnapChunkBytes mgr) sizes data).
Lemma chunk_messages_data n parts : ∀ w, concat (ch_Data <$> chunk_messages n w parts) = concat parts.
Proof. induction parts as [|p parts IH]; intros w; [done|]. cbn. by rewrite IH. Qed.
Lemma file_chunks_data mgr sizes data : concat (ch_Data <$> file_chunks mgr sizes data) = data.
Proof. unfold file_chunks. rewrite chunk_messages_data. by apply cut_concat. Qed.
(** What [WriteTo] writes, whatever fails: all pieces of the file, or a prefix of them. *)
Lemma exist_files p d : ∃ b d', exist p d = (Ok b, d') ∧ d_files d' = d_files d.
Proof. unfold exist, syscall. destruct (d_faults d) as [|[] ?]; eauto. Qed.
Lemma ReadFile_files p d r d' : ReadFile p d = (r, d') → d_files d' = d_files d ∧ (∀ b, r = Ok b → d_files d !! p = Some (FFile b)).
Proof.
  unfold ReadFile, syscall. destruct (d_faults d) as [|[] ?]; intros [= <- <-]; (split; [done|]); intros b; try done; destruct (d_files d !! p) as [[]|]; intros [= <-]; done.
Qed.
Lemma Stat_Size_files p d r d' : Stat_Size p d = (r, d') → d_files d' = d_files d ∧ (∀ n, r = Ok n → ∃ b, d_files d !! p = Some (FFile b) ∧ n = Z.of_nat (length b)).
Proof.
  unfold Stat_Size. unfold mbind, io_bind. destruct (ReadFile p d) as [rb db] eqn:Er. apply ReadFile_files in Er as [Hd Hb].
  destruct rb as [b| |]; intros [= <- <-]; (split; [done|]); intros n; try done. intros [= <-]. exists b. split; [by apply Hb|done].
Qed.
Lemma WriteTo_writes mgr sizes flushed h d cs b d' : WriteTo mgr sizes flushed h d = (Ok (cs, b), d') →
  ∃ data, d_files d !! getPathOfSnapKeyGZ mgr h = Some (FFile data) ∧ if b then cs = file_chunks mgr sizes data else cs `prefix_of` file_chunks mgr sizes data.
Proof.
  unfold WriteTo, Exists, mbind, io_bind. destruct (exist_files (getPathOfSnapKeyGZ mgr h) d) as (e & d1 & -> & Hd1). destruct e; cbn [negb]; [|done].
  destruct (Stat_Size _ d1) as [rs d2] eqn:Es. apply Stat_Size_files in Es as [Hd2 Hs]. destruct rs as [size| |]; [|done..].
  destruct (ReadFile _ d2) as [rb d3] eqn:Er. apply ReadFile_files in Er as [_ Hb]. destruct rb as [data| |]; [|done..].
  specialize (Hb data eq_refl). destruct (Hs size eq_refl) as (data' & Hdata & ->). rewrite Hd2 in Hb. assert (data' = data) as -> by congruence. rewrite Hd1 in Hb.
  intros Heq. exists data. split; [done|]. fold (file_chunks mgr sizes data) in Heq. destruct flushed as [n|]; [|by injection Heq as <- <- _].
  case_bool_decide; injection Heq as <- <- _; [apply prefix_take|done].
Qed.
Section sending.
Context (lk : link) (m : SnapshotMessage) (t : transport) (rm : RMsg).
Abbreviation h := (sn_Header m).
Abbreviation peer := (Peer_ID (SH_ToPeer h)).
Abbreviation to := (Peer_StoreID (SH_ToPeer h)).
Hypothesis Honly : isOnlyHeader m = true.
Hypothesis Hpending : getSendingSnapshot peer t = Some rm.
Lemma Register_spec mgr : Register h sending mgr = (negb (inRegistry h sending mgr), if inRegistry h sending mgr then mgr else set_registry ({[formatKeyStep h sending]} ∪ sm_registry mgr) mgr).
Proof. unfold Register, inRegistry. by case_bool_decide. Qed.
(** [Deregister] undoes [Register]. *)
Lemma registry_restored mgr : inRegistry h sending mgr = false → Deregister h sending (set_registry ({[formatKeyStep h sending]} ∪ sm_registry mgr) mgr) = mgr.
Proof.
  unfold inRegistry, Deregister. case_bool_decide as Hin; [done|intros _]. destruct mgr as [? ? reg]. unfold set_registry. simpl in *. f_equal. set_solver.
Qed.
Lemma removeSending_rest t0 : ∀ h0 p, t_written (removeSendingSnapshot p h0 t0) = t_written t0 ∧ t_manager (removeSendingSnapshot p h0 t0) = t_manager t0.
Proof. intros h0 p. unfold removeSendingSnapshot. destruct (t_sendingSnapshots t0 !! p); [|done]. by destruct (is_sending h0 r). Qed.
(** How the sending of a pending snapshot ends: sent to the end, found registered
    already, or given up after some of its chunks. *)
Lemma doSendSnapshot_cases sizes flushed d : ∃ r t' d', doSendSnapshotMessage lk sizes flushed m t d = (r, t', d') ∧ t_manager t' = t_manager t ∧ t_timers t' = t_timers t ∧
  ((inRegistry h sending (t_manager t) = true ∧ r = Ok tt ∧ t' = t) ∨
   (∃ data, d_files d !! getPathOfSnapKeyGZ (t_manager t) h = Some (FFile data) ∧ r = Ok tt ∧
      t_written t' = t_written t ++ chunk_wires m (file_chunks (t_manager t) sizes data) ++ [(to, WRaft rm)] ∧ getSendingSnapshot peer t' = if is_sending h rm then None else Some rm) ∨
   ∃ cs, (∃ e, r = Err e) ∧ t_written t' = t_written t ++ chunk_wires m cs ∧ t_sendingSnapshots t' = t_sendingSnapshots t ∧
     (cs = [] ∨ ∃ data, d_files d !! getPathOfSnapKeyGZ (t_manager t) h = Some (FFile data) ∧ cs `prefix_of` file_chunks (t_manager t) sizes data)).
Proof.
  unfold doSendSnapshotMessage. rewrite Honly, Hpending, Register_spec. cbn [negb]. destruct (inRegistry h sending (t_manager t)) eqn:Hreg; cbn [negb].
  { eexists _, _, _. split; [done|]. destruct t. split_and!; [done|done|by left]. }
  set (mgr := set_registry _ _). pose proof (registry_restored _ Hreg) as Hback. fold mgr in Hback.
  unfold Exists. destruct (exist_files (getPathOfSnapKeyGZ mgr h) d) as (e & d1 & -> & Hd1). destruct e.
  2:{ eexists _, _, _. split; [done|]. split; [exact Hback|]. split; [done|]. right. right. exists []. split; [by eauto|]. cbn. rewrite app_nil_r. split_and!; [done|done|by left]. }
  destruct (WriteTo mgr sizes flushed h d1) as [[[cs b]|?|] d2] eqn:Ew.
  2-3: eexists _, _, _; split; [done|]; split; [exact Hback|]; split; [done|]; right; right; exists []; (split; [by eauto|]); cbn; rewrite app_nil_r; (split_and!; [done|done|by left]).
  apply WriteTo_writes in Ew as (data & Hdata & Hcs). rewrite Hd1 in Hdata.
  change (file_chunks mgr) with (file_chunks (t_manager t)) in Hcs. change (getPathOfSnapKeyGZ mgr h) with (getPathOfSnapKeyGZ (t_manager t) h) in Hdata.
  destruct b.
  2: eexists _, _, _; split; [done|]; split; [exact Hback|]; split; [done|]; right; right; exists cs; (split; [by eauto|]); (split_and!; [done|done|right; by exists data]).
  subst cs. unfold doWrite. destruct (lk_writes lk).
  2: eexists _, _, _; split; [done|]; split; [exact Hback|]; split; [done|]; right; right; eexists; (split; [by eauto|]); (split_and!; [done|done|right; by exists data]).
  eexists _, _, _. split; [done|]. unfold removeSendingSnapshot. unfold getSendingSnapshot in *. cbn [t_sendingSnapshots count_sent add_written set_manager]. rewrite Hpending.
  destruct (is_sending h rm); (split; [exact Hback|]); (split; [done|]); right; left; exists data; (split; [done|]); (split; [done|]); cbn; rewrite ?(assoc_L (++)).
  - split; [done|]. by rewrite lookup_delete_eq.
  - done.
Qed.
Lemma send_calm sizes fs data : inRegistry h sending (t_manager t) = false → fs !! getPathOfSnapKeyGZ (t_manager t) h = Some (FFile data) → lk_writes lk = true →
  ∃ t', doSendSnapshotMessage lk sizes None m t (calm fs) = (Ok tt, t', calm fs) ∧
    t_written t' = t_written t ++ chunk_wires m (chunk_messages (Z.of_nat (length data)) 0 (cut (length data) (sm_LimitSnapChunkBytes (t_manager t)) sizes data)) ++ [(to, WRaft rm)] ∧
    getSendingSnapshot peer t' = (if is_sending h rm then None else Some rm) ∧ t_manager t' = t_manager t.
Proof.
  intros Hreg Hf Hw. pose proof (registry_restored _ Hreg) as Hback. unfold doSendSnapshotMessage. rewrite Honly, Hpending, Register_spec, Hreg. cbn [negb]. unfold Exists.
  rewrite exist_calm. erewrite present_file by exact Hf. rewrite (WriteTo_calm _ _ _ data) by exact Hf. unfold doWrite. rewrite Hw.
  eexists. split; [done|]. unfold removeSendingSnapshot. unfold getSendingSnapshot in *. cbn [t_sendingSnapshots count_sent add_written set_manager]. rewrite Hpending.
  destruct (is_sending h rm); cbn; rewrite ?(assoc_L (++)), ?lookup_delete_eq; done.
Qed.
End sending.
(** A connection only adds to the addresses and connections; the lock may stay taken. *)
Definition same_conn (t t' : transport) : Prop :=
  t_timers t' = t_timers t ∧ t_written t' = t_written t ∧ t_sendingSnapshots t' = t_sendingSnapshots t ∧ t_manager t' = t_manager t.
Lemma getConn_cases lk id t : t_locked t = false → ∃ r t', getConn lk id t = Some (r, t') ∧ same_conn t t' ∧ (r = Ok tt ∨ ∃ e, r = Err e).
Proof.
  intros Hl. unfold getConn, getConnLocked, createConn, getStoreAddr. rewrite Hl. case_bool_decide; [|destruct (t_addrs t !! id), (lk_addr lk)].
  all: repeat case_match; simplify_eq; eexists _, _; (split; [done|]); (split; [done|]); eauto.
Qed.

(** Sending a pending snapshot over a connection that works writes the pieces of
    the snapshot file and then the raft message, in this order; a receiver that takes
    the pieces has exactly that file; the snapshot is no longer pending, unless a newer one has
    taken its place, and is not registered as being sent any more. *)
Theorem snapshot_reaches_peer (lk : link) (sizes : list nat) (m : SnapshotMessage) (t : transport) (rm : RMsg) (fs fs2 : gmap bytes node) (mgr2 : SnapshotManager) (data : bytes) :
  let h := sn_Header m in
  isOnlyHeader m = true → getSendingSnapshot (Peer_ID (SH_ToPeer h)) t = Some rm →
  inRegistry h sending (t_manager t) = false →
  fs !! getPathOfSnapKeyGZ (t_manager t) h = Some (FFile data) → data ≠ [] → lk_writes lk = true →
  ∃ cs t' d2,
    doSendSnapshotMessage lk sizes None m t (calm fs) = (Ok tt, t', calm fs) ∧
    t_written t' = t_written t ++ chunk_wires m cs ++ [(Peer_StoreID (SH_ToPeer h), WRaft rm)] ∧
    receive_all mgr2 h cs (calm fs2) = (Ok tt, d2) ∧ d_files d2 !! getPathOfSnapKeyGZ mgr2 h = Some (FFile data) ∧
    getSendingSnapshot (Peer_ID (SH_ToPeer h)) t' = (if is_sending h rm then None else Some rm) ∧
    t_manager t' = t_manager t.
Proof.
  intros h Honly Hp Hreg Hf Hne Hw. destruct (send_calm lk m t rm Honly Hp sizes fs data Hreg Hf Hw) as (t' & Hs & Hwr & Hg & Hm).
  eexists _, t', _. split_and!; [exact Hs|exact Hwr|by apply receive_file| |done|done]. cbn. by rewrite lookup_insert_eq.
Qed.

(** *** A concrete snapshot on its way *)
Definition good_link : link := mkLink (Some "addr"%string) true true.
Definition sn_header (index : Z) (peer : Peer) : SnapHeader := mkSnapHeader (mkCell 5 [] [] (mkCellEpoch 1 1) [mkPeer 7 1]) (mkPeer 7 1) peer 2 index.
Definition sn_raft (index : Z) (peer : Peer) : RMsg :=
  mkRMsg (mkRaftMessage 5 (mkPeer 7 1) peer (mkCellEpoch 1 1) false [] [] (mkMessage MsgSnap 0 (SnapData (sn_header index peer)))) 2 index.
Definition sn_only (index : Z) (peer : Peer) : SnapshotMessage := mkSnapMsg (sn_header index peer) 3 None None false.
Definition sn_manager : SnapshotManager := mkManager [x61] 4 ∅.
Definition sn_transport : transport := set_sending {[8 := sn_raft 9 (mkPeer 8 2)]} (newTransport 1 2 2 sn_manager).
Definition sn_files : gmap bytes node := {[getPathOfSnapKeyGZ sn_manager (sn_header 9 (mkPeer 8 2)) := FFile [x01; x02; x03; x04; x05; x06]]}.
Lemma snapshot_reaches_peer_witness : ∃ cs t' d2,
  doSendSnapshotMessage good_link [2; 3]%nat None (sn_only 9 (mkPeer 8 2)) sn_transport (calm sn_files) = (Ok tt, t', calm sn_files) ∧
  t_written t' = chunk_wires (sn_only 9 (mkPeer 8 2)) cs ++ [(2, WRaft (sn_raft 9 (mkPeer 8 2)))] ∧
  receive_all (mkManager [x62] 4 ∅) (sn_header 9 (mkPeer 8 2)) cs (calm ∅) = (Ok tt, d2) ∧ getSendingSnapshot 8 t' = None.
Proof.
  destruct (snapshot_reaches_peer good_link [2; 3]%nat (sn_only 9 (mkPeer 8 2)) sn_transport (sn_raft 9 (mkPeer 8 2)) sn_files ∅ (mkManager [x62] 4 ∅) [x01; x02; x03; x04; x05; x06])
    as (cs & t' & d2 & H1 & H2 & H3 & _ & H5 & _); [reflexivity|reflexivity|reflexivity|vm_compute; reflexivity|discriminate|reflexivity|].
  exists cs, t', d2. split_and!; [exact H1|exact H2|exact H3|exact H5].
Defined.

(** C19. A snapshot that is pending is not lost by a failure, as long as the lock of the
    connections is free ([failed_lookup_blocks_transport]): a worker that handles its message either writes
    exactly the pieces of the snapshot file and behind them the raft message, and waits for the acknowledgement; or
    finds the snapshot being sent already; or schedules another attempt.  In the last case the
    snapshot is still pending, no raft message was written, and what was written is a prefix of the
    pieces.  In every case the snapshot is registered as being sent exactly if it was before. *)
Theorem pending_snapshot_not_lost (lk : link) (sizes : list nat) (flushed : option nat) (m : SnapshotMessage) (t : transport) (rm : RMsg) (d : disk) :
  let h := sn_Header m in
  let file := d_files d !! getPathOfSnapKeyGZ (t_manager t) h in
  isOnlyHeader m = true → getSendingSnapshot (Peer_ID (SH_ToPeer h)) t = Some rm → t_locked t = false →
  ∃ t' d', send_snapshot_item lk sizes flushed m t d = Some (Ok t', d') ∧ t_manager t' = t_manager t ∧
    ((t_timers t' = t_timers t ++ [TWait m] ∧ t_waitACKs t' !! sn_Seq m = Some m ∧
       (inRegistry h sending (t_manager t) = true ∧ t_written t' = t_written t ∨
        ∃ data cs, file = Some (FFile data) ∧ concat (ch_Data <$> cs) = data ∧ cs = file_chunks (t_manager t) sizes data ∧
          t_written t' = t_written t ++ chunk_wires m cs ++ [(Peer_StoreID (SH_ToPeer h), WRaft rm)])) ∨
     (t_timers t' = t_timers t ++ [TRetry m] ∧ t_sendingSnapshots t' = t_sendingSnapshots t ∧
       ∃ cs, t_written t' = t_written t ++ chunk_wires m cs ∧
         (cs = [] ∨ ∃ data, file = Some (FFile data) ∧ cs `prefix_of` file_chunks (t_manager t) sizes data))).
Proof.
  intros h file Honly Hp Hl. unfold send_snapshot_item. fold h. rewrite Hp, andb_false_r.
  destruct (getConn_cases lk (Peer_StoreID (SH_ToPeer h)) t Hl) as (r & t1 & -> & Hsame & Hr).
  destruct Hsame as (Ht & Hw & Hs & Hm). destruct Hr as [->|(e & ->)].
  - unfold getSendingSnapshot in Hp. rewrite <-Hs in Hp.
    destruct (doSendSnapshot_cases lk m t1 rm Honly Hp sizes flushed d) as (r & t' & d' & -> & Hm' & Ht' & Hcases).
    rewrite Hm, Hw in *. destruct Hcases as [(Hreg & -> & ->)|[(data & Hf & -> & Hwr & _)|(cs & (e & ->) & Hwr & Hs' & Hcs)]]; eexists _, _; (split; [done|]); cbn; rewrite ?Ht', ?Ht, ?Hm', ?Hs', ?lookup_insert_eq; (split; [congruence|]).
    + left. split_and!; [done|done|by left].
    + left. split_and!; [done|done|right]. exists data, (file_chunks (t_manager t) sizes data). split_and!; [done|apply file_chunks_data|done|done].
    + right. split_and!; [done|done|by exists cs].
  - eexists _, _. split; [done|]. cbn. rewrite Ht. split; [done|]. right. split_and!; [done|done|]. exists []. rewrite Hw, app_nil_r. split; [done|by left].
Qed.
Lemma pending_snapshot_not_lost_witness : ∃ t' d',
  send_snapshot_item good_link [2; 3]%nat (Some 1%nat) (sn_only 9 (mkPeer 8 2)) sn_transport (calm sn_files) = Some (Ok t', d') ∧ t_manager t' = sn_manager.
Proof.
  destruct (pending_snapshot_not_lost good_link [2; 3]%nat (Some 1%nat) (sn_only 9 (mkPeer 8 2)) sn_transport (sn_raft 9 (mkPeer 8 2)) (calm sn_files)) as (t' & d' & H1 & H2 & _); [reflexivity..|].
  exists t', d'. split; [exact H1|exact H2].
Defined.

(** ** What goes wrong *)
(** When PD does not answer the lookup of a store's address, the lock of the connections is
    not released: from then on every worker and every connection that needs one to any store, with
    whatever PD and the network do, waits for ever. *)
Theorem failed_lookup_blocks_transport (lk : link) (id : Z) (t : transport) :
  t_locked t = false → id ∉ t_conns t → t_addrs t !! id = None → lk_addr lk = None →
  ∃ t', getConn lk id t = Some (Err ErrGetStore, t') ∧ ∀ lk', (∀ id', getConn lk' id' t' = None) ∧
    (∀ has m, send_raft_item lk' has m t' = None) ∧ (∀ m, on_message lk' (WSnap m) t' = None) ∧
    (∀ sizes flushed m d, isOnlyHeader m || sn_Ask m = false → send_snapshot_item lk' sizes flushed m t' d = None).
Proof.
  intros Hl Hc Ha Hn. exists (set_locked true t). split.
  { unfold getConn, getConnLocked, createConn, getStoreAddr. by rewrite Hl, bool_decide_eq_false_2, Ha, Hn. }
  intros lk'. split_and!; [done|by intros ? []|done|]. intros ???? Hm. unfold send_snapshot_item. by rewrite Hm.
Qed.
Lemma failed_lookup_blocks_transport_witness : ∃ t', getConn (mkLink None true true) 2 sn_transport = Some (Err ErrGetStore, t') ∧ getConn good_link 2 t' = None.
Proof.
  destruct (failed_lookup_blocks_transport (mkLink None true true) 2 sn_transport) as (t' & H1 & H2); [reflexivity|apply not_elem_of_empty|reflexivity|reflexivity|].
  exists t'. split; [exact H1|]. destruct (H2 good_link) as [H3 _]. exact (H3 2).
Defined.
(** The messages that ask for snapshots all carry sequence number 0: when two are on
    their way, the acknowledgement of one also ends the wait for the other, which
    is not sent again. *)
Lemma ack_of_another_ask m1 m2 h1 h2 lk t t' :
  on_message lk (WAck (sn_Seq (ask_of m1 h1))) (waitACK (ask_of m2 h2) (waitACK (ask_of m1 h1) t)) = Some t' → fire (TWait (ask_of m2 h2)) t' = Ok t'.
Proof. intros [= <-]. cbn. unfold doWaitTimeoutSnapshot, isWaitting. cbn. by rewrite lookup_delete_eq. Qed.
