(* ===== verification/GenSnap.v ===== *)
(** * Generating snapshots

    What raft is told when it asks a storage for a snapshot ([Snapshot] of
    pkg/raftstore/raft_handle_do.go) and the job that generates one ([doGenerateSnapshotJob] of peer_job.go).  The
    job runs on a worker of its own, so the storage moves on between the calls of raft, and between the reads of the job. *)

From S2P Require Import Prelude Encoding BTree Meta KVTree Keys Strconv Goetty RaftTypes RaftLog RaftApply RedisExec Propose Store Files Snapshot SnapshotProps.

Definition maxSnapTryCnt : Z := 5.
(** A snapshot with its members; its data is the header of its message. *)
Record GenSnapshot := mkGenSnapshot { gs_snap : RaftLog.Snapshot; gs_nodes : list Z }.
(** [genSnapJob], with its state and result, and [snapTriedCnt]. *)
Record gen := mkGen { g_job : option (JobState * option GenSnapshot); g_tried : Z }.
Inductive snap_answer := SnapReady (s : GenSnapshot) | ErrSnapshotTemporarilyUnavailable | ErrSnapGivenUp (cnt : Z).

Definition resetGenSnapJob (g : gen) : gen := mkGen None 0.
Definition isGeneratingSnap (g : gen) : bool := match g_job g with Some (st, _) => IsNotComplete st | None => false end.
Definition isGenSnapJobComplete (g : gen) : bool := match g_job g with Some (st, _) => negb (IsNotComplete st) | None => false end.
Definition setGenSnapJob (g : gen) : gen := mkGen (Some (Pending, None)) (g_tried g).
(** A new attempt, unless there were too many; the runner that refuses the job ends the process. *)
Definition try_snapshot (added : bool) (g : gen) : outcome unit (snap_answer * gen) :=
  if bool_decide (maxSnapTryCnt ≤ g_tried g) then Ok (ErrSnapGivenUp (g_tried g), resetGenSnapJob g)
  else let g := mkGen (g_job g) (g_tried g + 1) in
       if added then Ok (ErrSnapshotTemporarilyUnavailable, setGenSnapJob g) else Panic.
Definition Snapshot (added : bool) (ps : peerStorage) (g : gen) : outcome unit (snap_answer * gen) :=
  if isGeneratingSnap g then Ok (ErrSnapshotTemporarilyUnavailable, g)
  else if isGenSnapJobComplete g then
    match g_job g with
    | Some (_, None) => try_snapshot added (mkGen (g_job g) (g_tried g + 1))
    | Some (_, Some snap) => if validateSnap ps (gs_snap snap) then Ok (SnapReady snap, resetGenSnapJob g) else try_snapshot added g
    | None => Panic
    end
  else try_snapshot added g.

(** ** The job *)
Section job.
Context {E S I : Type} `{!Engine value E} `{!DataEngine S, !IndexerEngine I, !Archive} (enginesMask : Z).
Abbreviation env := (snap_env S I).

Definition loadApplyState (ps : peerStorage) (e : E) : option RaftApplyState :=
  match Engine_Get (getApplyStateKey (Cell_ID (ps_cell ps))) e with Some (VApplyState st) => Some st | _ => None end.
(** The job reads the engine three times and the members of the cell after that; the replicate does not wait for it. *)
Record reads := mkReads { at_apply : E; at_entry : E; at_cell : E; at_members : peerStorage }.
(** The header of the snapshot; [Ok None] when the job gives up. *)
Definition gen_header (ps : peerStorage) (r : reads) : outcome unit (option SnapHeader) :=
  match loadApplyState ps (at_apply r) with
  | None => Panic
  | Some st =>
      let term := if bool_decide (AppliedIndex st = Trunc_Index (TruncatedState st)) then Ok (Trunc_Term (TruncatedState st))
                  else match loadLogEntry ps (AppliedIndex st) (at_entry r) with Ok ent => Ok (E_Term ent) | Err _ => Err tt | Panic => Panic end in
      match term with
      | Panic => Panic
      | Err _ => Ok None
      | Ok term =>
          match Engine_Get (getCellStateKey (Cell_ID (ps_cell ps))) (at_cell r) with
          | Some (VCellState state) =>
              if bool_decide (LS_State state = Normal) then Ok (Some (mkSnapHeader (LS_Cell state) (mkPeer 0 0) (mkPeer 0 0) term (AppliedIndex st))) else Ok None
          | _ => Ok None
          end
      end
  end.
(** The file, unless somebody else makes it; the registration is given back at the end. *)
Definition gen_file (h : SnapHeader) (s : env) (m : SnapshotManager) : io bool := λ d,
  let '(registered, m') := Register h creating m in
  if (registered : bool) then
    match Create enginesMask m' h s d with
    | (Ok _, d) => (Ok true, d)
    | (Err _, d) => (Ok false, d)
    | (Panic, d) => (Panic, d)
    end
  else (Ok true, d).
Definition snapshot_of (ps : peerStorage) (h : SnapHeader) : GenSnapshot := mkGenSnapshot (mkSnapshot (SH_Index h) (SH_Term h) (SH_Cell h)) (Peer_ID <$> Peers (ps_cell ps)).
(** The result of the job, which never returns an error. *)
Definition doGenerateSnapshotJob (ps : peerStorage) (r : reads) (s : env) (m : SnapshotManager) (d : disk) : outcome unit (option GenSnapshot) * disk :=
  match gen_header ps r with
  | Panic => (Panic, d)
  | Err _ => (Err tt, d)
  | Ok None => (Ok None, d)
  | Ok (Some h) =>
      match gen_file h s m d with
      | (Ok true, d) => (Ok (Some (snapshot_of (at_members r) h)), d)
      | (Ok false, d) => (Ok None, d)
      | (_, d) => (Panic, d)
      end
  end.
(** The worker runs a pending job. *)
Definition run_gen_job (ps : peerStorage) (r : reads) (s : env) (m : SnapshotManager) (d : disk) (g : gen) : outcome unit gen * disk :=
  match g_job g with
  | Some (st, res) =>
      let '(st, run) := job_start st in
      if (run : bool) then
        match doGenerateSnapshotJob ps r s m d with
        | (Ok snap, d) => (Ok (mkGen (Some (job_end st None, match snap with Some _ => snap | None => res end)) (g_tried g)), d)
        | (_, d) => (Panic, d)
        end
      else (Ok (mkGen (Some (st, res)) (g_tried g)), d)
  | None => (Ok g, d)
  end.

(** ** The history of a replicate *)
(** The storage of the replicate and the engine at one moment, with the log they hold. *)
Record moment := mkMoment { mo_ps : peerStorage; mo_e : E; mo_log : alog }.
Abbreviation mo_id x := (Cell_ID (ps_cell (mo_ps x))).
Abbreviation mo_applied x := (AppliedIndex (applyState (mo_ps x))).
Definition term_at (L : alog) (i : Z) : Z := from_option E_Term (base_term L) (log_at L i).
(** What is saved is what the storage has, and what is applied is in the log. *)
Record sound (x : moment) : Prop := {
  sd_rep : rep (mo_ps x) (mo_e x) (mo_log x);
  sd_persisted : persisted (mo_ps x) (mo_e x);
  sd_applied : base_index (mo_log x) ≤ mo_applied x ≤ last_index (mo_log x);
}.
(** Any number of steps of the replicate: what is applied only grows, and, which is raft's promise, an applied entry is
    never overwritten, it stays or is deleted. *)
Record moves (x y : moment) : Prop := {
  mv_id : mo_id y = mo_id x;
  mv_applied : mo_applied x ≤ mo_applied y;
  mv_kept i v : is_u64 i → i ≤ mo_applied x →
    eng_map (mo_e y) !! getRaftLogKey (mo_id x) i = Some v → eng_map (mo_e x) !! getRaftLogKey (mo_id x) i = Some v;
}.
#[export] Instance moves_preorder : PreOrder moves.
Proof.
  split; [intros x; by split|]. intros x y z [I1 A1 K1] [I2 A2 K2]. split; [congruence|lia|]. intros i v Hu Hi Hv.
  apply K1; [done|done|]. rewrite I1 in K2. apply K2; [done|lia|done].
Qed.

(** ** What a generated snapshot says *)
(** The index that was applied at one moment [x] of the history, with its term in the log of that moment, the cell that was saved at a
    later one and the members at a yet later one. *)
Definition generated (past : list moment) (snap : GenSnapshot) : Prop :=
  ∃ (i j k : nat) (x y z : moment), (i ≤ j ≤ k)%nat ∧ past !! i = Some x ∧ past !! j = Some y ∧ past !! k = Some z ∧
    Snap_Index (gs_snap snap) = mo_applied x ∧ Snap_Term (gs_snap snap) = term_at (mo_log x) (Snap_Index (gs_snap snap)) ∧
    eng_map (mo_e y) !! getCellStateKey (mo_id y) = Some (VCellState (mkLocalState Normal (Snap_Cell (gs_snap snap)))) ∧
    gs_nodes snap = Peer_ID <$> Peers (ps_cell (mo_ps z)).
(** The reads of a job, at four moments one after the other. *)
Record reads_of (past : list moment) (r : reads) (i j k l : nat) (x w y z : moment) : Prop := {
  ro_order : (i ≤ j ≤ k)%nat ∧ (k ≤ l)%nat;
  ro_x : past !! i = Some x; ro_w : past !! j = Some w; ro_y : past !! k = Some y; ro_z : past !! l = Some z;
  ro_reads : r = mkReads (mo_e x) (mo_e w) (mo_e y) (mo_ps z);
}.
(** The history has sound moments only, one after the other. *)
Record history_ok (past : list moment) : Prop := {
  ho_sound : Forall sound past;
  ho_moves i j x y : (i ≤ j)%nat → past !! i = Some x → past !! j = Some y → moves x y;
}.
Lemma history_one x : sound x → history_ok [x].
Proof. intros Hx. split; [by constructor|]. intros [|i] [|j] x' y ??? ; simplify_list_eq. reflexivity. Qed.
Lemma history_snoc past x y : history_ok past → last past = Some x → sound y → moves x y → history_ok (past ++ [y]).
Proof.
  intros [Hs Hm] Hl Hy Hxy. split; [apply Forall_app; split; [done|by constructor]|]. intros i j x' y' Hij Hi Hj.
  destruct (decide (j < length past)%nat) as [Hlt|Hge]; [rewrite lookup_app_l in Hi, Hj by lia; by eapply (Hm i j)|].
  rewrite lookup_app_r in Hj by lia. apply list_lookup_singleton_Some in Hj as [Hj <-].
  destruct (decide (i < length past)%nat) as [Hlt|Hge']; [rewrite lookup_app_l in Hi by lia; etransitivity; [|exact Hxy]; rewrite last_lookup in Hl; eapply (Hm i _); [|exact Hi|exact Hl]; lia|].
  rewrite lookup_app_r in Hi by lia. apply list_lookup_singleton_Some in Hi as [_ <-]. reflexivity.
Qed.

(** The term the job finds: the one of the first moment, although it looks the entry up later. *)
Lemma gen_term x w t : sound x → sound w → moves x w →
  (if bool_decide (mo_applied x = Trunc_Index (TruncatedState (applyState (mo_ps x)))) then Ok (Trunc_Term (TruncatedState (applyState (mo_ps x))))
   else match loadLogEntry (mo_ps x) (mo_applied x) (mo_e w) with Ok ent => Ok (E_Term ent) | Err _ => Err tt | Panic => Panic end) = (Ok t : outcome unit Z) →
  t = term_at (mo_log x) (mo_applied x).
Proof.
  intros [R _ Ha] [Rw _ _] [_ _ Hk]. rewrite (rp_trunc _ _ _ R). cbn [Trunc_Index Trunc_Term]. unfold term_at.
  case_bool_decide as Hx; [intros [= <-]; unfold log_at; by rewrite bool_decide_eq_false_2 by lia|].
  unfold loadLogEntry. rewrite eng_get_map by apply (rp_wf _ _ _ Rw). destruct (eng_map (mo_e w) !! _) as [v|] eqn:Hv; [|done].
  pose proof (lo_last _ (rp_log _ _ _ R)). pose proof (lo_base _ (rp_log _ _ _ R)). assert (is_u64 (mo_applied x)) as Hu by (unfold is_u64; lia).
  apply Hk in Hv; [|done|lia]. rewrite (rp_entries _ _ _ R) in Hv by (done || lia).
  destruct (log_at (mo_log x) (mo_applied x)) as [ent|]; [|done]. injection Hv as <-. cbn [unmarshal_entry from_option].
  destruct (bool_decide (E_Index ent = mo_applied x)); intros Ht; [|done]. by injection Ht as <-.
Qed.
Lemma gen_header_spec past r i j k l x w y z ps h : history_ok past → reads_of past r i j k l x w y z → Cell_ID (ps_cell ps) = mo_id x →
  gen_header ps r = Ok (Some h) → generated past (snapshot_of (at_members r) h).
Proof.
  intros [Hs Hm] [[Ho Ho'] Hi Hj Hk Hl ->] Hid. rewrite Forall_lookup in Hs. pose proof (Hm i j x w ltac:(lia) Hi Hj) as Hxw. pose proof (Hm i k x y ltac:(lia) Hi Hk) as Hxy.
  destruct (sd_persisted x) as [_ Has]; [by eapply Hs|]. unfold gen_header, loadApplyState, loadLogEntry. cbn [at_apply at_entry at_cell at_members]. rewrite Hid.
  rewrite (eng_get_map _ (mo_e x)), Has by (eapply rp_wf, sd_rep, Hs, Hi).
  pose proof (λ t, gen_term x w t (Hs _ _ Hi) (Hs _ _ Hj) Hxw) as Hterm. unfold loadLogEntry in Hterm.
  destruct (if bool_decide (mo_applied x = _) then _ else _) as [t| |]; [|done..]. specialize (Hterm t eq_refl) as ->.
  rewrite (eng_get_map _ (mo_e y)) by (eapply rp_wf, sd_rep, Hs, Hk).
  destruct (eng_map (mo_e y) !! _) as [[state| | | | |]|] eqn:Hst; try done. case_bool_decide as Hn; [|done]. intros [= <-].
  exists i, k, l, x, y, z. unfold snapshot_of. cbn [gs_snap gs_nodes Snap_Index Snap_Term Snap_Cell SH_Index SH_Term SH_Cell]. rewrite (mv_id _ _ Hxy).
  split_and!; try (done || lia). rewrite Hst. destruct state as [st c]; cbn in *. by rewrite Hn.
Qed.
(** *** The replicate moves, raft asks and the job runs *)
Record gsys := mkSys { sys_past : list moment; sys_gen : gen }.
Inductive gstep : gsys → gsys → Prop :=
  | step_move past g x y : last past = Some x → sound y → moves x y → gstep (mkSys past g) (mkSys (past ++ [y]) g)
  | step_ask past g x a g' : last past = Some x → Snapshot true (mo_ps x) g = Ok (a, g') → gstep (mkSys past g) (mkSys past g')
  | step_work past g r i j k l x w y z s m d g' d' : reads_of past r i j k l x w y z →
      run_gen_job (mo_ps x) r s m d g = (Ok g', d') → gstep (mkSys past g) (mkSys past g').
Definition gen_started (x : moment) : gsys := mkSys [x] (mkGen None 0).
Record gen_inv (s : gsys) : Prop := {
  gi_history : history_ok (sys_past s);
  gi_result st snap : g_job (sys_gen s) = Some (st, Some snap) → generated (sys_past s) snap;
}.
Lemma generated_later past y snap : generated past snap → generated (past ++ [y]) snap.
Proof. intros (i & j & k & x & w & z & Ho & Hi & Hj & Hk & Hg). exists i, j, k, x, w, z. split; [done|]. by rewrite !(lookup_app_l_Some _ _ _ _ Hi), (lookup_app_l_Some _ _ _ _ Hj), (lookup_app_l_Some _ _ _ _ Hk). Qed.
Lemma try_snapshot_cases added g a g' : try_snapshot added g = Ok (a, g') → a = ErrSnapGivenUp (g_tried g) ∧ maxSnapTryCnt ≤ g_tried g ∧ g' = mkGen None 0 ∨ a = ErrSnapshotTemporarilyUnavailable ∧ g_tried g < maxSnapTryCnt ∧ g' = mkGen (Some (Pending, None)) (g_tried g + 1).
Proof. unfold try_snapshot. case_bool_decide; [intros [= <- <-]; by left|]. destruct added; [|done]. intros [= <- <-]. right. split_and!; [done|lia|done]. Qed.
Lemma Snapshot_job added ps g a g' : Snapshot added ps g = Ok (a, g') → g_job g' = g_job g ∨ g_job g' = None ∨ g_job g' = Some (Pending, None).
Proof.
  assert (∀ g0, try_snapshot added g0 = Ok (a, g') → g_job g' = g_job g ∨ g_job g' = None ∨ g_job g' = Some (Pending, None)) as Htry by (intros g0 [(_ & _ & ->)|(_ & _ & ->)]%try_snapshot_cases; auto).
  unfold Snapshot. destruct (isGeneratingSnap g); [intros [= _ <-]; auto|]. destruct (isGenSnapJobComplete g); [|apply Htry]. destruct (g_job g) as [[st [snap|]]|] eqn:Hj; [|apply Htry|done].
  destruct (validateSnap ps (gs_snap snap)); [intros [= _ <-]; auto|apply Htry].
Qed.
Lemma run_gen_job_result past r i j k l x w y z s m d g g' d' st snap : history_ok past → reads_of past r i j k l x w y z →
  (∀ st snap, g_job g = Some (st, Some snap) → generated past snap) → run_gen_job (mo_ps x) r s m d g = (Ok g', d') →
  g_job g' = Some (st, Some snap) → generated past snap.
Proof.
  intros Hh Hr Hg. unfold run_gen_job. destruct (g_job g) as [[st1 res]|] eqn:Hj1; [|intros [= <- <-]; congruence]. destruct (job_start st1) as [st2 []].
  - unfold doGenerateSnapshotJob. destruct (gen_header (mo_ps x) r) as [[h|]| |] eqn:Hhd; try done; [|intros [= <- <-] [= _ ->]; by eapply Hg].
    destruct (gen_file h s m d) as [[[]| |] d1]; try done; intros [= <- <-]; [|intros [= _ ->]; by eapply Hg].
    intros [= _ <-]. by eapply gen_header_spec.
  - intros [= <- <-] [= _ ->]. by eapply Hg.
Qed.
Lemma gstep_inv s s' : gen_inv s → gstep s s' → gen_inv s'.
Proof.
  intros [Hh Hg] Hs. revert Hh Hg. destruct Hs as [past g x y Hl Hy Hm|past g x a g' Hl Ha|past g r i j k l x w y z s m d g' d' Hr Hj]; cbn [sys_past sys_gen]; intros Hh Hg; split; cbn [sys_past sys_gen].
  - by eapply history_snoc.
  - intros st snap Hst. by eapply generated_later, Hg.
  - done.
  - intros st snap Hst. destruct (Snapshot_job _ _ _ _ _ Ha) as [E1|[E1|E1]]; rewrite E1 in Hst; [|done..]. by eapply Hg.
  - done.
  - intros st snap Hst. by eapply run_gen_job_result.
Qed.
Lemma gen_reachable x s : sound x → rtc gstep (gen_started x) s → gen_inv s.
Proof.
  intros Hx Hr. assert (gen_inv (gen_started x)) as H0 by (split; [by apply history_one|done]). revert H0.
  induction Hr as [|s1 s2 s3 Hs _ IH]; [done|]. intros H0. by eapply IH, gstep_inv.
Qed.

(** *** Steps of the replicate that are such moves *)
(** Appending after what is applied, cutting the log off and saving states: a batch that sets no entry up to the applied index. *)
Lemma moves_write x ps wb L : eng_wf (mo_e x) → ps_cell ps = ps_cell (mo_ps x) → mo_applied x ≤ AppliedIndex (applyState ps) →
  (∀ i v, is_u64 i → i ≤ mo_applied x → BSet (getRaftLogKey (mo_id x) i) v ∉ wb) → moves x (mkMoment ps (KVTree.Write wb (mo_e x)) L).
Proof.
  intros Hwf Hc Ha Hwb. split; cbn [mo_ps mo_e mo_log]; [by rewrite Hc|done|]. intros i v Hu Hi. rewrite Write_map by done.
  assert (∀ v, BSet (getRaftLogKey (mo_id x) i) v ∉ wb) as Hn by (intros; by apply Hwb). clear Hwb. revert Hn. generalize (eng_map (mo_e x)) as mm.
  induction wb as [|o wb IH]; intros mm Hn; [done|]. cbn [map_write]. intros Hv. apply IH in Hv; [|intros v' Hin; apply (Hn v'); by right].
  destruct o as [k' v'|k']; cbn in Hv.
  - destruct (decide (k' = getRaftLogKey (mo_id x) i)) as [->|Hk]; [destruct (Hn v'); left|by rewrite lookup_insert_ne in Hv].
  - by apply lookup_delete_Some in Hv as [_ ?].
Qed.
(** Applying up to an index of the log and saving that. *)
Definition applied_up_to (a : Z) (x : moment) : moment :=
  let st := mkApplyState a (TruncatedState (applyState (mo_ps x))) in
  mkMoment (set_applyState st (mo_ps x)) (KVTree.Write [BSet (getApplyStateKey (mo_id x)) (VApplyState st)] (mo_e x)) (mo_log x).
Lemma applied_moves a x : sound x → mo_applied x ≤ a ≤ last_index (mo_log x) → sound (applied_up_to a x) ∧ moves x (applied_up_to a x).
Proof.
  intros [R [Hrs Has] Ha] Hl. pose proof (rp_id _ _ _ R) as Hid. pose proof (rp_wf _ _ _ R) as Hwf. split.
  - split; unfold applied_up_to; cbn [mo_ps mo_e mo_log]; [| |cbn; lia].
    + split; cbn [ps_cell set_applyState applyState TruncatedState]; try apply R; [by apply Write_wf| |].
      * intros k. rewrite Write_map by done. cbn [map_write foldl map_op]. intros [<-|?]%lookup_insert_is_Some'; [by exists (KApplyState (mo_id x))|by apply R].
      * intros i Hi Hu. rewrite Write_map by done. cbn. rewrite lookup_insert_ne by (apply not_eq_sym; by apply log_key_ne_applyState). by apply R.
    + pose proof (state_keys_ne (mo_id x) Hid). split; cbn [ps_cell set_applyState raftState applyState]; rewrite Write_map by done; cbn; [by rewrite lookup_insert_ne|by rewrite lookup_insert_eq].
  - apply moves_write; [done|done|cbn; lia|]. intros i v Hu _ Hin%list_elem_of_singleton.
    assert (getRaftLogKey (mo_id x) i = getApplyStateKey (mo_id x)) as Hk by congruence. by apply log_key_ne_applyState in Hk.
Qed.
End job.

(** ** How often it is tried *)
Definition complete (r : option GenSnapshot) (g : gen) : gen := mkGen (Some (Finished, r)) (g_tried g).
(** Raft asks again after each run of the job; the results of the runs, with the storage when it asks again.  The
    answer, and the number of runs. *)
Fixpoint attempts (ps : peerStorage) (rs : list (option GenSnapshot * peerStorage)) (g : gen) : option (snap_answer * nat) :=
  match Snapshot true ps g with
  | Ok (ErrSnapshotTemporarilyUnavailable, g) =>
      match rs with
      | [] => None
      | (r, ps') :: rs' => match attempts ps' rs' (complete r g) with Some (a, n) => Some (a, S n) | None => None end
      end
  | Ok (a, _) => Some (a, O)
  | _ => None
  end.
Lemma try_snapshot_go g : try_snapshot true g = if bool_decide (maxSnapTryCnt ≤ g_tried g) then Ok (ErrSnapGivenUp (g_tried g), mkGen None 0) else Ok (ErrSnapshotTemporarilyUnavailable, mkGen (Some (Pending, None)) (g_tried g + 1)).
Proof. done. Qed.
(** An answer, or one more run. *)
Lemma Snapshot_complete r ps t : ∃ t', t ≤ t' ∧ (Snapshot true ps (complete r (mkGen None t)) = Ok (ErrSnapshotTemporarilyUnavailable, mkGen (Some (Pending, None)) (t' + 1)) ∧ t' < maxSnapTryCnt ∨
  ∃ a g, Snapshot true ps (complete r (mkGen None t)) = Ok (a, g) ∧ a ≠ ErrSnapshotTemporarilyUnavailable).
Proof.
  unfold Snapshot, complete. cbn [isGeneratingSnap isGenSnapJobComplete g_job g_tried IsNotComplete]. change (IsNotComplete Finished) with false. cbn [negb].
  destruct r as [snap|]; [destruct (validateSnap ps (gs_snap snap)); [exists t; split; [lia|right]; by eexists _, _|exists t]|exists (t + 1)]; (split; [lia|]); rewrite try_snapshot_go; cbn [g_tried]; (case_bool_decide; [right; by eexists _, _|left; split; [done|lia]]).
Qed.
Lemma attempts_complete rs r ps t : 0 ≤ t → (Z.to_nat (maxSnapTryCnt - t) ≤ length rs)%nat → ∃ a n, attempts ps rs (complete r (mkGen None t)) = Some (a, n) ∧ a ≠ ErrSnapshotTemporarilyUnavailable ∧ Z.of_nat n ≤ Z.max 0 (maxSnapTryCnt - t).
Proof.
  assert (maxSnapTryCnt = 5) as H5 by done. revert r ps t. induction rs as [|[r' ps'] rs IH]; intros r ps t Ht Hl.
  - destruct (Snapshot_complete r ps t) as (t' & Ht' & [[_ Hlt]|(a & g & Hs & Ha)]); [simpl in Hl; lia|]. exists a, O. cbn [attempts]. rewrite Hs. split_and!; [by destruct a|done|lia].
  - destruct (Snapshot_complete r ps t) as (t' & Ht' & [[Hs Hlt]|(a & g & Hs & Ha)]); [|exists a, O; cbn [attempts]; rewrite Hs; split_and!; [by destruct a|done|lia]].
    cbn [attempts]. rewrite Hs. change (complete r' (mkGen (Some (Pending, None)) (t' + 1))) with (complete r' (mkGen None (t' + 1))). destruct (IH r' ps' (t' + 1)) as (a & n & -> & Ha & Hn); [lia|simpl in Hl; lia|].
    exists a, (S n). split_and!; [done|done|lia].
Qed.
(** Raft that asks a storage for a snapshot again and again gets one or an error after at most five runs of the job; if
    every run fails it is after the third. *)
Theorem snapshot_attempts (ps : peerStorage) (rs : list (option GenSnapshot * peerStorage)) : (5 ≤ length rs)%nat →
  (∃ a n, attempts ps rs (mkGen None 0) = Some (a, n) ∧ a ≠ ErrSnapshotTemporarilyUnavailable ∧ (n ≤ 5)%nat) ∧
  (Forall (λ r, r.1 = None) rs → attempts ps rs (mkGen None 0) = Some (ErrSnapGivenUp 6, 3%nat)).
Proof.
  intros Hl. destruct rs as [|[r1 ps1] [|[r2 ps2] [|[r3 ps3] rs]]]; [simpl in Hl; lia..|]. split.
  - cbn [attempts]. change (Snapshot true ps (mkGen None 0)) with (Ok (E := unit) (ErrSnapshotTemporarilyUnavailable, mkGen (Some (Pending, None)) 1)). cbn iota.
    change (complete r1 (mkGen (Some (Pending, None)) 1)) with (complete r1 (mkGen None 1)). destruct (attempts_complete ((r2, ps2) :: (r3, ps3) :: rs) r1 ps1 1) as (a & n & Ha & Hne & Hn); [lia|change maxSnapTryCnt with 5; cbn [length] in *; lia|].
    fold attempts. cbn [attempts] in Ha. rewrite Ha. exists a, (S n). split_and!; [done|done|]. change maxSnapTryCnt with 5 in Hn. lia.
  - rewrite !Forall_cons. cbn [fst]. intros (-> & -> & -> & _). by destruct rs.
Qed.

(** ** A storage whose snapshot somebody else is creating *)
Definition gen_storage : peerStorage := mkPeerStorage demo_cell raftInitLogTerm raftInitLogTerm raftInitLogIndex 0 initialRaftState initialApplyState.
Definition gen_engine : mem := SaveCell (Engine0 := memory_engine) demo_cell eng_empty.
Lemma gen_storage_ok : rep (Engine0 := memory_engine) gen_storage gen_engine (mkLog 5 5 []) ∧ persisted (Engine0 := memory_engine) gen_storage gen_engine.
Proof.
  destruct (SaveCell_rep (Engine0 := memory_engine (T := mem)) demo_cell) as (ps & Hn & _ & _ & _ & R & Hp); [by vm_compute|done|]. assert (ps = gen_storage) as <-; [|done].
  assert (newPeerStorage (Engine0 := memory_engine (T := mem)) demo_cell gen_engine = Ok gen_storage) as Hg by (vm_compute; reflexivity). unfold gen_engine in Hg. congruence.
Qed.
(** Entries 6 to 8 are appended and 7, of term 6, is applied; the job reads that, and entry 8 is applied before it reads
    the cell. *)
#[local] Existing Instance memory_engine.
#[local] Existing Instance bits_archive.
#[local] Existing Instance no_indexer.
Definition gen_appended : moment (E := mem) :=
  match handleRaftReadyAppend gen_storage demo_ready gen_engine with
  | Ok (ctx, e) => mkMoment (apply_ready demo_ready ctx gen_storage) e demo_log
  | _ => mkMoment gen_storage gen_engine demo_log
  end.
Lemma gen_appended_sound : sound gen_appended.
Proof.
  destruct gen_storage_ok as [R Hp]. destruct (ready_refines gen_storage gen_engine _ demo_ready R (demo_ready_ok gen_storage)) as (ctx & e & Heq & R').
  pose proof (ready_persists _ _ _ _ _ _ R (demo_ready_ok gen_storage) Hp Heq) as Hp'.
  assert (AppliedIndex (applyState (mo_ps gen_appended)) = 5) as Ha by (vm_compute; reflexivity). revert Ha. unfold gen_appended. rewrite Heq. cbn [mo_ps mo_e mo_log]. intros Ha.
  split; cbn [mo_ps mo_e mo_log]; [exact R'|exact Hp'|rewrite Ha; by vm_compute].
Qed.
Definition gen_7 : moment := applied_up_to 7 gen_appended.
Definition gen_8 : moment := applied_up_to 8 gen_7.
Definition gen_result : GenSnapshot := mkGenSnapshot (mkSnapshot 7 6 demo_cell) [1; 2; 3].
Definition gen_busy : SnapshotManager := (Register (mkSnapHeader demo_cell (mkPeer 0 0) (mkPeer 0 0) 6 7) creating (mkManager [x61] 10 ∅)).2.
Lemma gen_steps : rtc (gstep 0) (gen_started gen_appended) (mkSys [gen_appended; gen_7; gen_8] (mkGen (Some (Finished, Some gen_result)) 1)).
Proof.
  destruct (applied_moves 7 gen_appended gen_appended_sound) as [S7 M7]; [by vm_compute|]. destruct (applied_moves 8 gen_7 S7) as [S8 M8]; [by vm_compute|].
  eapply rtc_l; [exact (step_move 0 [gen_appended] _ gen_appended gen_7 eq_refl S7 M7)|].
  eapply rtc_l; [eapply (step_ask 0 [gen_appended; gen_7] _ gen_7); [reflexivity|vm_compute; reflexivity]|].
  eapply rtc_l; [exact (step_move 0 [gen_appended; gen_7] _ gen_7 gen_8 eq_refl S8 M8)|]. apply rtc_once.
  eapply (step_work 0 _ _ _ 1 1 2 2 gen_7 gen_7 gen_8 gen_8 (mkEnv (λ _, []) (λ _, None)) gen_busy (calm ∅)); [by split; [lia|..]|].
  vm_compute. reflexivity.
Qed.
Lemma snapshot_attempts_witness : attempts gen_storage (repeat (None, gen_storage) 5) (mkGen None 0) = Some (ErrSnapGivenUp 6, 3%nat).
Proof. apply (snapshot_attempts gen_storage (repeat (None, gen_storage) 5)); [simpl; lia|]. repeat constructor. Defined.
