(* ===== verification/Runner.v ===== *)
(** * The job runner (pkg/util/task.go)

    A runner has named queues of jobs, with workers that execute them, and tasks of their own.  An
    operation is a critical section of the runner's lock; what workers do between those is a
    step of its own.  Job objects are numbers; one that goes back to the pool is forgotten, since only the
    runner knew it. *)

From S2P Require Import Prelude Queue Store.

Inductive runner_state := RRunning | RStopping | RStopped.
#[export] Instance runner_state_eq : EqDecision runner_state.
Proof. solve_decision. Defined.
Inductive runner_error := ErrUnavailable | ErrNoWorker | ErrNoTask | ErrAlreadyStopped | ErrStopTimeout.

(** ** Jobs *)
Record Job := mkJob { j_desc : bytes; j_fun : Z; j_state : JobState; j_result : option Z; j_needRelease : bool }.
Definition newJob (desc : bytes) (fun_ : Z) : Job := mkJob desc fun_ Pending None true.
Definition set_state (st : JobState) (j : Job) : Job := mkJob (j_desc j) (j_fun j) st (j_result j) (j_needRelease j).
Definition SetResult (r : option Z) (j : Job) : Job := mkJob (j_desc j) (j_fun j) (j_state j) r (j_needRelease j).
Definition GetResult (j : Job) : option Z := j_result j.
Definition IsComplete (j : Job) : bool := negb (IsNotComplete (j_state j)).
Definition isSpecState (spec : JobState) (j : Job) : bool := bool_decide (j_state j = spec).
Definition IsRunning : Job → bool := isSpecState Running.
Definition IsPending : Job → bool := isSpecState Pending.
Definition IsFinished : Job → bool := isSpecState Finished.
Definition IsCancelling : Job → bool := isSpecState Cancelling.
Definition IsFailed : Job → bool := isSpecState Failed.
Definition Cancel_job (j : Job) : Job := set_state (Cancel (j_state j)) j.

(** ** The runner *)
(** A worker reads its queue; [w_jobs] are the jobs it has taken, the first of which is executed when
    [w_running]. *)
Record worker := mkWorker { w_queue : bytes; w_jobs : list Z; w_running : bool }.
(** [ru_cancels]: the tasks that can be cancelled; [ru_cancelled]: those whose context was; [ru_tasks]: the
    goroutines other than workers; [ru_locked]: [Stop] waits with the lock. *)
Record Runner := mkRunner {
  ru_state : runner_state;
  ru_locked : bool;
  ru_lastID : Z;
  ru_cancels : gset Z;
  ru_cancelled : gset Z;
  ru_queues : gmap bytes (Queue Z);
  ru_jobs : gmap Z Job;
  ru_nextJob : Z;
  ru_workers : gmap Z worker;
  ru_tasks : list Z;
}.
(** What happens to a queue: a worker joins, jobs are accepted, handled or dropped. *)
Inductive jevent := Joined (name : bytes) | Accepted (name : bytes) (job : Z) | Handled (name : bytes) (job : Z) | Dropped (name : bytes) (jobs : list Z).

Definition defaultQueueName : bytes := [x5f; x5f; x64; x65; x66; x61; x75; x6c; x74; x5f; x5f].
Definition batch : Z := 64.
Definition with_queues (x : gmap bytes (Queue Z)) (r : Runner) : Runner :=
  mkRunner (ru_state r) (ru_locked r) (ru_lastID r) (ru_cancels r) (ru_cancelled r) x (ru_jobs r) (ru_nextJob r) (ru_workers r) (ru_tasks r).
Definition with_jobs (x : gmap Z Job) (r : Runner) : Runner :=
  mkRunner (ru_state r) (ru_locked r) (ru_lastID r) (ru_cancels r) (ru_cancelled r) (ru_queues r) x (ru_nextJob r) (ru_workers r) (ru_tasks r).
Definition with_workers (x : gmap Z worker) (r : Runner) : Runner :=
  mkRunner (ru_state r) (ru_locked r) (ru_lastID r) (ru_cancels r) (ru_cancelled r) (ru_queues r) (ru_jobs r) (ru_nextJob r) x (ru_tasks r).
Definition with_tasks (x : list Z) (r : Runner) : Runner :=
  mkRunner (ru_state r) (ru_locked r) (ru_lastID r) (ru_cancels r) (ru_cancelled r) (ru_queues r) (ru_jobs r) (ru_nextJob r) (ru_workers r) x.

(** *** Operations *)
(** The id of a new task that can be cancelled. *)
Definition new_task (r : Runner) : outcome runner_error (Z * Runner) :=
  if negb (bool_decide (ru_state r = RRunning)) then Err ErrUnavailable
  else
    let id := u64 (ru_lastID r + 1) in
    Ok (id, mkRunner (ru_state r) (ru_locked r) id ({[id]} ∪ ru_cancels r) (ru_cancelled r) (ru_queues r) (ru_jobs r) (ru_nextJob r) (ru_workers r) (ru_tasks r)).
Definition RunCancelableTask (r : Runner) : outcome runner_error (Z * Runner) :=
  let! (id, r) := new_task r in Ok (id, with_tasks (id :: ru_tasks r) r).
Definition startWorker (name : bytes) (r : Runner) : outcome runner_error (Z * Runner) :=
  let! (id, r) := new_task r in Ok (id, with_workers (<[id := mkWorker name [] false]> (ru_workers r)) r).
Definition add_queue (name : bytes) (r : Runner) : Runner :=
  match ru_queues r !! name with Some _ => r | None => with_queues (<[name := New]> (ru_queues r)) r end.
(** The queue is there even if the worker cannot be started. *)
Definition AddNamedWorker (name : bytes) (r : Runner) : outcome runner_error Z * Runner :=
  let r := add_queue name r in match startWorker name r with Ok (id, r') => (Ok id, r') | Err e => (Err e, r) | Panic => (Panic, r) end.
Definition NewRunner : Runner := (AddNamedWorker defaultQueueName (mkRunner RRunning false 0 ∅ ∅ ∅ ∅ 0 ∅ [])).2.
Definition RunTask (task : Z) (r : Runner) : outcome runner_error Runner :=
  if negb (bool_decide (ru_state r = RRunning)) then Err ErrUnavailable else Ok (with_tasks (task :: ru_tasks r) r).
(** [Len] of a queue that is not there dereferences nil. *)
Definition IsNamedWorkerBusy (name : bytes) (r : Runner) : outcome runner_error bool :=
  match ru_queues r !! name with Some q => Ok (bool_decide (0 < Len q)) | None => Panic end.
(** [cb]: the caller keeps the job. *)
Definition RunJobWithNamedWorkerWithCB (desc name : bytes) (task : Z) (cb : bool) (r : Runner) : outcome runner_error (Z * Runner) :=
  if negb (bool_decide (ru_state r = RRunning)) then Err ErrUnavailable
  else
    match ru_queues r !! name with
    | None => Err ErrNoWorker
    | Some q =>
        let id := ru_nextJob r in
        let job := newJob desc task in
        let job := if cb then mkJob (j_desc job) (j_fun job) (j_state job) (j_result job) false else job in
        Ok (id, mkRunner (ru_state r) (ru_locked r) (ru_lastID r) (ru_cancels r) (ru_cancelled r)
                  (<[name := mkQueue (waiters q) (items q ++ [id]) (disposed q)]> (ru_queues r)) (<[id := job]> (ru_jobs r)) (id + 1) (ru_workers r) (ru_tasks r))
    end.
Definition RunJobWithNamedWorker (desc name : bytes) (task : Z) (r : Runner) := RunJobWithNamedWorkerWithCB desc name task false r.
Definition RunJob (desc : bytes) (task : Z) (r : Runner) := RunJobWithNamedWorker desc defaultQueueName task r.
Definition StopCancelableTask (id : Z) (r : Runner) : outcome runner_error Runner :=
  if negb (bool_decide (ru_state r = RRunning)) then Err ErrAlreadyStopped
  else if bool_decide (id ∈ ru_cancels r) then
    Ok (mkRunner (ru_state r) (ru_locked r) (ru_lastID r) (ru_cancels r ∖ {[id]}) ({[id]} ∪ ru_cancelled r) (ru_queues r) (ru_jobs r) (ru_nextJob r) (ru_workers r) (ru_tasks r))
  else Err ErrNoTask.
(** [Stop] until it waits: contexts are cancelled and queues disposed, with the jobs that no worker has taken. *)
Definition Stop_begin (r : Runner) : outcome runner_error (list jevent * Runner) :=
  if negb (bool_decide (ru_state r = RRunning)) then Err ErrAlreadyStopped
  else Ok ((λ '(name, q), Dropped name (items q)) <$> map_to_list (ru_queues r),
           mkRunner RStopping true (ru_lastID r) (ru_cancels r) (ru_cancels r ∪ ru_cancelled r) ((λ q, (Dispose q).2) <$> ru_queues r) (ru_jobs r) (ru_nextJob r) (ru_workers r) (ru_tasks r)).
(** All goroutines have ended, or a minute is over. *)
Definition Stop_end (timeout : bool) (r : Runner) : outcome runner_error unit * Runner :=
  let unlock st := mkRunner st false (ru_lastID r) (ru_cancels r) (ru_cancelled r) (ru_queues r) (ru_jobs r) (ru_nextJob r) (ru_workers r) (ru_tasks r) in
  if timeout then (Err ErrStopTimeout, unlock (ru_state r)) else (Ok tt, unlock RStopped).

(** *** Workers *)
(** A worker that has no job takes a batch; it ends when its queue is disposed. *)
Definition worker_get (id : Z) (r : Runner) : option Runner :=
  match ru_workers r !! id with
  | Some (mkWorker name [] _) =>
      match ru_queues r !! name with
      | Some q =>
          if disposed q then Some (with_workers (delete id (ru_workers r)) r)
          else match items q with
               | [] => None
               | _ => let '(taken, rest) := items_get batch (items q) in
                      Some (with_queues (<[name := mkQueue (waiters q) rest (disposed q)]> (ru_queues r)) (with_workers (<[id := mkWorker name taken false]> (ru_workers r)) r))
               end
      | None => None
      end
  | _ => None
  end.
(** A job that is done; its object goes back to the pool unless somebody keeps it. *)
Definition finish_job (job : Z) (j : Job) (r : Runner) : Runner := with_jobs (if j_needRelease j then delete job (ru_jobs r) else <[job := j]> (ru_jobs r)) r.
Definition worker_start (id : Z) (r : Runner) : option (list jevent * Runner) :=
  match ru_workers r !! id with
  | Some (mkWorker name (job :: jobs) false) =>
      match ru_jobs r !! job with
      | Some j =>
          let '(st, run) := job_start (j_state j) in
          if (run : bool) then Some ([], with_workers (<[id := mkWorker name (job :: jobs) true]> (ru_workers r)) (with_jobs (<[job := set_state st j]> (ru_jobs r)) r))
          else Some ([Handled name job], with_workers (<[id := mkWorker name jobs false]> (ru_workers r)) (finish_job job (set_state st j) r))
      | None => None
      end
  | _ => None
  end.
Definition worker_end (id : Z) (err : option job_error) (r : Runner) : option (list jevent * Runner) :=
  match ru_workers r !! id with
  | Some (mkWorker name (job :: jobs) true) =>
      match ru_jobs r !! job with
      | Some j => Some ([Handled name job], with_workers (<[id := mkWorker name jobs false]> (ru_workers r)) (finish_job job (set_state (job_end (j_state j) err) j) r))
      | None => None
      end
  | _ => None
  end.

(** ** Runs *)
(** Operations wait for the lock; 2^64 tasks are never started.  [AddNamedWorker] has two critical sections:
    [step_queue] is the first alone, and after it [step_worker] is the second. *)
Inductive rstep : Runner → list jevent → Runner → Prop :=
  | step_worker name r id r' : ru_locked r = false → ru_lastID r + 1 < two64 → AddNamedWorker name r = (Ok id, r') → rstep r [Joined name] r'
  | step_queue name r : ru_locked r = false → rstep r [] (add_queue name r)
  | step_task r id r' : ru_locked r = false → ru_lastID r + 1 < two64 → RunCancelableTask r = Ok (id, r') → rstep r [] r'
  | step_plain_task task r r' : ru_locked r = false → RunTask task r = Ok r' → rstep r [] r'
  | step_job desc name task cb r id r' : ru_locked r = false → RunJobWithNamedWorkerWithCB desc name task cb r = Ok (id, r') → rstep r [Accepted name id] r'
  | step_stop_task id r r' : ru_locked r = false → StopCancelableTask id r = Ok r' → rstep r [] r'
  | step_stop r evs r' : ru_locked r = false → Stop_begin r = Ok (evs, r') → rstep r evs r'
  | step_stopped r : ru_locked r = true → ru_workers r = ∅ → ru_tasks r = [] → rstep r [] (Stop_end false r).2
  | step_stop_timeout r : ru_locked r = true → rstep r [] (Stop_end true r).2
  | step_cancel job j r : ru_jobs r !! job = Some j → rstep r [] (with_jobs (<[job := Cancel_job j]> (ru_jobs r)) r)
  | step_result job j res r : ru_jobs r !! job = Some j → rstep r [] (with_jobs (<[job := SetResult res j]> (ru_jobs r)) r)
  | step_task_ends t ts ts' r : ru_tasks r = ts ++ t :: ts' → rstep r [] (with_tasks (ts ++ ts') r)
  | step_get id r r' : worker_get id r = Some r' → rstep r [] r'
  | step_start id r evs r' : worker_start id r = Some (evs, r') → rstep r evs r'
  | step_end id err r evs r' : worker_end id err r = Some (evs, r') → rstep r evs r'.
Inductive rsteps : list jevent → Runner → Prop :=
  | run_new : rsteps [Joined defaultQueueName] NewRunner
  | run_step evs r evs' r' : rsteps evs r → rstep r evs' r' → rsteps (evs ++ evs') r'.

(** ** What becomes of jobs *)
Definition accepted (name : bytes) (evs : list jevent) : list Z := omap (λ e, match e with Accepted n j => if decide (n = name) then Some j else None | _ => None end) evs.
Definition handled (name : bytes) (evs : list jevent) : list Z := omap (λ e, match e with Handled n j => if decide (n = name) then Some j else None | _ => None end) evs.
Definition dropped (name : bytes) (evs : list jevent) : list Z := concat (omap (λ e, match e with Dropped n js => if decide (n = name) then Some js else None | _ => None end) evs).
Lemma accepted_app name a b : accepted name (a ++ b) = accepted name a ++ accepted name b.
Proof. apply omap_app. Qed.
Lemma handled_app name a b : handled name (a ++ b) = handled name a ++ handled name b.
Proof. apply omap_app. Qed.
Lemma dropped_app name a b : dropped name (a ++ b) = dropped name a ++ dropped name b.
Proof. unfold dropped. by rewrite omap_app, concat_app. Qed.
Definition joined (name : bytes) (evs : list jevent) : list unit := omap (λ e, match e with Joined n => if decide (n = name) then Some tt else None | _ => None end) evs.
Lemma joined_app name a b : joined name (a ++ b) = joined name a ++ joined name b.
Proof. apply omap_app. Qed.
(** The jobs the workers of a queue have taken, and those in the queue. *)
Definition on_queue (name : bytes) (ws : gmap Z worker) : list worker := filter (λ w, w_queue w = name) (map_to_list ws).*2.
Definition taken (name : bytes) (ws : gmap Z worker) : list Z := concat (w_jobs <$> on_queue name ws).
Definition queued (name : bytes) (qs : gmap bytes (Queue Z)) : list Z := match qs !! name with Some q => items q | None => [] end.
Lemma on_queue_insert name ws id w : ws !! id = None → on_queue name (<[id := w]> ws) ≡ₚ (if decide (w_queue w = name) then [w] else []) ++ on_queue name ws.
Proof. intros Hn. unfold on_queue. rewrite map_to_list_insert by done. rewrite fmap_cons, filter_cons. cbn [snd]. by destruct (decide (w_queue w = name)). Qed.
Lemma on_queue_delete name ws id w : ws !! id = Some w → on_queue name ws ≡ₚ (if decide (w_queue w = name) then [w] else []) ++ on_queue name (delete id ws).
Proof. intros Hw. rewrite <-(insert_delete_id ws id w Hw) at 1. apply on_queue_insert, lookup_delete_eq. Qed.
Lemma on_queue_update name ws id w w' : ws !! id = Some w → on_queue name (<[id := w']> ws) ≡ₚ (if decide (w_queue w' = name) then [w'] else []) ++ on_queue name (delete id ws).
Proof. intros Hw. rewrite <-insert_delete_eq. apply on_queue_insert, lookup_delete_eq. Qed.
(** With one worker at most, a permutation of workers is the same list. *)
Lemma short_perm {A} (a b : list A) : a ≡ₚ b → (length a ≤ 1)%nat → a = b.
Proof. intros Hp Hl. destruct a as [|x [|? ?]]; [by apply Permutation_nil_l in Hp|by apply Permutation_singleton_l in Hp|simpl in Hl; lia]. Qed.
Lemma taken_perm name ws a : on_queue name ws ≡ₚ a → taken name ws ≡ₚ concat (w_jobs <$> a).
Proof. intros Hp. unfold taken. by rewrite Hp. Qed.
Lemma taken_eq name ws a : on_queue name ws ≡ₚ a → (length (on_queue name ws) ≤ 1)%nat → taken name ws = concat (w_jobs <$> a).
Proof. intros Hp Hl. unfold taken. by rewrite (short_perm _ _ Hp Hl). Qed.

(** *** The account of a queue *)
Definition books (name : bytes) (evs : list jevent) (ws : gmap Z worker) (qs : gmap bytes (Queue Z)) : list Z := handled name evs ++ taken name ws ++ queued name qs ++ dropped name evs.
Record account (name : bytes) (evs : list jevent) (r : Runner) : Prop := {
  ac_perm : books name evs (ru_workers r) (ru_queues r) ≡ₚ accepted name evs;
  ac_order : (length (joined name evs) ≤ 1)%nat → books name evs (ru_workers r) (ru_queues r) = accepted name evs;
  ac_workers : (length (on_queue name (ru_workers r)) ≤ length (joined name evs))%nat;
  ac_dropped : ru_state r = RRunning → dropped name evs = [];
}.
Record ids_ok (r : Runner) : Prop := {
  io_workers id w : ru_workers r !! id = Some w → id ≤ ru_lastID r;
  io_last : 0 ≤ ru_lastID r;
}.
(** A step that leaves the queue alone. *)
Lemma account_same name evs r r' : account name evs r → on_queue name (ru_workers r') ≡ₚ on_queue name (ru_workers r) → queued name (ru_queues r') = queued name (ru_queues r) →
  (ru_state r' = RRunning → ru_state r = RRunning) → account name evs r'.
Proof.
  intros [Hp Ho Hw Hd] Hws Hqs Hst. unfold books in *. split; unfold books; rewrite ?Hqs.
  - by rewrite (taken_perm _ _ _ Hws).
  - intros Hj. rewrite (taken_eq _ _ _ Hws); [by apply Ho|]. rewrite Hws. lia.
  - by rewrite Hws.
  - auto.
Qed.
(** A worker of the queue goes on: [a] were its jobs, [b] are, [h] it has handled and [l] it has taken from the
    front of the queue. *)
Lemma account_worker name evs r r' id w w' h l : account name evs r → ru_workers r !! id = Some w → w_queue w = name → w_queue w' = name → ru_workers r' = <[id := w']> (ru_workers r) →
  w_jobs w ++ l = h ++ w_jobs w' → (w_jobs w = [] ∨ l = []) → queued name (ru_queues r) = l ++ queued name (ru_queues r') → ru_state r' = ru_state r →
  account name (evs ++ (Handled name <$> h)) r'.
Proof.
  intros [Hp Ho Hw Hd] Hid Hq Hq' Hws Hjobs Hor Hqs Hst. assert (accepted name (Handled name <$> h) = [] ∧ dropped name (Handled name <$> h) = [] ∧ joined name (Handled name <$> h) = [] ∧ handled name (Handled name <$> h) = h) as (E1 & E2 & E3 & E4).
  { clear. unfold dropped. induction h as [|x h IH]; [done|]. destruct IH as (I1 & I2 & I3 & I4). cbn. rewrite decide_True by done. unfold accepted, handled, joined in *. cbn in *. split_and!; [done|done|done|by rewrite I4]. }
  pose proof (on_queue_delete name _ _ _ Hid) as Hdel. rewrite decide_True in Hdel by done. pose proof (on_queue_update name _ id w w' Hid) as Hupd. rewrite decide_True in Hupd by done. rewrite <-Hws in Hupd.
  split; unfold books in *; rewrite ?accepted_app, ?handled_app, ?dropped_app, ?joined_app, ?E1, ?E2, ?E3, ?E4, ?app_nil_r.
  - rewrite <-Hp, (taken_perm _ _ _ Hdel), (taken_perm _ _ _ Hupd), Hqs. rewrite !fmap_app, !concat_app. cbn [fmap list_fmap concat]. rewrite !app_nil_r.
    transitivity (handled name evs ++ (w_jobs w ++ l) ++ concat (w_jobs <$> on_queue name (delete id (ru_workers r))) ++ queued name (ru_queues r') ++ dropped name evs); [rewrite Hjobs; solve_Permutation|solve_Permutation].
  - intros Hj. rewrite <-(Ho Hj). assert (length (on_queue name (ru_workers r)) ≤ 1)%nat as Hl by lia. rewrite (taken_eq _ _ _ Hdel Hl). pose proof Hl as Hl'. rewrite Hdel in Hl'. cbn [app length] in Hl'.
    assert (on_queue name (delete id (ru_workers r)) = []) as Hnil by (apply nil_length_inv; lia). rewrite Hnil in *. rewrite (taken_eq _ _ _ Hupd) by (rewrite Hupd; simpl; lia).
    cbn [app fmap list_fmap concat]. rewrite !app_nil_r, Hqs. rewrite <-!(assoc_L (++)). f_equal. rewrite !(assoc_L (++)). by rewrite <-Hjobs.
  - rewrite Hupd. rewrite Hdel in Hw. cbn [app length] in *. done.
  - rewrite Hst. done.
Qed.
Lemma account_exit name evs r r' id w : account name evs r → ru_workers r !! id = Some w → w_jobs w = [] → ru_workers r' = delete id (ru_workers r) → ru_queues r' = ru_queues r → ru_state r' = ru_state r →
  account name evs r'.
Proof.
  intros [Hp Ho Hw Hd] Hid Hj Hws Hqs Hst. pose proof (on_queue_delete name _ _ _ Hid) as Hdel. rewrite <-Hws in Hdel.
  assert (∀ ws, concat (w_jobs <$> (if decide (w_queue w = name) then [w] else []) ++ ws) = concat (w_jobs <$> ws)) as Hc by (intros ws; case_decide; cbn; by rewrite ?Hj).
  assert (length (on_queue name (ru_workers r')) ≤ length (on_queue name (ru_workers r)))%nat as Hl by (rewrite Hdel, length_app; lia).
  split; unfold books in *; rewrite ?Hqs.
  - rewrite <-Hp, (taken_perm _ _ _ Hdel), Hc. done.
  - intros H1. rewrite <-(Ho H1), (taken_eq _ _ _ Hdel), Hc by lia. done.
  - lia.
  - by rewrite Hst.
Qed.
Lemma account_join name n evs r r' id : account name evs r → ru_workers r !! id = None → ru_workers r' = <[id := mkWorker n [] false]> (ru_workers r) → queued name (ru_queues r') = queued name (ru_queues r) →
  ru_state r' = ru_state r → account name (evs ++ [Joined n]) r'.
Proof.
  intros [Hp Ho Hw Hd] Hid Hws Hqs Hst. pose proof (on_queue_insert name _ id (mkWorker n [] false) Hid) as Hins. rewrite <-Hws in Hins. cbn [w_queue] in Hins.
  assert (∀ ws, concat (w_jobs <$> (if decide (n = name) then [mkWorker n [] false] else []) ++ ws) = concat (w_jobs <$> ws)) as Hc by (intros ws; by case_decide).
  assert (joined name [Joined n] = if decide (n = name) then [tt] else []) as Hj by (unfold joined; cbn; by case_decide).
  assert (length (on_queue name (ru_workers r')) ≤ length (joined name (evs ++ [Joined n])))%nat as Hl.
  { rewrite Hins, joined_app, Hj, !length_app. case_decide; simpl; lia. }
  split; unfold books in *; rewrite ?Hqs, ?accepted_app, ?handled_app, ?dropped_app; cbn [accepted handled dropped omap list_omap concat]; rewrite ?app_nil_r.
  - rewrite <-Hp, (taken_perm _ _ _ Hins), Hc. done.
  - intros H1. rewrite (taken_eq _ _ _ Hins), Hc by lia. apply Ho. rewrite joined_app, length_app in H1. lia.
  - done.
  - by rewrite Hst.
Qed.
Lemma account_accept name n evs r r' id q : account name evs r → ru_state r = RRunning → ru_queues r !! n = Some q → ru_workers r' = ru_workers r →
  ru_queues r' = <[n := mkQueue (waiters q) (items q ++ [id]) (disposed q)]> (ru_queues r) → account name (evs ++ [Accepted n id]) r'.
Proof.
  intros [Hp Ho Hw Hd] Hst Hq Hws Hqs. specialize (Hd Hst). unfold books in *. rewrite Hd, !app_nil_r in *.
  assert (queued name (ru_queues r') = queued name (ru_queues r) ++ if decide (n = name) then [id] else []) as Hqs'.
  { unfold queued. rewrite Hqs. destruct (decide (n = name)) as [<-|Hne]; [by rewrite lookup_insert_eq, Hq|]. by rewrite lookup_insert_ne, app_nil_r. }
  assert (accepted name [Accepted n id] = if decide (n = name) then [id] else []) as Ha by (unfold accepted; cbn; by case_decide).
  split; unfold books; rewrite ?Hws, ?Hqs', ?accepted_app, ?handled_app, ?dropped_app, ?joined_app, ?Ha, ?Hd; cbn [joined handled dropped omap list_omap concat]; rewrite ?app_nil_r.
  - rewrite <-Hp. rewrite <-!(assoc_L (++)). done.
  - intros H1. rewrite <-(Ho H1). rewrite <-!(assoc_L (++)). done.
  - done.
  - done.
Qed.
Lemma dropped_queues (name : bytes) (qs : gmap bytes (Queue Z)) : dropped name ((λ '(n, q), Dropped n (items q)) <$> map_to_list qs) = queued name qs.
Proof.
  assert (∀ l : list (bytes * Queue Z), NoDup l.*1 → dropped name ((λ '(n, q), Dropped n (items q)) <$> l) = match (list_to_map l : gmap bytes (Queue Z)) !! name with Some q => items q | None => [] end) as Hl.
  { intros l Hnd. induction l as [|[n q] l IH]; [done|]. rewrite fmap_cons in Hnd. apply NoDup_cons in Hnd as [Hn Hnd]. specialize (IH Hnd). unfold dropped in *. cbn [fmap list_fmap omap list_omap list_to_map foldr].
    destruct (decide (n = name)) as [->|Hne].
    - cbn [concat]. rewrite IH, lookup_insert_eq. rewrite not_elem_of_list_to_map_1 by done. by rewrite app_nil_r.
    - rewrite IH. by rewrite lookup_insert_ne. }
  rewrite Hl by apply NoDup_fst_map_to_list. by rewrite list_to_map_to_list.
Qed.
Lemma stop_events name l : accepted name ((λ '(n, q), Dropped n (items q)) <$> l : list jevent) = [] ∧ handled name ((λ '(n, q), Dropped n (items (q : Queue Z))) <$> l) = [] ∧ joined name ((λ '(n, q), Dropped n (items (q : Queue Z))) <$> l) = [].
Proof. induction l as [|[n q] l IH]; [done|]. exact IH. Qed.
Lemma account_stop name evs r evs' r' : account name evs r → Stop_begin r = Ok (evs', r') → account name (evs ++ evs') r'.
Proof.
  intros [Hp Ho Hw Hd] Hs. unfold Stop_begin in Hs. destruct (bool_decide (ru_state r = RRunning)) eqn:Hst; [|done]. apply bool_decide_eq_true in Hst. cbn [negb] in Hs. injection Hs as <- <-.
  specialize (Hd Hst). unfold books in *. rewrite Hd, !app_nil_r in *. destruct (stop_events name (map_to_list (ru_queues r))) as (E1 & E2 & E3).
  assert (queued name ((λ _ : Queue Z, mkQueue [] [] true) <$> ru_queues r) = []) as Hq by (unfold queued; rewrite lookup_fmap; by destruct (ru_queues r !! name)).
  split; unfold books; cbn [ru_workers ru_queues ru_state]; rewrite ?accepted_app, ?handled_app, ?dropped_app, ?joined_app, ?E1, ?E2, ?E3, ?dropped_queues, ?Hd, ?app_nil_r; cbn [Dispose snd]; rewrite ?Hq; done.
Qed.
Lemma add_queue_same name n r : queued name (ru_queues (add_queue n r)) = queued name (ru_queues r) ∧ ru_workers (add_queue n r) = ru_workers r ∧ ru_state (add_queue n r) = ru_state r ∧ ru_lastID (add_queue n r) = ru_lastID r.
Proof.
  unfold add_queue. destruct (ru_queues r !! n) as [q|] eqn:Hq; [done|]. split_and!; try done. cbn. unfold queued. destruct (decide (n = name)) as [->|Hne]; [by rewrite lookup_insert_eq, Hq|].
  by rewrite lookup_insert_ne.
Qed.
Lemma new_task_spec r id r' : ids_ok r → ru_lastID r + 1 < two64 → new_task r = Ok (id, r') → id = ru_lastID r + 1 ∧ ru_lastID r' = id ∧ ru_workers r' = ru_workers r ∧ ru_queues r' = ru_queues r ∧ ru_state r' = ru_state r ∧ ru_jobs r' = ru_jobs r.
Proof.
  intros [_ H0] Hb. unfold new_task. case_bool_decide; [|done]. cbn [negb]. rewrite u64_small by (unfold is_u64; lia). by intros [= <- <-].
Qed.
Lemma AddNamedWorker_ok n r id r' : ids_ok r → ru_lastID r + 1 < two64 → AddNamedWorker n r = (Ok id, r') →
  id = ru_lastID r + 1 ∧ ru_lastID r' = id ∧ ru_workers r' = <[id := mkWorker n [] false]> (ru_workers r) ∧ ru_state r' = ru_state r ∧ ∀ name, queued name (ru_queues r') = queued name (ru_queues r).
Proof.
  intros Hok Hb Ha. unfold AddNamedWorker, startWorker in Ha. destruct (add_queue_same n n r) as (_ & Hws & Hst & Hl). pose proof (λ name, proj1 (add_queue_same name n r)) as Hqs.
  destruct (new_task (add_queue n r)) as [[id1 r1]|e|] eqn:Hn; cbn [outcome_bind] in Ha; [|done..]. injection Ha as <- <-.
  apply new_task_spec in Hn as (-> & H1 & H2 & H3 & H4 & _); [|destruct Hok; split; rewrite ?Hws, ?Hl; auto|by rewrite Hl]. cbn. rewrite H1, H2, H3, H4, Hl, Hws, Hst. done.
Qed.
Lemma rstep_ids r evs r' : ids_ok r → rstep r evs r' → ids_ok r'.
Proof.
  intros Hok Hs. pose proof Hok as [Hw H0].
  assert (∀ r1, ru_lastID r1 = ru_lastID r → ru_workers r1 = ru_workers r → ids_ok r1) as Hsame by (intros r1 E1 E2; split; rewrite ?E1, ?E2; done).
  assert (∀ r1 id w w', ru_lastID r1 = ru_lastID r → ru_workers r !! id = Some w → ru_workers r1 = <[id := w']> (ru_workers r) → ids_ok r1) as Hupd.
  { intros r1 id w w' E1 E2 E3. split; rewrite E1; [|done]. rewrite E3. intros id1 w1 [[<- _]|[_ Hid]]%lookup_insert_Some; by eapply Hw. }
  destruct Hs as [n r id r' Hl Hb Ha|n r Hl|r id r' Hl Hb Ha|task r r' Hl Ha|desc n task cb r id r' Hl Ha|id r r' Hl Ha|r evs r' Hl Ha|r Hl Hnw Hnt|r Hl|job j r Hj|job j res r Hj|tk ts ts' r Hts|id r r' Ha|id r evs r' Ha|id err r evs r' Ha].
  - destruct (AddNamedWorker_ok n r id r' Hok Hb Ha) as (-> & H1 & H2 & _). split; rewrite H1; [|lia]. rewrite H2. intros id w [[<- _]|[_ Hid]]%lookup_insert_Some; [lia|]. apply Hw in Hid. lia.
  - destruct (add_queue_same n n r) as (_ & H1 & _ & H2). by apply Hsame.
  - unfold RunCancelableTask in Ha. destruct (new_task r) as [[id1 r1]| |] eqn:Hn; cbn [outcome_bind] in Ha; [|done..]. injection Ha as <- <-. apply new_task_spec in Hn as (-> & H1 & H2 & _); [|done..].
    split; cbn; rewrite H1; [|lia]. rewrite H2. intros id w Hid. apply Hw in Hid. lia.
  - unfold RunTask in Ha. case_bool_decide; [|done]. injection Ha as <-. by apply Hsame.
  - unfold RunJobWithNamedWorkerWithCB in Ha. case_bool_decide; [|done]. cbn [negb] in Ha. destruct (ru_queues r !! n); [|done]. injection Ha as <- <-. by apply Hsame.
  - unfold StopCancelableTask in Ha. do 2 (case_bool_decide; [|done]). injection Ha as <-. by apply Hsame.
  - unfold Stop_begin in Ha. case_bool_decide; [|done]. injection Ha as <- <-. by apply Hsame.
  - by apply Hsame.
  - by apply Hsame.
  - by apply Hsame.
  - by apply Hsame.
  - by apply Hsame.
  - unfold worker_get in Ha. destruct (ru_workers r !! id) as [[n [|? ?] ?]|] eqn:Hid; [|done..]. destruct (ru_queues r !! n) as [q|]; [|done]. destruct (disposed q).
    + injection Ha as <-. split; cbn; [|done]. intros id1 w1 [_ Hid1]%lookup_delete_Some. by eapply Hw.
    + destruct (items q); [done|]. injection Ha as <-. by eapply Hupd.
  - unfold worker_start in Ha. destruct (ru_workers r !! id) as [[n [|job jobs] []]|] eqn:Hid; [done..| |done]. destruct (ru_jobs r !! job) as [j|]; [|done]. destruct (job_start (j_state j)) as [st []]; injection Ha as <- <-; by eapply Hupd.
  - unfold worker_end in Ha. destruct (ru_workers r !! id) as [[n [|job jobs] []]|] eqn:Hid; [done..| |done|done]. destruct (ru_jobs r !! job) as [j|]; [|done]. injection Ha as <- <-. by eapply Hupd.
Qed.
(** A worker of another queue goes on. *)
Lemma account_other name evs r r' id w w' : account name evs r → ru_workers r !! id = Some w → w_queue w' = w_queue w → w_queue w ≠ name → ru_workers r' = <[id := w']> (ru_workers r) →
  queued name (ru_queues r') = queued name (ru_queues r) → ru_state r' = ru_state r → account name evs r'.
Proof.
  intros Hac Hid Hq Hne Hws Hqs Hst. apply (account_same name evs r); [done| |done|congruence]. rewrite Hws, (on_queue_update name _ _ w) by done.
  rewrite (on_queue_delete name (ru_workers r) id w) by done. rewrite !decide_False by congruence. done.
Qed.
Lemma events_of_other name n h : n ≠ name → ∀ evs r, account name evs r → account name (evs ++ (Handled n <$> h)) r.
Proof.
  intros Hne evs r [Hp Ho Hw Hd]. assert (accepted name (Handled n <$> h) = [] ∧ dropped name (Handled n <$> h) = [] ∧ joined name (Handled n <$> h) = [] ∧ handled name (Handled n <$> h) = []) as (E1 & E2 & E3 & E4).
  { clear -Hne. unfold dropped. induction h as [|x h IH]; [done|]. destruct IH as (I1 & I2 & I3 & I4). unfold accepted, handled, joined in *. cbn in *. rewrite decide_False by done. done. }
  split; unfold books in *; rewrite ?accepted_app, ?handled_app, ?dropped_app, ?joined_app, ?E1, ?E2, ?E3, ?E4, ?app_nil_r; done.
Qed.
(** What a worker does with a job of its list. *)
Lemma account_handle name n evs r r' id w w' h l : account name evs r → ru_workers r !! id = Some w → w_queue w = n → w_queue w' = n → ru_workers r' = <[id := w']> (ru_workers r) →
  w_jobs w ++ l = h ++ w_jobs w' → (w_jobs w = [] ∨ l = []) → queued n (ru_queues r) = l ++ queued n (ru_queues r') → (∀ n', n' ≠ n → queued n' (ru_queues r') = queued n' (ru_queues r)) → ru_state r' = ru_state r →
  account name (evs ++ (Handled n <$> h)) r'.
Proof.
  intros Hac Hid Hq Hq' Hws Hjobs Hor Hqs Hoth Hst. destruct (decide (n = name)) as [->|Hne]; [exact (account_worker name evs r r' id w w' h l Hac Hid Hq Hq' Hws Hjobs Hor Hqs Hst)|].
  apply events_of_other; [done|]. eapply (account_other name evs r r' id w w'); [done|done|congruence|congruence|done|by apply Hoth|done].
Qed.
Lemma rstep_account name evs r evs' r' : ids_ok r → account name evs r → rstep r evs' r' → account name (evs ++ evs') r'.
Proof.
  intros Hok Hac Hs. assert (∀ r1, ru_queues r1 = ru_queues r → ru_workers r1 = ru_workers r → (ru_state r1 = RRunning → ru_state r = RRunning) → account name (evs ++ []) r1) as Hsame.
  { intros r1 E1 E2 E3. rewrite app_nil_r. apply (account_same name evs r); [done|by rewrite E2|by rewrite E1|done]. }
  destruct Hs as [n r id r' Hl Hb Ha|n r Hl|r id r' Hl Hb Ha|task r r' Hl Ha|desc n task cb r id r' Hl Ha|id r r' Hl Ha|r evs' r' Hl Ha|r Hl Hnw Hnt|r Hl|job j r Hj|job j res r Hj|tk ts ts' r Hts|id r r' Ha|id r evs' r' Ha|id err r evs' r' Ha].
  - destruct (AddNamedWorker_ok n r id r' Hok Hb Ha) as (-> & H1 & H2 & H3 & H4). apply (account_join name n evs r r' (ru_lastID r + 1)); [done| |done|by apply H4|done].
    destruct (ru_workers r !! (ru_lastID r + 1)) as [w|] eqn:Hw; [|done]. apply (io_workers r Hok) in Hw. lia.
  - destruct (add_queue_same name n r) as (H1 & H2 & H3 & _). rewrite app_nil_r. apply (account_same name evs r); [done|by rewrite H2|done|congruence].
  - unfold RunCancelableTask in Ha. destruct (new_task r) as [[id1 r1]| |] eqn:Hn; cbn [outcome_bind] in Ha; [|done..]. injection Ha as <- <-. apply new_task_spec in Hn as (-> & H1 & H2 & H3 & H4 & _); [|done..].
    apply Hsame; cbn; congruence.
  - unfold RunTask in Ha. case_bool_decide; [|done]. injection Ha as <-. by apply Hsame.
  - unfold RunJobWithNamedWorkerWithCB in Ha. case_bool_decide as Hst; [|done]. cbn [negb] in Ha. destruct (ru_queues r !! n) as [q|] eqn:Hq; [|done]. injection Ha as <- <-. by eapply account_accept.
  - unfold StopCancelableTask in Ha. do 2 (case_bool_decide; [|done]). injection Ha as <-. by apply Hsame.
  - by apply account_stop with r.
  - by apply Hsame.
  - by apply Hsame.
  - by apply Hsame.
  - by apply Hsame.
  - by apply Hsame.
  - unfold worker_get in Ha. destruct (ru_workers r !! id) as [[n [|? ?] ?]|] eqn:Hid; [|done..]. destruct (ru_queues r !! n) as [q|] eqn:Hq; [|done]. destruct (disposed q) eqn:Hdis.
    + injection Ha as <-. rewrite app_nil_r. by eapply (account_exit name evs r).
    + destruct (items q) as [|x xs] eqn:Hit; [done|]. rewrite <-Hit in Ha. unfold items_get in Ha. apply (inj Some) in Ha as <-. change [] with (Handled n <$> []).
      eapply (account_handle name n evs r _ id _ (mkWorker n (take (Z.to_nat batch) (items q)) false) [] (take (Z.to_nat batch) (items q)) Hac Hid); cbn [w_queue w_jobs ru_workers ru_queues ru_state with_queues with_workers]; try done; [by left| |].
      * unfold queued. rewrite Hq, lookup_insert_eq. cbn [items]. by rewrite take_drop.
      * intros n' Hn'. unfold queued. by rewrite lookup_insert_ne.
  - unfold worker_start in Ha. destruct (ru_workers r !! id) as [[n [|job jobs] []]|] eqn:Hid; [done..| |done]. destruct (ru_jobs r !! job) as [j|]; [|done]. destruct (job_start (j_state j)) as [st []]; injection Ha as <- <-.
    + change [] with (Handled n <$> []). eapply (account_handle name n evs r _ id _ (mkWorker n (job :: jobs) true) [] [] Hac Hid); try done; [by rewrite app_nil_r|by right].
    + change [Handled n job] with (Handled n <$> [job]). eapply (account_handle name n evs r _ id _ (mkWorker n jobs false) [job] [] Hac Hid); try done; [by rewrite app_nil_r|by right].
  - unfold worker_end in Ha. destruct (ru_workers r !! id) as [[n [|job jobs] []]|] eqn:Hid; [done..| |done|done]. destruct (ru_jobs r !! job) as [j|]; [|done]. injection Ha as <- <-.
    change [Handled n job] with (Handled n <$> [job]). eapply (account_handle name n evs r _ id _ (mkWorker n jobs false) [job] [] Hac Hid); try done; [by rewrite app_nil_r|by right].
Qed.
Lemma rsteps_account evs r : rsteps evs r → ids_ok r ∧ ∀ name, account name evs r.
Proof.
  induction 1 as [|evs r evs' r' _ [IH1 IH2] Hs]; [|split; [by eapply rstep_ids|intros name; by eapply rstep_account]]. split.
  - split; [|done]. intros id w Hw. change (ru_workers NewRunner) with ({[ 1 := mkWorker defaultQueueName [] false ]} : gmap Z worker) in Hw. by apply lookup_singleton_Some in Hw as [<- _].
  - intros name. apply (account_join name defaultQueueName [] (mkRunner RRunning false 0 ∅ ∅ ∅ ∅ 0 ∅ []) NewRunner 1); [|done|done| |done].
    + by split.
    + change (ru_queues NewRunner) with ({[ defaultQueueName := New ]} : gmap bytes (Queue Z)). unfold queued. cbn [ru_queues]. rewrite lookup_empty.
      destruct (decide (name = defaultQueueName)) as [->|Hne]; [by rewrite lookup_singleton_eq|by rewrite lookup_singleton_ne].
Qed.
(** C33. Every job that a named worker accepts is handled once: the jobs that were handled, those the workers have
    taken, those in the queue and those that were dropped when the runner stopped are the jobs that were accepted,
    in that order when the queue has one worker. *)
Theorem jobs_handled_in_order evs r name : rsteps evs r →
  handled name evs ++ taken name (ru_workers r) ++ queued name (ru_queues r) ++ dropped name evs ≡ₚ accepted name evs ∧
  ((length (joined name evs) ≤ 1)%nat → handled name evs ++ taken name (ru_workers r) ++ queued name (ru_queues r) ++ dropped name evs = accepted name evs).
Proof. intros Hr. destruct (rsteps_account evs r Hr) as [_ Hac]. destruct (Hac name) as [Hp Ho _ _]. done. Qed.

(** Two jobs, the first of which is executed. *)
Definition ok_runner {A} (o : outcome runner_error (A * Runner)) : Runner := match o with Ok (_, r) => r | _ => NewRunner end.
Definition some_runner {A} (o : option (A * Runner)) : Runner := match o with Some (_, r) => r | None => NewRunner end.
Definition run1 : Runner := ok_runner (RunJob [] 1 NewRunner).
Definition run2 : Runner := ok_runner (RunJob [] 2 run1).
Definition run3 : Runner := default NewRunner (worker_get 1 run2).
Definition run4 : Runner := some_runner (worker_start 1 run3).
Definition run5 : Runner := some_runner (worker_end 1 None run4).
Definition five_events : list jevent := (((([Joined defaultQueueName] ++ [Accepted defaultQueueName 0]) ++ [Accepted defaultQueueName 1]) ++ []) ++ []) ++ [Handled defaultQueueName 0].
Lemma five_steps : rsteps five_events run5.
Proof.
  eapply (run_step _ run4); [eapply (run_step _ run3); [eapply (run_step _ run2); [eapply (run_step _ run1); [apply (run_step _ NewRunner); [apply run_new|]|]|]|]|].
  - by apply (step_job [] defaultQueueName 1 false).
  - by apply (step_job [] defaultQueueName 2 false).
  - by apply (step_get 1).
  - by apply (step_start 1).
  - by apply (step_end 1 None).
Qed.
Lemma jobs_handled_in_order_witness : handled defaultQueueName five_events ++ taken defaultQueueName (ru_workers run5) ++ queued defaultQueueName (ru_queues run5) ++ dropped defaultQueueName five_events = [0; 1].
Proof. apply (jobs_handled_in_order five_events run5 defaultQueueName); [apply five_steps|done]. Defined.
