(* ===== verification/Index.v ===== *)
(** * The secondary index of a store

    pkg/raftstore/store_index.go (definitions of indexes, documents, the requests
    that keep the index of a cell in step with its keys), the notifications of
    raft_handle_do.go that queue such requests, and the hook of raft_apply_cmd.go that
    indexes the keys of executed commands.  The indexer library and regexp are
    classes; an engine gives the index information of a key and takes write
    batches. *)

From S2P Require Import Prelude Encoding Meta Keys Strconv Sortable BTree KVTree RaftTypes RaftLog RaftApply RedisTable Propose Reply RedisExec Store PeerLoop Files Snapshot.

(** ** Messages (pdpb, cql) *)
Inductive FieldType := FText | FUint8 | FUint16 | FUint32 | FUint64 | FFloat32 | FFloat64 | FOther (n : Z).
Record FieldDef := mkField { fd_Name : bytes; fd_Type : FieldType }.
Record IndexDef := mkIndexDef { ix_Name : bytes; ix_KeyPattern : bytes; ix_Fields : list FieldDef }.
Record UintProp := mkUint { up_Name : bytes; up_Val : Z; up_ValLen : Z; up_IsFloat : bool }.
Record StrProp := mkStr { st_Name : bytes; st_Val : bytes }.
Record Document := mkDocument { doc_ID : Z; doc_Uints : list UintProp; doc_Strs : list StrProp }.
Record DocumentWithIdx := mkDocIdx { dw_Doc : Document; dw_Index : bytes }.
Record KeyMetaVal := mkMeta { km_IdxName : bytes; km_DocID : Z; km_CellID : Z }.
Record IndexRequest := mkIdxReq { ir_Split : option (Z * Z); ir_Destroy : option Z; ir_Rebuild : option Z }.
Record IndexKeyRequest := mkKeyReq { kr_CellID : Z; kr_IdxName : bytes; kr_CmdArgs : list bytes; kr_IsDel : bool }.
#[export] Instance FieldType_eq : EqDecision FieldType.
Proof. solve_decision. Defined.
#[export] Instance FieldDef_eq : EqDecision FieldDef.
Proof. solve_decision. Defined.
#[export] Instance IndexDef_eq : EqDecision IndexDef.
Proof. solve_decision. Defined.
#[export] Instance UintProp_eq : EqDecision UintProp.
Proof. solve_decision. Defined.
#[export] Instance StrProp_eq : EqDecision StrProp.
Proof. solve_decision. Defined.
#[export] Instance Document_eq : EqDecision Document.
Proof. solve_decision. Defined.
#[export] Instance KeyMetaVal_eq : EqDecision KeyMetaVal.
Proof. solve_decision. Defined.
(** Generated marshalling; fields that are not nullable are always written. *)
Class IndexProto := {
  marshal_meta : KeyMetaVal → bytes;
  unmarshal_meta : bytes → option KeyMetaVal;
  meta_roundtrip m : unmarshal_meta (marshal_meta m) = Some m;
  meta_nonempty m : marshal_meta m ≠ [];
  marshal_request : IndexRequest → bytes;
  unmarshal_request : bytes → option IndexRequest;
  request_roundtrip r : unmarshal_request (marshal_request r) = Some r;
  request_nonempty r : r ≠ mkIdxReq None None None → marshal_request r ≠ [];
}.
Inductive ierror :=
  | ErrEngine | ErrProto | ErrPD | ErrIdxNotExist | ErrIndexer | ErrFile
  | ErrCellNotExist | ErrIndexNotDefined | ErrFieldType | ErrParse (e : numError) | ErrUnknownRequest.

(** ** What the index is made of *)
(** github.com/deepfabric/indexer *)
Class Indexer (I : Type) := {
  CreateIndex : DocumentWithIdx → I → outcome ierror unit * I;
  DestroyIndex : bytes → I → outcome ierror unit * I;
  Insert : DocumentWithIdx → I → outcome ierror unit * I;
  Del : bytes → Z → I → outcome ierror bool * I;
  Destroy : I → outcome ierror unit * I;
  Open : I → outcome ierror unit * I;
  Sync : I → outcome ierror unit * I;
  DocIDFragList : I → list Z;
}.
(** The calls of [storage.DataEngine] and [storage.KVEngine] the index makes; a scan goes
    over the keys and infos there were when it began. *)
Class IndexEngine (S : Type) := {
  GetIndexInfo : bytes → S → outcome ierror bytes;
  SetIndexInfo : bytes → bytes → S → outcome ierror unit * S;
  IndexInfos : bytes → bytes → bool → S → list (bytes * bytes);
  KV_Write : list (batch_op bytes) → S → outcome ierror unit * S;
  KV_DeleteRange : bytes → bytes → S → outcome ierror unit * S;
}.
(** regexp: which patterns compile, and what they match. *)
Class Regexp := { re_compiles : bytes → bool; re_match : bytes → bytes → bool }.
(** The order in which a map with names as keys is ranged over. *)
Class NameOrder := {
  name_range {V : Type} : gmap bytes V → list (bytes * V);
  name_range_perm {V : Type} (m : gmap bytes V) : name_range m ≡ₚ map_to_list m;
}.

(** ** Documents *)
Section documents.
Context (ParseFloat : Z → bytes → Z * option numError).
Definition field_prot (f : FieldDef) : outcome ierror (option UintProp * option StrProp) :=
  match fd_Type f with
  | FText => Ok (None, Some (mkStr (fd_Name f) []))
  | FUint8 => Ok (Some (mkUint (fd_Name f) 0 1 false), None)
  | FUint16 => Ok (Some (mkUint (fd_Name f) 0 2 false), None)
  | FUint32 => Ok (Some (mkUint (fd_Name f) 0 4 false), None)
  | FUint64 => Ok (Some (mkUint (fd_Name f) 0 8 false), None)
  | FFloat32 => Ok (Some (mkUint (fd_Name f) 0 4 true), None)
  | FFloat64 => Ok (Some (mkUint (fd_Name f) 0 8 true), None)
  | FOther _ => Err ErrFieldType
  end.
Definition add_props (p : option UintProp * option StrProp) (d : Document) : Document :=
  mkDocument (doc_ID d) (doc_Uints d ++ option_list p.1) (doc_Strs d ++ option_list p.2).
Fixpoint convert_fields (conv : FieldDef → outcome ierror (option UintProp * option StrProp)) (fs : list FieldDef) (d : Document) : outcome ierror Document :=
  match fs with
  | [] => Ok d
  | f :: fs' => let! p := conv f in convert_fields conv fs' (add_props p d)
  end.
Definition convertToDocProt (idxDef : IndexDef) : outcome ierror DocumentWithIdx :=
  let! d := convert_fields field_prot (ix_Fields idxDef) (mkDocument 0 [] []) in Ok (mkDocIdx d (ix_Name idxDef)).
Definition parse_uint_val (valS : bytes) : outcome ierror Z := match ParseUint valS with (v, None) => Ok v | (_, Some e) => Err (ErrParse e) end.
Definition parse_float_val (r : outcome numError Z) : outcome ierror Z := match r with Ok v => Ok v | Err e => Err (ErrParse e) | Panic => Panic end.
(** What the value of a field becomes; nothing for a field of another name. *)
Definition field_value (field valS : bytes) (f : FieldDef) : outcome ierror (option UintProp * option StrProp) :=
  if negb (bool_decide (fd_Name f = field)) then Ok (None, None)
  else
    let uint n := let! v := parse_uint_val valS in Ok (Some (mkUint (fd_Name f) v n false), None) in
    match fd_Type f with
    | FText => Ok (None, Some (mkStr (fd_Name f) valS))
    | FUint8 => uint 1
    | FUint16 => uint 2
    | FUint32 => uint 4
    | FUint64 => uint 8
    | FFloat32 => let! v := parse_float_val (Float32ToSortableUint64 ParseFloat valS) in Ok (Some (mkUint (fd_Name f) v 4 true), None)
    | FFloat64 => let! v := parse_float_val (Float64ToSortableUint64 ParseFloat valS) in Ok (Some (mkUint (fd_Name f) v 8 true), None)
    | FOther _ => Err ErrFieldType
    end.
(** A field without a value is read past the end of the slice. *)
Fixpoint convert_pairs (fs : list FieldDef) (pairs : list bytes) (d : Document) : outcome ierror Document :=
  match pairs with
  | [] => Ok d
  | [_] => Panic
  | field :: valS :: pairs' => let! d := convert_fields (field_value field valS) fs d in convert_pairs fs pairs' d
  end.
Definition convertToDocument (idxDef : IndexDef) (docID : Z) (pairs : list bytes) : outcome ierror DocumentWithIdx :=
  let! d := convert_pairs (ix_Fields idxDef) pairs (mkDocument docID [] []) in Ok (mkDocIdx d (ix_Name idxDef)).
End documents.

(** *** Definitions *)
Record IndicesDiff := mkDiff { toDelete : list IndexDef; toCreate : list IndexDef }.
Definition diffIndices `{!NameOrder} (indices indicesNew : gmap bytes IndexDef) : IndicesDiff :=
  mkDiff
    (omap (λ '(name, cur), match indicesNew !! name with Some new => if decide (cur = new) then None else Some cur | None => Some cur end) (name_range indices))
    (name_range indicesNew).*2.
Definition by_name (l : list IndexDef) : gmap bytes IndexDef := foldl (λ m d, <[ix_Name d := d]> m) ∅ l.

(** ** The state of a store *)
(** [i_cells]: the cells of the replicates; [i_nextDocID]: the next document id of each;
    [i_pd]: what PD answers to requests for ids; [i_wb]: the write batch of the request
    that is handled; [i_file]: indices.json; [i_dirs]: what the directories of indexers
    that are not open hold. *)
Record istore (S I : Type) := mkIstore {
  i_engines : Z → S;
  i_indexers : gmap Z I;
  i_indices : gmap bytes IndexDef;
  i_reExps : gmap bytes bytes;
  i_docProts : gmap bytes Document;
  i_cells : gmap Z Cell;
  i_nextDocID : gmap Z Z;
  i_pd : list (option Z);
  i_wb : list (batch_op bytes);
  i_file : option (gmap bytes IndexDef);
  i_dirs : Z → I;
}.
Arguments mkIstore {S I} _ _ _ _ _ _ _ _ _ _ _.
Arguments i_engines {S I} _ _.
Arguments i_indexers {S I} _.
Arguments i_indices {S I} _.
Arguments i_reExps {S I} _.
Arguments i_docProts {S I} _.
Arguments i_cells {S I} _.
Arguments i_nextDocID {S I} _.
Arguments i_pd {S I} _.
Arguments i_wb {S I} _.
Arguments i_file {S I} _.
Arguments i_dirs {S I} _ _.

Section store.
Context {S I : Type} `{!Indexer I, !IndexEngine S, !HashEngine S, !ListEngine S, !IndexProto, !Regexp, !NameOrder, !MapOrder}.
(** [enginesMask] of the store; whether indices.json can be written. *)
Context (ParseFloat : Z → bytes → Z * option numError) (enginesMask : Z) (writable : bool).
Abbreviation ist := (istore S I).
Definition set_engines (x : Z → S) (s : ist) : ist := mkIstore x (i_indexers s) (i_indices s) (i_reExps s) (i_docProts s) (i_cells s) (i_nextDocID s) (i_pd s) (i_wb s) (i_file s) (i_dirs s).
Definition set_indexers (x : gmap Z I) (s : ist) : ist := mkIstore (i_engines s) x (i_indices s) (i_reExps s) (i_docProts s) (i_cells s) (i_nextDocID s) (i_pd s) (i_wb s) (i_file s) (i_dirs s).
Definition set_indices (x : gmap bytes IndexDef) (r : gmap bytes bytes) (s : ist) : ist := mkIstore (i_engines s) (i_indexers s) x r (i_docProts s) (i_cells s) (i_nextDocID s) (i_pd s) (i_wb s) (i_file s) (i_dirs s).
Definition set_docProts (x : gmap bytes Document) (s : ist) : ist := mkIstore (i_engines s) (i_indexers s) (i_indices s) (i_reExps s) x (i_cells s) (i_nextDocID s) (i_pd s) (i_wb s) (i_file s) (i_dirs s).
Definition set_docs (next : gmap Z Z) (pd : list (option Z)) (s : ist) : ist := mkIstore (i_engines s) (i_indexers s) (i_indices s) (i_reExps s) (i_docProts s) (i_cells s) next pd (i_wb s) (i_file s) (i_dirs s).
Definition set_wb (x : list (batch_op bytes)) (s : ist) : ist := mkIstore (i_engines s) (i_indexers s) (i_indices s) (i_reExps s) (i_docProts s) (i_cells s) (i_nextDocID s) (i_pd s) x (i_file s) (i_dirs s).
Definition set_file (x : option (gmap bytes IndexDef)) (s : ist) : ist := mkIstore (i_engines s) (i_indexers s) (i_indices s) (i_reExps s) (i_docProts s) (i_cells s) (i_nextDocID s) (i_pd s) (i_wb s) x (i_dirs s).
Definition set_dir (c : Z) (i : I) (s : ist) : ist := mkIstore (i_engines s) (i_indexers s) (i_indices s) (i_reExps s) (i_docProts s) (i_cells s) (i_nextDocID s) (i_pd s) (i_wb s) (i_file s) (λ c', if decide (c' = c) then i else i_dirs s c').

(** *** Calls that change the store *)
Definition im (A : Type) : Type := ist → outcome ierror A * ist.
#[local] Instance im_ret : MRet im := λ A a s, (Ok a, s).
#[local] Instance im_bind : MBind im := λ A B f m s,
  match m s with (Ok a, s') => f a s' | (Err e, s') => (Err e, s') | (Panic, s') => (Panic, s') end.
Definition ifail {A} (e : ierror) : im A := λ s, (Err e, s).
Definition ilift {A} (r : outcome ierror A) : im A := λ s, (r, s).
Definition iget {A} (f : ist → A) : im A := λ s, (Ok (f s), s).
Definition iput (f : ist → ist) : im unit := λ s, (Ok tt, f s).
(** A call whose error is dropped. *)
Definition idrop {A} (m : im A) : im unit := λ s, match m s with (Ok _, s') | (Err _, s') => (Ok tt, s') | (Panic, s') => (Panic, s') end.
Definition on_engine {A} (id : Z) (f : S → outcome ierror A * S) : im A := λ s,
  let '(r, e) := f (getEngine enginesMask id (i_engines s)) in (r, set_engines (set_engine enginesMask id e (i_engines s)) s).
Definition of_engine {A} (id : Z) (f : S → outcome ierror A) : im A := λ s, (f (getEngine enginesMask id (i_engines s)), s).
Definition of_result {A} (r : result A) : outcome ierror A := match r with inl _ => Err ErrEngine | inr a => Ok a end.
(** A call of the indexer of a cell, which is open. *)
Definition on_indexer {A} (cellID : Z) (f : I → outcome ierror A * I) : im A := λ s,
  match i_indexers s !! cellID with
  | Some i => let '(r, i') := f i in (r, set_indexers (<[cellID := i']> (i_indexers s)) s)
  | None => (Panic, s)
  end.
Definition wb_add (o : batch_op bytes) : im unit := iput (λ s, set_wb (i_wb s ++ [o]) s).

(** *** Indexers *)
Fixpoint create_all (defs : list IndexDef) (i : I) : outcome ierror unit * I :=
  match defs with
  | [] => (Ok tt, i)
  | d :: defs' =>
      match convertToDocProt d with
      | Ok docProt => match CreateIndex docProt i with (Ok _, i') => create_all defs' i' | r => r end
      | Err e => (Err e, i)
      | Panic => (Panic, i)
      end
  end.
(** [NewIndexer] opens what the directory holds. *)
Definition getIndexer (cellID : Z) : im unit := λ s,
  match i_indexers s !! cellID with
  | Some _ => (Ok tt, s)
  | None =>
      match Open (i_dirs s cellID) with
      | (Ok _, i) =>
          match create_all (name_range (i_indices s)).*2 i with
          | (Ok _, i') => (Ok tt, set_indexers (<[cellID := i']> (i_indexers s)) s)
          | (r, i') => (r, set_dir cellID i' s)
          end
      | (r, i) => (r, set_dir cellID i s)
      end
  end.
Definition GetIndexer : Z → im unit := getIndexer.
Definition getCell (cellID : Z) : im (option Cell) := iget (λ s, i_cells s !! cellID).
(** [MustCompile] panics on a pattern that does not compile. *)
Definition compile_all (l : list IndexDef) : outcome ierror (gmap bytes bytes) :=
  if forallb (λ d, re_compiles (ix_KeyPattern d)) l then Ok (foldl (λ m d, <[ix_Name d := ix_KeyPattern d]> m) ∅ l) else Panic.
Fixpoint prots_of (l : list IndexDef) (m : gmap bytes Document) : outcome ierror (gmap bytes Document) :=
  match l with
  | [] => Ok m
  | d :: l' => let! p := convertToDocProt d in prots_of l' (<[ix_Name d := dw_Doc p]> m)
  end.
Definition loadIndices : im unit :=
  file ← iget i_file;
  match file with
  | None => iput (λ s, set_docProts ∅ (set_indices (i_indices s) ∅ s));; ifail ErrFile
  | Some indices =>
      iput (λ s, set_docProts ∅ (set_indices indices ∅ s));;
      reExps ← ilift (compile_all (name_range indices).*2);
      iput (set_indices indices reExps);;
      prots ← ilift (prots_of (name_range indices).*2 ∅);
      iput (set_docProts prots)
  end.
Definition persistIndices : im unit := if writable then iput (λ s, set_file (Some (i_indices s)) s) else ifail ErrFile.
(** [foreach] of the replicates: the first error ends it, and its result is dropped. *)
Fixpoint foreach_cell (l : list Z) (fn : Z → im unit) : im unit :=
  match l with
  | [] => mret tt
  | c :: l' => fn c;; foreach_cell l' fn
  end.
Definition foreach (fn : Z → im unit) : im unit := cells ← iget (λ s, range_keys (i_cells s)); idrop (foreach_cell cells fn).
Fixpoint delete_indices (l : list IndexDef) : im unit :=
  match l with
  | [] => mret tt
  | d :: l' =>
      foreach (λ c, getIndexer c;; on_indexer c (DestroyIndex (ix_Name d)));;
      iput (λ s, set_docProts (delete (ix_Name d) (i_docProts s)) s);;
      delete_indices l'
  end.
Fixpoint create_indices (l : list IndexDef) : im unit :=
  match l with
  | [] => mret tt
  | d :: l' =>
      docProt ← ilift (convertToDocProt d);
      foreach (λ c, getIndexer c;; on_indexer c (CreateIndex docProt));;
      iput (λ s, set_docProts (<[ix_Name d := dw_Doc docProt]> (i_docProts s)) s);;
      create_indices l'
  end.
Definition HandleIndicesChange (rspIndices : list IndexDef) : im unit :=
  let indicesNew := by_name rspIndices in
  reExpsNew ← ilift (compile_all rspIndices);
  indices ← iget i_indices;
  let delta := diffIndices indices indicesNew in
  delete_indices (toDelete delta);;
  create_indices (toCreate delta);;
  if decide (indices = indicesNew) then mret tt else iput (set_indices indicesNew reExpsNew);; persistIndices.

(** *** Keys *)
Definition matchIndex (key : bytes) : im bytes :=
  iget (λ s, match list_find (λ '(_, pattern), re_match pattern key = true) (name_range (i_reExps s)) with Some (_, (name, _)) => name | None => [] end).
Definition AllocateDoc (cellID : Z) : im Z := λ s,
  let n := default 0 (i_nextDocID s !! cellID) in
  let asks := bool_decide (Z.land n (SliceWidth - 1) = 0) in
  let '(doc, n') := AllocateDocID SliceWidth (default None (head (i_pd s))) n in
  let s' := set_docs (<[cellID := n']> (i_nextDocID s)) (if asks then tail (i_pd s) else i_pd s) s in
  (match doc with Some d => Ok d | None => Err ErrPD end, s').
Definition deleteIndexedKey (cellID : Z) (dataKey : bytes) (isDel : bool) : im bool :=
  metaValB ← of_engine cellID (GetIndexInfo dataKey);
  if bool_decide (metaValB = []) then mret false
  else
    match unmarshal_meta metaValB with
    | None => ifail ErrProto
    | Some m =>
        GetIndexer (km_CellID m);;
        on_indexer (km_CellID m) (Del (km_IdxName m) (km_DocID m));;
        wb_add (BDelete (getDocIDKey (km_DocID m)));;
        (if isDel then on_engine (km_CellID m) (SetIndexInfo dataKey []) else mret tt);;
        mret true
    end.
(** The fields of a hash, one after the other. *)
Definition flatten (fvs : list FVPair) : list bytes := concat ((λ fv, [FV_Field fv; FV_Value fv]) <$> fvs).
Definition insert_document (cellID : Z) (doc : DocumentWithIdx) : im unit := λ s,
  match on_indexer cellID (Insert doc) s with (Err ErrIdxNotExist, s') => (Ok tt, s') | r => r end.
Definition addIndexedKey (cellID : Z) (idxNameIn : bytes) (docID : Z) (dataKey : bytes) (pairs : list bytes) : im unit :=
  docID ←
    (if decide (docID = 0) then
       cell ← getCell cellID;
       match cell with
       | None => ifail ErrCellNotExist
       | Some _ => d ← AllocateDoc cellID; wb_add (BSet (getDocIDKey d) dataKey);; mret d
       end
     else mret docID);
  on_engine cellID (SetIndexInfo dataKey (marshal_meta (mkMeta idxNameIn docID cellID)));;
  pairs ← (if decide (pairs = []) then fvs ← of_engine cellID (λ e, of_result (HGetAll dataKey e)); mret (flatten (default [] fvs)) else mret pairs);
  idxDef ← iget (λ s, i_indices s !! idxNameIn);
  match idxDef with
  | None => ifail ErrIndexNotDefined
  | Some idxDef => GetIndexer cellID;; doc ← ilift (convertToDocument ParseFloat idxDef docID pairs); insert_document cellID doc
  end.
Definition write_batch : im unit := λ s, on_engine 1 (KV_Write (i_wb s)) s.
(** The error of deleting the old document counts for a deletion only; the arguments
    of an insertion become its fields. *)
Definition handleIdxKeyReq (r : IndexKeyRequest) : im unit :=
  match kr_CmdArgs r with
  | [] => ilift Panic
  | key :: args =>
      iput (set_wb []);;
      changed ← (λ s, match deleteIndexedKey (kr_CellID r) key (kr_IsDel r) s with
                      | (Err e, s') => if kr_IsDel r then (Err e, s') else (Ok false, s')
                      | res => res
                      end : outcome ierror bool * ist);
      (if kr_IsDel r then mret tt
       else addIndexedKey (kr_CellID r) (kr_IdxName r) 0 key (if (changed : bool) then [] else args));;
      write_batch
  end.

(** *** Cells *)
(** [ScanIndexInfo]: every key is handled, the first error is returned. *)
Fixpoint scan_infos (l : list (bytes * bytes)) (handler : bytes → bytes → im unit) : im unit := λ s,
  match l with
  | [] => (Ok tt, s)
  | (k, v) :: l' =>
      match handler k v s with
      | (Ok _, s') => scan_infos l' handler s'
      | (Err e, s') => match scan_infos l' handler s' with (Panic, s'') => (Panic, s'') | (_, s'') => (Err e, s'') end
      | (Panic, s') => (Panic, s')
      end
  end.
Definition ScanIndexInfo (cellID : Z) (start end_ : bytes) (skipEmpty : bool) (handler : bytes → bytes → im unit) : im unit :=
  l ← of_engine cellID (λ e, Ok (IndexInfos start end_ skipEmpty e)); scan_infos l handler.
Definition cell_range (c : Cell) : outcome ierror (bytes * bytes) :=
  match encStartKey c, encEndKey c with Ok s, Ok e => Ok (s, e) | _, _ => Panic end.
Definition split_key (cellIDL cellIDR : Z) (dataKey metaValB : bytes) : im unit :=
  if bool_decide (metaValB = []) then mret tt
  else
    match unmarshal_meta metaValB with
    | None => ifail ErrProto
    | Some m =>
        if decide (km_CellID m = cellIDR) then mret tt
        else if bool_decide (km_IdxName m = []) then mret tt
        else
          live ← iget (λ s, i_indices s !! km_IdxName m);
          match live with
          | None => mret tt
          | Some _ => on_indexer cellIDL (Del (km_IdxName m) (km_DocID m));; addIndexedKey cellIDR (km_IdxName m) (km_DocID m) dataKey []
          end
    end.
Definition indexSplitCell (cellIDL cellIDR : Z) : im (list Z) :=
  cellL ← getCell cellIDL;
  cellR ← getCell cellIDR;
  match cellL, cellR with
  | Some _, Some cellR =>
      range ← ilift (cell_range cellR);
      GetIndexer cellIDL;;
      GetIndexer cellIDR;;
      ScanIndexInfo cellIDL range.1 range.2 true (split_key cellIDL cellIDR);;
      mret [cellIDL]
  | _, _ => mret []
  end.
Fixpoint clear_doc_keys (nums : list Z) : im unit :=
  match nums with
  | [] => mret tt
  | num :: nums' => on_engine 1 (KV_DeleteRange (getDocIDKey (frag_start num)) (getDocIDKey (u64 (frag_start num + SliceWidth))));; clear_doc_keys nums'
  end.
Definition clear_index_docs (i : I) : im unit := clear_doc_keys (DocIDFragList i).
Definition destroy_key (dataKey metaValB : bytes) : im unit :=
  if bool_decide (metaValB = []) then mret tt
  else match unmarshal_meta metaValB with None => ifail ErrProto | Some m => wb_add (BDelete (getDocIDKey (km_DocID m))) end.
Definition indexDestroyCell (cellID : Z) : im unit :=
  cell ← getCell cellID;
  match cell with
  | None => mret tt
  | Some cell =>
      range ← ilift (cell_range cell);
      GetIndexer cellID;;
      idxer ← iget (λ s, i_indexers s !! cellID);
      match idxer with
      | None => ilift Panic
      | Some i =>
          iput (λ s, set_indexers (delete cellID (i_indexers s)) s);;
          clear_index_docs i;;
          iput (set_dir cellID (Destroy i).2);;
          ilift (Destroy i).1;;
          ScanIndexInfo cellID range.1 range.2 true destroy_key
      end
  end.
(** Information that is empty names no document (one that is empty but not nil is read as that
    of document 0, which no key has). *)
Definition rebuild_key (cellID : Z) (dataKey metaValB : bytes) : im unit :=
  (if bool_decide (metaValB = []) then mret tt
   else match unmarshal_meta metaValB with None => ifail ErrProto | Some m => wb_add (BDelete (getDocIDKey (km_DocID m))) end);;
  origin ← ilift (match getOriginKey dataKey with Ok k => Ok k | _ => Panic end);
  idxName ← matchIndex origin;
  if bool_decide (idxName = []) then mret tt else addIndexedKey cellID idxName 0 dataKey [].
Definition indexRebuildCell (cellID : Z) : im unit :=
  cell ← getCell cellID;
  match cell with
  | None => mret tt
  | Some cell =>
      range ← ilift (cell_range cell);
      GetIndexer cellID;;
      idxer ← iget (λ s, i_indexers s !! cellID);
      match idxer with
      | None => ilift Panic
      | Some i =>
          clear_index_docs i;;
          on_indexer cellID Destroy;;
          on_indexer cellID Open;;
          ScanIndexInfo cellID range.1 range.2 false (rebuild_key cellID)
      end
  end.
Fixpoint sync_all (cells : list Z) : im unit :=
  match cells with [] => mret tt | c :: cells' => on_indexer c Sync;; sync_all cells' end.
(** [true]: the queue is empty. *)
Definition handleIdxReqQueue : im bool :=
  req ← of_engine 1 (λ e, of_result (LIndex getIdxReqQueueKey 0 e));
  match default [] req with
  | [] => mret true
  | reqB =>
      iput (set_wb []);;
      match unmarshal_request reqB with
      | None => ifail ErrProto
      | Some r =>
          dirty ←
            match r with
            | mkIdxReq _ (Some c) _ => indexDestroyCell c;; mret []
            | mkIdxReq _ None (Some c) => indexRebuildCell c;; mret []
            | mkIdxReq (Some (l, r)) None None => indexSplitCell l r
            | mkIdxReq None None None => ifail ErrUnknownRequest
            end;
          write_batch;;
          sync_all dirty;;
          on_engine 1 (λ e, let '(r, e') := LPop getIdxReqQueueKey e in (of_result r, e'));;
          mret false
      end
  end.
(** What a tick of [readyToServeIndex] does: requests are handled until one fails or the queue is
    empty; [None] when there are more of them than [fuel]. *)
Fixpoint serve_index (fuel : nat) (s : ist) : option (outcome ierror unit * ist) :=
  match fuel with
  | O => None
  | Datatypes.S fuel' =>
      match handleIdxReqQueue s with
      | (Ok false, s') => serve_index fuel' s'
      | (Ok true, s') => Some (Ok tt, s')
      | (Err e, s') => Some (Err e, s')
      | (Panic, s') => Some (Panic, s')
      end
  end.
(** *** raft_handle_do.go, raft_apply_cmd.go *)
Definition notify_index (r : IndexRequest) : im unit :=
  on_engine 1 (λ e, let '(x, e') := RPush getIdxReqQueueKey [marshal_request r] e in (of_result x, e'));; mret tt.
Definition notifySplitCellIndex (left right : Z) : im unit := notify_index (mkIdxReq (Some (left, right)) None None).
Definition notifyDestroyCellIndex (cell : Cell) : im unit := notify_index (mkIdxReq None (Some (Cell_ID cell)) None).
Definition notifyRebuildCellIndex (cell : Cell) : im unit := notify_index (mkIdxReq None None (Some (Cell_ID cell))).
Fixpoint index_deleted (cellID : Z) (keys : list bytes) : im unit :=
  match keys with
  | [] => mret tt
  | key :: keys' =>
      idxName ← matchIndex key;
      (if bool_decide (idxName = []) then mret tt else handleIdxKeyReq (mkKeyReq cellID idxName [key] true));;
      index_deleted cellID keys'
  end.
Definition execWriteRequestIndex (cellID : Z) (t : CMDType) (args : list bytes) (failed : bool) : im unit :=
  if failed then mret tt
  else
    match t with
    | CDel => index_deleted cellID args
    | CHMSet | CHSet =>
        match args with
        | [] => ilift Panic
        | key :: _ =>
            idxName ← matchIndex key;
            if bool_decide (idxName = []) then mret tt else handleIdxKeyReq (mkKeyReq cellID idxName args false)
        end
    | _ => mret tt
    end.
End store.
