(* ===== verification/IndexProps.v ===== *)
(** * Theorems on the secondary index

    The documents of an index and the keys that have index information correspond one
    to one, through commands and splits, on a store with one engine; rebuilding
    the index of a cell empties it instead. *)

From S2P Require Import Prelude Encoding Meta Keys Strconv Sortable BTree KVTree RaftTypes RaftLog RaftApply RedisTable Propose Reply RedisExec Store PeerLoop Files Snapshot Index Codec.

(** ** What the index relies on *)
(** A document has only fields of the schema. *)
Definition fits (schema doc : DocumentWithIdx) : Prop :=
  (∀ p, p ∈ doc_Uints (dw_Doc doc) → up_Name p ∈ up_Name <$> doc_Uints (dw_Doc schema)) ∧
  (∀ p, p ∈ doc_Strs (dw_Doc doc) → st_Name p ∈ st_Name <$> doc_Strs (dw_Doc schema)).
Definition same_schema (a b : DocumentWithIdx) : bool :=
  bool_decide (dw_Index a = dw_Index b ∧
    (λ p, (up_Name p, up_IsFloat p, up_ValLen p)) <$> doc_Uints (dw_Doc a) = (λ p, (up_Name p, up_IsFloat p, up_ValLen p)) <$> doc_Uints (dw_Doc b) ∧
    st_Name <$> doc_Strs (dw_Doc a) = st_Name <$> doc_Strs (dw_Doc b)).
(** The indexer library, on a disk that works: indexes by name, each with its schema
    and documents.  Destroying an indexer also removes the definitions, so that an indexer
    that is opened again has none. *)
Class IndexerLaws (I : Type) `{!Indexer I} := {
  contents : I → gmap bytes (DocumentWithIdx * gmap Z Document);
  Insert_new d i sch docs : contents i !! dw_Index d = Some (sch, docs) → docs !! doc_ID (dw_Doc d) = None → fits sch d →
    ∃ i', Insert d i = (Ok tt, i') ∧ contents i' = <[dw_Index d := (sch, <[doc_ID (dw_Doc d) := dw_Doc d]> docs)]> (contents i);
  Insert_missing d i : contents i !! dw_Index d = None → Insert d i = (Err ErrIdxNotExist, i);
  Del_found name id i sch docs : contents i !! name = Some (sch, docs) →
    ∃ b i', Del name id i = (Ok b, i') ∧ contents i' = <[name := (sch, delete id docs)]> (contents i);
  CreateIndex_ok d i : ∃ i', CreateIndex d i = (Ok tt, i') ∧
    contents i' = match contents i !! dw_Index d with
                  | Some (sch, _) => if same_schema sch d then contents i else <[dw_Index d := (d, ∅)]> (contents i)
                  | None => <[dw_Index d := (d, ∅)]> (contents i)
                  end;
  Destroy_ok i : ∃ i', Destroy i = (Ok tt, i') ∧ contents i' = ∅;
  Open_ok i : ∃ i', Open i = (Ok tt, i') ∧ contents i' = contents i;
  Sync_ok i : ∃ i', Sync i = (Ok tt, i') ∧ contents i' = contents i;
}.
(** An engine that works: the index information and the fields of hashes, the keys of
    documents. *)
Class IndexEngineLaws (S : Type) `{!IndexEngine S, !HashEngine S} := {
  eng_infos : S → gmap bytes bytes;
  eng_docs : S → gmap bytes bytes;
  eng_hash : S → bytes → list FVPair;
  GetIndexInfo_ok k v e : eng_infos e !! k = Some v → GetIndexInfo k e = Ok v;
  GetIndexInfo_missing k e : eng_infos e !! k = None → GetIndexInfo k e = Ok [] ∨ ∃ err, GetIndexInfo k e = Err err;
  SetIndexInfo_ok k v e : ∃ e', SetIndexInfo k v e = (Ok tt, e') ∧ eng_infos e' = <[k := v]> (eng_infos e) ∧ eng_docs e' = eng_docs e ∧ eng_hash e' = eng_hash e;
  KV_Write_ok wb e : ∃ e', KV_Write wb e = (Ok tt, e') ∧ eng_docs e' = foldl map_op (eng_docs e) wb ∧ eng_infos e' = eng_infos e ∧ eng_hash e' = eng_hash e;
  IndexInfos_elem s t e k v : (k, v) ∈ IndexInfos s t true e ↔ eng_infos e !! k = Some v ∧ v ≠ [] ∧ ble s k ∧ blt k t;
  IndexInfos_nodup s t b e : NoDup (IndexInfos s t b e).*1;
  IndexInfos_all s t e k v : (k, v) ∈ IndexInfos s t false e ↔ eng_infos e !! k = Some v ∧ ble s k ∧ blt k t;
  KV_DeleteRange_ok s t e : ∃ e', KV_DeleteRange s t e = (Ok tt, e') ∧ eng_infos e' = eng_infos e ∧ eng_hash e' = eng_hash e;
  HGetAll_ok k e : HGetAll k e = inr (Some (eng_hash e k));
}.

(** The list of the queued requests, which the other calls leave alone. *)
Class IndexQueueLaws (S : Type) `{!IndexEngine S, !HashEngine S, !ListEngine S, !IndexEngineLaws S} := {
  eng_queue : S → list bytes;
  LIndex_queue e : LIndex getIdxReqQueueKey 0 e = inr (head (eng_queue e));
  LPop_queue e : ∃ r e', LPop getIdxReqQueueKey e = (inr r, e') ∧ eng_queue e' = tail (eng_queue e) ∧
    eng_infos e' = eng_infos e ∧ eng_docs e' = eng_docs e ∧ eng_hash e' = eng_hash e;
  RPush_queue r e : ∃ n e', RPush getIdxReqQueueKey [r] e = (inr n, e') ∧ eng_queue e' = eng_queue e ++ [r];
  SetIndexInfo_queue k v e : eng_queue (SetIndexInfo k v e).2 = eng_queue e;
  KV_DeleteRange_queue s t e : eng_queue (KV_DeleteRange s t e).2 = eng_queue e;
  KV_Write_queue wb e : eng_queue (KV_Write wb e).2 = eng_queue e;
}.

Section props.
Context {S I : Type} `{!Indexer I, !IndexEngine S, !HashEngine S, !ListEngine S, !IndexProto, !Regexp, !NameOrder, !MapOrder, !IndexerLaws I, !IndexEngineLaws S, !IndexQueueLaws S}.
Context (ParseFloat : Z → bytes → Z * option numError).
Abbreviation ist := (istore S I).
(** *** One engine *)
Definition E (s : ist) : S := i_engines s 0.
Definition with_engine (e : S) (s : ist) : ist := set_engines (set_engine 0 0 e (i_engines s)) s.
Lemma E_with e s : E (with_engine e s) = e.
Proof. unfold E, with_engine, set_engine. cbn. done. Qed.
Lemma im_bind_ok {A B} (m : im (S := S) (I := I) A) (f : A → im B) s a s' : m s = (Ok a, s') → (@mbind im im_bind A B f m) s = f a s'.
Proof. intros Hm. unfold mbind, im_bind. by rewrite Hm. Qed.
Lemma set_info c k v (s : ist) : ∃ e', on_engine 0 c (SetIndexInfo k v) s = (Ok tt, with_engine e' s) ∧
  eng_infos e' = <[k := v]> (eng_infos (E s)) ∧ eng_docs e' = eng_docs (E s) ∧ eng_hash e' = eng_hash (E s).
Proof. destruct (SetIndexInfo_ok k v (E s)) as (e' & Heq & ?). exists e'. split; [|done]. unfold on_engine, getEngine. change (i_engines s (Z.land 0 c)) with (E s). by rewrite Heq. Qed.
Lemma on_indexer_ok {A} c i (f : I → outcome ierror A * I) r i' (s : ist) : i_indexers s !! c = Some i → f i = (r, i') →
  on_indexer c f s = (r, set_indexers (<[c := i']> (i_indexers s)) s).
Proof. intros Hi Hf. unfold on_indexer. by rewrite Hi, Hf. Qed.
Lemma getIndexer_open c i (s : ist) : i_indexers s !! c = Some i → getIndexer c s = (Ok tt, s).
Proof. intros Hi. unfold getIndexer. by rewrite Hi. Qed.

(** *** What the index says *)
Definition meta_of (v : bytes) : option KeyMetaVal := if bool_decide (v = []) then None else unmarshal_meta v.
(** The index information of a key, the documents of an index of a cell, the key of a
    document. *)
Definition info (s : ist) (k : bytes) : option KeyMetaVal := eng_infos (E s) !! k ≫= meta_of.
Definition documents (s : ist) (c : Z) (name : bytes) : gmap Z Document :=
  match i_indexers s !! c with Some i => match contents i !! name with Some (_, docs) => docs | None => ∅ end | None => ∅ end.
Definition key_of (s : ist) (d : Z) : option bytes := eng_docs (E s) !! getDocIDKey d.
(** The fields a document is made of. *)
Definition fields_of (s : ist) (key : bytes) (pairs : list bytes) : list bytes := if decide (pairs = []) then flatten (eng_hash (E s) key) else pairs.
Lemma meta_of_marshal m : meta_of (marshal_meta m) = Some m.
Proof. unfold meta_of. rewrite bool_decide_eq_false_2 by apply meta_nonempty. apply meta_roundtrip. Qed.
Lemma convert_fields_id conv fs : ∀ d d', convert_fields conv fs d = Ok d' → doc_ID d' = doc_ID d.
Proof.
  induction fs as [|f fs IH]; intros d d' Hc; cbn [convert_fields] in Hc; [by injection Hc as <-|].
  destruct (conv f) as [p| |]; cbn [outcome_bind] in Hc; [|done..]. by rewrite (IH _ _ Hc).
Qed.
Lemma convert_pairs_id fs n : ∀ pairs d d', (length pairs ≤ n)%nat → convert_pairs ParseFloat fs pairs d = Ok d' → doc_ID d' = doc_ID d.
Proof.
  induction n as [|n IH]; intros pairs d d' Hl Hc; (destruct pairs as [|f [|v pairs]]; cbn [convert_pairs] in Hc; [by injection Hc as <-|done|]); simpl in Hl; [lia|].
  destruct (convert_fields _ _ d) as [d1| |] eqn:Hf; cbn [outcome_bind] in Hc; [|done..]. rewrite (IH pairs d1 d' ltac:(lia) Hc). by apply convert_fields_id in Hf.
Qed.
Lemma convert_id def d pairs doc : convertToDocument ParseFloat def d pairs = Ok doc → dw_Index doc = ix_Name def ∧ doc_ID (dw_Doc doc) = d.
Proof.
  unfold convertToDocument. destruct (convert_pairs _ _ _ _) as [d'| |] eqn:Hp; cbn [outcome_bind]; [|done..]. intros [= <-]. split; [done|]. cbn.
  by apply (convert_pairs_id _ _ _ _ _ (le_n _)) in Hp.
Qed.

(** *** Adding a key *)
(** What adding a document takes: the index is defined, the fields can be
    converted, the indexer of the cell is open and has the index. *)
Record can_add (s : ist) (c : Z) (name : bytes) (d : Z) (fields : list bytes) (def : IndexDef) (doc : DocumentWithIdx) (i : I) (sch : DocumentWithIdx) (docs : gmap Z Document) : Prop := {
  ca_def : i_indices s !! name = Some def;
  ca_name : ix_Name def = name;
  ca_doc : convertToDocument ParseFloat def d fields = Ok doc;
  ca_indexer : i_indexers s !! c = Some i;
  ca_contents : contents i !! name = Some (sch, docs);
  ca_new : docs !! d = None;
  ca_fits : fits sch doc;
}.
Lemma add_known s c name d key pairs def doc i sch docs : can_add s c name d (fields_of s key pairs) def doc i sch docs → d ≠ 0 →
  ∃ e' i', addIndexedKey ParseFloat 0 c name d key pairs s = (Ok tt, set_indexers (<[c := i']> (i_indexers s)) (with_engine e' s)) ∧
    eng_infos e' = <[key := marshal_meta (mkMeta name d c)]> (eng_infos (E s)) ∧ eng_docs e' = eng_docs (E s) ∧ eng_hash e' = eng_hash (E s) ∧
    contents i' = <[name := (sch, <[d := dw_Doc doc]> docs)]> (contents i).
Proof.
  intros [Hdef Hname Hdoc Hi Hc Hnew Hfits] Hd. destruct (convert_id _ _ _ _ Hdoc) as [Hix Hid]. rewrite Hname in Hix.
  destruct (set_info c key (marshal_meta (mkMeta name d c)) s) as (e' & Hset & Hinfo & Hdocs & Hhash).
  destruct (Insert_new doc i sch docs) as (i' & Hins & Hc'); [by rewrite Hix|by rewrite Hid|done|]. exists e', i'. rewrite Hix, Hid in Hc'. split; [|done].
  unfold addIndexedKey. rewrite (im_bind_ok _ _ _ d s) by (rewrite decide_False by done; done). rewrite (im_bind_ok _ _ _ _ _ Hset).
  rewrite (im_bind_ok _ _ _ (fields_of s key pairs) (with_engine e' s)).
  2:{ unfold fields_of. destruct (decide (pairs = [])); [|done]. unfold mbind, im_bind, of_engine, getEngine. change (i_engines (with_engine e' s) (Z.land 0 c)) with (E (with_engine e' s)).
      by rewrite E_with, HGetAll_ok, Hhash. }
  rewrite (im_bind_ok _ _ _ (Some def) (with_engine e' s)) by (unfold iget; by rewrite <-Hdef).
  rewrite (im_bind_ok _ _ _ tt (with_engine e' s)) by (by apply (getIndexer_open c i)). rewrite (im_bind_ok _ _ _ doc (with_engine e' s)) by (unfold ilift; by rewrite Hdoc).
  unfold insert_document. by rewrite (on_indexer_ok c i _ (Ok tt) i').
Qed.
(** A key without a document id gets a new one. *)
Lemma add_new s c name key pairs d s1 cell : i_cells s !! c = Some cell → AllocateDoc c s = (Ok d, s1) → d ≠ 0 →
  addIndexedKey ParseFloat 0 c name 0 key pairs s = addIndexedKey ParseFloat 0 c name d key pairs (set_wb (i_wb s1 ++ [BSet (getDocIDKey d) key]) s1).
Proof.
  intros Hcell Hal Hd. unfold addIndexedKey at 1. rewrite (im_bind_ok _ _ _ d (set_wb (i_wb s1 ++ [BSet (getDocIDKey d) key]) s1)).
  2:{ rewrite decide_True by done. rewrite (im_bind_ok _ _ _ (Some cell) s) by (unfold getCell, iget; by rewrite Hcell). rewrite (im_bind_ok _ _ _ _ _ Hal). done. }
  unfold addIndexedKey. rewrite (im_bind_ok _ _ _ d (set_wb (i_wb s1 ++ [BSet (getDocIDKey d) key]) s1)); [done|]. by rewrite decide_False.
Qed.
Lemma AllocateDoc_frame c (s s1 : ist) r : AllocateDoc c s = (r, s1) →
  i_engines s1 = i_engines s ∧ i_indexers s1 = i_indexers s ∧ i_indices s1 = i_indices s ∧ i_wb s1 = i_wb s ∧ i_cells s1 = i_cells s.
Proof. unfold AllocateDoc. destruct (AllocateDocID _ _ _) as [doc n']. by intros [= <- <-]. Qed.

(** ** Documents and keys, one to one *)
Record index_ok (s : ist) : Prop := {
  ok_values k v : eng_infos (E s) !! k = Some v → v = [] ∨ ∃ m, v = marshal_meta m;
  ok_info k m : info s k = Some m →
    is_Some (documents s (km_CellID m) (km_IdxName m) !! km_DocID m) ∧ key_of s (km_DocID m) = Some k ∧ 0 ≤ km_DocID m < two64;
  ok_doc c name d : is_Some (documents s c name !! d) → ∃ k, info s k = Some (mkMeta name d c);
}.
(** What a request may do to the index: the information of one key changes from [old]
    to [new], and with it one document. *)
Record effect (s s' : ist) (key : bytes) (old new : option KeyMetaVal) : Prop := {
  ef_values k v : eng_infos (E s') !! k = Some v → v = [] ∨ ∃ m, v = marshal_meta m;
  ef_info k : info s' k = if decide (k = key) then new else info s k;
  ef_docs c name d : is_Some (documents s' c name !! d) ↔ new = Some (mkMeta name d c) ∨ is_Some (documents s c name !! d) ∧ old ≠ Some (mkMeta name d c);
  ef_keys d : 0 ≤ d < two64 → key_of s' d = if decide (km_DocID <$> new = Some d) then Some key else if decide (km_DocID <$> old = Some d) then None else key_of s d;
}.
Lemma effect_ok s s' key old new : index_ok s → info s key = old → effect s s' key old new →
  (∀ m, new = Some m → 0 ≤ km_DocID m < two64 ∧ ∀ k m', k ≠ key → info s k = Some m' → km_DocID m' ≠ km_DocID m) → index_ok s'.
Proof.
  intros [Hv Hi Hd] Hold [Ev Ei Ed Ek] Hnew. split; [done| |].
  - intros k m. rewrite Ei. case_decide as Hk; intros Hm.
    + destruct (Hnew m Hm) as [Hr _]. subst new. split_and!; [|rewrite Ek, decide_True by done; congruence|lia|lia]. apply Ed. left. by destruct m.
    + destruct (Hi k m Hm) as (Hdoc & Hkey & Hr). assert (∀ m', old = Some m' → km_DocID m' ≠ km_DocID m) as Hne.
      { intros m' Hm' Heq. rewrite Hm' in Hold. destruct (Hi key m' Hold) as (_ & Hkey' & _). rewrite Heq in Hkey'. congruence. }
      split_and!; [|rewrite Ek by done|lia|lia].
      * apply Ed. right. split; [done|]. intros Ho. exact (Hne _ Ho eq_refl).
      * rewrite decide_False. 2:{ destruct new as [m'|]; [|done]. intros [= Heq]. destruct (Hnew m' eq_refl) as [_ Hf]. by apply (Hf k m). }
        rewrite decide_False; [done|]. destruct old as [m'|]; [|done]. intros [= Heq]. by apply (Hne m').
  - intros c name d [Hn|[Hdoc Hno]]%Ed; [exists key; by rewrite Ei, decide_True|]. destruct (Hd c name d Hdoc) as [k Hk]. exists k. rewrite Ei, decide_False; [done|].
    intros ->. by rewrite Hold in Hk.
Qed.
Lemma documents_update (s : ist) c name i i' sch docs : i_indexers s !! c = Some i → contents i' = <[name := (sch, docs)]> (contents i) →
  ∀ s', i_indexers s' = <[c := i']> (i_indexers s) → ∀ c1 n1, documents s' c1 n1 = if decide (c1 = c ∧ n1 = name) then docs else documents s c1 n1.
Proof.
  intros Hi Hc s' Hs c1 n1. unfold documents. rewrite Hs. destruct (decide (c1 = c)) as [->|Hne].
  - rewrite lookup_insert_eq, Hi, Hc. destruct (decide (n1 = name)) as [->|Hn]; [by rewrite lookup_insert_eq, decide_True|]. rewrite lookup_insert_ne by done. rewrite decide_False; [done|]. by intros [_ ?].
  - rewrite lookup_insert_ne by done. rewrite decide_False; [done|]. by intros [? _].
Qed.
Lemma documents_some (s : ist) c name d : is_Some (documents s c name !! d) →
  ∃ i sch, i_indexers s !! c = Some i ∧ contents i !! name = Some (sch, documents s c name).
Proof.
  unfold documents. intros [x Hx]. destruct (i_indexers s !! c) as [i|]; [|by rewrite lookup_empty in Hx]. destruct (contents i !! name) as [[sch docs]|] eqn:Hc; [|by rewrite lookup_empty in Hx].
  exists i, sch. done.
Qed.
Lemma info_insert (s s' : ist) key v k : eng_infos (E s') = <[key := v]> (eng_infos (E s)) → info s' k = if decide (k = key) then meta_of v else info s k.
Proof.
  intros Hs. unfold info. rewrite Hs. destruct (decide (k = key)) as [->|Hne]; [by rewrite lookup_insert_eq|]. by rewrite lookup_insert_ne.
Qed.
Lemma index_ok_wb wb s : index_ok s → index_ok (set_wb wb s).
Proof. by intros [Hv Hi Hd]; split. Qed.
(** *** Forgetting a key *)
(** What an insertion does first; it does not mind when the key is not found. *)
Definition forget (c : Z) (key : bytes) : im bool := λ s, match deleteIndexedKey 0 c key false s with (Err _, s') => (Ok false, s') | res => res end.
Lemma forget_none s c key : index_ok s → info s key = None → forget c key s = (Ok false, s).
Proof.
  intros [Hv _ _] Hn. unfold forget, deleteIndexedKey, mbind, im_bind, of_engine, getEngine. change (i_engines s (Z.land 0 c)) with (E s).
  destruct (eng_infos (E s) !! key) as [v|] eqn:Hk; [|by destruct (GetIndexInfo_missing key (E s) Hk) as [->|(err & ->)]]. rewrite (GetIndexInfo_ok _ _ _ Hk).
  destruct (Hv key v Hk) as [->|(m & ->)]; [done|]. unfold info in Hn. rewrite Hk in Hn. cbn in Hn. by rewrite meta_of_marshal in Hn.
Qed.
Lemma delete_some s c key isDel m : index_ok s → info s key = Some m →
  ∃ i i' sch e', i_indexers s !! km_CellID m = Some i ∧ contents i !! km_IdxName m = Some (sch, documents s (km_CellID m) (km_IdxName m)) ∧
    contents i' = <[km_IdxName m := (sch, delete (km_DocID m) (documents s (km_CellID m) (km_IdxName m)))]> (contents i) ∧
    deleteIndexedKey 0 c key isDel s =
      (Ok true, (if isDel then with_engine e' else id) (set_wb (i_wb s ++ [BDelete (getDocIDKey (km_DocID m))]) (set_indexers (<[km_CellID m := i']> (i_indexers s)) s))) ∧
    eng_infos e' = <[key := []]> (eng_infos (E s)) ∧ eng_docs e' = eng_docs (E s) ∧ eng_hash e' = eng_hash (E s).
Proof.
  intros [Hv Hi _] Hm. destruct (Hi key m Hm) as (Hdoc & _ & _). destruct (documents_some _ _ _ _ Hdoc) as (i & sch & Hix & Hc).
  destruct (Del_found (km_IdxName m) (km_DocID m) i _ _ Hc) as (b & i' & Hdel & Hc'). set (s1 := set_indexers (<[km_CellID m := i']> (i_indexers s)) s).
  destruct (set_info (km_CellID m) key [] (set_wb (i_wb s ++ [BDelete (getDocIDKey (km_DocID m))]) s1)) as (e' & Hset & He). exists i, i', sch, e'. split_and!; [done|done|done| |apply He..].
  unfold info in Hm. destruct (eng_infos (E s) !! key) as [v|] eqn:Hk; [|done]. cbn in Hm. destruct (Hv key v Hk) as [->|(m' & ->)]; [done|].
  rewrite meta_of_marshal in Hm. injection Hm as ->. unfold deleteIndexedKey. rewrite (im_bind_ok _ _ _ (marshal_meta m) s).
  2:{ unfold of_engine, getEngine. change (i_engines s (Z.land 0 c)) with (E s). by rewrite (GetIndexInfo_ok _ _ _ Hk). }
  rewrite bool_decide_eq_false_2 by apply meta_nonempty. rewrite meta_roundtrip. rewrite (im_bind_ok _ _ _ tt s) by (by apply (getIndexer_open _ i)).
  rewrite (im_bind_ok _ _ _ b s1) by (by apply (on_indexer_ok _ i)). rewrite (im_bind_ok _ _ _ tt (set_wb (i_wb s ++ [BDelete (getDocIDKey (km_DocID m))]) s1)) by done.
  destruct isDel; [by rewrite (im_bind_ok _ _ _ _ _ Hset)|done].
Qed.

(** *** Adding and writing *)
Lemma AllocateDoc_same c (s s' : ist) : i_nextDocID s' = i_nextDocID s → i_pd s' = i_pd s → (AllocateDoc c s').1 = (AllocateDoc c s).1.
Proof. intros Hn Hp. unfold AllocateDoc. rewrite Hn, Hp. by destruct (AllocateDocID _ _ _). Qed.
Lemma write_batch_ok (s : ist) : ∃ e', write_batch 0 s = (Ok tt, with_engine e' s) ∧
  eng_docs e' = foldl map_op (eng_docs (E s)) (i_wb s) ∧ eng_infos e' = eng_infos (E s) ∧ eng_hash e' = eng_hash (E s).
Proof.
  destruct (KV_Write_ok (i_wb s) (E s)) as (e' & Heq & ?). exists e'. split; [|done]. unfold write_batch, on_engine, getEngine.
  change (i_engines s (Z.land 0 1)) with (E s). by rewrite Heq.
Qed.
Lemma add_and_write s c name key pairs d cell def doc i sch docs : i_cells s !! c = Some cell → (AllocateDoc c s).1 = Ok d → d ≠ 0 →
  can_add s c name d (fields_of s key pairs) def doc i sch docs →
  ∃ s1 s', addIndexedKey ParseFloat 0 c name 0 key pairs s = (Ok tt, s1) ∧ write_batch 0 s1 = (Ok tt, s') ∧
    eng_infos (E s') = <[key := marshal_meta (mkMeta name d c)]> (eng_infos (E s)) ∧
    eng_docs (E s') = <[getDocIDKey d := key]> (foldl map_op (eng_docs (E s)) (i_wb s)) ∧
    ∀ c1 n1, documents s' c1 n1 = if decide (c1 = c ∧ n1 = name) then <[d := dw_Doc doc]> docs else documents s c1 n1.
Proof.
  intros Hcell Hal Hd [Hdef Hname Hdoc Hi Hc Hnew Hfits]. destruct (AllocateDoc c s) as [r sa] eqn:Ha. cbn in Hal. subst r.
  destruct (AllocateDoc_frame _ _ _ _ Ha) as (Fe & Fi & Fx & Fw & Fc). set (sb := set_wb (i_wb sa ++ [BSet (getDocIDKey d) key]) sa).
  assert (E sb = E s) as HE by (unfold E; cbn; by rewrite Fe).
  destruct (add_known sb c name d key pairs def doc i sch docs) as (e' & i' & Hadd & Hinfo & Hdocs & Hhash & Hc').
  { split; cbn; rewrite ?Fx, ?Fi; try done. unfold fields_of. rewrite HE. done. }
  { done. }
  set (s1 := set_indexers (<[c := i']> (i_indexers sb)) (with_engine e' sb)) in *.
  assert (E s1 = e') as HE1 by apply (E_with e' sb).
  destruct (write_batch_ok s1) as (e2 & Hw & Hdocs2 & Hinfo2 & _). exists s1, (with_engine e2 s1).
  split_and!; [by rewrite (add_new _ _ _ _ _ d sa cell)|done|..]; rewrite ?E_with.
  - by rewrite Hinfo2, HE1, Hinfo, HE.
  - rewrite Hdocs2, HE1, Hdocs, HE. cbn [i_wb s1 sb set_indexers set_wb with_engine set_engines]. rewrite Fw, foldl_app. done.
  - apply (documents_update s c name i i' sch); [done|done|]. cbn. by rewrite Fi.
Qed.

Lemma docIDKey_inj d d' : 0 ≤ d < two64 → 0 ≤ d' < two64 → getDocIDKey d = getDocIDKey d' → d = d'.
Proof. intros Hd Hd' Heq. unfold getDocIDKey in Heq. apply app_inv_head in Heq. by apply PutUint64_inj. Qed.
(** What adding a key leaves, when [old] was forgotten before. *)
Lemma added_effect s s2 s' key old name c d docs doc :
  index_ok s → info s key = old → 0 ≤ d < two64 →
  eng_infos (E s2) = eng_infos (E s) → eng_docs (E s2) = eng_docs (E s) →
  i_wb s2 = (match old with Some m => [BDelete (getDocIDKey (km_DocID m))] | None => [] end) →
  (∀ c1 n1 d1, documents s2 c1 n1 !! d1 = if decide (old = Some (mkMeta n1 d1 c1)) then None else documents s c1 n1 !! d1) →
  docs = documents s2 c name →
  eng_infos (E s') = <[key := marshal_meta (mkMeta name d c)]> (eng_infos (E s2)) →
  eng_docs (E s') = <[getDocIDKey d := key]> (foldl map_op (eng_docs (E s2)) (i_wb s2)) →
  (∀ c1 n1, documents s' c1 n1 = if decide (c1 = c ∧ n1 = name) then <[d := dw_Doc doc]> docs else documents s2 c1 n1) →
  effect s s' key old (Some (mkMeta name d c)).
Proof.
  intros [Hv Hi _] Hold Hd Hinf Hed Hwb Hdocs2 -> Hinf' Hed' Hdocs'. rewrite Hinf in Hinf'. split.
  - intros k v. rewrite Hinf'. intros [[_ <-]|[_ Hk]]%lookup_insert_Some; [right; by eexists|by apply (Hv k)].
  - intros k. rewrite (info_insert s s' key _ k Hinf'). case_decide; [by rewrite meta_of_marshal|done].
  - intros c1 n1 d1. rewrite Hdocs'. destruct (decide (c1 = c ∧ n1 = name)) as [[-> ->]|Hne].
    + destruct (decide (d1 = d)) as [->|Hd1]; [rewrite lookup_insert_eq; naive_solver|]. rewrite lookup_insert_ne by done. rewrite Hdocs2.
      case_decide as Ho; split; [by intros [? ?]|intros [?|[_ ?]]; congruence|tauto|intros [?|[? _]]; [congruence|done]].
    + rewrite Hdocs2. case_decide as Ho; split; [by intros [? ?]|intros [[= -> -> ->]|[_ ?]]; [tauto|congruence]|tauto|intros [[= -> -> ->]|[? _]]; [tauto|done]].
  - intros d1 Hd1. unfold key_of. rewrite Hed', Hed, Hwb. cbn [fmap option_fmap option_map km_DocID]. destruct (decide (Some d = Some d1)) as [[= ->]|Hne]; [by rewrite lookup_insert_eq|].
    rewrite lookup_insert_ne by (intros Heq; apply Hne; f_equal; by apply docIDKey_inj). destruct old as [m|]; cbn [foldl map_op fmap option_fmap option_map]; [|done].
    destruct (Hi key m Hold) as (_ & _ & Hm). destruct (decide (Some (km_DocID m) = Some d1)) as [[= ->]|Hne1]; [by rewrite lookup_delete_eq|].
    rewrite lookup_delete_ne; [done|]. intros Heq. apply Hne1. f_equal. by apply docIDKey_inj.
Qed.

(** The fields of the document a command makes: those of the whole hash when the key
    was indexed before, otherwise the arguments. *)
Definition request_fields (s : ist) (key : bytes) (args : list bytes) : list bytes :=
  match info s key with Some _ => flatten (eng_hash (E s) key) | None => fields_of s key args end.
Lemma handle_insert c name key args (s s2 s3 s' : ist) changed :
  forget c key (set_wb [] s) = (Ok changed, s2) → addIndexedKey ParseFloat 0 c name 0 key (if changed : bool then [] else args) s2 = (Ok tt, s3) →
  write_batch 0 s3 = (Ok tt, s') → handleIdxKeyReq ParseFloat 0 (mkKeyReq c name (key :: args) false) s = (Ok tt, s').
Proof.
  intros Hdel Hadd Hw. unfold handleIdxKeyReq. cbn [kr_CmdArgs kr_CellID kr_IsDel kr_IdxName]. rewrite (im_bind_ok _ _ _ tt (set_wb [] s)) by done.
  rewrite (im_bind_ok _ _ _ changed s2) by exact Hdel. by rewrite (im_bind_ok _ _ _ _ _ Hadd).
Qed.
Definition others_kept (s s' : ist) (key : bytes) : Prop := ∀ k, k ≠ key → info s' k = info s k ∧
  ∀ m, info s k = Some m → documents s' (km_CellID m) (km_IdxName m) !! km_DocID m = documents s (km_CellID m) (km_IdxName m) !! km_DocID m.
Lemma others_ne s key old k m : index_ok s → info s key = old → k ≠ key → info s k = Some m → old ≠ Some m.
Proof.
  intros [_ Hi _] Hold Hne Hm Ho. rewrite Ho in Hold. destruct (Hi _ _ Hold) as (_ & Hk1 & _). destruct (Hi _ _ Hm) as (_ & Hk2 & _). congruence.
Qed.

(** Before a key is added, its old document is forgotten. *)
Lemma forget_old (s : ist) c name key args d def doc i sch docs :
  index_ok s → (AllocateDoc c s).1 = Ok d → can_add s c name d (request_fields s key args) def doc i sch docs →
  ∃ changed s2 i2, forget c key (set_wb [] s) = (Ok changed, s2) ∧
    can_add s2 c name d (fields_of s2 key (if changed : bool then [] else args)) def doc i2 sch (documents s2 c name) ∧ i_cells s2 = i_cells s ∧ (AllocateDoc c s2).1 = Ok d ∧
    eng_infos (E s2) = eng_infos (E s) ∧ eng_docs (E s2) = eng_docs (E s) ∧
    i_wb s2 = (match info s key with Some m => [BDelete (getDocIDKey (km_DocID m))] | None => [] end) ∧
    (∀ c1 n1 d1, documents s2 c1 n1 !! d1 = if decide (info s key = Some (mkMeta n1 d1 c1)) then None else documents s c1 n1 !! d1).
Proof.
  intros Hok Hal [Hdef Hname Hdoc Hi Hc Hnew Hfits]. assert (documents s c name = docs) as Hdocs by (unfold documents; by rewrite Hi, Hc).
  unfold request_fields in Hdoc. destruct (info s key) as [m|] eqn:Hm.
  - destruct (delete_some (set_wb [] s) c key false m (index_ok_wb [] s Hok) Hm) as (im & im' & schm & e' & Him & Hcm & Hcm' & Hdel & _). cbn in Him.
    cbn [i_wb set_wb app i_indexers id] in Hdel. change (documents (set_wb [] s)) with (documents s) in *. set (s2 := set_wb [BDelete _] _) in Hdel. pose proof (documents_update s _ _ im im' _ _ Him Hcm' s2 eq_refl) as Hup.
    assert (∃ i2, i_indexers s2 !! c = Some i2 ∧ contents i2 !! name = Some (sch, documents s2 c name)) as (i2 & Hi2 & Hc2).
    { cbn [s2 i_indexers set_wb set_indexers]. rewrite Hup. destruct (decide (c = km_CellID m)) as [->|Hne].
      - rewrite lookup_insert_eq. rewrite Hi in Him. injection Him as <-. exists im'. split; [done|]. rewrite Hcm'. destruct (decide (name = km_IdxName m)) as [->|Hn].
        + rewrite lookup_insert_eq, decide_True by done. by rewrite Hc in Hcm; injection Hcm as ->.
        + rewrite lookup_insert_ne, decide_False by (try done; by intros [_ ?]). by rewrite Hc, Hdocs.
      - rewrite lookup_insert_ne, decide_False by (try done; by intros [? _]). exists i. by rewrite Hdocs. }
    exists true, s2, i2. split_and!; try done; [unfold forget; by rewrite Hdel|..].
    + split; try done. rewrite Hup. case_decide as Hcase; [|by rewrite Hdocs]. destruct Hcase as [-> ->]. rewrite Hdocs. by apply lookup_delete_None; right.
    + by rewrite (AllocateDoc_same c s s2).
    + intros c1 n1 d1. rewrite Hup. destruct m as [n0 d0 c0]. cbn [km_CellID km_IdxName km_DocID] in *. destruct (decide (c1 = c0 ∧ n1 = n0)) as [[-> ->]|Hne].
      * destruct (decide (d1 = d0)) as [->|Hd1]; [by rewrite lookup_delete_eq, decide_True|]. rewrite lookup_delete_ne, decide_False by congruence. done.
      * rewrite decide_False; [done|]. intros [= -> -> ->]. tauto.
  - change (documents s c name) with (documents (set_wb [] s) c name) in Hdocs. exists false, (set_wb [] s), i. rewrite Hdocs. split_and!; try done; [by apply forget_none; [apply index_ok_wb|]|by rewrite (AllocateDoc_same c s)].
Qed.

(** C20. A command keeps the index in step with its key.  On a store with one engine, when the index is
    defined and open in the cell, PD gives a document id that no key has, and the fields of the
    request can be converted to it, a HMSET or HSET that was executed is indexed: the key then has one document, in the
    index of its cell, made of the fields of its whole hash if the key was indexed before, and otherwise of
    the arguments of the command only; an older document of the key is gone from whatever index it was in;
    documents and keys correspond one to one as before, and the documents of other keys are untouched. *)
Theorem index_follows_key (s : ist) c name key args d cell def doc i sch docs :
  index_ok s → i_cells s !! c = Some cell → (AllocateDoc c s).1 = Ok d → 0 < d < two64 → (∀ k m, info s k = Some m → km_DocID m ≠ d) →
  can_add s c name d (request_fields s key args) def doc i sch docs →
  ∃ s', handleIdxKeyReq ParseFloat 0 (mkKeyReq c name (key :: args) false) s = (Ok tt, s') ∧ index_ok s' ∧
    info s' key = Some (mkMeta name d c) ∧ documents s' c name !! d = Some (dw_Doc doc) ∧ others_kept s s' key.
Proof.
  intros Hok Hcell Hal Hd Hfresh Hca. destruct (forget_old s c name key args d def doc i sch docs Hok Hal Hca) as (changed & s2 & i2 & Hdel & Hca2 & Hc2 & Hal2 & Hi2 & He2 & Hw2 & Hd2).
  destruct (add_and_write s2 c name key (if changed then [] else args) d cell def doc i2 sch (documents s2 c name)) as (s3 & s' & Hadd & Hw & Hinf' & Hed' & Hdocs'); [by rewrite Hc2|done|lia|done|].
  pose proof (added_effect s s2 s' key _ name c d _ doc Hok eq_refl ltac:(lia) Hi2 He2 Hw2 Hd2 eq_refl Hinf' Hed' Hdocs') as Heff.
  exists s'. split_and!; [by eapply handle_insert| |by rewrite (ef_info _ _ _ _ _ Heff), decide_True|by rewrite Hdocs', decide_True, lookup_insert_eq by done|].
  - eapply effect_ok; [done|reflexivity|exact Heff|]. intros m [= <-]. split; [cbn; lia|]. intros k m' _ Hm'. by apply (Hfresh k).
  - intros k Hne. rewrite (ef_info _ _ _ _ _ Heff), decide_False by done. split; [done|]. intros m Hm. rewrite Hdocs'.
    pose proof (others_ne s key _ k m Hok eq_refl Hne Hm) as Ho. destruct m as [n1 d1 c1]. cbn [km_CellID km_IdxName km_DocID] in *. case_decide as Hcase.
    + destruct Hcase as [-> ->]. rewrite lookup_insert_ne by (intros <-; by apply (Hfresh k _ Hm)). rewrite Hd2. by rewrite decide_False.
    + rewrite Hd2. by rewrite decide_False.
Qed.

(** ** Splitting a cell *)
(** The indexer of a cell has an index with a schema. *)
Definition has_schema (s : ist) (c : Z) (name : bytes) (sch : DocumentWithIdx) : Prop := ∃ i, i_indexers s !! c = Some i ∧ contents i !! name = Some (sch, documents s c name).
Lemma has_schema_update s s' c i i' name docs sch0 : i_indexers s !! c = Some i → contents i !! name = Some (sch0, documents s c name) →
  contents i' = <[name := (sch0, docs)]> (contents i) → i_indexers s' = <[c := i']> (i_indexers s) → ∀ c1 n1 sch, has_schema s c1 n1 sch → has_schema s' c1 n1 sch.
Proof.
  intros Hi Hc Hc' Hs c1 n1 sch (i1 & Hi1 & Hc1). pose proof (documents_update s c name i i' sch0 docs Hi Hc' s' Hs c1 n1) as Hd. unfold has_schema. rewrite Hs.
  destruct (decide (c1 = c)) as [->|Hne].
  - rewrite lookup_insert_eq. rewrite Hi in Hi1. injection Hi1 as <-. exists i'. split; [done|]. rewrite Hd, Hc'. destruct (decide (n1 = name)) as [->|Hn].
    + rewrite lookup_insert_eq, decide_True by done. rewrite Hc in Hc1. by injection Hc1 as ->.
    + rewrite lookup_insert_ne, decide_False by (try done; by intros [_ ?]). done.
  - rewrite lookup_insert_ne by done. exists i1. split; [done|]. rewrite Hd, decide_False by (by intros [? _]). done.
Qed.
(** A document of the left cell that can be moved to the right one. *)
Record movable (s : ist) (R : Z) (k : bytes) (m : KeyMetaVal) (doc : DocumentWithIdx) : Prop := {
  mv_name : km_IdxName m ≠ [];
  mv_id : km_DocID m ≠ 0;
  mv_doc : ∃ def, i_indices s !! km_IdxName m = Some def ∧ ix_Name def = km_IdxName m ∧ convertToDocument ParseFloat def (km_DocID m) (flatten (eng_hash (E s) k)) = Ok doc;
  mv_schema : ∃ sch, has_schema s R (km_IdxName m) sch ∧ fits sch doc;
}.
(** What stays the same while keys are moved. *)
Record frame (s s' : ist) : Prop := {
  fr_hash : eng_hash (E s') = eng_hash (E s);
  fr_indices : i_indices s' = i_indices s;
  fr_cells : i_cells s' = i_cells s;
  fr_schema c name sch : has_schema s c name sch → has_schema s' c name sch;
  fr_wb : i_wb s' = i_wb s;
  fr_open c : is_Some (i_indexers s !! c) → is_Some (i_indexers s' !! c);
}.
Lemma movable_frame s s' R k m doc : frame s s' → movable s R k m doc → movable s' R k m doc.
Proof. intros [Hh Hx _ Hs _ _] [? ? (def & ?) (sch & ? & ?)]. split; [done|done|exists def; by rewrite Hx, Hh|exists sch; auto]. Qed.
Lemma split_key_moves s L R k m doc : index_ok s → L ≠ R → info s k = Some m → km_CellID m = L → movable s R k m doc →
  ∃ s', split_key ParseFloat 0 L R k (marshal_meta m) s = (Ok tt, s') ∧ effect s s' k (Some m) (Some (mkMeta (km_IdxName m) (km_DocID m) R)) ∧ frame s s' ∧
    ∀ c1 n1 d1, documents s' c1 n1 !! d1 =
      if decide (c1 = R ∧ n1 = km_IdxName m ∧ d1 = km_DocID m) then Some (dw_Doc doc)
      else if decide (c1 = L ∧ n1 = km_IdxName m ∧ d1 = km_DocID m) then None else documents s c1 n1 !! d1.
Proof.
  intros Hok Hne Hm Hcell [Hname Hid (def & Hdef & Hdn & Hdoc) (sch & (iR & HiR & HcR) & Hfits)]. pose proof Hok as [Hv Hi Hd]. destruct m as [name d c]. cbn [km_IdxName km_DocID km_CellID] in *. subst c.
  destruct (Hi k _ Hm) as (Hdocs & Hkey & Hr). cbn [km_IdxName km_DocID km_CellID] in *. destruct (documents_some _ _ _ _ Hdocs) as (iL & schL & HiL & HcL).
  destruct (Del_found name d iL _ _ HcL) as (b & iL' & Hdel & HcL'). set (s1 := set_indexers (<[L := iL']> (i_indexers s)) s).
  pose proof (documents_update s L name iL iL' _ _ HiL HcL' s1 eq_refl) as Hup.
  assert (documents s1 R name = documents s R name) as HR by (rewrite Hup, decide_False by (intros [? _]; done); done).
  destruct (add_known s1 R name d k [] def doc iR sch (documents s R name)) as (e' & iR' & Hadd & Hinf & Hed & Hh & HcR').
  { split; [done|done|done|cbn; by rewrite lookup_insert_ne|done| |done]. apply eq_None_not_Some. intros Hsome. destruct (Hd R name d Hsome) as [k' Hk'].
    destruct (Hi _ _ Hk') as (_ & Hkey' & _). cbn [km_DocID] in Hkey'. rewrite Hkey in Hkey'. injection Hkey' as <-. rewrite Hm in Hk'. by injection Hk'. }
  { done. }
  set (s' := set_indexers _ _) in Hadd. assert (E s' = e') as HE by apply (E_with e' s1).
  pose proof (documents_update s1 R name iR iR' sch _ ltac:(cbn; by rewrite lookup_insert_ne) HcR' s' eq_refl) as Hup'.
  assert (∀ c1 n1 d1, documents s' c1 n1 !! d1 = if decide (c1 = R ∧ n1 = name ∧ d1 = d) then Some (dw_Doc doc) else if decide (c1 = L ∧ n1 = name ∧ d1 = d) then None else documents s c1 n1 !! d1) as Hall.
  { intros c1 n1 d1. rewrite Hup'. destruct (decide (c1 = R ∧ n1 = name)) as [[-> ->]|HnR].
    - destruct (decide (d1 = d)) as [->|Hd1]; [by rewrite lookup_insert_eq, decide_True|]. rewrite lookup_insert_ne by done. rewrite !decide_False; [done|tauto..].
    - rewrite (decide_False (P := c1 = R ∧ _)) by tauto. rewrite Hup. destruct (decide (c1 = L ∧ n1 = name)) as [[-> ->]|HnL]; [|rewrite decide_False by tauto; done].
      destruct (decide (d1 = d)) as [->|Hd1]; [by rewrite lookup_delete_eq, decide_True|]. rewrite lookup_delete_ne by done. rewrite decide_False by tauto. done. }
  exists s'. split_and!; [| | |exact Hall].
  - unfold split_key. rewrite bool_decide_eq_false_2 by apply meta_nonempty. rewrite meta_roundtrip. cbn [km_CellID km_IdxName km_DocID]. rewrite decide_False, bool_decide_eq_false_2 by done.
    rewrite (im_bind_ok _ _ _ (Some def) s) by (unfold iget; by rewrite Hdef). by rewrite (im_bind_ok _ _ _ b s1) by (by apply (on_indexer_ok L iL)).
  - split.
    + intros k1 v. rewrite HE, Hinf. intros [[_ <-]|[_ Hk]]%lookup_insert_Some; [right; by eexists|by apply (Hv k1)].
    + intros k1. rewrite (info_insert s s' k _ k1) by (by rewrite HE). case_decide; [by rewrite meta_of_marshal|done].
    + intros c1 n1 d1. rewrite Hall. repeat case_decide; naive_solver.
    + intros d1 Hd1. unfold key_of. rewrite HE, Hed. change (eng_docs (E s1)) with (eng_docs (E s)). cbn [fmap option_fmap option_map km_DocID]. case_decide as Hdd; [|done]. injection Hdd as <-. done.
  - split; [by rewrite HE, Hh|done|done| |done|].
    2:{ intros c1 Hc1. cbn. destruct (decide (c1 = R)) as [->|]; [rewrite lookup_insert_eq; by eexists|]. rewrite lookup_insert_ne by done.
        destruct (decide (c1 = L)) as [->|]; [rewrite lookup_insert_eq; by eexists|]. by rewrite lookup_insert_ne. }
    intros c1 n1 sch1 Hs. apply (has_schema_update s1 s' R iR iR' name _ sch ltac:(cbn; by rewrite lookup_insert_ne) ltac:(by rewrite HR) HcR' eq_refl).
    by apply (has_schema_update s s1 L iL iL' name _ schL HiL HcL HcL' eq_refl).
Qed.

Definition doc_at (s : ist) (m : KeyMetaVal) : option Document := documents s (km_CellID m) (km_IdxName m) !! km_DocID m.
Definition moved (R : Z) (m : KeyMetaVal) : KeyMetaVal := mkMeta (km_IdxName m) (km_DocID m) R.
(** Whether the index of a key is still defined; a split skips the keys of others. *)
Definition live (s : ist) (m : KeyMetaVal) : bool := bool_decide (km_IdxName m ≠ []) && bool_decide (is_Some (i_indices s !! km_IdxName m)).
(** A key of the right cell as a scan finds it: moved already, skipped, or it can be moved. *)
Definition to_move (s : ist) (L R : Z) (k : bytes) (m : KeyMetaVal) : Prop := km_CellID m = R ∨ km_CellID m = L ∧ (live s m = false ∨ ∃ doc, movable s R k m doc).
(** Where it is after the scan. *)
Definition after_split (s : ist) (R : Z) (m : KeyMetaVal) : KeyMetaVal := if live s m then moved R m else m.
Lemma moved_same R m : km_CellID m = R → moved R m = m.
Proof. by intros <-; destruct m. Qed.
Lemma movable_live s R k m doc : movable s R k m doc → live s m = true.
Proof. intros [Hn _ (def & Hd & _) _]. unfold live. rewrite !bool_decide_eq_true_2; [done|by eexists|done]. Qed.
Lemma live_frame s s' m : frame s s' → live s' m = live s m.
Proof. intros Hf. unfold live. by rewrite (fr_indices _ _ Hf). Qed.
Lemma frame_refl s : frame s s.
Proof. by split. Qed.
Lemma frame_trans s s' s'' : frame s s' → frame s' s'' → frame s s''.
Proof. intros [] []. split; [congruence|congruence|congruence|auto|congruence|auto]. Qed.
(** One key of the scan. *)
Lemma split_key_step s L R k m : index_ok s → L ≠ R → info s k = Some m → to_move s L R k m →
  ∃ s', split_key ParseFloat 0 L R k (marshal_meta m) s = (Ok tt, s') ∧ index_ok s' ∧ frame s s' ∧
    (∀ k1, info s' k1 = if decide (k1 = k) then Some (after_split s R m) else info s k1) ∧
    (∀ k1 m1, k1 ≠ k ∨ after_split s R m1 = m1 → info s k1 = Some m1 → doc_at s' m1 = doc_at s m1) ∧
    (km_CellID m = L → ∀ doc, movable s R k m doc → doc_at s' (moved R m) = Some (dw_Doc doc)).
Proof.
  intros Hok Hne Hm [HR|(HL & [Hdead|(doc & Hmv)])].
  - exists s. split_and!; [|done|apply frame_refl| |done|congruence].
    + unfold split_key. rewrite bool_decide_eq_false_2 by apply meta_nonempty. by rewrite meta_roundtrip, decide_True.
    + intros k1. case_decide as Hk; [|done]. unfold after_split. rewrite Hk, Hm, moved_same by done. by destruct (live s m).
  - exists s. split_and!; [|done|apply frame_refl| |done|].
    + unfold split_key. rewrite bool_decide_eq_false_2 by apply meta_nonempty. rewrite meta_roundtrip, decide_False by congruence. destruct (bool_decide_reflect (km_IdxName m = [])) as [Hn|Hn]; [done|]. unfold live in Hdead.
      rewrite bool_decide_eq_true_2 in Hdead by done. simpl in Hdead. apply bool_decide_eq_false in Hdead. unfold mbind, im_bind, iget. destruct (i_indices s !! km_IdxName m); [|done]. destruct Hdead. by eexists.
    + intros k1. case_decide as Hk; [|done]. unfold after_split. by rewrite Hdead, Hk.
    + intros _ doc Hmv. apply movable_live in Hmv. congruence.
  - destruct (split_key_moves s L R k m doc Hok Hne Hm HL Hmv) as (s' & Hs & Heff & Hfr & Hdocs). pose proof Hok as [_ Hi _]. destruct (Hi k m Hm) as (_ & Hkey & Hr).
    exists s'. split_and!; [done| |done| | |].
    + eapply effect_ok; [done|done|exact Heff|]. intros m' [= <-]. cbn [km_DocID]. split; [done|]. intros k' m' Hk' Hm' Heq. destruct (Hi _ _ Hm') as (_ & Hkey' & _). congruence.
    + intros k1. unfold after_split. rewrite (movable_live _ _ _ _ _ Hmv). apply (ef_info _ _ _ _ _ Heff).
    + intros k1 m1 Hk1 Hm1. assert (k1 ≠ k) as Hk1'.
      { destruct Hk1 as [?|Hst]; [done|]. intros ->. assert (m1 = m) as -> by congruence. unfold after_split in Hst. rewrite (movable_live _ _ _ _ _ Hmv) in Hst. apply Hne. by rewrite <-HL, <-Hst. }
      destruct (Hi _ _ Hm1) as (_ & Hkey1 & _). unfold doc_at. rewrite Hdocs. rewrite !decide_False; [done|intros (_ & _ & Heq); congruence..].
    + intros _ doc' Hmv'. unfold doc_at, moved. cbn [km_CellID km_IdxName km_DocID]. rewrite Hdocs, decide_True by done.
      destruct Hmv as [_ _ (def & Hx & _ & Hd1) _], Hmv' as [_ _ (def' & Hx' & _ & Hd2) _]. congruence.
Qed.
Lemma to_move_frame s s' L R k m : frame s s' → to_move s L R k m → to_move s' L R k m.
Proof. intros Hf [?|(? & [?|(doc & Hmv)])]; [by left|right; split; [done|]; left; by rewrite (live_frame s s')|right; split; [done|]; right; exists doc; by eapply movable_frame]. Qed.
Lemma after_split_frame s s' R m : frame s s' → after_split s' R m = after_split s R m.
Proof. intros Hf. unfold after_split. by rewrite (live_frame s s'). Qed.
Lemma scan_moves L R l : L ≠ R → ∀ s, index_ok s → NoDup l.*1 → (∀ k v, (k, v) ∈ l → ∃ m, v = marshal_meta m ∧ info s k = Some m ∧ to_move s L R k m) →
  ∃ s', scan_infos l (split_key ParseFloat 0 L R) s = (Ok tt, s') ∧ index_ok s' ∧ frame s s' ∧
    (∀ k, info s' k = if decide (k ∈ l.*1) then after_split s R <$> info s k else info s k) ∧
    (∀ k m, k ∉ l.*1 ∨ after_split s R m = m → info s k = Some m → doc_at s' m = doc_at s m) ∧
    (∀ k m doc, k ∈ l.*1 → info s k = Some m → km_CellID m = L → movable s R k m doc → doc_at s' (moved R m) = Some (dw_Doc doc)).
Proof.
  intros Hne. induction l as [|[k v] l IH]; intros s Hok Hnd Hall.
  { exists s. split_and!; [done|done|apply frame_refl|done|done|]. by intros ??? ?%elem_of_nil. }
  rewrite fmap_cons in Hnd. apply NoDup_cons in Hnd as [Hk Hnd]. destruct (Hall k v ltac:(by apply elem_of_cons; left)) as (m & -> & Hm & Hmove).
  destruct (split_key_step s L R k m Hok Hne Hm Hmove) as (s1 & Hs1 & Hok1 & Hfr1 & Hinf1 & Hoth1 & Hdoc1).
  assert (∀ k' v', (k', v') ∈ l → k' ≠ k) as Hother by (intros k' v' Hin ->; apply Hk; apply list_elem_of_fmap; by exists (k, v')).
  destruct (IH s1 Hok1 Hnd) as (s' & Hs' & Hok' & Hfr' & Hinf' & Hoth' & Hdoc').
  { intros k' v' Hin. destruct (Hall k' v' ltac:(by apply elem_of_cons; right)) as (m' & -> & Hm' & Hmove'). exists m'. split_and!; [done|by rewrite Hinf1, decide_False by (by eapply Hother)|].
    by eapply to_move_frame. }
  exists s'. cbn [scan_infos]. rewrite Hs1. split_and!; [done|done|by eapply frame_trans|..]; rewrite fmap_cons; cbn [fst].
  - intros k1. rewrite Hinf', Hinf1. destruct (decide (k1 = k)) as [->|Hk1].
    + rewrite decide_False by done. rewrite decide_True by (by apply elem_of_cons; left). by rewrite Hm.
    + destruct (decide (k1 ∈ l.*1)); [rewrite decide_True by (by apply elem_of_cons; right); destruct (info s k1); [cbn; by rewrite (after_split_frame s s1)|done]|]. rewrite decide_False; [done|]. by intros [?|?]%elem_of_cons.
  - intros k1 m1 Hk1 Hm1. destruct (decide (k1 = k)) as [->|Hkk].
    + destruct Hk1 as [Hk1|Hst]; [destruct Hk1; by apply elem_of_cons; left|]. assert (m1 = m) as -> by congruence.
      rewrite Hoth' with (k := k); [apply (Hoth1 k); [by right|done]|by left|]. by rewrite Hinf1, decide_True, Hst by done.
    + rewrite Hoth' with (k := k1); [apply (Hoth1 k1); [by left|done]|destruct Hk1 as [Hk1|Hst]; [left; intros ?; apply Hk1; by apply elem_of_cons; right|right; by rewrite (after_split_frame s s1)]|]. by rewrite Hinf1, decide_False.
  - intros k1 m1 doc [->|Hin]%elem_of_cons Hm1 HL Hmv.
    + rewrite Hm in Hm1. injection Hm1 as <-. rewrite Hoth' with (k := k); [by apply Hdoc1|by left|]. rewrite Hinf1, decide_True by done. unfold after_split. by rewrite (movable_live _ _ _ _ _ Hmv).
    + assert (k1 ≠ k) as Hk1 by (by intros ->). apply (Hdoc' k1); [done|by rewrite Hinf1, decide_False|done|by eapply movable_frame].
Qed.

(** What a split does to the keys and documents of the right cell and to the others. *)
Record split_done (s s' : ist) (L R : Z) (start end_ : bytes) : Prop := {
  sp_ok : index_ok s';
  sp_moved k m : info s k = Some m → ble start k ∧ blt k end_ → live s m = true →
    info s' k = Some (moved R m) ∧
    (km_CellID m = L → documents s' L (km_IdxName m) !! km_DocID m = None ∧ ∀ doc, movable s R k m doc → doc_at s' (moved R m) = Some (dw_Doc doc));
  sp_kept k m : info s k = Some m → ¬ (ble start k ∧ blt k end_) ∨ live s m = false → info s' k = Some m ∧ doc_at s' m = doc_at s m;
}.
Lemma split_scans (s : ist) (L R : Z) cellL cellR start end_ iL iR :
  index_ok s → L ≠ R → i_cells s !! L = Some cellL → i_cells s !! R = Some cellR → cell_range cellR = Ok (start, end_) →
  i_indexers s !! L = Some iL → i_indexers s !! R = Some iR →
  (∀ k m, info s k = Some m → ble start k → blt k end_ → to_move s L R k m) →
  ∃ s', indexSplitCell ParseFloat 0 L R s = (Ok [L], s') ∧ frame s s' ∧ split_done s s' L R start end_.
Proof.
  intros Hok Hne HcL HcR Hrange HiL HiR Hall. pose proof Hok as [Hv _ _]. set (l := IndexInfos start end_ true (E s)).
  assert (∀ k m, info s k = Some m → k ∈ l.*1 ↔ ble start k ∧ blt k end_) as Hin.
  { intros k m Hm. unfold info in Hm. destruct (eng_infos (E s) !! k) as [v|] eqn:Hk; [|done]. cbn in Hm. rewrite list_elem_of_fmap. split.
    - intros ([k' v'] & -> & (_ & _ & ? & ?)%IndexInfos_elem). done.
    - intros [? ?]. exists (k, v). split; [done|]. apply IndexInfos_elem. split_and!; [done| |done|done]. by intros ->. }
  destruct (scan_moves L R l Hne s Hok (IndexInfos_nodup _ _ _ _)) as (s' & Hscan & Hok' & Hfr & Hinf & Hoth & Hdoc).
  { intros k v (Hk & Hnil & Hs & Ht)%IndexInfos_elem. destruct (Hv k v Hk) as [->|(m & ->)]; [done|]. exists m.
    assert (info s k = Some m) as Hm by (unfold info; rewrite Hk; apply meta_of_marshal). split_and!; [done|done|by apply Hall]. }
  exists s'. split_and!; [|done|].
  - unfold indexSplitCell. rewrite (im_bind_ok _ _ _ (Some cellL) s) by (unfold getCell, iget; by rewrite HcL). rewrite (im_bind_ok _ _ _ (Some cellR) s) by (unfold getCell, iget; by rewrite HcR).
    rewrite (im_bind_ok _ _ _ (start, end_) s) by (unfold ilift; by rewrite Hrange). rewrite (im_bind_ok _ _ _ tt s) by (by apply (getIndexer_open L iL)).
    rewrite (im_bind_ok _ _ _ tt s) by (by apply (getIndexer_open R iR)). rewrite (im_bind_ok _ _ _ tt s'); [done|]. unfold ScanIndexInfo. by rewrite (im_bind_ok _ _ _ l s).
  - split; [done|..].
    + intros k m Hm Hr Hlive. apply (Hin k m Hm) in Hr. assert (info s' k = Some (moved R m)) as Hk by (rewrite Hinf, decide_True, Hm by done; cbn; unfold after_split; by rewrite Hlive).
      split; [done|]. intros HL. split; [|by intros doc; apply Hdoc].
      apply eq_None_not_Some. intros Hsome. destruct (ok_doc _ Hok' _ _ _ Hsome) as [k' Hk'].
      destruct (ok_info _ Hok' _ _ Hk') as (_ & Hkey' & _). destruct (ok_info _ Hok' _ _ Hk) as (_ & Hkey & _). cbn [moved km_DocID] in *. rewrite Hkey in Hkey'. injection Hkey' as <-.
      rewrite Hk in Hk'. by injection Hk'.
    + intros k m Hm Hr. assert (live s m = false → after_split s R m = m) as Hst by (intros Hl; unfold after_split; by rewrite Hl). split.
      * rewrite Hinf, Hm. destruct Hr as [Hr|Hr]; [rewrite <-(Hin k m Hm) in Hr; by rewrite decide_False|]. cbn. rewrite Hst by done. by case_decide.
      * apply (Hoth k); [|done]. destruct Hr as [Hr|Hr]; [rewrite <-(Hin k m Hm) in Hr; by left|right; auto].
Qed.
(** A deletion takes the document of its key away. *)
Lemma index_forgets_key (s : ist) c name key m : index_ok s → info s key = Some m →
  ∃ s', handleIdxKeyReq ParseFloat 0 (mkKeyReq c name [key] true) s = (Ok tt, s') ∧ index_ok s' ∧ info s' key = None ∧ doc_at s' m = None ∧ key_of s' (km_DocID m) = None.
Proof.
  intros Hok Hm. destruct (ok_info _ Hok _ _ Hm) as (_ & _ & Hr).
  destruct (delete_some (set_wb [] s) c key true m (index_ok_wb [] s Hok) Hm) as (i & i' & sch & e' & Hi & _ & Hc & Hdel & Hinf & Hed & _).
  cbn [i_wb set_wb app i_indexers] in Hdel. change (documents (set_wb [] s)) with (documents s) in *. set (s2 := with_engine e' _) in Hdel.
  assert (E s2 = e') as HE by apply E_with. destruct (write_batch_ok s2) as (e2 & Hw & Hed2 & Hinf2 & _). set (s' := with_engine e2 s2) in Hw.
  assert (E s' = e2) as HE' by apply E_with. pose proof (documents_update s _ _ i i' _ _ Hi Hc s' eq_refl) as Hup.
  assert (effect s s' key (Some m) None) as Heff; [|exists s'; split_and!].
  - split.
    + intros k v. rewrite HE', Hinf2, HE, Hinf. intros [[_ <-]|[_ Hk]]%lookup_insert_Some; [by left|by apply (ok_values _ Hok k)].
    + intros k. rewrite (info_insert s s' key [] k); [done|]. by rewrite HE', Hinf2, HE.
    + intros c1 n1 d1. rewrite Hup. destruct m as [n0 d0 c0]. cbn [km_CellID km_IdxName km_DocID] in *. destruct (decide (c1 = c0 ∧ n1 = n0)) as [[-> ->]|Hcn].
      * destruct (decide (d1 = d0)) as [->|Hd]; [rewrite lookup_delete_eq; split; [by intros [? ?]|intros [?|[_ ?]]; congruence]|]. rewrite lookup_delete_ne by done.
        split; [intros ?; right; split; [done|congruence]|intros [?|[? _]]; done].
      * split; [intros ?; right; split; [done|]; intros [= -> -> ->]; tauto|intros [?|[? _]]; done].
    + intros d Hd. unfold key_of. rewrite HE', Hed2, HE, Hed. cbn [i_wb s2 with_engine set_engines set_wb foldl map_op fmap option_fmap option_map].
      rewrite decide_False by done. destruct (decide (Some (km_DocID m) = Some d)) as [[= ->]|Hne]; [by rewrite lookup_delete_eq|].
      rewrite lookup_delete_ne; [done|]. intros Heq. apply Hne. f_equal. by apply docIDKey_inj.
  - unfold handleIdxKeyReq. cbn [kr_CmdArgs kr_CellID kr_IsDel kr_IdxName]. rewrite (im_bind_ok _ _ _ tt (set_wb [] s)) by done.
    rewrite (im_bind_ok _ _ _ true s2) by (by rewrite Hdel). by rewrite (im_bind_ok _ _ _ tt s2).
  - by eapply effect_ok; [exact Hok|exact Hm|exact Heff|].
  - by rewrite (ef_info _ _ _ _ _ Heff), decide_True.
  - unfold doc_at. rewrite Hup, decide_True by done. apply lookup_delete_eq.
  - rewrite (ef_keys _ _ _ _ _ Heff) by done. rewrite decide_False by done. by rewrite decide_True.
Qed.

(** ** Rebuilding an index *)
(** What a call leaves true. *)
Definition keeps {A} (P : ist → Prop) (m : im A) : Prop := ∀ s r s', P s → m s = (r, s') → P s'.
Lemma keeps_bind {A B} P (m : im A) (f : A → im B) : keeps P m → (∀ a, keeps P (f a)) → keeps P (@mbind im im_bind A B f m).
Proof.
  intros Hm Hf s r s' Hs. unfold mbind, im_bind. destruct (m s) as [[a|e|] s1] eqn:Ha; [intros Hb; by eapply (Hf a), Hb; eapply Hm|intros [= <- <-]; by eapply Hm..].
Qed.
Lemma keeps_ret {A} P (a : A) : keeps P (@mret im im_ret A a).
Proof. by intros s r s' Hs [= <- <-]. Qed.
Lemma keeps_lift {A} P (r : outcome ierror A) : keeps P (ilift r).
Proof. by intros s r' s' Hs [= <- <-]. Qed.
Lemma keeps_fail {A} P e : keeps P (@ifail S I A e).
Proof. by intros s r s' Hs [= <- <-]. Qed.
Lemma keeps_get {A} P (f : ist → A) : keeps P (iget f).
Proof. by intros s r s' Hs [= <- <-]. Qed.
Lemma keeps_put P f : (∀ s, P s → P (f s)) → keeps P (iput f).
Proof. intros Hf s r s' Hs [= <- <-]. by apply Hf. Qed.
Lemma keeps_of_engine {A} P c (f : S → outcome ierror A) : keeps P (of_engine 0 c f).
Proof. by intros s r s' Hs [= <- <-]. Qed.
Lemma keeps_scan P l handler : (∀ k v, keeps P (handler k v)) → keeps P (scan_infos l handler).
Proof.
  intros Hh. induction l as [|[k v] l IH]; intros s r s' Hs; cbn [scan_infos]; [by intros [= <- <-]|]. destruct (handler k v s) as [[a|e|] s1] eqn:Hk; pose proof (Hh k v _ _ _ Hs Hk) as Hs1.
  - by apply IH.
  - destruct (scan_infos l handler s1) as [[a|e'|] s2] eqn:Hl; intros [= <- <-]; by eapply IH.
  - by intros [= <- <-].
Qed.
Lemma keeps_if {A} P (b : bool) (m m' : im A) : keeps P m → keeps P m' → keeps P (if b then m else m').
Proof. by destruct b. Qed.
(** The indexer of a cell is open and has no index. *)
Definition blank (c : Z) (s : ist) : Prop := ∃ i, i_indexers s !! c = Some i ∧ contents i = ∅.
Lemma blank_engine {A} c c' (f : S → outcome ierror A * S) : keeps (blank c) (on_engine 0 c' f).
Proof. intros s r s' Hs. unfold on_engine. destruct (f _) as [r' e']. by intros [= <- <-]. Qed.
Lemma blank_getIndexer c : keeps (blank c) (getIndexer c).
Proof. intros s r s' (i & Hi & Hc). unfold getIndexer. rewrite Hi. intros [= <- <-]. by exists i. Qed.
Lemma blank_Alloc c c' : keeps (blank c) (AllocateDoc c').
Proof. intros s r s' (i & Hi & Hc) Ha. destruct (AllocateDoc_frame _ _ _ _ Ha) as (_ & Hix & _). exists i. by rewrite Hix. Qed.
Lemma blank_insert c doc : keeps (blank c) (insert_document c doc).
Proof.
  intros s r s' (i & Hi & Hc). unfold insert_document, on_indexer. rewrite Hi, Insert_missing by (by rewrite Hc). intros [= <- <-]. exists i. cbn. by rewrite lookup_insert_eq.
Qed.
(** What the calls that index a key of cell [c] leave true. *)
Class Kept (P : ist → Prop) (c : Z) : Prop := {
  kept_wb wb s : P s → P (set_wb wb s);
  kept_Alloc : keeps P (AllocateDoc c);
  kept_set_info k v : keeps P (on_engine 0 c (SetIndexInfo k v));
  kept_getIndexer : keeps P (getIndexer c);
  kept_insert doc : keeps P (insert_document c doc);
}.
Section kept.
Context (P : ist → Prop) (c : Z) `{!Kept P c}.
Lemma keeps_wb o : keeps P (wb_add o).
Proof. apply keeps_put. intros s. apply (kept_wb (P := P) (c := c)). Qed.
Lemma keeps_add name d key pairs : keeps P (addIndexedKey ParseFloat 0 c name d key pairs).
Proof.
  unfold addIndexedKey. apply keeps_bind; [destruct (decide (d = 0)); [apply keeps_bind; [apply keeps_get|]; intros [?|]; [|apply keeps_fail]|apply keeps_ret]|].
  { apply keeps_bind; [apply kept_Alloc|]. intros a. apply keeps_bind; [apply keeps_wb|]. intros _. apply keeps_ret. }
  intros d'. apply keeps_bind; [apply kept_set_info|]. intros _. apply keeps_bind; [destruct (decide (pairs = [])); [apply keeps_bind; [apply keeps_of_engine|]; intros ?; apply keeps_ret|apply keeps_ret]|].
  intros fs. apply keeps_bind; [apply keeps_get|]. intros [def|]; [|apply keeps_fail]. apply keeps_bind; [apply kept_getIndexer|]. intros _. apply keeps_bind; [apply keeps_lift|].
  intros doc. apply kept_insert.
Qed.
Lemma keeps_rebuild_key k v : keeps P (rebuild_key ParseFloat 0 c k v).
Proof.
  unfold rebuild_key. apply keeps_bind; [apply keeps_if; [apply keeps_ret|]; destruct (unmarshal_meta v); [apply keeps_wb|apply keeps_fail]|]. intros _.
  apply keeps_bind; [apply keeps_lift|]. intros o. apply keeps_bind; [apply keeps_get|]. intros name. apply keeps_if; [apply keeps_ret|apply keeps_add].
Qed.
End kept.
#[local] Instance blank_kept c : Kept (blank c) c.
Proof. split; [done|apply blank_Alloc|intros; apply blank_engine|apply blank_getIndexer|apply blank_insert]. Qed.
(** What emptying a cell's documents leaves of a store. *)
Definition same_but_engine (s s' : ist) : Prop :=
  i_indexers s' = i_indexers s ∧ i_cells s' = i_cells s ∧ i_indices s' = i_indices s ∧ i_reExps s' = i_reExps s ∧
  eng_infos (E s') = eng_infos (E s) ∧ eng_hash (E s') = eng_hash (E s).
Lemma clear_doc_keys_ok nums : ∀ s : ist, ∃ s', clear_doc_keys 0 nums s = (Ok tt, s') ∧ same_but_engine s s'.
Proof.
  induction nums as [|n nums IH]; intros s; cbn [clear_doc_keys]; [by exists s|].
  destruct (KV_DeleteRange_ok (getDocIDKey (frag_start n)) (getDocIDKey (u64 (frag_start n + SliceWidth))) (E s)) as (e & He & Hinf & Hh).
  destruct (IH (with_engine e s)) as (s' & Hs' & H3 & H4 & H5 & H6 & H7 & H8). rewrite E_with in *. exists s'. split.
  - rewrite (im_bind_ok _ _ _ tt (with_engine e s)); [done|]. unfold on_engine, getEngine. change (i_engines s (Z.land 0 1)) with (E s). by rewrite He.
  - split_and!; [exact H3|exact H4|exact H5|exact H6|by rewrite H7|by rewrite H8].
Qed.

(** Rebuilding the index of a cell, which a store does after it has applied a
    snapshot, leaves the index without documents: the indexer is destroyed and opened
    again, which forgets the definitions, and a document for an index that is not
    there is dropped silently.  The keys keep their index information. *)
Theorem rebuild_empties_index (s s' : ist) c cell start end_ i r :
  i_cells s !! c = Some cell → cell_range cell = Ok (start, end_) → i_indexers s !! c = Some i →
  indexRebuildCell ParseFloat 0 c s = (r, s') → ∀ name, documents s' c name = ∅.
Proof.
  intros Hcell Hr Hi Hreb name. destruct (clear_doc_keys_ok (DocIDFragList i) s) as (s1 & Hclear & Hix & _).
  destruct (Destroy_ok i) as (i1 & Hd & Hc1). destruct (Open_ok i1) as (i2 & Ho & Hc2). set (s2 := set_indexers (<[c := i1]> (i_indexers s1)) s1).
  set (s3 := set_indexers (<[c := i2]> (i_indexers s2)) s2). assert (blank c s3) as Hblank by (exists i2; cbn; rewrite lookup_insert_eq; by rewrite Hc2).
  assert (blank c s') as (i' & Hi' & Hc'); [|unfold documents; by rewrite Hi', Hc', lookup_empty].
  eapply (keeps_scan (blank c) (IndexInfos start end_ false (E s3)) (rebuild_key ParseFloat 0 c)); [intros; by apply keeps_rebuild_key, _|exact Hblank|].
  rewrite <-Hreb. unfold indexRebuildCell. rewrite (im_bind_ok _ _ _ (Some cell) s) by (unfold getCell, iget; by rewrite Hcell).
  rewrite (im_bind_ok _ _ _ (start, end_) s) by (unfold ilift; by rewrite Hr). rewrite (im_bind_ok _ _ _ tt s) by (by apply (getIndexer_open c i)).
  rewrite (im_bind_ok _ _ _ (Some i) s) by (unfold iget; by rewrite Hi). rewrite (im_bind_ok _ _ _ tt s1) by done.
  rewrite (im_bind_ok _ _ _ tt s2) by (apply (on_indexer_ok c i); [by rewrite Hix|done]). by rewrite (im_bind_ok _ _ _ tt s3) by (apply (on_indexer_ok c i1); [apply lookup_insert_eq|done]).
Qed.
(** The request to destroy the index of a cell is queued when the replicate is gone
    already, and then ignored: the index and its documents stay. *)
Lemma destroyed_cell_keeps_index (s : ist) c : i_cells s !! c = None → indexDestroyCell 0 c s = (Ok tt, s).
Proof. intros Hc. unfold indexDestroyCell. by rewrite (im_bind_ok _ _ _ None s) by (unfold getCell, iget; by rewrite Hc). Qed.

(** ** A hash that cannot be indexed *)
(** The next request is to rebuild the index of a cell, and a key of the cell matches an
    index whose field types its hash does not have. *)
Section blocked.
(** The requests behind it. *)
Context (waiting : list bytes).
Record stuck (c : Z) (k : bytes) (s : ist) : Prop := {
  sk_queue : eng_queue (E s) = marshal_request (mkIdxReq None None (Some c)) :: waiting;
  sk_cell : ∃ cell start end_, i_cells s !! c = Some cell ∧ cell_range cell = Ok (start, end_) ∧ ble start k ∧ blt k end_;
  sk_indexer : is_Some (i_indexers s !! c);
  sk_info : is_Some (eng_infos (E s) !! k);
  sk_match : ∃ origin name pattern, getOriginKey k = Ok origin ∧ i_reExps s !! name = Some pattern ∧ re_match pattern origin = true ∧
    ∀ name pattern, i_reExps s !! name = Some pattern → re_match pattern origin = true →
      name ≠ [] ∧ ∃ def, i_indices s !! name = Some def ∧ ∀ d, ∃ e, convertToDocument ParseFloat def d (flatten (eng_hash (E s) k)) = Err e;
}.
Lemma stuck_same c k s s' : stuck c k s → i_cells s' = i_cells s → i_indices s' = i_indices s → i_reExps s' = i_reExps s → is_Some (i_indexers s' !! c) →
  eng_queue (E s') = eng_queue (E s) → is_Some (eng_infos (E s') !! k) → eng_hash (E s') = eng_hash (E s) → stuck c k s'.
Proof. intros [Hq Hc _ _ Hm] Hcs Hx Hr Hi He Hin Hh. split; rewrite ?Hcs, ?Hx, ?Hr, ?He, ?Hh; try done. Qed.
Lemma stuck_wb c k wb s : stuck c k s → stuck c k (set_wb wb s).
Proof. by intros []; split. Qed.
Lemma stuck_set_info c k c' k' v : keeps (stuck c k) (on_engine 0 c' (SetIndexInfo k' v)).
Proof.
  intros s r s' Hs Heq. destruct (SetIndexInfo_ok k' v (E s)) as (e' & Hset & Hinf & _ & Hh). unfold on_engine, getEngine in Heq.
  change (i_engines s (Z.land 0 c')) with (E s) in Heq. rewrite Hset in Heq. injection Heq as <- <-. pose proof Hs as [_ _ Hi Hin _].
  pose proof (SetIndexInfo_queue k' v (E s)) as Hq. rewrite Hset in Hq. cbn in Hq. apply (stuck_same c k s); rewrite ?E_with; try done. change (is_Some (eng_infos e' !! k)).
  rewrite Hinf. destruct (decide (k = k')) as [->|Hne]; [rewrite lookup_insert_eq; by eexists|by rewrite lookup_insert_ne].
Qed.
Lemma stuck_indexer {A} c k c' (f : I → outcome ierror A * I) : keeps (stuck c k) (on_indexer c' f).
Proof.
  intros s r s' Hs. unfold on_indexer. destruct (i_indexers s !! c') as [i|]; [|by intros [= <- <-]]. destruct (f i) as [r' i']. intros [= <- <-].
  pose proof Hs as [_ _ Hi Hin _]. apply (stuck_same c k s); try done. cbn. destruct (decide (c = c')) as [->|Hne]; [rewrite lookup_insert_eq; by eexists|by rewrite lookup_insert_ne].
Qed.
Lemma stuck_getIndexer c k : keeps (stuck c k) (getIndexer c).
Proof. intros s r s' Hs. pose proof Hs as [_ _ [i Hi] _ _]. rewrite (getIndexer_open c i) by done. by intros [= <- <-]. Qed.
Lemma stuck_Alloc c k c' : keeps (stuck c k) (AllocateDoc c').
Proof. intros s r s' Hs. unfold AllocateDoc. destruct (AllocateDocID _ _ _) as [d n]. intros [= <- <-]. destruct Hs. by split. Qed.
Lemma stuck_insert c k doc : keeps (stuck c k) (insert_document c doc).
Proof.
  intros s r s' Hs. unfold insert_document. destruct (on_indexer c (Insert doc) s) as [r1 s1] eqn:H3. pose proof (stuck_indexer c k c _ _ _ _ Hs H3) as Hs1.
  destruct r1 as [|[]|]; by intros [= <- <-].
Qed.
#[local] Instance stuck_kept c k : Kept (stuck c k) c.
Proof. split; [apply stuck_wb|apply stuck_Alloc|apply stuck_set_info|apply stuck_getIndexer|apply stuck_insert]. Qed.
Lemma stuck_clear c k nums : keeps (stuck c k) (clear_doc_keys 0 nums).
Proof.
  induction nums as [|n nums IH]; cbn [clear_doc_keys]; [apply keeps_ret|]. apply keeps_bind; [|by intros _].
  intros s r s' Hs Heq. destruct (KV_DeleteRange_ok (getDocIDKey (frag_start n)) (getDocIDKey (u64 (frag_start n + SliceWidth))) (E s)) as (e & He & Hinf & Hh).
  pose proof (KV_DeleteRange_queue (getDocIDKey (frag_start n)) (getDocIDKey (u64 (frag_start n + SliceWidth))) (E s)) as Hq. rewrite He in Hq. cbn in Hq.
  unfold on_engine, getEngine in Heq. change (i_engines s (Z.land 0 1)) with (E s) in Heq. rewrite He in Heq. injection Heq as <- <-. pose proof Hs as [_ _ Hi Hin _].
  apply (stuck_same c k s); try done. change (is_Some (eng_infos e !! k)). by rewrite Hinf.
Qed.
(** The key itself fails, whatever is known of it. *)
Lemma matchIndex_found (s : ist) origin name pattern : i_reExps s !! name = Some pattern → re_match pattern origin = true →
  ∃ name' pattern', matchIndex origin s = (Ok name', s) ∧ i_reExps s !! name' = Some pattern' ∧ re_match pattern' origin = true.
Proof.
  intros Hn Hm. unfold matchIndex, iget. destruct (list_find _ _) as [[j [name' pattern']]|] eqn:Hf.
  - apply list_find_Some in Hf as (Hj & Hm' & _). exists name', pattern'. split_and!; [done| |done]. apply list_elem_of_lookup_2 in Hj. rewrite name_range_perm in Hj. by apply elem_of_map_to_list in Hj.
  - apply list_find_None in Hf. rewrite Forall_forall in Hf. destruct (Hf (name, pattern)); [|done]. rewrite name_range_perm. by apply elem_of_map_to_list.
Qed.
Definition fails {A} (r : outcome ierror A) : Prop := match r with Ok _ => False | _ => True end.
Lemma bind_fails {A B} (m : im (S := S) (I := I) A) (f : A → im B) s : fails (m s).1 → fails (@mbind im im_bind A B f m s).1.
Proof. unfold mbind, im_bind. by destruct (m s) as [[a|e|] s1]. Qed.
Lemma bind_fails_2 {A B} P (m : im (S := S) (I := I) A) (f : A → im B) s : keeps P m → P s → (∀ a s1, m s = (Ok a, s1) → P s1 → fails (f a s1).1) → fails (@mbind im im_bind A B f m s).1.
Proof. intros Hk Hs Hf. unfold mbind, im_bind. destruct (m s) as [[a|e|] s1] eqn:Hm; [|done..]. eapply (Hf a s1); [done|]. by eapply Hk. Qed.
Lemma stuck_add_fails c k name def s : stuck c k s → i_indices s !! name = Some def → (∀ d, ∃ e, convertToDocument ParseFloat def d (flatten (eng_hash (E s) k)) = Err e) →
  fails (addIndexedKey ParseFloat 0 c name 0 k [] s).1.
Proof.
  intros Hs Hdef Hbad. set (P := λ s1 : ist, i_indices s1 = i_indices s ∧ eng_hash (E s1) = eng_hash (E s)).
  assert (P s) as HP by done. unfold addIndexedKey. apply (bind_fails_2 P); [|done|].
  { rewrite decide_True by done. apply keeps_bind; [apply keeps_get|]. intros [?|]; [|apply keeps_fail]. apply keeps_bind.
    - intros s1 r s2 [Hx Hh] Ha. destruct (AllocateDoc_frame _ _ _ _ Ha) as (Fe & _ & Fx & _). unfold P, E. by rewrite Fe, Fx.
    - intros a. apply keeps_bind; [by apply keeps_put|]. intros _. apply keeps_ret. }
  intros d s1 _ HP1. apply (bind_fails_2 P); [|done|].
  { intros s2 r s3 [Hx Hh] Hset. destruct (set_info c k (marshal_meta (mkMeta name d c)) s2) as (e' & Hset' & _ & _ & Hh'). rewrite Hset' in Hset. injection Hset as <- <-.
    unfold P. rewrite E_with. by split; [|rewrite Hh', Hh]. }
  intros _ s2 _ [Hx Hh]. rewrite decide_True by done. rewrite (im_bind_ok _ _ _ (flatten (eng_hash (E s) k)) s2).
  2:{ rewrite (im_bind_ok _ _ _ (Some (eng_hash (E s) k)) s2); [done|]. unfold of_engine, getEngine. change (i_engines s2 (Z.land 0 c)) with (E s2). by rewrite HGetAll_ok, Hh. }
  rewrite (im_bind_ok _ _ _ (Some def) s2) by (unfold iget; by rewrite Hx, Hdef). apply (bind_fails_2 (λ _, True)); [done|done|]. intros _ s3 _ _. apply bind_fails.
  unfold ilift. by destruct (Hbad d) as [e ->].
Qed.
Lemma stuck_key_fails c k v s : stuck c k s → fails (rebuild_key ParseFloat 0 c k v s).1.
Proof.
  intros Hs. unfold rebuild_key. apply (bind_fails_2 (stuck c k)); [|done|].
  { apply keeps_if; [apply keeps_ret|]. destruct (unmarshal_meta v); [apply (keeps_wb _ c)|apply keeps_fail]. }
  intros _ s1 _ Hs1. destruct (sk_match _ _ _ Hs1) as (origin & name & pattern & Ho & Hn & Hm & Hall). rewrite (im_bind_ok _ _ _ origin s1) by (unfold ilift; by rewrite Ho).
  destruct (matchIndex_found s1 origin name pattern Hn Hm) as (name' & pattern' & Hmi & Hn' & Hm'). rewrite (im_bind_ok _ _ _ _ _ Hmi).
  destruct (Hall _ _ Hn' Hm') as (Hne & def & Hdef & Hbad). rewrite bool_decide_eq_false_2 by done. by apply (stuck_add_fails c k name' def).
Qed.
Lemma stuck_scan_fails c k l v : (k, v) ∈ l → ∀ s, stuck c k s → fails (scan_infos l (rebuild_key ParseFloat 0 c) s).1.
Proof.
  intros Hin. induction l as [|[k0 v0] l IH]; intros s Hs; [by apply not_elem_of_nil in Hin|]. cbn [scan_infos].
  destruct (rebuild_key ParseFloat 0 c k0 v0 s) as [r s1] eqn:Hr. pose proof (keeps_rebuild_key (stuck c k) c k0 v0 _ _ _ Hs Hr) as Hs1. apply elem_of_cons in Hin as [[= <- <-]|Hin].
  - pose proof (stuck_key_fails c k v s Hs) as Hf. rewrite Hr in Hf. destruct r; [done| |done]. by destruct (scan_infos l _ s1) as [[] ?].
  - destruct r; [by apply IH| |done]. by destruct (scan_infos l _ s1) as [[] ?].
Qed.
Lemma stuck_rebuild c k s : stuck c k s → fails (indexRebuildCell ParseFloat 0 c s).1.
Proof.
  intros Hs. destruct (sk_cell _ _ _ Hs) as (cell & start & end_ & Hcell & Hr & Hge & Hlt). destruct (sk_indexer _ _ _ Hs) as [i Hi]. unfold indexRebuildCell.
  rewrite (im_bind_ok _ _ _ (Some cell) s) by (unfold getCell, iget; by rewrite Hcell). rewrite (im_bind_ok _ _ _ (start, end_) s) by (unfold ilift; by rewrite Hr).
  rewrite (im_bind_ok _ _ _ tt s) by (by apply (getIndexer_open c i)). rewrite (im_bind_ok _ _ _ (Some i) s) by (unfold iget; by rewrite Hi).
  apply (bind_fails_2 (stuck c k)); [apply stuck_clear|done|]. intros _ s1 _ Hs1. apply (bind_fails_2 (stuck c k)); [apply stuck_indexer|done|]. intros _ s2 _ Hs2.
  apply (bind_fails_2 (stuck c k)); [apply stuck_indexer|done|]. intros _ s3 _ Hs3. destruct (sk_info _ _ _ Hs3) as [v Hv]. unfold ScanIndexInfo.
  rewrite (im_bind_ok _ _ _ (IndexInfos start end_ false (E s3)) s3) by done. apply (stuck_scan_fails c k _ v); [|done]. by apply IndexInfos_all.
Qed.
Lemma stuck_rebuild_keeps c k : keeps (stuck c k) (indexRebuildCell ParseFloat 0 c).
Proof.
  unfold indexRebuildCell. apply keeps_bind; [apply keeps_get|]. intros [cell|]; [|apply keeps_ret]. apply keeps_bind; [apply keeps_lift|]. intros range.
  apply keeps_bind; [apply stuck_getIndexer|]. intros _. apply keeps_bind; [apply keeps_get|]. intros [i|]; [|apply keeps_lift]. apply keeps_bind; [apply stuck_clear|]. intros _.
  do 2 (apply keeps_bind; [apply stuck_indexer|]; intros _). apply keeps_bind; [apply keeps_of_engine|]. intros l. apply keeps_scan. intros ? ?. apply keeps_rebuild_key, _.
Qed.
(** A rebuild request at the head of the queue. *)
Lemma rebuild_first c s : head (eng_queue (E s)) = Some (marshal_request (mkIdxReq None None (Some c))) →
  handleIdxReqQueue ParseFloat 0 s =
    (@mbind im im_bind _ _ (λ _, @mbind im im_bind _ _ (λ _, @mbind im im_bind _ _ (λ _, @mbind im im_bind _ _ (λ _, @mret im im_ret _ false)
       (on_engine 0 1 (λ e, let '(r, e') := LPop getIdxReqQueueKey e in (of_result r, e')))) (sync_all [])) (write_batch 0)) (indexRebuildCell ParseFloat 0 c)) (set_wb [] s).
Proof.
  intros Hq. unfold handleIdxReqQueue. rewrite (im_bind_ok _ _ _ (Some (marshal_request (mkIdxReq None None (Some c)))) s).
  2:{ unfold of_engine, getEngine. change (i_engines s (Z.land 0 1)) with (E s). by rewrite LIndex_queue, Hq. }
  cbn [from_option id]. destruct (marshal_request (mkIdxReq None None (Some c))) as [|x reqB] eqn:Hm; [by destruct (request_nonempty (mkIdxReq None None (Some c)))|].
  rewrite (im_bind_ok _ _ _ tt (set_wb [] s)) by done. rewrite <-Hm, request_roundtrip. unfold mbind, im_bind. by destruct (indexRebuildCell _ _ _ _) as [[] ?].
Qed.
(** One hash that does not have the field types of an index blocks the requests of the
    store for good: the request to rebuild the index of its cell fails, stays at
    the head of the queue, and every tick ends with it; the requests behind it are never
    handled. *)
Theorem bad_field_blocks_queue (s : ist) c k fuel : stuck c k s → fuel ≠ O →
  ∃ r s', serve_index ParseFloat 0 fuel s = Some (r, s') ∧ fails r ∧ stuck c k s' ∧ eng_queue (E s') = eng_queue (E s).
Proof.
  intros Hs Hfuel. destruct fuel as [|fuel]; [done|]. cbn [serve_index].
  assert (∃ r s', handleIdxReqQueue ParseFloat 0 s = (r, s') ∧ fails r ∧ stuck c k s') as (r & s' & -> & Hf & Hs').
  { pose proof (stuck_wb c k [] s Hs) as Hs0. destruct (indexRebuildCell ParseFloat 0 c (set_wb [] s)) as [r0 s0] eqn:Hr. pose proof (stuck_rebuild_keeps c k _ _ _ Hs0 Hr) as Hs1.
    pose proof (stuck_rebuild c k _ Hs0) as Hf. rewrite Hr in Hf. rewrite (rebuild_first c s); [|by rewrite (sk_queue _ _ _ Hs)]. unfold mbind, im_bind. rewrite Hr.
    destruct r0 as [|e|]; [done|by exists (Err e), s0|by exists Panic, s0]. }
  destruct r as [|e|]; [done|by exists (Err e), s'; split_and!; rewrite ?(sk_queue _ _ _ Hs), ?(sk_queue _ _ _ Hs')|by exists Panic, s'; split_and!; rewrite ?(sk_queue _ _ _ Hs), ?(sk_queue _ _ _ Hs')].
Qed.
End blocked.

(** ** The queue *)
Definition queued (q : list bytes) (s : ist) : Prop := eng_queue (E s) = q.
Lemma queued_engine {A} q c (f : S → outcome ierror A * S) : (∀ e, eng_queue (f e).2 = eng_queue e) → keeps (queued q) (on_engine 0 c f).
Proof.
  intros Hf s r s' Hs. unfold on_engine, getEngine. change (i_engines s (Z.land 0 c)) with (E s). pose proof (Hf (E s)) as He. destruct (f (E s)) as [r' e']. intros [= <- <-].
  cbn in He. unfold queued. change (E _) with e'. by rewrite He.
Qed.
Lemma queued_indexer {A} q c (f : I → outcome ierror A * I) : keeps (queued q) (on_indexer c f).
Proof. intros s r s' Hs. unfold on_indexer. destruct (i_indexers s !! c) as [i|]; [|by intros [= <- <-]]. destruct (f i) as [r' i']. by intros [= <- <-]. Qed.
Lemma queued_getIndexer q c : keeps (queued q) (getIndexer c).
Proof.
  intros s r s' Hs. unfold getIndexer. destruct (i_indexers s !! c) as [i|]; [by intros [= <- <-]|]. destruct (Open _) as [[] i]; [|by intros [= <- <-]..].
  destruct (create_all _ i) as [[] i']; by intros [= <- <-].
Qed.
#[local] Instance queued_kept q c : Kept (queued q) c.
Proof.
  split; [done| |intros; apply queued_engine, SetIndexInfo_queue|apply queued_getIndexer|].
  - intros s r s' Hs. unfold AllocateDoc. destruct (AllocateDocID _ _ _). by intros [= <- <-].
  - intros doc s r s' Hs. unfold insert_document. destruct (on_indexer c (Insert doc) s) as [r1 s1] eqn:H3. pose proof (queued_indexer q c _ _ _ _ Hs H3) as Hs1.
    destruct r1 as [|[]|]; by intros [= <- <-].
Qed.
Lemma queued_clear q nums : keeps (queued q) (clear_doc_keys 0 nums).
Proof. induction nums as [|n nums IH]; cbn [clear_doc_keys]; [apply keeps_ret|]. apply keeps_bind; [apply queued_engine, KV_DeleteRange_queue|done]. Qed.
Lemma queued_scan q c start end_ b handler : (∀ k v, keeps (queued q) (handler k v)) → keeps (queued q) (ScanIndexInfo 0 c start end_ b handler).
Proof. intros Hh. apply keeps_bind; [apply keeps_of_engine|]. intros l. by apply keeps_scan. Qed.
Lemma queued_split q l r : keeps (queued q) (indexSplitCell ParseFloat 0 l r).
Proof.
  unfold indexSplitCell. do 2 (apply keeps_bind; [apply keeps_get|]; intros ?). destruct a; [|apply keeps_ret]. destruct a0; [|apply keeps_ret].
  apply keeps_bind; [apply keeps_lift|]. intros range. do 2 (apply keeps_bind; [apply queued_getIndexer|]; intros _). apply keeps_bind; [apply queued_scan|intros _; apply keeps_ret].
  intros k v. unfold split_key. apply keeps_if; [apply keeps_ret|]. destruct (unmarshal_meta v) as [m|]; [|apply keeps_fail]. destruct (decide (km_CellID m = r)); [apply keeps_ret|].
  apply keeps_if; [apply keeps_ret|]. apply keeps_bind; [apply keeps_get|]. intros [?|]; [|apply keeps_ret]. apply keeps_bind; [apply queued_indexer|]. intros _. apply keeps_add, _.
Qed.
Lemma queued_destroy q c : keeps (queued q) (indexDestroyCell 0 c).
Proof.
  unfold indexDestroyCell. apply keeps_bind; [apply keeps_get|]. intros [cell|]; [|apply keeps_ret]. apply keeps_bind; [apply keeps_lift|]. intros range.
  apply keeps_bind; [apply queued_getIndexer|]. intros _. apply keeps_bind; [apply keeps_get|]. intros [i|]; [|apply keeps_lift]. apply keeps_bind; [by apply keeps_put|]. intros _.
  apply keeps_bind; [apply queued_clear|]. intros _. apply keeps_bind; [by apply keeps_put|]. intros _. apply keeps_bind; [apply keeps_lift|]. intros _. apply queued_scan. intros k v.
  unfold destroy_key. apply keeps_if; [apply keeps_ret|]. destruct (unmarshal_meta v); [apply (keeps_wb _ c)|apply keeps_fail].
Qed.
Lemma queued_rebuild q c : keeps (queued q) (indexRebuildCell ParseFloat 0 c).
Proof.
  unfold indexRebuildCell. apply keeps_bind; [apply keeps_get|]. intros [cell|]; [|apply keeps_ret]. apply keeps_bind; [apply keeps_lift|]. intros range.
  apply keeps_bind; [apply queued_getIndexer|]. intros _. apply keeps_bind; [apply keeps_get|]. intros [i|]; [|apply keeps_lift]. apply keeps_bind; [apply queued_clear|]. intros _.
  do 2 (apply keeps_bind; [apply queued_indexer|]; intros _). apply queued_scan. intros ? ?. apply keeps_rebuild_key, _.
Qed.
Lemma queued_sync q cells : keeps (queued q) (sync_all cells).
Proof. induction cells as [|c cells IH]; cbn [sync_all]; [apply keeps_ret|]. apply keeps_bind; [apply queued_indexer|done]. Qed.
(** A request is handled: it fails and stays, or it is taken from the queue. *)
Inductive handled (s : ist) : outcome ierror bool * ist → Prop :=
  | handled_empty : default [] (head (eng_queue (E s))) = [] → handled s (Ok true, s)
  | handled_request s' req rest : eng_queue (E s) = req :: rest → eng_queue (E s') = rest → handled s (Ok false, s')
  | handled_failed r s' : fails r → eng_queue (E s') = eng_queue (E s) → handled s (r, s').
Lemma handled_bind {A} (s0 s : ist) (m : im A) (f : A → im bool) : keeps (queued (eng_queue (E s0))) m → queued (eng_queue (E s0)) s →
  (∀ a s1, queued (eng_queue (E s0)) s1 → handled s0 (f a s1)) → handled s0 (@mbind im im_bind _ _ f m s).
Proof. intros Hm Hs Hf. unfold mbind, im_bind. destruct (m s) as [[a|e|] s1] eqn:Heq; [apply Hf; by eapply Hm|by constructor 3; [|eapply Hm]..]. Qed.
Lemma pop_ok (s : ist) : ∃ r s', on_engine 0 1 (λ e, let '(r, e') := LPop getIdxReqQueueKey e in (of_result r, e')) s = (Ok r, s') ∧ eng_queue (E s') = tail (eng_queue (E s)) ∧
  eng_infos (E s') = eng_infos (E s) ∧ eng_docs (E s') = eng_docs (E s) ∧ i_indexers s' = i_indexers s.
Proof.
  destruct (LPop_queue (E s)) as (r & e' & Hp & Hq & Hi & Hd & Hh). exists r, (with_engine e' s). rewrite E_with. split; [|done]. unfold on_engine, getEngine.
  change (i_engines s (Z.land 0 1)) with (E s). by rewrite Hp.
Qed.
Lemma handle_request (s : ist) : handled s (handleIdxReqQueue ParseFloat 0 s).
Proof.
  unfold handleIdxReqQueue. rewrite (im_bind_ok _ _ _ (head (eng_queue (E s))) s).
  2:{ unfold of_engine, getEngine. change (i_engines s (Z.land 0 1)) with (E s). by rewrite LIndex_queue. }
  destruct (default [] (head (eng_queue (E s)))) as [|x reqB] eqn:Hreq; [by constructor|].
  rewrite (im_bind_ok _ _ _ tt (set_wb [] s)) by done. destruct (unmarshal_request (x :: reqB)) as [r|]; [|by constructor 3].
  apply handled_bind; [|done|].
  { destruct r as [[[cl cr]|] [c|] [c'|]]; first [apply keeps_fail|apply queued_split|apply keeps_bind; [first [apply queued_destroy|apply queued_rebuild]|intros _; apply keeps_ret]]. }
  intros dirty s1 Hs1. apply handled_bind; [|done|]. { intros s2 r2 s3 Hs2 Hw. eapply (queued_engine _ 1 (KV_Write (i_wb s2))); [apply KV_Write_queue|exact Hs2|exact Hw]. }
  intros _ s2 Hs2. apply handled_bind; [apply queued_sync|done|]. intros _ s3 Hs3. destruct (pop_ok s3) as (o & s4 & Hpop & Hq & _). rewrite (im_bind_ok _ _ _ _ _ Hpop).
  destruct (eng_queue (E s)) as [|req rest] eqn:He; [discriminate Hreq|]. by apply (handled_request s s4 req rest); [|rewrite Hq, Hs3].
Qed.
(** A tick of the loop that serves the index ends: with one more round than there are
    requests, it has handled requests from the front of the queue until one of them failed or none
    was left. *)
Theorem serve_index_ends (s : ist) :
  ∃ r s', serve_index ParseFloat 0 (Datatypes.S (length (eng_queue (E s)))) s = Some (r, s') ∧
    suffix (eng_queue (E s')) (eng_queue (E s)) ∧ (r = Ok tt → default [] (head (eng_queue (E s'))) = []).
Proof.
  remember (eng_queue (E s)) as q eqn:Hq. revert s Hq. induction q as [|req q IH]; intros s Hq; cbn [serve_index length]; destruct (handle_request s) as [Hr|s1 req1 rest Hr Hr1|r s1 Hf Hr].
  - by exists (Ok tt), s; rewrite <-Hq.
  - by rewrite Hr in Hq.
  - destruct r as [|e|]; [done|exists (Err e), s1|exists Panic, s1]; by rewrite Hr, <-Hq.
  - exists (Ok tt), s. by rewrite <-Hq in *.
  - rewrite Hr in Hq. injection Hq as <- <-. destruct (IH s1 (eq_sym Hr1)) as (r & s' & Hs & Hsuf & Hok). exists r, s'. split_and!; [done|by apply suffix_cons_r|done].
  - destruct r as [|e|]; [done|exists (Err e), s1|exists Panic, s1]; by rewrite Hr, <-Hq.
Qed.

(** ** The request of a split *)
(** The same keys and documents. *)
Record same_index (s s' : ist) : Prop := {
  sm_infos : eng_infos (E s') = eng_infos (E s);
  sm_docs : eng_docs (E s') = eng_docs (E s);
  sm_documents c name : documents s' c name = documents s c name;
}.
Lemma same_index_trans s s' s'' : same_index s s' → same_index s' s'' → same_index s s''.
Proof. intros [A1 A2 A3] [B1 B2 B3]. split; [congruence|congruence|]. intros c name. by rewrite B3. Qed.
Lemma split_done_same s s1 s' L R start end_ : split_done s s1 L R start end_ → same_index s1 s' → split_done s s' L R start end_.
Proof.
  intros [[Ov Oi Od] Hm Hk] [Si Sd Sx]. assert (∀ k, info s' k = info s1 k) as Hinf by (intros k; unfold info; by rewrite Si).
  assert (∀ d, key_of s' d = key_of s1 d) as Hkey by (intros d; unfold key_of; by rewrite Sd). split.
  - split; [by rewrite Si|intros k m; rewrite Hinf, Hkey, Sx; apply Oi|]. intros c name d. rewrite Sx. setoid_rewrite Hinf. apply Od.
  - intros k m. unfold doc_at. rewrite Hinf, !Sx. apply Hm.
  - intros k m. unfold doc_at. rewrite Hinf, !Sx. apply Hk.
Qed.
Lemma write_nothing (s : ist) : i_wb s = [] → ∃ s', write_batch 0 s = (Ok tt, s') ∧ same_index s s' ∧ i_indexers s' = i_indexers s.
Proof.
  intros Hw. destruct (write_batch_ok s) as (e' & Heq & Hd & Hi & _). rewrite Hw in Hd. eexists. split; [exact Heq|]. split; [|done]. split; rewrite ?E_with; done.
Qed.
Lemma sync_one (s : ist) c : is_Some (i_indexers s !! c) → ∃ s', sync_all [c] s = (Ok tt, s') ∧ same_index s s'.
Proof.
  intros [i Hi]. destruct (Sync_ok i) as (i' & Hs & Hc). exists (set_indexers (<[c := i']> (i_indexers s)) s). split.
  - cbn [sync_all]. by rewrite (im_bind_ok _ _ _ tt _ (on_indexer_ok c i Sync (Ok tt) i' s Hi Hs)).
  - split; [done|done|]. intros c1 name. unfold documents. cbn. destruct (decide (c1 = c)) as [->|Hne]; [by rewrite lookup_insert_eq, Hi, Hc|by rewrite lookup_insert_ne].
Qed.

End props.

(** ** A store with maps *)
#[local] Instance meta_countable : Countable KeyMetaVal.
Proof. refine (inj_countable' (λ m, (km_IdxName m, km_DocID m, km_CellID m)) (λ '(n, d, c), mkMeta n d c) _). by intros []. Defined.
#[local] Instance request_eq : EqDecision IndexRequest.
Proof. solve_decision. Defined.
#[local] Instance request_countable : Countable IndexRequest.
Proof. refine (inj_countable' (λ r, (ir_Split r, ir_Destroy r, ir_Rebuild r)) (λ '(s, d, r), mkIdxReq s d r) _). by intros []. Defined.
#[local] Instance bits_proto : IndexProto.
Proof.
  refine {| marshal_meta m := x08 :: pos_bytes (encode m); unmarshal_meta b := decode (bytes_pos (tail b));
            marshal_request r := x08 :: pos_bytes (encode r); unmarshal_request b := decode (bytes_pos (tail b)) |}; try done.
  - intros m. cbn [tail]. rewrite bytes_pos_bytes. apply decode_encode.
  - intros r. cbn [tail]. rewrite bytes_pos_bytes. apply decode_encode.
Defined.
(** A pattern matches the keys it is a prefix of. *)
#[local] Instance prefix_regexp : Regexp := {| re_compiles _ := true; re_match p k := bool_decide (take (length p) k = p) |}.
#[local] Instance name_order : NameOrder := {| name_range V := map_to_list; name_range_perm V m := reflexivity _ |}.
Abbreviation mindexer := (gmap bytes (DocumentWithIdx * gmap Z Document)).
#[local] Instance map_indexer : Indexer mindexer := {|
  CreateIndex d i := (Ok tt, match i !! dw_Index d with
                             | Some (sch, _) => if same_schema sch d then i else <[dw_Index d := (d, ∅)]> i
                             | None => <[dw_Index d := (d, ∅)]> i
                             end);
  DestroyIndex n i := (Ok tt, delete n i);
  Insert d i := match i !! dw_Index d with
                | Some (sch, docs) => (Ok tt, <[dw_Index d := (sch, <[doc_ID (dw_Doc d) := dw_Doc d]> docs)]> i)
                | None => (Err ErrIdxNotExist, i)
                end;
  Del n d i := match i !! n with Some (sch, docs) => (Ok (bool_decide (is_Some (docs !! d))), <[n := (sch, delete d docs)]> i) | None => (Err ErrIdxNotExist, i) end;
  Destroy i := (Ok tt, ∅); Open i := (Ok tt, i); Sync i := (Ok tt, i);
  DocIDFragList i := [] |}.
#[local] Instance map_indexer_laws : IndexerLaws mindexer.
Proof.
  refine {| contents i := i |}.
  - intros d i sch docs Hi _ _. cbn. rewrite Hi. by eexists.
  - intros d i Hi. cbn. by rewrite Hi.
  - intros n d i sch docs Hi. cbn. rewrite Hi. by eexists _, _.
  - intros d i. by eexists.
  - intros i. by eexists.
  - intros i. by eexists.
  - intros i. by eexists.
Defined.
Record mengine := mkEngine { me_infos : gmap bytes bytes; me_docs : gmap bytes bytes; me_hash : bytes → list FVPair; me_queue : list bytes }.
Definition in_range (s t : bytes) (skip : bool) (kv : bytes * bytes) : Prop := ble s kv.1 ∧ blt kv.1 t ∧ (skip = true → kv.2 ≠ []).
#[local] Instance in_range_dec s t skip kv : Decision (in_range s t skip kv).
Proof. unfold in_range. apply _. Defined.
#[local] Instance map_engine : IndexEngine mengine := {|
  GetIndexInfo k e := match me_infos e !! k with Some v => Ok v | None => Err ErrEngine end;
  SetIndexInfo k v e := (Ok tt, mkEngine (<[k := v]> (me_infos e)) (me_docs e) (me_hash e) (me_queue e));
  IndexInfos s t skip e := filter (in_range s t skip) (map_to_list (me_infos e));
  KV_Write wb e := (Ok tt, mkEngine (me_infos e) (foldl map_op (me_docs e) wb) (me_hash e) (me_queue e));
  KV_DeleteRange s t e := (Ok tt, mkEngine (me_infos e) (filter (λ kv, ¬ (ble s kv.1 ∧ blt kv.1 t)) (me_docs e)) (me_hash e) (me_queue e)) |}.
#[local] Instance map_hashes : HashEngine mengine := {|
  HSet _ _ _ e := (inr 0, e); HGet _ _ _ := inr None; HDel _ _ e := (inr 0, e); HExists _ _ _ := inr false; HKeys _ _ := inr None; HVals _ _ := inr None;
  HGetAll k e := inr (Some (me_hash e k)); HScanGet _ _ _ _ := inr None; HLen _ _ := inr 0; HMGet _ _ _ := (None, []); HMSet _ _ _ e := (inr tt, e);
  HSetNX _ _ _ e := (inr 0, e); HStrLen _ _ _ := inr 0; HIncrBy _ _ _ e := (inr [x30], e); HMGet_length _ _ _ _ := ltac:(done) |}.
#[local] Instance map_lists : ListEngine mengine := {|
  LIndex _ _ e := inr (head (me_queue e)); LInsert _ _ _ _ e := (inr 0, e); LLen _ e := inr (Z.of_nat (length (me_queue e)));
  LPop _ e := (inr (head (me_queue e)), mkEngine (me_infos e) (me_docs e) (me_hash e) (tail (me_queue e)));
  LPush _ _ e := (inr 0, e); LPushX _ _ e := (inr 0, e); LRange _ _ _ e := inr (Some (me_queue e)); LRem _ _ _ e := (inr 0, e); LSet _ _ _ e := (inr tt, e); LTrim _ _ _ e := (inr tt, e);
  RPop _ e := (inr None, e); RPush _ vs e := (inr (Z.of_nat (length (me_queue e ++ vs))), mkEngine (me_infos e) (me_docs e) (me_hash e) (me_queue e ++ vs)); RPushX _ _ e := (inr 0, e) |}.
#[local] Instance map_engine_laws : IndexEngineLaws mengine.
Proof.
  refine {| eng_infos := me_infos; eng_docs := me_docs; eng_hash := me_hash |}.
  - intros k v e Hk. cbn. by rewrite Hk.
  - intros k e Hk. right. cbn. rewrite Hk. by eexists.
  - intros k v e. by eexists.
  - intros wb e. by eexists.
  - intros s t e k v. cbn. rewrite list_elem_of_filter, elem_of_map_to_list. unfold in_range. cbn. naive_solver.
  - intros s t b e. cbn. apply (sublist_NoDup _ (map_to_list (me_infos e)).*1); [apply NoDup_fst_map_to_list|]. apply fmap_sublist, sublist_filter.
  - intros s t e k v. cbn. rewrite list_elem_of_filter, elem_of_map_to_list. unfold in_range. cbn. naive_solver.
  - intros s t e. by eexists.
  - done.
Defined.
#[local] Instance map_queue_laws : IndexQueueLaws mengine.
Proof.
  refine {| eng_queue := me_queue |}; try done.
  - intros e. by eexists _, _.
  - intros r e. by eexists _, _.
Defined.

(** *** Two cells *)
(** Cell 1 has the keys below m, cell 2 those from m on; the index a has the number f of the hashes
    whose key begins with u. *)
Definition idx_def : IndexDef := mkIndexDef [x61] [x75] [mkField [x66] FUint32].
Definition idx_schema : DocumentWithIdx := mkDocIdx (mkDocument 0 [mkUint [x66] 0 4 false] []) [x61].
Definition idx_doc (d : Z) : Document := mkDocument d [mkUint [x66] 7 4 false] [].
Definition idx_key : bytes := getDataKey [x75; x31].
Definition idx_cells : gmap Z Cell :=
  {[ 1 := mkCell 1 [] [x6d] (mkCellEpoch 1 1) [mkPeer 11 1]; 2 := mkCell 2 [x6d] [] (mkCellEpoch 1 1) [mkPeer 12 1] ]}.
Definition idx_store (infos docs : gmap bytes bytes) (field : bytes) (queue : list bytes) (indexers : gmap Z mindexer) : istore mengine mindexer :=
  mkIstore (λ _, mkEngine infos docs (λ _, [mkFVPair [x66] field]) queue) indexers {[ [x61] := idx_def ]} {[ [x61] := [x75] ]} ∅ idx_cells ∅ [Some 5] [] None (λ _, ∅).
Definition idx_indexer (docs : gmap Z Document) : mindexer := {[ [x61] := (idx_schema, docs) ]}.
Definition no_floats (_ : Z) (_ : bytes) : Z * option numError := (0, None).
Definition fresh_store : istore mengine mindexer := idx_store ∅ ∅ [x37] [] {[ 1 := idx_indexer ∅; 2 := idx_indexer ∅ ]}.
Definition indexed_store : istore mengine mindexer :=
  idx_store {[ idx_key := marshal_meta (mkMeta [x61] 9 1) ]} {[ getDocIDKey 9 := idx_key ]} [x37] [] {[ 1 := idx_indexer {[ 9 := idx_doc 9 ]}; 2 := idx_indexer ∅ ]}.
(** The hash of the key has a number that is none. *)
Definition rebuild_of (c : Z) : bytes := marshal_request (mkIdxReq None None (Some c)).
Definition blocked_store : istore mengine mindexer :=
  idx_store {[ idx_key := [] ]} ∅ [x78] [rebuild_of 2; rebuild_of 1] {[ 1 := idx_indexer ∅; 2 := idx_indexer ∅ ]}.
Lemma idx_documents (s : istore mengine mindexer) docs c name d :
  i_indexers s = {[ 1 := idx_indexer docs; 2 := idx_indexer ∅ ]} → is_Some (documents s c name !! d) → c = 1 ∧ name = [x61] ∧ is_Some (docs !! d).
Proof.
  intros Hs. unfold documents. rewrite Hs. destruct (decide (c = 1)) as [->|H1]; [|destruct (decide (c = 2)) as [->|H2]].
  - rewrite lookup_insert_eq. unfold idx_indexer. cbn. destruct (decide (name = [x61])) as [->|Hn]; [by rewrite lookup_singleton_eq|].
    rewrite lookup_singleton_ne, lookup_empty by done. by intros [? ?].
  - rewrite lookup_insert_ne by done. rewrite lookup_singleton_eq. unfold idx_indexer. cbn. destruct (decide (name = [x61])) as [->|Hn]; [rewrite lookup_singleton_eq|rewrite lookup_singleton_ne by done]; rewrite lookup_empty; by intros [? ?].
  - rewrite lookup_insert_ne, lookup_singleton_ne, lookup_empty by done. by intros [? ?].
Qed.
Lemma fresh_info k : eng_infos (E fresh_store) !! k = None.
Proof. apply lookup_empty. Qed.
Lemma fresh_ok : index_ok fresh_store.
Proof.
  split.
  - intros k v. by rewrite fresh_info.
  - intros k m. unfold info. by rewrite fresh_info.
  - intros c name d Hd. apply (idx_documents _ ∅) in Hd as (_ & _ & Hd); [|done]. rewrite lookup_empty in Hd. by destruct Hd.
Qed.
Lemma indexed_info k m : info indexed_store k = Some m ↔ k = idx_key ∧ m = mkMeta [x61] 9 1.
Proof.
  unfold info. destruct (decide (k = idx_key)) as [->|Hne].
  - change (eng_infos (E indexed_store)) with ({[ idx_key := marshal_meta (mkMeta [x61] 9 1) ]} : gmap bytes bytes). rewrite lookup_singleton_eq. cbn [mbind option_bind].
    rewrite meta_of_marshal. naive_solver.
  - change (eng_infos (E indexed_store)) with ({[ idx_key := marshal_meta (mkMeta [x61] 9 1) ]} : gmap bytes bytes). rewrite lookup_singleton_ne by done. naive_solver.
Qed.
Lemma indexed_ok : index_ok indexed_store.
Proof.
  split.
  - intros k v. change (eng_infos (E indexed_store)) with ({[ idx_key := marshal_meta (mkMeta [x61] 9 1) ]} : gmap bytes bytes). intros [_ <-]%lookup_singleton_Some. right. by eexists.
  - intros k m [-> ->]%indexed_info. split_and!; [by vm_compute; eexists|by vm_compute|done|done].
  - intros c name d Hd. apply (idx_documents _ {[ 9 := idx_doc 9 ]}) in Hd as (-> & -> & [x [<- _]%lookup_singleton_Some]); [|done]. exists idx_key. by apply indexed_info.
Qed.

Lemma index_follows_key_witness : ∃ s', handleIdxKeyReq no_floats 0 (mkKeyReq 1 [x61] [idx_key; [x66]; [x37]] false) fresh_store = (Ok tt, s') ∧ index_ok s' ∧
  info s' idx_key = Some (mkMeta [x61] 5242880 1) ∧ documents s' 1 [x61] !! 5242880 = Some (idx_doc 5242880) ∧ others_kept fresh_store s' idx_key.
Proof.
  eapply (index_follows_key no_floats fresh_store 1 [x61] idx_key [[x66]; [x37]] 5242880 _ idx_def (mkDocIdx (idx_doc 5242880) [x61]) (idx_indexer ∅) idx_schema ∅);
    [apply fresh_ok|reflexivity|reflexivity|done| |].
  - intros k m. unfold info. by rewrite fresh_info.
  - split; try reflexivity. split; intros p; cbn; [intros [->|[]%not_elem_of_nil]%elem_of_cons; by left|by intros ?%not_elem_of_nil].
Defined.
Lemma idx_in_right : ble (getDataKey [x6d]) idx_key ∧ blt idx_key dataMaxKey.
Proof. by split; vm_compute. Qed.
Definition split_store : istore mengine mindexer :=
  idx_store {[ idx_key := marshal_meta (mkMeta [x61] 9 1) ]} {[ getDocIDKey 9 := idx_key ]} [x37] [marshal_request (mkIdxReq (Some (1, 2)) None None)]
    {[ 1 := idx_indexer {[ 9 := idx_doc 9 ]}; 2 := idx_indexer ∅ ]}.
Lemma split_ok : index_ok split_store.
Proof. destruct indexed_ok as [Hv Hi Hd]. split; [exact Hv|exact Hi|exact Hd]. Qed.
Lemma rebuild_empties_index_witness : documents (indexRebuildCell no_floats 0 1 indexed_store).2 1 [x61] = ∅.
Proof.
  eapply (rebuild_empties_index no_floats indexed_store _ 1 (mkCell 1 [] [x6d] (mkCellEpoch 1 1) [mkPeer 11 1]) (getDataKey []) (getDataKey [x6d]) (idx_indexer {[ 9 := idx_doc 9 ]}));
    [reflexivity..|]. apply surjective_pairing.
Defined.
Lemma bad_field_blocks_queue_witness : ∃ r s', serve_index no_floats 0 5 blocked_store = Some (r, s') ∧ fails r ∧ stuck no_floats [rebuild_of 1] 2 idx_key s' ∧
  eng_queue (E s') = eng_queue (E blocked_store).
Proof.
  apply (bad_field_blocks_queue no_floats [rebuild_of 1] blocked_store 2 idx_key 5); [|done]. split.
  - reflexivity.
  - exists (mkCell 2 [x6d] [] (mkCellEpoch 1 1) [mkPeer 12 1]), (getDataKey [x6d]), dataMaxKey. by split_and!; vm_compute.
  - by exists (idx_indexer ∅).
  - by exists [].
  - exists [x75; x31], [x61], [x75]. split_and!; [done|done|done|]. intros name pattern. change (i_reExps blocked_store) with ({[ [x61] := [x75] ]} : gmap bytes bytes). intros [<- <-]%lookup_singleton_Some _. split; [done|]. exists idx_def. split; [done|]. intros d. by eexists.
Defined.
Lemma serve_index_ends_witness : ∃ r s', serve_index no_floats 0 3 blocked_store = Some (r, s') ∧ suffix (eng_queue (E s')) (eng_queue (E blocked_store)) ∧ (r = Ok tt → default [] (head (eng_queue (E s'))) = []).
Proof. exact (serve_index_ends no_floats blocked_store). Defined.
