(* ===== verification/PDIndex.v ===== *)
(** * The index definitions of PD (pkg/pdserver/store_index.go)

    PD keeps the definitions of indexes in etcd, one key per name, and sends all of them with every answer
    to a store's heartbeat; a store makes a map of them (Index).  Definitions are kept decoded. *)

From stdpp Require Import sorting.
From S2P Require Import Prelude IdAlloc Index.

Inductive pdidx_error := ErrRead | ErrWrite | errTxnFailed | ErrKvsSize.
(** "/pd/indices" *)
Definition pdIndicesRootPath : bytes := [x2f; x70; x64; x2f; x69; x6e; x64; x69; x63; x65; x73].
Definition getIndicesKey : bytes := pdIndicesRootPath.
Definition getIndexKey (id : bytes) : bytes := pdIndicesRootPath ++ x2f :: id.

(** The part of etcd below the root path; a range is returned in the order of the keys. *)
Abbreviation indices := (gmap bytes IndexDef).
Definition kv_le (a b : bytes * IndexDef) : Prop := ble a.1 b.1.
#[export] Instance kv_le_dec (a b : bytes * IndexDef) : Decision (kv_le a b).
Proof. unfold kv_le. apply _. Defined.
Definition get_prefix (p : bytes) (m : indices) : list (bytes * IndexDef) := merge_sort kv_le (filter (λ kv, take (length p) kv.1 = p) (map_to_list m)).

Definition ListIndex (n : net) (m : indices) : outcome pdidx_error (list IndexDef) :=
  match n with NetOk => Ok (snd <$> get_prefix getIndicesKey m) | _ => Err ErrRead end.
Definition GetIndex (n : net) (id : bytes) (m : indices) : outcome pdidx_error IndexDef :=
  match n with NetOk => match m !! getIndexKey id with Some d => Ok d | None => Err ErrKvsSize end | _ => Err ErrRead end.
(** [create]: only if the key is not there. *)
Definition CreateIndex (n : net) (idxDef : IndexDef) (m : indices) : outcome pdidx_error unit * indices :=
  let key := getIndexKey (ix_Name idxDef) in
  let '(r, m') := match m !! key with None => (Ok tt, <[key := idxDef]> m) | Some _ => (Err errTxnFailed, m) end in
  match n with NetOk => (r, m') | NetLost => (Err ErrWrite, m) | NetReplyLost => (Err ErrWrite, m') end.
(** Deleting what is not there succeeds. *)
Definition DeleteIndex (n : net) (id : bytes) (m : indices) : outcome pdidx_error unit * indices :=
  let m' := delete (getIndexKey id) m in
  match n with NetOk => (Ok tt, m') | NetLost => (Err ErrWrite, m) | NetReplyLost => (Err ErrWrite, m') end.

(** ** The definitions as a map from names *)
Inductive index_op := OCreate (n : net) (d : IndexDef) | ODelete (n : net) (id : bytes).
Definition run_op (m : indices) (o : index_op) : indices := match o with OCreate n d => (CreateIndex n d m).2 | ODelete n id => (DeleteIndex n id m).2 end.
(** What the operations mean: a request that is lost has no effect. *)
Definition spec_op (s : indices) (o : index_op) : indices :=
  match o with
  | OCreate NetLost _ | ODelete NetLost _ => s
  | OCreate _ d => match s !! ix_Name d with None => <[ix_Name d := d]> s | Some _ => s end
  | ODelete _ id => delete id s
  end.
#[export] Instance getIndexKey_inj : Inj (=) (=) getIndexKey.
Proof. intros a b H. unfold getIndexKey in H. by apply (inj (app _)) in H as [= ->]. Qed.
(** Every key is that of the name of its definition. *)
Record stands_for (m s : indices) : Prop := {
  sf_lookup id : m !! getIndexKey id = s !! id;
  sf_keys k d : m !! k = Some d → k = getIndexKey (ix_Name d);
}.
Lemma stands_for_insert m s d : stands_for m s → stands_for (<[getIndexKey (ix_Name d) := d]> m) (<[ix_Name d := d]> s).
Proof.
  intros [H1 H2]. split.
  - intros id. destruct (decide (id = ix_Name d)) as [->|Hne]; [by rewrite !lookup_insert_eq|]. rewrite !lookup_insert_ne; [apply H1|done|]. by intros ?%(inj getIndexKey).
  - intros k d'. rewrite lookup_insert_Some. intros [[<- <-]|[_ Hk]]; [done|by apply H2].
Qed.
Lemma stands_for_delete m s id : stands_for m s → stands_for (delete (getIndexKey id) m) (delete id s).
Proof.
  intros [H1 H2]. split.
  - intros id'. destruct (decide (id' = id)) as [->|Hne]; [by rewrite !lookup_delete_eq|]. rewrite !lookup_delete_ne; [apply H1|done|]. by intros ?%(inj getIndexKey).
  - intros k d' [_ Hk]%lookup_delete_Some. by apply H2.
Qed.
Lemma run_op_spec m s o : stands_for m s → stands_for (run_op m o) (spec_op s o).
Proof.
  intros Hs. pose proof (sf_lookup _ _ Hs) as Hl. destruct o as [n d|n id]; cbn [run_op spec_op].
  - unfold CreateIndex. rewrite Hl. destruct (s !! ix_Name d), n; cbn [snd]; try done; by apply stands_for_insert.
  - unfold DeleteIndex. destruct n; cbn [snd]; try done; by apply stands_for_delete.
Qed.
Lemma run_ops_spec os m s : stands_for m s → stands_for (foldl run_op m os) (foldl spec_op s os).
Proof. revert m s. induction os as [|o os IH]; intros m s Hs; [done|]. by apply IH, run_op_spec. Qed.
Lemma by_name_lookup (l : list IndexDef) (m : indices) (name : bytes) : NoDup (ix_Name <$> l) →
  (foldl (λ m d, <[ix_Name d := d]> m) m l : indices) !! name = match list_find (λ d, ix_Name d = name) l with Some (_, d) => Some d | None => m !! name end.
Proof.
  revert m. induction l as [|d l IH]; intros m; [done|]. rewrite fmap_cons, NoDup_cons. intros [Hn Hnd]. cbn [foldl list_find]. rewrite IH by done. case_decide as Hd.
  - subst name. destruct (list_find (λ d', ix_Name d' = ix_Name d) l) as [[i d']|] eqn:Hf; [|by rewrite lookup_insert_eq]. apply list_find_Some in Hf as (Hi & Heq & _). destruct Hn. rewrite <-Heq. by apply list_elem_of_fmap_2, list_elem_of_lookup_2 with i.
  - cbn [fmap option_fmap option_map]. destruct (list_find (λ d', ix_Name d' = name) l) as [[i d']|]; cbn; [done|by rewrite lookup_insert_ne].
Qed.
(** What [ListIndex] returns, by name. *)
Lemma ListIndex_elem m s d l : stands_for m s → ListIndex NetOk m = Ok l → (d ∈ l ↔ s !! ix_Name d = Some d) ∧ NoDup (ix_Name <$> l).
Proof.
  intros Hs [= <-]. assert (∀ k d, m !! k = Some d → take (length getIndicesKey) k = getIndicesKey) as Hpre.
  { intros k d' ->%(sf_keys _ _ Hs). unfold getIndexKey, getIndicesKey. by rewrite take_app_length. }
  assert (get_prefix getIndicesKey m ≡ₚ map_to_list m) as Hp.
  { unfold get_prefix. rewrite merge_sort_Permutation. assert (filter (λ kv, take (length getIndicesKey) kv.1 = getIndicesKey) (map_to_list m) = map_to_list m) as ->; [|done].
    assert (∀ kv, kv ∈ map_to_list m → take (length getIndicesKey) kv.1 = getIndicesKey) as Hall by (intros [k d'] Hin%elem_of_map_to_list; by eapply Hpre).
    induction (map_to_list m) as [|kv r IH]; [done|]. rewrite filter_cons, decide_True by (apply Hall; left). f_equal. apply IH. intros kv' Hin. apply Hall. by right. }
  split.
  - rewrite Hp, list_elem_of_fmap. split.
    + intros ([k d'] & -> & Hin%elem_of_map_to_list). cbn [snd]. rewrite <-(sf_lookup _ _ Hs). by rewrite <-(sf_keys _ _ Hs _ _ Hin).
    + intros Hd. exists (getIndexKey (ix_Name d), d). split; [done|]. apply elem_of_map_to_list. by rewrite (sf_lookup _ _ Hs).
  - rewrite <-list_fmap_compose. rewrite Hp. apply (NoDup_fmap_1 getIndexKey). rewrite <-list_fmap_compose.
    replace ((getIndexKey ∘ (ix_Name ∘ snd)) <$> map_to_list m) with ((map_to_list m).*1); [apply NoDup_fst_map_to_list|]. apply list_fmap_ext. intros i [k d'] Hi. cbn. apply (sf_keys _ _ Hs). apply elem_of_map_to_list. by eapply list_elem_of_lookup_2.
Qed.
(** After any sequence of creations and deletions, with whatever answers lost, the stores learn from a heartbeat
    exactly the definitions that were created first under their names and not deleted since; reading one gives the same. *)
Theorem stores_learn_index_definitions (os : list index_op) : let m := foldl run_op ∅ os in let s := foldl spec_op ∅ os in
  (∃ l, ListIndex NetOk m = Ok l ∧ by_name l = s) ∧ (∀ id, GetIndex NetOk id m = match s !! id with Some d => Ok d | None => Err ErrKvsSize end) ∧ ∀ id d, s !! id = Some d → ix_Name d = id.
Proof.
  cbn zeta. pose proof (run_ops_spec os ∅ ∅) as Hs. destruct Hs as [Hl Hk]; [by split|]. pose proof (Build_stands_for _ _ Hl Hk) as Hs. set (m := foldl run_op ∅ os) in *. set (s := foldl spec_op ∅ os) in *.
  assert (∀ id d, s !! id = Some d → ix_Name d = id) as Hname by (intros id d Hd; rewrite <-Hl in Hd; by apply Hk, (inj getIndexKey) in Hd). split_and!; [|intros id; unfold GetIndex; by rewrite Hl|done].
  eexists. split; [done|]. apply map_eq. intros name. unfold by_name. destruct (ListIndex_elem m s (mkIndexDef name [] []) _ Hs eq_refl) as [_ Hnd]. rewrite by_name_lookup by done.
  destruct (list_find _ _) as [[i d]|] eqn:Hf.
  - apply list_find_Some in Hf as (Hi & <- & _). apply list_elem_of_lookup_2 in Hi. symmetry. by apply (ListIndex_elem m s d _ Hs eq_refl).
  - rewrite lookup_empty. destruct (s !! name) as [d|] eqn:Hd; [|done]. apply list_find_None in Hf. rewrite Forall_forall in Hf. destruct (Hf d); [|by apply Hname]. apply (ListIndex_elem m s d _ Hs eq_refl). by rewrite (Hname _ _ Hd).
Qed.
