(* ===== verification/PDApi.v ===== *)
(** * The HTTP API of PD (pkg/pdapi, pkg/pdserver/api_handler.go)

    What operators see of a cluster and change in it: the service that a PD server offers, the handlers that answer
    requests with it, the routes of the handlers, and the redirector that sends a request to the leader.  Reading
    JSON is a class, compiling patterns that of Index; a result is kept unrendered.  A panic of a handler is
    recovered by negroni, which answers with status 500. *)

From stdpp Require Import sorting.
From S2P Require Import Prelude Election Meta BTree CellTree Strconv IdAlloc IdSource StoreCache CellCache Operators Scheduling MetaStore Cluster Bootstrap Index PDIndex.

(** ** Data *)
Record apiStore := mkApiStore { as_Meta : Store; as_Stats : StoreStats; as_LeaderCount : Z; as_LastHeartbeatTS : Z }.
Record apiCell := mkApiCell { ac_Meta : Cell; ac_LeaderPeer : option Peer; ac_DownPeers : list PeerStats; ac_PendingPeers : list Peer }.
Record System := mkSystemInfo {
  sy_AlreadyBootstrapped : bool;
  sy_InitParams : option InitParams;
  sy_MaxReplicas : Z;
  sy_StoreCount : Z;
  sy_OfflineStoreCount : Z;
  sy_TombStoneStoreCount : Z;
  sy_CellCount : Z;
  sy_ReplicasNotFullCellCount : Z;
  sy_StorageCapacity : Z;
  sy_StorageAvailable : Z;
  sy_OperatorCount : Z;
}.
Record apiSetLogLevel := mkApiSetLogLevel { sl_Targets : list Z; sl_Level : Z }.
Record apiTransferLeader := mkApiTransferLeader { tl_CellID : Z; tl_ToPeerID : Z }.
Inductive api_error :=
  | EParse (e : numError) | EJson | ERegexp | EPd (e : pd_error) | EInit (e : init_error) | EParams | EIndex (e : pdidx_error).
(** [VNull] is a missing value. *)
Inductive api_value :=
  | VNull | VStore (s : apiStore) | VStores (l : list apiStore) | VCell (c : apiCell) | VCells (l : list apiCell)
  | VOperator (o : option Operator) | VOperators (l : list Operator) | VSystem (s : System) | VIndex (d : IndexDef) | VIndices (l : list IndexDef).
Definition CodeSuccess : Z := 0.
Definition CodeError : Z := 1.
Record Result := mkResult { res_Code : Z; res_Error : option api_error; res_Value : api_value }.

Abbreviation header := (gmap string (list string)).
(** json.Unmarshal of a request body [B] into what the handlers read. *)
Class Json (B : Type) := {
  json_loglevel : B → option apiSetLogLevel;
  json_transfer : B → option apiTransferLeader;
  json_params : B → option InitParams;
  json_index : B → option IndexDef;
}.

(** ** Stores and cells as the API shows them *)
(** Seconds; 0 is the zero time, which lies long before 1970. *)
Definition Unix (ts : Z) : Z := if bool_decide (ts = 0) then -62135596800 else ts `div` 1000000000.
(** Nil pointers are dereferenced. *)
Definition toAPIStore (store : option StoreInfo) : outcome api_error apiStore :=
  match store with
  | Some (mkStoreInfo meta (Some st)) => Ok (mkApiStore meta (Stats st) (LeaderCount st) (Unix (LastHeartbeatTS st)))
  | _ => Panic
  end.
Definition toAPICell (cell : option CellInfo) : outcome api_error apiCell :=
  match cell with
  | Some c => Ok (mkApiCell (CMeta c) (LeaderPeer c) (DownPeers c) (PendingPeers c))
  | None => Panic
  end.
Fixpoint to_all {X Y} (f : X → outcome api_error Y) (l : list X) : outcome api_error (list Y) :=
  match l with [] => Ok [] | x :: l => let! y := f x in let! ys := to_all f l in Ok (y :: ys) end.
(** sort.Slice by id; what has the same id is the same. *)
Definition store_le (a b : apiStore) : Prop := Store_ID (as_Meta a) ≤ Store_ID (as_Meta b).
Definition cell_le (a b : apiCell) : Prop := Cell_ID (ac_Meta a) ≤ Cell_ID (ac_Meta b).
#[export] Instance store_le_dec : RelDecision store_le.
Proof. intros a b. unfold store_le. apply _. Defined.
#[export] Instance cell_le_dec : RelDecision cell_le.
Proof. intros a b. unfold cell_le. apply _. Defined.
Definition toAPIStoreSlice (stores : list StoreInfo) : outcome api_error (list apiStore) :=
  let! values := to_all (λ s, toAPIStore (Some s)) stores in Ok (merge_sort store_le values).
Definition toAPICellSlice (cells : list CellInfo) : outcome api_error (list apiCell) :=
  let! values := to_all (λ c, toAPICell (Some c)) cells in Ok (merge_sort cell_le values).

(** ** The service *)
Section service.
Context {A T : Type} `{!MapOrder} (cfg : Cfg).
Abbreviation state := (CellCluster A T).

(** The leader with its cluster and the index definitions in etcd. *)
Record Server := mkServer { sv_pd : @pd A T; sv_indices : indices }.
Definition sv_cluster (s : Server) : state := pd_cluster (sv_pd s).
Definition api (X : Type) : Type := Server → outcome api_error X * Server.

(** [GetCellCluster], which is nil while the cluster does not run. *)
Definition reading {X} (f : state → outcome api_error X) : api X := λ s,
  (if negb (isClusterBootstrapped (sv_cluster s)) then Err (EPd errNotBootstrapped) else f (sv_cluster s), s).
Definition changing {X} (h : M state X) : api X := λ s,
  let '(r, c) := h (sv_cluster s) in
  (match r with Ok x => Ok x | Err e => Err (EPd e) | Panic => Panic end, mkServer (mkPd c (pd_params (sv_pd s))) (sv_indices s)).

Definition add_store (sy : System) (store : StoreInfo) : outcome api_error System :=
  let count := sy_StoreCount sy + 1 in
  if isOffline store then
    Ok (mkSystemInfo (sy_AlreadyBootstrapped sy) (sy_InitParams sy) (sy_MaxReplicas sy) count (sy_OfflineStoreCount sy + 1) (sy_TombStoneStoreCount sy)
          (sy_CellCount sy) (sy_ReplicasNotFullCellCount sy) (sy_StorageCapacity sy) (sy_StorageAvailable sy) (sy_OperatorCount sy))
  else if isTombstone store then
    Ok (mkSystemInfo (sy_AlreadyBootstrapped sy) (sy_InitParams sy) (sy_MaxReplicas sy) count (sy_OfflineStoreCount sy) (sy_TombStoneStoreCount sy + 1)
          (sy_CellCount sy) (sy_ReplicasNotFullCellCount sy) (sy_StorageCapacity sy) (sy_StorageAvailable sy) (sy_OperatorCount sy))
  else match Status store with
       | None => Panic
       | Some st =>
           Ok (mkSystemInfo (sy_AlreadyBootstrapped sy) (sy_InitParams sy) (sy_MaxReplicas sy) count (sy_OfflineStoreCount sy) (sy_TombStoneStoreCount sy)
                 (sy_CellCount sy) (sy_ReplicasNotFullCellCount sy) (u64 (sy_StorageCapacity sy + Capacity (Stats st))) (u64 (sy_StorageAvailable sy + Available (Stats st))) (sy_OperatorCount sy))
       end.
Definition add_cell (sy : System) (cell : CellInfo) : System :=
  let full := bool_decide (sy_MaxReplicas sy ≤ Z.of_nat (length (getPeers cell))) in
  mkSystemInfo (sy_AlreadyBootstrapped sy) (sy_InitParams sy) (sy_MaxReplicas sy) (sy_StoreCount sy) (sy_OfflineStoreCount sy) (sy_TombStoneStoreCount sy)
    (sy_CellCount sy + 1) (sy_ReplicasNotFullCellCount sy + if full then 0 else 1) (sy_StorageCapacity sy) (sy_StorageAvailable sy) (sy_OperatorCount sy).
Fixpoint add_stores (sy : System) (l : list StoreInfo) : outcome api_error System :=
  match l with [] => Ok sy | s :: l => let! sy := add_store sy s in add_stores sy l end.
Definition GetSystem (n : net) : api System := λ s,
  (match pd_GetInitParams n (sv_pd s) with
   | None => Err EParams
   | Some params =>
       let c := sv_cluster s in
       if negb (isClusterBootstrapped c) then Ok (mkSystemInfo false params 0 0 0 0 0 0 0 0 0)
       else
         let sy := mkSystemInfo true params (LimitReplicas cfg) 0 0 0 0 0 0 0 (Z.of_nat (getOperatorCount (table c))) in
         let! sy := add_stores sy (range_values (sc c)) in
         Ok (foldl add_cell sy (range_values (cells (cc c))))
   end, s).
Definition api_InitCluster (n : net) (params : InitParams) : api unit := λ s,
  let '(r, p) := InitCluster n params (sv_pd s) in
  (match r with Ok x => Ok x | Err e => Err (EInit e) | Panic => Panic end, mkServer p (sv_indices s)).
(** A cell is added once for each of its peers on the store. *)
Definition ListCellInStore (storeID : Z) : api (list apiCell) :=
  reading (λ c, toAPICellSlice (range_values (cells (cc c)) ≫= λ cell, (λ _, clone_cell cell) <$> filter (λ p, Peer_StoreID p = storeID) (getPeers cell))).
Definition ListCell : api (list apiCell) := reading (λ c, toAPICellSlice (getCells (cc c))).
Definition GetCell (id : Z) : api apiCell := reading (λ c, toAPICell (CellCache.getCell (cc c) id)).
Definition ListStore : api (list apiStore) := reading (λ c, toAPIStoreSlice (getStores (sc c))).
Definition GetStore (id : Z) : api apiStore := reading (λ c, toAPIStore (getStore (sc c) id)).
Definition GetOperator (id : Z) : api (option Operator) :=
  reading (λ c, match CellCache.getCell (cc c) id with None => Err (EPd ErrCellNotFound) | Some _ => Ok (getOperator (table c) id) end).
Definition GetOperators : api (list Operator) := reading (λ c, Ok (getOperators (table c))).
Definition api_DeleteStore (n : net) (id : Z) (force : bool) : api unit := changing (DeleteStore n id force).
Definition api_SetStoreLogLevel (set : apiSetLogLevel) : api unit := changing (SetStoreLogLevel (sl_Targets set) (sl_Level set)).
Definition api_TransferLeader (now : Z) (transfer : apiTransferLeader) : api unit := changing (TransferLeader cfg now (tl_CellID transfer) (tl_ToPeerID transfer)).
Definition idx_outcome {X} (r : outcome pdidx_error X) : outcome api_error X := match r with Ok x => Ok x | Err e => Err (EIndex e) | Panic => Panic end.
Definition api_ListIndex (n : net) : api (list IndexDef) := λ s, (idx_outcome (ListIndex n (sv_indices s)), s).
Definition api_GetIndex (n : net) (id : bytes) : api IndexDef := λ s, (idx_outcome (GetIndex n id (sv_indices s)), s).
Definition api_CreateIndex (n : net) (d : IndexDef) : api unit := λ s, let '(r, m) := CreateIndex n d (sv_indices s) in (idx_outcome r, mkServer (sv_pd s) m).
Definition api_DeleteIndex (n : net) (id : bytes) : api unit := λ s, let '(r, m) := DeleteIndex n id (sv_indices s) in (idx_outcome r, mkServer (sv_pd s) m).
(** The heartbeat of a store: its answer brings all index definitions. *)
Definition server_storeHeartbeat (n : net) (now : Z) (stats : option StoreStats) : api (StoreHeartbeatRsp * list IndexDef) := λ s,
  changing (storeHeartbeat now stats (match ListIndex n (sv_indices s) with Ok l => Some l | _ => None end)) s.
Lemma heartbeat_brings_indices n now stats s rsp l s' : server_storeHeartbeat n now stats s = (Ok (rsp, l), s') →
  ListIndex n (sv_indices s) = Ok l ∧ sv_indices s' = sv_indices s.
Proof.
  unfold server_storeHeartbeat, changing, storeHeartbeat, mbind_, get, throw, mret, mpanic. destruct stats as [stats|]; [|done].
  destruct (negb (running (sv_cluster s))); [done|]. destruct (Cluster.checkStore _ _) as [[[]| |] c1]; [|done..].
  destruct (Cluster.doStoreHeartbeat _ _ _) as [[[r|]| |] c2]; [|done..]. destruct (ListIndex n (sv_indices s)) as [l'| |]; [|done..].
  intros [= <- <- <-]. done.
Qed.
End service.

(** ** Handlers *)
Section handlers.
Context {A T B : Type} `{!MapOrder, !Regexp, !Json B} (cfg : Cfg).
Abbreviation Server := (@Server A T).

(** [rq_body] is what could be read of the body; [rq_force]: the query has a force. *)
Record request := mkRequest { rq_method : string; rq_path : list string; rq_force : bool; rq_body : option B }.
(** How etcd behaves and the time. *)
Record call_env := mkCallEnv { ce_net : net; ce_now : Z }.
(** [None]: the handler panics. *)
Definition handler_of : Type := call_env → string → request → Server → option Result * Server.
Definition failed (e : api_error) : Result := mkResult CodeError (Some e) VNull.
Definition respond {X} (f : X → api_value) (a : @api A T X) : Server → option Result * Server := λ s,
  let '(r, s') := a s in
  (match r with Ok x => Some (mkResult CodeSuccess None (f x)) | Err e => Some (failed e) | Panic => None end, s').
Definition done_ (_ : unit) : api_value := VNull.
(** strconv.ParseUint of the id in the path. *)
Definition parsed (id : string) (f : Z → Server → option Result * Server) : Server → option Result * Server := λ s,
  match ParseUint (String.list_byte_of_string id) with (_, Some e) => (Some (failed (EParse e)), s) | (v, None) => f v s end.
Definition readJSON {X} (unmarshal : B → option X) (r : request) : option X := rq_body r ≫= unmarshal.
Definition readSetLogLevel (r : request) : option apiSetLogLevel := readJSON json_loglevel r.
Definition readTransferLeader (r : request) : option apiTransferLeader := readJSON json_transfer r.
Definition readInitParams (r : request) : option InitParams := readJSON json_params r.
Definition readIndexDef (r : request) : outcome api_error IndexDef :=
  match readJSON json_index r with
  | None => Err EJson
  | Some d => if re_compiles (ix_KeyPattern d) then Ok d else Err ERegexp
  end.
Definition read_then {X} (o : option X) (f : X → Server → option Result * Server) : Server → option Result * Server := λ s,
  match o with None => (Some (failed EJson), s) | Some x => f x s end.

Definition store_get : handler_of := λ _ id _, parsed id (λ v, respond VStore (GetStore v)).
Definition store_cells : handler_of := λ _ id _, parsed id (λ v, respond VCells (ListCellInStore v)).
Definition store_delete : handler_of := λ e id r, parsed id (λ v, respond done_ (api_DeleteStore (ce_net e) v (rq_force r))).
Definition store_list : handler_of := λ _ _ _, respond VStores ListStore.
Definition store_setLogLevel : handler_of := λ _ _ r, read_then (readSetLogLevel r) (λ set, respond done_ (api_SetStoreLogLevel set)).
Definition cell_operator : handler_of := λ _ id _, parsed id (λ v, respond VOperator (GetOperator v)).
Definition cell_leader : handler_of := λ e _ r, read_then (readTransferLeader r) (λ t, respond done_ (api_TransferLeader cfg (ce_now e) t)).
Definition cell_get : handler_of := λ _ id _, parsed id (λ v, respond VCell (GetCell v)).
Definition cell_list : handler_of := λ _ _ _, respond VCells ListCell.
Definition operator_list : handler_of := λ _ _ _, respond VOperators GetOperators.
Definition system_get : handler_of := λ e _ _, respond VSystem (GetSystem cfg (ce_net e)).
Definition system_create : handler_of := λ e _ r, read_then (readInitParams r) (λ p, respond done_ (api_InitCluster (ce_net e) p)).
Definition index_get : handler_of := λ e id _, respond VIndex (api_GetIndex (ce_net e) (String.list_byte_of_string id)).
Definition index_delete : handler_of := λ e id _, respond done_ (api_DeleteIndex (ce_net e) (String.list_byte_of_string id)).
Definition index_create : handler_of := λ e _ r s,
  match readIndexDef r with Ok d => respond done_ (api_CreateIndex (ce_net e) d) s | Err err => (Some (failed err), s) | Panic => (None, s) end.
Definition index_list : handler_of := λ e _ _, respond VIndices (api_ListIndex (ce_net e)).

(** ** Routes *)
(** A variable is anything but the empty segment. *)
Inductive seg := Lit (s : string) | Var.
Record route := mkRoute { rt_path : list seg; rt_handler : handler_of; rt_method : string }.
Open Scope string_scope.
Definition v1 (l : list seg) : list seg := Lit "api" :: Lit "v1" :: l.
Definition initAPIForStore : list route :=
  [mkRoute (v1 [Lit "stores"; Var; Lit "cells"]) store_cells "GET"; mkRoute (v1 [Lit "stores"; Var]) store_get "GET"; mkRoute (v1 [Lit "stores"; Var]) store_delete "DELETE";
   mkRoute (v1 [Lit "stores"]) store_list "GET"; mkRoute (v1 [Lit "stores"; Lit "log"]) store_setLogLevel "PUT"].
Definition initAPIForCell : list route :=
  [mkRoute (v1 [Lit "cells"; Var]) cell_get "GET"; mkRoute (v1 [Lit "cells"; Var; Lit "operator"]) cell_operator "GET"; mkRoute (v1 [Lit "cells"; Var; Lit "leader"]) cell_leader "PUT";
   mkRoute (v1 [Lit "cells"]) cell_list "GET"].
Definition initAPIForSystem : list route := [mkRoute (v1 [Lit "system"]) system_get "GET"; mkRoute (v1 [Lit "system"]) system_create "POST"].
Definition initAPIForOperator : list route := [mkRoute (v1 [Lit "operators"]) operator_list "GET"].
Definition initAPIForIndex : list route :=
  [mkRoute (v1 [Lit "indices"; Var]) index_get "GET"; mkRoute (v1 [Lit "indices"; Var]) index_delete "DELETE"; mkRoute (v1 [Lit "indices"]) index_create "POST"; mkRoute (v1 [Lit "indices"]) index_list "GET"].
Definition APIPrefix : string := "pd".
Definition createRouter : list route := initAPIForStore ++ initAPIForCell ++ initAPIForSystem ++ initAPIForOperator ++ initAPIForIndex.
(** The variable of a path that matches; a path has one at most. *)
Fixpoint match_path (pat : list seg) (path : list string) : option string :=
  match pat, path with
  | [], [] => Some ""
  | Lit l :: pat, p :: path => if bool_decide (l = p) then match_path pat path else None
  | Var :: pat, p :: path => if bool_decide (p = "") then None else match match_path pat path with Some _ => Some p | None => None end
  | _, _ => None
  end.
Definition route_match (r : request) (rt : route) : option (string * handler_of) :=
  match rq_path r with
  | p :: path => if bool_decide (p = APIPrefix) then match match_path (rt_path rt) path with Some id => if bool_decide (rq_method r = rt_method rt) then Some (id, rt_handler rt) else None | None => None end else None
  | [] => None
  end.
(** The first route that matches the path and the method. *)
Definition find_route (r : request) : option (string * handler_of) := find_map (route_match r) createRouter.
Definition path_known (r : request) : bool :=
  match rq_path r with p :: path => bool_decide (p = APIPrefix) && existsb (λ rt, bool_decide (is_Some (match_path (rt_path rt) path))) createRouter | [] => false end.

(** ** Responses *)
Inductive content := CResult (r : Result) | CText (t : string) | CEmpty.
(** Of the header, what the API itself sets. *)
Record response := mkResponse { rp_status : Z; rp_header : header; rp_content : content }.
Definition headerAccess : string := "Access-Control-Allow-Origin".
Definition headerAccessMethods : string := "Access-Control-Allow-Methods".
Definition headerAccessHeaders : string := "Access-Control-Allow-Headers".
Definition options : header :=
  <[headerAccess := ["*"]]> (<[headerAccessMethods := ["OPTIONS, GET, HEAD, POST, PUT, DELETE"]]> {[ headerAccessHeaders := ["Content-Type"] ]}).
Definition upper (a : Ascii.ascii) : Ascii.ascii := let n := Ascii.nat_of_ascii a in if bool_decide (97 ≤ n ≤ 122)%nat then Ascii.ascii_of_nat (n - 32) else a.
Fixpoint ToUpper (s : string) : string := match s with EmptyString => EmptyString | String.String a s => String.String (upper a) (ToUpper s) end.
(** [cross] before the router; a panic is answered by the recovery of negroni. *)
Definition local_serve (e : call_env) (r : request) (s : Server) : response * Server :=
  if bool_decide (ToUpper (rq_method r) = "OPTIONS") then (mkResponse 200 options CEmpty, s)
  else match find_route r with
       | Some (id, h) =>
           let '(res, s) := h e id r s in
           (match res with Some res => mkResponse 200 options (CResult res) | None => mkResponse 500 options (CText "PANIC") end, s)
       | None => (mkResponse (if path_known r then 405 else 404) options CEmpty, s)
       end.
End handlers.

(** ** The redirector *)
Section redirector.
(** Url parsing is that of net/url; a host leads to a server. *)
Context {W : Type} (local : nat → W → response * W) (url_Parse : string → option string) (server_at : string → option nat).
Definition errRedirectFailed : string := "redirect failed".
Definition errRedirectToNotLeader : string := "redirect to not leader".
Definition http_Error (t : string) : response := mkResponse 500 ∅ (CText t).

Definition is_access (k : string) : bool := bool_decide (k = headerAccess) || bool_decide (k = headerAccessMethods) || bool_decide (k = headerAccessHeaders).
Definition copy_value (k : string) (dst : header) (v : string) : header := <[k := if is_access k then [v] else default [] (dst !! k) ++ [v]]> dst.
Definition copyHeader (dst src : header) : header := foldl (λ dst '(k, vv), foldl (copy_value k) dst vv) dst (map_to_list src).

(** strings.Split with a comma: one item at least. *)
Fixpoint split_comma (s cur : string) : list string :=
  match s with
  | EmptyString => [cur]
  | String.String a s => if bool_decide (a = Ascii.ascii_of_nat 44) then cur :: split_comma s "" else split_comma s (cur ++ String.String a "")
  end.
Definition ParseUrls (s : string) : option (list string) := mapM url_Parse (split_comma s "").

(** What becomes of a forwarded request: it is not executed; it is executed and the answer lost; the answer cannot be written to the client; all is well. *)
Inductive attempt := ReqLost | ReplyLost | WriteLost | Delivered.
(** [None]: the client gets no answer.  With it, the servers that executed the request. *)
Definition served : Type := option response * list nat * W.
(** [broken]: the connection of the client. *)
Fixpoint proxies_ServeHTTP (forward : string → W → served) (urls : list string) (fates : list attempt) (broken : bool) (ex : list nat) (w : W) : served :=
  match urls with
  | [] => (if broken then None else Some (http_Error errRedirectFailed), ex, w)
  | url :: urls =>
      match fates with
      | [] | ReqLost :: _ => proxies_ServeHTTP forward urls (tail fates) broken ex w
      | fate :: fates =>
          let '(rsp, ex', w) := forward url w in
          match fate, rsp with
          | Delivered, Some rsp => (if broken then None else Some (mkResponse (rp_status rsp) (copyHeader ∅ (rp_header rsp)) (rp_content rsp)), ex ++ ex', w)
          | WriteLost, Some rsp => proxies_ServeHTTP forward urls fates true (ex ++ ex') w
          | _, _ => proxies_ServeHTTP forward urls fates broken (ex ++ ex') w
          end
      end
  end.

(** A server: its name, whether it takes itself for the leader, what it reads of the leader, the fates of what it forwards. *)
Record member := mkMember { mb_name : string; mb_isLeader : bool; mb_GetLeader : outcome leader_error (option Leader); mb_fates : list attempt }.
(** [name]: the value of the header PD-Redirector; [forward]: a request to a server with that header.  A missing leader is a nil pointer. *)
Definition redirect (forward : nat → string → W → served) (i : nat) (mb : member) (name : string) (w : W) : served :=
  if mb_isLeader mb then let '(r, w) := local i w in (Some r, [i], w)
  else if negb (bool_decide (name = "")) then (Some (http_Error errRedirectToNotLeader), [], w)
  else match mb_GetLeader mb with
       | Err _ => (Some (http_Error "error"), [], w)
       | Panic | Ok None => (Some (http_Error "PANIC"), [], w)
       | Ok (Some leader) =>
           match ParseUrls (L_EtcdClientAddr leader) with
           | None => (Some (http_Error "parse url error"), [], w)
           | Some urls => proxies_ServeHTTP (λ url w, match server_at url with Some j => forward j (mb_name mb) w | None => (None, [], w) end) urls (mb_fates mb) false [] w
           end
       end.
Fixpoint ServeHTTP (members : gmap nat member) (hops : nat) (i : nat) (name : string) (w : W) : served :=
  match hops with
  | O => (None, [], w)
  | S hops => match members !! i with Some mb => redirect (ServeHTTP members hops) i mb name w | None => (None, [], w) end
  end.
End redirector.

(** ** Requests are executed by leaders, once *)
Definition header_ok (h : header) : Prop := ∀ k vv, h !! k = Some vv → vv ≠ [] ∧ (is_access k = true → length vv = 1%nat).
Lemma copy_values_ne k k' vv dst : k ≠ k' → foldl (copy_value k) dst vv !! k' = dst !! k'.
Proof. intros Hne. revert dst. induction vv as [|v vv IH]; intros dst; [done|]. cbn [foldl]. rewrite IH. by apply lookup_insert_ne. Qed.
Lemma copy_values_eq k vv dst : is_access k = false → vv ≠ [] → foldl (copy_value k) dst vv !! k = Some (default [] (dst !! k) ++ vv).
Proof.
  intros Ha. revert dst. induction vv as [|v vv IH]; intros dst Hne; [done|]. cbn [foldl]. destruct vv as [|v' vv]; [unfold copy_value; cbn [foldl]; by rewrite Ha, lookup_insert_eq|].
  rewrite IH by done. unfold copy_value. rewrite Ha, lookup_insert_eq. simpl. by rewrite <-app_assoc.
Qed.
Lemma copy_values_fresh k vv dst : dst !! k = None → vv ≠ [] → (is_access k = true → length vv = 1%nat) → foldl (copy_value k) dst vv = <[k := vv]> dst.
Proof.
  intros Hd Hne Hl. apply map_eq. intros k'. destruct (decide (k = k')) as [<-|Hk]; [|by rewrite copy_values_ne, lookup_insert_ne]. rewrite lookup_insert_eq.
  destruct (is_access k) eqn:Ha; [|rewrite copy_values_eq, Hd by done; done]. destruct vv as [|v [|? ?]]; try (specialize (Hl eq_refl); done). cbn [foldl]. unfold copy_value. by rewrite Ha, lookup_insert_eq.
Qed.
Lemma copyHeader_list l : ∀ dst : header, NoDup l.*1 → (∀ k vv, (k, vv) ∈ l → dst !! k = None ∧ vv ≠ [] ∧ (is_access k = true → length vv = 1%nat)) →
  foldl (λ dst '(k, vv), foldl (copy_value k) dst vv) dst l = list_to_map l ∪ dst.
Proof.
  induction l as [|[k vv] l IH]; intros dst Hnd Hl; [simpl; by rewrite (left_id_L ∅ (∪))|]. cbn [foldl]. cbn [fmap list_fmap fst] in Hnd. apply NoDup_cons in Hnd as [Hk Hnd]. destruct (Hl k vv) as (H1 & H2 & H3); [left|].
  rewrite copy_values_fresh by done. rewrite IH; [|done|].
  - cbn [list_to_map foldr]. change (list_to_map ((k, vv) :: l)) with (<[k := vv]> (list_to_map l) : header). rewrite <-insert_union_r by by apply not_elem_of_list_to_map_1. by rewrite insert_union_l.
  - intros k' vv' Hin. destruct (Hl k' vv') as (? & ? & ?); [by right|]. rewrite lookup_insert_ne; [done|]. intros ->. apply Hk, list_elem_of_fmap. by exists (k', vv').
Qed.
(** Copying the header of a response into an empty one gives it back. *)
Lemma copyHeader_id (h : header) : header_ok h → copyHeader ∅ h = h.
Proof.
  intros Hh. unfold copyHeader. rewrite copyHeader_list; [by rewrite list_to_map_to_list, (right_id_L ∅ (∪))|apply NoDup_fst_map_to_list|].
  intros k vv Hin%elem_of_map_to_list. destruct (Hh k vv Hin). by rewrite lookup_empty.
Qed.

Section redirects.
Context {W : Type} (local : nat → W → response * W) (url_Parse : string → option string) (server_at : string → option nat) (members : gmap nat member).
Hypothesis local_headers : ∀ j w, header_ok (rp_header (local j w).1).
Abbreviation ServeHTTP := (ServeHTTP local url_Parse server_at members).

Definition leads (j : nat) : Prop := ∃ mb, members !! j = Some mb ∧ mb_isLeader mb = true.
Definition run_all (ex : list nat) (w : W) : W := foldl (λ w j, (local j w).2) w ex.
(** The client is told of an error, or gets what the last server answered that executed the request. *)
Definition answer_ok (w : W) (ex : list nat) (r : response) : Prop :=
  rp_status r = 500 ∨ ∃ ex0 j, ex = ex0 ++ [j] ∧ r = (local j (run_all ex0 w)).1.
Definition good (w : W) (sv : served (W := W)) : Prop :=
  let '(rsp, ex, w') := sv in Forall leads ex ∧ w' = run_all ex w ∧ ∀ r, rsp = Some r → header_ok (rp_header r) ∧ answer_ok w ex r.
Definition at_most_once (sv : served (W := W)) : Prop := let '(rsp, ex, _) := sv in (length ex ≤ 1)%nat ∧ (rsp = None → ex = []).

Lemma proxies_ext f g urls : (∀ u w, f u w = g u w) → ∀ fates broken ex (w : W), proxies_ServeHTTP f urls fates broken ex w = proxies_ServeHTTP g urls fates broken ex w.
Proof. intros He. induction urls as [|u urls IH]; intros fates broken ex w; [done|]. cbn [proxies_ServeHTTP]. destruct fates as [|[] fates]; rewrite ?He, ?IH; [done..| | |]; destruct (g u w) as [[[rsp|] ex'] w']; by rewrite ?IH. Qed.
Lemma redirect_named f i mb name w : name ≠ ""%string → redirect local url_Parse server_at f i mb name w = if mb_isLeader mb then let '(r, w) := local i w in (Some r, [i], w) else (Some (http_Error errRedirectToNotLeader), [], w).
Proof. intros Hn. unfold redirect. by rewrite bool_decide_eq_false_2. Qed.
Lemma ServeHTTP_named n j name w : name ≠ ""%string → ServeHTTP (S n) j name w = ServeHTTP 1 j name w.
Proof. intros Hn. cbn [PDApi.ServeHTTP]. destruct (members !! j) as [mb|]; [|done]. by rewrite !redirect_named. Qed.
Lemma leader_good j w r w' mb : members !! j = Some mb → mb_isLeader mb = true → local j w = (r, w') → good w (Some r, [j], w').
Proof.
  intros Hm Hl He. split_and!; [constructor; [by exists mb|done]|unfold run_all; cbn [foldl]; by rewrite He|]. intros ? [= <-]. split; [by specialize (local_headers j w); rewrite He in local_headers|].
  right. exists [], j. split; [done|]. unfold run_all. cbn [foldl]. by rewrite He.
Qed.
Lemma error_good w t : good w (Some (http_Error t), [], w).
Proof. split_and!; [constructor|done|]. intros ? [= <-]. split; [|by left]. intros k vv Hk. cbn [http_Error rp_header] in Hk. by rewrite lookup_empty in Hk. Qed.
Lemma none_good w : good w (None, [], w) ∧ at_most_once (None, [], w).
Proof. split; [split_and!; [constructor|done|done]|split; [cbn; lia|done]]. Qed.
Lemma named_good n j name w : name ≠ ""%string → good w (ServeHTTP n j name w) ∧ at_most_once (ServeHTTP n j name w).
Proof.
  intros Hn. destruct n as [|n]; [apply none_good|]. cbn [PDApi.ServeHTTP]. destruct (members !! j) as [mb|] eqn:Hm; [|apply none_good].
  rewrite redirect_named by done. destruct (mb_isLeader mb) eqn:Hl; [|split; [apply error_good|split; [cbn; lia|done]]].
  destruct (local j w) as [r w'] eqn:He. split; [by eapply leader_good|split; [cbn; lia|done]].
Qed.
Lemma run_all_app ex ex' w : run_all (ex ++ ex') w = run_all ex' (run_all ex w).
Proof. apply foldl_app. Qed.
Lemma good_app w ex r ex' w' : good (run_all ex w) (Some r, ex', w') → answer_ok w (ex ++ ex') r.
Proof. intros (_ & _ & Ha). destruct (Ha r eq_refl) as [_ [H5|(ex0 & j & -> & ->)]]; [by left|right]. exists (ex ++ ex0), j. by rewrite run_all_app, app_assoc. Qed.
Lemma proxies_good f urls : (∀ u w, good w (f u w)) → ∀ fates broken ex w, Forall leads ex → good w (proxies_ServeHTTP f urls fates broken ex (run_all ex w)).
Proof.
  intros Hf. induction urls as [|u urls IH]; intros fates broken ex w Hex.
  - cbn [proxies_ServeHTTP]. split_and!; [done|done|]. intros r Hr. destruct broken; [done|injection Hr as <-]. destruct (error_good w errRedirectFailed) as (_ & _ & He). destruct (He _ eq_refl). split; [done|by left].
  - cbn [proxies_ServeHTTP]. destruct fates as [|[] fates]; [by apply IH..| | |]; pose proof (Hf u (run_all ex w)) as Hg; destruct (f u (run_all ex w)) as [[rsp ex'] w'] eqn:Hu; destruct Hg as (G1 & G2 & G3);
      assert (Forall leads (ex ++ ex')) as Hex' by (by apply Forall_app); subst w'; rewrite <-run_all_app; destruct rsp as [rsp|]; try by apply IH.
    split_and!; [done|done|]. intros r Hr. destruct broken; [done|]. injection Hr as <-. destruct (G3 rsp eq_refl) as [Hh _]. cbn [rp_header]. rewrite copyHeader_id by done. destruct rsp. split; [done|]. by eapply good_app, (conj G1 (conj eq_refl G3)).
Qed.
Lemma proxies_once f urls : (∀ u w, at_most_once (f u w)) → ∀ fates (w : W), Forall (λ a, a = ReqLost ∨ a = Delivered) fates → (length (proxies_ServeHTTP f urls fates false [] w).1.2 ≤ 1)%nat.
Proof.
  intros Hf. induction urls as [|u urls IH]; intros fates w Hfa; [cbn; lia|]. cbn [proxies_ServeHTTP]. destruct Hfa as [|fate fates [-> | ->] Hfa]; [by apply IH..|].
  pose proof (Hf u w) as Ho. destruct (f u w) as [[[rsp|] ex'] w']; destruct Ho as [Ho1 Ho2]; [done|]. rewrite (Ho2 eq_refl). by apply IH.
Qed.
(** However the servers of PD see the leader and whatever becomes of what they send to each other: a request reaches
    its end after one redirection at most; only servers that take themselves for the leader execute it, and
    its effect is that of their executions; the client is told of an error, or gets the answer of the server that executed it last;
    and it is executed once at most if no answer is lost between the servers. *)
Theorem redirected_once (i hops : nat) (w : W) : (∀ j mb, members !! j = Some mb → mb_name mb ≠ ""%string) → (2 ≤ hops)%nat →
  ServeHTTP hops i "" w = ServeHTTP 2 i "" w ∧ good w (ServeHTTP hops i "" w) ∧
  ((∀ mb, members !! i = Some mb → Forall (λ a, a = ReqLost ∨ a = Delivered) (mb_fates mb)) → (length (ServeHTTP hops i "" w).1.2 ≤ 1)%nat).
Proof.
  intros Hn Hh. destruct hops as [|[|hops]]; [lia..|]. assert (ServeHTTP (S (S hops)) i "" w = ServeHTTP 2 i "" w) as ->.
  { change (ServeHTTP 2 i "" w) with (match members !! i with Some mb => redirect local url_Parse server_at (ServeHTTP 1) i mb "" w | None => (None, [], w) end).
    change (ServeHTTP (S (S hops)) i "" w) with (match members !! i with Some mb => redirect local url_Parse server_at (ServeHTTP (S hops)) i mb "" w | None => (None, [], w) end).
    destruct (members !! i) as [mb|] eqn:Hm; [|done]. unfold redirect. repeat (case_match; try done). apply proxies_ext. intros u w'. case_match; [|done]. by apply (ServeHTTP_named hops), (Hn i). }
  split; [done|]. change (ServeHTTP 2 i "" w) with (match members !! i with Some mb => redirect local url_Parse server_at (ServeHTTP 1) i mb "" w | None => (None, [], w) end). unfold redirect.
  destruct (members !! i) as [mb|] eqn:Hm; [|split; [apply none_good|intros _; cbn; lia]]. destruct (mb_isLeader mb) eqn:Hl.
  { destruct (local i w) as [r w'] eqn:He. split; [by eapply leader_good|intros _; cbn; lia]. }
  rewrite bool_decide_eq_true_2 by done. cbn [negb]. destruct (mb_GetLeader mb) as [[l|]| |]; [|split; [apply error_good|intros _; cbn; lia]..]. destruct (ParseUrls _ _) as [urls|]; [|split; [apply error_good|intros _; cbn; lia]].
  assert (∀ u w', good w' (match server_at u with Some j => ServeHTTP 1 j (mb_name mb) w' | None => (None, [], w') end) ∧ at_most_once (match server_at u with Some j => ServeHTTP 1 j (mb_name mb) w' | None => (None, [], w') end)) as Hf.
  { intros u w'. destruct (server_at u); [by apply named_good, (Hn i)|apply none_good]. }
  split; [by apply (proxies_good _ urls (λ u w', proj1 (Hf u w')) (mb_fates mb) false [])|]. intros Hfa. apply proxies_once; [intros u w'; apply Hf|by apply Hfa].
Qed.
End redirects.

(** ** What the API shows *)
Lemma to_all_spec {X Y} (f : X → outcome api_error Y) l : (∀ x, x ∈ l → ∃ y, f x = Ok y) → ∃ ys, to_all f l = Ok ys ∧ Forall2 (λ x y, f x = Ok y) l ys.
Proof.
  induction l as [|x l IH]; intros Hl; [by exists []|]. destruct (Hl x) as [y Hy]; [left|]. destruct IH as (ys & Hys & Hf); [intros ? ?; apply Hl; by right|].
  exists (y :: ys). split; [|by constructor]. cbn [to_all]. by rewrite Hy, Hys.
Qed.
(** A list that is converted and sorted. *)
Lemma sorted_slice {X Y} (f : X → outcome api_error Y) (R : relation Y) `{!RelDecision R, !Total R, !Transitive R} (l : list X) (g : Y → Z) (h : X → Z) :
  (∀ x, x ∈ l → ∃ y, f x = Ok y) → (∀ x y, f x = Ok y → g y = h x) →
  ∃ ys, (let! v := to_all f l in Ok (merge_sort R v)) = Ok ys ∧ StronglySorted R ys ∧ (∀ y, y ∈ ys ↔ ∃ x, x ∈ l ∧ f x = Ok y) ∧ g <$> ys ≡ₚ h <$> l.
Proof.
  intros Hl Hg. destruct (to_all_spec f l Hl) as (ys & -> & Hf). exists (merge_sort R ys). split_and!; [done|by apply StronglySorted_merge_sort| |].
  - intros y. rewrite merge_sort_Permutation. split.
    + intros [i Hi]%list_elem_of_lookup. destruct (Forall2_lookup_r _ _ _ _ _ Hf Hi) as (x & Hx & HP). exists x. split; [by eapply list_elem_of_lookup_2|done].
    + intros (x & [i Hi]%list_elem_of_lookup & Hx). destruct (Forall2_lookup_l _ _ _ _ _ Hf Hi) as (y' & Hy & HP). assert (y' = y) as -> by congruence. by eapply list_elem_of_lookup_2.
  - rewrite merge_sort_Permutation. apply reflexive_eq. clear Hl. induction Hf as [|x y l ys Hxy _ IH]; [done|]. rewrite !fmap_cons. by rewrite IH, (Hg x y).
Qed.
#[local] Instance store_le_total : Total store_le.
Proof. intros a b. unfold store_le. lia. Qed.
#[local] Instance store_le_trans : Transitive store_le.
Proof. intros a b c. unfold store_le. lia. Qed.
#[local] Instance cell_le_total : Total cell_le.
Proof. intros a b. unfold cell_le. lia. Qed.
#[local] Instance cell_le_trans : Transitive cell_le.
Proof. intros a b c. unfold cell_le. lia. Qed.
Definition has_status (sc : storeCache) : Prop := ∀ id s, sc !! id = Some s → is_Some (Status s).
(** The caches of a leader: what it keeps has its id, and stores a status. *)
Record pd_ok {A T : Type} `{OT : !OrderedTree CellItem Less T} (c : CellCluster A T) : Prop := {
  po_stores : store_cache_wf (sc c);
  po_status : has_status (sc c);
  po_cells : cache_inv (cc c);
}.
Definition shown_store (s : StoreInfo) (a : apiStore) : Prop := toAPIStore (Some s) = Ok a.
Definition shown_cell (c : CellInfo) (a : apiCell) : Prop := toAPICell (Some c) = Ok a.

Section shown.
Context {A T : Type} `{!MapOrder} `{OT : !OrderedTree CellItem Less T} (cfg : Cfg) (s : @Server A T).
Abbreviation c := (sv_cluster s).
Hypothesis Hrun : isClusterBootstrapped c = true.
Lemma reading_runs {X} (f : CellCluster A T → outcome api_error X) : reading f s = (f c, s).
Proof. unfold reading. by rewrite Hrun. Qed.
Lemma range_values_keys {V} (f : V → Z) (m : gmap Z V) : (∀ id v, m !! id = Some v → f v = id) → f <$> range_values m ≡ₚ (map_to_list m).*1.
Proof.
  intros Hf. unfold range_values. rewrite map_range_perm. apply reflexive_eq. rewrite <-list_fmap_compose. apply list_fmap_ext. intros i [id v] Hi%list_elem_of_lookup_2%elem_of_map_to_list. by apply Hf.
Qed.
Lemma range_values_nodup {V} (f : V → Z) (m : gmap Z V) : (∀ id v, m !! id = Some v → f v = id) → NoDup (f <$> range_values m).
Proof. intros Hf. rewrite range_values_keys by done. apply NoDup_fst_map_to_list. Qed.
Lemma getStores_values (m : storeCache) : getStores m = range_values m.
Proof. unfold getStores. rewrite <-(list_fmap_id (range_values m)) at 2. apply list_fmap_ext. intros i x _. apply clone_store_id. Qed.
Lemma ListStore_shows : store_cache_wf (sc c) → has_status (sc c) →
  ∃ l, ListStore s = (Ok l, s) ∧ StronglySorted store_le l ∧ NoDup ((λ a, Store_ID (as_Meta a)) <$> l) ∧ ∀ a, a ∈ l ↔ ∃ id st, sc c !! id = Some st ∧ shown_store st a.
Proof.
  intros Hwf Hst. unfold ListStore. rewrite reading_runs. unfold toAPIStoreSlice.
  destruct (sorted_slice (λ s, toAPIStore (Some s)) store_le (getStores (sc c)) (λ a, Store_ID (as_Meta a)) getStoreID) as (l & Hl & Hs & Hin & Hp).
  - intros x [id Hx]%elem_of_getStores. destruct (Hst id x Hx) as [st E1]. destruct x as [m [st'|]]; [by eexists|done].
  - intros [m [st|]] y Hy; [|done]. by injection Hy as <-.
  - exists l. split_and!; [by rewrite Hl|done| |].
    + rewrite Hp, getStores_values. by apply range_values_nodup.
    + intros a. rewrite Hin. setoid_rewrite elem_of_getStores. unfold shown_store. naive_solver.
Qed.
Lemma clone_cell_same (x : CellInfo) : clone_cell x = x.
Proof. by destruct x. Qed.
Lemma cells_shows (P : CellInfo → Prop) (l : list CellInfo) : (∀ x, x ∈ l ↔ ∃ id, cells (cc c) !! id = Some x ∧ P x) →
  ∃ l', toAPICellSlice l = Ok l' ∧ StronglySorted cell_le l' ∧ (∀ a, a ∈ l' ↔ ∃ id x, cells (cc c) !! id = Some x ∧ P x ∧ shown_cell x a) ∧ (λ a, Cell_ID (ac_Meta a)) <$> l' ≡ₚ getID <$> l.
Proof.
  intros Hl. destruct (sorted_slice (λ x, toAPICell (Some x)) cell_le l (λ a, Cell_ID (ac_Meta a)) getID) as (l' & Hl' & Hs & Hin & Hp).
  - intros x _. by eexists.
  - intros x y [= <-]. done.
  - exists l'. split_and!; [done|done| |done]. intros a. rewrite Hin. setoid_rewrite Hl. unfold shown_cell. naive_solver.
Qed.
Lemma ListCell_shows : cache_inv (cc c) →
  ∃ l, ListCell s = (Ok l, s) ∧ StronglySorted cell_le l ∧ NoDup ((λ a, Cell_ID (ac_Meta a)) <$> l) ∧ ∀ a, a ∈ l ↔ ∃ id x, cells (cc c) !! id = Some x ∧ shown_cell x a.
Proof.
  intros Hi. unfold ListCell. rewrite reading_runs. assert (getCells (cc c) = range_values (cells (cc c))) as ->.
  { unfold getCells. rewrite <-(list_fmap_id (range_values _)) at 2. apply list_fmap_ext. intros i x _. apply clone_cell_same. }
  destruct (cells_shows (λ _, True) (range_values (cells (cc c)))) as (l & Hl & Hs & Hin & Hp); [intros x; rewrite elem_of_range_values; naive_solver|].
  exists l. split_and!; [by rewrite Hl|done|rewrite Hp; by apply range_values_nodup, (ci_id _ Hi)|intros a; rewrite Hin; naive_solver].
Qed.
Lemma ListCellInStore_shows (storeID : Z) :
  ∃ l, ListCellInStore storeID s = (Ok l, s) ∧ StronglySorted cell_le l ∧ ∀ a, a ∈ l ↔ ∃ id x, cells (cc c) !! id = Some x ∧ (∃ p, p ∈ getPeers x ∧ Peer_StoreID p = storeID) ∧ shown_cell x a.
Proof.
  unfold ListCellInStore. rewrite reading_runs. set (l0 := _ ≫= _).
  destruct (cells_shows (λ x, ∃ p, p ∈ getPeers x ∧ Peer_StoreID p = storeID) l0) as (l & Hl & Hs & Hin & _); [|exists l; by rewrite Hl].
  intros x. unfold l0. rewrite list_elem_of_bind. split.
  - intros (x' & (p & -> & [H1 H2]%list_elem_of_filter)%list_elem_of_fmap & [id Hx]%elem_of_range_values). rewrite clone_cell_same. eauto.
  - intros (id & Hx & p & H1 & H2). exists x. split; [|apply elem_of_range_values; by exists id]. apply list_elem_of_fmap. exists p. by rewrite clone_cell_same, list_elem_of_filter.
Qed.
(** The stores that take part, and sums over a list. *)
Definition takes_part (x : StoreInfo) : bool := negb (isOffline x) && negb (isTombstone x).
Definition total {X} (f : X → Z) (l : list X) : Z := foldr (λ x n, f x + n) 0 l.
Definition stat (f : StoreStats → Z) (x : StoreInfo) : Z := match Status x with Some st => f (Stats st) | None => 0 end.
Definition count {X} (f : X → bool) (l : list X) : Z := total (λ x, if f x then 1 else 0) l.
Record sums (sy0 sy : System) (l : list StoreInfo) : Prop := {
  su_boot : sy_AlreadyBootstrapped sy = sy_AlreadyBootstrapped sy0;
  su_params : sy_InitParams sy = sy_InitParams sy0;
  su_max : sy_MaxReplicas sy = sy_MaxReplicas sy0;
  su_ops : sy_OperatorCount sy = sy_OperatorCount sy0;
  su_cells : sy_CellCount sy = sy_CellCount sy0 ∧ sy_ReplicasNotFullCellCount sy = sy_ReplicasNotFullCellCount sy0;
  su_stores : sy_StoreCount sy = sy_StoreCount sy0 + Z.of_nat (length l);
  su_offline : sy_OfflineStoreCount sy = sy_OfflineStoreCount sy0 + count isOffline l;
  su_tombstone : sy_TombStoneStoreCount sy = sy_TombStoneStoreCount sy0 + count isTombstone l;
  su_capacity : sy_StorageCapacity sy = u64 (sy_StorageCapacity sy0 + total (λ x, if takes_part x then stat Capacity x else 0) l);
  su_available : sy_StorageAvailable sy = u64 (sy_StorageAvailable sy0 + total (λ x, if takes_part x then stat Available x else 0) l);
}.
Lemma u64_idemp z : u64 (u64 z) = u64 z.
Proof. apply u64_small, u64_bounds. Qed.
Lemma u64_add_l a b : u64 (u64 a + b) = u64 (a + b).
Proof. unfold u64. by rewrite Z.add_mod_idemp_l. Qed.
Lemma add_stores_sums l : ∀ sy, (∀ x, x ∈ l → is_Some (Status x)) → sy_StorageCapacity sy = u64 (sy_StorageCapacity sy) → sy_StorageAvailable sy = u64 (sy_StorageAvailable sy) → ∃ sy', add_stores sy l = Ok sy' ∧ sums sy sy' l.
Proof.
  induction l as [|x l IH]; intros sy Hl Hc Ha.
  - exists sy. split; [done|]. split; unfold count, total; cbn [foldr length]; rewrite ?Z.add_0_r; done.
  - destruct (Hl x) as [st Hst]; [left|]. assert (∃ sy1, add_store sy x = Ok sy1 ∧ sums sy sy1 [x]) as (sy1 & H1 & [S1 S2 S3 S4 [S5 S5'] S6 S7 S8 S9 S10]).
    { unfold add_store. destruct (isOffline x) eqn:Ho; [|destruct (isTombstone x) eqn:Ht; [|rewrite Hst]]; (eexists; split; [reflexivity|]).
      - assert (isTombstone x = false) as Ht by (unfold isOffline, isTombstone in *; apply bool_decide_eq_true in Ho; rewrite Ho; done). split; unfold count, total, takes_part, stat; cbn [foldr]; rewrite ?Ho, ?Ht; cbn -[u64 Z.add]; rewrite ?Z.add_0_r; done.
      - split; unfold count, total, takes_part, stat; cbn [foldr]; rewrite ?Ho, ?Ht; cbn -[u64 Z.add]; rewrite ?Z.add_0_r; done.
      - split; unfold count, total, takes_part, stat; cbn [foldr]; rewrite ?Ho, ?Ht, ?Hst; cbn -[u64 Z.add]; rewrite ?Z.add_0_r; done. }
    destruct (IH sy1) as (sy2 & H2 & [T1 T2 T3 T4 [T5 T5'] T6 T7 T8 T9 T10]); [intros; apply Hl; by right|by rewrite S9, u64_idemp|by rewrite S10, u64_idemp|].
    exists sy2. cbn [add_stores]. rewrite H1. cbn -[u64 Z.add]. split; [done|]. unfold count, total in S7, S8, S9, S10, T7, T8, T9, T10. cbn [foldr] in S7, S8, S9, S10.
    split; unfold count, total; cbn [foldr length]; rewrite ?T1, ?T2, ?T3, ?T4, ?T5, ?T5', ?T6, ?T7, ?T8, ?T9, ?T10; try done; try (rewrite ?S6, ?S7, ?S8; cbn [length]; lia);
      rewrite ?S9, ?S10, u64_add_l; f_equal; lia.
Qed.
Definition not_full (x : CellInfo) : bool := bool_decide (Z.of_nat (length (getPeers x)) < LimitReplicas cfg).
Lemma add_cells_counts l : ∀ sy, sy_MaxReplicas sy = LimitReplicas cfg →
  foldl add_cell sy l = mkSystemInfo (sy_AlreadyBootstrapped sy) (sy_InitParams sy) (sy_MaxReplicas sy) (sy_StoreCount sy) (sy_OfflineStoreCount sy) (sy_TombStoneStoreCount sy)
    (sy_CellCount sy + Z.of_nat (length l)) (sy_ReplicasNotFullCellCount sy + count not_full l) (sy_StorageCapacity sy) (sy_StorageAvailable sy) (sy_OperatorCount sy).
Proof.
  induction l as [|x l IH]; intros sy Hm; [destruct sy; unfold count; cbn; by rewrite !Z.add_0_r|]. cbn [foldl]. rewrite IH by done. unfold count, total. cbn [foldr length].
  unfold add_cell, not_full. cbn. rewrite Hm. f_equal; [lia|]. rewrite <-Z.add_assoc. f_equal. f_equal. do 2 case_bool_decide; lia.
Qed.
Lemma length_range_values {V} (m : gmap Z V) : length (range_values m) = size m.
Proof. unfold range_values. rewrite map_range_perm, length_fmap. apply length_map_to_list. Qed.
Abbreviation stores := (range_values (sc c)).
Lemma GetSystem_shows : has_status (sc c) →
  GetSystem cfg NetOk s = (Ok (mkSystemInfo true (pd_params (sv_pd s)) (LimitReplicas cfg) (Z.of_nat (size (sc c))) (count isOffline stores) (count isTombstone stores)
    (Z.of_nat (size (cells (cc c)))) (count not_full (range_values (cells (cc c))))
    (u64 (total (λ x, if takes_part x then stat Capacity x else 0) stores)) (u64 (total (λ x, if takes_part x then stat Available x else 0) stores))
    (Z.of_nat (getOperatorCount (table c)))), s).
Proof.
  intros Hst. unfold GetSystem. cbn [pd_GetInitParams]. rewrite Hrun. cbn [negb]. set (sy0 := mkSystemInfo true _ _ _ _ _ _ _ _ _ _).
  destruct (add_stores_sums stores sy0) as (sy & -> & [S1 S2 S3 S4 [S5 S5'] S6 S7 S8 S9 S10]); [intros x [id Hx]%elem_of_range_values; by apply (Hst id)|by vm_compute..|].
  simpl. rewrite add_cells_counts by done. rewrite S1, S2, S3, S4, S5, S5', S6, S7, S8, S9, S10, !length_range_values. done.
Qed.
(** Of a cluster that runs, the API shows the state of the leader and changes nothing: the stores and the cells, each once
    and in the order of their ids; the cells of a store, which are those with a peer on it; how many there
    are of each kind and how much room there is; an unknown store or cell panics. *)
Theorem api_shows_cluster : pd_ok c → 
  (∃ l, ListStore s = (Ok l, s) ∧ StronglySorted store_le l ∧ NoDup ((λ a, Store_ID (as_Meta a)) <$> l) ∧ ∀ a, a ∈ l ↔ ∃ id st, sc c !! id = Some st ∧ shown_store st a) ∧
  (∃ l, ListCell s = (Ok l, s) ∧ StronglySorted cell_le l ∧ NoDup ((λ a, Cell_ID (ac_Meta a)) <$> l) ∧ ∀ a, a ∈ l ↔ ∃ id x, cells (cc c) !! id = Some x ∧ shown_cell x a) ∧
  (∀ storeID, ∃ l, ListCellInStore storeID s = (Ok l, s) ∧ StronglySorted cell_le l ∧ ∀ a, a ∈ l ↔ ∃ id x, cells (cc c) !! id = Some x ∧ (∃ p, p ∈ getPeers x ∧ Peer_StoreID p = storeID) ∧ shown_cell x a) ∧
  (∃ sy, GetSystem cfg NetOk s = (Ok sy, s) ∧ sy_StoreCount sy = Z.of_nat (size (sc c)) ∧ sy_CellCount sy = Z.of_nat (size (cells (cc c))) ∧
    sy_ReplicasNotFullCellCount sy = count not_full (range_values (cells (cc c))) ∧ sy_StorageCapacity sy = u64 (total (λ x, if takes_part x then stat Capacity x else 0) stores)) ∧
  (∀ id, (sc c !! id = None → GetStore id s = (Panic, s)) ∧ (cells (cc c) !! id = None → GetCell id s = (Panic, s))).
Proof.
  intros [H1 H2 H3]. split_and!; [by apply ListStore_shows|by apply ListCell_shows|intros id; apply ListCellInStore_shows|by eexists; split_and!; [by apply GetSystem_shows|..]|].
  intros id. unfold GetStore, GetCell. rewrite !reading_runs, getStore_lookup. unfold CellCache.getCell. split; by intros ->.
Qed.
End shown.
Lemma local_serve_header {A T B : Type} `{!MapOrder, !Regexp, !Json B} (cfg : Cfg) e (r : request) (s : @Server A T) : header_ok (rp_header (local_serve cfg e r s).1).
Proof.
  assert (rp_header (local_serve cfg e r s).1 = options) as ->; [unfold local_serve; case_bool_decide; [done|]; destruct (find_route cfg r) as [[id h]|]; [|done]; destruct (h e id r s) as [[res|] s']; done|].
  intros k vv Hk. unfold options in Hk. apply lookup_insert_Some in Hk as [[<- <-]|[_ Hk]]; [done|]. apply lookup_insert_Some in Hk as [[<- <-]|[_ Hk]]; [done|]. by apply lookup_singleton_Some in Hk as [<- <-].
Qed.

(** A client asks a server that does not lead for the stores. *)
#[local] Instance plain_json : Json bytes := {| json_loglevel _ := None; json_transfer _ := None; json_params _ := None; json_index _ := None |}.
#[local] Instance any_regexp : Regexp := {| re_compiles _ := true; re_match _ _ := true |}.
Definition api_store : StoreInfo := newStoreInfo (mkStore 2 "a" [] UP "b").
Definition api_cluster : CellCluster alloc_client (list CellItem) :=
  set_running true (set_sc {[ 2 := api_store ]} (set_cc wcache (newCellCluster race_client empty_meta))).
Definition api_server : @Server alloc_client (list CellItem) := mkServer (mkPd api_cluster None) ∅.
Definition list_stores : request := mkRequest (B := bytes) "GET" ["pd"; "api"; "v1"; "stores"]%string false None.
Definition api_members : gmap nat member :=
  {[ 0%nat := mkMember "pd0" false (Ok (Some (mkLeader 1 "pd1" "r" "x,y"))) [ReqLost; Delivered]; 1%nat := mkMember "pd1" true (Ok None) [] ]}.
Definition api_local (j : nat) (w : @Server alloc_client (list CellItem)) : response * @Server alloc_client (list CellItem) := local_serve wcfg (mkCallEnv NetOk 0) list_stores w.
Definition api_hosts (h : string) : option nat := if bool_decide (h = "y"%string) then Some 1%nat else Some 0%nat.
Lemma api_names j mb : api_members !! j = Some mb → mb_name mb ≠ ""%string.
Proof. unfold api_members. intros Hj. apply lookup_insert_Some in Hj as [[<- <-]|[_ Hj]]; [done|]. by apply lookup_singleton_Some in Hj as [<- <-]. Qed.
Lemma api_fates mb : api_members !! 0%nat = Some mb → Forall (λ a, a = ReqLost ∨ a = Delivered) (mb_fates mb).
Proof. unfold api_members. rewrite lookup_insert_eq. intros [= <-]. constructor; [by left|constructor; [by right|constructor]]. Qed.
Lemma api_headers j w : header_ok (rp_header (api_local j w).1).
Proof. apply local_serve_header. Qed.
Lemma redirected_once_witness : (ServeHTTP api_local Some api_hosts api_members 5 0 "" api_server).1.2 = [1%nat] ∧ (length (ServeHTTP api_local Some api_hosts api_members 5 0 "" api_server).1.2 ≤ 1)%nat.
Proof. split; [vm_compute; reflexivity|]. exact (proj2 (proj2 (redirected_once api_local Some api_hosts api_members api_headers 0 5 api_server api_names ltac:(lia))) api_fates). Defined.
Lemma api_cluster_ok : pd_ok (sv_cluster api_server).
Proof.
  split; [| |apply reachable_cache_inv, wcache_reachable]; intros id x Hx; change (sc (sv_cluster api_server)) with ({[ 2 := api_store ]} : storeCache) in Hx; by apply lookup_singleton_Some in Hx as [<- <-].
Qed.
Lemma api_shows_cluster_witness : ∃ l, ListStore api_server = (Ok l, api_server) ∧ StronglySorted store_le l.
Proof. destruct (api_shows_cluster wcfg api_server eq_refl api_cluster_ok) as ((l & H1 & H2 & _) & _). exists l. split; [exact H1|exact H2]. Defined.
