(* ===== verification/Query.v ===== *)
(** * Queries on the secondary index

    pkg/raftstore/store_query.go: a store that is asked by a proxy asks the stores of
    the leaders of all cells, collects their answers and asks another replicate of a
    cell that is gone; a store that is asked by a store selects from the indexers of its cells and
    reads the documents.  The types are those of querypb, of store.go and of the vendored
    ordered array; the parser of queries and the indexers are parameters.  What a store sends is
    a list of outputs. *)

From S2P Require Import Prelude Encoding Meta Keys Strconv Heap Index RaftTypes RedisExec Snapshot PeerLoop.

(** ** Messages *)
Record UintPred := mkUintPred { up_Name : bytes; up_Low : Z; up_High : Z }.
Record StrPred := mkStrPred { sp_Name : bytes; sp_ContWord : bytes }.
Record QueryReq := mkQueryReq {
  qr_UUID : bytes;
  qr_SessionID : Z;
  qr_ToStore : Z;
  qr_FromStore : Z;
  qr_Cells : list Z;
  qr_Index : bytes;
  qr_UintPreds : list UintPred;
  qr_StrPreds : list StrPred;
  qr_Limit : Z;
  qr_OrderBy : bytes;
}.
Record QueryRsp := mkQueryRsp {
  qs_UUID : bytes;
  qs_ToStore : Z;
  qs_FromStore : Z;
  qs_Cells : list Z;
  qs_Error : option ErrorPb;
  qs_Docs : list Document;
}.
(** cql: a query that was parsed; a field has at most one predicate. *)
Record CqlSelect := mkSelect {
  cs_Index : bytes;
  cs_UintPreds : gmap bytes UintPred;
  cs_StrPreds : gmap bytes StrPred;
  cs_OrderBy : bytes;
  cs_Limit : Z;
}.

(** ** The vendored ordered array *)
(** A capacity that is not positive is none. *)
Section ordered.
Context {A : Type} `{!Inhabited A} `{!Item A} `{!Sorter}.
Definition ordered_new (capacity : Z) : OrderedArray (A := A) := mkOA [] capacity.
Definition ordered_put1 (oa : OrderedArray) (x : A) : OrderedArray :=
  if bool_decide (0 < oa_capacity oa ∧ oa_capacity oa ≤ Z.of_nat (length (oa_items oa))) then
    match oa_items oa with
    | [] => oa
    | y :: h => if bool_decide (0 < Compare y x) then mkOA (heap_Fix descending 0 (x :: h)) (oa_capacity oa) else oa
    end
  else mkOA (heap_Push descending x (oa_items oa)) (oa_capacity oa).
Definition ordered_Put (xs : list A) (oa : OrderedArray) : OrderedArray := foldl ordered_put1 oa xs.
Definition ordered_Merge (other oa : OrderedArray) : OrderedArray := ordered_Put (oa_items other) oa.
End ordered.
(** [Compare] of documents and of points: the difference of the first values that differ, as a
    uint64 that becomes an int.  Documents of one query have as many values. *)
Definition order_compare (a b : list Z) : option Z :=
  match filter (λ xy, xy.1 ≠ xy.2) (zip a b) with [] => None | (x, y) :: _ => Some (i64 (u64 (x - y))) end.
#[export] Instance DocPtr_Compare : Item Document := λ d d2, default 0 (order_compare (Doc_Order d) (Doc_Order d2)).
#[export] Instance Document_inhabited : Inhabited Document := populate (mkDocument [] [] []).
Record Point := mkPoint { pt_Vals : list Z; pt_UserData : Z }.
#[export] Instance Point_Compare : Item Point := λ p q, default (i64 (u64 (pt_UserData p - pt_UserData q))) (order_compare (pt_Vals p) (pt_Vals q)).
#[export] Instance Point_inhabited : Inhabited Point := populate (mkPoint [] 0).

(** ** What queries rely on *)
(** What a selection of an indexer finds: the ids of documents, or points in order. *)
Record QueryResult := mkResult { res_Bm : gset Z; res_Oa : OrderedArray (A := Point) }.
Class Selector (I : Type) := Select : CqlSelect → I → option QueryResult.

(** ** The state of a query *)
Record QueryState := mkState {
  st_qr : QueryReq;
  st_cellIDToStores : gmap Z (list Z);
  st_storeIDToCells : gmap Z (list Z);
  st_doneCells : list Z;
  st_errorResults : list bytes;
  st_docs : list Document;
  st_docsOa : OrderedArray (A := Document);
}.
(** The message for a cell no store has. *)
Definition cell_failed (cellID : Z) : bytes :=
  [x63; x65; x6c; x6c; x20] ++ uint_text cellID ++
  [x20; x66; x61; x69; x6c; x65; x64; x20; x6f; x6e; x20; x61; x6c; x6c; x20; x73; x74; x6f; x72; x65; x73].
(** The answer to the proxy. *)
Record QueryAnswer := mkAnswer { an_UUID : bytes; an_SessionID : Z; an_Docs : list Document; an_Errors : list bytes }.
Inductive qout := SendReq (r : QueryReq) | SendRsp (r : QueryRsp) | Answer (a : QueryAnswer).
(** A request of a proxy ([cb] is set), a request of a store, a response of a store. *)
Inductive qevent := ProxyQuery (qr : QueryReq) | StoreQuery (qr : QueryReq) | Response (rsp : QueryRsp).
Record qstore (S I : Type) := mkQStore {
  q_id : Z;
  q_cellIDToStores : gmap Z (list Z);
  q_storeIDToCells : gmap Z (list Z);
  q_syncEpoch : Z;
  q_states : gmap bytes QueryState;
  q_indexers : gmap Z I;
  q_engines : Z → S;
}.
Arguments mkQStore {S I} _ _ _ _ _ _ _.
Arguments q_id {S I} _.
Arguments q_cellIDToStores {S I} _.
Arguments q_storeIDToCells {S I} _.
Arguments q_syncEpoch {S I} _.
Arguments q_states {S I} _.
Arguments q_indexers {S I} _.
Arguments q_engines {S I} _ _.

(** ** The query of a proxy *)
Section convert.
Context `{!NameOrder}.
Inductive statement := SSelect (s : CqlSelect) | SOther.
Inductive qerror := ErrCql | ErrInvalidClause | ErrEngineFailed | ErrNoKey | ErrNoTarget.
Fixpoint join_cmd (cmd : list bytes) : bytes :=
  match cmd with [] => [] | [c] => c | c :: cmd' => c ++ x20 :: join_cmd cmd' end.
Definition convertToQueryReq (ParseCql : bytes → option statement) (req : Request) : outcome qerror QueryReq :=
  match ParseCql (join_cmd (Req_Cmd req)) with
  | None => Err ErrCql
  | Some SOther => Err ErrInvalidClause
  | Some (SSelect r) =>
      Ok (mkQueryReq (Req_UUID req) (Req_SessionID req) 0 0 [] (cs_Index r) (name_range (cs_UintPreds r)).*2 (name_range (cs_StrPreds r)).*2 (u64 (cs_Limit r)) (cs_OrderBy r))
  end.
(** What [OnProxyReq] asks before it hands a query on. *)
Definition queryable (ParseCql : bytes → option statement) (req : Request) : bool := match convertToQueryReq ParseCql req with Ok _ => true | _ => false end.
End convert.
Definition convertToCql (qr : QueryReq) : CqlSelect :=
  mkSelect (qr_Index qr) (foldl (λ m p, <[up_Name p := p]> m) ∅ (qr_UintPreds qr)) (foldl (λ m p, <[sp_Name p := p]> m) ∅ (qr_StrPreds qr)) (qr_OrderBy qr) (i64 (qr_Limit qr)).

(** ** Steps of a store *)
Section store.
Context {S I : Type} `{!KVEngine S, !HashEngine S, !Selector I, !MapOrder, !Sorter}.
(** [engines]: how many engines there are, [enginesMask] says which one a cell has; [target]: the
    cell of a key ([getTargetCell]). *)
Context (engines : Z) (enginesMask : Z) (target : bytes → option Z).
Abbreviation qst := (qstore S I).
Definition with_states (x : gmap bytes QueryState) (s : qst) : qst := mkQStore (q_id s) (q_cellIDToStores s) (q_storeIDToCells s) (q_syncEpoch s) x (q_indexers s) (q_engines s).

(** The request for cells of another store. *)
Definition ask_store (qr : QueryReq) (self to : Z) (cells : list Z) : QueryReq :=
  mkQueryReq (qr_UUID qr) 0 to self cells (qr_Index qr) (qr_UintPreds qr) (qr_StrPreds qr) (qr_Limit qr) (qr_OrderBy qr).
Definition cap_limit (qr : QueryReq) : QueryReq :=
  if bool_decide (1000 < i64 (qr_Limit qr)) then mkQueryReq (qr_UUID qr) (qr_SessionID qr) (qr_ToStore qr) (qr_FromStore qr) (qr_Cells qr) (qr_Index qr) (qr_UintPreds qr) (qr_StrPreds qr) 1000 (qr_OrderBy qr) else qr.
(** [make] panics when its capacity is negative. *)
Definition start_query (qr : QueryReq) (s : qst) : outcome qerror (list qout * qst) :=
  let qr := cap_limit qr in
  if bool_decide (i64 (qr_Limit qr) < 0) then Panic
  else
    let st := mkState qr (q_cellIDToStores s) (q_storeIDToCells s) [] [] [] (ordered_new (i64 (qr_Limit qr))) in
    Ok ((λ '(storeID, cells), SendReq (ask_store qr (q_id s) storeID cells)) <$> map_range (st_storeIDToCells st), with_states (<[qr_UUID qr := st]> (q_states s)) s).
(** A query that [OnProxyReq] (Store) put on the channel, converted there ([queryable]). *)
Definition proxy_query `{!NameOrder} (ParseCql : bytes → option statement) (req : Request) (s : qst) : outcome qerror (list qout * qst) :=
  let! qr := convertToQueryReq ParseCql req in start_query qr s.

(** *** A query of a store *)
Definition readDocument (s : qst) (docID : Z) : outcome qerror Document :=
  match KV_Get (getDocIDKey docID) (getEngine enginesMask 1 (q_engines s)) with
  | inl _ => Err ErrEngineFailed
  | inr dataKey =>
      if bool_decide (default [] dataKey = []) then Err ErrNoKey
      else
        match getOriginKey (default [] dataKey) with
        | Ok key =>
            let! cellID := if bool_decide (1 < engines) then match target key with Some c => Ok c | None => Err ErrNoTarget end else Ok 0 in
            match HGetAll (default [] dataKey) (getEngine enginesMask cellID (q_engines s)) with
            | inl _ => Err ErrEngineFailed
            | inr fvs => Ok (mkDocument [] key (flatten (default [] fvs)))
            end
        | _ => Panic
        end
  end.
(** Documents that cannot be read are left out. *)
Fixpoint read_documents (s : qst) (docs : list (Z * list Z)) : outcome qerror (list Document) :=
  match docs with
  | [] => Ok []
  | (docID, order) :: docs' =>
      match readDocument s docID with
      | Ok d => let! ds := read_documents s docs' in Ok (mkDocument order (Doc_Key d) (Doc_FvPairs d) :: ds)
      | Err _ => read_documents s docs'
      | Panic => Panic
      end
  end.
Definition merge_result (a b : QueryResult) : QueryResult := mkResult (res_Bm a ∪ res_Bm b) (ordered_Merge (res_Oa b) (res_Oa a)).
(** An indexer whose selection fails is left out. *)
Definition select_all (cs : CqlSelect) (limit : Z) (idxers : list I) : QueryResult :=
  foldl (λ acc i, match Select cs i with Some r => merge_result acc r | None => acc end) (mkResult ∅ (ordered_new limit)) idxers.
(** [Bits]: the ids in ascending order. *)
Definition bits (bm : gset Z) : list Z := merge_sort Z.le (elements bm).
Definition found (qr : QueryReq) (r : QueryResult) : list (Z * list Z) :=
  if bool_decide (qr_OrderBy qr = []) then (λ d, (d, [])) <$> take (Z.to_nat (i64 (qr_Limit qr))) (bits (res_Bm r))
  else (λ p, (pt_UserData p, pt_Vals p)) <$> (OA_Finalize (res_Oa r)).1.
Definition answer_query (qr : QueryReq) (s : qst) : outcome qerror (list qout * qst) :=
  let gone := filter (λ c, q_indexers s !! c = None) (qr_Cells qr) in
  let norm := filter (λ c, is_Some (q_indexers s !! c)) (qr_Cells qr) in
  let reply cells err docs := SendRsp (mkQueryRsp (qr_UUID qr) (qr_FromStore qr) (q_id s) cells err docs) in
  let goneOut := if bool_decide (gone = []) then [] else [reply gone (Some (CellNotFound 0)) []] in
  if bool_decide (norm = []) then Ok (goneOut, s)
  else
    let storeQR := select_all (convertToCql qr) (i64 (qr_Limit qr)) (omap (λ c, q_indexers s !! c) norm) in
    if bool_decide (i64 (qr_Limit qr) < 0) then Panic
    else let! docs := read_documents s (found qr storeQR) in Ok (goneOut ++ [reply norm None docs], s).

(** *** A response of a store *)
(** A cell whose replicate is gone is asked for on another store, as long as there is one. *)
Definition failed_cell (self : Z) (acc : list qout * QueryState) (cell : Z) : list qout * QueryState :=
  let '(outs, st) := acc in
  match st_cellIDToStores st !! cell with
  | None => acc
  | Some (storeID :: storeIDs) =>
      (outs ++ [SendReq (ask_store (st_qr st) self storeID [cell])],
       mkState (st_qr st) (<[cell := storeIDs]> (st_cellIDToStores st)) (st_storeIDToCells st) (st_doneCells st) (st_errorResults st) (st_docs st) (st_docsOa st))
  | Some [] =>
      (outs, mkState (st_qr st) (st_cellIDToStores st) (st_storeIDToCells st) (st_doneCells st ++ [cell])
               (st_errorResults st ++ [cell_failed cell]) (st_docs st) (st_docsOa st))
  end.
Definition collect (docs : list Document) (cells : list Z) (st : QueryState) : QueryState :=
  if bool_decide (qr_OrderBy (st_qr st) = []) then
    mkState (st_qr st) (st_cellIDToStores st) (st_storeIDToCells st) (st_doneCells st ++ cells) (st_errorResults st)
      (take (Z.to_nat (i64 (qr_Limit (st_qr st)))) (st_docs st ++ docs)) (st_docsOa st)
  else mkState (st_qr st) (st_cellIDToStores st) (st_storeIDToCells st) (st_doneCells st ++ cells) (st_errorResults st) (st_docs st) (ordered_Put docs (st_docsOa st)).
Definition query_done (st : QueryState) : bool :=
  bool_decide (size (st_cellIDToStores st) = length (st_doneCells st)) ||
  (bool_decide (qr_OrderBy (st_qr st) = []) && bool_decide (i64 (qr_Limit (st_qr st)) ≤ Z.of_nat (length (st_docs st)))).
Definition final_answer (st : QueryState) : QueryAnswer :=
  mkAnswer (qr_UUID (st_qr st)) (qr_SessionID (st_qr st))
    (if bool_decide (qr_OrderBy (st_qr st) = []) then st_docs st else (OA_Finalize (st_docsOa st)).1) (st_errorResults st).
(** A response whose query is not known leaves [state] nil, which is read all the same. *)
Definition handle_response (rsp : QueryRsp) (s : qst) : outcome qerror (list qout * qst) :=
  match q_states s !! qs_UUID rsp with
  | None => Panic
  | Some st =>
      let '(outs, st) :=
        match qs_Error rsp with
        | Some _ => foldl (failed_cell (q_id s)) ([], st) (qs_Cells rsp)
        | None => ([], collect (qs_Docs rsp) (qs_Cells rsp) st)
        end in
      if query_done st then Ok (outs ++ [Answer (final_answer st)], with_states (delete (qr_UUID (st_qr st)) (q_states s)) s)
      else Ok (outs, with_states (<[qs_UUID rsp := st]> (q_states s)) s)
  end.
Definition readyToServeQuery (e : qevent) (s : qst) : outcome qerror (list qout * qst) :=
  match e with
  | ProxyQuery qr => start_query qr s
  | StoreQuery qr => answer_query qr s
  | Response rsp => handle_response rsp s
  end.

(** *** Where the cells are *)
Definition add_range (m : gmap Z (list Z) * gmap Z (list Z)) (r : Range) : gmap Z (list Z) * gmap Z (list Z) :=
  let cellID := Cell_ID (Range_Cell r) in
  let storeID := match LeaderStore r with Some st => Store_ID st | None => 0 end in
  (<[cellID := filter (λ id, id ≠ storeID) (Peer_StoreID <$> Peers (Range_Cell r))]> m.1, <[storeID := default [] (m.2 !! storeID) ++ [cellID]]> m.2).
(** [getSyncEpoch] is read before the lock is taken; [None]: PD does not answer. *)
Definition refreshRanges (old : Z) (ranges : option (list Range)) (s : qst) : outcome qerror unit * qst :=
  if bool_decide (old < q_syncEpoch s) then (Ok tt, s)
  else
    match ranges with
    | None => (Err ErrEngineFailed, s)
    | Some rs =>
        let m := foldl add_range (∅, ∅) rs in
        (Ok tt, mkQStore (q_id s) m.1 m.2 (u64 (q_syncEpoch s + 1)) (q_states s) (q_indexers s) (q_engines s))
    end.
End store.
