(* ===== verification/QueryProps.v ===== *)
(** * Theorems on queries

    A query is answered once, with the documents its cells answered, after a bounded number of
    responses; a response that comes later stops the store.  A query keeps its meaning on the way
    to other stores; the ranges a store fetches from PD name every cell once. *)

From S2P Require Import Prelude Store Encoding Meta Keys Strconv Heap Index RaftTypes RedisExec Snapshot PeerLoop Query.

Section props.
Context {S I : Type} `{!KVEngine S, !HashEngine S, !Selector I, !MapOrder, !Sorter}.
Context (engines : Z) (enginesMask : Z) (target : bytes → option Z).
Abbreviation qst := (qstore S I).

(** ** Answers *)
Definition asked (outs : list qout) : list Z := concat (omap (λ o, match o with SendReq r => Some (qr_Cells r) | _ => None end) outs).
Definition answers (outs : list qout) : list QueryAnswer := omap (λ o, match o with Answer a => Some a | _ => None end) outs.
Lemma asked_app a b : asked (a ++ b) = asked a ++ asked b.
Proof. unfold asked. by rewrite omap_app, concat_app. Qed.
Lemma answers_app a b : answers (a ++ b) = answers a ++ answers b.
Proof. apply omap_app. Qed.
Definition cells_of (m : gmap Z (list Z)) : list Z := (map_to_list m).*1.
(** Every cell has one leader, whose store has it in its list. *)
Definition ranges_ok (s : qst) : Prop := concat (map_range (q_storeIDToCells s)).*2 ≡ₚ cells_of (q_cellIDToStores s).
(** How many responses the cells may take: one of each replicate. *)
Definition weight (m : gmap Z (list Z)) (c : Z) : nat := Datatypes.S (length (default [] (m !! c))).
Definition weights (m : gmap Z (list Z)) (cells : list Z) : nat := sum_list_with (weight m) cells.
(** The documents a query asks for, of those that were found. *)
Definition best (qr : QueryReq) (docs : list Document) : list Document :=
  if bool_decide (qr_OrderBy qr = []) then take (Z.to_nat (i64 (qr_Limit qr))) docs else (OA_Finalize (ordered_Put docs (ordered_new (i64 (qr_Limit qr))))).1.
Definition event_uuid (e : qevent) : option bytes := match e with ProxyQuery qr => Some (qr_UUID qr) | StoreQuery _ => None | Response r => Some (qs_UUID r) end.

(** A query and what happens to it: [p] are the cells whose response is outstanding, [outs]
    what was sent for it, [ds] the documents of its responses, [n] their number.  A response is for some of
    the cells that are outstanding; other queries go on meanwhile. *)
Inductive running (qr : QueryReq) (s0 : qst) : list Z → qst → list qout → list Document → nat → Prop :=
  | run_start outs s : start_query qr s0 = Ok (outs, s) → running qr s0 (asked outs) s outs [] 0
  | run_response p p' s outs ds n rsp o s' : running qr s0 p s outs ds n → is_Some (q_states s !! qr_UUID qr) →
      qs_UUID rsp = qr_UUID qr → qs_Cells rsp ≠ [] → qs_Cells rsp ++ p' ≡ₚ p → handle_response rsp s = Ok (o, s') →
      running qr s0 (p' ++ asked o) s' (outs ++ o) (match qs_Error rsp with Some _ => ds | None => ds ++ qs_Docs rsp end) (Datatypes.S n)
  | run_other p s outs ds n e o s' : running qr s0 p s outs ds n → event_uuid e ≠ Some (qr_UUID qr) →
      readyToServeQuery engines enginesMask target e s = Ok (o, s') → running qr s0 p s' outs ds n
  | run_refresh p s outs ds n old ranges : running qr s0 p s outs ds n → running qr s0 p (refreshRanges old ranges s).2 outs ds n.

(** ** A response *)
(** The replicates of cells are gone. *)
Record failed_to (cells : list Z) (st st' : QueryState) (o : list qout) (d : list Z) : Prop := {
  ft_done : st_doneCells st' = st_doneCells st ++ d;
  ft_cells : asked o ++ d ≡ₚ cells;
  ft_answers : answers o = [];
  ft_dom : dom (st_cellIDToStores st') = dom (st_cellIDToStores st);
  ft_same : st_qr st' = st_qr st ∧ st_docs st' = st_docs st ∧ st_docsOa st' = st_docsOa st;
  ft_others c : c ∉ cells → st_cellIDToStores st' !! c = st_cellIDToStores st !! c;
  ft_weights : (weights (st_cellIDToStores st') (asked o) + length cells ≤ weights (st_cellIDToStores st) cells)%nat;
}.
Lemma weights_ext m m' cells : (∀ c, c ∈ cells → m !! c = m' !! c) → weights m cells = weights m' cells.
Proof.
  induction cells as [|c cells IH]; intros Hm; [done|]. unfold weights in *. cbn [sum_list_with]. unfold weight at 1 3. rewrite Hm by left. rewrite IH; [done|]. intros c' Hc'. apply Hm. by right.
Qed.
Lemma weights_app m a b : weights m (a ++ b) = (weights m a + weights m b)%nat.
Proof. apply sum_list_with_app. Qed.
Lemma weights_perm m a b : a ≡ₚ b → weights m a = weights m b.
Proof. intros Hp. unfold weights. by rewrite Hp. Qed.
Lemma weights_length m cells : (length cells ≤ weights m cells)%nat.
Proof. unfold weights. induction cells as [|c cells IH]; cbn [sum_list_with length]; [done|]. unfold weight at 1. lia. Qed.
Lemma failed_cells self cells : ∀ outs st, NoDup cells → (∀ c, c ∈ cells → is_Some (st_cellIDToStores st !! c)) →
  ∃ o st' d, foldl (failed_cell self) (outs, st) cells = (outs ++ o, st') ∧ failed_to cells st st' o d.
Proof.
  induction cells as [|c cells IH]; intros outs st Hnd Hin; cbn [foldl].
  { exists [], st, []. rewrite app_nil_r. split; [done|]. split; rewrite ?app_nil_r; done. }
  apply NoDup_cons in Hnd as [Hc Hnd]. destruct (Hin c ltac:(left)) as [stores Hs]. unfold failed_cell at 2. rewrite Hs. destruct stores as [|storeID storeIDs].
  - destruct (IH outs (mkState (st_qr st) (st_cellIDToStores st) (st_storeIDToCells st) (st_doneCells st ++ [c]) (st_errorResults st ++ [cell_failed c]) (st_docs st) (st_docsOa st)))
      as (o & st' & d & -> & [H1 H2 H3 H4 H5 H6 H7]); [done|intros c' Hc'; apply Hin; by right|]. cbn [st_doneCells st_cellIDToStores st_qr st_docs st_docsOa] in *.
    exists o, st', (c :: d). split; [done|]. split; [by rewrite H1, <-(assoc_L (++))|by rewrite <-Permutation_middle, H2|done|done|done|intros c' Hc'; apply H6; by intros ?; apply Hc'; right|].
    unfold weights in *. cbn [sum_list_with length]. unfold weight at 2. lia.
  - destruct (IH (outs ++ [SendReq (ask_store (st_qr st) self storeID [c])])
      (mkState (st_qr st) (<[c := storeIDs]> (st_cellIDToStores st)) (st_storeIDToCells st) (st_doneCells st) (st_errorResults st) (st_docs st) (st_docsOa st)))
      as (o & st' & d & -> & [H1 H2 H3 H4 H5 H6 H7]); [done| |].
    { intros c' Hc'. cbn. destruct (decide (c' = c)) as [->|Hne]; [rewrite lookup_insert_eq; by eexists|]. rewrite lookup_insert_ne by done. apply Hin. by right. }
    cbn [st_doneCells st_cellIDToStores st_qr st_docs st_docsOa] in *. exists (SendReq (ask_store (st_qr st) self storeID [c]) :: o), st', d. rewrite <-(assoc_L (++)). split; [done|].
    assert (asked (SendReq (ask_store (st_qr st) self storeID [c]) :: o) = c :: asked o) as Ha by done. split; rewrite ?Ha; [done|by rewrite <-H2|done| |done| |].
    + rewrite H4, dom_insert_L. apply elem_of_dom_2 in Hs. set_solver.
    + intros c' Hc'. rewrite H6 by (by intros ?; apply Hc'; right). rewrite lookup_insert_ne; [done|]. intros ->. apply Hc'. left.
    + rewrite (weights_ext (<[c := storeIDs]> (st_cellIDToStores st)) (st_cellIDToStores st) cells) in H7 by (intros c' Hc'; rewrite lookup_insert_ne; [done|]; by intros ->).
      unfold weights in *. cbn [sum_list_with length]. unfold weight at 1 3. rewrite (H6 c Hc), lookup_insert_eq, Hs. cbn [from_option id length]. lia.
Qed.

(** ** Other queries *)
(** Queries are kept by their UUID. *)
Definition keyed (s : qst) : Prop := ∀ u st, q_states s !! u = Some st → qr_UUID (st_qr st) = u.
Lemma cap_uuid qr : qr_UUID (cap_limit qr) = qr_UUID qr.
Proof. unfold cap_limit. by case_bool_decide. Qed.
Lemma answer_same qr (s s' : qst) o : answer_query engines enginesMask target qr s = Ok (o, s') → s' = s.
Proof.
  unfold answer_query. case_bool_decide; [by intros [= _ <-]|]. case_bool_decide; [done|]. destruct (read_documents _ _ _ _ _) as [docs| |]; cbn [outcome_bind]; [|done..]. by intros [= _ <-].
Qed.
(** What a response does to the queries. *)
Lemma response_cases rsp (s s' : qst) o : handle_response rsp s = Ok (o, s') →
  ∃ st st1 o1, q_states s !! qs_UUID rsp = Some st ∧
    (o1, st1) = match qs_Error rsp with Some _ => foldl (failed_cell (q_id s)) ([], st) (qs_Cells rsp) | None => ([], collect (qs_Docs rsp) (qs_Cells rsp) st) end ∧
    if query_done st1 then o = o1 ++ [Answer (final_answer st1)] ∧ s' = with_states (delete (qr_UUID (st_qr st1)) (q_states s)) s
    else o = o1 ∧ s' = with_states (<[qs_UUID rsp := st1]> (q_states s)) s.
Proof.
  unfold handle_response. destruct (q_states s !! qs_UUID rsp) as [st|]; [|done]. destruct (match qs_Error rsp with Some _ => _ | None => _ end) as [o1 st1] eqn:Heq.
  intros Hr. exists st, st1, o1. split_and!; [done|done|]. destruct (query_done st1); by injection Hr as <- <-.
Qed.
Lemma failed_qr self cells : ∀ acc, st_qr (foldl (failed_cell self) acc cells).2 = st_qr acc.2.
Proof.
  induction cells as [|c cells IH]; intros [outs st]; [done|]. cbn [foldl]. rewrite IH. unfold failed_cell. by destruct (st_cellIDToStores st !! c) as [[]|].
Qed.
Lemma collect_qr docs cells st : st_qr (collect docs cells st) = st_qr st.
Proof. unfold collect. by case_bool_decide. Qed.
Lemma response_qr rsp st st1 o1 self :
  (o1, st1) = match qs_Error rsp with Some _ => foldl (failed_cell self) ([], st) (qs_Cells rsp) | None => ([], collect (qs_Docs rsp) (qs_Cells rsp) st) end → st_qr st1 = st_qr st.
Proof.
  destruct (qs_Error rsp); [|intros [= _ ->]; apply collect_qr]. pose proof (failed_qr self (qs_Cells rsp) ([], st)) as Hq. intros Heq. by rewrite <-Heq in Hq.
Qed.
Lemma event_keyed e (s s' : qst) o : keyed s → readyToServeQuery engines enginesMask target e s = Ok (o, s') → keyed s'.
Proof.
  intros Hk. destruct e as [qr|qr|rsp]; cbn [readyToServeQuery].
  - unfold start_query. case_bool_decide; [done|]. intros [= _ <-] u st. cbn. intros [[<- <-]|[_ Hu]]%lookup_insert_Some; [done|by apply Hk].
  - by intros ->%answer_same.
  - intros (st & st1 & o1 & Hst & Heq & Hr)%response_cases. apply response_qr in Heq. destruct (query_done st1); destruct Hr as [_ ->]; intros u st2; cbn.
    + intros [_ Hu]%lookup_delete_Some. by apply Hk.
    + intros [[<- <-]|[_ Hu]]%lookup_insert_Some; [rewrite Heq; by apply Hk|by apply Hk].
Qed.
Lemma other_event e (s s' : qst) o u : keyed s → event_uuid e ≠ Some u → readyToServeQuery engines enginesMask target e s = Ok (o, s') → q_states s' !! u = q_states s !! u.
Proof.
  intros Hk He. destruct e as [qr|qr|rsp]; cbn [readyToServeQuery event_uuid] in *.
  - unfold start_query. case_bool_decide; [done|]. intros [= _ <-]. cbn. rewrite lookup_insert_ne; [done|]. rewrite cap_uuid. congruence.
  - by intros ->%answer_same.
  - intros (st & st1 & o1 & Hst & Heq & Hr)%response_cases. apply response_qr in Heq. destruct (query_done st1); destruct Hr as [_ ->]; cbn.
    + rewrite lookup_delete_ne; [done|]. rewrite Heq, (Hk _ _ Hst). congruence.
    + rewrite lookup_insert_ne; [done|]. congruence.
Qed.
Lemma refresh_states old ranges (s : qst) : q_states (refreshRanges old ranges s).2 = q_states s.
Proof. unfold refreshRanges. case_bool_decide; [done|]. by destruct ranges. Qed.

(** ** A query from its start to its answer *)
Record tracked (qr : QueryReq) (B : nat) (p : list Z) (st : QueryState) (outs : list qout) (ds : list Document) (n : nat) : Prop := {
  un_qr : st_qr st = cap_limit qr;
  un_cells : p ++ st_doneCells st ≡ₚ cells_of (st_cellIDToStores st);
  un_answers : answers outs = [];
  un_weights : (n + weights (st_cellIDToStores st) p ≤ B)%nat;
  un_docs : if bool_decide (qr_OrderBy (cap_limit qr) = []) then st_docs st = take (Z.to_nat (i64 (qr_Limit (cap_limit qr)))) ds
            else st_docsOa st = ordered_Put ds (ordered_new (i64 (qr_Limit (cap_limit qr))));
}.
Definition answered (qr : QueryReq) (outs : list qout) (ds : list Document) : Prop :=
  ∃ a, answers outs = [a] ∧ an_UUID a = qr_UUID qr ∧ an_SessionID a = qr_SessionID (cap_limit qr) ∧ an_Docs a = best (cap_limit qr) ds.
Lemma cells_nodup m : NoDup (cells_of m).
Proof. apply NoDup_fst_map_to_list. Qed.
Lemma cells_elem m c : c ∈ cells_of m ↔ is_Some (m !! c).
Proof.
  unfold cells_of. rewrite list_elem_of_fmap. split; [intros ([c' l] & -> & Hc%elem_of_map_to_list); by eexists|]. intros [l Hl]. exists (c, l). split; [done|]. by apply elem_of_map_to_list.
Qed.
Lemma cells_dom (m m' : gmap Z (list Z)) : dom m = dom m' → cells_of m ≡ₚ cells_of m'.
Proof.
  intros Hd. apply NoDup_Permutation; [apply cells_nodup..|]. intros c. by rewrite !cells_elem, <-!elem_of_dom, Hd.
Qed.
Lemma size_cells m : size m = length (cells_of m).
Proof. unfold cells_of. by rewrite length_fmap, length_map_to_list. Qed.
Lemma take_take_app {A} n (a b : list A) : take n (take n a ++ b) = take n (a ++ b).
Proof. rewrite !firstn_app, length_take, firstn_firstn. f_equal; f_equal; lia. Qed.
Lemma tracked_best qr B p st outs ds n : tracked qr B p st outs ds n → an_Docs (final_answer st) = best (cap_limit qr) ds.
Proof. intros [Hq _ _ _ Hd]. unfold final_answer, best. rewrite Hq. cbn [an_Docs]. case_bool_decide; by rewrite Hd. Qed.
(** The state after a response, before it is decided whether the query is done. *)
Lemma response_tracked qr B rsp p p' st outs ds n self o1 st1 :
  tracked qr B p st outs ds n → qs_Cells rsp ≠ [] → qs_Cells rsp ++ p' ≡ₚ p →
  (o1, st1) = match qs_Error rsp with Some _ => foldl (failed_cell self) ([], st) (qs_Cells rsp) | None => ([], collect (qs_Docs rsp) (qs_Cells rsp) st) end →
  tracked qr B (p' ++ asked o1) st1 (outs ++ o1) (match qs_Error rsp with Some _ => ds | None => ds ++ qs_Docs rsp end) (Datatypes.S n).
Proof.
  intros [Hq Hc Ha Hw Hd] Hne Hp Heq. rewrite <-(weights_perm _ _ _ Hp), weights_app in Hw. assert (1 ≤ length (qs_Cells rsp))%nat as Hl by (destruct (qs_Cells rsp); [done|simpl; lia]).
  destruct (qs_Error rsp).
  - pose proof (cells_nodup (st_cellIDToStores st)) as Hnd. rewrite <-Hc, <-Hp in Hnd. apply NoDup_app in Hnd as (Hnd & _ & _). apply NoDup_app in Hnd as (Hnd & Hdis & _).
    destruct (failed_cells self (qs_Cells rsp) [] st Hnd) as (o & st' & d & Hf & [H1 H2 H3 H4 (H5 & H6 & H7) H8 H9]).
    { intros c Hcin. apply cells_elem. rewrite <-Hc, <-Hp, !elem_of_app. by left; left. }
    rewrite Hf in Heq. injection Heq as -> ->. cbn [app]. split.
    + by rewrite H5.
    + rewrite H1, (cells_dom _ _ H4), <-Hc, <-Hp, <-H2. solve_Permutation.
    + by rewrite answers_app, Ha, H3.
    + rewrite weights_app, (weights_ext _ (st_cellIDToStores st) p'); [lia|]. intros c Hcin. apply H8. intros Hcin'. by apply (Hdis c).
    + rewrite H6, H7. exact Hd.
  - injection Heq as -> ->. assert (asked [] = []) as -> by done. rewrite app_nil_r.
    assert (Hm : st_cellIDToStores (collect (qs_Docs rsp) (qs_Cells rsp) st) = st_cellIDToStores st ∧ st_doneCells (collect (qs_Docs rsp) (qs_Cells rsp) st) = st_doneCells st ++ qs_Cells rsp).
    { unfold collect. by destruct (bool_decide (qr_OrderBy (st_qr st) = [])). }
    destruct Hm as [Hm Hdone]. split; rewrite ?Hm, ?Hdone, ?app_nil_r; [by rewrite collect_qr|rewrite <-Hc, <-Hp; solve_Permutation|done| |].
    + pose proof (weights_length (st_cellIDToStores st) (qs_Cells rsp)). lia.
    + unfold collect. rewrite Hq. destruct (bool_decide (qr_OrderBy (cap_limit qr) = [])); cbn [st_docs st_docsOa]; rewrite Hd; [apply take_take_app|]. unfold ordered_Put. by rewrite foldl_app.
Qed.
Definition responses_bound (s : qst) : nat := weights (q_cellIDToStores s) (cells_of (q_cellIDToStores s)).
Definition phase (qr : QueryReq) (B : nat) (p : list Z) (s : qst) (outs : list qout) (ds : list Document) (n : nat) : Prop :=
  match q_states s !! qr_UUID qr with
  | Some st => tracked qr B p st outs ds n ∧ p ≠ []
  | None => answered qr outs ds ∧ (n ≤ B)%nat
  end.
Lemma start_phase qr (s s' : qst) outs : ranges_ok s → q_cellIDToStores s ≠ ∅ → start_query qr s = Ok (outs, s') → phase qr (responses_bound s) (asked outs) s' outs [] 0.
Proof.
  intros Hr Hne. unfold start_query. case_bool_decide; [done|]. intros [= <- <-]. unfold phase. cbn [q_states with_states]. rewrite cap_uuid, lookup_insert_eq.
  assert (∀ l : list (Z * list Z), asked ((λ '(storeID, cells), SendReq (ask_store (cap_limit qr) (q_id s) storeID cells)) <$> l) = concat l.*2) as Hasked.
  { intros l. induction l as [|[id cells] l IH]; [done|]. unfold asked in *. cbn. by rewrite IH. }
  assert (∀ l : list (Z * list Z), answers ((λ '(storeID, cells), SendReq (ask_store (cap_limit qr) (q_id s) storeID cells)) <$> l) = []) as Hno.
  { intros l. induction l as [|[id cells] l IH]; [done|]. unfold answers in *. cbn. by rewrite IH. }
  rewrite Hasked. split; [split|].
  - done.
  - cbn. by rewrite app_nil_r.
  - apply Hno.
  - cbn. unfold responses_bound. by rewrite (weights_perm _ _ _ Hr).
  - cbn. case_bool_decide; [by rewrite take_nil|done].
  - intros Hnil. apply Hne, map_to_list_empty_iff. unfold ranges_ok in Hr. cbn in Hnil. rewrite Hnil in Hr. symmetry in Hr. apply Permutation_nil_r in Hr. by apply fmap_nil_inv in Hr.
Qed.
Lemma response_phase qr B p p' (s s' : qst) outs ds n rsp o : phase qr B p s outs ds n → is_Some (q_states s !! qr_UUID qr) →
  qs_UUID rsp = qr_UUID qr → qs_Cells rsp ≠ [] → qs_Cells rsp ++ p' ≡ₚ p → handle_response rsp s = Ok (o, s') →
  phase qr B (p' ++ asked o) s' (outs ++ o) (match qs_Error rsp with Some _ => ds | None => ds ++ qs_Docs rsp end) (Datatypes.S n).
Proof.
  intros Hph [st Hst] Hu Hne Hp (st0 & st1 & o1 & Hst0 & Heq & Hr)%response_cases. unfold phase in Hph. rewrite Hu in *. rewrite Hst in *. injection Hst0 as <-.
  destruct Hph as [Htr _]. pose proof (response_tracked _ _ _ _ _ _ _ _ _ _ _ _ Htr Hne Hp Heq) as Htr1. pose proof Htr1 as [Hq Hc Ha Hw _]. unfold phase.
  destruct (query_done st1) eqn:Hd; destruct Hr as [-> ->]; cbn [q_states with_states].
  - rewrite Hq, cap_uuid, lookup_delete_eq. split; [|lia]. exists (final_answer st1). rewrite (assoc_L (++)), answers_app, Ha. split_and!; [done| | |by eapply tracked_best].
    + cbn. by rewrite Hq, cap_uuid.
    + cbn. by rewrite Hq.
  - rewrite lookup_insert_eq. split; [done|]. intros Hnil. rewrite Hnil in Hc. unfold query_done in Hd. apply orb_false_iff in Hd as [Hd%bool_decide_eq_false _]. apply Hd.
    rewrite size_cells. by rewrite <-Hc.
Qed.
Lemma running_phase qr s0 p s outs ds n : keyed s0 → ranges_ok s0 → q_cellIDToStores s0 ≠ ∅ → running qr s0 p s outs ds n → phase qr (responses_bound s0) p s outs ds n ∧ keyed s.
Proof.
  intros Hk Hr Hne Hrun. induction Hrun as [outs s Hs|p p' s outs ds n rsp o s' Hrun [IH Hks] Hst Hu Hcells Hp Hh|p s outs ds n e o s' Hrun [IH Hks] He Hs|p s outs ds n old ranges Hrun [IH Hks]].
  - split; [by apply start_phase|]. by eapply (event_keyed (ProxyQuery qr)).
  - split; [by eapply response_phase|]. by eapply (event_keyed (Response rsp)).
  - split; [|by eapply event_keyed]. unfold phase in *. by rewrite (other_event e s s' o).
  - unfold phase, keyed in *. by rewrite refresh_states.
Qed.
(** Without ranges nothing is asked. *)
Lemma running_nowhere qr s0 p s outs ds n : keyed s0 → ranges_ok s0 → q_cellIDToStores s0 = ∅ → running qr s0 p s outs ds n → p = [] ∧ answers outs = [] ∧ is_Some (q_states s !! qr_UUID qr) ∧ keyed s.
Proof.
  intros Hk Hr He Hrun. induction Hrun as [outs s Hs|p p' s outs ds n rsp o s' Hrun (IH & _ & _ & _) Hst Hu Hcells Hp Hh|p s outs ds n e o s' Hrun (IH & Ha & Hst & Hks) He' Hs|p s outs ds n old ranges Hrun (IH & Ha & Hst & Hks)].
  - pose proof (event_keyed (ProxyQuery qr) s0 s outs Hk Hs) as Hks. unfold start_query in Hs. case_bool_decide; [done|]. injection Hs as <- <-.
    assert (∀ l : list (Z * list Z), asked ((λ '(storeID, cells), SendReq (ask_store (cap_limit qr) (q_id s0) storeID cells)) <$> l) = concat l.*2 ∧
      answers ((λ '(storeID, cells), SendReq (ask_store (cap_limit qr) (q_id s0) storeID cells)) <$> l) = []) as Ho.
    { intros l. induction l as [|[id cells] l [IH1 IH2]]; [done|]. unfold asked, answers in *. cbn. by rewrite IH1, IH2. }
    destruct (Ho (map_range (q_storeIDToCells s0))) as [Ho1 Ho2]. cbn [st_storeIDToCells]. rewrite Ho1, Ho2. split_and!; [|done|cbn [q_states with_states]; rewrite cap_uuid, lookup_insert_eq; by eexists|done].
    unfold ranges_ok, cells_of in Hr. rewrite He, map_to_list_empty in Hr. cbn in Hr. by apply Permutation_nil_r in Hr.
  - exfalso. subst p. apply Permutation_nil_r, app_eq_nil in Hp as [Hp _]. done.
  - split_and!; [done|done| |by eapply event_keyed]. by rewrite (other_event e s s' o).
  - unfold keyed in *. by rewrite refresh_states.
Qed.
(** C21. In a store whose ranges give every cell one store to ask, a query is answered exactly once: as long as its state is kept no answer
    was sent, some cell's response is outstanding, and there have been fewer responses than there
    are replicates; when the state is gone one answer was sent, with the documents that the query
    asks for of all those that were found.  This holds whatever other queries and refreshes happen, as long as the store does not stop; a
    response stops it if and only if its query is not kept any more, as that of a late response.  A query that comes before any range has been fetched asks nobody
    and is never answered. *)
Theorem query_answered qr s0 p s outs ds n : keyed s0 → ranges_ok s0 → running qr s0 p s outs ds n →
  (q_cellIDToStores s0 ≠ ∅ →
    match q_states s !! qr_UUID qr with
    | Some _ => answers outs = [] ∧ p ≠ [] ∧ (n < responses_bound s0)%nat
    | None => answered qr outs ds ∧ (n ≤ responses_bound s0)%nat
    end) ∧
  (q_cellIDToStores s0 = ∅ → p = [] ∧ answers outs = [] ∧ is_Some (q_states s !! qr_UUID qr)) ∧
  (∀ rsp, readyToServeQuery engines enginesMask target (Response rsp) s = Panic ↔ q_states s !! qs_UUID rsp = None).
Proof.
  intros Hk Hr Hrun. split_and!.
  - intros Hne. destruct (running_phase qr s0 p s outs ds n Hk Hr Hne Hrun) as [Hph _]. unfold phase in Hph. destruct (q_states s !! qr_UUID qr) as [st|]; [|done].
    destruct Hph as [[_ _ Ha Hw _] Hp]. split_and!; [done|done|]. destruct p as [|c p]; [done|]. pose proof (weights_length (st_cellIDToStores st) (c :: p)) as Hl. cbn [length] in Hl. lia.
  - intros He. destruct (running_nowhere qr s0 p s outs ds n Hk Hr He Hrun) as (? & ? & ? & _). done.
  - intros rsp. cbn [readyToServeQuery]. unfold handle_response. destruct (q_states s !! qs_UUID rsp) as [st|]; [|done]. split; [|done]. intros Hp. repeat case_match; done.
Qed.

(** ** Late responses *)
(** A query that has documents enough is answered before the last of its stores has responded,
    and the next response to it stops the store: its state is gone, and the store reads
    the state of no query. *)
Theorem late_response_stops_store qr s0 p p' s outs ds n rsp late :
  keyed s0 → ranges_ok s0 → q_cellIDToStores s0 ≠ ∅ → running qr s0 p s outs ds n → is_Some (q_states s !! qr_UUID qr) →
  qr_OrderBy qr = [] → qs_UUID rsp = qr_UUID qr → qs_Error rsp = None → qs_Cells rsp ≠ [] → qs_Cells rsp ++ p' ≡ₚ p →
  i64 (qr_Limit (cap_limit qr)) ≤ Z.of_nat (length (qs_Docs rsp)) → 0 ≤ i64 (qr_Limit (cap_limit qr)) → qs_UUID late = qr_UUID qr →
  ∃ o s', handle_response rsp s = Ok (o, s') ∧ answered qr (outs ++ o) (ds ++ qs_Docs rsp) ∧ readyToServeQuery engines enginesMask target (Response late) s' = Panic.
Proof.
  intros Hk Hr Hne Hrun Hst Ho Hu He Hcells Hp Hlim Hpos Hlate. destruct (running_phase qr s0 p s outs ds n Hk Hr Hne Hrun) as [Hph _]. pose proof Hst as [st Hst'].
  pose proof Hph as Hph'. unfold phase in Hph'. rewrite Hst' in Hph'. destruct Hph' as [[Hq _ _ _ _] _].
  assert (query_done (collect (qs_Docs rsp) (qs_Cells rsp) st) = true) as Hd.
  { assert (qr_OrderBy (cap_limit qr) = []) as Hoc by (unfold cap_limit; by case_bool_decide). unfold query_done, collect. rewrite Hq, (bool_decide_eq_true_2 (qr_OrderBy (cap_limit qr) = [])) by done. cbn [st_qr st_docs].
    rewrite ?Hq, ?(bool_decide_eq_true_2 (qr_OrderBy (cap_limit qr) = []) Hoc). apply orb_true_iff. right. cbn [andb].
    apply bool_decide_eq_true_2. rewrite length_take, length_app. lia. }
  assert (∃ o s', handle_response rsp s = Ok (o, s') ∧ q_states s' !! qr_UUID qr = None) as (o & s' & Hh & Hgone).
  { unfold handle_response. rewrite Hu, Hst', He, Hd. eexists _, _. split; [done|]. cbn [q_states with_states]. by rewrite collect_qr, Hq, cap_uuid, lookup_delete_eq. }
  exists o, s'. split_and!; [done| |].
  - pose proof (response_phase qr _ p p' s s' outs ds n rsp o Hph Hst Hu Hcells Hp Hh) as Hph2. unfold phase in Hph2. rewrite Hgone, He in Hph2. by destruct Hph2.
  - cbn [readyToServeQuery]. unfold handle_response. by rewrite Hlate, Hgone.
Qed.
(** A store that has not fetched the ranges yet, ten seconds after its start at the earliest, sends nothing for a
    query and never answers it. *)
Lemma query_without_ranges qr (s : qst) : q_storeIDToCells s = ∅ → 0 ≤ i64 (qr_Limit (cap_limit qr)) → ∃ s', start_query qr s = Ok ([], s') ∧ is_Some (q_states s' !! qr_UUID qr).
Proof.
  intros Hs Hl. unfold start_query. rewrite bool_decide_eq_false_2 by lia. cbn [st_storeIDToCells]. assert (map_range (q_storeIDToCells s) = []) as ->.
  { apply Permutation_nil_r. rewrite map_range_perm, Hs. by rewrite map_to_list_empty. }
  eexists. split; [done|]. cbn. rewrite cap_uuid, lookup_insert_eq. by eexists.
Qed.

(** ** The ranges of PD *)
Lemma add_leader (b : gmap Z (list Z)) k c : concat (map_to_list (<[k := default [] (b !! k) ++ [c]]> b)).*2 ≡ₚ c :: concat (map_to_list b).*2.
Proof.
  destruct (b !! k) as [l|] eqn:Hk; cbn [from_option id].
  - rewrite <-(insert_delete_id b k l Hk) at 2. rewrite <-insert_delete_eq. rewrite !map_to_list_insert by apply lookup_delete_eq. rewrite !fmap_cons. cbn [concat snd]. solve_Permutation.
  - rewrite map_to_list_insert by done. done.
Qed.
Lemma add_ranges_ok rs : ∀ a b : gmap Z (list Z), NoDup ((λ r, Cell_ID (Range_Cell r)) <$> rs) → (∀ r, r ∈ rs → a !! Cell_ID (Range_Cell r) = None) →
  concat (map_to_list b).*2 ≡ₚ cells_of a → concat (map_to_list (foldl add_range (a, b) rs).2).*2 ≡ₚ cells_of (foldl add_range (a, b) rs).1.
Proof.
  induction rs as [|r rs IH]; intros a b Hnd Hnew Hok; [done|]. cbn [foldl]. rewrite fmap_cons in Hnd. apply NoDup_cons in Hnd as [Hr Hnd]. apply IH; [done| |].
  - intros r' Hr'. cbn. rewrite lookup_insert_ne; [apply Hnew; by right|]. intros Heq. apply Hr. rewrite Heq. apply list_elem_of_fmap. by exists r'.
  - cbn. rewrite add_leader, Hok. unfold cells_of. rewrite map_to_list_insert by (apply Hnew; left). done.
Qed.
Lemma add_ranges_keep rs c : ∀ m, c ∉ (λ r, Cell_ID (Range_Cell r)) <$> rs → (foldl add_range m rs).1 !! c = m.1 !! c.
Proof.
  induction rs as [|r rs IH]; intros m Hc; [done|]. cbn [foldl]. rewrite fmap_cons, not_elem_of_cons in Hc. rewrite IH by tauto. cbn. rewrite lookup_insert_ne; [done|]. naive_solver.
Qed.
(** Ranges of cells with different ids, as PD has them, give every cell exactly one store to
    ask, that of its leader, and in reserve the stores of its other peers. *)
Theorem refresh_gives_every_cell old rs (s : qst) : q_syncEpoch s ≤ old → NoDup ((λ r, Cell_ID (Range_Cell r)) <$> rs) →
  ranges_ok (refreshRanges old (Some rs) s).2 ∧
  ∀ r st, r ∈ rs → LeaderStore r = Some st →
    q_cellIDToStores (refreshRanges old (Some rs) s).2 !! Cell_ID (Range_Cell r) = Some (filter (λ id, id ≠ Store_ID st) (Peer_StoreID <$> Peers (Range_Cell r))).
Proof.
  intros Hold Hnd. unfold refreshRanges. rewrite bool_decide_eq_false_2 by lia. cbn [snd q_cellIDToStores]. split.
  - unfold ranges_ok. cbn [q_cellIDToStores q_storeIDToCells]. rewrite map_range_perm. by apply add_ranges_ok.
  - intros r st Hr Hst. enough (∀ a b, NoDup ((λ r, Cell_ID (Range_Cell r)) <$> rs) → (foldl add_range (a, b) rs).1 !! Cell_ID (Range_Cell r) = Some (filter (λ id, id ≠ Store_ID st) (Peer_StoreID <$> Peers (Range_Cell r)))) as H3 by (by apply H3).
    clear Hnd. induction rs as [|r' rs IH]; intros a b Hnd; [by apply not_elem_of_nil in Hr|]. cbn [foldl]. rewrite fmap_cons in Hnd. apply NoDup_cons in Hnd as [Hr' Hnd].
    apply elem_of_cons in Hr as [<-|Hr]; [|by apply IH]. rewrite add_ranges_keep by done. cbn. by rewrite lookup_insert_eq, Hst.
Qed.

(** ** How many documents *)
Lemma length_up fuel : ∀ (A : Type) (Hi : Inhabited A) less j (h : list A), length (up_loop less fuel j h) = length h.
Proof. induction fuel as [|fuel IH]; intros; cbn [up_loop]; [done|]. destruct (bool_decide _ || _); [done|]. by rewrite IH, length_Swap. Qed.
Lemma length_down fuel : ∀ (A : Type) (Hi : Inhabited A) less i n (h : list A), length (down_loop less fuel i n h).2 = length h.
Proof.
  induction fuel as [|fuel IH]; intros; cbn [down_loop]; [done|]. repeat match goal with |- context [if ?b then _ else _] => destruct b end; rewrite ?IH, ?length_Swap; done.
Qed.
Lemma length_Push {A : Type} `{!Inhabited A} less x (h : list A) : length (heap_Push less x h) = Datatypes.S (length h).
Proof. unfold heap_Push, up. rewrite length_up, length_app. simpl. lia. Qed.
Lemma length_Fix {A : Type} `{!Inhabited A} less i (h : list A) : length (heap_Fix less i h) = length h.
Proof.
  unfold heap_Fix, down, up. pose proof (length_down (length h) _ _ less i (length h) h) as Hd. destruct (down_loop less (length h) i (length h) h) as [i' h']. cbn in Hd.
  case_bool_decide; [done|by rewrite length_up].
Qed.
Lemma length_put (x : Document) oa : 0 < oa_capacity oa → Z.of_nat (length (oa_items oa)) ≤ oa_capacity oa →
  Z.of_nat (length (oa_items (ordered_put1 oa x))) ≤ oa_capacity oa ∧ oa_capacity (ordered_put1 oa x) = oa_capacity oa.
Proof.
  intros Hc Hl. unfold ordered_put1. case_bool_decide as Hfull.
  - destruct (oa_items oa) as [|y h] eqn:Hi; [by rewrite Hi|]. case_bool_decide; cbn [oa_items oa_capacity]; [by rewrite length_Fix|by rewrite Hi].
  - cbn [oa_items oa_capacity]. rewrite length_Push. split; [lia|done].
Qed.
Lemma length_Put (ds : list Document) : ∀ oa, 0 < oa_capacity oa → Z.of_nat (length (oa_items oa)) ≤ oa_capacity oa → Z.of_nat (length (oa_items (ordered_Put ds oa))) ≤ oa_capacity oa.
Proof.
  induction ds as [|d ds IH]; intros oa Hc Hl; [done|]. unfold ordered_Put in *. cbn [foldl]. destruct (length_put d oa Hc Hl) as [Hl' Hc']. rewrite <-Hc' in *. by apply IH.
Qed.
(** An answer has no more documents than the query asks for, and no more than 1000, whatever
    the stores respond, unless the query sorts and its limit is 0. *)
Theorem answer_within_limit qr s0 p s outs ds n a :
  keyed s0 → ranges_ok s0 → q_cellIDToStores s0 ≠ ∅ → running qr s0 p s outs ds n → is_u64 (qr_Limit qr) → (qr_OrderBy qr = [] ∨ qr_Limit qr ≠ 0) →
  a ∈ answers outs → Z.of_nat (length (an_Docs a)) ≤ Z.min 1000 (qr_Limit qr).
Proof.
  intros Hk Hr Hne Hrun Hu64 Ho Ha. destruct (running_phase qr s0 p s outs ds n Hk Hr Hne Hrun) as [Hph _]. unfold phase in Hph. destruct (q_states s !! qr_UUID qr) as [st|].
  { destruct Hph as [[_ _ Hno _ _] _]. rewrite Hno in Ha. by apply not_elem_of_nil in Ha. }
  destruct Hph as [(a' & Ha' & _ & _ & Hdocs) _]. rewrite Ha' in Ha. apply list_elem_of_singleton in Ha as ->. rewrite Hdocs.
  assert (0 ≤ i64 (qr_Limit (cap_limit qr)) ≤ Z.min 1000 (qr_Limit qr) ∧ (qr_Limit qr ≠ 0 → 0 < i64 (qr_Limit (cap_limit qr))) ∧ qr_OrderBy (cap_limit qr) = qr_OrderBy qr) as (Hl & Hz & Hob).
  { assert (∃ outs1 s1, start_query qr s0 = Ok (outs1, s1)) as (? & ? & Hs) by (clear -Hrun; induction Hrun; eauto). unfold start_query in Hs. case_bool_decide as Hneg; [done|]. clear Hs.
    unfold cap_limit in *. unfold is_u64, i64, two64, two63 in *. case_bool_decide; cbn in *; split_and!; try done; try lia.
    all: Z.to_euclidean_division_equations; lia. }
  unfold best. rewrite Hob. case_bool_decide as Hb.
  - rewrite length_take. lia.
  - unfold OA_Finalize. cbn [fst]. rewrite (Sort_perm (λ x y, descending y x)). destruct Ho as [Ho|Ho]; [done|].
    pose proof (length_Put ds (ordered_new (i64 (qr_Limit (cap_limit qr))))) as Hp. cbn [ordered_new oa_capacity oa_items length] in Hp. specialize (Hp (Hz Ho)). lia.
Qed.

(** ** A query on its way *)
Section names.
Context {P : Type} (name : P → bytes).
Lemma collect_names (l : list P) : ∀ m0 : gmap bytes P, NoDup (name <$> l) → ∀ k,
  foldl (λ m p, <[name p := p]> m) m0 l !! k = match list_find (λ p, name p = k) l with Some (_, p) => Some p | None => m0 !! k end.
Proof.
  induction l as [|p l IH]; intros m0 Hnd k; [done|]. cbn [foldl list_find]. rewrite fmap_cons in Hnd. apply NoDup_cons in Hnd as [Hp Hnd]. rewrite IH by done.
  destruct (decide (name p = k)) as [<-|Hne].
  - destruct (list_find (λ p0, name p0 = name p) l) as [[i q]|] eqn:Hf; [|by rewrite lookup_insert_eq]. apply list_find_Some in Hf as (Hq & Hn & _).
    destruct Hp. rewrite <-Hn. apply list_elem_of_fmap. exists q. split; [done|]. by eapply list_elem_of_lookup_2.
  - destruct (list_find (λ p0, name p0 = k) l) as [[i q]|]; [done|]. by rewrite lookup_insert_ne.
Qed.
Lemma names_roundtrip `{!NameOrder} (m : gmap bytes P) : (∀ k p, m !! k = Some p → name p = k) → foldl (λ m p, <[name p := p]> m) ∅ (name_range m).*2 = m.
Proof.
  intros Hm. assert (∀ x, x ∈ (name_range m) → name x.2 = x.1) as Hx.
  { intros [k p] Hin. rewrite name_range_perm in Hin. apply elem_of_map_to_list in Hin. by apply Hm. }
  assert (name <$> (name_range m).*2 = (name_range m).*1) as Hn.
  { rewrite <-list_fmap_compose. apply list_fmap_ext. intros i x Hi. apply Hx. by eapply list_elem_of_lookup_2. }
  assert (NoDup (name <$> (name_range m).*2)) as Hnd. { rewrite Hn, name_range_perm. apply NoDup_fst_map_to_list. }
  apply map_eq. intros k. rewrite collect_names by done. destruct (list_find _ _) as [[i p]|] eqn:Hf.
  - apply list_find_Some in Hf as (Hp & <- & _). apply list_elem_of_lookup_2, list_elem_of_fmap in Hp as ([k q] & -> & Hin). pose proof (Hx _ Hin) as Hxk. cbn in *. rewrite Hxk. rewrite name_range_perm in Hin. symmetry. by apply elem_of_map_to_list in Hin.
  - apply list_find_None in Hf. rewrite lookup_empty. symmetry. destruct (m !! k) as [p|] eqn:Hk; [|done]. rewrite Forall_forall in Hf. destruct (Hf p); [|by apply Hm].
    apply list_elem_of_fmap. exists (k, p). split; [done|]. rewrite name_range_perm. by apply elem_of_map_to_list.
Qed.
End names.
(** What a proxy asks for is what the indexers of every store are asked for: the statement that was
    parsed is converted to a request, sent to a store and converted back unchanged, with a limit of at most 1000. *)
Theorem select_survives `{!NameOrder} ParseCql req cs qr self to cells :
  ParseCql (join_cmd (Req_Cmd req)) = Some (SSelect cs) → convertToQueryReq ParseCql req = Ok qr →
  (∀ k p, cs_UintPreds cs !! k = Some p → up_Name p = k) → (∀ k p, cs_StrPreds cs !! k = Some p → sp_Name p = k) → 0 ≤ cs_Limit cs < two63 →
  convertToCql (ask_store (cap_limit qr) self to cells) = mkSelect (cs_Index cs) (cs_UintPreds cs) (cs_StrPreds cs) (cs_OrderBy cs) (Z.min 1000 (cs_Limit cs)).
Proof.
  intros Hp Hc Hu Hs Hl. unfold convertToQueryReq in Hc. rewrite Hp in Hc. injection Hc as <-. unfold convertToCql, ask_store, cap_limit.
  assert (∀ x, 0 ≤ x < two63 → i64 x = x) as Hi by (intros x Hx; unfold i64, two63, two64 in *; rewrite Z.mod_small; lia).
  assert (u64 (cs_Limit cs) = cs_Limit cs) as Hu64 by (unfold u64, two64, two63 in *; apply Z.mod_small; lia).
  cbn [qr_Limit]. rewrite Hu64, (Hi (cs_Limit cs)) by done. case_bool_decide as Hb; cbn [qr_Index qr_UintPreds qr_StrPreds qr_OrderBy qr_Limit]; rewrite !names_roundtrip by done.
  - rewrite Hi by (unfold two63; lia). f_equal. lia.
  - rewrite Hi by done. f_equal. lia.
Qed.

(** ** The answer of a store *)
Definition responses (outs : list qout) : list QueryRsp := omap (λ o, match o with SendRsp r => Some r | _ => None end) outs.
Lemma filter_partition {A} (P Q : A → Prop) `{!∀ x, Decision (P x), !∀ x, Decision (Q x)} (l : list A) : (∀ x, P x ↔ ¬ Q x) → filter P l ++ filter Q l ≡ₚ l.
Proof.
  intros HPQ. induction l as [|x l IH]; [done|]. rewrite !filter_cons. destruct (decide (P x)) as [HP|HP], (decide (Q x)) as [HQ|HQ].
  - by apply HPQ in HP.
  - simpl. by rewrite IH.
  - by rewrite <-Permutation_middle, IH.
  - destruct HP. by apply HPQ.
Qed.
Lemma read_length (s : qst) l : ∀ ds, read_documents engines enginesMask target s l = Ok ds → (length ds ≤ length l)%nat.
Proof.
  induction l as [|[d o] l IH]; intros ds; cbn [read_documents]; [by intros [= <-]|]. destruct (readDocument _ _ _ s d); [|intros Hr; apply IH in Hr; simpl; lia|done].
  destruct (read_documents _ _ _ s l) as [ds'| |]; cbn [outcome_bind]; [|done..]. intros [= <-]. simpl. specialize (IH ds' eq_refl). lia.
Qed.
(** A store responds for every cell it is asked for, once, to the store that asks: for the
    cells it has an indexer of with documents, as many as the limit at most when they are not sorted, for the others
    with an error, which makes the asking store turn to another replicate. *)
Theorem store_answers_every_cell qr (s s' : qst) outs : answer_query engines enginesMask target qr s = Ok (outs, s') →
  s' = s ∧ length (responses outs) = length outs ∧ concat (qs_Cells <$> responses outs) ≡ₚ qr_Cells qr ∧
  ∀ r, r ∈ responses outs → qs_UUID r = qr_UUID qr ∧ qs_ToStore r = qr_FromStore qr ∧ qs_FromStore r = q_id s ∧ qs_Cells r ≠ [] ∧
    (∀ c, c ∈ qs_Cells r → (qs_Error r = None ↔ is_Some (q_indexers s !! c))) ∧
    (qr_OrderBy qr = [] → Z.of_nat (length (qs_Docs r)) ≤ Z.max 0 (i64 (qr_Limit qr))).
Proof.
  intros Ha. pose proof (answer_same _ _ _ _ Ha) as ->. split; [done|]. unfold answer_query in Ha.
  set (gone := filter (λ c, q_indexers s !! c = None) (qr_Cells qr)) in *. set (norm := filter (λ c, is_Some (q_indexers s !! c)) (qr_Cells qr)) in *.
  assert (gone ++ norm ≡ₚ qr_Cells qr) as Hp by (apply filter_partition; intros c; apply eq_None_not_Some).
  assert (∀ c, c ∈ gone → q_indexers s !! c = None) as Hg by (intros c Hc; by apply list_elem_of_filter in Hc as [? _]).
  assert (∀ c, c ∈ norm → is_Some (q_indexers s !! c)) as Hn by (intros c Hc; by apply list_elem_of_filter in Hc as [? _]).
  assert (∀ docs, (qr_OrderBy qr = [] → Z.of_nat (length docs) ≤ Z.max 0 (i64 (qr_Limit qr))) → norm ≠ [] →
    let r := mkQueryRsp (qr_UUID qr) (qr_FromStore qr) (q_id s) norm None docs in
    qs_UUID r = qr_UUID qr ∧ qs_ToStore r = qr_FromStore qr ∧ qs_FromStore r = q_id s ∧ qs_Cells r ≠ [] ∧ (∀ c, c ∈ qs_Cells r → (qs_Error r = None ↔ is_Some (q_indexers s !! c))) ∧
      (qr_OrderBy qr = [] → Z.of_nat (length (qs_Docs r)) ≤ Z.max 0 (i64 (qr_Limit qr)))) as Hnr by (intros docs Hd Hne; cbn; naive_solver).
  assert (gone ≠ [] → let r := mkQueryRsp (qr_UUID qr) (qr_FromStore qr) (q_id s) gone (Some (CellNotFound 0)) [] in
    qs_UUID r = qr_UUID qr ∧ qs_ToStore r = qr_FromStore qr ∧ qs_FromStore r = q_id s ∧ qs_Cells r ≠ [] ∧ (∀ c, c ∈ qs_Cells r → (qs_Error r = None ↔ is_Some (q_indexers s !! c))) ∧
      (qr_OrderBy qr = [] → Z.of_nat (length (qs_Docs r)) ≤ Z.max 0 (i64 (qr_Limit qr)))) as Hgr.
  { intros Hne. cbn. split_and!; [done..| |lia]. intros c Hc. rewrite (Hg c Hc). split; [done|]. by intros [? ?]. }
  clearbody gone norm. destruct (bool_decide (norm = [])) eqn:Hnil.
  - apply bool_decide_eq_true in Hnil as ->. injection Ha as <-. rewrite app_nil_r in Hp. case_bool_decide as Hgnil.
    + rewrite Hgnil in Hp. split_and!; [done|done|]. intros r Hr. by apply not_elem_of_nil in Hr.
    + split_and!; [done|cbn; by rewrite app_nil_r|]. intros r Hr. apply list_elem_of_singleton in Hr as ->. by apply Hgr.
  - apply bool_decide_eq_false in Hnil. case_bool_decide; [done|]. destruct (read_documents _ _ _ s _) as [docs| |] eqn:Hd; cbn [outcome_bind] in Ha; [|done..]. injection Ha as <-.
    assert (qr_OrderBy qr = [] → Z.of_nat (length docs) ≤ Z.max 0 (i64 (qr_Limit qr))) as Hlen.
    { intros Ho. apply read_length in Hd. unfold found in Hd. rewrite (bool_decide_eq_true_2 _ Ho), length_fmap, length_take in Hd. lia. }
    specialize (Hnr docs Hlen Hnil). case_bool_decide as Hgnil.
    + rewrite Hgnil in Hp. split_and!; [done|cbn; by rewrite app_nil_r|]. intros r Hr. by apply list_elem_of_singleton in Hr as ->.
    + split_and!; [done|cbn; by rewrite app_nil_r|]. intros r [->| ->%list_elem_of_singleton]%elem_of_cons; [by apply Hgr|done].
Qed.
End props.

(** ** From a proxy to the query loop *)
(** What [OnProxyReq] puts on the channel of the query loop was converted, and the loop serves it as [proxy_query] says. *)
Lemma proxied_query_served {E D T S I : Type} `{!BTree.OrderedTree CellTree.CellItem CellTree.Less T} `{!KVEngine S, !HashEngine S, !Selector I, !MapOrder, !Sorter, !NameOrder} (engines enginesMask : Z) (target : bytes → option Z)
    (ParseCql : bytes → option statement) (f : bytes → bytes) (req : Request) (cb : Z) (s s' : Store.Store E D T) (name : bytes) (args : list bytes) (q : qstore S I) :
  Req_Cmd req = name :: args → ToLower name = query_cmd → OnProxyReq f (queryable ParseCql) req cb s = Ok s' →
  s' = emit (SQuery req cb) s ∧ ∃ qr, convertToQueryReq ParseCql req = Ok qr ∧ proxy_query ParseCql req q = readyToServeQuery engines enginesMask target (ProxyQuery qr) q.
Proof.
  intros Hc Hq. unfold OnProxyReq. rewrite Hc, bool_decide_eq_true_2 by done. unfold queryable, proxy_query. destruct (convertToQueryReq ParseCql req) as [qr| |]; [|done..]. intros [= <-]. split; [done|]. by exists qr.
Qed.

(** ** The order of documents *)
(** Documents are compared by the difference of their values as a signed number of 64 bits,
    which orders values less than 2^63 apart; a value that is larger by 2^63 or more comes first. *)
Theorem document_order x y key key' fvs fvs' : is_u64 x → is_u64 y →
  Compare (mkDocument [x] key fvs) (mkDocument [y] key' fvs') < 0 ↔ (x < y ∧ y - x ≤ two63) ∨ two63 ≤ x - y.
Proof.
  unfold is_u64, Compare, DocPtr_Compare, order_compare. cbn [Doc_Order zip zip_with]. intros Hx Hy. rewrite filter_cons. cbn [fst snd]. destruct (decide (x ≠ y)) as [Hne|Heq].
  - cbn [from_option id]. unfold i64, u64, two63, two64 in *. Z.to_euclidean_division_equations. lia.
  - cbn. unfold two63. lia.
Qed.

(** ** Two cells on two stores *)
#[local] Instance unit_kv : KVEngine unit := {|
  KV_MSet _ e := (inr tt, e); KV_Get _ _ := inr None; KV_IncrBy _ _ e := (inr 0, e); KV_DecrBy _ _ e := (inr 0, e); KV_GetSet _ _ e := (inr None, e);
  KV_Append _ _ e := (inr 0, e); KV_SetNX _ _ e := (inr 0, e); KV_StrLen _ _ := inr 0 |}.
#[local] Instance unit_hash : HashEngine unit := {|
  HSet _ _ _ e := (inr 0, e); HGet _ _ _ := inr None; HDel _ _ e := (inr 0, e); HExists _ _ _ := inr false; HKeys _ _ := inr None; HVals _ _ := inr None;
  HGetAll k e := inr None; HScanGet _ _ _ _ := inr None; HLen _ _ := inr 0; HMGet _ _ _ := (None, []); HMSet _ _ _ e := (inr tt, e);
  HSetNX _ _ _ e := (inr 0, e); HStrLen _ _ _ := inr 0; HIncrBy _ _ _ e := (inr [x30], e); HMGet_length _ _ _ _ := ltac:(done) |}.
#[local] Instance no_selector : Selector unit := λ _ _, None.
#[local] Existing Instance merge_sorter.
Definition two_stores : qstore unit unit := mkQStore 1 {[ 1 := [2]; 2 := [1] ]} {[ 1 := [1]; 2 := [2] ]} 0 ∅ {[ 1 := tt ]} (λ _, tt).
Definition one_document : QueryReq := mkQueryReq [x75] 7 0 0 [] [x61] [] [] 1 [].
Definition first_response : QueryRsp := mkQueryRsp [x75] 1 1 [1] None [mkDocument [] [x6b] []].
Definition second_response : QueryRsp := mkQueryRsp [x75] 1 2 [2] None [].
Definition nowhere (_ : bytes) : option Z := None.
Lemma two_stores_ok : keyed two_stores ∧ ranges_ok two_stores ∧ q_cellIDToStores two_stores ≠ ∅.
Proof. split_and!; [intros u st Hu; by destruct (lookup_empty_Some (M := gmap bytes) u st)|by vm_compute|done]. Qed.
Definition started : qstore unit unit := match start_query one_document two_stores with Ok (_, s) => s | _ => two_stores end.
Definition start_outs : list qout := match start_query one_document two_stores with Ok (o, _) => o | _ => [] end.
Lemma started_running : running 1 0 nowhere one_document two_stores (asked start_outs) started start_outs [] 0.
Proof. by constructor. Qed.
Lemma started_kept : is_Some (q_states started !! [x75]).
Proof. by vm_compute; eexists. Qed.
Lemma started_asked : [1] ++ [2] ≡ₚ asked start_outs.
Proof. assert (asked start_outs = [2; 1]) as -> by reflexivity. apply Permutation_swap. Qed.
Lemma query_answered_witness : answers start_outs = [] ∧ asked start_outs ≠ [] ∧ (0 < responses_bound two_stores)%nat.
Proof.
  pose proof (query_answered 1 0 nowhere one_document two_stores (asked start_outs) started start_outs [] 0) as Hq. destruct two_stores_ok as (Hk & Hr & Hne).
  specialize (Hq Hk Hr started_running). apply proj1 in Hq. specialize (Hq Hne). destruct started_kept as [st Hst]. change (qr_UUID one_document) with [x75] in Hq. rewrite Hst in Hq. exact Hq.
Defined.
Lemma late_response_stops_store_witness : ∃ o s', handle_response first_response started = Ok (o, s') ∧
  answered one_document (start_outs ++ o) [mkDocument [] [x6b] []] ∧ readyToServeQuery 1 0 nowhere (Response second_response) s' = Panic.
Proof.
  destruct two_stores_ok as (Hk & Hr & Hne).
  exact (late_response_stops_store 1 0 nowhere one_document two_stores (asked start_outs) [2] started start_outs [] 0 first_response second_response Hk Hr Hne started_running started_kept
    eq_refl eq_refl eq_refl ltac:(done) started_asked ltac:(done) ltac:(done) eq_refl).
Defined.
Definition first_outs : list qout := match handle_response first_response started with Ok (o, _) => o | _ => [] end.
Definition answered_store : qstore unit unit := match handle_response first_response started with Ok (_, s) => s | _ => started end.
Lemma answered_running : running 1 0 nowhere one_document two_stores [2] answered_store (start_outs ++ first_outs) [mkDocument [] [x6b] []] 1.
Proof.
  exact (run_response 1 0 nowhere one_document two_stores (asked start_outs) [2] started start_outs [] 0 first_response first_outs answered_store
    started_running started_kept eq_refl ltac:(done) started_asked eq_refl).
Qed.
Lemma answer_within_limit_witness : ∀ a, a ∈ answers (start_outs ++ first_outs) → Z.of_nat (length (an_Docs a)) ≤ 1.
Proof.
  intros a Ha. destruct two_stores_ok as (Hk & Hr & Hne).
  exact (answer_within_limit 1 0 nowhere one_document two_stores [2] answered_store (start_outs ++ first_outs) _ 1 a Hk Hr Hne answered_running ltac:(done) (or_introl eq_refl) Ha).
Defined.
Definition two_ranges : list Range :=
  [mkRange (mkCell 1 [] [x6d] (mkCellEpoch 1 1) [mkPeer 11 1; mkPeer 12 2]) (Some (mkStore 1 ""%string [] UP ""%string));
   mkRange (mkCell 2 [x6d] [] (mkCellEpoch 1 1) [mkPeer 13 1; mkPeer 14 2]) (Some (mkStore 2 ""%string [] UP ""%string))].
Lemma refresh_gives_every_cell_witness : ranges_ok (refreshRanges 0 (Some two_ranges) two_stores).2.
Proof. apply (refresh_gives_every_cell 0 two_ranges two_stores); [done|]. by apply (bool_decide_unpack _); vm_compute. Defined.
Definition some_select : CqlSelect := mkSelect [x61] {[ [x66] := mkUintPred [x66] 1 9 ]} {[ [x74] := mkStrPred [x74] [x77] ]} [] 5000.
#[local] Instance names_order : NameOrder := {| name_range V := map_to_list; name_range_perm V m := reflexivity _ |}.
Lemma select_survives_witness : ∃ qr, convertToQueryReq (λ _, Some (SSelect some_select)) (mkRequest [x75] 0 [] 7) = Ok qr ∧
  convertToCql (ask_store (cap_limit qr) 1 2 [2]) = mkSelect [x61] {[ [x66] := mkUintPred [x66] 1 9 ]} {[ [x74] := mkStrPred [x74] [x77] ]} [] 1000.
Proof.
  eexists. split; [reflexivity|]. apply (select_survives (λ _, Some (SSelect some_select)) (mkRequest [x75] 0 [] 7) some_select); [reflexivity|reflexivity| | |done].
  - intros k p. unfold some_select. cbn [cs_UintPreds cs_StrPreds]. by intros [<- <-]%lookup_singleton_Some.
  - intros k p. unfold some_select. cbn [cs_UintPreds cs_StrPreds]. by intros [<- <-]%lookup_singleton_Some.
Defined.
Lemma store_answers_every_cell_witness : ∃ outs, answer_query 1 0 nowhere (mkQueryReq [x75] 0 1 2 [1; 2] [x61] [] [] 10 []) two_stores = Ok (outs, two_stores) ∧
  concat (qs_Cells <$> responses outs) ≡ₚ [1; 2].
Proof.
  eexists. split; [reflexivity|]. eapply (store_answers_every_cell 1 0 nowhere (mkQueryReq [x75] 0 1 2 [1; 2] [x61] [] [] 10 []) two_stores two_stores). reflexivity.
Defined.
Lemma document_order_witness : Compare (mkDocument [two63] [] []) (mkDocument [0] [] []) < 0.
Proof. apply (document_order two63 0); [done|done|]. right. done. Defined.
