(* ===== verification/RedisServer.v ===== *)
(** * The redis server of a store

    pkg/server: sessions (session.go), the table that finds the session of a
    response (routing.go, in Routing), the server that reads commands and proxied
    requests, checks them and hands them to the store (redis_server.go and the
    handlers of redis_kv.go to redis_lock.go).  The store is the class
    [StoreService]; [store_service] makes the store of Store an instance.
    Sessions are shared between the goroutine that reads a connection, the one
    that writes it and the table, so they live in a heap and are passed as
    pointers. *)

From S2P Require Import Prelude Encoding Meta Keys BTree CellTree KVTree Queue Strconv Goetty Resp Codec RaftTypes RaftLog RaftApply RedisTable Propose Reply RedisExec Routing Store.

(** ** The interface of the store *)
(** The store may call the server back before it returns: the responses it gives
    are part of the result.  An error is its text. *)
Class StoreService (St : Type) := {
  svc_OnProxyReq : Request → St → outcome bytes (list RaftCMDResponse * St);
  svc_OnRedisCommand : Z → Z → Command → St → outcome bytes (list RaftCMDResponse * St);
}.

(** ** Sessions *)
(** [ss_out] is what was written to the connection; [ss_writing] says that the
    write loop still runs. *)
Record session := mkSession {
  ss_id : Z;
  ss_resps : Queue Response;
  ss_fromProxy : bool;
  ss_writing : bool;
  ss_out : bytes;
}.
Definition newSession (id : Z) : session := mkSession id New false true [].
Definition set_resps (q : Queue Response) (s : session) : session := mkSession (ss_id s) q (ss_fromProxy s) (ss_writing s) (ss_out s).
Definition session_close (s : session) : session := set_resps (Dispose (ss_resps s)).2 s.
Definition setFromProxy (s : session) : session := mkSession (ss_id s) (ss_resps s) true (ss_writing s) (ss_out s).
(** The error of a queue that is disposed of is ignored. *)
Definition session_onResp (resp : Response) (s : session) : session := set_resps (Put (λ _, false) [resp] (ss_resps s)).2 s.

Section session_writer.
Context `{!FloatText} `{!Proto Response}.
Definition session_doResp (s : session) (resp : Response) : res bytes :=
  if ss_fromProxy s then Ok (WriteProxyMessage ProxyBegin resp) else doResp (Rsp_Reply resp).
Fixpoint write_all (s : session) (rsps : list Response) : res bytes :=
  match rsps with
  | [] => Ok []
  | r :: rsps' => let! w := session_doResp s r in let! ws := write_all s rsps' in Ok (w ++ ws)
  end.
(** One turn of [writeLoop], which waits while there is nothing to write.  A
    panic is recovered but ends the loop, and what is in the buffer stays there. *)
Definition writeLoop (BatchCliResps : Z) (s : session) : session :=
  if ss_writing s then
    match Poll (mkSema 0 BatchCliResps) (ss_resps s) with
    | (Ok (Polled rsps), q) =>
        match write_all s rsps with
        | Ok w => mkSession (ss_id s) q (ss_fromProxy s) true (ss_out s ++ w)
        | _ => mkSession (ss_id s) q (ss_fromProxy s) false (ss_out s)
        end
    | (Ok Blocked, _) => s
    | (_, q) => mkSession (ss_id s) q (ss_fromProxy s) false (ss_out s)
    end
  else s.
End session_writer.

(** ** The server *)
Definition pointer : Type := nat.
Record RedisServer (St : Type) := mkServer {
  rs_store : St;
  rs_heap : gmap pointer session;
  rs_routing : list (gmap Z pointer);
}.
Arguments mkServer {St} _ _ _.
Arguments rs_store {St} _.
Arguments rs_heap {St} _.
Arguments rs_routing {St} _.

(** *** raftcmdpb.CMDType_value *)
Definition CMDType_value : list (string * CMDType) :=
  [("Invalid", CInvalid); ("RaftError", CRaftError); ("Snap", CSnap); ("Ping", CPing); ("Del", CDel);
   ("Set", CSet); ("Get", CGet); ("MSet", CMSet); ("MGet", CMGet); ("Incrby", CIncrby); ("Decrby", CDecrby);
   ("GetSet", CGetSet); ("Append", CAppend); ("Setnx", CSetnx); ("StrLen", CStrLen); ("Incr", CIncr);
   ("Decr", CDecr); ("SetRange", CSetRange); ("MSetNX", CMSetNX); ("HSet", CHSet); ("HGet", CHGet);
   ("HDel", CHDel); ("HExists", CHExists); ("HKeys", CHKeys); ("HVals", CHVals); ("HGetAll", CHGetAll);
   ("HLen", CHLen); ("HMGet", CHMGet); ("HMSet", CHMSet); ("HSetNX", CHSetNX); ("HStrLen", CHStrLen);
   ("HIncrBy", CHIncrBy); ("HScanGet", CHScanGet); ("LIndex", CLIndex); ("LInsert", CLInsert);
   ("LLEN", CLLEN); ("LPop", CLPop); ("LPush", CLPush); ("LPushX", CLPushX); ("LRange", CLRange);
   ("LRem", CLRem); ("LSet", CLSet); ("LTrim", CLTrim); ("RPop", CRPop); ("RPopLPush", CRPopLPush);
   ("RPush", CRPush); ("RPushX", CRPushX); ("SAdd", CSAdd); ("SCard", CSCard); ("SRem", CSRem);
   ("SMembers", CSMembers); ("SIsMember", CSIsMember); ("SPop", CSPop); ("ZAdd", CZAdd); ("ZCard", CZCard);
   ("ZCount", CZCount); ("ZIncrBy", CZIncrBy); ("ZLexCount", CZLexCount); ("ZRange", CZRange);
   ("ZRangeByLex", CZRangeByLex); ("ZRangeByScore", CZRangeByScore); ("ZRank", CZRank); ("ZRem", CZRem);
   ("ZRemRangeByLex", CZRemRangeByLex); ("ZRemRangeByRank", CZRemRangeByRank);
   ("ZRemRangeByScore", CZRemRangeByScore); ("ZScore", CZScore); ("Lock", CLock); ("Unlock", CUnlock);
   ("Lockable", CLockable)].
Definition text (s : string) : bytes := String.list_byte_of_string s.
(** The table [init] fills; a name that is not there has the type [Invalid]. *)
Definition typeMapping (name : bytes) : Z :=
  match list_find (λ p, ToLower (text p.1) = name) CMDType_value with Some (_, (_, t)) => cmd_code t | None => 0 end.

Definition ErrNotSupportCommand : bytes := text "command is not support".
Definition PongResp : bytes := text "PONG".

Section server.
Context {St : Type} `{!StoreService St} `{!Proto RaftResponseHeader}.
Abbreviation server := (RedisServer St).
Abbreviation hres := (outcome bytes server).
(** The tables of Routing have no errors. *)
Definition no_error {A} (o : outcome unit A) : outcome bytes A := match o with Ok a => Ok a | _ => Panic end.
Definition set_heap (h : gmap pointer session) (sv : server) : server := mkServer (rs_store sv) h (rs_routing sv).
Definition set_routing (r : list (gmap Z pointer)) (sv : server) : server := mkServer (rs_store sv) (rs_heap sv) r.
Definition set_store (st : St) (sv : server) : server := mkServer st (rs_heap sv) (rs_routing sv).
Definition update_session (f : session → session) (p : pointer) (sv : server) : server := set_heap (alter f p (rs_heap sv)) sv.
Definition put_resp (rsp : Response) (p : pointer) (sv : server) : server := update_session (session_onResp rsp) p sv.

(** The mark of an error in the header: the proxy tries again unless the entry
    was too large. *)
Definition set_ErrorResult (e : bytes) (r : Reply) : Reply :=
  mkReply (Some e) (ErrorResults r) (StatusResult r) (IntegerResult r) (BulkResult r) (HasEmptyBulkResult r) (SliceArrayResult r)
    (HasEmptySliceArrayResult r) (FvPairArrayResult r) (HasEmptyFVPairArrayResult r) (ScorePairArrayResult r) (HasEmptyScorePairArrayResult r)
    (Withscores r) (DocArrayResult r) (HasEmptyDocArrayResult r).
Definition mark_error (h : option RaftResponseHeader) (rsp : Response) : Response :=
  match h with
  | None => rsp
  | Some h =>
      let type := match RH_Error h with RaftEntryTooLarge _ _ => CInvalid | _ => CRaftError end in
      mkResponse (Rsp_UUID rsp) (Rsp_SessionID rsp) (cmd_code type) (Rsp_Error rsp) (set_ErrorResult (Marshal h) (Rsp_Reply rsp))
  end.
Fixpoint deliver_responses (h : option RaftResponseHeader) (rsps : list Response) (sv : server) : hres :=
  match rsps with
  | [] => Ok sv
  | rsp :: rsps' =>
      let! rs := no_error (routing_get (Rsp_SessionID rsp) (rs_routing sv)) in
      deliver_responses h rsps' (match rs with Some p => put_resp (mark_error h rsp) p sv | None => sv end)
  end.
Definition onResp (resp : RaftCMDResponse) (sv : server) : hres := deliver_responses (RspHeader resp) (Responses resp) sv.
Fixpoint callbacks (resps : list RaftCMDResponse) (sv : server) : hres :=
  match resps with [] => Ok sv | r :: resps' => let! sv := onResp r sv in callbacks resps' sv end.

(** *** Commands *)
Definition session_id (p : pointer) (sv : server) : Z := match rs_heap sv !! p with Some s => ss_id s | None => 0 end.
Definition error_response (uuid : bytes) (e : bytes) : Response := mkResponse uuid 0 0 NoError (error_reply e).
Definition onPing (req : Request) (p : pointer) (sv : server) : server :=
  put_resp (mkResponse (Req_UUID req) 0 0 NoError (status_reply PongResp)) p sv.
(** [s.store.OnRedisCommand(session.id, cmdType, cmd, s.onResp)] *)
Definition to_store (cmdType : Z) (cmd : Command) (p : pointer) (sv : server) : hres :=
  let! (resps, st) := svc_OnRedisCommand (session_id p sv) cmdType cmd (rs_store sv) in
  callbacks resps (set_store st sv).
(** The handlers check how many arguments there are. *)
Definition handler : Type := Z → Command → pointer → server → hres.
Definition checked (valid : nat → bool) : handler := λ cmdType cmd p sv,
  match cmd with
  | [] => Panic
  | _ :: args =>
      if valid (length args) then to_store cmdType cmd p sv
      else Ok (put_resp (error_response [] ErrInvalidCommandResp) p sv)
  end.
(** pkg/server/redis_server.go *)
Definition onDel := checked (λ n, bool_decide (n = 1)%nat).
(** pkg/server/redis_kv.go *)
Definition onSet := checked (λ n, bool_decide (n = 2)%nat).
Definition onGet := checked (λ n, bool_decide (n = 1)%nat).
Definition onIncrBy := checked (λ n, bool_decide (n = 2)%nat).
Definition onIncr := checked (λ n, bool_decide (n = 1)%nat).
Definition onDecrby := checked (λ n, bool_decide (n = 2)%nat).
Definition onDecr := checked (λ n, bool_decide (n = 1)%nat).
Definition onGetSet := checked (λ n, bool_decide (n = 2)%nat).
Definition onAppend := checked (λ n, bool_decide (n = 2)%nat).
Definition onSetNX := checked (λ n, bool_decide (n = 2)%nat).
Definition onStrLen := checked (λ n, bool_decide (n = 1)%nat).
(** pkg/server/redis_hash.go *)
Definition onHSet := checked (λ n, bool_decide (n = 3)%nat).
Definition onHGet := checked (λ n, bool_decide (n = 2)%nat).
Definition onHDel := checked (λ n, negb (bool_decide (n < 2)%nat)).
Definition onHExists := checked (λ n, bool_decide (n = 2)%nat).
Definition onHKeys := checked (λ n, bool_decide (n = 1)%nat).
Definition onHVals := checked (λ n, bool_decide (n = 1)%nat).
Definition onHGetAll := checked (λ n, bool_decide (n = 1)%nat).
Definition onHLen := checked (λ n, bool_decide (n = 1)%nat).
Definition onHMGet := checked (λ n, negb (bool_decide (n < 2)%nat)).
Definition onHMSet := checked (λ n, negb (bool_decide (n < 3)%nat || bool_decide (n `mod` 2 = 0)%nat)).
Definition onHSetNX := checked (λ n, bool_decide (n = 3)%nat).
Definition onHStrLen := checked (λ n, bool_decide (n = 2)%nat).
Definition onHIncrBy := checked (λ n, bool_decide (n = 3)%nat).
(** pkg/server/redis_list.go *)
Definition onLIndex := checked (λ n, bool_decide (n = 2)%nat).
Definition onLInsert := checked (λ n, bool_decide (n = 4)%nat).
Definition onLLen := checked (λ n, bool_decide (n = 1)%nat).
Definition onLPop := checked (λ n, bool_decide (n = 1)%nat).
Definition onLPush := checked (λ n, negb (bool_decide (n < 2)%nat)).
Definition onLPushX := checked (λ n, bool_decide (n = 2)%nat).
Definition onLRange := checked (λ n, bool_decide (n = 3)%nat).
Definition onLRem := checked (λ n, bool_decide (n = 3)%nat).
Definition onLSet := checked (λ n, bool_decide (n = 3)%nat).
Definition onLTrim := checked (λ n, bool_decide (n = 3)%nat).
Definition onRPop := checked (λ n, bool_decide (n = 1)%nat).
Definition onRPush := checked (λ n, negb (bool_decide (n < 2)%nat)).
Definition onRPushX := checked (λ n, bool_decide (n = 2)%nat).
(** pkg/server/redis_set.go *)
Definition onSAdd := checked (λ n, negb (bool_decide (n < 2)%nat)).
Definition onSCard := checked (λ n, bool_decide (n = 1)%nat).
Definition onSRem := checked (λ n, negb (bool_decide (n < 2)%nat)).
Definition onSMembers := checked (λ n, bool_decide (n = 1)%nat).
Definition onSIsMember := checked (λ n, bool_decide (n = 2)%nat).
Definition onSPop := checked (λ n, bool_decide (n = 1)%nat).
(** pkg/server/redis_zset.go *)
Definition onZAdd := checked (λ n, bool_decide (n = 3)%nat).
Definition onZCard := checked (λ n, bool_decide (n = 1)%nat).
Definition onZCount := checked (λ n, bool_decide (n = 3)%nat).
Definition onZIncrBy := checked (λ n, bool_decide (n = 3)%nat).
Definition onZLexCount := checked (λ n, bool_decide (n = 3)%nat).
Definition onZRange := checked (λ n, negb (bool_decide (n < 3)%nat)).
Definition onZRangeByLex := checked (λ n, bool_decide (n = 3)%nat).
Definition onZRangeByScore := checked (λ n, negb (bool_decide (n < 3)%nat)).
Definition onZRank := checked (λ n, bool_decide (n = 2)%nat).
Definition onZRem := checked (λ n, negb (bool_decide (n < 2)%nat)).
Definition onZRemRangeByLex := checked (λ n, bool_decide (n = 3)%nat).
Definition onZRemRangeByRank := checked (λ n, bool_decide (n = 3)%nat).
Definition onZRemRangeByScore := checked (λ n, bool_decide (n = 3)%nat).
Definition onZScore := checked (λ n, bool_decide (n = 2)%nat).
(** pkg/server/redis_lock.go *)
Definition onLockable := checked (λ n, negb (bool_decide (n < 3)%nat)).
Definition onLock := checked (λ n, negb (bool_decide (n < 3)%nat)).
Definition onUnlock := checked (λ n, negb (bool_decide (n < 2)%nat)).
Definition handlers : list (CMDType * handler) :=
  [(CDel, onDel); (CSet, onSet); (CGet, onGet); (CIncrby, onIncrBy); (CIncr, onIncr); (CDecrby, onDecrby);
   (CDecr, onDecr); (CGetSet, onGetSet); (CAppend, onAppend); (CSetnx, onSetNX); (CStrLen, onStrLen);
   (CHSet, onHSet); (CHDel, onHDel); (CHExists, onHExists); (CHGet, onHGet); (CHGetAll, onHGetAll);
   (CHIncrBy, onHIncrBy); (CHKeys, onHKeys); (CHLen, onHLen); (CHMGet, onHMGet); (CHMSet, onHMSet);
   (CHSetNX, onHSetNX); (CHStrLen, onHStrLen); (CHVals, onHVals); (CLIndex, onLIndex);
   (CLInsert, onLInsert); (CLLEN, onLLen); (CLPop, onLPop); (CLPush, onLPush); (CLPushX, onLPushX);
   (CLRange, onLRange); (CLRem, onLRem); (CLSet, onLSet); (CLTrim, onLTrim); (CRPop, onRPop);
   (CRPush, onRPush); (CRPushX, onRPushX); (CSAdd, onSAdd); (CSCard, onSCard); (CSRem, onSRem);
   (CSMembers, onSMembers); (CSIsMember, onSIsMember); (CSPop, onSPop); (CZAdd, onZAdd); (CZCard, onZCard);
   (CZCount, onZCount); (CZIncrBy, onZIncrBy); (CZLexCount, onZLexCount); (CZRange, onZRange);
   (CZRangeByLex, onZRangeByLex); (CZRangeByScore, onZRangeByScore); (CZRank, onZRank); (CZRem, onZRem);
   (CZRemRangeByLex, onZRemRangeByLex); (CZRemRangeByRank, onZRemRangeByRank);
   (CZRemRangeByScore, onZRemRangeByScore); (CZScore, onZScore); (CLock, onLock); (CUnlock, onUnlock);
   (CLockable, onLockable)].
Definition find_handler (t : Z) : option handler :=
  match list_find (λ p, cmd_code p.1 = t) handlers with Some (_, (_, h)) => Some h | None => None end.
Definition isLocal (t : Z) : bool := bool_decide (t = cmd_code CPing).

Definition onRedisCommand (cmd : Command) (p : pointer) (sv : server) : hres :=
  match cmd with
  | [] => Panic
  | name :: _ =>
      let t := typeMapping (ToLower name) in
      if isLocal t then Ok (onPing (mkRequest [] 0 cmd 0) p sv)
      else
        match find_handler t with
        | None => Ok (put_resp (error_response [] ErrNotSupportCommand) p sv)
        | Some h => h t cmd p sv
        end
  end.
Definition onProxyReq (req : Request) (p : pointer) (sv : server) : hres :=
  match Req_Cmd req with
  | [] => Panic
  | name :: args =>
      let req := mkRequest (Req_UUID req) (typeMapping (ToLower name)) (Req_Cmd req) (session_id p sv) in
      if isLocal (Req_Type req) then Ok (onPing req p sv)
      else if bool_decide (length (Req_Cmd req) < 2)%nat then Ok (put_resp (error_response (Req_UUID req) ErrNotSupportCommand) p sv)
      else
        let! (resps, st) := svc_OnProxyReq req (rs_store sv) in
        callbacks resps (set_store st sv)
  end.

(** *** Connections *)
Definition init (st : St) : server := mkServer st ∅ newRouting.
(** [doConnection] up to its loop; [p] is the new session. *)
Definition connect (p : pointer) (id : Z) (sv : server) : hres :=
  let! r := no_error (routing_put id p (rs_routing sv)) in
  Ok (set_routing r (set_heap (<[p := newSession id]> (rs_heap sv)) sv)).
(** Its deferred function.  [close] needs the write lock of the session, whose read lock the
    writer holds while it waits in [Get]: when it does ([in_get]) the session is not closed
    now.  [close_session] is the rest of [close], when the lock is free. *)
Definition close_session (p : pointer) (sv : server) : server := update_session session_close p sv.
Definition disconnect (in_get : bool) (p : pointer) (sv : server) : hres :=
  let! (_, r) := no_error (routing_delete (session_id p sv) (rs_routing sv)) in
  let sv := set_routing r sv in
  Ok (if in_get then sv else close_session p sv).
(** The body of the loop: what is done with a value of [session.Read]. *)
Definition on_value (v : server_value Request) (p : pointer) (sv : server) : hres :=
  match v with
  | VRedisCommand cmd =>
      match onRedisCommand cmd p sv with
      | Err e => Ok (put_resp (error_response [] e) p sv)
      | o => o
      end
  | VRequest req =>
      let sv := update_session setFromProxy p sv in
      match onProxyReq req p sv with
      | Err e => Ok (put_resp (error_response (Req_UUID req) e) p sv)
      | o => o
      end
  | VGoettyCommand _ => Ok sv
  end.
Fixpoint on_values (vs : list (server_value Request)) (p : pointer) (sv : server) : hres :=
  match vs with [] => Ok sv | v :: vs' => let! sv := on_value v p sv in on_values vs' p sv end.
End server.
