(* ===== verification/ServerProps.v ===== *)
(** * Theorems about the redis server

    Requests of a proxy arrive complete and in order however the connection cuts
    them, and each is handed to the store or answered under its id; commands sent
    to the server directly are read and dropped; responses of the store go to the
    session they name and to no other.  The theorems are stated against
    [StoreLaws], what the server relies on, which [store_laws] proves of the store
    of Store. *)

From S2P Require Import Prelude Encoding Meta Keys BTree CellTree KVTree Queue Strconv Goetty Resp Codec RaftTypes RaftLog RaftApply RedisTable Propose Reply RedisExec Routing Store RedisServer.

(** A request is taken by the event loop of a cell or by the query loop, or the store answers it with
    an error that makes the proxy try again, or refuses it. *)
Definition retryable (h : RaftResponseHeader) : Prop := match RH_Error h with RaftEntryTooLarge _ _ => False | _ => True end.
Class StoreLaws (St : Type) `{!StoreService St} := {
  taken : St → list Request;
  settled : St → Prop;
  OnProxyReq_law req st : settled st → (2 ≤ length (Req_Cmd req))%nat →
    (∃ st', svc_OnProxyReq req st = Ok ([], st') ∧ settled st' ∧ taken st' = taken st ++ [req]) ∨
    (∃ st' h r a, svc_OnProxyReq req st = Ok ([mkRaftRsp (Some h) [r] a], st') ∧ settled st' ∧ taken st' = taken st ∧
      retryable h ∧ Rsp_UUID r = Req_UUID req ∧ Rsp_SessionID r = Req_SessionID req) ∨
    (∃ e, svc_OnProxyReq req st = Err e);
}.

(** ** The store implements the interface *)
Definition errStoreNotMatch : bytes := text "key not in store".
Section store_service.
Context {E D T V : Type} `{!Engine value E} `{OT : !OrderedTree CellItem Less T} `{!DataEngines V D}.
Context (keyConvertFun : bytes → bytes) (queryable : Request → bool) (queryError : bytes) (newUUID : Store E D T → bytes).
(** The responses a call has given to its callback. *)
Definition take_responses (s : Store E D T) : list RaftCMDResponse * Store E D T :=
  let w := s_world s in
  ((w_responses w).*2, set_world (mkWorld (w_engines w) (w_data w) [] (w_removedSnaps w)) s).
#[export] Instance store_service : StoreService (Store E D T) := {|
  svc_OnProxyReq req s := match OnProxyReq keyConvertFun queryable req 0 s with Ok s' => Ok (take_responses s') | Err _ => Err queryError | Panic => Panic end;
  svc_OnRedisCommand id t cmd s :=
    match OnRedisCommand keyConvertFun (newUUID s) id t cmd 0 s with Ok (_, s') => Ok (take_responses s') | Err _ => Err errStoreNotMatch | Panic => Panic end;
|}.
Definition requests_of (es : list store_effect) : list Request := omap (λ e, match e with SRequest _ r _ | SQuery r _ => Some r | _ => None end) es.
#[export] Instance store_laws : StoreLaws (Store E D T).
Proof.
  refine {| taken s := requests_of (s_effects s); settled s := w_responses (s_world s) = [] |}.
  intros req s Hs Hc. simpl. unfold OnProxyReq. destruct (Req_Cmd req) as [|name [|key args]]; [simpl in Hc; lia..|]. case_bool_decide.
  { destruct (queryable req); [left|right; right; by eexists]. eexists. unfold take_responses, emit. cbn [s_world]. rewrite Hs. split_and!; [done..|]. simpl. unfold requests_of. by rewrite omap_app. }
  destruct (getTargetCell keyConvertFun s key) as [r|].
  - left. eexists. unfold take_responses, emit. cbn [s_world]. rewrite Hs. split_and!; [done..|]. simpl. unfold requests_of. by rewrite omap_app.
  - right. left. unfold take_responses, respStoreNotMatch. cbn [s_world set_world w_responses]. rewrite Hs. simpl. do 4 eexists. split_and!; done.
Defined.
End store_service.

(** ** The state of a server *)
Section wf.
Context {St : Type} `{!StoreService St} `{!Proto RaftResponseHeader}.
Abbreviation server := (RedisServer St).
Implicit Types (sv : server) (p : pointer).

(** The queue is open and its reader awake. *)
Definition open_queue (q : Queue Response) : Prop := disposed q = false ∧ waiters q = [].
Definition live sv (id : Z) p : Prop := ∃ s, rs_heap sv !! p = Some s ∧ ss_id s = id ∧ open_queue (ss_resps s).
Record server_wf sv : Prop := {
  wf_routing : routing_wf (rs_routing sv);
  wf_live id p : routed (rs_routing sv) id = Some p → live sv id p;
}.
(** The responses that wait for a session. *)
Definition waiting sv p : list Response := match rs_heap sv !! p with Some s => items (ss_resps s) | None => [] end.
(** Sessions other than [p] are as before. *)
Definition others_kept p sv sv' : Prop := ∀ q, q ≠ p → rs_heap sv' !! q = rs_heap sv !! q.

Lemma onResp_items r s : open_queue (ss_resps s) →
  session_onResp r s = set_resps (mkQueue [] (items (ss_resps s) ++ [r]) false) s.
Proof. intros [Hd Hw]. unfold session_onResp, Put, signal. rewrite Hd, Hw. done. Qed.
Lemma put_resp_spec r p sv id : live sv id p →
  live (put_resp r p sv) id p ∧ waiting (put_resp r p sv) p = waiting sv p ++ [r] ∧ others_kept p sv (put_resp r p sv) ∧
  rs_routing (put_resp r p sv) = rs_routing sv ∧ rs_store (put_resp r p sv) = rs_store sv.
Proof.
  intros (s & Hs & Hid & Hq). unfold put_resp, update_session, set_heap, live, waiting, others_kept. cbn [rs_heap rs_routing rs_store].
  rewrite lookup_alter_eq, Hs. cbn [fmap option_fmap option_map]. rewrite onResp_items by done.
  split_and!; [|done|intros; by rewrite lookup_alter_ne|done|done]. eexists. split_and!; done.
Qed.
(** A session that changes its queue only by responses keeps the server sound. *)
Lemma wf_update sv sv' p : server_wf sv → rs_routing sv' = rs_routing sv → others_kept p sv sv' →
  (∀ id, live sv id p → live sv' id p) → server_wf sv'.
Proof.
  intros [Hr Hl] Heq Ho Hp. split; [by rewrite Heq|]. intros id q. rewrite Heq. intros Hq%Hl.
  destruct (decide (q = p)) as [->|Hne]; [by apply Hp|]. destruct Hq as (s & Hs & ?). exists s. by rewrite Ho.
Qed.
Lemma others_alter f p sv : others_kept p sv (update_session f p sv).
Proof. intros q Hq. unfold update_session. cbn [rs_heap set_heap]. by apply lookup_alter_ne. Qed.
Lemma put_resp_wf r p sv : server_wf sv → server_wf (put_resp r p sv).
Proof.
  intros Hw. apply (wf_update sv (put_resp r p sv) p Hw eq_refl); [apply others_alter|].
  intros id Hl. by apply (put_resp_spec r p sv id Hl).
Qed.

(** *** Responses of the store *)
Definition for_session (id : Z) (rsps : list Response) : list Response := filter (λ r, Rsp_SessionID r = id) rsps.
Lemma deliver_spec h rsps : ∀ sv, server_wf sv → ∃ sv', deliver_responses h rsps sv = Ok sv' ∧ server_wf sv' ∧
  rs_routing sv' = rs_routing sv ∧ rs_store sv' = rs_store sv ∧
  (∀ id p, routed (rs_routing sv) id = Some p → waiting sv' p = waiting sv p ++ (mark_error h <$> for_session id rsps)) ∧
  (∀ p, (∀ id, routed (rs_routing sv) id ≠ Some p) → rs_heap sv' !! p = rs_heap sv !! p).
Proof.
  induction rsps as [|r rsps IH]; intros sv Hw; simpl.
  { exists sv. split_and!; [done..|intros; simpl; by rewrite app_nil_r|done]. }
  rewrite (routing_get_spec _ _ (wf_routing _ Hw)). simpl. destruct (routed (rs_routing sv) (Rsp_SessionID r)) as [p|] eqn:Hr.
  - pose proof (wf_live _ Hw _ _ Hr) as Hl. destruct (put_resp_spec (mark_error h r) p sv _ Hl) as (Hl' & Hwt & Ho & Hrt & Hst).
    assert (server_wf (put_resp (mark_error h r) p sv)) as Hw'.
    { by apply put_resp_wf. }
    destruct (IH _ Hw') as (sv' & -> & Hw2 & Hrt' & Hst' & Hq & Hn). exists sv'. rewrite Hrt in *. split_and!; [done|done|done|by rewrite Hst'| |].
    + intros id q Hid. rewrite (Hq id q Hid). unfold for_session. destruct (decide (Rsp_SessionID r = id)) as [<-|Hne].
      * rewrite Hr in Hid. injection Hid as <-. by rewrite filter_cons_True, Hwt, <-(assoc_L (++)).
      * rewrite filter_cons_False by done. f_equal. unfold waiting. rewrite Ho; [done|]. intros ->.
        destruct (wf_live _ Hw _ _ Hid) as (s & Hs & Hsid & _). destruct Hl as (s' & Hs' & Hsid' & _). congruence.
    + intros q Hqn. rewrite Hn by done. apply Ho. intros ->. by apply (Hqn (Rsp_SessionID r)).
  - destruct (IH _ Hw) as (sv' & -> & Hw2 & Hrt' & Hst' & Hq & Hn). exists sv'. split_and!; [done|done|done|done| |done].
    intros id q Hid. rewrite (Hq id q Hid). unfold for_session. rewrite filter_cons_False; [done|]. intros <-. by rewrite Hr in Hid.
Qed.
Lemma callbacks_wf resps : ∀ sv, server_wf sv → ∃ sv', callbacks resps sv = Ok sv' ∧ server_wf sv' ∧ rs_routing sv' = rs_routing sv ∧ rs_store sv' = rs_store sv.
Proof.
  induction resps as [|r resps IH]; intros sv Hw; simpl; [by exists sv|]. unfold onResp.
  destruct (deliver_spec (RspHeader r) (Responses r) sv Hw) as (sv' & -> & Hw' & Hr & Hs & _). simpl.
  destruct (IH _ Hw') as (sv2 & -> & ? & ? & ?). exists sv2. split_and!; [done|done|congruence|congruence].
Qed.

(** *** Histories *)
(** What happens to a server: connections come and go, values are read from them,
    the store answers, the writers write. *)
Inductive server_step `{!FloatText, !Proto Response} (batch : Z) : server → server → Prop :=
  | step_connect p id sv sv' : rs_heap sv !! p = None → connect p id sv = Ok sv' → server_step batch sv sv'
  | step_disconnect in_get p sv sv' : disconnect in_get p sv = Ok sv' → server_step batch sv sv'
  | step_close p sv : (∀ id, routed (rs_routing sv) id ≠ Some p) → server_step batch sv (close_session p sv)
  | step_value v p sv sv' : on_value v p sv = Ok sv' → server_step batch sv sv'
  | step_response resp st sv sv' : onResp resp (set_store st sv) = Ok sv' → server_step batch sv sv'
  | step_write p sv : server_step batch sv (update_session (writeLoop batch) p sv).

Lemma to_store_wf sv resps st : server_wf sv → ∃ sv', callbacks resps (set_store st sv) = Ok sv' ∧ server_wf sv'.
Proof.
  intros Hw. destruct (callbacks_wf resps (set_store st sv)) as (sv' & -> & ? & _); [|by exists sv'].
  destruct Hw as [Hr Hl]. split; [done|]. intros id p Hp. by destruct (Hl id p Hp) as (s & ? & ? & ?); exists s.
Qed.
Lemma handler_wf h t cmd p sv sv' : find_handler t = Some h → server_wf sv → h t cmd p sv = Ok sv' → server_wf sv'.
Proof.
  intros Hf Hw. assert (∃ valid, h = checked valid) as [valid ->].
  { unfold find_handler in Hf. destruct (list_find _ handlers) as [[i [t' h']]|] eqn:Hl; [|done]. injection Hf as ->.
    apply list_find_Some in Hl as (Hl & _ & _). apply list_elem_of_lookup_2 in Hl. unfold handlers in Hl.
    repeat (apply elem_of_cons in Hl as [Hl|Hl]; [injection Hl as _ ->; eexists; reflexivity|]). by apply elem_of_nil in Hl. }
  unfold checked, to_store. destruct cmd as [|n args]; [done|]. destruct (valid _); [|intros [= <-]; by apply put_resp_wf].
  destruct (svc_OnRedisCommand _ _ _ _) as [[resps st]|e|]; simpl; [|done..].
  destruct (to_store_wf sv resps st Hw) as (sv2 & -> & ?). by intros [= <-].
Qed.
Lemma update_wf f p sv : server_wf sv → (∀ s, rs_heap sv !! p = Some s → open_queue (ss_resps s) → ss_id (f s) = ss_id s ∧ open_queue (ss_resps (f s))) →
  server_wf (update_session f p sv).
Proof.
  intros Hw Hf. apply (wf_update sv (update_session f p sv) p Hw eq_refl (others_alter f p sv)). intros id (s & Hs & Hid & Hq).
  destruct (Hf s Hs Hq) as [Hid' Hq']. exists (f s). unfold update_session. cbn [rs_heap set_heap]. rewrite lookup_alter_eq, Hs. split_and!; [done|congruence|done].
Qed.
Lemma writeLoop_open `{!FloatText, !Proto Response} batch s : open_queue (ss_resps s) →
  ss_id (writeLoop batch s) = ss_id s ∧ open_queue (ss_resps (writeLoop batch s)).
Proof.
  intros [Hd Hw]. unfold writeLoop. destruct (ss_writing s); [|done]. unfold Poll. case_bool_decide.
  { destruct (write_all s []); done. }
  rewrite Hd. destruct (items (ss_resps s)) as [|r l] eqn:Hi; [done|]. simpl.
  destruct (write_all s _); simpl; rewrite Hw; done.
Qed.
Lemma on_value_wf v p sv sv' : server_wf sv → on_value v p sv = Ok sv' → server_wf sv'.
Proof.
  intros Hw. destruct v as [c|c|req]; simpl; [by intros [= <-]| |].
  - destruct (onRedisCommand c p sv) as [sv1|e|] eqn:Ho; [|intros [= <-]; by apply put_resp_wf|done]. intros [= ->].
    unfold onRedisCommand in Ho. destruct c as [|n args]; [done|]. destruct (isLocal _); [injection Ho as <-; by apply put_resp_wf|].
    destruct (find_handler _) as [h|] eqn:Hf; [by eapply handler_wf|]. injection Ho as <-. by apply put_resp_wf.
  - assert (server_wf (update_session setFromProxy p sv)) as Hw' by (by apply update_wf). revert Hw'. generalize (update_session setFromProxy p sv). clear Hw sv. intros sv Hw.
    destruct (onProxyReq req p sv) as [sv1|e|] eqn:Ho; [|intros [= <-]; by apply put_resp_wf|done]. intros [= ->].
    unfold onProxyReq in Ho. destruct (Req_Cmd req) as [|n args] eqn:Hc; [done|]. destruct (isLocal _); [injection Ho as <-; by apply put_resp_wf|].
    case_bool_decide; [injection Ho as <-; by apply put_resp_wf|]. destruct (svc_OnProxyReq _ _) as [[resps st]|e|]; simpl in Ho; [|done..].
    destruct (to_store_wf sv resps st Hw) as (sv2 & Hcb & ?). congruence.
Qed.
(** Nobody finds a session that is being closed. *)
Lemma close_session_wf p sv : server_wf sv → (∀ id, routed (rs_routing sv) id ≠ Some p) → server_wf (close_session p sv).
Proof.
  intros Hw Hn. split; [apply (wf_routing _ Hw)|]. intros id q Hq. destruct (wf_live _ Hw _ _ Hq) as (s & Hs & Hsid & Hsq). exists s.
  unfold close_session, update_session. cbn [rs_heap set_heap]. rewrite lookup_alter_ne; [done|]. intros ->. by apply (Hn id).
Qed.
Lemma disconnect_spec in_get p sv : server_wf sv → ∃ sv', disconnect in_get p sv = Ok (if in_get then sv' else close_session p sv') ∧ server_wf sv' ∧
  (∀ id, routed (rs_routing sv') id ≠ Some p) ∧ sv' = set_routing (rs_routing sv') sv.
Proof.
  intros Hw. unfold disconnect. destruct (routing_delete_spec (rs_routing sv) (session_id p sv) (wf_routing _ Hw)) as (r & -> & Hrw & Hr).
  exists (set_routing r sv). split_and!; [done| | |done].
  - split; [done|]. intros id q. cbn [rs_routing set_routing]. rewrite Hr. case_decide; [done|]. intros Hq. by apply (wf_live _ Hw).
  - intros id. cbn [rs_routing set_routing]. rewrite Hr. case_decide as Hid; [done|]. intros Hq. destruct (wf_live _ Hw _ _ Hq) as (s & Hs & Hsid & _).
    apply Hid. unfold session_id. by rewrite Hs.
Qed.
(** A session whose client goes while its writer waits for a response is not closed, and no
    response of the store reaches it again: the writer waits for ever. *)
Lemma waiting_session_leaks p s sv resp sv' sv'' : server_wf sv → rs_heap sv !! p = Some s →
  disconnect true p sv = Ok sv' → onResp resp sv' = Ok sv'' → rs_heap sv'' !! p = Some s ∧ ∀ id, routed (rs_routing sv'') id ≠ Some p.
Proof.
  intros Hw Hs Hd Ho. destruct (disconnect_spec true p sv Hw) as (sv1 & Hd1 & Hw1 & Hn & Heq). rewrite Hd in Hd1. injection Hd1 as ->.
  destruct (deliver_spec (RspHeader resp) (Responses resp) sv1 Hw1) as (sv2 & Hr2 & _ & Hrt & _ & _ & Hnn). unfold onResp in Ho. rewrite Hr2 in Ho. injection Ho as ->.
  rewrite (Hnn p Hn), Hrt, Heq. split; [done|]. rewrite <-Heq. exact Hn.
Qed.
Lemma server_step_wf `{!FloatText, !Proto Response} batch sv sv' : server_step batch sv sv' → server_wf sv → server_wf sv'.
Proof.
  intros Hs Hw. destruct Hs as [p id sv sv' Hn Hc|in_get p sv sv' Hc|p sv Hn|v p sv sv' Hc|resp st sv sv' Hc|p sv].
  - unfold connect in Hc. destruct (routing_put_spec (rs_routing sv) id p (wf_routing _ Hw)) as (r & Hp & Hrw & Hr). rewrite Hp in Hc. injection Hc as <-.
    split; [done|]. intros id' q. cbn [rs_routing set_routing]. rewrite Hr. unfold live. cbn [rs_heap set_routing set_heap]. case_decide as Hid.
    + intros [= <-]. rewrite lookup_insert_eq. subst. eexists. done.
    + intros Hq. destruct (wf_live _ Hw _ _ Hq) as (s & Hs & ? & ?). rewrite lookup_insert_ne by congruence. eauto.
  - destruct (disconnect_spec in_get p sv Hw) as (sv1 & Hd & Hw1 & Hn & _). rewrite Hd in Hc. injection Hc as <-. destruct in_get; [done|by apply close_session_wf].
  - by apply close_session_wf.
  - by eapply on_value_wf.
  - unfold onResp in Hc. destruct (to_store_wf sv [resp] st Hw) as (sv2 & Hcb & ?). simpl in Hcb. unfold onResp in Hcb. rewrite Hc in Hcb. simpl in Hcb. congruence.
  - apply update_wf; [done|]. intros s _. apply writeLoop_open.
Qed.
Lemma init_wf st : server_wf (init st).
Proof. split; [apply newRouting_spec|]. intros id p. cbn [rs_routing init]. by rewrite (proj2 newRouting_spec). Qed.
Lemma reachable_wf `{!FloatText, !Proto Response} batch st sv : rtc (server_step batch) (init st) sv → server_wf sv.
Proof. intros Hr. assert (server_wf (init st)) as Hw by apply init_wf. induction Hr as [|a b c Hs _ IH]; [done|]. apply IH. by eapply server_step_wf. Qed.
End wf.

(** ** Requests of a proxy *)
Section requests.
Context {St : Type} `{!StoreService St, !StoreLaws St, !Proto RaftResponseHeader, !Proto Response, !Proto Request, !FloatText}.
Abbreviation server := (RedisServer St).
Implicit Types (sv : server) (p : pointer).

(** The request as the store sees it. *)
Definition typed (id : Z) (req : Request) : Request :=
  mkRequest (Req_UUID req) (typeMapping (ToLower (default [] (head (Req_Cmd req))))) (Req_Cmd req) id.
(** What became of a request: the store has it, or it is answered. *)
Definition verdict : Type := Request + Response.
Definition verdict_of (id : Z) (req : Request) (v : verdict) : Prop :=
  match v with inl r => r = typed id req | inr rsp => Rsp_UUID rsp = Req_UUID req end.
Definition accepted (vs : list verdict) : list Request := omap (λ v, match v with inl r => Some r | inr _ => None end) vs.
Definition answered (vs : list verdict) : list Response := omap (λ v, match v with inl _ => None | inr r => Some r end) vs.
Record served p (id : Z) (reqs : list Request) sv sv' : Prop := {
  sd_wf : server_wf sv';
  sd_routing : rs_routing sv' = rs_routing sv;
  sd_settled : settled (rs_store sv');
  sd_others q : q ≠ p → waiting sv' q = waiting sv q;
  sd_split : ∃ vs, Forall2 (verdict_of id) reqs vs ∧ taken (rs_store sv') = taken (rs_store sv) ++ accepted vs ∧
    waiting sv' p = waiting sv p ++ answered vs;
}.
Lemma served_answer p id req sv r : server_wf sv → settled (rs_store sv) → routed (rs_routing sv) id = Some p → Rsp_UUID r = Req_UUID req →
  served p id [req] sv (put_resp r p sv).
Proof.
  intros Hw Hs Hr Hu. destruct (put_resp_spec r p sv id (wf_live _ Hw _ _ Hr)) as (_ & Hwt & Ho & Hrt & Hst). split; [by apply put_resp_wf|done|by rewrite Hst| |].
  - intros q Hq. unfold waiting. by rewrite Ho.
  - exists [inr r]. rewrite Hwt, Hst. split_and!; [by repeat constructor|simpl; by rewrite app_nil_r|done].
Qed.
Lemma served_trans p id reqs reqs' sv sv1 sv2 : served p id reqs sv sv1 → served p id reqs' sv1 sv2 → served p id (reqs ++ reqs') sv sv2.
Proof.
  intros [? Hr1 ? Ho1 (vs1 & HF1 & Ht1 & Hw1)] [? Hr2 ? Ho2 (vs2 & HF2 & Ht2 & Hw2)]. split; [done|congruence|done|intros; by rewrite Ho2, Ho1|].
  exists (vs1 ++ vs2). unfold accepted, answered. rewrite !omap_app, Ht2, Ht1, Hw2, Hw1, <-!(assoc_L (++)). split_and!; [by apply Forall2_app|done..].
Qed.
Lemma from_proxy_same p sv : server_wf sv → let sv' := update_session setFromProxy p sv in
  server_wf sv' ∧ rs_routing sv' = rs_routing sv ∧ rs_store sv' = rs_store sv ∧ session_id p sv' = session_id p sv ∧ ∀ q, waiting sv' q = waiting sv q.
Proof.
  intros Hw. split_and!; [by apply update_wf|done|done| |].
  - unfold session_id, update_session. cbn [rs_heap set_heap]. rewrite lookup_alter_eq. by destruct (rs_heap sv !! p).
  - intros q. unfold waiting, update_session. cbn [rs_heap set_heap]. destruct (decide (q = p)) as [->|]; [|by rewrite lookup_alter_ne].
    rewrite lookup_alter_eq. by destruct (rs_heap sv !! p).
Qed.
Lemma set_store_wf sv st : server_wf sv → server_wf (set_store st sv).
Proof. intros [Hr Hl]. split; [done|]. intros id p Hp. by destruct (Hl id p Hp) as (s & ? & ? & ?); exists s. Qed.
Lemma routed_or_not sv q : server_wf sv → (∃ id, routed (rs_routing sv) id = Some q) ∨ (∀ id, routed (rs_routing sv) id ≠ Some q).
Proof.
  intros Hw. destruct (decide (routed (rs_routing sv) (session_id q sv) = Some q)) as [|Hne]; [left; eauto|]. right. intros id Hid. apply Hne.
  destruct (wf_live _ Hw _ _ Hid) as (s & Hs & Hsid & _). unfold session_id. by rewrite Hs, Hsid.
Qed.
Lemma onProxyReq_spec p id req sv : server_wf sv → settled (rs_store sv) → routed (rs_routing sv) id = Some p → session_id p sv = id →
  Req_Cmd req ≠ [] → (∃ sv', onProxyReq req p sv = Ok sv' ∧ served p id [req] sv sv') ∨ ∃ e, onProxyReq req p sv = Err e.
Proof.
  intros Hw Hs Hr Hid Hc. unfold onProxyReq. destruct (Req_Cmd req) as [|n args] eqn:Hcmd; [done|]. rewrite Hid. unfold isLocal. cbn [Req_Type Req_Cmd Req_UUID].
  case_bool_decide; [left; eexists; split; [done|]; by apply served_answer|]. case_bool_decide as Hlen; [left; eexists; split; [done|]; by apply served_answer|].
  set (rq := mkRequest _ _ _ _). assert (rq = typed id req) as Heq by (unfold typed; rewrite Hcmd; done).
  destruct (OnProxyReq_law rq (rs_store sv) Hs ltac:(simpl in *; lia)) as [(st & -> & Hst & Ht)|[(st & h & r & a & -> & Hst & Ht & _ & Hu & Hsid)|(e & ->)]]; simpl; [left|left|right; by eexists].
  - eexists. split; [done|]. split; [by apply set_store_wf|done|done|done|]. exists [inl rq]. simpl. rewrite Ht, Heq, app_nil_r. split_and!; [by repeat constructor|done..].
  - destruct (deliver_spec (Some h) [r] (set_store st sv) (set_store_wf sv st Hw)) as (sv' & Hd & Hw' & Hrt & Hsto & Hq & Hn).
    unfold onResp. cbn [RspHeader Responses]. rewrite Hd. simpl. exists sv'. split; [done|]. split; [done|by rewrite Hrt|by rewrite Hsto| |].
    + intros q Hqp. destruct (routed_or_not sv q Hw) as [[id' Hid']|Hnone].
      * rewrite (Hq id' q Hid'). unfold for_session. rewrite filter_cons_False; [simpl; by rewrite app_nil_r|]. rewrite Hsid. simpl. intros ->. congruence.
      * unfold waiting. by rewrite Hn.
    + exists [inr (mark_error (Some h) r)]. rewrite Hsto, (Hq id p Hr). unfold for_session. rewrite filter_cons_True by (by rewrite Hsid). simpl. rewrite Ht, app_nil_r.
      split_and!; [|done|done]. repeat constructor. done.
Qed.
Lemma on_request_spec p id req sv : server_wf sv → settled (rs_store sv) → routed (rs_routing sv) id = Some p →
  Req_Cmd req ≠ [] → ∃ sv', on_value (VRequest req) p sv = Ok sv' ∧ served p id [req] sv sv'.
Proof.
  intros Hw Hs Hr Hc. destruct (from_proxy_same p sv Hw) as (Hw1 & Hr1 & Hs1 & Hi1 & Hwt). simpl.
  assert (session_id p sv = id) as Hid by (destruct (wf_live _ Hw _ _ Hr) as (s & Hsp & <- & _); unfold session_id; by rewrite Hsp).
  destruct (onProxyReq_spec p id req (update_session setFromProxy p sv)) as [(sv' & -> & Hsd)|(e & ->)]; [done|by rewrite Hs1|by rewrite Hr1|by rewrite Hi1|done| |].
  2: { eexists. split; [done|]. destruct (served_answer p id req (update_session setFromProxy p sv) (error_response (Req_UUID req) e)) as [? Hr2 ? Ho (vs & HF & Ht & Hw2)]; [done|by rewrite Hs1|by rewrite Hr1|done|].
    split; [done|by rewrite Hr2|done|intros; by rewrite Ho|]. exists vs. by rewrite Ht, Hw2, Hs1, Hwt. }
  destruct Hsd as [? Hr2 ? Ho (vs & HF & Ht & Hw2)].
  exists sv'. split; [done|]. split; [done|by rewrite Hr2|done|intros; by rewrite Ho|]. exists vs. by rewrite Ht, Hw2, Hs1, Hwt.
Qed.
Lemma on_requests_spec p id reqs : ∀ sv, server_wf sv → settled (rs_store sv) → routed (rs_routing sv) id = Some p →
  Forall (λ r, Req_Cmd r ≠ []) reqs → ∃ sv', on_values (VRequest <$> reqs) p sv = Ok sv' ∧ served p id reqs sv sv'.
Proof.
  induction reqs as [|req reqs IH]; intros sv Hw Hs Hr Hc.
  { exists sv. split; [done|]. split; [done..|]. exists []. simpl. rewrite !app_nil_r. done. }
  inversion_clear Hc as [|?? Hc1 Hc2]. destruct (on_request_spec p id req sv Hw Hs Hr Hc1) as (sv1 & Ho & Hsd). rewrite fmap_cons. cbn [on_values]. rewrite Ho. cbn [outcome_bind].
  destruct (IH sv1 (sd_wf _ _ _ _ _ Hsd) (sd_settled _ _ _ _ _ Hsd) ltac:(by rewrite (sd_routing _ _ _ _ _ Hsd)) Hc2) as (sv2 & -> & Hsd2).
  exists sv2. split; [done|]. by apply (served_trans p id [req] reqs sv sv1).
Qed.

(** Requests of a proxy are never lost: however the connection cuts their
    frames into pieces, a server reads exactly these requests, in order, and each
    one ends up either with the store, under the id of the session, or answered on
    that session under its own UUID; no other session sees anything. *)
Theorem proxied_requests_accounted batch st sv p id reqs chunks capacity :
  rtc (server_step batch) (init st) sv → settled (rs_store sv) → routed (rs_routing sv) id = Some p →
  Forall fits reqs → Forall (λ r, Req_Cmd r ≠ []) reqs →
  chunks ≠ [] → Forall (λ c, length c ≤ minScale)%nat chunks → concat chunks = concat (WriteProxyMessage RedisBegin <$> reqs) →
  ∃ b sv', receive readCommand chunks (NewByteBuf capacity) = Ok (VRequest <$> reqs, b) ∧ on_values (VRequest <$> reqs) p sv = Ok sv' ∧
    (∃ vs, Forall2 (verdict_of id) reqs vs ∧ taken (rs_store sv') = taken (rs_store sv) ++ accepted vs ∧ waiting sv' p = waiting sv p ++ answered vs) ∧
    ∀ q, q ≠ p → waiting sv' q = waiting sv q.
Proof.
  intros Hreach Hs Hr Hfits Hc Hne Hsz Heq.
  destruct (stream_roundtrip server_frame server_ok (readCommand (Rq := Request)) chunks (VRequest <$> reqs) (NewByteBuf capacity)) as (b & Hrecv & _);
    [apply NewByteBuf_content|by apply Forall_fmap|done|done|rewrite <-list_fmap_compose; by rewrite (proj2 (NewByteBuf_content capacity))|].
  destruct (on_requests_spec p id reqs sv (reachable_wf _ _ _ Hreach) Hs Hr Hc) as (sv' & Hon & [? ? ? ? ?]). by exists b, sv'.
Qed.

(** A store does not serve redis clients: its decoder gives the commands it
    reads the type of the vendored library, the server looks for its own, and so
    every valid stream of commands sent to a store directly is read to the end and
    changes nothing; no client gets an answer. *)
Theorem direct_commands_ignored sv p cmds chunks capacity :
  Forall ok_command cmds → chunks ≠ [] → Forall (λ c, length c ≤ minScale)%nat chunks → concat chunks = concat (write_command <$> cmds) →
  ∃ b vs, receive readCommand chunks (NewByteBuf capacity) = Ok (vs, b) ∧ content b = [] ∧ length vs = length cmds ∧ on_values vs p sv = Ok sv.
Proof.
  intros Hok Hne Hsz Heq.
  destruct (stream_roundtrip server_frame server_ok (readCommand (Rq := Request)) chunks (VGoettyCommand <$> cmds) (NewByteBuf capacity)) as (b & Hrecv & _ & Hb);
    [apply NewByteBuf_content|by apply Forall_fmap|done|done|rewrite <-list_fmap_compose; by rewrite (proj2 (NewByteBuf_content capacity))|].
  exists b, (VGoettyCommand <$> cmds). split_and!; [done|done|by rewrite length_fmap|]. clear. induction cmds as [|c cmds IH]; [done|]. rewrite fmap_cons. exact IH.
Qed.

(** C24. Responses find their client: whatever happened to a server before, the
    responses of the store are appended, in order and marked with the error of
    their header, to what waits for the session they name; a session that is not
    connected any more, and every other session, sees nothing. *)
Theorem responses_reach_their_session batch st sv resp :
  rtc (server_step batch) (init st) sv →
  ∃ sv', onResp resp sv = Ok sv' ∧ rs_routing sv' = rs_routing sv ∧ rs_store sv' = rs_store sv ∧
    (∀ id p, routed (rs_routing sv) id = Some p → live sv id p ∧
      waiting sv' p = waiting sv p ++ (mark_error (RspHeader resp) <$> filter (λ r, Rsp_SessionID r = id) (Responses resp))) ∧
    (∀ p, (∀ id, routed (rs_routing sv) id ≠ Some p) → rs_heap sv' !! p = rs_heap sv !! p).
Proof.
  intros Hw%reachable_wf. destruct (deliver_spec (RspHeader resp) (Responses resp) sv Hw) as (sv' & Hd & _ & Hr & Hs & Hq & Hn).
  exists sv'. split_and!; [done|done|done| |done]. intros id p Hp. split; [by apply wf_live|by apply Hq].
Qed.
End requests.

(** ** A server with a store that holds no cell *)
#[export] Instance request_eq_dec : EqDecision Request.
Proof. solve_decision. Defined.
#[export] Instance request_countable : Countable Request.
Proof.
  refine (inj_countable' (λ r, (Req_UUID r, Req_Type r, Req_Cmd r, Req_SessionID r)) (λ '(u, t, c, s), mkRequest u t c s) _). by intros [].
Defined.
Definition empty_store : Store unit unit (list CellItem) := mkStore 1 ∅ [] ∅ ∅ ∅ ∅ [] [] (mkWorld (λ _, tt) tt [] []).
#[local] Instance sample_service : StoreService (Store unit unit (list CellItem)) := store_service id (λ _, true) [] (λ _, []).
#[local] Instance sample_laws : StoreLaws (Store unit unit (list CellItem)) := store_laws id (λ _, true) [] (λ _, []).
#[local] Instance sample_request : Proto Request := countable_proto Request.
#[local] Instance sample_header : Proto RaftResponseHeader := written_only _.
#[local] Instance sample_response : Proto Response := written_only _.
#[local] Instance sample_floats : FloatText.
Proof. refine {| FormatFloat64ToBytes _ := []; StrFloat64 _ := (0, None) |}. intros _. done. Defined.
Definition sample_server : RedisServer (Store unit unit (list CellItem)) :=
  mkServer empty_store {[5%nat := newSession 3]} (set_bucket 3 {[3 := 5%nat]} newRouting).
Lemma sample_reachable : rtc (server_step 64) (init empty_store) sample_server.
Proof. apply rtc_once, (step_connect 64 5%nat 3); [done|]. vm_compute. reflexivity. Qed.
Definition ping_request : Request := mkRequest [x76] 0 [[x50; x69; x6e; x67]] 0.
(** A stream in pieces of [n] bytes. *)
Fixpoint pieces (k n : nat) (l : bytes) : list bytes :=
  match k with O => [l] | S k' => take n l :: pieces k' n (drop n l) end.

Lemma proxied_requests_accounted_witness :
  ∃ b sv', receive readCommand (pieces 9 60 (WriteProxyMessage RedisBegin ping_request)) (NewByteBuf 0) = Ok ([VRequest ping_request], b) ∧
    on_values [VRequest ping_request] 5%nat sample_server = Ok sv' ∧ length (waiting sv' 5%nat) = 1%nat.
Proof.
  destruct (proxied_requests_accounted 64 empty_store sample_server 5%nat 3 [ping_request] (pieces 9 60 (WriteProxyMessage RedisBegin ping_request)) 0)
    as (b & sv' & H1 & H2 & _);
    [exact sample_reachable|exact eq_refl|vm_compute; reflexivity|apply Forall_singleton; split; [exact I|vm_compute; reflexivity]|by apply Forall_singleton|done|apply (bool_decide_unpack _); vm_compute; exact I|vm_compute; reflexivity|].
  exists b, sv'. split_and!; [exact H1|exact H2|]. revert H2. vm_compute. by intros [= <-].
Defined.
Lemma direct_commands_ignored_witness :
  ∃ b vs, receive readCommand (pieces 2 7 (write_command [[x50; x69; x6e; x67]])) (NewByteBuf 0) = Ok (vs, b) ∧ on_values vs 5%nat sample_server = Ok sample_server.
Proof.
  destruct (direct_commands_ignored sample_server 5%nat [[[x50; x69; x6e; x67]]] (pieces 2 7 (write_command [[x50; x69; x6e; x67]])) 0) as (b & vs & H1 & _ & _ & H2);
    [apply Forall_singleton; split; [vm_compute; reflexivity|apply Forall_singleton; vm_compute; reflexivity]|done|apply (bool_decide_unpack _); vm_compute; exact I|vm_compute; reflexivity|].
  exists b, vs. split; [exact H1|exact H2].
Defined.
Lemma responses_reach_their_session_witness :
  ∃ sv', onResp (mkRaftRsp None [mkResponse [x75] 3 0 NoError emptyReply; mkResponse [x76] 4 0 NoError emptyReply] None) sample_server = Ok sv' ∧
    waiting sv' 5%nat = [mkResponse [x75] 3 0 NoError emptyReply].
Proof.
  destruct (responses_reach_their_session 64 empty_store sample_server
    (mkRaftRsp None [mkResponse [x75] 3 0 NoError emptyReply; mkResponse [x76] 4 0 NoError emptyReply] None) sample_reachable) as (sv' & H1 & _ & _ & H2 & _).
  exists sv'. split; [exact H1|]. destruct (H2 3 5%nat) as [_ ->]; [vm_compute; reflexivity|]. vm_compute. reflexivity.
Defined.
